(* ===== verification/_CoqProject ===== *)
-Q . S2P
Prelude.v
GoStd.v
Allocator.v
MarkAllocator.v
Pool.v
GoNet.v
GoFmt.v
IPUtil.v
IPAllocator.v
Types.v
Utils.v
GatewayCore.v
GatewayProps.v
ApiServer.v
GatewayReconcile.v
GatewayInvariant.v
Store.v
Egctl.v
ClusterTheorems.v
EndpointSlice.v
Webhook.v
WebhookTheorems.v
Triple.v
StateM.v
Sha1.v
Sha224.v
Tunnel.v
TunnelTheorems.v
TunnelStore.v
IptablesRule.v
IptablesTable.v
IptablesKernel.v
IptablesText.v
IptablesWrite.v
IptablesRead.v
IptablesUpdate.v
IptablesLoad.v
IptablesApply.v
IptablesRefs.v
IptablesTheorems.v
IptablesFrame.v
IptablesStore.v
IPSet.v
IPSetLaws.v
Police.v
PoliceSets.v
PoliceInfo.v
PoliceSafety.v
PoliceRules.v
PoliceTables.v
PoliceInit.v
PoliceStore.v
Announce.v
AnnounceTheorems.v
AnnounceStore.v
Netlink.v
Route.v
VxlanDevice.v
Vxlan.v
VxlanTheorems.v
VxlanStore.v
ClusterInfo.v
ClusterInfoTheorems.v
ClusterInfoStore.v
Sets.v
Coalescing.v
IptablesSystem.v
Config.v
Clean.v
EndToEnd.v
DataPath.v
DataPathStore.v
ClusterPath.v
PodPath.v
TrafficPath.v
