(* ===== verification/Prelude.v ===== *)
(** * EgressGateway: a verification development (root file and prelude)

    EgressGateway gives pods of a Kubernetes cluster fixed egress addresses.
    Users create [EgressGateway] objects (a pool of addresses and a selector of
    gateway nodes) and [EgressPolicy] or [EgressClusterPolicy] objects (which
    pods leave through which gateway).  The controller places addresses (EIPs)
    on gateway nodes, records them in the status of the gateway, copies them to
    the statuses of the policies, publishes the addresses of the selected pods
    in endpoint slices, and keeps a tunnel per node.  The agent on every node
    turns this state into iptables rules, ipsets, routes and a vxlan device.
    Admission webhooks check and complete what users write.

    ** The files

    - [Prelude] (this file): outcomes of Go code ([Ret], [Err], [Panic] and
      [Timeout] for a loop out of fuel), the loop [oforeach], the sources of
      nondeterminism of the runtime ([MapOrder]: the order of ranging over a
      map; [Rand]: drawn numbers), tactics and string lemmas.
    - [GoStd]: what the program uses of [strings] and [strconv].
    - [Allocator]: [vendor/github.com/cilium/ipam/service/allocator/bitmap.go],
      the bitmap [AllocationBitmap] as a set of offsets with a count.
    - [MarkAllocator]: [pkg/markallocator/allocator.go]; ranges of 32-bit packet
      marks on top of the bitmap.
    - [Pool]: what the tunnel controller asks of an allocator ([PoolOps] and
      [PoolLaws], in terms of a set of numbers in use); marks are an instance.
    - [GoNet]: [net.ParseIP], [IP.String], [net.ParseCIDR], [To4], [To16],
      masks; addresses are lists of bytes, [] is a nil [net.IP].
    - [GoFmt]: numbers in decimal and hexadecimal text ([strconv.Itoa], [%#x])
      with their round trip, words joined by spaces, the widths of runes.
    - [IPUtil]: [pkg/utils/ip/ip.go]; parsing, expanding, merging and comparing
      ranges and CIDR blocks.
    - [IPAllocator]: [vendor/github.com/cilium/ipam/service/ipallocator], the
      ranges of tunnel addresses on top of the bitmap; the other instance of
      [PoolLaws].
    - [Types]: [pkg/k8s/apis/v1beta1]; one record per struct, with the methods
      [GetNodeIPs], [ReadyCount], [IsEmpty], [IsEqual].
    - [Utils]: [pkg/utils] (request keys, finalizers, lists).
    - [GatewayCore]: the functions of [pkg/egressgateway/egress_gateway.go] that
      work on one gateway: [assignIP] (one definition per case), [getAssignedIP],
      [deleteEgressPolicy], [moveEipToReadyNode], [countGatewayIP], the watch
      predicates.  A gateway changed through a pointer is passed and returned.
    - [GatewayProps]: the invariant [gw_ok] of a gateway status and the theorems
      about these functions.
    - [ApiServer]: the API server as an interface: a type of cluster states, the
      calls the controllers make (class [ApiServer]) and what it promises of the
      stored gateway statuses ([ApiServerLaws]); the monad [M] of effectful
      code.
    - [GatewayReconcile]: the handlers of [egnReconciler], one definition each,
      dispatched by [Reconcile].
    - [GatewayInvariant]: every handler preserves the invariant of the stored
      statuses, wherever a call fails.
    - [Store]: an API server with resource versions, a status subresource,
      finalizers and scripted failures; it satisfies the laws and runs the
      witnesses.
    - [Egctl]: [cmd/egctl]; the command that moves an EIP to another node, a
      further client of the same API server.
    - [ClusterTheorems]: the controller and [egctl] among other clients as a
      transition system, and the theorems about whole handlers.
    - [EndpointSlice]: [pkg/controller/endpoint]; the plan of a reconcile
      (which slices to update, create, delete) for both kinds of slice through
      the class [SliceOps], and the reconcilers.
    - [Webhook], [WebhookTheorems]: [pkg/controller/webhook] and
      [pkg/egressgateway/egress_gateway_webhook.go]; what the accepted objects
      satisfy, against the interface [HookLaws].
    - [Triple]: triples [tri P c Q E] over the monad [M]: a precondition, a
      postcondition for a return and one for an error (a panic or a run out of
      fuel is never allowed); the rules the effectful components share.
    - [StateM]: components that keep a struct beside the outside world, and the
      clock.
    - [Sha1], [Sha224]: [crypto/sha1], from which MAC addresses are made, and
      [crypto/sha256.Sum224], from which rule hashes are made.
    - [Tunnel]: [pkg/controller/tunnel/egress_tunnel.go]; the handlers of
      [egReconciler], the rebuilding of its allocators at start and the health
      check, on any pools and against the calls [TunnelApi].  The deferred
      rollbacks of the handlers are kept ([exit]).
    - [TunnelTheorems]: the invariant of marks and addresses, with triples for
      handlers that may fail anywhere; what the API server promises is
      [TunnelLaws].
    - [TunnelStore]: an API server that satisfies [TunnelLaws], the witnesses,
      and histories in which the controller lets tunnels share a mark.
    - [IptablesRule]: [pkg/iptables/rules.go], [actions.go] and
      [match_builder.go]; matches, actions, and the rendering of rules as
      iptables-restore commands, with the hash chain [RuleHashes].
    - [IptablesTable]: [pkg/iptables/table.go] and [rule_builder.go]; the
      struct [Table] as a record and one definition per method, from
      [UpdateChain] to [Apply], against the calls [Iptables] (save, restore,
      now).  Go maps are [gmap]s; ranging over one asks [MapOrder].
    - [IptablesKernel]: what a table of the kernel is (chains of rules), what
      each restore command does to it, and the laws ([IptablesLaws]) under
      which save and restore are understood.  A rule is an opaque text of which
      the kernel promises to print back the comment that carries the hash
      ([KernelText]).
    - [IptablesText], [IptablesWrite], [IptablesRead], [IptablesUpdate],
      [IptablesLoad]: what is written and read back, line by line: the effect
      of a block of commands on the kernel, the reading of a listing, the
      building of an update and the comparison with the kernel.
    - [IptablesApply]: the triple of [Apply]; [IptablesRefs]: reference counts
      of chains; [IptablesTheorems]: the tables over any history of operations;
      [IptablesFrame]: what applying one table leaves alone;
      [IptablesStore]: two simulated kernels that satisfy the laws (one with
      scripted failures), and the witnesses.
    - [IptablesSystem]: [pkg/iptables/version.go], [binary.go] and [lock.go]; the
      version and mode of iptables, the choice of a command, and the lock that
      tables share, as a state machine of tables inside and outside of it.
    - [IPSet], [IPSetLaws]: [pkg/ipset]; the commands of [ipset] and what their
      users rely on ([InterfaceLaws]), derived from the behaviour of the
      commands ([ExecLaws]).
    - [Police]: [pkg/agent/police.go]; the agent's handlers of policies, gateways,
      tunnels, slices and the cluster info, the rules and sets they build, and
      the first run over everything ([initApplyPolicy]).  [PoliceSets] and
      [PoliceInfo]: the members of the sets; [PoliceSafety]: what no handler
      touches; [PoliceRules], [PoliceTables], [PoliceInit]: from the gateways of
      the cluster to the rules in the kernel, by composition with the theorems
      about [Apply]; [PoliceStore]: a node to run it on, and the witnesses.
    - [Announce]: [pkg/layer2] and [pkg/agent/eip.go]; the announcer with its
      reference counts, the ARP and NDP responders and the EIP reconciler, over
      an interface of the host's links and sockets.  [AnnounceTheorems]: the
      abstract announcer (a set of pairs of a policy and an address) and the
      refinement; [AnnounceStore]: a host and the witnesses.
    - [Netlink]: the part of the kernel that the agent's tunnels use (links,
      addresses, neighbours, rules, routes), its calls ([Netlink]) and their
      documented effects ([NetlinkLaws]).  [Route]: [pkg/agent/route];
      [VxlanDevice]: [pkg/agent/vxlan]; [Vxlan]: [pkg/agent/vxlan.go], the
      handlers and the loop [keepVXLAN]; [VxlanTheorems]; [VxlanStore]: a node
      and the witnesses.
    - [ClusterInfo], [ClusterInfoTheorems], [ClusterInfoStore]:
      [pkg/controller/clusterinfo]; which addresses are inside the cluster, as
      the controller collects them for the agents.
    - [Sets]: [pkg/utils/set].  [Coalescing]: [pkg/coalescing] and the vendored
      caches below it, against a debouncer that remembers everything.
      [Clean]: the clean-up command [cmd/controller/cmd/clean.go].
      [Config]: [pkg/config]; the loading of the configuration, and that what
      was loaded fits the tunnel controller and the agent.
    - Components joined, through the stored objects, which is how the program
      joins them: [EndToEnd] (gateway controller and the agents' tables),
      [DataPath] with [DataPathStore] (tunnel controller and the agents'
      tunnels), [TrafficPath] (both: the way of a packet to the node of its
      egress address), [PodPath] (endpoint slices and source sets), [ClusterPath]
      (cluster info and the sets of what is inside).  No new code is modelled
      here; the theorems use those of the components on both sides, and the
      witnesses run a controller and then an agent on what it stored.

    ** What the theorems show

    - Gateway statuses: over every run of the cluster, with any call failing,
      every stored status has distinct nodes, one EIP per policy, no address
      placed twice and no EIP without a policy
      ([ClusterTheorems.every_run_keeps_statuses_ok]); [assignIP] records a
      policy once and where [getAssignedIP] finds it, deletion undoes it and
      removes nothing else, the rr allocator finds an unused address of each
      pool whenever there is one, failover keeps every assignment unless the
      index of a node's own EIP is stale ([failover_uses_stale_index] says what
      happens then); a policy reconciled without error is in effect; a gateway
      in use keeps its finalizer.
    - Webhooks: admitted gateways have disjoint pools, default EIPs in their
      pools and one cluster default; an update cannot remove an address in use;
      admitted policies are well formed and keep gateway and addresses.
    - Endpoint slices publish one endpoint per selected pod, within the
      configured size.
    - An EIP moved by hand takes exactly its policies to the target node, and
      keeps the invariant of statuses.
    - Mark allocator: it refines a finite set of marks; no mark is handed out
      twice; allocation succeeds exactly while a mark is free.
    - Tunnels: while deletions are carried through, no two tunnels share a mark
      or a tunnel address, whatever else fails; a restart rebuilds the
      allocators exactly; a tunnel event leaves its tunnel with a mark and
      addresses whenever there are any left; the health check marks exactly the
      late tunnels.  Without the proviso on deletions the property is false
      ([removed_node_lets_tunnels_share]).  Tunnel addresses are fresh inner
      addresses of the configured block, of an IPv6 block the first 65534 and
      for blocks of [/64] or more bits.
    - Iptables tables: the state of a table stays consistent over any history of
      operations, of Applies that return and, where the prefixes cover the
      agent's chains, of failing ones; when an [Apply] that reads the table
      returns, the kernel holds exactly the wanted chains of the prefixes, in
      legacy mode all that were dirty, and the hook rules of the agent, and the
      rules of others are kept in their order; reference counts are the numbers of jumps that are wanted; the
      hash written with a rule is the hash read back.
    - Policies on a node: when the first run of the agent returns, the kernel's
      tables hold exactly the rules that the gateways call for
      ([PoliceInit.policies_programmed], for tables in legacy mode); an update
      of a policy leaves exactly its addresses in its sets, the cluster info
      exactly its addresses in its two sets, where the kernel prints them as
      they are written; no handler touches a set of another program.
    - Announcements: a request for an address is answered exactly when a policy
      holds it, or held it before it got another one on this node, over every
      run with failing calls; after a reconcile the
      addresses of a policy are answered on its node and nowhere else announced
      under its name.
    - Tunnels of a node: a turn of the loop without a logged error leaves device,
      neighbours, rules and routes as the peers call for, from any state of the
      kernel; the first reconcile after a start takes the address of some
      other node for its own ([init_takes_last_ready_tunnel]).
    - Cluster info: requested nodes, pools and info objects are in line with the
      status after any requests without an error.
    - Shared lock: the process holds the locks of iptables exactly while one of
      its tables is inside.  Coalescing is debouncing while there are at most
      1024 different requests.  A configuration that loads keeps the health
      check from evicting tunnels whose heartbeats are in time, names networks
      that hold what the controller allocates, and the right backend.
    - From controllers to kernels: on the node that the gateway controller
      assigned, the kernel has one SNAT rule for the policy with the assigned
      address, on every other node one rule with the mark of that node's tunnel
      (for tables in legacy mode and a policy of one gateway;
      [EndToEnd.assignments_reach_the_kernel]); the marks and addresses that
      the tunnel controller handed out lead, on every node that has seen the
      tunnel, to that tunnel and no other
      ([DataPath.tunnels_reach_the_kernel]); together, the packets of a policy
      are marked on every other node and led to the assigned node
      ([TrafficPath.egress_traffic_reaches_its_node]); the sources of a policy are the
      addresses of its pods ([PodPath.pods_reach_the_sets]); nodes, pools and
      the user's blocks count as inside
      ([ClusterPath.cluster_addresses_stay_inside]).
    - IP utilities: merging is canonical and keeps the addresses, membership and
      difference are those of sets of addresses.
    - Loops: [reconcileGateway]'s node loop ends; the expansion of some ranges
      and the creation of slices of size 0 do not.

    ** Fuel

    [rangeLoop] has one turn per address between the ends of the range, which
    is enough whenever the loop ends at all; [cidrLoop] has one per address of
    the block; [nodeLoop] has two per node ([nodeLoop_terminates]);
    [createSlices] has one per endpoint, enough for a positive size.  The
    tunnel controller tries to rebuild its allocators until it succeeds
    ([retry]); one attempt is enough when the stored tunnels are consistent
    ([restart_restores_allocators]), and no bound is enough against calls that
    keep failing.  [Apply] tries ten times to write and three times to read, as
    in the code; the loop that doubles the delay until the next check has
    [applyFuel] (42) turns, enough because it stops at an hour and an hour is
    less than 2^42 ns ([postWriteLoop_total]).  The agent's first run and the detection of service ranges try
    again until they succeed: their fuel bounds the tries, the theorems are about
    runs that return, and [no_info_no_return] shows one that never does.  The
    loop that grabs a lock ends after its timeout ([grabLoop_ends]).

    ** What is not modelled

    Texts of errors and log messages without their arguments; JSON (requests
    carry decoded objects); the set-up of managers and watches; resource
    versions other than through the API server's answers; timers, but for the
    readings of clocks that decide something.  Goroutines: handlers and loops of
    one component run one at a time, as their mutexes and work queues provide;
    interleavings are those of their calls with other programs, and of tables
    with the shared lock.  Of [pkg/iptables] the waits between retries, the
    [String] methods and the line limit of the scanner are left out; of
    [pkg/ipset] [TestEntry], which nothing calls.  In the kernel model a command
    that deletes a chain does not check that no rule refers to it, nor a jump that
    its chain exists: the theorems speak of what restores that succeed have done,
    and only the lemma [apply_succeeds_when_calm] assumes that they succeed.  Netlink, raw
    sockets, [ipset], [iptables-save] and [iptables-restore] are interfaces with
    laws that simulated hosts satisfy.  [pkg/ethtool] (ioctl calls), [pkg/lock]
    (wrappers of [sync]), metrics, logging, generated deep copies, the test tools
    and the set-up of the command lines are not modelled. *)

From stdpp Require Export base list list_numbers strings gmap fin_maps sorting.
From Stdlib Require Export ZArith Lia Ascii.

(** ** Outcomes of Go code *)

(** Errors of the Kubernetes API that the program distinguishes with
    [errors.IsNotFound] and [errors.IsConflict]; every other failure of a
    call is [OtherApi]. *)
Inductive apiError :=
| NotFound
| Conflict
| OtherApi.

(** A Go [error] value: a plain error carrying its text (the arguments a
    format string interpolates are dropped), or an API error. *)
Inductive error :=
| ErrNew (msg : string)
| ErrApi (e : apiError).

#[export] Instance apiError_eq_dec : EqDecision apiError.
Proof. solve_decision. Defined.
#[export] Instance error_eq_dec : EqDecision error.
Proof. solve_decision. Defined.

(** What running a piece of Go code gives: a value, a returned error, a
    run-time panic, or (for a loop that is run with fuel) exhausted fuel. *)
Inductive outcome (A : Type) : Type :=
| Ret (a : A)
| Err (e : error)
| Panic (why : string)
| Timeout.
Arguments Ret {A} a.
Arguments Err {A} e.
Arguments Panic {A} why.
Arguments Timeout {A}.

#[export] Instance outcome_eq_dec {A} `{EqDecision A} : EqDecision (outcome A).
Proof. solve_decision. Defined.

Definition obind {A B} (c : outcome A) (k : A → outcome B) : outcome B :=
  match c with
  | Ret a => k a
  | Err e => Err e
  | Panic w => Panic w
  | Timeout => Timeout
  end.

Declare Scope go_scope.
Delimit Scope go_scope with go.
Notation "'let!' x ':=' c 'in' k" := (obind c (λ x, k))
  (at level 10, x pattern, c at level 100, k at level 200,
   format "'let!'  x  ':='  c  'in' '//' k") : go_scope.
Open Scope go_scope.

Definition is_ret {A} (c : outcome A) : bool :=
  match c with Ret _ => true | _ => false end.

Lemma obind_ret_inv {A B} (c : outcome A) (k : A → outcome B) b :
  obind c k = Ret b → ∃ a, c = Ret a ∧ k a = Ret b.
Proof. destruct c; simpl; intros; eauto; discriminate. Qed.

(** Split a hypothesis that a sequence of calls returned into the hypotheses
    that each call returned. *)
Ltac inv_ret :=
  repeat match goal with
  | H : obind _ _ = Ret _ |- _ =>
      let a := fresh "a" in let Ha := fresh "Hret" in
      apply obind_ret_inv in H; destruct H as (a & Ha & H); simpl in H
  | H : Ret _ = Ret _ |- _ => injection H as H; subst
  | H : Err _ = Ret _ |- _ => discriminate H
  | H : Panic _ = Ret _ |- _ => discriminate H
  | H : Timeout = Ret _ |- _ => discriminate H
  end.

(** Case analysis on the innermost test of the goal or of a hypothesis. *)
Ltac split_if :=
  match goal with
  | |- context [if ?b then _ else _] => let E := fresh "E" in destruct b eqn:E
  | H : context [if ?b then _ else _] |- _ => let E := fresh "E" in destruct b eqn:E
  end.

(** [for _, x := range l] with an early return on the first error. *)
Fixpoint oforeach {A S} (f : A → S → outcome S) (l : list A) (s : S) : outcome S :=
  match l with
  | [] => Ret s
  | x :: l' => let! s' := f x s in oforeach f l' s'
  end.

(** ** Sources of nondeterminism of the language runtime *)

(** The order in which [for k := range m] visits the keys of a Go map is not
    specified: it is some permutation of the keys. *)
Class MapOrder := {
  map_order : list string → list string;
  map_order_perm : ∀ l, map_order l ≡ₚ l
}.

(** Ranging over a map that is not keyed by strings. *)
Class KeyOrder (K : Type) := {
  key_order : list K → list K;
  key_order_perm : ∀ l, key_order l ≡ₚ l
}.

(** [rand.Intn]: the [i]-th draw from a generator, below its bound. *)
Class Rand := {
  Intn : nat → nat → nat;
  Intn_lt : ∀ i n, 0 < n → Intn i n < n
}.

(** ** Strings as lists of characters *)

Abbreviation chars := String.list_ascii_of_string.
Abbreviation unchars := String.string_of_list_ascii.

Lemma chars_unchars l : chars (unchars l) = l.
Proof. apply String.list_ascii_of_string_of_list_ascii. Qed.
Lemma unchars_chars s : unchars (chars s) = s.
Proof. apply String.string_of_list_ascii_of_string. Qed.

Lemma chars_app s t : chars (s +:+ t) = chars s ++ chars t.
Proof. induction s; simpl; [done|]. by f_equal. Qed.

Lemma chars_inj s t : chars s = chars t → s = t.
Proof. intros H. by rewrite <- (unchars_chars s), H, unchars_chars. Qed.

Create HintDb egress discriminated.
Create Rewrite HintDb egress.
#[export] Hint Rewrite chars_unchars unchars_chars chars_app : egress.


(** A generator that always draws the least number, and an iteration order
    that keeps the order of insertion: instances to run the models with. *)
Definition rand_zero : Rand.
Proof. refine {| Intn := λ _ _, 0 |}. auto. Defined.
Definition map_order_id : MapOrder.
Proof. refine {| map_order := λ l, l |}. auto. Defined.
