(* ===== verification/GoStd.v ===== *)
(** * Go's [strings] and [strconv], as far as the program uses them

    The functions work on lists of characters; the [string] versions used by
    the components convert at the boundary ([chars] and [unchars] of the
    prelude). *)

From S2P Require Import Prelude.
Open Scope Z_scope.

(** ** strings *)

(** [strings.Split(s, sep)] for a separator of one character. *)
Fixpoint splitOn (sep : ascii) (l : list ascii) : list (list ascii) :=
  match l with
  | [] => [[]]
  | c :: l' =>
      if decide (c = sep) then [] :: splitOn sep l'
      else match splitOn sep l' with
           | w :: ws => (c :: w) :: ws
           | [] => [[c]]
           end
  end.

Definition Split (s : string) (sep : ascii) : list string :=
  unchars <$> splitOn sep (chars s).

(** [strings.Contains(s, c)] for a pattern of one character. *)
Definition containsChar (c : ascii) (l : list ascii) : bool := bool_decide (c ∈ l).

Lemma splitOn_nonnil sep l : splitOn sep l ≠ [].
Proof. destruct l as [|c l]; simpl; [done|]. case_decide; [done|]. by destruct (splitOn sep l). Qed.

Lemma splitOn_none sep l : sep ∉ l → splitOn sep l = [l].
Proof.
  induction l as [|c l IH]; simpl; [done|].
  rewrite not_elem_of_cons. intros [Hc Hl].
  rewrite decide_False by congruence. by rewrite IH.
Qed.

Lemma splitOn_app sep l1 l2 :
  sep ∉ l1 → splitOn sep (l1 ++ sep :: l2) = l1 :: splitOn sep l2.
Proof.
  induction l1 as [|c l IH]; simpl.
  - by rewrite decide_True.
  - rewrite not_elem_of_cons. intros [Hc Hl].
    rewrite decide_False by congruence. by rewrite IH.
Qed.

(** [strings.ReplaceAll(s, "0x", "")]: non-overlapping occurrences are
    dropped from left to right. *)
Fixpoint drop0x (l : list ascii) : list ascii :=
  match l with
  | c :: l' =>
      match l' with
      | d :: l'' =>
          if decide (c = "0"%char ∧ d = "x"%char) then drop0x l'' else c :: drop0x l'
      | [] => [c]
      end
  | [] => []
  end.

Lemma drop0x_id l : "x"%char ∉ l → drop0x l = l.
Proof.
  induction l as [|c [|d l] IH]; [done..|].
  intros Hx. cbn [drop0x]. rewrite decide_False by set_solver.
  f_equal. apply IH. set_solver.
Qed.

(** ** strconv *)

Definition hexval (c : ascii) : option Z :=
  let n := Z.of_N (N_of_ascii c) in
  if (48 <=? n) && (n <=? 57) then Some (n - 48)
  else if (97 <=? n) && (n <=? 102) then Some (n - 87)
  else if (65 <=? n) && (n <=? 70) then Some (n - 55)
  else None.

Definition hexdigit (d : Z) : ascii :=
  ascii_of_N (Z.to_N (if d <? 10 then d + 48 else d + 87)).

Definition ErrSyntax : error := ErrNew "invalid syntax".
Definition ErrRange : error := ErrNew "value out of range".

Definition maxUint64 : Z := 2 ^ 64 - 1.

(** The digit loop of [strconv.ParseUint(s, 16, 64)]. *)
Fixpoint parseHex (l : list ascii) (n : Z) : outcome Z :=
  match l with
  | [] => Ret n
  | c :: l' =>
      match hexval c with
      | None => Err ErrSyntax
      | Some d => if maxUint64 <? n * 16 + d then Err ErrRange else parseHex l' (n * 16 + d)
      end
  end.

Definition ParseUint16 (l : list ascii) : outcome Z :=
  match l with [] => Err ErrSyntax | _ => parseHex l 0 end.

(** [strconv.ParseInt(_, 16, 32)]. *)
Definition ParseInt16_32 (l : list ascii) : outcome Z :=
  let '(neg, l) := match l with "-"%char :: l => (true, l) | "+"%char :: l => (false, l) | l => (false, l) end in
  let! n := ParseUint16 l in
  let v := if neg : bool then (- n) else n in
  if decide (- 2 ^ 31 <= v < 2 ^ 31) then Ret v else Err ErrRange.

(** [strconv.FormatUint(n, 16)]; 64 digits are enough for any uint64. *)
Fixpoint formatHex (fuel : nat) (n : Z) : list ascii :=
  match fuel with
  | O => []
  | S fuel' => if n <? 16 then [hexdigit n] else formatHex fuel' (n / 16) ++ [hexdigit (n mod 16)]
  end.

Definition FormatUint16 (n : Z) : list ascii := formatHex 64 n.

(** A 64-bit two's complement conversion ([int(x)] of a wider value). *)
Definition toInt64 (z : Z) : Z :=
  let m := z mod 2 ^ 64 in if m <? 2 ^ 63 then m else m - 2 ^ 64.

Lemma toInt64_small z : - 2 ^ 63 <= z < 2 ^ 63 → toInt64 z = z.
Proof.
  intros H. unfold toInt64. destruct (decide (0 <= z)).
  - rewrite Z.mod_small by lia. destruct (z <? 2 ^ 63) eqn:E; lia.
  - rewrite <- (Z.mod_add z 1) by lia. rewrite Z.mul_1_l, Z.mod_small by lia.
    destruct (z + 2 ^ 64 <? 2 ^ 63) eqn:E; lia.
Qed.

(** [time.Second * time.Duration(n)], in nanoseconds: the product wraps around. *)
Definition timeSeconds (n : Z) : Z := toInt64 (1000000000 * n).

(** Any statement about the sixteen hexadecimal digits is a finite check. *)
Lemma digit_ind (P : Z → Prop) :
  P 0 → P 1 → P 2 → P 3 → P 4 → P 5 → P 6 → P 7 → P 8 → P 9 → P 10 → P 11 → P 12 →
  P 13 → P 14 → P 15 → ∀ d, 0 <= d < 16 → P d.
Proof.
  intros. assert (d = 0 ∨ d = 1 ∨ d = 2 ∨ d = 3 ∨ d = 4 ∨ d = 5 ∨ d = 6 ∨ d = 7 ∨ d = 8 ∨ d = 9
    ∨ d = 10 ∨ d = 11 ∨ d = 12 ∨ d = 13 ∨ d = 14 ∨ d = 15) as Hd by lia.
  repeat destruct Hd as [->|Hd]; try done. by subst.
Qed.

Lemma hexval_hexdigit d : 0 <= d < 16 → hexval (hexdigit d) = Some d.
Proof. revert d. apply digit_ind; reflexivity. Qed.

Lemma hexdigit_not_x d : 0 <= d < 16 → hexdigit d ≠ "x"%char.
Proof. revert d. apply digit_ind; discriminate. Qed.

Lemma formatHex_nonnil fuel n : fuel ≠ O → formatHex fuel n ≠ [].
Proof. destruct fuel; [done|]. intros _. simpl. destruct (n <? 16); [done|]. by destruct (formatHex _ _). Qed.

Lemma formatHex_no_x fuel n : 0 <= n → "x"%char ∉ formatHex fuel n.
Proof.
  revert n. induction fuel as [|fuel IH]; intros n Hn; simpl; [set_solver|].
  destruct (Z.ltb_spec n 16).
  - pose proof (hexdigit_not_x n ltac:(lia)). set_solver.
  - pose proof (IH (n / 16) ltac:(apply Z.div_pos; lia)).
    pose proof (hexdigit_not_x (n mod 16) ltac:(apply Z.mod_pos_bound; lia)). set_solver.
Qed.

Lemma parseHex_app l1 l2 n :
  parseHex (l1 ++ l2) n = let! m := parseHex l1 n in parseHex l2 m.
Proof.
  revert n. induction l1 as [|c l1 IH]; intros n; simpl; [done|].
  destruct (hexval c); [|done]. by destruct (_ <? _).
Qed.

Lemma parseHex_formatHex fuel n :
  0 <= n <= maxUint64 → n < 16 ^ Z.of_nat fuel → parseHex (formatHex fuel n) 0 = Ret n.
Proof.
  revert n. induction fuel as [|fuel IH]; intros n Hn Hf; [simpl in *; f_equal; lia|].
  simpl formatHex. destruct (Z.ltb_spec n 16).
  - cbn [parseHex]. rewrite hexval_hexdigit by lia.
    destruct (Z.ltb_spec maxUint64 (0 * 16 + n)); [lia|done].
  - pose proof (Z.mod_pos_bound n 16 ltac:(lia)).
    pose proof (Z.div_mod n 16 ltac:(lia)).
    rewrite parseHex_app, IH.
    + cbn [obind parseHex]. rewrite hexval_hexdigit by lia.
      destruct (Z.ltb_spec maxUint64 (n / 16 * 16 + n mod 16)); [lia|]. f_equal. lia.
    + lia.
    + rewrite Nat2Z.inj_succ, Z.pow_succ_r in Hf by lia. apply Z.div_lt_upper_bound; lia.
Qed.

(** Printing a uint64 in base 16 and parsing the digits back gives it. *)
Lemma ParseUint16_Format n :
  0 <= n <= maxUint64 → ParseUint16 (FormatUint16 n) = Ret n.
Proof.
  intros Hn. unfold ParseUint16, FormatUint16.
  pose proof (formatHex_nonnil 64 n ltac:(done)).
  destruct (formatHex 64 n) eqn:E; [done|]. rewrite <- E.
  apply parseHex_formatHex; [done|]. unfold maxUint64 in Hn. lia.
Qed.

Lemma parseHex_range l n m : 0 <= n <= maxUint64 → parseHex l n = Ret m → 0 <= m <= maxUint64.
Proof.
  revert n. induction l as [|c l IH]; simpl; intros n Hn H; [by inv_ret|].
  destruct (hexval c) as [d|] eqn:Ed; [|done].
  destruct (Z.ltb_spec maxUint64 (n * 16 + d)); [done|].
  apply IH in H; [done|]. unfold hexval in Ed. repeat split_if; simplify_eq; lia.
Qed.

Lemma ParseUint16_range l n : ParseUint16 l = Ret n → 0 <= n <= maxUint64.
Proof. destruct l; [done|]. apply parseHex_range. unfold maxUint64. lia. Qed.

#[export] Hint Rewrite drop0x_id using (apply formatHex_no_x; lia) : egress.
