(* ===== verification/Allocator.v ===== *)
(** * The allocation bitmap behind the mark allocator

    [allocator.Interface] is what [pkg/markallocator] asks of an allocator of
    small integers; [AllocationBitmap] (vendored from cilium/ipam) is the
    implementation the program uses, with its random scan strategy.  The
    interface is the class [AllocOps] with its laws [AllocLaws]; the bitmap
    discharges the laws. *)

From S2P Require Import Prelude.
Open Scope Z_scope.

(** ** The interface *)

Class AllocOps (T : Type) := {
  alloc_Allocate : Z → T → outcome (bool * T);
  alloc_AllocateNext : T → outcome (Z * bool * T);
  alloc_Release : Z → T → outcome T;
  alloc_ForEach : T → list Z;
  alloc_Has : Z → T → outcome bool
}.

(** The abstract state is the set of offsets that are taken, within
    [0 .. cap - 1]. *)
Class AllocLaws (T : Type) `{AllocOps T} := {
  items : T → gset Z;
  cap : T → Z;
  alloc_wf : T → Prop;
  items_bound t i : alloc_wf t → i ∈ items t → 0 <= i < cap t;
  Allocate_taken t i : alloc_wf t → i ∈ items t → alloc_Allocate i t = Ret (false, t);
  Allocate_free t i : alloc_wf t → 0 <= i < cap t → i ∉ items t →
    ∃ t', alloc_Allocate i t = Ret (true, t') ∧ alloc_wf t' ∧ cap t' = cap t ∧
      items t' = {[i]} ∪ items t;
  AllocateNext_full t : alloc_wf t → (∀ i, 0 <= i < cap t → i ∈ items t) →
    alloc_AllocateNext t = Ret (0, false, t);
  AllocateNext_free t j : alloc_wf t → 0 <= j < cap t → j ∉ items t →
    ∃ i t', alloc_AllocateNext t = Ret (i, true, t') ∧ alloc_wf t' ∧ cap t' = cap t ∧
      0 <= i < cap t ∧ (i ∉ items t) ∧ items t' = {[i]} ∪ items t;
  Release_law t i : alloc_wf t → 0 <= i < cap t →
    ∃ t', alloc_Release i t = Ret t' ∧ alloc_wf t' ∧ cap t' = cap t ∧
      items t' = items t ∖ {[i]};
  ForEach_law t i : alloc_wf t → (i ∈ alloc_ForEach t ↔ i ∈ items t);
  Has_law t i : alloc_wf t → 0 <= i → alloc_Has i t = Ret (bool_decide (i ∈ items t))
}.

(** ** The bitmap *)

(** [lock] and [rangeSpec] play no part in the operations below; [bm_draws]
    counts the numbers drawn from the strategy's random source. *)
Record AllocationBitmap := mkBitmap {
  bm_max : Z;
  bm_count : Z;
  bm_allocated : Z;
  bm_draws : nat
}.

Definition NewAllocationMap (max : Z) : AllocationBitmap := mkBitmap max 0 0 0.

(** [big.Int.Bit] panics on a negative index. *)
Definition bigBit (x i : Z) : outcome bool :=
  if i <? 0 then Panic "negative bit index" else Ret (Z.testbit x i).

Definition Allocate (offset : Z) (r : AllocationBitmap) : outcome (bool * AllocationBitmap) :=
  let! b := bigBit (bm_allocated r) offset in
  if b then Ret (false, r)
  else Ret (true, mkBitmap (bm_max r) (bm_count r + 1) (Z.setbit (bm_allocated r) offset) (bm_draws r)).

(** The [for i := 0; i < max; i++] loop of [randomScanStrategy.AllocateBit];
    [fuel] is the number of iterations left. *)
Fixpoint scanBits (fuel : nat) (allocated offset max i : Z) : option Z :=
  match fuel with
  | O => None
  | S fuel' =>
      let at_ := (offset + i) mod max in
      if Z.testbit allocated at_ then scanBits fuel' allocated offset max (i + 1) else Some at_
  end.

Section bitmap.
Context `{Rand}.

Definition AllocateBit (draw : nat) (allocated max count : Z) : option Z :=
  if max <=? count then None
  else
    let offset := Z.of_nat (Intn draw (Z.to_nat max)) in
    scanBits (Z.to_nat max) allocated offset max 0.

Definition AllocateNext (r : AllocationBitmap) : outcome (Z * bool * AllocationBitmap) :=
  match AllocateBit (bm_draws r) (bm_allocated r) (bm_max r) (bm_count r) with
  | None => Ret (0, false, r)
  | Some next =>
      Ret (next, true,
           mkBitmap (bm_max r) (bm_count r + 1) (Z.setbit (bm_allocated r) next) (S (bm_draws r)))
  end.

Definition Release (offset : Z) (r : AllocationBitmap) : outcome AllocationBitmap :=
  let! b := bigBit (bm_allocated r) offset in
  if b
  then Ret (mkBitmap (bm_max r) (bm_count r - 1) (Z.clearbit (bm_allocated r) offset) (bm_draws r))
  else Ret r.

(** The word loop of [ForEach] visits the set bits in increasing order. *)
Definition ForEach (r : AllocationBitmap) : list Z :=
  filter (λ i, Z.testbit (bm_allocated r) i = true) (seqZ 0 (Z.log2 (bm_allocated r) + 1)).

Definition Has (offset : Z) (r : AllocationBitmap) : outcome bool :=
  bigBit (bm_allocated r) offset.

#[export] Instance bitmap_ops : AllocOps AllocationBitmap := {|
  alloc_Allocate := Allocate;
  alloc_AllocateNext := AllocateNext;
  alloc_Release := Release;
  alloc_ForEach := ForEach;
  alloc_Has := Has
|}.

(** *** The invariant: the set bits lie below [max] and [count] counts them *)

Definition bits (r : AllocationBitmap) : gset Z :=
  list_to_set (filter (λ i, Z.testbit (bm_allocated r) i = true) (seqZ 0 (bm_max r))).

Definition bitmap_wf (r : AllocationBitmap) : Prop :=
  0 <= bm_allocated r ∧
  (∀ i, Z.testbit (bm_allocated r) i = true → 0 <= i < bm_max r) ∧
  bm_count r = Z.of_nat (size (bits r)).

Lemma elem_of_bits r i : 
  (∀ i, Z.testbit (bm_allocated r) i = true → 0 <= i < bm_max r) →
  i ∈ bits r ↔ Z.testbit (bm_allocated r) i = true.
Proof.
  intros Hb. unfold bits. rewrite elem_of_list_to_set, list_elem_of_filter, elem_of_seqZ.
  split; [by intros [? _]|]. intros Hi. specialize (Hb _ Hi). split; [done|lia].
Qed.

Lemma size_range (max : Z) :
  size (list_to_set (seqZ 0 max) : gset Z) = Z.to_nat max.
Proof. rewrite size_list_to_set by apply NoDup_seqZ. by rewrite length_seqZ. Qed.

Lemma scanBits_some fuel allocated offset max i j :
  0 < max → scanBits fuel allocated offset max i = Some j →
  0 <= j < max ∧ Z.testbit allocated j = false.
Proof.
  intros Hm. revert i. induction fuel as [|fuel IH]; intros i; simpl; [done|].
  destruct (Z.testbit allocated ((offset + i) mod max)) eqn:E; [apply IH|]. intros [= <-].
  split; [apply Z.mod_pos_bound; lia|done].
Qed.

Lemma scanBits_none fuel allocated offset max i k :
  scanBits fuel allocated offset max i = None →
  i <= k < i + Z.of_nat fuel → Z.testbit allocated ((offset + k) mod max) = true.
Proof.
  revert i. induction fuel as [|fuel IH]; intros i; simpl; [lia|].
  destruct (Z.testbit allocated ((offset + i) mod max)) eqn:E; [|done]. intros Hn Hk.
  destruct (decide (k = i)) as [->|]; [done|]. apply (IH (i + 1)); [done|lia].
Qed.

(** The scan covers the whole range, wherever it starts. *)
Lemma scanBits_complete allocated offset max j :
  0 <= j < max → Z.testbit allocated j = false →
  scanBits (Z.to_nat max) allocated offset max 0 ≠ None.
Proof.
  intros Hj Hb Hn. pose proof (Z.mod_pos_bound (j - offset) max ltac:(lia)).
  pose proof (scanBits_none _ _ _ _ _ ((j - offset) mod max) Hn ltac:(lia)) as Ht.
  rewrite Z.add_mod_idemp_r in Ht by lia.
  replace (offset + (j - offset)) with j in Ht by lia.
  rewrite Z.mod_small in Ht by lia. congruence.
Qed.

(** Setting a free bit, and clearing a bit, keep the invariant. *)
Lemma bitmap_set r i n :
  bitmap_wf r → 0 <= i < bm_max r → Z.testbit (bm_allocated r) i = false →
  let r' := mkBitmap (bm_max r) (bm_count r + 1) (Z.setbit (bm_allocated r) i) n in
  bitmap_wf r' ∧ bits r' = {[i]} ∪ bits r.
Proof.
  intros (Hpos & Hb & Hc) Hi Hf r'.
  assert (∀ j, Z.testbit (bm_allocated r') j = true → 0 <= j < bm_max r') as Hb'.
  { intros j. simpl. destruct (decide (j < 0)); [by rewrite Z.testbit_neg_r|].
    rewrite Z.setbit_eqb by lia. destruct (Z.eqb_spec i j); [lia|]. apply Hb. }
  assert (bits r' = {[i]} ∪ bits r) as Hbits.
  { apply set_eq. intros j. rewrite elem_of_union, elem_of_singleton, !elem_of_bits by done.
    simpl. destruct (decide (j < 0)).
    { rewrite !Z.testbit_neg_r by done. split; [done|]. intros [->|?]; [lia|done]. }
    rewrite Z.setbit_eqb by lia. destruct (Z.eqb_spec i j); simpl; naive_solver. }
  split; [|done]. split_and!; [|done|].
  - simpl. unfold Z.setbit. apply Z.lor_nonneg. split; [done|].
    apply Z.shiftl_nonneg. lia.
  - rewrite Hbits, size_union, size_singleton.
    + simpl. lia.
    + apply disjoint_singleton_l. rewrite elem_of_bits by done. congruence.
Qed.

Lemma bitmap_clear r i n :
  bitmap_wf r → Z.testbit (bm_allocated r) i = true →
  let r' := mkBitmap (bm_max r) (bm_count r - 1) (Z.clearbit (bm_allocated r) i) n in
  bitmap_wf r' ∧ bits r' = bits r ∖ {[i]}.
Proof.
  intros (Hpos & Hb & Hc) Hi r'. pose proof (Hb _ Hi).
  assert (∀ j, Z.testbit (bm_allocated r') j = true → 0 <= j < bm_max r') as Hb'.
  { intros j. simpl. rewrite Z.clearbit_eqb by lia. intros [? _]%andb_prop. auto. }
  assert (bits r' = bits r ∖ {[i]}) as Hbits.
  { apply set_eq. intros j. rewrite elem_of_difference, elem_of_singleton, !elem_of_bits by done.
    simpl. rewrite Z.clearbit_eqb by lia. destruct (Z.eqb_spec i j); simpl;
    rewrite ?andb_true_r, ?andb_false_r; naive_solver. }
  split; [|done]. split_and!; [|done|].
  - simpl. unfold Z.clearbit. apply Z.ldiff_nonneg. auto.
  - rewrite Hbits, size_difference, size_singleton.
    + simpl. assert (size (bits r) ≠ 0%nat).
      { apply size_non_empty_iff. assert (i ∈ bits r) by by apply elem_of_bits. set_solver. }
      lia.
    + apply singleton_subseteq_l. by apply elem_of_bits.
Qed.

(** A full bitmap is exactly one whose count reached [max]. *)
Lemma bitmap_full r :
  bitmap_wf r → bm_max r <= bm_count r → ∀ i, 0 <= i < bm_max r → i ∈ bits r.
Proof.
  intros (Hpos & Hb & Hc) Hm i Hi.
  assert (bits r ⊆ list_to_set (seqZ 0 (bm_max r))) as Hsub.
  { intros j Hj. apply elem_of_bits in Hj; [|done].
    rewrite elem_of_list_to_set, elem_of_seqZ. apply Hb in Hj. lia. }
  rewrite (set_subseteq_size_eq _ _ Hsub) by (rewrite size_range; lia).
  rewrite elem_of_list_to_set, elem_of_seqZ. lia.
Qed.

Lemma bigBit_nonneg x i : 0 <= i → bigBit x i = Ret (Z.testbit x i).
Proof. unfold bigBit. destruct (Z.ltb_spec i 0); [lia|done]. Qed.

Lemma bit_set r i : bitmap_wf r → i ∈ bits r → Z.testbit (bm_allocated r) i = true.
Proof. intros (_ & Hb & _). by rewrite elem_of_bits. Qed.

Lemma bit_clear r i : bitmap_wf r → i ∉ bits r → Z.testbit (bm_allocated r) i = false.
Proof. intros (_ & Hb & _). rewrite elem_of_bits by done. by destruct (Z.testbit _ _). Qed.

(** A free offset below [max] makes the strategy find one. *)
Lemma AllocateBit_finds r j :
  bitmap_wf r → 0 <= j < bm_max r → j ∉ bits r →
  ∃ i, AllocateBit (bm_draws r) (bm_allocated r) (bm_max r) (bm_count r) = Some i ∧
    0 <= i < bm_max r ∧ Z.testbit (bm_allocated r) i = false.
Proof.
  intros Hwf Hj Hfree. unfold AllocateBit. destruct (Z.leb_spec (bm_max r) (bm_count r)) as [Hle|_].
  { destruct Hfree. by apply bitmap_full. }
  destruct (scanBits _ _ _ _ _) as [i|] eqn:E.
  - apply scanBits_some in E; [eauto|lia].
  - exfalso. eapply scanBits_complete; [exact Hj| |exact E]. by apply bit_clear.
Qed.

Lemma AllocateBit_full r :
  bitmap_wf r → (∀ i, 0 <= i < bm_max r → i ∈ bits r) →
  AllocateBit (bm_draws r) (bm_allocated r) (bm_max r) (bm_count r) = None.
Proof.
  intros Hwf Hall. unfold AllocateBit. destruct (Z.leb_spec (bm_max r) (bm_count r)) as [|Hlt]; [done|].
  destruct (scanBits _ _ _ _ _) as [i|] eqn:E; [|done].
  apply scanBits_some in E as [Hi Hb]; [|destruct Hwf as (?&?&?); lia].
  rewrite (bit_set r) in Hb; [done..|]. by apply Hall.
Qed.

#[export] Program Instance bitmap_laws : AllocLaws AllocationBitmap := {|
  items := bits; cap := bm_max; alloc_wf := bitmap_wf
|}.
Next Obligation. intros r i (_ & Hb & Hc) Hi. apply Hb. by apply elem_of_bits in Hi. Qed.
Next Obligation.
  intros r i Hwf Hi. assert (0 <= i) by (destruct Hwf as (_ & Hb & _); apply Hb; by apply elem_of_bits).
  simpl. unfold Allocate. rewrite bigBit_nonneg by done. simpl. by rewrite bit_set.
Qed.
Next Obligation.
  intros r i Hwf Hi Hf. pose proof (bit_clear _ _ Hwf Hf) as Hb.
  destruct (bitmap_set r i (bm_draws r) Hwf Hi Hb) as [Hwf' Hbits].
  eexists. split; [|done]. simpl. unfold Allocate. rewrite bigBit_nonneg by lia. simpl. by rewrite Hb.
Qed.
Next Obligation.
  intros r Hwf Hall. simpl. unfold AllocateNext. by rewrite AllocateBit_full.
Qed.
Next Obligation.
  intros r j Hwf Hj Hf. destruct (AllocateBit_finds _ _ Hwf Hj Hf) as (i & Hi & Hr & Hb).
  destruct (bitmap_set r i (S (bm_draws r)) Hwf Hr Hb) as [Hwf' Hbits].
  do 2 eexists. split; [simpl; unfold AllocateNext; by rewrite Hi|].
  split_and!; try done; try lia. intros Hin. by rewrite (bit_set r) in Hb.
Qed.
Next Obligation.
  intros r i Hwf Hi. simpl. unfold Release. rewrite bigBit_nonneg by lia. simpl.
  destruct (Z.testbit (bm_allocated r) i) eqn:Hb.
  - destruct (bitmap_clear r i (bm_draws r) Hwf Hb). eauto.
  - exists r. split_and!; try done. pose proof Hwf as (_ & Hbd & _).
    apply set_eq. intros j. rewrite elem_of_difference, elem_of_singleton, !elem_of_bits by done.
    split; [|by intros [? _]]. intros Hj. split; [done|]. intros ->. congruence.
Qed.
Next Obligation.
  intros r i (Hpos & Hb & _). simpl. unfold ForEach. rewrite elem_of_bits by done.
  rewrite list_elem_of_filter, elem_of_seqZ. split; [by intros [? _]|]. intros Hi. split; [done|].
  pose proof (Hb _ Hi). destruct (decide (i <= Z.log2 (bm_allocated r))); [lia|].
  rewrite Z.bits_above_log2 in Hi by lia. done.
Qed.
Next Obligation.
  intros r i Hwf Hi. simpl. unfold Has. rewrite bigBit_nonneg by done. f_equal.
  destruct (Z.testbit (bm_allocated r) i) eqn:Hb; symmetry.
  - apply bool_decide_eq_true. destruct Hwf as (_ & ? & _). by apply elem_of_bits.
  - apply bool_decide_eq_false. intros Hin. by rewrite bit_set in Hb.
Qed.
End bitmap.

Lemma bits_NewAllocationMap max : bits (NewAllocationMap max) = ∅.
Proof.
  apply set_eq. intros i. rewrite elem_of_bits; simpl; [|intros ?; by rewrite Z.testbit_0_l].
  rewrite Z.testbit_0_l. set_solver.
Qed.

Lemma NewAllocationMap_wf max : bitmap_wf (NewAllocationMap max).
Proof.
  split_and!; simpl; [done|intros i; by rewrite Z.testbit_0_l|].
  by rewrite bits_NewAllocationMap.
Qed.
