(* ===== verification/MarkAllocator.v ===== *)
(** * The mark allocator ([pkg/markallocator/allocator.go])

    Every EgressTunnel gets a packet mark of its own, drawn from the range
    that a mask such as [0x26000000] describes.  [Range] is the allocator's
    state, over any allocator of offsets that meets [AllocLaws]; the abstract
    state is the finite set of marks in use. *)

From S2P Require Import Prelude GoStd Allocator.
Open Scope Z_scope.

Definition ErrFull : error := ErrNew "range is full".
Definition ErrAllocated : error := ErrNew "provided mark is already allocated".
Definition ErrNotInRange : error := ErrNew "not in range".

(** ** Parsing of marks and masks *)

Definition Parse (mark : string) : outcome Z := ParseUint16 (drop0x (chars mark)).

(** The loop of [RangeSize] over the characters of the mask, last one first. *)
Fixpoint endLoop (rmask endStr : list ascii) : list ascii :=
  match rmask with
  | [] => endStr
  | item :: rest =>
      if decide (item = "0"%char) then endLoop rest ("f"%char :: endStr)
      else reverse (item :: rest) ++ endStr
  end.

Definition RangeSize (mask : string) : outcome (Z * Z) :=
  let! start := Parse mask in
  let! end_ := Parse (unchars (endLoop (reverse (chars mask)) [])) in
  Ret (start, end_).

Definition bigForMark (mark : string) : outcome Z := Parse mark.

(** [big.Int.Uint64] keeps the low 64 bits. *)
Definition addMarkOffset (base offset : Z) : string :=
  unchars ("0"%char :: "x"%char :: FormatUint16 ((base + offset) mod 2 ^ 64)).

Definition GetIndexedMark (base index : Z) : string := addMarkOffset base index.

Definition calculateMarkOffset (base mark : Z) : Z := toInt64 (mark - base).

(** ** The allocator *)

Record Range (T : Type) := mkRange {
  rg_base : Z;
  rg_start : Z;
  rg_end : Z;
  rg_max : Z;
  rg_alloc : T
}.
Arguments mkRange {T}.
Arguments rg_base {T}.
Arguments rg_start {T}.
Arguments rg_end {T}.
Arguments rg_max {T}.
Arguments rg_alloc {T}.

Definition NewAllocatorMarkRange (mask : string) : outcome (Range AllocationBitmap) :=
  let! (start, end_) := RangeSize mask in
  let! base := bigForMark mask in
  let max := toInt64 ((end_ - start - 1) mod 2 ^ 64) in
  Ret (mkRange (base + 1) start end_ max (NewAllocationMap max)).

Section range.
Context {T : Type} `{AllocLaws T}.
Implicit Types r : Range T.

Definition withAlloc r (a : T) : Range T :=
  mkRange (rg_base r) (rg_start r) (rg_end r) (rg_max r) a.

Definition contains r (mark : Z) : bool * Z :=
  if (mark <? rg_start r) || (rg_end r <? mark) then (false, 0)
  else
    let offset := calculateMarkOffset (rg_base r) mark in
    if (offset <? 0) || (rg_max r <=? offset) then (false, 0) else (true, offset).

Definition MarkAllocate (mark : string) r : outcome (Range T) :=
  let! m := Parse mark in
  let (ok, offset) := contains r m in
  if negb ok then Err ErrNotInRange
  else
    let! (allocated, a) := alloc_Allocate offset (rg_alloc r) in
    if negb allocated then Err ErrAllocated else Ret (withAlloc r a).

Definition MarkAllocateNext r : outcome (string * Range T) :=
  let! (offset, ok, a) := alloc_AllocateNext (rg_alloc r) in
  if negb ok then Err ErrFull
  else Ret (addMarkOffset (rg_base r) offset, withAlloc r a).

Definition MarkRelease (mark : string) r : outcome (Range T) :=
  let! m := Parse mark in
  let (ok, offset) := contains r m in
  if negb ok then Err ErrNotInRange
  else let! a := alloc_Release offset (rg_alloc r) in Ret (withAlloc r a).

Definition MarkForEach r : list string :=
  GetIndexedMark (rg_base r) <$> alloc_ForEach (rg_alloc r).

Definition MarkHas (mark : string) r : outcome bool :=
  match Parse mark with
  | Ret m =>
      let (ok, offset) := contains r m in
      if negb ok then Ret false else alloc_Has offset (rg_alloc r)
  | _ => Ret false
  end.

(** ** Invariant and abstraction *)

(** The marks of a range lie strictly between its two ends. *)
Record range_wf r : Prop := {
  wf_alloc : alloc_wf (rg_alloc r);
  wf_cap : cap (rg_alloc r) = rg_max r;
  wf_base : rg_base r = rg_start r + 1;
  wf_max : rg_max r = rg_end r - rg_start r - 1;
  wf_start : 0 <= rg_start r <= rg_end r;
  wf_end : rg_end r <= maxUint64;
  wf_width : rg_max r < 2 ^ 63
}.

Definition inside r (v : Z) : Prop := rg_start r < v < rg_end r.

(** The marks in use. *)
Definition marks r : gset Z := set_map (λ i, rg_base r + i) (items (rg_alloc r)).

Lemma elem_of_marks r v : v ∈ marks r ↔ v - rg_base r ∈ items (rg_alloc r).
Proof.
  unfold marks. rewrite elem_of_map. split.
  - intros (i & -> & Hi). by replace (rg_base r + i - rg_base r) with i by lia.
  - intros Hi. exists (v - rg_base r). split; [lia|done].
Qed.

Lemma contains_spec r v :
  range_wf r →
  contains r v = if decide (inside r v) then (true, v - rg_base r) else (false, 0).
Proof.
  intros [Ha Hc Hb Hm Hs He Hw]. unfold contains, inside, maxUint64, calculateMarkOffset in *.
  destruct (Z.ltb_spec v (rg_start r)), (Z.ltb_spec (rg_end r) v); cbn [orb];
    try (rewrite decide_False by lia; done).
  destruct (decide (v - rg_base r < 2 ^ 63)) as [Hlt|Hge].
  - rewrite toInt64_small by lia.
    destruct (Z.ltb_spec (v - rg_base r) 0), (Z.leb_spec (rg_max r) (v - rg_base r)); cbn [orb];
      (rewrite decide_False by lia) || (rewrite decide_True by lia); done.
  - lia.
Qed.

Lemma marks_withAlloc r a v :
  v ∈ marks (withAlloc r a) ↔ v - rg_base r ∈ items a.
Proof. by rewrite elem_of_marks. Qed.

Lemma range_wf_withAlloc r a :
  range_wf r → alloc_wf a → cap a = cap (rg_alloc r) → range_wf (withAlloc r a).
Proof. intros [] ? ?. constructor; simpl; congruence. Qed.

(** A mark printed by the allocator parses back to its value. *)
Lemma Parse_addMarkOffset base offset :
  0 <= base + offset <= maxUint64 → Parse (addMarkOffset base offset) = Ret (base + offset).
Proof.
  intros Hr. unfold Parse, addMarkOffset. rewrite chars_unchars.
  cbn [drop0x]. rewrite decide_True by done.
  rewrite Z.mod_small by (unfold maxUint64 in *; lia).
  rewrite drop0x_id by (apply formatHex_no_x; lia). by apply ParseUint16_Format.
Qed.

(** ** The abstract allocator *)

Inductive mark_op :=
| OpAllocate (mark : string)
| OpAllocateNext
| OpRelease (mark : string).

(** One call on the concrete allocator: its result, the empty string where
    the method returns only an error, and the next state. *)
Definition exec (op : mark_op) r : outcome string * Range T :=
  match op with
  | OpAllocate m =>
      match MarkAllocate m r with
      | Ret r' => (Ret "", r') | Err e => (Err e, r) | Panic w => (Panic w, r) | Timeout => (Timeout, r)
      end
  | OpAllocateNext =>
      match MarkAllocateNext r with
      | Ret (m, r') => (Ret m, r') | Err e => (Err e, r) | Panic w => (Panic w, r) | Timeout => (Timeout, r)
      end
  | OpRelease m =>
      match MarkRelease m r with
      | Ret r' => (Ret "", r') | Err e => (Err e, r) | Panic w => (Panic w, r) | Timeout => (Timeout, r)
      end
  end.

(** What the operations promise, in terms of the set of marks in use only. *)
Inductive mark_spec (lo hi : Z) : gset Z → mark_op → outcome string → gset Z → Prop :=
| spec_allocate S m v :
    Parse m = Ret v → lo < v < hi → (v ∉ S) →
    mark_spec lo hi S (OpAllocate m) (Ret "") ({[v]} ∪ S)
| spec_allocate_taken S m v :
    Parse m = Ret v → v ∈ S → mark_spec lo hi S (OpAllocate m) (Err ErrAllocated) S
| spec_next S v m :
    lo < v < hi → (v ∉ S) → Parse m = Ret v →
    mark_spec lo hi S OpAllocateNext (Ret m) ({[v]} ∪ S)
| spec_next_full S :
    (∀ v, lo < v < hi → v ∈ S) → mark_spec lo hi S OpAllocateNext (Err ErrFull) S
| spec_release S m v :
    Parse m = Ret v → lo < v < hi → mark_spec lo hi S (OpRelease m) (Ret "") (S ∖ {[v]})
| spec_out_of_range S op m v :
    op = OpAllocate m ∨ op = OpRelease m → Parse m = Ret v → ¬ (lo < v < hi) →
    mark_spec lo hi S op (Err ErrNotInRange) S
| spec_not_a_mark S op m e :
    op = OpAllocate m ∨ op = OpRelease m → Parse m = Err e → mark_spec lo hi S op (Err e) S.

Lemma Parse_no_panic m : (∃ v, Parse m = Ret v) ∨ (∃ e, Parse m = Err e).
Proof.
  unfold Parse, ParseUint16. destruct (drop0x (chars m)) as [|c l]; [eauto|].
  generalize (c :: l), 0. clear. induction l as [|c l IH]; intros n; simpl; [eauto|].
  destruct (hexval c); [|eauto]. destruct (_ <? _); eauto.
Qed.

Lemma marks_inside r v : range_wf r → v ∈ marks r → inside r v.
Proof.
  intros Hwf. rewrite elem_of_marks. intros Hi. apply items_bound in Hi; [|by apply wf_alloc].
  destruct Hwf. unfold inside. lia.
Qed.

Lemma offset_bound r v : range_wf r → inside r v → 0 <= v - rg_base r < cap (rg_alloc r).
Proof. intros [] ?. unfold inside in *. lia. Qed.

(** Changing the items of the underlying allocator changes the marks the
    same way. *)
Lemma marks_insert r a v :
  items a = {[v - rg_base r]} ∪ items (rg_alloc r) → marks (withAlloc r a) = {[v]} ∪ marks r.
Proof.
  intros Ha. apply set_eq. intros w. rewrite elem_of_union, elem_of_singleton, elem_of_marks. simpl.
  rewrite Ha, elem_of_union, elem_of_singleton, elem_of_marks. split; intros [?|?]; auto; left; lia.
Qed.

Lemma marks_remove r a v :
  items a = items (rg_alloc r) ∖ {[v - rg_base r]} → marks (withAlloc r a) = marks r ∖ {[v]}.
Proof.
  intros Ha. apply set_eq. intros w. rewrite elem_of_difference, elem_of_singleton, elem_of_marks. simpl.
  rewrite Ha, elem_of_difference, elem_of_singleton, elem_of_marks.
  split; intros [? Hn]; (split; [done|]); intros ?; apply Hn; lia.
Qed.

Section refinement.
Context r (Hwf : range_wf r).

Lemma exec_allocate m :
  ∃ res r', exec (OpAllocate m) r = (res, r') ∧ range_wf r' ∧
    mark_spec (rg_start r) (rg_end r) (marks r) (OpAllocate m) res (marks r').
Proof using Hwf.
  simpl. unfold MarkAllocate. destruct (Parse_no_panic m) as [[v Hv]|[e He]].
  2: { rewrite He. simpl. eexists _, _; split_and!; [reflexivity|done|]. eapply spec_not_a_mark; eauto. }
  rewrite Hv. cbn [obind]. rewrite contains_spec by done. destruct (decide (inside r v)) as [Hin|Hout].
  2: { simpl. eexists _, _; split_and!; [reflexivity|done|]. eapply spec_out_of_range; eauto. }
  simpl. destruct (decide (v ∈ marks r)) as [Hu|Hf].
  - rewrite Allocate_taken; [|by apply wf_alloc|by apply elem_of_marks].
    simpl. eexists _, _; split_and!; [reflexivity|done|]. by eapply spec_allocate_taken.
  - destruct (Allocate_free (rg_alloc r) (v - rg_base r)) as (a & Ha & Hwfa & Hcap & Hitems);
      [by apply wf_alloc|by apply offset_bound|by rewrite <- elem_of_marks|].
    rewrite Ha. simpl. eexists _, _; split_and!; [reflexivity|by apply range_wf_withAlloc|].
    erewrite marks_insert by done. by apply spec_allocate.
Qed.

Lemma exec_next :
  ∃ res r', exec OpAllocateNext r = (res, r') ∧ range_wf r' ∧
    mark_spec (rg_start r) (rg_end r) (marks r) OpAllocateNext res (marks r').
Proof using Hwf.
  simpl. unfold MarkAllocateNext.
  destruct (decide (Exists (λ i, i ∉ items (rg_alloc r)) (seqZ 0 (cap (rg_alloc r)))))
    as [(j & Hj & Hf)%Exists_exists|Hno].
  - apply elem_of_seqZ in Hj.
    destruct (AllocateNext_free (rg_alloc r) j) as (i & a & Ha & Hwfa & Hcap & Hi & Hni & Hitems);
      [by apply wf_alloc|lia|done|].
    rewrite Ha. cbn [obind negb]. eexists _, _; split_and!; [reflexivity|by apply range_wf_withAlloc|].
    pose proof Hwf as []. erewrite (marks_insert r a (rg_base r + i)) by (rewrite Hitems; do 2 f_equal; lia).
    apply spec_next; [lia| |apply Parse_addMarkOffset; lia].
    rewrite elem_of_marks. by replace (rg_base r + i - rg_base r) with i by lia.
  - assert (∀ i, 0 <= i < cap (rg_alloc r) → i ∈ items (rg_alloc r)) as Hall.
    { intros i Hi. destruct (decide (i ∈ items (rg_alloc r))); [done|]. destruct Hno.
      apply Exists_exists. exists i. split; [apply elem_of_seqZ; lia|done]. }
    rewrite AllocateNext_full by (done || by apply wf_alloc). simpl.
    eexists _, _; split_and!; [reflexivity|done|]. apply spec_next_full. intros v Hv. apply elem_of_marks, Hall.
    by apply offset_bound.
Qed.

Lemma exec_release m :
  ∃ res r', exec (OpRelease m) r = (res, r') ∧ range_wf r' ∧
    mark_spec (rg_start r) (rg_end r) (marks r) (OpRelease m) res (marks r').
Proof using Hwf.
  simpl. unfold MarkRelease. destruct (Parse_no_panic m) as [[v Hv]|[e He]].
  2: { rewrite He. simpl. eexists _, _; split_and!; [reflexivity|done|]. eapply spec_not_a_mark; eauto. }
  rewrite Hv. cbn [obind]. rewrite contains_spec by done. destruct (decide (inside r v)) as [Hin|Hout].
  2: { simpl. eexists _, _; split_and!; [reflexivity|done|]. eapply spec_out_of_range; eauto. }
  destruct (Release_law (rg_alloc r) (v - rg_base r)) as (a & Ha & Hwfa & Hcap & Hitems);
    [by apply wf_alloc|by apply offset_bound|].
  simpl. rewrite Ha. simpl. eexists _, _; split_and!; [reflexivity|by apply range_wf_withAlloc|].
  erewrite marks_remove by done. by apply spec_release.
Qed.
End refinement.

(** *** Runs of the allocator *)

Lemma withAlloc_bounds op r res r' :
  exec op r = (res, r') → rg_start r' = rg_start r ∧ rg_end r' = rg_end r.
Proof.
  destruct op; simpl; unfold MarkAllocate, MarkAllocateNext, MarkRelease;
    repeat (destruct (Parse _); simpl; try (by intros [= <- <-]));
    try (destruct (contains _ _) as [[] ?]; simpl; try (by intros [= <- <-]));
    repeat (case_match; simpl in *; try (by intros [= <- <-])); intros [= <- <-]; inv_ret;
    repeat (case_match; simplify_eq/=; inv_ret); simplify_eq/=; done.
Qed.

Fixpoint execs (ops : list mark_op) r : list (outcome string) * Range T :=
  match ops with
  | [] => ([], r)
  | op :: ops' =>
      let (res, r1) := exec op r in
      let (ress, r2) := execs ops' r1 in (res :: ress, r2)
  end.

Inductive mark_specs (lo hi : Z) : gset Z → list mark_op → list (outcome string) → gset Z → Prop :=
| specs_nil S : mark_specs lo hi S [] [] S
| specs_cons S1 S2 S3 op ops res ress :
    mark_spec lo hi S1 op res S2 → mark_specs lo hi S2 ops ress S3 →
    mark_specs lo hi S1 (op :: ops) (res :: ress) S3.

Lemma exec_refines op r :
  range_wf r → ∃ res r', exec op r = (res, r') ∧ range_wf r' ∧
    mark_spec (rg_start r) (rg_end r) (marks r) op res (marks r').
Proof. intros Hwf. destruct op; [by apply exec_allocate|by apply exec_next|by apply exec_release]. Qed.

Lemma execs_refines ops r :
  range_wf r → ∃ ress r', execs ops r = (ress, r') ∧ range_wf r' ∧
    mark_specs (rg_start r) (rg_end r) (marks r) ops ress (marks r').
Proof.
  revert r. induction ops as [|op ops IH]; intros r Hwf; simpl; [eauto using mark_specs|].
  destruct (exec_refines op r Hwf) as (res & r1 & E & Hwf1 & Hs).
  destruct (IH r1 Hwf1) as (ress & r2 & Es & Hwf2 & Hss).
  rewrite E, Es. eexists _, _; split_and!; [reflexivity|done|].
  destruct (withAlloc_bounds _ _ _ _ E) as [Hlo Hhi]. rewrite Hlo, Hhi in Hss. by econstructor.
Qed.
End range.

(** ** The range a mask describes *)

(** The mask without its trailing zeros, and how many there are. *)
Lemma endLoop_spec l :
  ∃ p k, l = p ++ replicate k "0"%char ∧ endLoop (reverse l) [] = p ++ replicate k "f"%char.
Proof.
  assert (∀ rl acc, ∃ p k, reverse rl = p ++ replicate k "0"%char ∧
    endLoop rl acc = p ++ replicate k "f"%char ++ acc) as Hgen.
  { induction rl as [|c rl IH]; intros acc; simpl.
    - by exists [], O.
    - case_decide as Hc.
      + destruct (IH ("f"%char :: acc)) as (p & k & Hl & He). exists p, (S k).
        rewrite reverse_cons, Hl, He, Hc, !replicate_S_end, <- !app_assoc. done.
      + exists (reverse (c :: rl)), O. by rewrite app_nil_r. }
  destruct (Hgen (reverse l) []) as (p & k & Hl & He). exists p, k.
  rewrite reverse_involutive in Hl. by rewrite He, app_nil_r.
Qed.

Lemma drop0x_app_rep p c k : c ≠ "x"%char → drop0x (p ++ replicate k c) = drop0x p ++ replicate k c.
Proof.
  intros Hc. assert (∀ n p, (length p < n)%nat → drop0x (p ++ replicate k c) = drop0x p ++ replicate k c) as Hgen.
  { induction n as [|n IH]; intros q Hq; [lia|]. destruct q as [|a [|b q]].
    - simpl. apply drop0x_id. rewrite elem_of_replicate. naive_solver.
    - simpl. destruct k; [done|]. simpl. rewrite decide_False by naive_solver.
      f_equal. apply (drop0x_id (replicate (S k) c)). rewrite elem_of_replicate. naive_solver.
    - cbn [app drop0x]. case_decide.
      + apply IH. simpl in *. lia.
      + simpl. f_equal. apply (IH (b :: q)). simpl in *. lia. }
  apply (Hgen (S (length p))). lia.
Qed.

Lemma parseHex_rep c d k n m :
  hexval c = Some d → parseHex (replicate k c) n = Ret m →
  15 * m = 15 * n * 16 ^ Z.of_nat k + d * (16 ^ Z.of_nat k - 1).
Proof.
  intros Hd. revert n. induction k as [|k IH]; intros n.
  - simpl. intros ?. inv_ret. lia.
  - cbn [replicate parseHex]. rewrite Hd. destruct (_ <? _); [done|]. intros Hm%IH.
    rewrite Nat2Z.inj_succ, Z.pow_succ_r by lia. lia.
Qed.

Lemma ParseUint16_app l1 l2 v :
  ParseUint16 (l1 ++ l2) = Ret v → ∃ n, parseHex l1 0 = Ret n ∧ parseHex l2 n = Ret v.
Proof.
  intros Hp. assert (parseHex (l1 ++ l2) 0 = Ret v) as Hp'.
  { unfold ParseUint16 in Hp. by destruct (l1 ++ l2). }
  rewrite parseHex_app in Hp'. by apply obind_ret_inv in Hp'.
Qed.

(** The end of a range fills the trailing zeros of its start with ones. *)
Lemma RangeSize_ends mask start end_ :
  RangeSize mask = Ret (start, end_) →
  ∃ k : nat, end_ = start + 16 ^ Z.of_nat k - 1 ∧ start mod 16 ^ Z.of_nat k = 0 ∧ 0 <= start ∧ end_ <= maxUint64.
Proof.
  unfold RangeSize. intros Hr. inv_ret. simplify_eq. unfold Parse in *.
  rewrite chars_unchars in Hret0.
  destruct (endLoop_spec (chars mask)) as (p & k & Hl & He). exists k.
  rewrite He, drop0x_app_rep in Hret0 by done. rewrite Hl, drop0x_app_rep in Hret by done.
  pose proof (ParseUint16_range _ _ Hret). pose proof (ParseUint16_range _ _ Hret0).
  apply ParseUint16_app in Hret as (n & Hn & Hs), Hret0 as (n' & Hn' & Hs').
  assert (n' = n) as -> by congruence.
  apply (parseHex_rep _ 0) in Hs; [|done]. apply (parseHex_rep _ 15) in Hs'; [|done].
  assert (start = n * 16 ^ Z.of_nat k) as -> by lia.
  rewrite Z.mod_mul by (apply Z.pow_nonzero; lia). lia.
Qed.

Lemma NewAllocatorMarkRange_wf `{Rand} mask r :
  NewAllocatorMarkRange mask = Ret r → rg_end r - rg_start r <= 2 ^ 63 → range_wf r ∧ marks r = ∅.
Proof.
  unfold NewAllocatorMarkRange, bigForMark. intros Hr Hw. apply obind_ret_inv in Hr as ([s e] & Hrs & Hr).
  inv_ret. simpl in Hw. pose proof Hrs as Hrs'.
  unfold RangeSize in Hrs'. inv_ret. simplify_eq.
  apply RangeSize_ends in Hrs as (k & -> & Hmod & Hpos & Hmax).
  assert (0 < 16 ^ Z.of_nat k) by (apply Z.pow_pos_nonneg; lia).
  assert (a = s) as -> by congruence.
  assert (toInt64 ((s + 16 ^ Z.of_nat k - 1 - s - 1) mod 2 ^ 64) = 16 ^ Z.of_nat k - 2) as Hmx.
  { destruct (decide (16 ^ Z.of_nat k = 1)) as [->|].
    - replace (s + 1 - 1 - s - 1) with (-1) by lia. reflexivity.
    - rewrite Z.mod_small by (unfold maxUint64 in *; lia). rewrite toInt64_small by lia. lia. }
  split.
  - constructor; simpl; rewrite ?Hmx; try lia. apply NewAllocationMap_wf.
  - apply set_eq. intros v. rewrite elem_of_marks. simpl. rewrite bits_NewAllocationMap. set_solver.
Qed.

(** ** Properties *)

(** C31.  Refinement: an allocator made from a mask, whose range has at most
    [2 ^ 63] marks, used by any sequence of [Allocate], [AllocateNext] and [Release] calls, behaves as the abstract
    allocator that keeps only the set of marks in use, starting from the empty
    set: a mark is handed out only when it is strictly inside the range and
    free, [ErrAllocated] means the mark is taken, [ErrFull] means every mark
    of the range is taken, a mark out of the range is an error for [Release]
    too (against its comment), and no call panics. *)
Theorem mark_allocator_refines `{Rand} mask r ops :
  NewAllocatorMarkRange mask = Ret r → rg_end r - rg_start r <= 2 ^ 63 →
  ∃ ress r', execs ops r = (ress, r') ∧
    mark_specs (rg_start r) (rg_end r) ∅ ops ress (marks r').
Proof.
  intros Hr Hw. destruct (NewAllocatorMarkRange_wf _ _ Hr Hw) as [Hwf Hm].
  destruct (execs_refines ops r Hwf) as (ress & r' & E & _ & Hs).
  rewrite Hm in Hs. eauto.
Qed.

Definition example_range : Range AllocationBitmap :=
  mkRange 0x26001 0x26000 0x26fff 4094 (NewAllocationMap 4094).

Lemma mark_allocator_refines_witness :
  NewAllocatorMarkRange "0x26000" = Ret example_range ∧
  ∃ ress r', @execs _ (@bitmap_ops rand_zero) [OpAllocateNext; OpAllocate "0x26001"; OpRelease "0x26001"]
    example_range = (ress, r') ∧
    @mark_specs 0x26000 0x26fff ∅ [OpAllocateNext; OpAllocate "0x26001"; OpRelease "0x26001"] ress
      (@marks _ _ (@bitmap_laws rand_zero) r').
Proof.
  split; [reflexivity|].
  apply (@mark_allocator_refines rand_zero "0x26000" example_range); [reflexivity|].
  vm_compute. discriminate.
Defined.

Lemma mark_spec_keeps lo hi S op res S' v :
  mark_spec lo hi S op res S' → v ∈ S →
  (∀ m, op = OpRelease m → Parse m ≠ Ret v) → v ∈ S'.
Proof. intros Hs Hv Hrel. destruct Hs; set_solver. Qed.

Lemma mark_specs_keep lo hi S ops ress S' v :
  mark_specs lo hi S ops ress S' → v ∈ S →
  (∀ m, OpRelease m ∈ ops → Parse m ≠ Ret v) → v ∈ S'.
Proof.
  induction 1 as [|S1 S2 S3 op ops res ress H1 _ IH]; [done|]. intros Hv Hrel. apply IH.
  - eapply mark_spec_keeps; [done..|]. intros m ->. apply Hrel. set_solver.
  - intros m Hm. apply Hrel. set_solver.
Qed.

Lemma spec_next_inv lo hi S res S' :
  mark_spec lo hi S OpAllocateNext res S' →
  (∃ m v, res = Ret m ∧ lo < v < hi ∧ (v ∉ S) ∧ Parse m = Ret v ∧ S' = {[v]} ∪ S) ∨
  (res = Err ErrFull ∧ ∀ v, lo < v < hi → v ∈ S).
Proof. inversion 1; subst; naive_solver. Qed.

(**  Safety: two calls of [AllocateNext] never return the same mark
    unless it was released in between, whatever other calls are interleaved. *)
Theorem mark_never_allocated_twice `{Rand} mask r ops1 ops2 ress1 ress2 m m' r1 r2 r3 r4 :
  NewAllocatorMarkRange mask = Ret r → rg_end r - rg_start r <= 2 ^ 63 →
  execs ops1 r = (ress1, r1) → MarkAllocateNext r1 = Ret (m, r2) →
  execs ops2 r2 = (ress2, r3) → MarkAllocateNext r3 = Ret (m', r4) →
  (∀ m'', OpRelease m'' ∈ ops2 → Parse m'' ≠ Parse m) →
  Parse m' ≠ Parse m.
Proof.
  intros Hr Hw E1 En1 E2 En2 Hrel. destruct (NewAllocatorMarkRange_wf _ _ Hr Hw) as [Hwf _].
  destruct (execs_refines ops1 r Hwf) as (? & ? & E & Hwf1 & _). rewrite E1 in E. simplify_eq.
  destruct (exec_next _ Hwf1) as (? & ? & E & Hwf2 & Hs1). simpl in E. rewrite En1 in E. simplify_eq.
  destruct (execs_refines ops2 _ Hwf2) as (? & ? & E & Hwf3 & Hs2). rewrite E2 in E. simplify_eq.
  destruct (exec_next _ Hwf3) as (? & ? & E & Hwf4 & Hs3). simpl in E. rewrite En2 in E. simplify_eq.
  apply spec_next_inv in Hs1 as [(? & v & [= <-] & _ & _ & Hp & HS2)|[? _]]; [|done].
  apply spec_next_inv in Hs3 as [(? & v' & [= <-] & _ & Hf & Hp' & _)|[? _]]; [|done].
  rewrite Hp, Hp' in *. intros [= ->]. apply Hf.
  eapply mark_specs_keep; [exact Hs2|rewrite HS2; set_solver|done].
Qed.

Lemma mark_never_allocated_twice_witness :
  Parse "0x26002" ≠ Parse "0x26001".
Proof.
  pose (R1 := mkRange 0x26001 0x26000 0x26fff 4094 (mkBitmap 4094 1 1 1)).
  pose (R2 := mkRange 0x26001 0x26000 0x26fff 4094 (mkBitmap 4094 2 3 2)).
  refine (@mark_never_allocated_twice rand_zero "0x26000" example_range [] [] [] [] "0x26001" "0x26002"
    example_range R1 R1 R2 eq_refl _ eq_refl _ eq_refl _ _).
  - vm_compute. discriminate.
  - vm_compute. reflexivity.
  - vm_compute. reflexivity.
  - intros m'' Hm. exfalso. exact (not_elem_of_nil _ Hm).
Defined.

(**  Liveness: whatever was called before, as long as fewer marks are in
    use than the range holds ([end - start - 1]), the next [AllocateNext]
    returns a mark. *)
Theorem mark_allocate_next_succeeds `{Rand} mask r ops ress r1 :
  NewAllocatorMarkRange mask = Ret r → rg_end r - rg_start r <= 2 ^ 63 →
  execs ops r = (ress, r1) →
  Z.of_nat (size (marks r1)) < rg_end r - rg_start r - 1 →
  ∃ m r2, MarkAllocateNext r1 = Ret (m, r2).
Proof.
  intros Hr Hw E Hsize. destruct (NewAllocatorMarkRange_wf _ _ Hr Hw) as [Hwf _].
  destruct (execs_refines ops r Hwf) as (? & ? & E' & Hwf1 & _). rewrite E in E'. simplify_eq.
  assert (rg_start x0 = rg_start r ∧ rg_end x0 = rg_end r) as [Hlo Hhi].
  { clear -E. revert r x E. induction ops as [|op ops IH]; simpl; intros r x E; [by simplify_eq|].
    destruct (exec op r) as [res r'] eqn:E1, (execs ops r') as [ress r''] eqn:E2. simplify_eq.
    apply withAlloc_bounds in E1 as [? ?]. apply IH in E2 as [? ?]. split; congruence. }
  destruct (exec_next _ Hwf1) as (res & r2 & En & Hwf2 & Hs). simpl in En.
  apply spec_next_inv in Hs as [(m & v & -> & _)|[_ Hall]].
  - repeat case_match; simplify_eq; eauto.
  - exfalso. assert (list_to_set (seqZ (rg_start x0 + 1) (rg_end x0 - rg_start x0 - 1)) ⊆ marks x0) as Hsub.
    { intros v. rewrite elem_of_list_to_set, elem_of_seqZ. intros ?. apply Hall. lia. }
    apply subseteq_size in Hsub. rewrite size_list_to_set, length_seqZ in Hsub by apply NoDup_seqZ. lia.
Qed.

Lemma mark_allocate_next_succeeds_witness :
  ∃ m r2, @MarkAllocateNext _ (@bitmap_ops rand_zero)
    (mkRange 0x26001 0x26000 0x26fff 4094 (mkBitmap 4094 1 1 1)) = Ret (m, r2).
Proof.
  refine (@mark_allocate_next_succeeds rand_zero "0x26000" example_range [OpAllocateNext] [Ret "0x26001"] _
    eq_refl _ _ _); vm_compute; congruence.
Defined.

(** Every mark of a range shares the leading digits of the mask: a mask
    with [k] trailing zeros describes the [16 ^ k] values above it, aligned,
    and the first and the last of them are never handed out. *)
Theorem RangeSize_aligned mask start end_ :
  RangeSize mask = Ret (start, end_) →
  ∃ k : nat, end_ = start + 16 ^ Z.of_nat k - 1 ∧
    ∀ v, start < v < end_ → v / 16 ^ Z.of_nat k = start / 16 ^ Z.of_nat k.
Proof.
  intros (k & -> & Hmod & _)%RangeSize_ends. exists k. split; [done|]. intros v Hv.
  assert (0 < 16 ^ Z.of_nat k) as Hp by (apply Z.pow_pos_nonneg; lia).
  pose proof (Z.div_mod start _ (Z.neq_sym _ _ (Z.lt_neq _ _ Hp))) as Hd. rewrite Hmod in Hd.
  symmetry. apply (Z.div_unique_pos _ _ _ (v - start)); lia.
Qed.

Lemma RangeSize_aligned_witness :
  RangeSize "0x26000" = Ret (0x26000, 0x26fff) ∧
  ∃ k : nat, 0x26fff = 0x26000 + 16 ^ Z.of_nat k - 1 ∧
    ∀ v, 0x26000 < v < 0x26fff → v / 16 ^ Z.of_nat k = 0x26000 / 16 ^ Z.of_nat k.
Proof. split; [reflexivity|]. apply (RangeSize_aligned "0x26000"). reflexivity. Defined.

(** The comment on [Release] promises a no-op without error for a mark out of
    the range; the code returns an error. *)
Lemma Release_out_of_range_is_error :
  MarkRelease (T := AllocationBitmap) (H := @bitmap_ops rand_zero) "0x30000" example_range = Err ErrNotInRange.
Proof. reflexivity. Qed.
