(* ===== verification/Pool.v ===== *)
(** * Pools: what the tunnel controller asks of its allocators

    The controller of tunnels draws marks from a mark range and tunnel
    addresses from two IP ranges.  [PoolOps] has the three operations it uses,
    [PoolLaws] what they promise in terms of a set of numbers in use.  The mark
    range is an instance; the IP range is one in [IPAllocator]. *)

From S2P Require Import Prelude GoStd Allocator MarkAllocator.
Open Scope Z_scope.

Class PoolOps (A K : Type) := {
  pAllocate : K → A → outcome A;
  pAllocateNext : A → outcome (K * A);
  pRelease : K → A → outcome A
}.

(** [key_ok k] says that [k] is a key the program can form, [value k] is the
    number that a key stands for, if any, and [fits a v] says that [v] is one of
    the numbers of the pool. *)
Class PoolLaws (A K : Type) `{PoolOps A K} := {
  taken : A → gset Z;
  value : K → option Z;
  key_ok : K → Prop;
  fits : A → Z → Prop;
  pool_wf : A → Prop;
  pAllocate_law k a : pool_wf a → key_ok k →
    match pAllocate k a with
    | Ret a' => pool_wf a' ∧ (∀ v, fits a' v ↔ fits a v) ∧
        ∃ v, value k = Some v ∧ (v ∉ taken a) ∧ taken a' = {[v]} ∪ taken a
    | Err _ => ∀ v, value k = Some v → fits a v → v ∈ taken a
    | _ => False
    end;
  pAllocateNext_law a : pool_wf a →
    match pAllocateNext a with
    | Ret (k, a') => key_ok k ∧ pool_wf a' ∧ (∀ v, fits a' v ↔ fits a v) ∧
        ∃ v, value k = Some v ∧ (v ∉ taken a) ∧ taken a' = {[v]} ∪ taken a
    | Err _ => ∀ v, fits a v → v ∈ taken a
    | _ => False
    end;
  pRelease_law k a : pool_wf a → key_ok k →
    match pRelease k a with
    | Ret a' => pool_wf a' ∧ (∀ v, fits a' v ↔ fits a v) ∧
        ∀ v, v ∈ taken a' ↔ v ∈ taken a ∧ value k ≠ Some v
    | Err _ => True
    | _ => False
    end
}.

(** ** The mark range *)

#[export] Instance mark_pool {T} `{AllocOps T} : PoolOps (Range T) string := {
  pAllocate := MarkAllocate; pAllocateNext := MarkAllocateNext; pRelease := MarkRelease
}.

Section marks.
Context {T : Type} `{AllocLaws T}.
Implicit Types r : Range T.

Definition markValue (m : string) : option Z := match Parse m with Ret v => Some v | _ => None end.

Lemma inside_exec op r res r' v : exec op r = (res, r') → inside r' v ↔ inside r v.
Proof. intros [E1 E2]%withAlloc_bounds. unfold inside. by rewrite E1, E2. Qed.

(** Evaluate the value of a mark whose parse is known. *)
Ltac parsed := repeat match goal with Hp : Parse _ = _ |- _ => rewrite Hp in *; clear Hp end.

Lemma MarkAllocate_law k r : range_wf r →
  match MarkAllocate k r with
  | Ret r' => range_wf r' ∧ (∀ v, inside r' v ↔ inside r v) ∧
      ∃ v, markValue k = Some v ∧ (v ∉ marks r) ∧ marks r' = {[v]} ∪ marks r
  | Err _ => ∀ v, markValue k = Some v → inside r v → v ∈ marks r
  | _ => False
  end.
Proof.
  intros Hwf. destruct (exec_allocate r Hwf k) as (res & r' & E & Hwf' & Hs).
  pose proof (λ v, inside_exec _ _ _ _ v E) as Hi. simpl in E. unfold markValue.
  destruct (MarkAllocate k r) as [r1|e|s|]; simplify_eq; inversion Hs; simplify_eq; try done.
  - parsed. split_and!; [done|done|]. by eexists.
  - parsed. naive_solver.
  - destruct_or!; simplify_eq; parsed. naive_solver.
  - destruct_or!; simplify_eq; by parsed.
Qed.

Lemma MarkAllocateNext_law r : range_wf r →
  match MarkAllocateNext r with
  | Ret (k, r') => True ∧ range_wf r' ∧ (∀ v, inside r' v ↔ inside r v) ∧
      ∃ v, markValue k = Some v ∧ (v ∉ marks r) ∧ marks r' = {[v]} ∪ marks r
  | Err _ => ∀ v, inside r v → v ∈ marks r
  | _ => False
  end.
Proof.
  intros Hwf. destruct (exec_next r Hwf) as (res & r' & E & Hwf' & Hs).
  pose proof (λ v, inside_exec _ _ _ _ v E) as Hi. simpl in E. unfold markValue.
  destruct (MarkAllocateNext r) as [[k r1]|e|s|]; simplify_eq; inversion Hs; simplify_eq; try done; try naive_solver.
  parsed. split_and!; [done..|]. by eexists.
Qed.

Lemma MarkRelease_law k r : range_wf r →
  match MarkRelease k r with
  | Ret r' => range_wf r' ∧ (∀ v, inside r' v ↔ inside r v) ∧
      ∀ v, v ∈ marks r' ↔ v ∈ marks r ∧ markValue k ≠ Some v
  | Err _ => True
  | _ => False
  end.
Proof.
  intros Hwf. destruct (exec_release r Hwf k) as (res & r' & E & Hwf' & Hs).
  pose proof (λ v, inside_exec _ _ _ _ v E) as Hi. simpl in E. unfold markValue.
  destruct (MarkRelease k r) as [r1|e|s|]; simplify_eq; inversion Hs; simplify_eq; try done; try naive_solver.
  parsed. split_and!; [done|done|]. intros w.
  rewrite elem_of_difference, elem_of_singleton.
  split; intros [? Hn]; (split; [done|]); congruence.
Qed.

#[export] Instance mark_pool_laws : PoolLaws (Range T) string := {
  taken := marks; value := markValue; key_ok := λ _, True; fits := inside; pool_wf := range_wf;
  pAllocate_law k r Hwf _ := MarkAllocate_law k r Hwf;
  pAllocateNext_law := MarkAllocateNext_law;
  pRelease_law k r Hwf _ := MarkRelease_law k r Hwf
}.
End marks.

(** ** Sequences of calls *)

Inductive pool_op (K : Type) :=
| PAllocate (k : K)
| PAllocateNext
| PRelease (k : K).
Arguments PAllocate {K} k.
Arguments PAllocateNext {K}.
Arguments PRelease {K} k.

Section run.
Context {A K : Type} `{PoolLaws A K}.

(** A call that fails changes nothing. *)
Definition poolStep (op : pool_op K) (a : A) : A :=
  match op with
  | PAllocate k => match pAllocate k a with Ret a' => a' | _ => a end
  | PAllocateNext => match pAllocateNext a with Ret (_, a') => a' | _ => a end
  | PRelease k => match pRelease k a with Ret a' => a' | _ => a end
  end.
Definition op_ok (op : pool_op K) : Prop :=
  match op with PAllocate k | PRelease k => key_ok k | PAllocateNext => True end.
Definition poolRun (ops : list (pool_op K)) (a : A) : A := foldl (λ a op, poolStep op a) a ops.

Lemma poolStep_wf op a : pool_wf a → op_ok op → pool_wf (poolStep op a) ∧ ∀ v, fits (poolStep op a) v ↔ fits a v.
Proof.
  intros Hwf Hok. destruct op as [k| |k]; simpl in *.
  - pose proof (pAllocate_law k a Hwf Hok) as Hl. destruct (pAllocate k a); naive_solver.
  - pose proof (pAllocateNext_law a Hwf) as Hl. destruct (pAllocateNext a) as [[]| | |]; naive_solver.
  - pose proof (pRelease_law k a Hwf Hok) as Hl. destruct (pRelease k a); naive_solver.
Qed.

Lemma poolRun_wf ops a : pool_wf a → Forall op_ok ops → pool_wf (poolRun ops a) ∧ ∀ v, fits (poolRun ops a) v ↔ fits a v.
Proof.
  revert a. induction ops as [|op ops IH]; intros a Hwf Hok; [done|]. apply Forall_cons in Hok as [Ho Hok].
  destruct (poolStep_wf op a Hwf Ho) as [Hwf' Hf]. destruct (IH _ Hwf' Hok) as [? Hf']. split; [done|].
  intros v. simpl. by rewrite Hf'.
Qed.
End run.
