(* ===== verification/GoNet.v ===== *)
(** * Go's [net] package, as far as the program uses it

    Addresses are lists of bytes ([net.IP] is a byte slice; [nil] is the empty
    list), parsed and printed as [net.ParseIP], [net.ParseCIDR] and
    [net.IP.String] do.  The main result is the round trip
    [ParseIP (String ip) = To16 ip]: the program uses printed addresses as map
    keys and parses them back. *)

From S2P Require Import Prelude GoStd.
Open Scope Z_scope.

Abbreviation IP := (list Z).

Definition v4InV6Prefix : IP := replicate 10 0 ++ [255; 255].

Definition is_byte (b : Z) : Prop := 0 <= b < 256.

(** ** Forms of an address *)

Definition To4 (ip : IP) : IP :=
  if decide (length ip = 4%nat) then ip
  else if decide (length ip = 16%nat ∧ take 12 ip = v4InV6Prefix) then drop 12 ip
  else [].

Definition To16 (ip : IP) : IP :=
  if decide (length ip = 4%nat) then v4InV6Prefix ++ ip
  else if decide (length ip = 16%nat) then ip
  else [].

(** An address as the code produces it: four or sixteen bytes. *)
Definition valid_ip (ip : IP) : Prop :=
  (length ip = 4%nat ∨ length ip = 16%nat) ∧ Forall is_byte ip.

(** ** Parsing *)

Definition decval (c : ascii) : option Z :=
  let n := Z.of_N (N_of_ascii c) in
  if (48 <=? n) && (n <=? 57) then Some (n - 48) else None.

(** [netip.parseIPv4Fields]; [prev] is the character before, [digLen] the
    number of digits of the current field, [fields] the fields so far. *)
Fixpoint v4loop (s : list ascii) (prev : option ascii) (val : Z) (digLen : nat)
    (fields : list Z) : option (list Z) :=
  match s with
  | [] => if decide (length fields < 3)%nat then None else Some (fields ++ [val])
  | c :: s' =>
      match decval c with
      | Some d =>
          if decide (digLen = 1%nat ∧ val = 0) then None
          else if 255 <? val * 10 + d then None
          else v4loop s' (Some c) (val * 10 + d) (S digLen) fields
      | None =>
          if decide (c = "."%char) then
            if decide (prev = None ∨ s' = [] ∨ prev = Some "."%char) then None
            else if decide (length fields = 3%nat) then None
            else v4loop s' (Some c) 0 0 (fields ++ [val])
          else None
      end
  end.

Definition parseIPv4Fields (s : list ascii) : option (list Z) := v4loop s None 0 0 [].

(** One hexadecimal group: number of digits read, value, rest. *)
Fixpoint hexGroup (s : list ascii) (off : nat) (acc : Z) : option (nat * Z * list ascii) :=
  match s with
  | [] => Some (off, acc, [])
  | c :: s' =>
      match hexval c with
      | Some d =>
          if (3 <? off)%nat then None
          else if 65535 <? acc * 16 + d then None
          else hexGroup s' (S off) (acc * 16 + d)
      | None => Some (off, acc, s)
      end
  end.

(** The end of [netip.parseIPv6]: expand the ellipsis. *)
Definition finish6 (ip : IP) (ellipsis : option nat) : option IP :=
  if decide (length ip < 16)%nat then
    match ellipsis with
    | None => None
    | Some e => Some (take e ip ++ replicate (16 - length ip) 0 ++ drop e ip)
    end
  else match ellipsis with Some _ => None | None => Some ip end.

(** The group loop of [netip.parseIPv6].  Each turn stores two bytes, so
    eight turns are enough. *)
Fixpoint v6loop (fuel : nat) (s : list ascii) (ip : IP) (ellipsis : option nat) : option IP :=
  if decide (16 <= length ip)%nat then
    match s with [] => finish6 ip ellipsis | _ => None end
  else
    match fuel with
    | O => None
    | S fuel' =>
        match hexGroup s 0 0 with
        | None => None
        | Some (off, acc, rest) =>
            if decide (off = O) then None
            else
              match rest with
              | [] => finish6 (ip ++ [acc / 256; acc mod 256]) ellipsis
              | c :: rest1 =>
                  if decide (c = "."%char) then
                    if decide (ellipsis = None ∧ length ip ≠ 12%nat) then None
                    else if decide (16 < length ip + 4)%nat then None
                    else match parseIPv4Fields s with
                         | None => None
                         | Some f => finish6 (ip ++ f) ellipsis
                         end
                  else if decide (c ≠ ":"%char) then None
                  else
                    let ip' := ip ++ [acc / 256; acc mod 256] in
                    match rest1 with
                    | [] => None
                    | c2 :: rest2 =>
                        if decide (c2 = ":"%char) then
                          match ellipsis with
                          | Some _ => None
                          | None =>
                              match rest2 with
                              | [] => finish6 ip' (Some (length ip'))
                              | _ => v6loop fuel' rest2 ip' (Some (length ip'))
                              end
                          end
                        else v6loop fuel' rest1 ip' ellipsis
                    end
              end
        end
    end.

(** Addresses with a zone are refused by [net.ParseIP] and [net.ParseCIDR]. *)
Definition parseIPv6 (s : list ascii) : option IP :=
  if containsChar "%"%char s then None
  else
    match s with
    | c1 :: c2 :: rest =>
        if decide (c1 = ":"%char ∧ c2 = ":"%char) then
          match rest with [] => Some (replicate 16 0) | _ => v6loop 8 rest [] (Some O) end
        else v6loop 8 s [] None
    | _ => v6loop 8 s [] None
    end.

(** [netip.ParseAddr]: the first separator decides the family.  The result is
    the 16-byte form and whether the text was an IPv4 address. *)
Fixpoint addrFamily (s : list ascii) : option bool :=
  match s with
  | [] => None
  | c :: s' =>
      if decide (c = "."%char) then Some true
      else if decide (c = ":"%char) then Some false
      else if decide (c = "%"%char) then None
      else addrFamily s'
  end.

Definition ParseAddr (s : list ascii) : option (bool * IP) :=
  match addrFamily s with
  | None => None
  | Some true => match parseIPv4Fields s with Some f => Some (true, v4InV6Prefix ++ f) | None => None end
  | Some false => match parseIPv6 s with Some ip => Some (false, ip) | None => None end
  end.

(** [net.ParseIP]; [nil] (the empty list) when the text is no address. *)
Definition ParseIP (s : string) : IP :=
  match ParseAddr (chars s) with Some (_, ip) => ip | None => [] end.

(** ** Printing *)

Definition decdigit (d : Z) : ascii := ascii_of_N (Z.to_N (d + 48)).

Definition fmtByte (b : Z) : list ascii :=
  if b <? 10 then [decdigit b]
  else if b <? 100 then [decdigit (b / 10); decdigit (b mod 10)]
  else [decdigit (b / 100); decdigit (b / 10 mod 10); decdigit (b mod 10)].

Fixpoint joinChar (sep : ascii) (l : list (list ascii)) : list ascii :=
  match l with
  | [] => []
  | [w] => w
  | w :: l' => w ++ sep :: joinChar sep l'
  end.

Definition fmt4 (ip : IP) : list ascii := joinChar "."%char (fmtByte <$> ip).

(** The eight 16-bit groups of an address, and back. *)
Fixpoint groups (ip : IP) : list Z :=
  match ip with
  | a :: b :: ip' => (a * 256 + b) :: groups ip'
  | _ => []
  end.

Definition ungroup (g : list Z) : IP := g ≫= λ v, [v / 256; v mod 256].

Fixpoint zeroRun (g : list Z) : nat :=
  match g with
  | 0 :: g' => S (zeroRun g')
  | _ => O
  end.

(** The first of the longest runs of at least two zero groups. *)
Definition bestRun (g : list Z) : option (nat * nat) :=
  foldl (λ best i,
    let l := zeroRun (drop i g) in
    let cur := match best with Some (s, e) => (e - s)%nat | None => O end in
    if decide (2 <= l ∧ cur < l)%nat then Some (i, (i + l)%nat) else best)
    None (seq 0 8).

Definition fmtGroups (g : list Z) : list ascii := joinChar ":"%char (FormatUint16 <$> g).

Definition fmt6 (ip : IP) : list ascii :=
  let g := groups ip in
  match bestRun g with
  | None => fmtGroups g
  | Some (s, e) => fmtGroups (take s g) ++ [":"; ":"]%char ++ fmtGroups (drop e g)
  end.

Definition hex2 (b : Z) : list ascii := [hexdigit (b / 16); hexdigit (b mod 16)].

(** [net.IP.String]. *)
Definition IPString (ip : IP) : string :=
  if decide (length ip = O) then "<nil>"
  else if decide (length ip = 4%nat ∨ length ip = 16%nat) then
    if decide (length (To4 ip) = 4%nat) then unchars (fmt4 (To4 ip)) else unchars (fmt6 ip)
  else unchars ("?"%char :: (ip ≫= hex2)).

(** ** Networks *)

Record IPNet := mkIPNet { net_IP : IP; net_Mask : list Z }.

(** [net.CIDRMask(ones, 8 * n)]. *)
Definition maskByte (ones : Z) (i : nat) : Z :=
  let k := Z.max 0 (Z.min 8 (ones - 8 * Z.of_nat i)) in 256 - 2 ^ (8 - k).
Definition CIDRMask (ones : Z) (n : nat) : list Z := maskByte ones <$> seq 0 n.

Definition IPMask (ip : IP) (mask : list Z) : IP :=
  let mask := if decide (length mask = 16%nat ∧ length ip = 4%nat ∧ take 12 mask = replicate 12 255)
              then drop 12 mask else mask in
  let ip := if decide (length mask = 4%nat ∧ length ip = 16%nat ∧ take 12 ip = v4InV6Prefix)
            then drop 12 ip else ip in
  if decide (length ip ≠ length mask) then [] else zip_with Z.land ip mask.

(** [dtoi] on the mask text: all of it must be decimal digits, below the
    [big] bound [0xFFFFFF]. *)
Fixpoint dtoi (s : list ascii) (n : Z) : option Z :=
  match s with
  | [] => Some n
  | c :: s' =>
      match decval c with
      | Some d => if 0xFFFFFF <=? n * 10 + d then None else dtoi s' (n * 10 + d)
      | None => None
      end
  end.

Definition ParseCIDR (s : string) : option (IP * IPNet) :=
  match splitOn "/"%char (chars s) with
  | addr :: (_ :: _) as rest =>
      let mask := drop (S (length addr)) (chars s) in
      match ParseAddr addr with
      | None => None
      | Some (is4, ip) =>
          match mask with
          | [] => None
          | _ =>
              match dtoi mask 0 with
              | None => None
              | Some n =>
                  let iplen := if is4 : bool then 4%nat else 16%nat in
                  if 8 * Z.of_nat iplen <? n then None
                  else let m := CIDRMask n iplen in
                       Some (ip, mkIPNet (IPMask ip m) m)
              end
          end
      end
  | _ => None
  end.

(** [IPNet.Contains], with [networkNumberAndMask]. *)
Definition NetContains (n : IPNet) (ip : IP) : bool :=
  let nn := if decide (To4 (net_IP n) = []) then net_IP n else To4 (net_IP n) in
  let m := net_Mask n in
  let m' := if decide (length m = 16%nat ∧ length nn = 4%nat) then drop 12 m
            else if decide (length m = length nn) then m else [] in
  let x := if decide (To4 ip = []) then ip else To4 ip in
  if decide (length m' = O ∨ length x ≠ length nn) then false
  else bool_decide (zip_with Z.land nn m' = zip_with Z.land x m').

(** [net.IP.Equal]: the four-byte and the sixteen-byte form of an IPv4
    address are equal. *)
Definition IPEqual (ip x : IP) : bool :=
  if decide (length ip = length x) then bool_decide (ip = x)
  else if decide (length ip = 4%nat ∧ length x = 16%nat) then
    bool_decide (take 12 x = v4InV6Prefix ∧ ip = drop 12 x)
  else if decide (length ip = 16%nat ∧ length x = 4%nat) then
    bool_decide (take 12 ip = v4InV6Prefix ∧ drop 12 ip = x)
  else false.

(** Kinds of addresses. *)
Definition IsLinkLocalUnicast (ip : IP) : bool :=
  match To4 ip with
  | a :: b :: _ => bool_decide (a = 169 ∧ b = 254)
  | _ => match ip with
         | a :: b :: _ => bool_decide (length ip = 16%nat ∧ a = 0xfe ∧ Z.land b 0xc0 = 0x80)
         | _ => false
         end
  end.
Definition IsUnspecified (ip : IP) : bool := IPEqual ip (v4InV6Prefix ++ replicate 4 0) || IPEqual ip (replicate 16 0).
Definition IsLoopback (ip : IP) : bool :=
  match To4 ip with a :: _ => bool_decide (a = 127) | _ => IPEqual ip (replicate 15 0 ++ [1]) end.
Definition IsMulticast (ip : IP) : bool :=
  match To4 ip with
  | a :: _ => bool_decide (Z.land a 0xf0 = 0xe0)
  | _ => match ip with a :: _ => bool_decide (length ip = 16%nat ∧ a = 0xff) | _ => false end
  end.
Definition IsGlobalUnicast (ip : IP) : bool :=
  bool_decide (length ip = 4%nat ∨ length ip = 16%nat) && negb (IPEqual ip (v4InV6Prefix ++ replicate 4 255)) &&
  negb (IsUnspecified ip) && negb (IsLoopback ip) && negb (IsMulticast ip) && negb (IsLinkLocalUnicast ip).

Example ParseIP_v4 : ParseIP "10.6.1.21" = v4InV6Prefix ++ [10; 6; 1; 21].
Proof. reflexivity. Qed.
Example global_unicast : IsGlobalUnicast (ParseIP "10.6.1.21") = true ∧ IsGlobalUnicast (ParseIP "fd00::1") = true ∧
  IsGlobalUnicast (ParseIP "169.254.1.1") = false ∧ IsGlobalUnicast (ParseIP "fe80::1") = false ∧ IsGlobalUnicast (ParseIP "::1") = false ∧
  IsGlobalUnicast (ParseIP "224.0.0.1") = false ∧ IsGlobalUnicast (ParseIP "255.255.255.255") = false ∧ IsGlobalUnicast [] = false.
Proof. by vm_compute. Qed.
Example ParseIP_bad : ParseIP "10.06.1.21" = [] ∧ ParseIP "10.6.1" = [] ∧ ParseIP "" = [] ∧ ParseIP "::1%eth0" = [].
Proof. by vm_compute. Qed.
Example ParseIP_v6 : IPString (ParseIP "2001:DB8::0:1") = "2001:db8::1" ∧ IPString (ParseIP "::") = "::"
  ∧ IPString (ParseIP "fd::0:0:1:0:0") = "fd::1:0:0" ∧ IPString (ParseIP "::ffff:10.0.0.1") = "10.0.0.1".
Proof. by vm_compute. Qed.
Example ParseCIDR_v4 : (λ p, IPString (net_IP p.2)) <$> ParseCIDR "10.6.1.21/20" = Some "10.6.0.0".
Proof. by vm_compute. Qed.
Example NetContains_v4 :
  (λ p, (NetContains p.2 (ParseIP "10.6.15.255"), NetContains p.2 (ParseIP "10.6.16.0"))) <$>
  ParseCIDR "10.6.1.21/20" = Some (true, false).
Proof. by vm_compute. Qed.

(** ** Round trip of IPv4 *)

(** A statement about a byte is a statement about 256 values. *)
Lemma byte_ind (P : Z → Prop) : Forall P (seqZ 0 256) → ∀ b, is_byte b → P b.
Proof. rewrite Forall_forall. unfold is_byte. intros H b Hb. apply H, elem_of_seqZ. lia. Qed.

Ltac byte_cases :=
  apply byte_ind;
  let l := eval vm_compute in (seqZ 0 256) in change (seqZ 0 256) with l;
  repeat (apply List.Forall_cons); try apply List.Forall_nil.

Lemma fmtByte_last b : is_byte b → ∃ p, last (fmtByte b) = Some p ∧ p ≠ "."%char.
Proof. revert b. byte_cases; eexists; (split; [reflexivity|discriminate]). Qed.

Lemma v4loop_octet b rest prev fields :
  is_byte b →
  v4loop (fmtByte b ++ rest) prev 0 0 fields = v4loop rest (last (fmtByte b)) b (length (fmtByte b)) fields.
Proof. revert b. byte_cases; reflexivity. Qed.

Lemma v4loop_dot b w rest dl fields :
  is_byte b → rest ≠ [] → (length fields < 3)%nat →
  v4loop ("."%char :: rest) (last (fmtByte b)) w dl fields = v4loop rest (Some "."%char) 0 0 (fields ++ [w]).
Proof.
  intros Hb Hr Hf. destruct (fmtByte_last b Hb) as (p & Hp & Hd). rewrite Hp.
  cbn [v4loop]. change (decval ".") with (@None Z). cbv iota. rewrite decide_True by done.
  rewrite decide_False by naive_solver. by rewrite decide_False by lia.
Qed.

Lemma fmtByte_nonnil b : fmtByte b ≠ [].
Proof. unfold fmtByte. by repeat case_match. Qed.

Lemma parseIPv4Fields_fmt4 ip :
  length ip = 4%nat → Forall is_byte ip → parseIPv4Fields (fmt4 ip) = Some ip.
Proof.
  intros Hl Hb. destruct ip as [|a [|b [|c [|d [|]]]]]; try discriminate Hl.
  rewrite !Forall_cons in Hb. destruct Hb as (Ha & Hb & Hc & Hd & _).
  unfold parseIPv4Fields, fmt4. cbn [fmap list_fmap joinChar].
  assert (∀ x l, fmtByte x ++ l ≠ []) by (intros x l; pose proof (fmtByte_nonnil x); by destruct (fmtByte x)).
  rewrite v4loop_octet by done. rewrite v4loop_dot by (simpl; auto || lia).
  rewrite v4loop_octet by done. rewrite v4loop_dot by (simpl; auto || lia).
  rewrite v4loop_octet by done. rewrite v4loop_dot by (simpl; auto using fmtByte_nonnil || lia).
  rewrite <- (app_nil_r (fmtByte d)), v4loop_octet by done. reflexivity.
Qed.

(** The family of printed text: all digits up to the first separator. *)
Lemma addrFamily_digits w rest :
  Forall (λ c, hexval c ≠ None) w → addrFamily (w ++ rest) = addrFamily rest.
Proof.
  induction 1 as [|c w Hc _ IH]; [done|]. simpl.
  rewrite !decide_False by (intros ->; by apply Hc). done.
Qed.

Lemma fmtByte_hex b : is_byte b → Forall (λ c, hexval c ≠ None) (fmtByte b).
Proof. revert b. byte_cases; repeat constructor; discriminate. Qed.

Lemma ParseAddr_fmt4 ip :
  length ip = 4%nat → Forall is_byte ip → ParseAddr (fmt4 ip) = Some (true, v4InV6Prefix ++ ip).
Proof.
  intros Hl Hb. unfold ParseAddr.
  assert (addrFamily (fmt4 ip) = Some true) as ->.
  { destruct ip as [|a [|b l]]; try discriminate Hl. apply Forall_cons in Hb as [Ha _].
    unfold fmt4. cbn [fmap list_fmap joinChar]. by rewrite addrFamily_digits by by apply fmtByte_hex. }
  by rewrite parseIPv4Fields_fmt4.
Qed.

(** ** Round trip of IPv6 *)

Definition is_group (v : Z) : Prop := 0 <= v < 65536.

Lemma formatHex_hex fuel n : 0 <= n → Forall (λ c, hexval c ≠ None) (formatHex fuel n).
Proof.
  revert n. induction fuel as [|fuel IH]; intros n Hn; simpl; [constructor|].
  destruct (Z.ltb_spec n 16).
  - constructor; [|constructor]. by rewrite hexval_hexdigit by lia.
  - apply Forall_app. split; [apply IH, Z.div_pos; lia|]. constructor; [|constructor].
    by rewrite hexval_hexdigit by (apply Z.mod_pos_bound; lia).
Qed.

Lemma formatHex_length fuel k n :
  0 <= n < 16 ^ Z.of_nat (S k) → (length (formatHex fuel n) <= S k)%nat.
Proof.
  revert k n. induction fuel as [|fuel IH]; intros k n Hn; simpl; [lia|].
  destruct (Z.ltb_spec n 16); [simpl; lia|]. rewrite length_app. simpl.
  destruct k as [|k]; [simpl in Hn; lia|].
  enough (length (formatHex fuel (n / 16)) <= S k)%nat by lia. apply IH.
  rewrite Nat2Z.inj_succ, Z.pow_succ_r in Hn by lia.
  split; [apply Z.div_pos; lia|apply Z.div_lt_upper_bound; lia].
Qed.

Lemma hexval_nonneg c d : hexval c = Some d → 0 <= d.
Proof. unfold hexval. intros. repeat split_if; simplify_eq; lia. Qed.

Lemma parseHex_mono l n v : 0 <= n → parseHex l n = Ret v → n <= v.
Proof.
  revert n. induction l as [|c l IH]; simpl; intros n Hn H; [inv_ret; lia|].
  destruct (hexval c) eqn:E; [|done]. apply hexval_nonneg in E.
  destruct (_ <? _); [done|]. apply IH in H; lia.
Qed.

Lemma hexGroup_digits l off acc v rest :
  0 <= acc → parseHex l acc = Ret v → v <= 65535 → (off + length l <= 4)%nat →
  hexGroup (l ++ rest) off acc = hexGroup rest (off + length l) v.
Proof.
  revert off acc. induction l as [|c l IH]; intros off acc Hacc Hp Hv Hl.
  - simpl in *. inv_ret. f_equal. lia.
  - cbn [parseHex app length hexGroup] in *. destruct (hexval c) as [d|] eqn:E; [|done].
    pose proof (hexval_nonneg _ _ E). destruct (maxUint64 <? _); [done|].
    destruct (Nat.ltb_spec 3 off); [lia|].
    pose proof (parseHex_mono l (acc * 16 + d) v ltac:(lia) Hp).
    destruct (Z.ltb_spec 65535 (acc * 16 + d)); [lia|].
    rewrite IH by (done || lia). f_equal. lia.
Qed.

Lemma hexGroup_stop rest off v :
  match rest with c :: _ => hexval c = None | [] => True end → hexGroup rest off v = Some (off, v, rest).
Proof. destruct rest as [|c rest]; simpl; [done|]. by intros ->. Qed.

Lemma hexGroup_format v rest :
  is_group v → match rest with c :: _ => hexval c = None | [] => True end →
  ∃ off, hexGroup (FormatUint16 v ++ rest) 0 0 = Some (S off, v, rest).
Proof.
  intros Hv Hr. unfold is_group in Hv.
  assert (length (FormatUint16 v) <= 4)%nat by (apply (formatHex_length 64 3); lia).
  pose proof (formatHex_nonnil 64 v ltac:(done)) as Hnil. fold (FormatUint16 v) in Hnil.
  exists (length (FormatUint16 v) - 1)%nat.
  rewrite (hexGroup_digits _ _ _ v); [|lia| |lia|lia].
  - rewrite hexGroup_stop by done. do 3 f_equal. destruct (FormatUint16 v); [done|simpl; lia].
  - apply parseHex_formatHex; unfold maxUint64; lia.
Qed.

Lemma fmtGroups_head g gs :
  is_group g → ∃ c l, fmtGroups (g :: gs) = c :: l ∧ hexval c ≠ None.
Proof.
  intros Hg. pose proof (formatHex_nonnil 64 g ltac:(done)) as Hnil.
  pose proof (formatHex_hex 64 g ltac:(unfold is_group in Hg; lia)) as Hhex.
  unfold fmtGroups, FormatUint16. cbn [fmap list_fmap].
  destruct (formatHex 64 g) as [|c l] eqn:E; [done|]. apply Forall_cons in Hhex as [Hc _].
  destruct gs as [|g' gs]; cbn [fmap list_fmap joinChar]; eauto.
Qed.

Lemma fmtGroups_cons g g' gs : fmtGroups (g :: g' :: gs) = FormatUint16 g ++ ":"%char :: fmtGroups (g' :: gs).
Proof. done. Qed.

Lemma not_colon c : hexval c ≠ None → c ≠ ":"%char.
Proof. intros H ->. by apply H. Qed.

Lemma ungroup_cons g gs : ungroup (g :: gs) = [g / 256; g mod 256] ++ ungroup gs.
Proof. done. Qed.

Lemma length_ungroup g : length (ungroup g) = (2 * length g)%nat.
Proof. induction g as [|a g IH]; [done|]. rewrite ungroup_cons, length_app, IH. simpl. lia. Qed.

(** Reading printed groups up to the end of the text. *)
Lemma v6loop_groups gs : ∀ fuel ip ell g,
  Forall is_group (g :: gs) → (length ip + 2 * length (g :: gs) <= 16)%nat →
  (length (g :: gs) <= fuel)%nat →
  v6loop fuel (fmtGroups (g :: gs)) ip ell = finish6 (ip ++ ungroup (g :: gs)) ell.
Proof.
  induction gs as [|g' gs IH]; intros [|fuel] ip ell g Hg Hlen Hfuel; simpl length in *; try lia;
    apply Forall_cons in Hg as [Hg Hgs]; cbn [v6loop]; rewrite decide_False by lia.
  - destruct (hexGroup_format g [] Hg I) as [off Hoff]. rewrite app_nil_r in Hoff.
    change (fmtGroups [g]) with (FormatUint16 g). rewrite Hoff. by rewrite decide_False by lia.
  - rewrite fmtGroups_cons. destruct (hexGroup_format g (":"%char :: fmtGroups (g' :: gs)) Hg eq_refl) as [off ->].
    cbv iota. rewrite decide_False by lia. rewrite decide_False by done. rewrite decide_False by naive_solver.
    destruct (fmtGroups_head g' gs) as (c & l & Hc & Hhex); [by apply Forall_cons in Hgs as []|].
    pose proof (IH fuel (ip ++ [g / 256; g mod 256]) ell g' Hgs) as IH'.
    rewrite Hc in *. rewrite decide_False by by apply not_colon.
    rewrite IH' by (rewrite ?length_app; simpl; lia). by rewrite <- app_assoc.
Qed.

(** Reading the groups on the right of the ellipsis. *)
Lemma v6loop_right R fuel ip e :
  Forall is_group R → (length ip + 2 * length R <= 16)%nat → (length R <= fuel)%nat →
  match fmtGroups R with [] => finish6 ip (Some e) | _ => v6loop fuel (fmtGroups R) ip (Some e) end
  = finish6 (ip ++ ungroup R) (Some e).
Proof.
  intros HR Hlen Hfuel. destruct R as [|r R].
  - simpl. by rewrite app_nil_r.
  - rewrite v6loop_groups by done.
    destruct (fmtGroups_head r R) as (c & l & -> & _); [by apply Forall_cons in HR as []|done].
Qed.

(** Reading groups, an ellipsis and groups. *)
Lemma v6loop_ellipsis L R : ∀ fuel ip g,
  Forall is_group (g :: L) → Forall is_group R →
  (length ip + 2 * (length (g :: L) + length R) < 16)%nat → (length (g :: L) + length R <= fuel)%nat →
  v6loop fuel (fmtGroups (g :: L) ++ [":"; ":"]%char ++ fmtGroups R) ip None
  = finish6 (ip ++ ungroup (g :: L) ++ ungroup R) (Some (length (ip ++ ungroup (g :: L)))).
Proof.
  induction L as [|g' L IH]; intros [|fuel] ip g Hg HR Hlen Hfuel; simpl length in Hlen, Hfuel; try lia;
    apply Forall_cons in Hg as [Hg HL]; cbn [v6loop]; rewrite decide_False by lia.
  - change (fmtGroups [g]) with (FormatUint16 g).
    destruct (hexGroup_format g ([":"; ":"]%char ++ fmtGroups R) Hg eq_refl) as [off ->].
    simpl app. cbv iota. rewrite decide_False by lia. rewrite decide_False by done.
    rewrite decide_False by naive_solver. rewrite decide_True by done.
    rewrite v6loop_right; [|done|rewrite length_app; simpl; lia|lia]. by rewrite <- app_assoc.
  - rewrite fmtGroups_cons, <- app_assoc. simpl app.
    destruct (hexGroup_format g (":"%char :: fmtGroups (g' :: L) ++ ":"%char :: ":"%char :: fmtGroups R) Hg eq_refl)
      as [off ->].
    cbv iota. rewrite decide_False by lia. rewrite decide_False by done. rewrite decide_False by naive_solver.
    destruct (fmtGroups_head g' L) as (c & l & Hc & Hhex); [by apply Forall_cons in HL as []|].
    pose proof (IH fuel (ip ++ [g / 256; g mod 256]) g' HL HR) as IH'.
    rewrite Hc in *. cbn [app] in IH' |- *. cbv beta iota zeta. rewrite decide_False by by apply not_colon.
    rewrite IH' by (rewrite ?length_app; simpl; lia). by rewrite <- !app_assoc.
Qed.

Lemma zeroRun_spec g : take (zeroRun g) g = replicate (zeroRun g) 0.
Proof. induction g as [|[] g IH]; simpl; [done| |done..]. by rewrite IH. Qed.

Lemma zeroRun_length g : (zeroRun g <= length g)%nat.
Proof. induction g as [|[] g IH]; simpl; lia. Qed.

(** The run that is printed as an ellipsis consists of zeros. *)
Lemma bestRun_zeros g s e :
  length g = 8%nat → bestRun g = Some (s, e) →
  (s + 2 <= e <= 8)%nat ∧ g = take s g ++ replicate (e - s) 0 ++ drop e g.
Proof.
  intros Hg. unfold bestRun.
  assert (∀ idx best, Forall (λ i, i < 8)%nat idx →
    (∀ s e, best = Some (s, e) → (s + 2 <= e <= 8)%nat ∧ g = take s g ++ replicate (e - s) 0 ++ drop e g) →
    ∀ s e, foldl (λ best i,
      let l := zeroRun (drop i g) in
      let cur := match best with Some (s, e) => (e - s)%nat | None => O end in
      if decide (2 <= l ∧ cur < l)%nat then Some (i, (i + l)%nat) else best) best idx = Some (s, e) →
      (s + 2 <= e <= 8)%nat ∧ g = take s g ++ replicate (e - s) 0 ++ drop e g) as Hgen.
  { induction idx as [|i idx IH]; intros best Hi Hbest s' e'; simpl; [apply Hbest|].
    apply Forall_cons in Hi as [Hi His]. apply IH; [done|].
    intros s1 e1. case_decide as Hd; [|apply Hbest]. intros [= <- <-].
    pose proof (zeroRun_length (drop i g)) as Hl. rewrite length_drop in Hl.
    split; [lia|]. replace (i + zeroRun (drop i g) - i)%nat with (zeroRun (drop i g)) by lia.
    rewrite <- zeroRun_spec, <- drop_drop, take_drop, take_drop. done. }
  apply Hgen; [|done]. apply Forall_forall. intros i Hi%elem_of_seq. lia.
Qed.

Lemma groups_ungroup ip :
  ∀ n, length ip = (2 * n)%nat → Forall is_byte ip → ungroup (groups ip) = ip ∧ Forall is_group (groups ip) ∧ length (groups ip) = n.
Proof.
  intros n. revert ip. induction n as [|n IH]; intros ip Hl Hb.
  - by destruct ip.
  - destruct ip as [|a [|b ip]]; try (simpl in Hl; lia).
    rewrite !Forall_cons in Hb. destruct Hb as (Ha & Hb & Hip). cbn [groups].
    destruct (IH ip) as (H1 & H2 & H3); [simpl in Hl; lia|done|].
    rewrite ungroup_cons, H1. unfold is_byte, is_group in *. split_and!.
    + simpl. f_equal; [|f_equal].
      * rewrite Z.div_add_l by lia. rewrite Z.div_small by lia. lia.
      * rewrite Z.add_comm, Z.mod_add by lia. apply Z.mod_small. lia.
    + constructor; [unfold is_group; lia|done].
    + simpl. lia.
Qed.

(** Printed IPv6 text holds no zone and no dot, and has a colon. *)
Definition v6char (c : ascii) : Prop := hexval c ≠ None ∨ c = ":"%char.

Lemma fmtGroups_chars g : Forall is_group g → Forall v6char (fmtGroups g).
Proof.
  induction g as [|a g IH]; intros Hg; [constructor|]. apply Forall_cons in Hg as [Ha Hg].
  assert (Forall v6char (FormatUint16 a)) as Hf.
  { eapply Forall_impl; [apply formatHex_hex; unfold is_group in Ha; lia|]. intros c ?. by left. }
  destruct g as [|b g]; [done|]. rewrite fmtGroups_cons. apply Forall_app. split; [done|].
  apply Forall_cons. split; [by right|]. by apply IH.
Qed.

Lemma v6char_family s : Forall v6char s → ":"%char ∈ s → addrFamily s = Some false.
Proof.
  induction 1 as [|c s Hc _ IH]; intros Hin; [by apply not_elem_of_nil in Hin|]. simpl.
  destruct Hc as [Hc| ->]; [|done].
  rewrite !decide_False by (intros ->; by apply Hc).
  apply IH. apply elem_of_cons in Hin as [<-|?]; [by destruct Hc|done].
Qed.

Lemma v6char_no_zone s : Forall v6char s → containsChar "%"%char s = false.
Proof.
  intros Hs. apply bool_decide_eq_false. intros Hin. rewrite Forall_forall in Hs.
  destruct (Hs _ Hin) as [H|H]; [by apply H|done].
Qed.

Lemma parseIPv6_fmt6 ip :
  length ip = 16%nat → Forall is_byte ip → parseIPv6 (fmt6 ip) = Some ip ∧ addrFamily (fmt6 ip) = Some false.
Proof.
  intros Hl Hb. destruct (groups_ungroup ip 8 Hl Hb) as (Hun & Hg & Hlen).
  unfold fmt6. destruct (bestRun (groups ip)) as [[s e]|] eqn:Erun.
  - destruct (bestRun_zeros _ _ _ Hlen Erun) as [Hse Hsplit].
    set (L := take s (groups ip)) in *. set (R := drop e (groups ip)) in *.
    assert (Forall is_group L) as HL by by apply Forall_take.
    assert (Forall is_group R) as HR by by apply Forall_drop.
    assert (length L = s) as HLlen by (apply length_take_le; lia).
    assert (length R = (8 - e)%nat) as HRlen by (unfold R; rewrite length_drop; lia).
    assert (Forall v6char (fmtGroups L ++ [":"; ":"]%char ++ fmtGroups R)) as Hch.
    { rewrite !Forall_app. split_and!; [by apply fmtGroups_chars| |by apply fmtGroups_chars].
      repeat constructor; by right. }
    split; [|apply v6char_family; [done|set_solver]].
    unfold parseIPv6. rewrite v6char_no_zone by done.
    assert (finish6 (ungroup L ++ ungroup R) (Some (length (ungroup L))) = Some ip) as Hfin.
    { unfold finish6. rewrite decide_True by (rewrite length_app, !length_ungroup; lia).
      f_equal. rewrite take_app_length, drop_app_length, length_app, !length_ungroup, HLlen, HRlen.
      transitivity (ungroup (groups ip)); [|done]. rewrite Hsplit.
      unfold ungroup. rewrite !bind_app. do 2 f_equal.
      replace (16 - (2 * s + 2 * (8 - e)))%nat with (2 * (e - s))%nat by lia. clear.
      generalize (e - s)%nat. induction n as [|n IH]; [done|].
      replace (2 * S n)%nat with (S (S (2 * n))) by lia.
      cbn [replicate mbind list_bind app]. rewrite IH. done. }
    destruct L as [|g L].
    + cbn [fmtGroups fmap list_fmap joinChar app]. rewrite decide_True by done.
      destruct R as [|r R].
      * simpl in Hfin. simpl. injection Hfin as <-. done.
      * destruct (fmtGroups_head r R) as (c & l & Hc & _); [by apply Forall_cons in HR as []|].
        pose proof (v6loop_groups R 8 [] (Some O) r HR ltac:(simpl in *; lia) ltac:(simpl in *; lia)) as Hv.
        rewrite Hc in *. rewrite Hv. done.
    + pose proof (v6loop_ellipsis L R 8 [] g HL HR ltac:(simpl in *; lia) ltac:(simpl in *; lia)) as Hv.
      rewrite !app_nil_l, Hfin in Hv.
      destruct (fmtGroups_head g L) as (c & l & Hc & Hhex); [by apply Forall_cons in HL as []|].
      rewrite Hc in *. cbn [app] in *. rewrite <- Hv.
      destruct l; cbn [app]; cbv iota; rewrite decide_False by (intros [? ?]; by apply (not_colon c)); done.
  - assert (Forall v6char (fmtGroups (groups ip))) as Hch by by apply fmtGroups_chars.
    destruct (groups ip) as [|g [|g' gs]] eqn:Eg; try discriminate Hlen.
    split; [|apply v6char_family; [done|rewrite fmtGroups_cons; set_solver]].
    unfold parseIPv6. rewrite v6char_no_zone by done.
    pose proof (v6loop_groups (g' :: gs) 8 [] None g Hg ltac:(simpl in *; lia) ltac:(simpl in *; lia)) as Hv.
    destruct (fmtGroups_head g (g' :: gs)) as (c & l & Hc & Hhex); [by apply Forall_cons in Hg as []|].
    assert (finish6 ([] ++ ungroup (g :: g' :: gs)) None = Some ip) as Hfin.
    { unfold finish6. rewrite app_nil_l, Hun. by rewrite decide_False by lia. }
    rewrite Hc in *. rewrite <- Hfin, <- Hv.
    destruct l; [done|]. rewrite decide_False by (intros [? ?]; by apply (not_colon c)). done.
Qed.

(** Printing an address and parsing the text gives its sixteen-byte form. *)
Lemma ParseIP_IPString ip : valid_ip ip → ParseIP (IPString ip) = To16 ip.
Proof.
  intros [Hl Hb]. unfold ParseIP, IPString. rewrite decide_False by lia. rewrite decide_True by done.
  unfold To16. case_decide as H4.
  - destruct Hl as [Hl|Hl].
    + assert (To4 ip = ip) as -> by (unfold To4; by rewrite decide_True).
      rewrite chars_unchars, ParseAddr_fmt4 by done. by rewrite decide_True.
    + unfold To4 in *. rewrite decide_False in * by lia. case_decide as Hp; [|done].
      rewrite chars_unchars, ParseAddr_fmt4 by (done || by apply Forall_drop).
      rewrite decide_False by lia. rewrite decide_True by done. destruct Hp as [_ <-]. by rewrite take_drop.
  - destruct Hl as [Hl|Hl].
    + exfalso. apply H4. unfold To4. by rewrite decide_True.
    + destruct (parseIPv6_fmt6 ip Hl Hb) as [Hp Hf]. rewrite chars_unchars. unfold ParseAddr.
      rewrite Hf, Hp. rewrite decide_False by lia. by rewrite decide_True.
Qed.

(** ** Consequences used by the components *)

Definition nil_or_valid (ip : IP) : Prop := ip = [] ∨ (length ip = 16%nat ∧ Forall is_byte ip).

Lemma decval_bound c d : decval c = Some d → 0 <= d < 10.
Proof. unfold decval. intros. repeat split_if; simplify_eq; lia. Qed.

Lemma v4loop_valid s prev val dl fields ip :
  0 <= val <= 255 → (length fields <= 3)%nat → Forall is_byte fields →
  v4loop s prev val dl fields = Some ip → length ip = 4%nat ∧ Forall is_byte ip.
Proof.
  revert prev val dl fields. induction s as [|c s IH]; intros prev val dl fields Hv Hl Hf; cbn [v4loop].
  - case_decide; [done|]. intros [= <-]. rewrite length_app, Forall_app. simpl. split; [lia|].
    split; [done|]. constructor; [unfold is_byte; lia|constructor].
  - destruct (decval c) as [d|] eqn:Ed.
    + apply decval_bound in Ed. case_decide; [done|].
      destruct (Z.ltb_spec 255 (val * 10 + d)); [done|]. apply IH; (done || lia).
    + case_decide; [|done]. case_decide; [done|]. case_decide; [done|].
      apply IH; [lia|rewrite length_app; simpl; lia|].
      apply Forall_app. split; [done|]. constructor; [unfold is_byte; lia|constructor].
Qed.

Lemma hexGroup_bound s off acc o v rest :
  0 <= acc <= 65535 → hexGroup s off acc = Some (o, v, rest) → 0 <= v <= 65535.
Proof.
  revert off acc. induction s as [|c s IH]; intros off acc Hacc; cbn [hexGroup]; [by intros [= <- <- <-]|].
  destruct (hexval c) as [d|] eqn:Ed; [|by intros [= <- <- <-]].
  apply hexval_nonneg in Ed. destruct (3 <? off)%nat; [done|].
  destruct (Z.ltb_spec 65535 (acc * 16 + d)); [done|]. apply IH. lia.
Qed.

Lemma group_bytes v : 0 <= v <= 65535 → Forall is_byte [v / 256; v mod 256].
Proof.
  intros Hv. repeat constructor; unfold is_byte; try (apply Z.mod_pos_bound; lia).
  - apply Z.div_pos; lia.
  - apply Z.div_lt_upper_bound; lia.
Qed.

Lemma finish6_valid ip e r :
  Forall is_byte ip → (length ip <= 16)%nat → finish6 ip e = Some r → length r = 16%nat ∧ Forall is_byte r.
Proof.
  intros Hb Hl. unfold finish6. case_decide.
  - destruct e as [e|]; [|done]. intros [= <-].
    rewrite !length_app, length_take, length_drop, length_replicate, !Forall_app.
    split; [lia|]. split_and!; [by apply Forall_take| |by apply Forall_drop].
    apply Forall_replicate. unfold is_byte. lia.
  - destruct e; [done|]. intros [= <-]. split; [lia|done].
Qed.

Lemma v6loop_valid fuel s ip e r :
  Forall is_byte ip → (length ip <= 16)%nat → Nat.Even (length ip) → v6loop fuel s ip e = Some r →
  length r = 16%nat ∧ Forall is_byte r.
Proof.
  revert s ip e. induction fuel as [|fuel IH]; intros s ip e Hb Hl Hev; cbn [v6loop].
  { case_decide; [|done]. destruct s; [by apply finish6_valid|done]. }
  case_decide; [destruct s; [by apply finish6_valid|done]|].
  destruct (hexGroup s 0 0) as [[[o v] rest]|] eqn:Eg; [|done].
  apply hexGroup_bound in Eg; [|lia]. pose proof (group_bytes _ Eg) as Hg.
  assert (Forall is_byte (ip ++ [v / 256; v mod 256])) as Hb' by by apply Forall_app.
  set (ip' := ip ++ [v / 256; v mod 256]) in *.
  assert (length ip' = length ip + 2)%nat as Hlen by (unfold ip'; by rewrite length_app).
  assert (length ip' <= 16)%nat as Hl' by (destruct Hev as [k ?]; lia).
  assert (Nat.Even (length ip')) as Hev' by (destruct Hev as [k ?]; exists (S k); lia).
  case_decide; [done|]. destruct rest as [|c rest]; [by apply finish6_valid|].
  case_decide.
  { case_decide; [done|]. case_decide; [done|].
    destruct (parseIPv4Fields s) as [f|] eqn:Ef; [|done].
    apply v4loop_valid in Ef as [Hfl Hfb]; [|lia|simpl; lia|constructor].
    apply finish6_valid; [by apply Forall_app|rewrite length_app; lia]. }
  case_decide; [done|]. destruct rest as [|c2 rest2]; [done|].
  case_decide; [|by apply IH]. destruct e; [done|].
  destruct rest2; [by apply finish6_valid|by apply IH].
Qed.

Lemma ParseAddr_valid s b ip : ParseAddr s = Some (b, ip) → length ip = 16%nat ∧ Forall is_byte ip.
Proof.
  assert (Forall is_byte v4InV6Prefix) as Hpre by (repeat constructor; unfold is_byte; lia).
  unfold ParseAddr. destruct (addrFamily s) as [[]|]; [| |done].
  - destruct (parseIPv4Fields s) as [f|] eqn:Ef; [|done]. intros Hp.
    assert (ip = v4InV6Prefix ++ f) as -> by congruence.
    apply v4loop_valid in Ef as [Hfl Hfb]; [|lia|simpl; lia|constructor].
    rewrite length_app, Hfl. split; [done|by apply Forall_app].
  - unfold parseIPv6. destruct (containsChar _ _); [done|].
    assert (Forall is_byte (replicate 16 0)) as Hz by (apply Forall_replicate; unfold is_byte; lia).
    assert (∀ fuel s e r, v6loop fuel s [] e = Some r → length r = 16%nat ∧ Forall is_byte r) as Hv.
    { intros. eapply v6loop_valid; [constructor|simpl; lia|by exists O|done]. }
    intros Hp. destruct s as [|c1 [|c2 rest]]; [..|case_decide; [destruct rest|]]; 
      try (destruct (v6loop _ _ _ _) eqn:E; [|done]; simplify_eq; eauto); simplify_eq; eauto.
Qed.

Lemma ParseIP_valid s : nil_or_valid (ParseIP s).
Proof.
  unfold ParseIP, nil_or_valid. destruct (ParseAddr _) as [[b ip]|] eqn:E; [|by left].
  right. by apply ParseAddr_valid in E.
Qed.

Lemma valid_To16 ip : valid_ip ip → length (To16 ip) = 16%nat ∧ Forall is_byte (To16 ip).
Proof.
  intros [Hl Hb]. unfold To16. case_decide as H4.
  - rewrite length_app, Forall_app. change (length v4InV6Prefix) with 12%nat.
    split_and!; [lia| |done]. repeat constructor; unfold is_byte; lia.
  - rewrite decide_True by lia. split; [lia|done].
Qed.

Lemma To4_To16 ip : valid_ip ip → To4 (To16 ip) = To4 ip.
Proof.
  intros [Hl _]. unfold To4, To16. destruct (decide (length ip = 4%nat)) as [H4|H4].
  - rewrite decide_False by (rewrite length_app; change (length v4InV6Prefix) with 12%nat; lia).
    rewrite decide_True; [done|]. rewrite length_app. change (length v4InV6Prefix) with 12%nat. split; [lia|done].
  - by rewrite (decide_True (P := length ip = 16%nat)), decide_False by lia.
Qed.

Lemma To16_16 ip : length ip = 16%nat → To16 ip = ip.
Proof. intros H. unfold To16. rewrite decide_False by lia. by rewrite decide_True. Qed.

(** The text of an address depends on its sixteen-byte form only. *)
Lemma IPString_To16 ip : valid_ip ip → IPString (To16 ip) = IPString ip.
Proof.
  intros Hv. pose proof (valid_To16 _ Hv) as [Hl _]. pose proof (To4_To16 _ Hv) as H4.
  unfold IPString. rewrite Hl, H4. destruct Hv as [Hlen _]. simpl.
  rewrite (decide_False (P := length ip = O)) by lia.
  rewrite (decide_True (P := length ip = 4%nat ∨ length ip = 16%nat)) by done.
  destruct (decide (length (To4 ip) = 4%nat)) as [|Hn]; [done|].
  rewrite To16_16; [done|]. destruct Hlen as [Hlen|]; [|done]. destruct Hn. unfold To4. by rewrite decide_True.
Qed.

Lemma IPString_inj ip1 ip2 :
  valid_ip ip1 → valid_ip ip2 → IPString ip1 = IPString ip2 ↔ To16 ip1 = To16 ip2.
Proof.
  intros H1 H2. split; intros H.
  - rewrite <- !ParseIP_IPString by done. by rewrite H.
  - rewrite <- (IPString_To16 ip1), <- (IPString_To16 ip2) by done. by rewrite H.
Qed.
