(* ===== verification/GoFmt.v ===== *)
(** * Printing and scanning of text ([fmt], [strings], [strconv], [unicode/utf8])

    Decimal and hexadecimal verbs, words separated by blanks, the width of the
    UTF-8 encoding at the head of a byte string. *)

From S2P Require Import Prelude GoStd GoNet.
Open Scope Z_scope.

(** ** Numbers *)

(** Digits of a number that is not negative; a digit more than the binary
    logarithm is enough. *)
Fixpoint decDigits (fuel : nat) (n : Z) : list ascii :=
  match fuel with
  | O => []
  | S fuel' => if n <? 10 then [decdigit n] else decDigits fuel' (n / 10) ++ [decdigit (n mod 10)]
  end.
Definition decFuel (n : Z) : nat := S (Z.to_nat (Z.log2 n)).

(** [strconv.Itoa] and the verb [%d]. *)
Definition Itoa (n : Z) : string :=
  unchars (if n <? 0 then "-"%char :: decDigits (decFuel (- n)) (- n) else decDigits (decFuel n) n).
(** The verb [%#x] for an unsigned number. *)
Definition hexOf (n : Z) : string := "0x" +:+ unchars (FormatUint16 n).

(** A number in decimal digits. *)
Fixpoint decNumber (l : list ascii) (n : Z) : option Z :=
  match l with
  | [] => Some n
  | c :: l' => match decval c with Some d => decNumber l' (n * 10 + d) | None => None end
  end.

Lemma decdigit_ind (P : Z → Prop) :
  P 0 → P 1 → P 2 → P 3 → P 4 → P 5 → P 6 → P 7 → P 8 → P 9 → ∀ d, 0 <= d < 10 → P d.
Proof.
  intros. assert (d = 0 ∨ d = 1 ∨ d = 2 ∨ d = 3 ∨ d = 4 ∨ d = 5 ∨ d = 6 ∨ d = 7 ∨ d = 8 ∨ d = 9) as Hd by lia.
  repeat destruct Hd as [->|Hd]; try done. by subst.
Qed.

Lemma decval_digit d : 0 <= d < 10 → decval (decdigit d) = Some d.
Proof. revert d. apply decdigit_ind; reflexivity. Qed.

Lemma decNumber_app l1 l2 n : decNumber (l1 ++ l2) n = match decNumber l1 n with Some m => decNumber l2 m | None => None end.
Proof. revert n. induction l1 as [|c l1 IH]; intros n; simpl; [done|]. by destruct (decval c). Qed.

Lemma decNumber_digits fuel n : 0 <= n → n < 2 ^ Z.of_nat fuel → decNumber (decDigits fuel n) 0 = Some n.
Proof.
  revert n. induction fuel as [|fuel IH]; intros n Hn Hf; [simpl in *; f_equal; lia|].
  simpl decDigits. destruct (Z.ltb_spec n 10).
  - simpl. rewrite decval_digit by lia. f_equal.
  - pose proof (Z.mod_pos_bound n 10 ltac:(lia)). pose proof (Z.div_mod n 10 ltac:(lia)).
    rewrite decNumber_app, IH.
    + simpl. rewrite decval_digit by lia. f_equal. lia.
    + lia.
    + rewrite Nat2Z.inj_succ, Z.pow_succ_r in Hf by lia. lia.
Qed.

Lemma decFuel_enough n : 0 <= n → n < 2 ^ Z.of_nat (decFuel n).
Proof.
  intros Hn. unfold decFuel. rewrite Nat2Z.inj_succ, Z2Nat.id by apply Z.log2_nonneg.
  destruct (decide (n = 0)) as [->|]; [done|]. apply Z.log2_spec. lia.
Qed.

Lemma decNumber_Itoa n : 0 <= n → decNumber (chars (Itoa n)) 0 = Some n.
Proof.
  intros Hn. unfold Itoa. rewrite chars_unchars. destruct (Z.ltb_spec n 0); [lia|].
  apply decNumber_digits; [done|]. by apply decFuel_enough.
Qed.

(** What every digit satisfies, every character of a number satisfies. *)
Lemma decDigits_Forall (P : ascii → Prop) fuel n : (∀ d, 0 <= d < 10 → P (decdigit d)) → 0 <= n → Forall P (decDigits fuel n).
Proof.
  intros HP. revert n. induction fuel as [|fuel IH]; intros n Hn; simpl; [done|].
  destruct (Z.ltb_spec n 10); [by repeat constructor; apply HP|].
  apply Forall_app_2; [apply IH; apply Z.div_pos; lia|]. constructor; [|done]. apply HP, Z.mod_pos_bound. lia.
Qed.

(** ** Words *)

(** [strings.Join(l, " ")]. *)
Definition joinWords (l : list string) : string := unchars (joinChar " "%char (chars <$> l)).

(** The first word of a line and what follows the blank after it. *)
Fixpoint firstWord (l : list ascii) : list ascii * option (list ascii) :=
  match l with
  | [] => ([], None)
  | c :: l' => if decide (c = " "%char) then ([], Some l') else let '(w, r) := firstWord l' in (c :: w, r)
  end.

Lemma firstWord_app w l : " "%char ∉ w → firstWord (w ++ " "%char :: l) = (w, Some l).
Proof.
  induction w as [|c w IH]; simpl; [by intros|]. rewrite not_elem_of_cons. intros [Hc Hw].
  rewrite decide_False by congruence. by rewrite IH.
Qed.

Lemma firstWord_all w : " "%char ∉ w → firstWord w = (w, None).
Proof.
  induction w as [|c w IH]; simpl; [done|]. rewrite not_elem_of_cons. intros [Hc Hw].
  rewrite decide_False by congruence. by rewrite IH.
Qed.

Lemma joinChar_cons2 sep w w' l : joinChar sep (w :: w' :: l) = w ++ sep :: joinChar sep (w' :: l).
Proof. reflexivity. Qed.

Lemma joinWords_cons w l : l ≠ [] → joinWords (w :: l) = w +:+ " " +:+ joinWords l.
Proof.
  intros Hl. destruct l as [|w' l]; [done|]. unfold joinWords. rewrite !fmap_cons, joinChar_cons2. apply chars_inj.
  by rewrite chars_app, chars_app, !chars_unchars.
Qed.

(** ** UTF-8 *)

(** [utf8.DecodeRune]: the number of bytes of the encoding at the head; one for
    a byte that starts no encoding. *)
Definition between (lo hi : Z) (c : ascii) : bool := let n := Z.of_N (N_of_ascii c) in (lo <=? n) && (n <=? hi).
Definition cont : ascii → bool := between 0x80 0xBF.
Definition rest2 (l : list ascii) (lo hi : Z) : bool := match l with x :: y :: _ => between lo hi x && cont y | _ => false end.
Definition rest3 (l : list ascii) (lo hi : Z) : bool :=
  match l with x :: y :: z :: _ => between lo hi x && cont y && cont z | _ => false end.
Definition runeWidth (l : list ascii) : nat :=
  match l with
  | [] => 0%nat
  | a :: l' =>
      if between 0xC2 0xDF a then match l' with x :: _ => if cont x then 2%nat else 1%nat | _ => 1%nat end
      else if between 0xE0 0xE0 a then if rest2 l' 0xA0 0xBF then 3%nat else 1%nat
      else if between 0xED 0xED a then if rest2 l' 0x80 0x9F then 3%nat else 1%nat
      else if between 0xE1 0xEF a then if rest2 l' 0x80 0xBF then 3%nat else 1%nat
      else if between 0xF0 0xF0 a then if rest3 l' 0x90 0xBF then 4%nat else 1%nat
      else if between 0xF4 0xF4 a then if rest3 l' 0x80 0x8F then 4%nat else 1%nat
      else if between 0xF1 0xF3 a then if rest3 l' 0x80 0xBF then 4%nat else 1%nat
      else 1%nat
  end.

Lemma runeWidth_ascii a l : between 0x00 0x7F a = true → runeWidth (a :: l) = 1%nat.
Proof.
  unfold between. intros Ha. unfold runeWidth, between.
  repeat match goal with |- context [if ?b then _ else _] => replace b with false by lia end. done.
Qed.

(** ** Prefixes, suffixes and parts ([strings]) *)

Definition HasPrefix (s p : string) : bool := bool_decide (take (length (chars p)) (chars s) = chars p).
Definition HasSuffix (s p : string) : bool :=
  bool_decide (drop (length (chars s) - length (chars p)) (chars s) = chars p).
Definition TrimSuffix (s p : string) : string :=
  if HasSuffix s p then unchars (take (length (chars s) - length (chars p)) (chars s)) else s.
Fixpoint containsChars (p l : list ascii) : bool :=
  bool_decide (take (length p) l = p) || match l with [] => false | _ :: l' => containsChars p l' end.
Definition Contains (s p : string) : bool := containsChars (chars p) (chars s).

(** [strconv.Atoi]: an optional sign and decimal digits, within an [int]. *)
Definition Atoi (s : string) : outcome Z :=
  let '(neg, l) := match chars s with "-"%char :: l => (true, l) | "+"%char :: l => (false, l) | l => (false, l) end in
  match l with
  | [] => Err ErrSyntax
  | _ =>
      match decNumber l 0 with
      | None => Err ErrSyntax
      | Some n =>
          let v := if neg : bool then - n else n in
          if decide (- 2 ^ 63 <= v < 2 ^ 63) then Ret v else Err ErrRange
      end
  end.

Lemma HasPrefix_app p s : HasPrefix (p +:+ s) p = true.
Proof. unfold HasPrefix. rewrite chars_app, take_app_length. by apply bool_decide_eq_true. Qed.

Lemma HasSuffix_inv s p : HasSuffix s p = true → s = TrimSuffix s p +:+ p.
Proof.
  intros H. unfold TrimSuffix. rewrite H. apply bool_decide_eq_true in H. apply chars_inj.
  rewrite chars_app, chars_unchars. rewrite <- (take_drop (length (chars s) - length (chars p)) (chars s)) at 1. by rewrite H.
Qed.

Lemma containsChars_first p l a : containsChars (a :: p) l = true → a ∈ l.
Proof.
  induction l as [|b l IH]; simpl; [done|]. intros [H%bool_decide_eq_true|H]%orb_true_iff.
  - injection H as -> _. apply list_elem_of_here.
  - apply list_elem_of_further. auto.
Qed.

(** ** [strconv.ParseUint] with base 0 *)

Definition letterVal (c : ascii) : option Z :=
  match decval c with
  | Some d => Some d
  | None =>
      let n := Z.of_nat (nat_of_ascii c) in
      if decide (97 <= n <= 122)%Z then Some (n - 87)%Z else if decide (65 <= n <= 90)%Z then Some (n - 55)%Z else None
  end.
Definition lowerIs (c : ascii) (l : ascii) : bool := bool_decide (c = l ∨ (nat_of_ascii c + 32 = nat_of_ascii l)%nat).

(** The digits after the prefix, underscores left out: [None] for a syntax error; a
    value above the bound stays at the bound. *)
Fixpoint digits0 (base bound : Z) (l : list ascii) (n : Z) : option Z :=
  match l with
  | [] => Some n
  | "_"%char :: l' => digits0 base bound l' n
  | c :: l' =>
      match letterVal c with
      | Some d =>
          if decide (base <= d)%Z then None
          else if decide (bound < n * base + d)%Z then Some bound else digits0 base bound l' (n * base + d)%Z
      | None => None
      end
  end.
(** [underscoreOK]: underscores stand between digits, or between the prefix and a digit. *)
Fixpoint underscores (hex : bool) (saw : ascii) (l : list ascii) : bool :=
  match l with
  | [] => negb (bool_decide (saw = "_"%char))
  | c :: l' =>
      let digit := match letterVal c with Some d => bool_decide (d < 10)%Z || (hex && bool_decide (d < 16)%Z) | None => false end in
      if digit then underscores hex "0"%char l'
      else if decide (c = "_"%char) then bool_decide (saw = "0"%char) && underscores hex "_"%char l'
      else if decide (saw = "_"%char) then false else underscores hex "!"%char l'
  end.

(** The value of [strconv.ParseUint(s, 0, 32)], which is 0 for a syntax error and the
    largest number when the text is out of range. *)
Definition ParseUint0_32 (s : list ascii) : Z :=
  let '(base, digits, hex, start) :=
    match s with
    | "0"%char :: x :: _ :: _ =>
        if lowerIs x "b"%char then (2, drop 2 s, false, "0"%char)%Z
        else if lowerIs x "o"%char then (8, drop 2 s, false, "0"%char)%Z
        else if lowerIs x "x"%char then (16, drop 2 s, true, "0"%char)%Z
        else (8, drop 1 s, false, "^"%char)%Z
    | "0"%char :: s' => (8, s', false, "^"%char)%Z
    | _ => (10, s, false, "^"%char)%Z
    end in
  if decide (s = []) then 0%Z
  else match digits0 base (2 ^ 32 - 1) digits 0 with
       | None => 0%Z
       | Some n =>
           if bool_decide ("_"%char ∈ digits) then
             if underscores hex start (if bool_decide (start = "0"%char) then digits else s) then n else 0%Z
           else n
       end.
Example ParseUint0_hex : ParseUint0_32 (chars "0x1003") = 4099%Z ∧ ParseUint0_32 (chars "0x1_c1") = 449%Z ∧ ParseUint0_32 (chars "08") = 0%Z ∧
  ParseUint0_32 (chars "0") = 0%Z ∧ ParseUint0_32 (chars "017") = 15%Z ∧ ParseUint0_32 (chars "1__0") = 0%Z ∧ ParseUint0_32 (chars "99999999999") = 4294967295%Z.
Proof. vm_compute. done. Qed.
