(* ===== verification/IPUtil.v ===== *)
(** * IP utilities ([pkg/utils/ip/ip.go])

    Ranges and pools of addresses are lists of strings ("172.18.40.1",
    "172.18.40.1-172.18.40.9", "172.18.40.0/24"); the functions below expand,
    merge, compare and search them.  Go maps keyed by printed addresses are
    [gmap string]; the order in which they are ranged over is the parameter
    [map_order] of the prelude. *)

From S2P Require Import Prelude GoStd GoNet.
Open Scope Z_scope.

Abbreviation IPVersion := Z (only parsing).
Definition IPv4 : IPVersion := 4.
Definition IPv6 : IPVersion := 6.

Definition ErrInvalidIPVersion : error := ErrNew "invalid IP version".
Definition ErrInvalidIPRangeFormat : error := ErrNew "invalid IP range format".
Definition ErrInvalidIP : error := ErrNew "invalid IP".
Definition InvalidIPFormat : error := ErrNew "invalid ip format".
Definition ErrParseCIDR : error := ErrNew "invalid CIDR address".

(** ** Addresses as integers *)

(** [big.Int.SetBytes]: bytes, most significant first. *)
Definition setBytes (l : list Z) : Z := foldl (λ acc b, acc * 256 + b) 0 l.

(** [big.Int.Bytes]: no leading zero byte; an address has at most 17 bytes
    after an increment. *)
Fixpoint bigBytes (fuel : nat) (n : Z) : list Z :=
  match fuel with
  | O => []
  | S fuel' => if n <=? 0 then [] else bigBytes fuel' (n / 256) ++ [n mod 256]
  end.

Definition ipToInt (ip : IP) : Z :=
  if decide (To4 ip ≠ []) then setBytes (To4 ip) else setBytes (To16 ip).

Definition intToIP (i : Z) : IP := To16 (bigBytes 17 i).

Definition NextIP (ip : IP) : IP := intToIP (ipToInt ip + 1).

Definition Cmp (ip1 ip2 : IP) : Z :=
  match ipToInt ip1 ?= ipToInt ip2 with Lt => -1 | Eq => 0 | Gt => 1 end.

Definition IsIPVersion (version : IPVersion) : outcome unit :=
  if bool_decide (version ≠ IPv4) && bool_decide (version ≠ IPv6)
  then Err ErrInvalidIPVersion else Ret tt.

(** ** Single addresses and CIDRs *)

Definition IsIPv4 (ip : string) : outcome bool :=
  let netIP := ParseIP ip in
  if decide (netIP = []) then Err InvalidIPFormat
  else if decide (To4 netIP = []) then Ret false else Ret true.

Definition IsIPv6 (ip : string) : outcome bool :=
  let netIP := ParseIP ip in
  if decide (netIP = []) then Err InvalidIPFormat
  else if decide (To4 netIP = []) then Ret true else Ret false.

(** The boolean of a call whose error the code drops. *)
Definition orFalse (c : outcome bool) : bool := match c with Ret b => b | _ => false end.

Definition GetIPV4V6 (ips : list string) : outcome (list string * list string) :=
  oforeach (λ ip acc,
    if decide (ParseIP ip = []) then Err ErrInvalidIP
    else
      let v4s := if orFalse (IsIPv4 ip) then acc.1 ++ [ip] else acc.1 in
      let v6s := if orFalse (IsIPv6 ip) then acc.2 ++ [ip] else acc.2 in
      Ret (v4s, v6s)) ips ([], []).

Definition IsIPv4Cidr (cidr : string) : outcome bool :=
  match ParseCIDR cidr with
  | None => Err ErrParseCIDR
  | Some (_, ipnet) =>
      Ret (bool_decide (To4 (net_IP ipnet) ≠ []) && bool_decide (length (net_Mask ipnet) = 4%nat))
  end.

Definition IsIPv6Cidr (cidr : string) : outcome bool :=
  match ParseCIDR cidr with
  | None => Err ErrParseCIDR
  | Some (_, ipnet) =>
      Ret (bool_decide (To16 (net_IP ipnet) ≠ []) && bool_decide (length (net_Mask ipnet) = 16%nat))
  end.

Definition GetIPV4V6Cidr (ipCidrs : list string) : outcome (list string * list string) :=
  oforeach (λ ipCidr acc,
    if containsChar "."%char (chars ipCidr) then
      let! isIPv4Cidr := IsIPv4Cidr ipCidr in
      Ret (if isIPv4Cidr : bool then (acc.1 ++ [ipCidr], acc.2) else acc)
    else
      let! isIPv6Cidr := IsIPv6Cidr ipCidr in
      Ret (if isIPv6Cidr : bool then (acc.1, acc.2 ++ [ipCidr]) else acc)) ipCidrs ([], []).

(** [sort.Strings]. *)
Definition sortStrings : list string → list string := merge_sort String.le.

Definition SortIPs (ips : list string) : outcome (list string) :=
  let! sortedIPs := oforeach (λ ip acc,
    if decide (ParseIP ip = []) then Err InvalidIPFormat
    else Ret (acc ++ [IPString (ParseIP ip)])) ips [] in
  Ret (sortStrings sortedIPs).

(** Number of leading ones of a mask ([IPNet.String] prints it). *)
Definition maskOnes (m : list Z) : Z := foldl (λ acc b, acc + (8 - Z.log2 (256 - b))) 0 m.

Definition IPNetString (n : IPNet) : string :=
  let nn := if decide (To4 (net_IP n) = []) then net_IP n else To4 (net_IP n) in
  IPString nn +:+ unchars ("/"%char :: fmtByte (maskOnes (net_Mask n))).

Definition SortIPCidrs (ips : list string) : outcome (list string) :=
  let! ipcidrs := oforeach (λ ip acc,
    match ParseCIDR ip with
    | None => Err ErrParseCIDR
    | Some (_, netIP) => Ret (acc ++ [IPNetString netIP])
    end) ips [] in
  Ret (sortStrings ipcidrs).

(** The index loop that compares two sorted lists; the code indexes the
    second one without a bound check of its own. *)
Fixpoint sameElements (a b : list string) : outcome bool :=
  match a, b with
  | [], _ => Ret true
  | _ :: _, [] => Panic "index out of range"
  | x :: a', y :: b' => if decide (x ≠ y) then Ret false else sameElements a' b'
  end.

Definition IsSameIPs (a b : list string) : outcome bool :=
  if decide (length a ≠ length b) then Ret false
  else
    let! sortedA := SortIPs a in
    let! sortedB := SortIPs b in
    if decide (length sortedA ≠ length sortedB) then Ret false
    else sameElements sortedA sortedB.

Definition IsSameIPCidrs (a b : list string) : outcome bool :=
  if decide (length a ≠ length b) then Ret false
  else
    let! sortedA := SortIPCidrs a in
    let! sortedB := SortIPCidrs b in
    sameElements sortedA sortedB.

(** ** Ranges *)

(** [govalidator.IsIPv4] and [IsIPv6]. *)
Definition validatorIPv4 (s : string) : bool :=
  bool_decide (ParseIP s ≠ []) && containsChar "."%char (chars s).
Definition validatorIPv6 (s : string) : bool :=
  bool_decide (ParseIP s ≠ []) && containsChar ":"%char (chars s).

Definition IsIPv4IPRange (ipRange : string) : bool :=
  match Split ipRange "-"%char with
  | [a] => validatorIPv4 a
  | [a; b] =>
      if negb (validatorIPv4 a) || negb (validatorIPv4 b) then false
      else if decide (Cmp (ParseIP a) (ParseIP b) = 1) then false else true
  | _ => false
  end.

Definition IsIPv6IPRange (ipRange : string) : bool :=
  match Split ipRange "-"%char with
  | [a] => validatorIPv6 a
  | [a; b] =>
      if negb (validatorIPv6 a) || negb (validatorIPv6 b) then false
      else if decide (Cmp (ParseIP a) (ParseIP b) = 1) then false else true
  | _ => false
  end.

Definition IsIPRange (version : IPVersion) (ipRange : string) : outcome unit :=
  let! _ := IsIPVersion version in
  if (bool_decide (version = IPv4) && negb (IsIPv4IPRange ipRange)) ||
     (bool_decide (version = IPv6) && negb (IsIPv6IPRange ipRange))
  then Err ErrInvalidIPRangeFormat else Ret tt.

(** The loop [for Cmp(cur, end) <= 0] of [ParseIPRange]. *)
Fixpoint rangeLoop (fuel : nat) (cur end_ : IP) (ips : list IP) : outcome (list IP) :=
  if decide (Cmp cur end_ <= 0) then
    match fuel with
    | O => Timeout
    | S fuel' => rangeLoop fuel' (NextIP cur) end_ (ips ++ [cur])
    end
  else Ret ips.

(** One turn per address between the ends is enough when the loop ends at
    all (see [rangeLoop_diverges]). *)
Definition rangeFuel (cur end_ : IP) : nat := Z.to_nat (ipToInt end_ - ipToInt cur + 1).

Definition ParseIPRange (version : IPVersion) (ipRange : string) : outcome (list IP) :=
  let! _ := IsIPRange version ipRange in
  match Split ipRange "-"%char with
  | [a] => Ret [ParseIP a]
  | [a; b] => let cur := ParseIP a in let end_ := ParseIP b in
              rangeLoop (rangeFuel cur end_) cur end_ []
  | _ => Ret []
  end.

Definition ParseIPRanges (version : IPVersion) (ipRanges : list string) : outcome (list IP) :=
  oforeach (λ r sum, let! ips := ParseIPRange version r in Ret (sum ++ ips)) ipRanges [].

(** ** CIDR blocks *)

(** [incrementIP] works in place from the last byte; the model takes and
    returns the bytes, last one first. *)
Fixpoint incrementRev (l : list Z) : list Z :=
  match l with
  | [] => []
  | b :: l' =>
      let b' := (b + 1) mod 256 in
      if 0 <? b' then b' :: l' else b' :: incrementRev l'
  end.
Definition incrementIP (ip : IP) : IP := reverse (incrementRev (reverse ip)).

Definition isIPv4 (ip : IP) : bool := bool_decide (length (To4 ip) = 4%nat).

(** The loop [for ip := ...; ipnet.Contains(ip); incrementIP(ip)]. *)
Fixpoint cidrLoop (fuel : nat) (ipnet : IPNet) (ip : IP) (ips : list IP) : outcome (list IP) :=
  if NetContains ipnet ip then
    match fuel with
    | O => Timeout
    | S fuel' => cidrLoop fuel' ipnet (incrementIP ip) (ips ++ [ip])
    end
  else Ret ips.

(** Number of addresses of a block. *)
Definition netSize (mask : list Z) : Z := foldl (λ acc b, acc * (256 - b)) 1 mask.

Definition CidrToIPs (cidr : string) : outcome (list IP) :=
  match ParseCIDR cidr with
  | None => Err ErrParseCIDR
  | Some (ip, ipnet) =>
      let! ips := cidrLoop (Z.to_nat (netSize (net_Mask ipnet))) ipnet (IPMask ip (net_Mask ipnet)) [] in
      if bool_decide (2 < length ips)%nat && isIPv4 ip
      then Ret (take (length ips - 2) (drop 1 ips)) else Ret ips
  end.

Section pools.
Context `{MapOrder}.

(** [for _, v := range m]. *)
Definition rangeValues {V} (m : gmap string V) : list V :=
  omap (λ k, m !! k) (map_order (map_to_list m).*1).

(** Filling [ipMap[v.String()] = v]. *)
Definition putIPs (ips : list IP) (m : gmap string IP) : gmap string IP :=
  foldl (λ m v, <[IPString v := v]> m) m ips.

Definition CidrsToIPs (cidrs : list string) : outcome (list IP) :=
  let! ipMap := oforeach (λ cidr m, let! ips := CidrToIPs cidr in Ret (putIPs ips m)) cidrs ∅ in
  Ret (rangeValues ipMap).

Definition ConvertCidrOrIPrangeToIPs (in_ : list string) (version : IPVersion) : outcome (list IP) :=
  let ipranges := filter (λ v, ParseCIDR v = None) in_ in
  let cidrs := filter (λ v, ParseCIDR v ≠ None) in_ in
  let! rangeIPs := ParseIPRanges version ipranges in
  let! cidrIPs := CidrsToIPs cidrs in
  Ret (rangeValues (putIPs cidrIPs (putIPs rangeIPs ∅))).

(** ** Sets of addresses *)

(** [bytes.Compare(a, b) <= 0]. *)
Fixpoint bytesLe (a b : list Z) : bool :=
  match a, b with
  | [], _ => true
  | _ :: _, [] => false
  | x :: a', y :: b' => if x <? y then true else if y <? x then false else bytesLe a' b'
  end.
Definition ipLe (a b : IP) : Prop := bytesLe (To16 a) (To16 b) = true.
#[export] Instance ipLe_dec : RelDecision ipLe.
Proof. intros a b. unfold ipLe. apply _. Defined.

Definition IPsDiffSet (ips1 ips2 : list IP) (sorted : bool) : list IP :=
  let marks : gmap string bool :=
    foldl (λ m ip, if decide (ip ≠ []) then <[IPString ip := true]> m else m) ∅ ips1 in
  let marks' :=
    foldl (λ m ip, if decide (ip ≠ []) then delete (IPString ip) m else m) marks ips2 in
  let ips := ParseIP <$> map_order (map_to_list marks').*1 in
  if sorted then merge_sort ipLe ips else ips.

(** The [start]/[end] loop of [ConvertIPsToIPRanges] over the sorted
    addresses: the run being built is given by its first and last address, and
    [single] tells whether the two indices are equal. *)
Fixpoint mergeRuns (start end_ : IP) (single : bool) (rest : list IP) : list string :=
  let show := if single then IPString start else IPString start +:+ "-" +:+ IPString end_ in
  match rest with
  | [] => [show]
  | x :: rest' =>
      if IPEqual x (NextIP end_) then mergeRuns start x false rest'
      else show :: mergeRuns x x true rest'
  end.

Definition ConvertIPsToIPRanges (version : IPVersion) (ips : list IP) : outcome (list string) :=
  let! _ := IsIPVersion version in
  let! set := oforeach (λ ip (m : gmap string unit),
    if (bool_decide (version = IPv4) && bool_decide (To4 ip = [])) ||
       (bool_decide (version = IPv6) && bool_decide (To4 ip ≠ []))
    then Err ErrInvalidIP else Ret (<[IPString ip := tt]> m)) ips ∅ in
  let ips := merge_sort ipLe (ParseIP <$> map_order (map_to_list set).*1) in
  match ips with
  | [] => Ret []
  | x :: rest => Ret (mergeRuns x x true rest)
  end.

Definition MergeIPRanges (version : IPVersion) (ipRanges : list string) : outcome (list string) :=
  let! ips := ConvertCidrOrIPrangeToIPs ipRanges version in
  ConvertIPsToIPRanges version ips.

Definition IsIPRangeOverlap (version : IPVersion) (ipRange1 ipRange2 : string) : outcome bool :=
  let! _ := IsIPVersion version in
  let! _ := IsIPRange version ipRange1 in
  let! _ := IsIPRange version ipRange2 in
  let! ips1 := ParseIPRange version ipRange1 in
  let! ips2 := ParseIPRange version ipRange2 in
  if decide (length (IPsDiffSet ips1 ips2 false) < length ips1)%nat then Ret true else Ret false.

Fixpoint includedLoop (version : IPVersion) (ip : string) (items : list string) : outcome bool :=
  match items with
  | [] => Ret false
  | item :: items' =>
      let! result := IsIPRangeOverlap version ip item in
      if result : bool then Ret true else includedLoop version ip items'
  end.

Definition IsIPIncludedRange (version : IPVersion) (ip : string) (ipRange : list string) : outcome bool :=
  let! ips := MergeIPRanges version ipRange in
  includedLoop version ip ips.

Definition IsIPIncludedCidr (ip cidr : string) : outcome bool :=
  if decide (ParseIP ip = []) then Err ErrInvalidIP
  else match ParseCIDR cidr with
       | None => Err ErrParseCIDR
       | Some (_, IPnet) => Ret (NetContains IPnet (ParseIP ip))
       end.

(** The items of a pool sorted into CIDRs, IPv4 ranges and IPv6 ranges. *)
Definition classifyItem (item : string) (acc : list string * list string * list string)
    : outcome (list string * list string * list string) :=
  let '(cidrs, ipV4Ranges, ipV6Ranges) := acc in
  match ParseCIDR item with
  | None =>
      if IsIPv4IPRange item then Ret (cidrs, ipV4Ranges ++ [item], ipV6Ranges)
      else if IsIPv6IPRange item then Ret (cidrs, ipV4Ranges, ipV6Ranges ++ [item])
      else Err ErrInvalidIPRangeFormat
  | Some _ => Ret (cidrs ++ [item], ipV4Ranges, ipV6Ranges)
  end.

Fixpoint includedCidrLoop (ip : string) (cidrs : list string) : outcome bool :=
  match cidrs with
  | [] => Ret false
  | item :: cidrs' =>
      let! include := IsIPIncludedCidr ip item in
      if include : bool then Ret true else includedCidrLoop ip cidrs'
  end.

Definition CheckIPIncluded (ip : string) (ips : list string) : outcome bool :=
  if decide (ParseIP ip = []) then Err ErrInvalidIP
  else
    let version := if orFalse (IsIPv4 ip) then IPv4 else IPv6 in
    let! (cidrs, ipV4Ranges, ipV6Ranges) := oforeach classifyItem ips ([], [], []) in
    let! include := includedCidrLoop ip cidrs in
    if include : bool then Ret true
    else
      let ipRanges := if decide (version = IPv4) then ipV4Ranges else ipV6Ranges in
      let! include := IsIPIncludedRange version ip ipRanges in
      if include : bool then Ret true else Ret false.
End pools.

Example MergeIPRanges_ex :
  MergeIPRanges (H := map_order_id) IPv4 ["172.18.40.2-172.18.40.5"; "172.18.40.1-172.18.40.3"; "172.18.41.0/30"; "172.18.40.9"]
  = Ret ["172.18.40.1-172.18.40.5"; "172.18.40.9"; "172.18.41.1-172.18.41.2"].
Proof. vm_compute. reflexivity. Qed.
Example CheckIPIncluded_ex :
  CheckIPIncluded (H := map_order_id) "fd00::5" ["10.6.0.0/24"; "fd00::1-fd00::9"] = Ret true ∧
  CheckIPIncluded (H := map_order_id) "10.6.1.1" ["10.6.0.0/24"; "fd00::1-fd00::9"] = Ret false.
Proof. vm_compute. done. Qed.

(** ** Bytes and integers *)

Lemma setBytes_snoc l b : setBytes (l ++ [b]) = setBytes l * 256 + b.
Proof. unfold setBytes. by rewrite foldl_app. Qed.

Lemma setBytes_bound l : Forall is_byte l → 0 <= setBytes l < 256 ^ Z.of_nat (length l).
Proof.
  induction l as [|b l IH] using rev_ind; intros Hl; [done|].
  apply Forall_app in Hl as [Hl Hb]. apply Forall_cons in Hb as [Hb _]. unfold is_byte in Hb.
  rewrite setBytes_snoc, length_app, Nat2Z.inj_add, Z.pow_add_r by lia.
  change (256 ^ Z.of_nat (length [b])) with 256. specialize (IH Hl). lia.
Qed.

Lemma setBytes_app l1 l2 : setBytes (l1 ++ l2) = setBytes l1 * 256 ^ Z.of_nat (length l2) + setBytes l2.
Proof.
  induction l2 as [|b l2 IH] using rev_ind; [rewrite app_nil_r; simpl; unfold setBytes at 3; simpl; lia|].
  rewrite app_assoc, !setBytes_snoc, IH, length_app, Nat2Z.inj_add, Z.pow_add_r by lia.
  change (256 ^ Z.of_nat (length [b])) with 256. ring.
Qed.

(** The [k]-byte representation of an integer. *)
Fixpoint toBytes (k : nat) (n : Z) : list Z :=
  match k with
  | O => []
  | S k' => toBytes k' (n / 256) ++ [n mod 256]
  end.

Lemma length_toBytes k n : length (toBytes k n) = k.
Proof. revert n. induction k as [|k IH]; intros n; [done|]. simpl. rewrite length_app, IH. simpl. lia. Qed.

Lemma toBytes_bytes k n : Forall is_byte (toBytes k n).
Proof.
  revert n. induction k as [|k IH]; intros n; [constructor|]. simpl. apply Forall_app. split; [apply IH|].
  constructor; [|constructor]. apply Z.mod_pos_bound. lia.
Qed.

Lemma setBytes_toBytes k n : 0 <= n < 256 ^ Z.of_nat k → setBytes (toBytes k n) = n.
Proof.
  revert n. induction k as [|k IH]; intros n Hn; [simpl in *; unfold setBytes; simpl; lia|].
  cbn [toBytes]. rewrite setBytes_snoc, IH.
  - pose proof (Z.div_mod n 256 ltac:(lia)). lia.
  - rewrite Nat2Z.inj_succ, Z.pow_succ_r in Hn by lia.
    split; [apply Z.div_pos; lia|apply Z.div_lt_upper_bound; lia].
Qed.

Lemma toBytes_setBytes l : Forall is_byte l → toBytes (length l) (setBytes l) = l.
Proof.
  induction l as [|b l IH] using rev_ind; intros Hl; [done|].
  apply Forall_app in Hl as [Hl Hb]. apply Forall_cons in Hb as [Hb _]. unfold is_byte in Hb.
  rewrite length_app, Nat.add_comm. cbn [length Nat.add toBytes]. rewrite setBytes_snoc.
  rewrite Z.div_add_l by lia. rewrite Z.div_small, Z.add_0_r by lia.
  rewrite Z.add_comm, Z.mod_add by lia. rewrite Z.mod_small by lia. by rewrite IH.
Qed.

(** [big.Int.Bytes] of a number that needs exactly [k] bytes. *)
Lemma bigBytes_toBytes fuel k n :
  (k <= fuel)%nat → 256 ^ (Z.of_nat k - 1) <= n < 256 ^ Z.of_nat k → 0 < n → bigBytes fuel n = toBytes k n.
Proof.
  revert k n. induction fuel as [|fuel IH]; intros k n Hk Hn Hpos.
  - destruct k; [simpl in Hn; lia|lia].
  - destruct k as [|k]; [simpl in Hn; lia|]. cbn [bigBytes toBytes].
    destruct (Z.leb_spec n 0); [lia|]. f_equal.
    replace (Z.of_nat (S k) - 1) with (Z.of_nat k) in Hn by lia.
    rewrite Nat2Z.inj_succ, Z.pow_succ_r in Hn by lia.
    destruct (decide (n / 256 = 0)) as [Hz|Hz].
    + rewrite Hz. assert (n < 256) by (apply Z.div_small_iff in Hz; lia).
      destruct k as [|k]; [by destruct fuel|].
      rewrite Nat2Z.inj_succ, Z.pow_succ_r in Hn by lia.
      pose proof (Z.pow_pos_nonneg 256 (Z.of_nat k)). lia.
    + assert (0 < n / 256) by (pose proof (Z.div_pos n 256); lia). apply IH; [lia| |done].
      split; [|apply Z.div_lt_upper_bound; lia].
      destruct k as [|k]; [simpl; lia|].
      rewrite Nat2Z.inj_succ in Hn |- *. replace (Z.succ (Z.of_nat k) - 1) with (Z.of_nat k) by lia.
      rewrite (Z.pow_succ_r 256 (Z.of_nat k)) in Hn by lia. apply Z.div_le_lower_bound; lia.
Qed.

(** ** Address families *)

(** An address family: addresses numbered by integers such that counting up
    from any address between [lo] and [hi] stays in the family. *)
Class AddrFamily (version : Z) (addr : Z → IP) (lo hi : Z) := {
  addr_version : version = IPv4 ∨ version = IPv6;
  addr_valid x : lo <= x <= hi → length (addr x) = 16%nat ∧ Forall is_byte (addr x);
  addr_int x : lo <= x <= hi → ipToInt (addr x) = x;
  addr_next x : lo <= x < hi → NextIP (addr x) = addr (x + 1);
  addr_le x y : lo <= x <= hi → lo <= y <= hi → (ipLe (addr x) (addr y) ↔ x <= y);
  addr_plain x : lo <= x <= hi →
    ("-"%char ∉ chars (IPString (addr x))) ∧ ("/"%char ∉ chars (IPString (addr x)));
  addr_four x : lo <= x <= hi → (To4 (addr x) ≠ [] ↔ version = IPv4);
  addr_sep x : lo <= x <= hi →
    containsChar (if decide (version = IPv4) then "." else ":")%char (chars (IPString (addr x))) = true
}.

Lemma bytesLe_setBytes a b :
  length a = length b → Forall is_byte a → Forall is_byte b → (bytesLe a b = true ↔ setBytes a <= setBytes b).
Proof.
  revert b. induction a as [|x a IH]; intros [|y b] Hl Ha Hb; try discriminate Hl; [done|].
  apply Forall_cons in Ha as [Hx Ha], Hb as [Hy Hb]. injection Hl as Hl.
  change (x :: a) with ([x] ++ a). change (y :: b) with ([y] ++ b). rewrite !setBytes_app, Hl.
  pose proof (setBytes_bound _ Ha). pose proof (setBytes_bound _ Hb). rewrite Hl in *.
  set (p := 256 ^ Z.of_nat (length b)) in *. unfold setBytes at 1 3. cbn [foldl app bytesLe].
  unfold is_byte in *. destruct (Z.ltb_spec x y); [split; [nia|done]|].
  destruct (Z.ltb_spec y x); [split; [done|nia]|].
  rewrite (IH b) by done. nia.
Qed.

Definition addr4 (x : Z) : IP := v4InV6Prefix ++ toBytes 4 x.
Definition addr6 (x : Z) : IP := toBytes 16 x.

Lemma To4_addr4 x : To4 (addr4 x) = toBytes 4 x.
Proof.
  unfold To4, addr4. pose proof (length_toBytes 4 x) as Hl.
  rewrite decide_False by (rewrite length_app; change (length v4InV6Prefix) with 12%nat; lia).
  rewrite decide_True; [done|]. rewrite length_app. change (length v4InV6Prefix) with 12%nat. split; [lia|done].
Qed.

Lemma toBytes_nonnil k n : toBytes (S k) n ≠ [].
Proof. intros H. apply (f_equal length) in H. rewrite length_toBytes in H. done. Qed.

Lemma addr4_bytes x : length (addr4 x) = 16%nat ∧ Forall is_byte (addr4 x).
Proof.
  unfold addr4. rewrite length_app, length_toBytes, Forall_app. split_and!; [done| |apply toBytes_bytes].
  repeat constructor; unfold is_byte; lia.
Qed.

Lemma ipToInt_addr4 x : 0 <= x < 2 ^ 32 → ipToInt (addr4 x) = x.
Proof.
  intros Hx. unfold ipToInt. rewrite To4_addr4. rewrite decide_True by apply toBytes_nonnil.
  by apply setBytes_toBytes.
Qed.

Lemma intToIP_4 n : 2 ^ 24 <= n < 2 ^ 32 → intToIP n = addr4 n.
Proof.
  intros Hn. unfold intToIP. rewrite (bigBytes_toBytes 17 4) by lia.
  unfold To16. by rewrite decide_True by apply length_toBytes.
Qed.

Lemma addr4_text x : chars (IPString (addr4 x)) = fmt4 (toBytes 4 x).
Proof.
  destruct (addr4_bytes x) as [Hl _]. unfold IPString. rewrite Hl, To4_addr4, length_toBytes.
  rewrite decide_False by lia. rewrite decide_True by lia. rewrite decide_True by lia. apply chars_unchars.
Qed.

Lemma fmtByte_plain b c : c = "-"%char ∨ c = "/"%char → is_byte b → c ∉ fmtByte b.
Proof. intros [-> | ->]; revert b; byte_cases; apply (bool_decide_eq_true_1 _); vm_compute; reflexivity. Qed.

Lemma fmt4_chars l ch : length l = 4%nat → Forall is_byte l → ch = "-"%char ∨ ch = "/"%char →
  (ch ∉ fmt4 l) ∧ "."%char ∈ fmt4 l.
Proof.
  intros Hl Hb Hc0. assert (ch ≠ "."%char) by (by destruct Hc0 as [-> | ->]). destruct l as [|a [|b [|c [|d [|]]]]]; try discriminate Hl.
  rewrite !Forall_cons in Hb. destruct Hb as (Ha & Hb & Hc & Hd & _).
  unfold fmt4. cbn [fmap list_fmap joinChar].
  pose proof (fmtByte_plain _ ch Hc0 Ha). pose proof (fmtByte_plain _ ch Hc0 Hb).
  pose proof (fmtByte_plain _ ch Hc0 Hc). pose proof (fmtByte_plain _ ch Hc0 Hd). split.
  - rewrite !not_elem_of_app, !not_elem_of_cons, !not_elem_of_app, !not_elem_of_cons,
      !not_elem_of_app, !not_elem_of_cons. done.
  - apply elem_of_app. right. apply elem_of_cons. by left.
Qed.

(** IPv4, from 0.255.255.255 up. *)
#[export] Instance family4 : AddrFamily IPv4 addr4 (2 ^ 24 - 1) (2 ^ 32 - 1).
Proof.
  split.
  - by left.
  - intros x _. apply addr4_bytes.
  - intros x Hx. apply ipToInt_addr4. lia.
  - intros x Hx. unfold NextIP. rewrite ipToInt_addr4 by lia. apply intToIP_4. lia.
  - intros x y Hx Hy. unfold ipLe. destruct (addr4_bytes x) as [Hl Hb], (addr4_bytes y) as [Hl' Hb'].
    rewrite !To16_16 by done. rewrite bytesLe_setBytes by (done || congruence).
    unfold addr4. rewrite !setBytes_app, !length_toBytes, !setBytes_toBytes by lia. lia.
  - intros x _. rewrite addr4_text. pose proof (length_toBytes 4 x). pose proof (toBytes_bytes 4 x).
    split; eapply fmt4_chars; eauto.
  - intros x _. rewrite To4_addr4. split; [done|]. intros _. apply toBytes_nonnil.
  - intros x _. rewrite decide_True by done. rewrite addr4_text. apply bool_decide_eq_true.
    apply (fmt4_chars _ "-"); [apply length_toBytes|apply toBytes_bytes|by left].
Qed.

(** IPv6 addresses whose first byte is not zero (with the one before them). *)
Lemma addr6_head x : 2 ^ 120 <= x < 2 ^ 128 → take 12 (addr6 x) ≠ v4InV6Prefix.
Proof.
  intros Hx Heq. assert (addr6 x = v4InV6Prefix ++ drop 12 (addr6 x)) as Hsplit
    by (rewrite <- Heq; by rewrite take_drop).
  assert (Forall is_byte (drop 12 (addr6 x))) as Hb by apply Forall_drop, toBytes_bytes.
  assert (length (drop 12 (addr6 x)) = 4%nat) as Hl by (unfold addr6; rewrite length_drop, length_toBytes; lia).
  apply (f_equal setBytes) in Hsplit. unfold addr6 at 1 in Hsplit.
  rewrite setBytes_toBytes, setBytes_app, Hl in Hsplit by lia.
  apply setBytes_bound in Hb. rewrite Hl in Hb.
  change (setBytes v4InV6Prefix) with 65535 in Hsplit. lia.
Qed.

Lemma To4_addr6 x : 2 ^ 120 <= x < 2 ^ 128 → To4 (addr6 x) = [].
Proof.
  intros Hx. unfold To4. pose proof (length_toBytes 16 x) as Hl. fold (addr6 x) in Hl.
  rewrite decide_False by lia. rewrite decide_False; [done|]. intros [_ ?]. by apply (addr6_head x).
Qed.

Lemma addr6_text x : 2 ^ 120 <= x < 2 ^ 128 → chars (IPString (addr6 x)) = fmt6 (addr6 x).
Proof.
  intros Hx. pose proof (length_toBytes 16 x) as Hl. fold (addr6 x) in Hl.
  unfold IPString. rewrite Hl, To4_addr6 by done. apply chars_unchars.
Qed.

Lemma fmt6_chars ip : length ip = 16%nat → Forall is_byte ip → Forall v6char (fmt6 ip) ∧ ":"%char ∈ fmt6 ip.
Proof.
  intros Hl Hb. destruct (groups_ungroup ip 8 Hl Hb) as (_ & Hg & Hlen). unfold fmt6.
  destruct (bestRun (groups ip)) as [[s e]|].
  - rewrite !Forall_app. split; [|set_solver]. split_and!; [by apply fmtGroups_chars, Forall_take| |
      by apply fmtGroups_chars, Forall_drop]. repeat constructor; by right.
  - split; [by apply fmtGroups_chars|]. destruct (groups ip) as [|g [|g' gs]]; try discriminate Hlen.
    rewrite fmtGroups_cons. set_solver.
Qed.

#[export] Instance family6 : AddrFamily IPv6 addr6 (2 ^ 120) (2 ^ 128 - 1).
Proof.
  assert (∀ x, length (addr6 x) = 16%nat ∧ Forall is_byte (addr6 x)) as Hv.
  { intros x. split; [apply length_toBytes|apply toBytes_bytes]. }
  assert (∀ x, 2 ^ 120 <= x <= 2 ^ 128 - 1 → ipToInt (addr6 x) = x) as Hint.
  { intros x Hx. unfold ipToInt. rewrite To4_addr6 by lia. rewrite decide_False by naive_solver.
    rewrite To16_16 by apply Hv. apply setBytes_toBytes. lia. }
  split.
  - by right.
  - intros x _. apply Hv.
  - apply Hint.
  - intros x Hx. unfold NextIP. rewrite Hint by lia. unfold intToIP.
    rewrite (bigBytes_toBytes 17 16) by lia. apply To16_16, length_toBytes.
  - intros x y Hx Hy. unfold ipLe. rewrite !To16_16 by apply Hv.
    rewrite bytesLe_setBytes by (apply Hv || (rewrite !(proj1 (Hv _)); done)).
    unfold addr6. rewrite !setBytes_toBytes by lia. done.
  - intros x Hx. rewrite addr6_text by lia.
    destruct (fmt6_chars (addr6 x)) as [Hc _]; [apply Hv..|]. rewrite Forall_forall in Hc.
    split; intros Hin; destruct (Hc _ Hin) as [Hd|Hd]; by try apply Hd.
  - intros x Hx. rewrite To4_addr6 by lia. done.
  - intros x Hx. rewrite decide_False by done. rewrite addr6_text by lia. apply bool_decide_eq_true.
    apply fmt6_chars; apply Hv.
Qed.

(** ** Ranges within a family *)

Section family.
Context {version : Z} {addr : Z → IP} {lo hi : Z} {F : AddrFamily version addr lo hi}.

Lemma addr_valid_ip x : lo <= x <= hi → valid_ip (addr x).
Proof using F. intros Hx. destruct (addr_valid x Hx). split; [by right|done]. Qed.

Lemma addr_dash x : lo <= x <= hi → ("-"%char ∉ chars (IPString (addr x))).
Proof using F. apply addr_plain. Qed.

Lemma addr_parse x : lo <= x <= hi → ParseIP (IPString (addr x)) = addr x.
Proof using F.
  intros Hx. rewrite ParseIP_IPString by by apply addr_valid_ip. apply To16_16. by apply addr_valid.
Qed.

Lemma addr_nonnil x : lo <= x <= hi → addr x ≠ [].
Proof using F. intros Hx H. destruct (addr_valid x Hx) as [Hl _]. by rewrite H in Hl. Qed.

Lemma addr_inj x y : lo <= x <= hi → lo <= y <= hi → addr x = addr y → x = y.
Proof using F. intros Hx Hy H. by rewrite <- (addr_int x), <- (addr_int y), H. Qed.

Lemma Cmp_addr x y : lo <= x <= hi → lo <= y <= hi → (Cmp (addr x) (addr y) <= 0 ↔ x <= y).
Proof using F.
  intros Hx Hy. unfold Cmp. rewrite !addr_int by done. destruct (Z.compare_spec x y); lia.
Qed.

Lemma rangeLoop_family fuel x y acc :
  lo <= x → lo <= y < hi → x <= y + 1 → (Z.to_nat (y - x + 1) <= fuel)%nat →
  rangeLoop fuel (addr x) (addr y) acc = Ret (acc ++ (addr <$> seqZ x (y - x + 1))).
Proof using F.
  revert x acc. induction fuel as [|fuel IH]; intros x acc Hx Hy Hxy Hf; cbn [rangeLoop].
  - destruct (decide (x = y + 1)) as [->|]; [|lia].
    rewrite decide_False by (rewrite Cmp_addr by lia; lia). rewrite seqZ_nil by lia. by rewrite app_nil_r.
  - destruct (decide (x = y + 1)) as [->|].
    + rewrite decide_False by (rewrite Cmp_addr by lia; lia). rewrite seqZ_nil by lia. by rewrite app_nil_r.
    + rewrite decide_True by (apply Cmp_addr; lia). rewrite addr_next by lia.
      rewrite IH by lia. rewrite <- app_assoc. rewrite (seqZ_cons x) by lia. simpl.
      replace (Z.succ x) with (x + 1) by lia. by replace (y - (x + 1) + 1) with (Z.pred (y - x + 1)) by lia.
Qed.

Definition show_run (r : Z * Z) : string :=
  if decide (r.1 = r.2) then IPString (addr r.1) else IPString (addr r.1) +:+ "-" +:+ IPString (addr r.2).

Definition run_addrs (r : Z * Z) : list IP := addr <$> seqZ r.1 (r.2 - r.1 + 1).

Lemma Split_single x : lo <= x <= hi → Split (IPString (addr x)) "-"%char = [IPString (addr x)].
Proof using F.
  intros Hx. unfold Split. rewrite splitOn_none by by apply addr_dash. simpl. by rewrite unchars_chars.
Qed.

Lemma Split_pair x y : lo <= x <= hi → lo <= y <= hi →
  Split (IPString (addr x) +:+ "-" +:+ IPString (addr y)) "-"%char = [IPString (addr x); IPString (addr y)].
Proof using F.
  intros Hx Hy. unfold Split. rewrite !chars_app. cbn [String.list_ascii_of_string app].
  rewrite splitOn_app by by apply addr_dash. rewrite splitOn_none by by apply addr_dash.
  simpl. by rewrite !unchars_chars.
Qed.

(** What the validators say about a printed address of the family. *)
Lemma addr_validators x : lo <= x <= hi →
  (version = IPv4 → validatorIPv4 (IPString (addr x)) = true) ∧
  (version = IPv6 → validatorIPv6 (IPString (addr x)) = true).
Proof using F.
  intros Hx. pose proof (addr_sep x Hx) as Hs. unfold validatorIPv4, validatorIPv6.
  rewrite addr_parse by done. rewrite bool_decide_eq_true_2 by by apply addr_nonnil.
  split; intros ->; [by rewrite decide_True in Hs|by rewrite decide_False in Hs].
Qed.

Lemma IsIPVersion_family : IsIPVersion version = Ret tt.
Proof using F. destruct (addr_version (AddrFamily := F)) as [-> | ->]; reflexivity. Qed.

Lemma IsIPRange_run r : lo <= r.1 → r.1 <= r.2 → r.2 <= hi → IsIPRange version (show_run r) = Ret tt.
Proof using F.
  destruct r as [x y]. simpl. intros Hx Hxy Hy. unfold IsIPRange. rewrite IsIPVersion_family. cbn [obind].
  destruct (addr_validators x) as [Hx4 Hx6]; [lia|]. destruct (addr_validators y) as [Hy4 Hy6]; [lia|].
  assert (decide (Cmp (addr x) (addr y) = 1) = decide (Cmp (addr x) (addr y) = 1)) as _ by done.
  assert (Cmp (addr x) (addr y) ≠ 1) as Hc by (pose proof (proj2 (Cmp_addr x y ltac:(lia) ltac:(lia)) Hxy); lia).
  unfold IsIPv4IPRange, IsIPv6IPRange, show_run. simpl.
  destruct (addr_version (AddrFamily := F)) as [Hv|Hv]; rewrite Hv; simpl;
    (case_decide; [rewrite Split_single by lia|rewrite Split_pair by lia]);
    rewrite ?Hx4, ?Hy4, ?Hx6, ?Hy6 by done; simpl;
    rewrite ?addr_parse by lia; rewrite ?decide_False by done; reflexivity.
Qed.

Lemma ParseIPRange_run r :
  lo <= r.1 → r.1 <= r.2 → r.2 < hi → ParseIPRange version (show_run r) = Ret (run_addrs r).
Proof using F.
  intros Hx Hxy Hy. unfold ParseIPRange. rewrite IsIPRange_run by lia. cbn [obind].
  destruct r as [x y]. unfold show_run, run_addrs. simpl in *. case_decide as Heq.
  - rewrite Split_single by lia. rewrite addr_parse by lia. subst y.
    replace (x - x + 1) with 1 by lia. reflexivity.
  - rewrite Split_pair by lia. rewrite !addr_parse by lia.
    rewrite rangeLoop_family by (unfold rangeFuel; rewrite ?addr_int by lia; lia). done.
Qed.

Lemma ParseIPRanges_acc rs acc :
  oforeach (λ r sum, let! ips := ParseIPRange version r in Ret (sum ++ ips)) rs acc =
  let! ips := ParseIPRanges version rs in Ret (acc ++ ips).
Proof using.
  unfold ParseIPRanges. revert acc. induction rs as [|r rs IH]; intros acc; simpl; [by rewrite app_nil_r|].
  destruct (ParseIPRange version r) as [ips| | |]; simpl; try done. rewrite IH, (IH ips).
  destruct (oforeach _ rs []); simpl; try done. by rewrite app_assoc.
Qed.

Lemma ParseIPRanges_cons r rs :
  ParseIPRanges version (r :: rs) =
  let! a := ParseIPRange version r in let! b := ParseIPRanges version rs in Ret (a ++ b).
Proof using.
  unfold ParseIPRanges at 1. simpl. destruct (ParseIPRange version r); simpl; try done.
  apply ParseIPRanges_acc.
Qed.

(** Runs in increasing order with a gap between one and the next. *)
Inductive separated : list (Z * Z) → Prop :=
| separated_nil : separated []
| separated_one s e : s <= e → separated [(s, e)]
| separated_cons s e s' e' l :
    s <= e → e + 1 < s' → separated ((s', e') :: l) → separated ((s, e) :: (s', e') :: l).

Fixpoint runs_of (s e : Z) (rest : list Z) : list (Z * Z) :=
  match rest with
  | [] => [(s, e)]
  | x :: rest' => if decide (x = e + 1) then runs_of s x rest' else (s, e) :: runs_of x x rest'
  end.

Lemma IPEqual_addr x y : lo <= x <= hi → lo <= y <= hi → IPEqual (addr x) (addr y) = bool_decide (x = y).
Proof using F.
  intros Hx Hy. destruct (addr_valid x Hx) as [Hl _], (addr_valid y Hy) as [Hl' _].
  unfold IPEqual. rewrite Hl, Hl'. rewrite decide_True by done. apply bool_decide_ext.
  split; [by apply addr_inj|congruence].
Qed.

Lemma mergeRuns_runs s e rest :
  lo <= s → s <= e → Forall (λ x, lo <= x < hi) (e :: rest) → StronglySorted Z.lt (e :: rest) →
  mergeRuns (addr s) (addr e) (bool_decide (s = e)) (addr <$> rest) = show_run <$> runs_of s e rest.
Proof using F.
  revert s e. induction rest as [|x rest IH]; intros s e Hs Hse Hb Hsort; cbn [mergeRuns runs_of fmap list_fmap].
  - unfold show_run. simpl. by destruct (decide (s = e)) as [->|]; [rewrite bool_decide_eq_true_2|
      rewrite bool_decide_eq_false_2].
  - pose proof Hb as Hb0. rewrite !Forall_cons in Hb. destruct Hb as (He & Hx & Hrest).
    apply StronglySorted_inv in Hsort as [Hsort Hlt]. apply Forall_cons in Hlt as [Hlt _].
    rewrite addr_next, IPEqual_addr by lia. case_decide as Hd.
    + subst x. rewrite bool_decide_eq_true_2 by done. rewrite <- IH; [|lia|lia|by constructor|done].
      f_equal. symmetry. apply bool_decide_eq_false. lia.
    + rewrite bool_decide_eq_false_2 by done. cbn [fmap list_fmap]. f_equal.
      * unfold show_run. simpl. destruct (decide (s = e)) as [->|]; [by rewrite bool_decide_eq_true_2|
          by rewrite bool_decide_eq_false_2].
      * rewrite <- IH; [|lia|lia|by constructor|done]. f_equal. symmetry. by apply bool_decide_eq_true.
Qed.

Lemma runs_of_head s e rest : ∃ e' l, runs_of s e rest = (s, e') :: l.
Proof using. revert e. induction rest as [|x rest IH]; intros e; simpl; [eauto|]. case_decide; eauto. Qed.

Lemma runs_of_separated s e rest :
  s <= e → StronglySorted Z.lt (e :: rest) → separated (runs_of s e rest).
Proof using.
  revert s e. induction rest as [|x rest IH]; intros s e Hse Hsort; simpl; [by constructor|].
  apply StronglySorted_inv in Hsort as [Hsort Hlt]. apply Forall_cons in Hlt as [Hlt _].
  case_decide; [apply IH; [lia|done]|]. specialize (IH x x ltac:(lia) Hsort).
  destruct (runs_of_head x x rest) as (e' & l & Hr). rewrite Hr in *. constructor; [done|lia|done].
Qed.

Lemma runs_of_parse s e rest :
  lo <= s → s <= e → Forall (λ x, lo <= x < hi) (e :: rest) → StronglySorted Z.lt (e :: rest) →
  ParseIPRanges version (show_run <$> runs_of s e rest) = Ret (addr <$> (seqZ s (e - s + 1) ++ rest)).
Proof using F.
  revert s e. induction rest as [|x rest IH]; intros s e Hs Hse Hb Hsort; cbn [runs_of fmap list_fmap].
  - apply Forall_cons in Hb as [He _]. rewrite ParseIPRanges_cons, ParseIPRange_run by (simpl; lia). cbn [obind ParseIPRanges oforeach]. unfold run_addrs. simpl. by rewrite !app_nil_r.
  - pose proof Hb as Hb0. rewrite !Forall_cons in Hb. destruct Hb as (He & Hx & Hrest).
    apply StronglySorted_inv in Hsort as [Hsort Hlt]. apply Forall_cons in Hlt as [Hlt _].
    case_decide as Hd.
    + subst x. rewrite IH; [|lia|lia|by constructor|done]. do 2 f_equal.
      replace (e + 1 - s + 1) with ((e - s + 1) + 1) by lia. rewrite seqZ_app by lia.
      rewrite <- app_assoc. do 2 f_equal. replace (s + (e - s + 1)) with (e + 1) by lia. done.
    + cbn [fmap list_fmap]. rewrite ParseIPRanges_cons, ParseIPRange_run by (simpl; lia). cbn [obind].
      rewrite IH; [|lia|lia|by constructor|done]. cbn [obind]. unfold run_addrs. simpl.
      replace (x - x + 1) with 1 by lia. by rewrite !fmap_app.
Qed.

(** The addresses a list of runs covers. *)
Definition covered (x : Z) (rs : list (Z * Z)) : Prop := ∃ r, r ∈ rs ∧ r.1 <= x <= r.2.

Lemma covered_cons x r rs : covered x (r :: rs) ↔ r.1 <= x <= r.2 ∨ covered x rs.
Proof using. unfold covered. setoid_rewrite elem_of_cons. naive_solver. Qed.

Lemma run_addrs_elem (r : Z * Z) x : lo <= r.1 → r.2 <= hi → lo <= x <= hi →
  addr x ∈ run_addrs r ↔ r.1 <= x <= r.2.
Proof using F.
  intros H1 H2 Hx. unfold run_addrs. rewrite list_elem_of_fmap. setoid_rewrite elem_of_seqZ. split.
  - intros (y & Heq & Hy). apply addr_inj in Heq; lia.
  - intros Hr. exists x. split; [done|lia].
Qed.

Lemma ParseIPRanges_runs rs : Forall (λ r, lo <= r.1 ∧ r.1 <= r.2 ∧ r.2 < hi) rs →
  ParseIPRanges version (show_run <$> rs) = Ret (addr <$> (rs ≫= λ r, seqZ r.1 (r.2 - r.1 + 1))).
Proof using F.
  induction 1 as [|r rs (? & ? & ?) _ IH]; [done|]. cbn [fmap list_fmap].
  rewrite ParseIPRanges_cons, ParseIPRange_run by done. cbn [obind]. rewrite IH. cbn [obind].
  unfold run_addrs. cbn [mbind list_bind]. by rewrite fmap_app.
Qed.

Lemma covered_elem rs x : x ∈ (rs ≫= λ r : Z * Z, seqZ r.1 (r.2 - r.1 + 1)) ↔ covered x rs.
Proof using.
  rewrite list_elem_of_bind. unfold covered. setoid_rewrite elem_of_seqZ.
  split; intros (r & H); exists r; split; try tauto; lia.
Qed.

(** A printed run is no CIDR block: it has no slash. *)
Lemma ParseCIDR_run r : lo <= r.1 <= hi → lo <= r.2 <= hi → ParseCIDR (show_run r) = None.
Proof using F.
  intros H1 H2. destruct (addr_plain r.1 H1) as [_ P1], (addr_plain r.2 H2) as [_ P2].
  unfold ParseCIDR. rewrite splitOn_none; [done|]. unfold show_run.
  case_decide; [done|]. rewrite !chars_app. cbn [String.list_ascii_of_string app].
  rewrite not_elem_of_app, not_elem_of_cons. done.
Qed.
End family.

Lemma runs_of_covered s e rest x : s <= e →
  covered x (runs_of s e rest) ↔ s <= x <= e ∨ x ∈ rest.
Proof.
  revert s e. induction rest as [|y rest IH]; intros s e Hse; simpl.
  - rewrite covered_cons. simpl. unfold covered. set_solver.
  - rewrite elem_of_cons. case_decide as Hd.
    + rewrite IH by lia. subst y. assert (s <= x <= e + 1 ↔ s <= x <= e ∨ x = e + 1) as -> by lia. tauto.
    + rewrite covered_cons, IH by lia. simpl. assert (y <= x <= y ↔ x = y) as -> by lia. tauto.
Qed.

(** ** Sorting addresses *)

Lemma bytesLe_total a b : bytesLe a b = true ∨ bytesLe b a = true.
Proof.
  revert b. induction a as [|x a IH]; intros [|y b]; simpl; eauto.
  destruct (Z.ltb_spec x y), (Z.ltb_spec y x); auto; lia.
Qed.

Lemma bytesLe_trans a b c : bytesLe a b = true → bytesLe b c = true → bytesLe a c = true.
Proof.
  revert b c. induction a as [|x a IH]; intros [|y b] [|z c]; simpl; try done.
  destruct (Z.ltb_spec x y), (Z.ltb_spec y x), (Z.ltb_spec y z), (Z.ltb_spec z y),
    (Z.ltb_spec x z), (Z.ltb_spec z x); try done; try lia. eauto.
Qed.

#[export] Instance ipLe_total : Total ipLe.
Proof. intros a b. apply bytesLe_total. Qed.
#[export] Instance ipLe_trans : Transitive ipLe.
Proof. intros a b c. apply bytesLe_trans. Qed.

Lemma list_filter_all {A} (P : A → Prop) `{∀ x, Decision (P x)} (l : list A) : (∀ x, x ∈ l → P x) → filter P l = l.
Proof.
  induction l as [|x l IH]; intros Hl; [done|]. rewrite filter_cons_True by (apply Hl; by left).
  f_equal. apply IH. intros y Hy. apply Hl. by right.
Qed.

Lemma list_filter_none {A} (P : A → Prop) `{∀ x, Decision (P x)} (l : list A) : (∀ x, x ∈ l → ¬ P x) → filter P l = [].
Proof.
  induction l as [|x l IH]; intros Hl; [done|]. rewrite filter_cons_False by (apply Hl; by left).
  apply IH. intros y Hy. apply Hl. by right.
Qed.

(** Ranging over the keys of a map visits each of them once. *)
Lemma map_order_keys `{MapOrder} {V} (m : gmap string V) :
  map_order (map_to_list m).*1 ≡ₚ (map_to_list m).*1.
Proof. apply map_order_perm. Qed.

Lemma elem_of_map_order `{MapOrder} {V} (m : gmap string V) k :
  k ∈ map_order (map_to_list m).*1 ↔ is_Some (m !! k).
Proof.
  rewrite map_order_keys, list_elem_of_fmap. split.
  - intros ([k' v] & -> & Hin). apply elem_of_map_to_list in Hin. eauto.
  - intros [v Hv]. exists (k, v). split; [done|]. by apply elem_of_map_to_list.
Qed.

Lemma NoDup_map_order `{MapOrder} {V} (m : gmap string V) : NoDup (map_order (map_to_list m).*1).
Proof. rewrite map_order_keys. apply NoDup_fst_map_to_list. Qed.

(** ** The printed set of addresses *)

(** Collecting the printed forms of a list of valid addresses in a map and
    parsing them back in iteration order gives each address once. *)
Lemma parse_back_NoDup (l : list string) :
  (∀ s, s ∈ l → ∃ ip, valid_ip ip ∧ s = IPString ip) → NoDup l → NoDup (ParseIP <$> l).
Proof.
  intros Hv Hnd. apply NoDup_fmap_2_strong; [|done]. intros s t Hs Ht Heq.
  destruct (Hv s Hs) as (a & Ha & ->), (Hv t Ht) as (b & Hb & ->).
  rewrite !ParseIP_IPString in Heq by done. by rewrite <- (IPString_To16 a), <- (IPString_To16 b), Heq.
Qed.

(** A value of type [net.IP] the code works with: nil or an address. *)
Definition addr_or_nil (ip : IP) : Prop := ip = [] ∨ valid_ip ip.

Lemma ParseIP_addr_or_nil s : addr_or_nil (ParseIP s).
Proof. destruct (ParseIP_valid s) as [H|[Hl Hb]]; [by left|right; split; auto]. Qed.

Lemma keys_insert (ips : list IP) (m : gmap string bool) s :
  is_Some (foldl (λ m ip, if decide (ip ≠ []) then <[IPString ip := true]> m else m) m ips !! s) ↔
  is_Some (m !! s) ∨ ∃ a, a ∈ ips ∧ a ≠ [] ∧ IPString a = s.
Proof.
  revert m. induction ips as [|ip ips IH]; intros m; simpl; [set_solver|]. rewrite IH. case_decide as Hn.
  - rewrite lookup_insert_is_Some. setoid_rewrite elem_of_cons.
    destruct (decide (IPString ip = s)) as [Heq|Hne]; naive_solver.
  - setoid_rewrite elem_of_cons. naive_solver.
Qed.

Lemma keys_delete (ips : list IP) (m : gmap string bool) s :
  is_Some (foldl (λ m ip, if decide (ip ≠ []) then delete (IPString ip) m else m) m ips !! s) ↔
  is_Some (m !! s) ∧ ∀ a, a ∈ ips → a ≠ [] → IPString a ≠ s.
Proof.
  revert m. induction ips as [|ip ips IH]; intros m; simpl; [set_solver|]. rewrite IH. case_decide as Hn.
  - rewrite lookup_delete_is_Some. setoid_rewrite elem_of_cons. naive_solver.
  - setoid_rewrite elem_of_cons. naive_solver.
Qed.

Definition diffKeys (ips1 ips2 : list IP) : gmap string bool :=
  foldl (λ m ip, if decide (ip ≠ []) then delete (IPString ip) m else m)
    (foldl (λ m ip, if decide (ip ≠ []) then <[IPString ip := true]> m else m) ∅ ips1) ips2.

Lemma diffKeys_spec ips1 ips2 s :
  is_Some (diffKeys ips1 ips2 !! s) ↔
  (∃ a, a ∈ ips1 ∧ a ≠ [] ∧ IPString a = s) ∧ ∀ b, b ∈ ips2 → b ≠ [] → IPString b ≠ s.
Proof.
  unfold diffKeys. rewrite keys_delete, keys_insert, lookup_empty.
  split; [intros [[[? ?]|?] ?]|]; naive_solver.
Qed.

(** The unsorted difference, with the printed keys parsed back. *)
Lemma diff_elem `{MapOrder} ips1 ips2 ip :
  Forall addr_or_nil ips1 → Forall addr_or_nil ips2 →
  ip ∈ ParseIP <$> map_order (map_to_list (diffKeys ips1 ips2)).*1 ↔
  (∃ a, a ∈ ips1 ∧ a ≠ [] ∧ To16 a = ip) ∧ ∀ b, b ∈ ips2 → To16 b ≠ ip.
Proof.
  rewrite !Forall_forall. intros Hv1 Hv2. rewrite list_elem_of_fmap.
  setoid_rewrite elem_of_map_order. setoid_rewrite diffKeys_spec. split.
  - intros (s & -> & (a & Ha & Hne & <-) & Hb). destruct (Hv1 a Ha) as [|Hva]; [done|].
    rewrite ParseIP_IPString by done. split; [eauto|]. intros b Hin Heq.
    destruct (Hv2 b Hin) as [->|Hvb].
    + change (To16 []) with (@nil Z) in Heq. destruct (valid_To16 _ Hva) as [Hl _]. by rewrite <- Heq in Hl.
    + apply (Hb b Hin); [|by apply IPString_inj].
      intros ->. by destruct Hvb as [[|] _].
  - intros [(a & Ha & Hne & <-) Hb]. destruct (Hv1 a Ha) as [|Hva]; [done|]. exists (IPString a).
    rewrite ParseIP_IPString by done. split; [done|]. split; [eauto|]. intros b Hin Hbn Heq.
    destruct (Hv2 b Hin) as [->|Hvb]; [done|]. apply (Hb b Hin). by apply IPString_inj.
Qed.

Lemma diff_NoDup `{MapOrder} ips1 ips2 : Forall addr_or_nil ips1 →
  NoDup (ParseIP <$> map_order (map_to_list (diffKeys ips1 ips2)).*1).
Proof.
  rewrite Forall_forall. intros Hv. apply parse_back_NoDup; [|apply NoDup_map_order].
  intros s. rewrite elem_of_map_order, diffKeys_spec. intros [(a & Ha & Hne & <-) _].
  destruct (Hv a Ha); naive_solver.
Qed.

(** [IPsDiffSet] is set difference on addresses: whatever order the Go
    map is ranged over in, the result lists, without repetition and in
    sixteen-byte form, exactly the addresses of the first list that are not in
    the second; nil entries are ignored; it is in ascending order when that is
    asked for. *)
Theorem IPsDiffSet_difference `{MapOrder} ips1 ips2 sorted :
  Forall addr_or_nil ips1 → Forall addr_or_nil ips2 →
  let d := IPsDiffSet ips1 ips2 sorted in
  NoDup d ∧
  (∀ ip, ip ∈ d ↔ (∃ a, a ∈ ips1 ∧ a ≠ [] ∧ To16 a = ip) ∧ ∀ b, b ∈ ips2 → To16 b ≠ ip) ∧
  (sorted = true → StronglySorted ipLe d).
Proof.
  intros Hv1 Hv2 d. subst d. unfold IPsDiffSet. fold (diffKeys ips1 ips2). destruct sorted.
  - split_and!.
    + rewrite merge_sort_Permutation. by apply diff_NoDup.
    + intros ip. rewrite merge_sort_Permutation. by apply diff_elem.
    + intros _. apply StronglySorted_merge_sort; apply _.
  - split_and!; [by apply diff_NoDup| |done]. intros ip. by apply diff_elem.
Qed.

Lemma IPsDiffSet_difference_witness :
  let d := @IPsDiffSet map_order_id [ParseIP "10.0.0.2"; ParseIP "bad"; ParseIP "10.0.0.1"] [ParseIP "10.0.0.2"] true in
  d = [ParseIP "10.0.0.1"] ∧ NoDup d.
Proof.
  split; [vm_compute; reflexivity|].
  apply (@IPsDiffSet_difference map_order_id); rewrite ?Forall_cons; split_and?; (apply ParseIP_addr_or_nil || apply Forall_nil_2).
Defined.

(** ** Merging a pool into ranges *)

Section merge.
Context `{MapOrder} {version : Z} {addr : Z → IP} {lo hi : Z} {F : AddrFamily version addr lo hi}.

Lemma collect_family (l : list Z) (m : gmap string unit) :
  Forall (λ x, lo <= x <= hi) l →
  ∃ m', oforeach (λ ip (m : gmap string unit),
    if (bool_decide (version = IPv4) && bool_decide (To4 ip = [])) ||
       (bool_decide (version = IPv6) && bool_decide (To4 ip ≠ []))
    then Err ErrInvalidIP else Ret (<[IPString ip := tt]> m)) (addr <$> l) m = Ret m' ∧
  ∀ s, is_Some (m' !! s) ↔ is_Some (m !! s) ∨ ∃ x, x ∈ l ∧ s = IPString (addr x).
Proof using F.
  revert m. induction l as [|x l IH]; intros m Hb; simpl.
  - exists m. split; [done|]. set_solver.
  - apply Forall_cons in Hb as [Hx Hb]. pose proof (addr_four x Hx) as H4.
    destruct (IH (<[IPString (addr x) := tt]> m) Hb) as (m' & Hm' & Hk).
    assert ((bool_decide (version = IPv4) && bool_decide (To4 (addr x) = [])) ||
       (bool_decide (version = IPv6) && bool_decide (To4 (addr x) ≠ [])) = false) as Hc.
    { destruct (addr_version (AddrFamily := F)) as [Hv|Hv].
      - rewrite (bool_decide_eq_false_2 (version = IPv6)) by (rewrite Hv; done).
        rewrite (bool_decide_eq_false_2 (To4 _ = [])) by tauto. by rewrite andb_false_r.
      - rewrite (bool_decide_eq_false_2 (version = IPv4)) by (rewrite Hv; done).
        rewrite (bool_decide_eq_false_2 (To4 _ ≠ [])); [by rewrite andb_false_r|].
        rewrite H4, Hv. done. }
    rewrite Hc. cbn [obind]. exists m'. split; [done|]. intros s. rewrite Hk, lookup_insert_is_Some.
    setoid_rewrite elem_of_cons. destruct (decide (IPString (addr x) = s)); naive_solver.
Qed.

(** The integers of the collected, sorted addresses. *)
Lemma sorted_family (l : list Z) (m : gmap string unit) :
  Forall (λ x, lo <= x <= hi) l →
  (∀ s, is_Some (m !! s) ↔ ∃ x, x ∈ l ∧ s = IPString (addr x)) →
  ∃ l', merge_sort ipLe (ParseIP <$> map_order (map_to_list m).*1) = addr <$> l' ∧
    StronglySorted Z.lt l' ∧ ∀ x, x ∈ l' ↔ x ∈ l.
Proof using F.
  intros Hb Hm. set (ips := merge_sort ipLe _). rewrite Forall_forall in Hb.
  assert (∀ ip, ip ∈ ips ↔ ∃ x, x ∈ l ∧ ip = addr x) as Hin.
  { intros ip. unfold ips. rewrite merge_sort_Permutation, list_elem_of_fmap. setoid_rewrite elem_of_map_order.
    setoid_rewrite Hm. split.
    - intros (s & -> & x & Hx & ->). rewrite addr_parse by auto. eauto.
    - intros (x & Hx & ->). exists (IPString (addr x)). rewrite addr_parse by auto. eauto. }
  assert (NoDup ips) as Hnd.
  { unfold ips. rewrite merge_sort_Permutation. apply parse_back_NoDup; [|apply NoDup_map_order].
    intros s. rewrite elem_of_map_order, Hm. intros (x & Hx & ->). exists (addr x).
    split; [|done]. apply addr_valid_ip. auto. }
  assert (StronglySorted ipLe ips) as Hs by (apply StronglySorted_merge_sort; apply _).
  clearbody ips.
  assert (∃ l', ips = addr <$> l' ∧ StronglySorted Z.lt l' ∧ ∀ x, x ∈ l' → lo <= x <= hi) as (l' & -> & Hl' & Hr).
  { assert (∀ ip, ip ∈ ips → ∃ x, lo <= x <= hi ∧ ip = addr x) as Hall.
    { intros ip Hip. destruct (proj1 (Hin ip) Hip) as (x & Hx & ->). exists x. auto. }
    clear Hin.
    induction ips as [|ip ips IH]; [exists []; split_and!; [done|constructor|set_solver]|].
    apply StronglySorted_inv in Hs as [Hs Hle]. apply NoDup_cons in Hnd as [Hni Hnd].
    destruct IH as (l' & -> & Hl' & Hr); [done|done|set_solver|].
    destruct (Hall ip) as (x & Hx & ->); [by left|]. exists (x :: l'). split_and!; [done| |set_solver].
    constructor; [done|]. rewrite Forall_forall in Hle. apply Forall_forall. intros y Hy.
    assert (x <= y) by (apply addr_le; [done|by apply Hr|]; apply Hle; by apply list_elem_of_fmap_2).
    assert (x ≠ y) by (intros ->; apply Hni; by apply list_elem_of_fmap_2). lia. }
  exists l'. split_and!; [done|done|]. intros x. split.
  - intros Hx. destruct (proj1 (Hin (addr x))) as (y & Hy & Heq); [by apply list_elem_of_fmap_2|].
    apply addr_inj in Heq as ->; auto.
  - intros Hx. assert (addr x ∈ addr <$> l') as Ha by (apply Hin; eauto).
    apply list_elem_of_fmap in Ha as (y & Heq & Hy). apply addr_inj in Heq as ->; auto.
Qed.

Lemma ConvertIPsToIPRanges_family l : Forall (λ x, lo <= x < hi) l →
  ∃ runs l', ConvertIPsToIPRanges version (addr <$> l) = Ret (show_run (addr := addr) <$> runs) ∧
    separated runs ∧ StronglySorted Z.lt l' ∧ (∀ x, x ∈ l' ↔ x ∈ l) ∧
    (∀ x, covered x runs ↔ x ∈ l) ∧
    ParseIPRanges version (show_run (addr := addr) <$> runs) = Ret (addr <$> l').
Proof using F.
  intros Hb. assert (Forall (λ x, lo <= x <= hi) l) as Hb' by (eapply Forall_impl; [done|]; simpl; lia).
  destruct (collect_family l ∅ Hb') as (m & Hm & Hk).
  destruct (sorted_family l m Hb') as (l' & Hl' & Hs & Hin).
  { intros s. rewrite Hk, lookup_empty. split; [intros [[? ?]|?]|]; naive_solver. }
  unfold ConvertIPsToIPRanges. rewrite (IsIPVersion_family (F := F)). cbn [obind]. rewrite Hm. cbn [obind].
  rewrite Hl'. assert (Forall (λ x, lo <= x < hi) l') as Hbl.
  { rewrite Forall_forall in Hb |- *. intros x Hx. apply Hb. by apply Hin. }
  destruct l' as [|x l']; cbn [fmap list_fmap].
  - exists [], []. split_and!; try done; [constructor..|].
    intros x. rewrite <- Hin. unfold covered. set_solver.
  - pose proof Hbl as Hbl0. apply Forall_cons in Hbl0 as [Hx _].
    pose proof (mergeRuns_runs (F := F) x x l' ltac:(lia) ltac:(lia) Hbl Hs) as Hmr.
    rewrite bool_decide_eq_true_2 in Hmr by done. rewrite Hmr.
    exists (runs_of x x l'), (x :: l'). split_and!; [done| |done|done| |].
    + apply runs_of_separated; [lia|done].
    + intros y. rewrite runs_of_covered, <- Hin, elem_of_cons by lia.
      assert (x <= y <= x ↔ y = x) as -> by lia. done.
    + rewrite (runs_of_parse (F := F)) by (done || lia). by replace (x - x + 1) with 1 by lia.
Qed.

Lemma putIPs_family (l : list Z) (m : gmap string IP) k v :
  Forall (λ x, lo <= x <= hi) l → putIPs (addr <$> l) m !! k = Some v →
  m !! k = Some v ∨ ∃ x, x ∈ l ∧ k = IPString (addr x) ∧ v = addr x.
Proof using F.
  unfold putIPs. revert m. induction l as [|x l IH]; intros m Hb; simpl; [auto|].
  apply Forall_cons in Hb as [Hx Hb]. intros Hk. apply IH in Hk as [Hk|?]; [|naive_solver set_solver|done].
  apply lookup_insert_Some in Hk as [[<- <-]|[_ ?]]; [|by left]. right. exists x. set_solver.
Qed.

Lemma putIPs_family_some (l : list Z) (m : gmap string IP) x :
  Forall (λ x, lo <= x <= hi) l → x ∈ l ∨ m !! IPString (addr x) = Some (addr x) → lo <= x <= hi →
  putIPs (addr <$> l) m !! IPString (addr x) = Some (addr x).
Proof using F.
  unfold putIPs. revert m. induction l as [|y l IH]; intros m Hb Hin Hx; simpl; [set_solver|].
  apply Forall_cons in Hb as [Hy Hb]. apply IH; [done| |done].
  destruct Hin as [Hin|Hin].
  - apply elem_of_cons in Hin as [->|?]; [right; by rewrite lookup_insert_eq|by left].
  - right. destruct (decide (IPString (addr y) = IPString (addr x))) as [Heq|Hne].
    + rewrite Heq, lookup_insert_eq. apply (f_equal ParseIP) in Heq. rewrite !addr_parse in Heq by done. congruence.
    + by rewrite lookup_insert_ne.
Qed.

(** Ranging over the values of a map that holds every address under its own
    text. *)
Lemma rangeValues_family (l : list Z) : Forall (λ x, lo <= x <= hi) l →
  ∃ l', rangeValues (putIPs (addr <$> l) ∅) = addr <$> l' ∧ ∀ x, x ∈ l' ↔ x ∈ l.
Proof using F.
  intros Hb. unfold rangeValues. set (m := putIPs _ _).
  assert (∀ k v, m !! k = Some v → ∃ x, x ∈ l ∧ k = IPString (addr x) ∧ v = addr x) as Hm.
  { intros k v Hk. apply putIPs_family in Hk as [Hk|?]; [by rewrite lookup_empty in Hk|done..]. }
  assert (∀ ks : list string, (∀ k, k ∈ ks → is_Some (m !! k)) →
    ∃ l' : list Z, omap (λ k, m !! k) ks = addr <$> l' ∧ ∀ x, x ∈ l' → x ∈ l ∧ IPString (addr x) ∈ ks) as Hks.
  { induction ks as [|k ks IH]; intros Hk; [exists []; set_solver|].
    destruct IH as (l' & Hl' & Hin); [set_solver|]. destruct (Hk k) as [v Hv]; [by left|].
    destruct (Hm k v Hv) as (x & Hx & -> & ->). exists (x :: l'). split.
    - csimpl. by rewrite Hv, Hl'.
    - intros y [->|Hy]%elem_of_cons; set_solver. }
  destruct (Hks (map_order (map_to_list m).*1)) as (l' & Hl' & Hin); [by intros k Hk; apply elem_of_map_order|].
  exists l'. split; [done|]. intros x. split; [apply Hin|]. intros Hx. rewrite Forall_forall in Hb.
  assert (m !! IPString (addr x) = Some (addr x)) as Hmx by (apply putIPs_family_some; [by apply Forall_forall|auto..]).
  assert (addr x ∈ addr <$> l') as Ha.
  { rewrite <- Hl'. apply list_elem_of_omap. exists (IPString (addr x)). split; [|done].
    apply elem_of_map_order. eauto. }
  apply list_elem_of_fmap in Ha as (y & Heq & Hy). apply addr_inj in Heq as ->; [done|auto|].
  apply Hb. by apply Hin.
Qed.

Definition runs_ok (rs : list (Z * Z)) : Prop := Forall (λ r, lo <= r.1 ∧ r.1 <= r.2 ∧ r.2 < hi) rs.

Lemma runs_ok_bound rs x : runs_ok rs → covered x rs → lo <= x < hi.
Proof using. unfold runs_ok. rewrite Forall_forall. intros Hok (r & Hr & ?). specialize (Hok r Hr). lia. Qed.

Lemma ConvertCidrOrIPrangeToIPs_runs rs : runs_ok rs →
  ∃ l, ConvertCidrOrIPrangeToIPs (show_run (addr := addr) <$> rs) version = Ret (addr <$> l) ∧
    ∀ x, x ∈ l ↔ covered x rs.
Proof using F.
  intros Hok. pose proof Hok as Hok'. unfold runs_ok in Hok'. rewrite Forall_forall in Hok'.
  assert (∀ v, v ∈ show_run (addr := addr) <$> rs → ParseCIDR v = None) as Hn.
  { intros v. rewrite list_elem_of_fmap. intros (r & -> & Hr). specialize (Hok' r Hr).
    apply ParseCIDR_run; lia. }
  unfold ConvertCidrOrIPrangeToIPs.
  rewrite (list_filter_all (λ v, ParseCIDR v = None)) by done.
  rewrite (list_filter_none (λ v, ParseCIDR v ≠ None)) by (intros v Hv Hv2; by apply Hv2, Hn).
  rewrite ParseIPRanges_runs by done. cbn [obind].
  change (CidrsToIPs []) with (Ret (rangeValues (∅ : gmap string IP))). cbn [obind].
  destruct (rangeValues_family []) as (l0 & Hl0 & Hl0'); [constructor|].
  change (putIPs (addr <$> []) ∅) with (∅ : gmap string IP) in Hl0. rewrite Hl0.
  destruct l0 as [|z l0]; [|exfalso; apply (not_elem_of_nil z), Hl0'; by left].
  change (putIPs (addr <$> []) ?m) with m.
  destruct (rangeValues_family (rs ≫= λ r, seqZ r.1 (r.2 - r.1 + 1))) as (l & -> & Hl).
  { apply Forall_forall. intros x Hx. apply covered_elem in Hx. pose proof (runs_ok_bound _ _ Hok Hx). lia. }
  exists l. split; [done|]. intros x. by rewrite Hl, covered_elem.
Qed.

Lemma MergeIPRanges_runs rs : runs_ok rs →
  ∃ runs, MergeIPRanges version (show_run (addr := addr) <$> rs) = Ret (show_run (addr := addr) <$> runs) ∧
    separated runs ∧ ∀ x, covered x runs ↔ covered x rs.
Proof using F.
  intros Hok. destruct (ConvertCidrOrIPrangeToIPs_runs rs Hok) as (l & Hc & Hl).
  destruct (ConvertIPsToIPRanges_family l) as (runs & l' & Hconv & Hsep & _ & _ & Hcov & _).
  { apply Forall_forall. intros x Hx. apply Hl in Hx. by eapply runs_ok_bound. }
  exists runs. unfold MergeIPRanges. rewrite Hc. cbn [obind]. split_and!; [done|done|].
  intros x. by rewrite Hcov.
Qed.

Lemma IPsDiffSet_runs r1 r2 ip : lo <= r1.1 → r1.2 < hi → lo <= r2.1 → r2.2 < hi →
  ip ∈ IPsDiffSet (run_addrs (addr := addr) r1) (run_addrs (addr := addr) r2) false ↔
  ip ∈ run_addrs (addr := addr) r1 ∧ (ip ∉ run_addrs (addr := addr) r2).
Proof using F.
  intros ????. assert (∀ r ip, lo <= r.1 → r.2 < hi → ip ∈ run_addrs (addr := addr) r → valid_ip ip ∧ To16 ip = ip) as Hv.
  { intros r ip' ?? Hin. apply list_elem_of_fmap in Hin as (x & -> & Hx). apply elem_of_seqZ in Hx.
    split; [apply addr_valid_ip; lia|]. apply To16_16, addr_valid. lia. }
  assert (∀ r, lo <= r.1 → r.2 < hi → Forall addr_or_nil (run_addrs (addr := addr) r)) as Ha.
  { intros r ??. apply Forall_forall. intros a Hin. right. by eapply Hv. }
  unfold IPsDiffSet. fold (diffKeys (run_addrs (addr := addr) r1) (run_addrs (addr := addr) r2)).
  rewrite diff_elem by auto. split.
  - intros [(a & Hin & _ & <-) Hb]. destruct (Hv r1 a) as [_ ->]; [done..|]. split; [done|].
    intros Hin2. by apply (Hb a Hin2).
  - intros [Hin Hni]. split.
    + exists ip. destruct (Hv r1 ip) as [Hip ?]; [done..|]. split_and!; [done| |done].
      intros ->. by destruct Hip as [[|] _].
    + intros b Hb Heq. destruct (Hv r2 b) as [_ ?]; [done..|]. congruence.
Qed.

Lemma IPsDiffSet_runs_NoDup r1 l2 : lo <= r1.1 → r1.2 < hi →
  NoDup (IPsDiffSet (run_addrs (addr := addr) r1) l2 false).
Proof using F.
  intros ??. apply diff_NoDup. apply Forall_forall. intros a Hin.
  apply list_elem_of_fmap in Hin as (x & -> & Hx). apply elem_of_seqZ in Hx. right. apply addr_valid_ip. lia.
Qed.

Lemma IsIPRangeOverlap_runs r1 r2 : runs_ok [r1; r2] →
  IsIPRangeOverlap version (show_run (addr := addr) r1) (show_run (addr := addr) r2) =
  Ret (bool_decide (r1.1 <= r2.2 ∧ r2.1 <= r1.2)).
Proof using F.
  unfold runs_ok. rewrite !Forall_cons. intros ((? & ? & ?) & (? & ? & ?) & _).
  unfold IsIPRangeOverlap. rewrite (IsIPVersion_family (F := F)). cbn [obind].
  rewrite !IsIPRange_run by lia. cbn [obind]. rewrite !ParseIPRange_run by lia. cbn [obind].
  pose proof (IPsDiffSet_runs_NoDup r1 (run_addrs (addr := addr) r2) ltac:(done) ltac:(done)) as Hnd.
  pose proof (λ ip, IPsDiffSet_runs r1 r2 ip ltac:(done) ltac:(done) ltac:(done) ltac:(done)) as Hin.
  set (d := IPsDiffSet _ _ _) in *. case_bool_decide as Hc.
  - rewrite decide_True; [done|]. set (z := Z.max r1.1 r2.1).
    assert (addr z ∈ run_addrs (addr := addr) r1) by (apply run_addrs_elem; lia).
    assert (addr z ∈ run_addrs (addr := addr) r2) by (apply run_addrs_elem; lia).
    assert (addr z :: d ⊆+ run_addrs (addr := addr) r1) as Hsub%submseteq_length; [|simpl in Hsub; lia].
    apply NoDup_submseteq; [apply NoDup_cons; split; [rewrite Hin; tauto|done]|].
    intros ip [->|Hip]%elem_of_cons; [done|]. by apply Hin.
  - rewrite decide_False; [done|]. apply Nat.le_ngt.
    apply submseteq_length, NoDup_submseteq.
    + unfold run_addrs. apply NoDup_fmap_2_strong; [|apply NoDup_seqZ].
      intros x y Hx Hy. rewrite elem_of_seqZ in Hx, Hy. apply addr_inj; lia.
    + intros ip Hip. apply Hin. split; [done|]. intros Hip2.
      apply list_elem_of_fmap in Hip as (x & -> & Hx). apply elem_of_seqZ in Hx.
      apply run_addrs_elem in Hip2; lia.
Qed.

Lemma separated_le runs : separated runs → Forall (λ r, r.1 <= r.2) runs.
Proof using. induction 1; rewrite ?Forall_cons in *; simpl; split_and?; try apply Forall_nil_2; (done || tauto). Qed.

Lemma covered_runs_ok rs runs : runs_ok rs → separated runs → (∀ x, covered x runs ↔ covered x rs) → runs_ok runs.
Proof using.
  intros Hok Hsep Hcov. apply Forall_forall. intros r Hr.
  pose proof (proj1 (Forall_forall _ _) (separated_le _ Hsep) r Hr) as Hle. simpl in Hle.
  assert (covered r.1 rs) as C1%runs_ok_bound by (apply Hcov; exists r; split; [done|lia]); [|done].
  assert (covered r.2 rs) as C2%runs_ok_bound by (apply Hcov; exists r; split; [done|lia]); [|done]. lia.
Qed.

(** C37. Membership in a pool of ranges: for any ranges of an address family within
    the bounds [lo] and [hi] (IPv4 from 0.255.255.255 to 255.255.255.254, IPv6 from
    0100:: to below the last address), however they overlap, [IsIPIncludedRange] (which
    merges the ranges through a Go map, a sort and the range printer before it
    compares) answers true exactly when some range contains the address. *)
Theorem IsIPIncludedRange_membership x rs :
  lo <= x < hi → runs_ok rs →
  IsIPIncludedRange version (IPString (addr x)) (show_run (addr := addr) <$> rs) =
  Ret (bool_decide (Exists (λ r, r.1 <= x <= r.2) rs)).
Proof using F.
  intros Hx Hok. destruct (MergeIPRanges_runs rs Hok) as (runs & Hm & Hsep & Hcov).
  unfold IsIPIncludedRange. rewrite Hm. cbn [obind].
  assert (Forall (λ r, r ∈ runs) runs) as Hsub by by apply Forall_forall.
  assert (includedLoop version (IPString (addr x)) (show_run (addr := addr) <$> runs) =
    Ret (bool_decide (Exists (λ r, r.1 <= x <= r.2) runs))) as ->.
  { clear Hm. pose proof (covered_runs_ok _ _ Hok Hsep Hcov) as Hrok.
    clear Hsep Hcov Hsub. induction Hrok as [|r runs Hr Hrok IH]; cbn [includedLoop fmap list_fmap].
    - rewrite bool_decide_eq_false_2; [done|]. intros He; inversion He.
    - assert (IPString (addr x) = show_run (addr := addr) (x, x)) as Hs by (unfold show_run; simpl; by rewrite decide_True).
      rewrite Hs at 1. rewrite IsIPRangeOverlap_runs by (repeat constructor; simpl; lia || tauto).
      cbn [obind fst snd]. destruct (decide (x <= r.2 ∧ r.1 <= x)) as [Hc|Hc].
      + rewrite (bool_decide_eq_true_2 (x <= r.2 ∧ _)) by done.
        by rewrite bool_decide_eq_true_2 by (apply Exists_cons; left; lia).
      + rewrite (bool_decide_eq_false_2 (x <= r.2 ∧ _)), IH by done. f_equal. apply bool_decide_ext.
        rewrite Exists_cons. split; [by right|]. intros [?|?]; [lia|done]. }
  f_equal. apply bool_decide_ext. rewrite !Exists_exists. apply Hcov.
Qed.
End merge.

Lemma IsIPIncludedRange_membership_witness :
  IsIPIncludedRange (H := map_order_id) IPv4 (IPString (addr4 (2 ^ 24 + 5)))
    (show_run (addr := addr4) <$> [(2 ^ 24 + 4, 2 ^ 24 + 9); (2 ^ 24 + 1, 2 ^ 24 + 4)]) = Ret true ∧
  show_run (addr := addr4) (2 ^ 24 + 4, 2 ^ 24 + 9) = "1.0.0.4-1.0.0.9".
Proof.
  split; [|vm_compute; reflexivity].
  pose proof (IsIPIncludedRange_membership (H := map_order_id) (F := family4) (2 ^ 24 + 5)
    [(2 ^ 24 + 4, 2 ^ 24 + 9); (2 ^ 24 + 1, 2 ^ 24 + 4)]) as Hm.
  rewrite Hm; [vm_compute; reflexivity|lia|]. repeat constructor; simpl; lia.
Defined.



(** ** Ranges on which the expansion never ends *)

Lemma rangeLoop_nil fuel end_ acc : valid_ip end_ → rangeLoop fuel [] end_ acc = Timeout.
Proof.
  intros Hv. assert (Cmp [] end_ <= 0) as Hc.
  { unfold Cmp. change (ipToInt []) with 0. assert (0 <= ipToInt end_).
    { unfold ipToInt. assert (Forall is_byte (To16 end_)) by by apply valid_To16.
      assert (Forall is_byte (To4 end_)).
      { destruct Hv as [_ Hb]. unfold To4. repeat case_decide; [done|by apply Forall_drop|constructor]. }
      case_decide; by apply setBytes_bound. }
    destruct (Z.compare_spec 0 (ipToInt end_)); lia. }
  revert acc. induction fuel as [|fuel IH]; intros acc; cbn [rangeLoop]; rewrite decide_True by done; [done|].
  change (NextIP []) with (@nil Z). apply IH.
Qed.

Lemma intToIP_small n : 0 < n < 2 ^ 24 → intToIP n = [].
Proof.
  intros Hn. unfold intToIP. assert (∃ k, (k = 1 ∨ k = 2 ∨ k = 3)%nat ∧ 256 ^ (Z.of_nat k - 1) <= n < 256 ^ Z.of_nat k)
    as (k & Hk & Hb).
  { destruct (decide (n < 256)); [exists 1%nat; simpl; lia|].
    destruct (decide (n < 256 ^ 2)); [exists 2%nat; simpl; lia|exists 3%nat; simpl; lia]. }
  rewrite (bigBytes_toBytes 17 k) by lia. unfold To16. rewrite length_toBytes.
  by rewrite !decide_False by lia.
Qed.

(** The address after 255.255.255.255, and every successor below
    1.0.0.0, is nil for [NextIP]; so the loop of [ParseIPRange] on a
    well-formed IPv4 range that ends at 255.255.255.255, or has two or more
    addresses and starts below 0.255.255.255, never ends: no number of turns
    is enough. *)
Theorem ParseIPRange_never_ends fuel x y acc :
  0 <= x <= y → y <= 2 ^ 32 - 1 → y = 2 ^ 32 - 1 ∨ (x < 2 ^ 24 - 1 ∧ x < y) →
  IsIPRange IPv4 (show_run (addr := addr4) (2 ^ 24, 2 ^ 32 - 1)) = Ret tt ∧
  rangeLoop fuel (addr4 x) (addr4 y) acc = Timeout.
Proof.
  intros Hx Hy Hcase. split; [vm_compute; reflexivity|].
  assert (∀ fuel acc, rangeLoop fuel [] (addr4 y) acc = Timeout) as Hnil.
  { intros. apply rangeLoop_nil. destruct (addr4_bytes y). split; [by right|done]. }
  assert (∀ z, 0 <= z <= y → Cmp (addr4 z) (addr4 y) <= 0) as Hcmp.
  { intros z Hz. unfold Cmp. rewrite !ipToInt_addr4 by lia. destruct (Z.compare_spec z y); lia. }
  revert x acc Hx Hcase. induction fuel as [|fuel IH]; intros x acc Hx Hcase; cbn [rangeLoop];
    rewrite decide_True by (apply Hcmp; lia); [done|].
  destruct (decide (x < 2 ^ 24 - 1)) as [Hlow|Hlow].
  - assert (NextIP (addr4 x) = []) as ->; [|apply Hnil].
    unfold NextIP. rewrite ipToInt_addr4 by lia. apply intToIP_small. lia.
  - assert (y = 2 ^ 32 - 1) as Hend by lia. destruct (decide (x = y)) as [->|Hne].
    + rewrite Hend. change (NextIP (addr4 (2 ^ 32 - 1))) with (@nil Z). rewrite <- Hend. apply Hnil.
    + unfold NextIP. rewrite ipToInt_addr4, intToIP_4 by lia. apply IH; lia.
Qed.

Lemma ParseIPRange_never_ends_witness :
  rangeLoop 1000 (ParseIP "255.255.255.250") (ParseIP "255.255.255.255") [] = Timeout ∧
  ParseIPRange IPv4 "255.255.255.250-255.255.255.255" = Timeout.
Proof.
  split; [|vm_compute; reflexivity].
  assert (ParseIP "255.255.255.250" = addr4 (2 ^ 32 - 6)) as -> by (vm_compute; reflexivity).
  assert (ParseIP "255.255.255.255" = addr4 (2 ^ 32 - 1)) as -> by (vm_compute; reflexivity).
  apply (ParseIPRange_never_ends 1000 (2 ^ 32 - 6) (2 ^ 32 - 1)); lia.
Defined.

(** ** [incrementIP] *)

Lemma incrementRev_spec l : Forall is_byte l →
  setBytes (reverse (incrementRev l)) = (setBytes (reverse l) + 1) mod 256 ^ Z.of_nat (length l) ∧
  length (incrementRev l) = length l ∧ Forall is_byte (incrementRev l).
Proof.
  induction 1 as [|b l Hb Hl IH]; [done|]. destruct IH as (IH & IHl & IHb). cbn [incrementRev].
  unfold is_byte in Hb. rewrite reverse_cons, setBytes_app. change (256 ^ Z.of_nat (length [b])) with 256.
  pose proof (setBytes_bound (reverse l)) as Hr. rewrite Forall_reverse, length_reverse in Hr. specialize (Hr Hl).
  cbn [length]. rewrite Nat2Z.inj_succ, Z.pow_succ_r by lia.
  assert (∀ c, setBytes [c] = c) as Hc by (intros c; unfold setBytes; simpl; lia). rewrite Hc.
  set (s := setBytes (reverse l)) in *. set (p := 256 ^ Z.of_nat (length l)) in *.
  destruct (decide (b = 255)) as [->|Hne].
  - change ((255 + 1) mod 256) with 0. cbv zeta. rewrite (proj2 (Z.ltb_ge 0 0)) by lia.
    rewrite reverse_cons, setBytes_app, Hc, IH. change (256 ^ Z.of_nat (length [0])) with 256. split_and!.
    + rewrite <- Z.add_assoc. change (255 + 1) with 256. replace (s * 256 + 256) with (256 * (s + 1)) by lia.
      rewrite Z.mul_mod_distr_l by (unfold p; lia). lia.
    + cbn [length]. by rewrite IHl.
    + constructor; [unfold is_byte; lia|done].
  - rewrite Z.mod_small by lia. destruct (Z.ltb_spec 0 (b + 1)); [|lia].
    rewrite reverse_cons, setBytes_app, Hc. change (256 ^ Z.of_nat (length [b + 1])) with 256. split_and!.
    + fold s. rewrite (Z.mod_small (s * 256 + b + 1)) by nia. lia.
    + done.
    + constructor; [unfold is_byte; lia|done].
Qed.

(** [incrementIP], which carries byte by byte in place, adds one to the
    address read as a big-endian integer, wrapping to zero after the last
    address, and keeps the length of the address. *)
Theorem incrementIP_adds_one ip : Forall is_byte ip →
  setBytes (incrementIP ip) = (setBytes ip + 1) mod 256 ^ Z.of_nat (length ip) ∧
  length (incrementIP ip) = length ip ∧ Forall is_byte (incrementIP ip).
Proof.
  intros Hb. unfold incrementIP. destruct (incrementRev_spec (reverse ip)) as (H1 & H2 & H3).
  { by apply Forall_reverse. }
  rewrite H1, reverse_involutive, !length_reverse, Forall_reverse, H2, length_reverse. done.
Qed.

Lemma incrementIP_adds_one_witness :
  setBytes (incrementIP [10; 0; 255; 255]) = setBytes [10; 1; 0; 0] ∧ incrementIP [255; 255] = [0; 0].
Proof.
  split; [|vm_compute; reflexivity].
  destruct (incrementIP_adds_one [10; 0; 255; 255]) as [H _]; [|rewrite H; vm_compute; reflexivity].
  repeat constructor; unfold is_byte; lia.
Defined.

(** ** What the expansions produce are addresses *)

Lemma bigBytes_bytes fuel n : Forall is_byte (bigBytes fuel n).
Proof.
  revert n. induction fuel as [|fuel IH]; intros n; simpl; [constructor|].
  destruct (n <=? 0); [constructor|]. apply Forall_app. split; [apply IH|].
  constructor; [|constructor]. unfold is_byte. apply Z.mod_pos_bound. lia.
Qed.

Lemma intToIP_addr_or_nil n : addr_or_nil (intToIP n).
Proof.
  pose proof (bigBytes_bytes 17 n) as Hb. unfold intToIP, addr_or_nil, To16.
  case_decide as H4; [right|case_decide as H16; [right; split; auto|by left]].
  assert (valid_ip (bigBytes 17 n)) as Hv by (split; auto).
  apply valid_To16 in Hv as [Hl Hv]. unfold To16 in Hl, Hv. rewrite decide_True in Hl, Hv by done.
  split; auto.
Qed.

Lemma rangeLoop_addr_or_nil fuel cur end_ acc ips :
  addr_or_nil cur → Forall addr_or_nil acc → rangeLoop fuel cur end_ acc = Ret ips → Forall addr_or_nil ips.
Proof.
  revert cur acc. induction fuel as [|fuel IH]; intros cur acc Hc Ha; cbn [rangeLoop]; case_decide; try done;
    try (by intros [= <-]).
  apply IH; [apply intToIP_addr_or_nil|]. apply Forall_app. split; [done|]. apply Forall_cons. split; [done|apply Forall_nil_2].
Qed.

Lemma ParseIPRange_addr_or_nil version r ips : ParseIPRange version r = Ret ips → Forall addr_or_nil ips.
Proof.
  unfold ParseIPRange. intros Hr. inv_ret. destruct (Split r "-") as [|x [|y [|]]]; simplify_eq; try apply Forall_nil_2.
  - apply Forall_cons. split; [apply ParseIP_addr_or_nil|apply Forall_nil_2].
  - eapply rangeLoop_addr_or_nil; [apply ParseIP_addr_or_nil|constructor|done].
Qed.

Lemma ParseIPRanges_addr_or_nil version rs ips : ParseIPRanges version rs = Ret ips → Forall addr_or_nil ips.
Proof.
  revert ips. induction rs as [|r rs IH]; intros ips.
  - intros [= <-]. constructor.
  - rewrite ParseIPRanges_cons. intros Hr. inv_ret. apply Forall_app. split; eauto using ParseIPRange_addr_or_nil.
Qed.
