(* ===== verification/IPAllocator.v ===== *)
(** * Ranges of tunnel addresses ([vendor/github.com/cilium/ipam/service/ipallocator])

    A range hands out the addresses of a CIDR block but the first and the last
    one.  An address is counted from the base, the second address of the block,
    as an offset into the allocation bitmap; addresses are compared as 128-bit
    numbers. *)

From S2P Require Import Prelude GoStd Allocator GoNet IPUtil Pool.
Open Scope Z_scope.

Definition ErrIPFull : error := ErrNew "range is full".
Definition ErrIPAllocated : error := ErrNew "provided IP is already allocated".
Definition ErrIPNotInRange : error := ErrNew "provided IP is not in the valid range".

(** ** Arithmetic on addresses *)

Definition bigForIP (ip : IP) : Z := setBytes (To16 ip).

(** Sixteen zero bytes are put in front and the last sixteen bytes kept. *)
Definition addIPOffset (base offset : Z) : IP :=
  let r := replicate 16 0 ++ bigBytes 17 (base + offset) in drop (length r - 16) r.

Definition calculateIPOffset (base : Z) (ip : IP) : Z := toInt64 (bigForIP ip - base).

(** [IPMask.Size] of a mask that is a run of ones followed by zeros. *)
Definition IPRangeSize (subnet : IPNet) : Z :=
  let ones := maskOnes (net_Mask subnet) in
  let bits := 8 * Z.of_nat (length (net_Mask subnet)) in
  if ((bits =? 32) && (31 <=? bits - ones)) || ((bits =? 128) && (127 <=? bits - ones)) then 0
  else if (bits =? 128) && (16 <=? bits - ones) then 2 ^ 16
  else 2 ^ (bits - ones).

Definition maximum (a b : Z) : Z := if b <? a then a else b.

(** ** The range *)

Record IPRange (T : Type) := mkIPRange {
  ir_net : IPNet;
  ir_base : Z;
  ir_max : Z;
  ir_alloc : T
}.
Arguments mkIPRange {T} _ _ _ _.
Arguments ir_net {T} _.
Arguments ir_base {T} _.
Arguments ir_max {T} _.
Arguments ir_alloc {T} _.

Definition NewCIDRRange (cidr : IPNet) : IPRange AllocationBitmap :=
  let max := maximum 0 (IPRangeSize cidr - 2) in
  mkIPRange cidr (bigForIP (net_IP cidr) + 1) max (NewAllocationMap max).

Section range.
Context {T : Type} `{AllocLaws T}.
Implicit Types r : IPRange T.

Definition withIPAlloc r (a : T) : IPRange T := mkIPRange (ir_net r) (ir_base r) (ir_max r) a.

Definition ipContains r (ip : IP) : bool * Z :=
  if negb (NetContains (ir_net r) ip) then (false, 0)
  else
    let offset := calculateIPOffset (ir_base r) ip in
    if (offset <? 0) || (ir_max r <=? offset) then (false, 0) else (true, offset).

Definition IPAllocate (ip : IP) r : outcome (IPRange T) :=
  let (ok, offset) := ipContains r ip in
  if negb ok then Err ErrIPNotInRange
  else
    let! (allocated, a) := alloc_Allocate offset (ir_alloc r) in
    if negb allocated then Err ErrIPAllocated else Ret (withIPAlloc r a).

Definition IPAllocateNext r : outcome (IP * IPRange T) :=
  let! (offset, ok, a) := alloc_AllocateNext (ir_alloc r) in
  if negb ok then Err ErrIPFull
  else Ret (addIPOffset (ir_base r) offset, withIPAlloc r a).

Definition IPRelease (ip : IP) r : outcome (IPRange T) :=
  let (ok, offset) := ipContains r ip in
  if negb ok then Ret r
  else let! a := alloc_Release offset (ir_alloc r) in Ret (withIPAlloc r a).

Definition IPHas (ip : IP) r : outcome bool :=
  let (ok, offset) := ipContains r ip in
  if negb ok then Ret false else alloc_Has offset (ir_alloc r).

#[export] Instance ip_pool : PoolOps (IPRange T) IP := {
  pAllocate := IPAllocate; pAllocateNext := IPAllocateNext; pRelease := IPRelease
}.

(** ** Invariant and abstraction *)

(** The number an address stands for. *)
Definition ipValue (ip : IP) : option Z := if decide (To16 ip = []) then None else Some (bigForIP ip).

(** The addresses of a range lie in its block.  The distance of an address of
    the block from the base fits 64 bits: as an [int64] it is right or, when it
    is too large, negative, so that the address is refused either way. *)
Record iprange_wf r : Prop := {
  iw_alloc : alloc_wf (ir_alloc r);
  iw_cap : cap (ir_alloc r) = ir_max r;
  iw_base : 0 < ir_base r;
  iw_max : ir_base r + ir_max r <= 2 ^ 128;
  iw_net : ∀ ip, valid_ip ip → ir_base r <= bigForIP ip < ir_base r + ir_max r → NetContains (ir_net r) ip = true;
  iw_int : ir_max r <= 2 ^ 63;
  iw_width : ∀ ip, valid_ip ip → NetContains (ir_net r) ip = true → - 2 ^ 63 <= bigForIP ip - ir_base r < 2 ^ 64
}.

Definition ipInside r (v : Z) : Prop := ir_base r <= v < ir_base r + ir_max r.
#[export] Instance ipInside_dec r v : Decision (ipInside r v).
Proof. unfold ipInside. apply _. Defined.
Definition addresses r : gset Z := set_map (λ i, ir_base r + i) (items (ir_alloc r)).

Lemma elem_of_addresses r v : v ∈ addresses r ↔ v - ir_base r ∈ items (ir_alloc r).
Proof.
  unfold addresses. rewrite elem_of_map. split.
  - intros (i & -> & Hi). by replace (ir_base r + i - ir_base r) with i by lia.
  - intros Hi. exists (v - ir_base r). split; [lia|done].
Qed.

Lemma ipValue_valid ip : valid_ip ip → ipValue ip = Some (bigForIP ip).
Proof using.
  clear. intros Hv. unfold ipValue. rewrite decide_False; [done|]. destruct (valid_To16 ip Hv) as [Hl _].
  by destruct (To16 ip).
Qed.

Lemma NetContains_nil n : NetContains n [] = false.
Proof using.
  clear. unfold NetContains. simpl. case_decide as Hd; [done|]. exfalso. apply Hd.
  destruct (decide (To4 (net_IP n) = [])) as [H4|H4].
  - destruct (net_IP n) as [|x l] eqn:E; [|right; done]. left. simpl.
    destruct (decide (length (net_Mask n) = 16%nat ∧ 0%nat = 4%nat)) as [[_ ?]|]; [done|].
    destruct (decide (length (net_Mask n) = 0%nat)); [done|done].
  - right. destruct (To4 (net_IP n)); [done|]. done.
Qed.

Lemma ipContains_spec r ip : iprange_wf r → addr_or_nil ip →
  ipContains r ip = match ipValue ip with
                    | Some v => if decide (ipInside r v) then (true, v - ir_base r) else (false, 0)
                    | None => (false, 0)
                    end.
Proof.
  intros [Ha Hc Hb Hm Hn Hint Hw] Hip. unfold ipContains, calculateIPOffset.
  destruct Hip as [->|Hv]; [by rewrite NetContains_nil|].
  rewrite ipValue_valid by done. specialize (Hn ip Hv). specialize (Hw ip Hv). unfold ipInside.
  destruct (NetContains (ir_net r) ip) eqn:Hnc; simpl.
  - specialize (Hw eq_refl). destruct (decide (bigForIP ip - ir_base r < 2 ^ 63)) as [Hs|Hs].
    2: { assert (toInt64 (bigForIP ip - ir_base r) < 0) as Hneg.
         { unfold toInt64. rewrite Z.mod_small by lia. destruct (Z.ltb_spec (bigForIP ip - ir_base r) (2 ^ 63)); lia. }
         apply Z.ltb_lt in Hneg. rewrite Hneg. cbn [orb]. by rewrite decide_False by lia. }
    rewrite toInt64_small by lia.
    destruct (Z.ltb_spec (bigForIP ip - ir_base r) 0), (Z.leb_spec (ir_max r) (bigForIP ip - ir_base r)); cbn [orb];
      (rewrite decide_True by lia; done) || (rewrite decide_False by lia; done).
  - rewrite decide_False; [done|]. intros Hi. by specialize (Hn Hi).
Qed.

Lemma addIPOffset_spec base offset : 0 < base + offset < 2 ^ 128 →
  valid_ip (addIPOffset base offset) ∧ bigForIP (addIPOffset base offset) = base + offset.
Proof using.
  clear. intros Hn. assert (addIPOffset base offset = toBytes 16 (base + offset)) as ->.
  2: { split; [split; [right; apply length_toBytes|apply toBytes_bytes]|].
       unfold bigForIP. rewrite To16_16 by apply length_toBytes. apply setBytes_toBytes. simpl. lia. }
  unfold addIPOffset. set (n := base + offset) in *.
  assert (∃ k : nat, (1 <= k <= 16)%nat ∧ 256 ^ (Z.of_nat k - 1) <= n < 256 ^ Z.of_nat k) as (k & Hk & Hb).
  { exists (S (Z.to_nat (Z.log2 n / 8))). pose proof (Z.log2_spec n ltac:(lia)) as [Hlo Hhi].
    assert (Z.log2 n < 128) by (apply Z.log2_lt_pow2; lia). pose proof (Z.log2_nonneg n).
    assert (0 <= Z.log2 n / 8 < 16) by (split; [apply Z.div_pos; lia|apply Z.div_lt_upper_bound; lia]).
    split; [lia|]. rewrite Nat2Z.inj_succ, Z2Nat.id by lia.
    pose proof (Z.div_mod (Z.log2 n) 8 ltac:(lia)) as Hdm. pose proof (Z.mod_pos_bound (Z.log2 n) 8 ltac:(lia)).
    change 256 with (2 ^ 8). rewrite <- !Z.pow_mul_r by lia. split.
    - transitivity (2 ^ Z.log2 n); [|done]. apply Z.pow_le_mono_r; lia.
    - eapply Z.lt_le_trans; [exact Hhi|]. apply Z.pow_le_mono_r; lia. }
  rewrite (bigBytes_toBytes 17 k n) by (done || lia).
  rewrite length_app, length_replicate, length_toBytes. replace (16 + k - 16)%nat with k by lia.
  rewrite drop_app_le by (rewrite length_replicate; lia). rewrite drop_replicate.
  assert (Forall is_byte (replicate (16 - k) 0 ++ toBytes k n)) as Hf.
  { apply Forall_app. split; [apply Forall_replicate; unfold is_byte; lia|apply toBytes_bytes]. }
  apply toBytes_setBytes in Hf. rewrite length_app, length_replicate, length_toBytes in Hf.
  replace (16 - k + k)%nat with 16%nat in Hf by lia. rewrite <- Hf at 1. f_equal.
  rewrite setBytes_app, length_toBytes, setBytes_toBytes by lia.
  assert (∀ m, setBytes (replicate m 0) = 0) as ->; [|lia].
  intros m. induction m as [|m IH]; [done|]. rewrite replicate_S_end, setBytes_snoc. lia.
Qed.

(** *** Changes of the underlying allocator *)

Lemma ipInside_offset r v : iprange_wf r → ipInside r v → 0 <= v - ir_base r < cap (ir_alloc r).
Proof. intros [] ?. unfold ipInside in *. lia. Qed.

Lemma iprange_wf_with r a : iprange_wf r → alloc_wf a → cap a = cap (ir_alloc r) → iprange_wf (withIPAlloc r a).
Proof. intros [] ? ?. constructor; simpl; try done; congruence. Qed.

Lemma addresses_insert r a v :
  items a = {[v - ir_base r]} ∪ items (ir_alloc r) → addresses (withIPAlloc r a) = {[v]} ∪ addresses r.
Proof.
  intros Ha. apply set_eq. intros w. rewrite elem_of_union, elem_of_singleton, !elem_of_addresses. simpl.
  rewrite Ha, elem_of_union, elem_of_singleton. split; intros [?|?]; auto; left; lia.
Qed.

Lemma IPAllocate_law k r : iprange_wf r → addr_or_nil k →
  match IPAllocate k r with
  | Ret r' => iprange_wf r' ∧ (∀ v, ipInside r' v ↔ ipInside r v) ∧
      ∃ v, ipValue k = Some v ∧ (v ∉ addresses r) ∧ addresses r' = {[v]} ∪ addresses r
  | Err _ => ∀ v, ipValue k = Some v → ipInside r v → v ∈ addresses r
  | _ => False
  end.
Proof.
  intros Hwf Hk. unfold IPAllocate. rewrite ipContains_spec by done.
  destruct (ipValue k) as [v|]; [|done]. destruct (decide (ipInside r v)) as [Hin|Hout]; [|simpl; naive_solver].
  cbn [negb]. destruct (decide (v ∈ addresses r)) as [Hu|Hf].
  - rewrite Allocate_taken; [|by apply iw_alloc|by apply elem_of_addresses]. simpl. by intros ? [= <-].
  - destruct (Allocate_free (ir_alloc r) (v - ir_base r)) as (a & Ha & Hwfa & Hcap & Hitems);
      [by apply iw_alloc|by apply ipInside_offset|by rewrite <- elem_of_addresses|].
    rewrite Ha. simpl. split_and!; [by apply iprange_wf_with|done|]. exists v. split_and!; [done|done|].
    by apply addresses_insert.
Qed.

Lemma IPAllocateNext_law r : iprange_wf r →
  match IPAllocateNext r with
  | Ret (k, r') => addr_or_nil k ∧ iprange_wf r' ∧ (∀ v, ipInside r' v ↔ ipInside r v) ∧
      ∃ v, ipValue k = Some v ∧ (v ∉ addresses r) ∧ addresses r' = {[v]} ∪ addresses r
  | Err _ => ∀ v, ipInside r v → v ∈ addresses r
  | _ => False
  end.
Proof.
  intros Hwf. unfold IPAllocateNext.
  destruct (decide (Exists (λ i, i ∉ items (ir_alloc r)) (seqZ 0 (cap (ir_alloc r)))))
    as [(j & Hj & Hf)%Exists_exists|Hno].
  - apply elem_of_seqZ in Hj.
    destruct (AllocateNext_free (ir_alloc r) j) as (i & a & Ha & Hwfa & Hcap & Hi & Hni & Hitems);
      [by apply iw_alloc|lia|done|].
    rewrite Ha. cbn [obind negb]. pose proof Hwf as [].
    destruct (addIPOffset_spec (ir_base r) i) as [Hv Hb]; [lia|].
    split_and!; [by right|by apply iprange_wf_with|done|]. exists (ir_base r + i).
    rewrite ipValue_valid, Hb by done. split_and!; [done| |].
    + rewrite elem_of_addresses. by replace (ir_base r + i - ir_base r) with i by lia.
    + apply addresses_insert. rewrite Hitems. do 2 f_equal. lia.
  - assert (∀ i, 0 <= i < cap (ir_alloc r) → i ∈ items (ir_alloc r)) as Hall.
    { intros i Hi. destruct (decide (i ∈ items (ir_alloc r))); [done|]. destruct Hno.
      apply Exists_exists. exists i. split; [apply elem_of_seqZ; lia|done]. }
    rewrite AllocateNext_full by (done || by apply iw_alloc). simpl.
    intros v Hv. apply elem_of_addresses, Hall. by apply ipInside_offset.
Qed.

Lemma IPRelease_law k r : iprange_wf r → addr_or_nil k →
  match IPRelease k r with
  | Ret r' => iprange_wf r' ∧ (∀ v, ipInside r' v ↔ ipInside r v) ∧
      ∀ v, v ∈ addresses r' ↔ v ∈ addresses r ∧ ipValue k ≠ Some v
  | Err _ => True
  | _ => False
  end.
Proof.
  intros Hwf Hk. unfold IPRelease. rewrite ipContains_spec by done.
  assert (Hb : ∀ w, w ∈ addresses r → ipInside r w).
  { intros w Hw. apply elem_of_addresses, items_bound in Hw; [|by apply iw_alloc]. destruct Hwf. unfold ipInside. lia. }
  destruct (ipValue k) as [v|]; [|simpl; naive_solver]. destruct (decide (ipInside r v)) as [Hin|Hout].
  - destruct (Release_law (ir_alloc r) (v - ir_base r)) as (a & Ha & Hwfa & Hcap & Hitems);
      [by apply iw_alloc|by apply ipInside_offset|].
    cbn [negb]. rewrite Ha. simpl. split_and!; [by apply iprange_wf_with|done|]. intros w.
    rewrite !elem_of_addresses. simpl. rewrite Hitems, elem_of_difference, elem_of_singleton.
    split; intros [? Hn]; (split; [done|]); [intros [= ->]; by apply Hn|intros Heq; apply Hn; f_equal; lia].
  - simpl. split_and!; [done|done|]. intros w. split; [|by intros [? _]]. intros Hw. split; [done|].
    intros [= ->]. by apply Hout, Hb.
Qed.

#[export] Instance ip_pool_laws : PoolLaws (IPRange T) IP := {
  taken := addresses; value := ipValue; key_ok := addr_or_nil; fits := ipInside; pool_wf := iprange_wf;
  pAllocate_law := IPAllocate_law; pAllocateNext_law := IPAllocateNext_law; pRelease_law := IPRelease_law
}.
End range.

(** ** The range of a CIDR block *)

Lemma land_mask b j : is_byte b → 0 <= j <= 8 → Z.land b (256 - 2 ^ j) = b - b mod 2 ^ j.
Proof.
  intros Hb Hj. assert (j ∈ seqZ 0 9) as Hin by (apply elem_of_seqZ; lia).
  revert b Hb. apply byte_ind. clear Hj. revert j Hin. rewrite <- Forall_forall. apply (bool_decide_unpack _). vm_compute. exact I.
Qed.

Lemma CIDRMask_cons ones n : CIDRMask ones (S n) = maskByte ones 0 :: CIDRMask (ones - 8) n.
Proof.
  unfold CIDRMask. cbn [seq fmap list_fmap]. f_equal. rewrite <- fmap_S_seq, <- list_fmap_compose.
  apply list_fmap_ext. intros i x _. unfold maskByte. simpl. do 2 f_equal. lia.
Qed.

Lemma setBytes_cons b l : setBytes (b :: l) = b * 256 ^ Z.of_nat (length l) + setBytes l.
Proof. change (b :: l) with ([b] ++ l). rewrite setBytes_app. done. Qed.

Lemma land_zeros l ones n : length l = n → ones <= 0 → setBytes (zip_with Z.land l (CIDRMask ones n)) = 0.
Proof.
  revert ones n. induction l as [|b l IH]; intros ones n Hl Ho; [done|]. destruct n as [|n]; [done|].
  rewrite CIDRMask_cons. cbn [zip_with]. rewrite setBytes_cons, IH by (simpl in Hl; lia).
  unfold maskByte. replace (Z.max 0 (Z.min 8 (ones - 8 * Z.of_nat 0))) with 0 by lia.
  change (256 - 2 ^ (8 - 0)) with 0. rewrite Z.land_0_r. lia.
Qed.

Lemma mod_block a P Q s : 0 < P → 0 < Q → 0 <= s < P → (a * P + s) mod (Q * P) = (a mod Q) * P + s.
Proof.
  intros HP HQ Hs. pose proof (Z.div_mod a Q ltac:(lia)) as Hd. pose proof (Z.mod_pos_bound a Q HQ).
  symmetry. apply (Z.mod_unique _ _ (a / Q)); [left; nia|]. nia.
Qed.

(** Masking a sequence of bytes clears its last bits. *)
Lemma land_CIDRMask l ones n : Forall is_byte l → length l = n → 0 <= ones <= 8 * Z.of_nat n →
  setBytes (zip_with Z.land l (CIDRMask ones n)) = setBytes l - setBytes l mod 2 ^ (8 * Z.of_nat n - ones).
Proof.
  revert ones n. induction l as [|b l IH]; intros ones n Hb Hl Ho; [by subst|]. destruct n as [|n]; [done|].
  apply Forall_cons in Hb as [Hb Hbs]. simpl in Hl. injection Hl as Hl.
  pose proof (setBytes_bound l Hbs) as Hs. rewrite Hl in Hs.
  assert (length (zip_with Z.land l (CIDRMask (ones - 8) n)) = n) as Hlz.
  { rewrite length_zip_with. unfold CIDRMask. rewrite length_fmap, length_seq. lia. }
  rewrite CIDRMask_cons. cbn [zip_with]. rewrite !setBytes_cons, Hlz, Hl. rewrite Nat2Z.inj_succ.
  set (P := 256 ^ Z.of_nat n) in *. assert (0 < P) by (apply Z.pow_pos_nonneg; lia).
  assert (HP : P = 2 ^ (8 * Z.of_nat n)) by (unfold P; change 256 with (2 ^ 8); by rewrite <- Z.pow_mul_r by lia).
  unfold maskByte. destruct (decide (8 <= ones)) as [H8|H8].
  - rewrite IH by (done || lia). replace (Z.max 0 (Z.min 8 (ones - 8 * Z.of_nat 0))) with 8 by lia.
    rewrite land_mask by (done || lia). change (2 ^ (8 - 8)) with 1. rewrite Z.mod_1_r.
    replace (8 * Z.succ (Z.of_nat n) - ones) with (8 * Z.of_nat n - (ones - 8)) by lia.
    assert (P = 2 ^ (ones - 8) * 2 ^ (8 * Z.of_nat n - (ones - 8))) as HPd.
    { rewrite <- Z.pow_add_r by lia. rewrite HP. f_equal. lia. }
    set (h := 2 ^ (8 * Z.of_nat n - (ones - 8))) in *. assert (0 < h) by (apply Z.pow_pos_nonneg; lia).
    rewrite HPd at 3. rewrite Z.mul_assoc, (Z.add_comm (_ * h)), Z.mod_add by lia. lia.
  - rewrite land_zeros by (done || lia). replace (Z.max 0 (Z.min 8 (ones - 8 * Z.of_nat 0))) with ones by lia.
    rewrite land_mask by (done || lia).
    replace (8 * Z.succ (Z.of_nat n) - ones) with ((8 - ones) + 8 * Z.of_nat n) by lia.
    rewrite Z.pow_add_r, <- HP by lia. rewrite mod_block by (done || apply Z.pow_pos_nonneg; lia). lia.
Qed.

Lemma masked_bytes l m : Forall is_byte l → Forall is_byte m → Forall is_byte (zip_with Z.land l m).
Proof.
  revert m. induction l as [|b l IH]; intros m Hl Hm; [apply Forall_nil_2|]. destruct m as [|c m]; [apply Forall_nil_2|].
  apply Forall_cons in Hl as [Hb Hl], Hm as [Hc Hm]. cbn [zip_with]. apply Forall_cons. split; [|by apply IH].
  unfold is_byte in *. rewrite Z.land_nonneg. split; [lia|].
  destruct (decide (Z.land b c = 0)); [lia|]. apply Z.log2_lt_pow2 with (b := 8); [|].
  - pose proof (proj2 (Z.land_nonneg b c) ltac:(lia)). lia.
  - eapply Z.le_lt_trans; [apply Z.log2_land; lia|]. apply Z.min_lt_iff. left.
    destruct (decide (b = 0)); [subst; done|]. apply Z.log2_lt_pow2; lia.
Qed.

Lemma CIDRMask_bytes ones n : Forall is_byte (CIDRMask ones n).
Proof.
  unfold CIDRMask. apply Forall_fmap, Forall_forall. intros i _. simpl. unfold maskByte, is_byte.
  set (k := Z.max 0 (Z.min 8 (ones - 8 * Z.of_nat i))). assert (0 <= 8 - k <= 8) as Hk by lia.
  pose proof (Z.pow_pos_nonneg 2 (8 - k) ltac:(lia) ltac:(lia)).
  pose proof (Z.pow_le_mono_r 2 (8 - k) 8 ltac:(lia) ltac:(lia)). lia.
Qed.

Lemma setBytes_inj l1 l2 : Forall is_byte l1 → Forall is_byte l2 → length l1 = length l2 →
  setBytes l1 = setBytes l2 → l1 = l2.
Proof. intros H1 H2 Hl He. rewrite <- (toBytes_setBytes l1), <- (toBytes_setBytes l2) by done. congruence. Qed.

(** A block: the first address [nn] and the mask have [n] bytes, and the last
    [8 * n - ones] bits of [nn] are zero. *)
Record block (net : IPNet) (n : nat) (ones : Z) : Prop := {
  bl_n : n = 4%nat ∨ n = 16%nat;
  bl_ones : 0 <= ones <= 8 * Z.of_nat n;
  bl_mask : net_Mask net = CIDRMask ones n;
  bl_len : length (net_IP net) = n;
  bl_bytes : Forall is_byte (net_IP net);
  bl_zero : setBytes (net_IP net) mod 2 ^ (8 * Z.of_nat n - ones) = 0
}.

Lemma zip_block ip ones n : Forall is_byte ip → length ip = n → 0 <= ones <= 8 * Z.of_nat n → n = 4%nat ∨ n = 16%nat →
  block (mkIPNet (zip_with Z.land ip (CIDRMask ones n)) (CIDRMask ones n)) n ones.
Proof.
  intros Hb Hl Ho Hn. split; simpl; try done.
  - rewrite length_zip_with. unfold CIDRMask. rewrite length_fmap, length_seq. lia.
  - apply masked_bytes; [done|apply CIDRMask_bytes].
  - rewrite land_CIDRMask by done. set (H := 2 ^ (8 * Z.of_nat n - ones)).
    assert (0 < H) by (apply Z.pow_pos_nonneg; lia).
    rewrite Zminus_mod, Z.mod_mod, Z.sub_diag by lia. apply Z.mod_0_l. lia.
Qed.

Lemma dtoi_nonneg s n v : 0 <= n → dtoi s n = Some v → 0 <= v.
Proof.
  revert n. induction s as [|c s IH]; intros n Hn; simpl; [by intros [= <-]|].
  destruct (decval c) as [d|] eqn:Hd; [|done]. apply decval_bound in Hd. destruct (_ <=? _); [done|]. apply IH. lia.
Qed.

Lemma IPMask_4 a m : length m = 4%nat → length a = 16%nat → take 12 a = v4InV6Prefix →
  IPMask a m = zip_with Z.land (drop 12 a) m.
Proof.
  intros Hm Ha Hp. unfold IPMask. destruct (decide (length m = 16%nat ∧ _)) as [[? _]|_]; [lia|].
  destruct (decide (length m = 4%nat ∧ _)) as [_|Hn]; [|by destruct Hn].
  destruct (decide _) as [Hx|]; [|done]. rewrite length_drop in Hx. lia.
Qed.
Lemma IPMask_16 a m : length m = 16%nat → length a = 16%nat → IPMask a m = zip_with Z.land a m.
Proof.
  intros Hm Ha. unfold IPMask. destruct (decide (length m = 16%nat ∧ _)) as [(_ & ? & _)|_]; [lia|].
  destruct (decide (length m = 4%nat ∧ _)) as [[? _]|_]; [lia|].
  destruct (decide _) as [Hx|]; [lia|done].
Qed.

Lemma ParseCIDR_block s ip net : ParseCIDR s = Some (ip, net) → ∃ n ones, block net n ones.
Proof.
  unfold ParseCIDR. destruct (splitOn _ _) as [|addr [|? ?]]; try done.
  destruct (ParseAddr addr) as [[is4 a]|] eqn:Ha; [|done]. pose proof (ParseAddr_valid _ _ _ Ha) as [Hl Hb].
  destruct (drop _ (chars s)) as [|c m] eqn:Em; [done|]. rewrite <- Em. destruct (dtoi _ 0) as [ones|] eqn:Ho; [|done].
  apply dtoi_nonneg in Ho; [|lia].
  assert (Hm : ∀ k, length (CIDRMask ones k) = k) by (intros k; unfold CIDRMask; by rewrite length_fmap, length_seq).
  destruct is4.
  - destruct (Z.ltb_spec (8 * Z.of_nat 4) ones); [done|]. intros [= <- <-]. exists 4%nat, ones.
    assert (take 12 a = v4InV6Prefix) as Hp.
    { unfold ParseAddr in Ha. destruct (addrFamily addr) as [[]|]; [|destruct (parseIPv6 addr); simplify_eq|done].
      destruct (parseIPv4Fields addr) as [f|]; simplify_eq. done. }
    rewrite IPMask_4 by done.
    apply zip_block; [by apply Forall_drop|rewrite length_drop; lia|lia|by left].
  - destruct (Z.ltb_spec (8 * Z.of_nat 16) ones); [done|]. intros [= <- <-]. exists 16%nat, ones.
    rewrite IPMask_16 by done.
    apply zip_block; [done|done|lia|by right].
Qed.

(** The bytes that [NetContains] looks at. *)
Definition shortForm (ip : IP) : IP := if decide (To4 ip = []) then ip else To4 ip.

(** What the sixteen-byte form adds to the number of a four-byte address. *)
Definition prefixOf (n : nat) : Z := if decide (n = 4%nat) then 0xffff * 2 ^ 32 else 0.

Lemma bigForIP_short ip n : valid_ip ip → length (shortForm ip) = n → n = 4%nat ∨ n = 16%nat →
  Forall is_byte (shortForm ip) ∧ bigForIP ip = prefixOf n + setBytes (shortForm ip).
Proof.
  intros [Hl Hb]. unfold shortForm, bigForIP, prefixOf, To4, To16. intros Hn Hn'.
  destruct (decide (length ip = 4%nat)) as [H4|H4].
  - rewrite decide_False in * by (by destruct ip). split; [done|]. rewrite decide_True by lia.
    rewrite setBytes_app, H4. reflexivity.
  - assert (length ip = 16%nat) as H16 by lia. rewrite (decide_True (P := length ip = 16%nat)) by done.
    destruct (decide (length ip = 16%nat ∧ take 12 ip = v4InV6Prefix)) as [[_ Hp]|Hp].
    + rewrite decide_False in * by (intros E; apply (f_equal length) in E; rewrite length_drop in E; simpl in E; lia).
      rewrite length_drop in Hn. split; [by apply Forall_drop|]. rewrite decide_True by lia.
      rewrite <- (take_drop 12 ip) at 1. rewrite setBytes_app, Hp, length_drop, H16. reflexivity.
    + rewrite decide_True in * by done. split; [done|]. rewrite decide_False by lia. done.
Qed.

Section block.
Context (net : IPNet) (n : nat) (ones : Z) (Hblock : block net n ones).
Let H := 2 ^ (8 * Z.of_nat n - ones).

Lemma block_pos : 0 < H.
Proof using Hblock. apply Z.pow_pos_nonneg; [lia|]. destruct Hblock. lia. Qed.

Lemma NetContains_block ip : (n = 16%nat → To4 (net_IP net) = []) → valid_ip ip →
  NetContains net ip = true ↔
  length (shortForm ip) = n ∧ setBytes (net_IP net) <= setBytes (shortForm ip) < setBytes (net_IP net) + H.
Proof using Hblock.
  intros Hnot Hv. pose proof block_pos as HH. destruct Hblock as [Hn Ho Hm Hl Hb Hz]. unfold NetContains.
  assert ((if decide (To4 (net_IP net) = []) then net_IP net else To4 (net_IP net)) = net_IP net) as ->.
  { destruct Hn as [Hn|Hn]; [|by rewrite Hnot]. unfold To4. rewrite (decide_True (P := length _ = 4%nat)) by congruence.
    by case_decide. }
  assert (length (CIDRMask ones n) = n) as Hlm by (unfold CIDRMask; by rewrite length_fmap, length_seq).
  rewrite Hm, Hlm, Hl. rewrite (decide_False (P := n = 16%nat ∧ n = 4%nat)) by lia. rewrite (decide_True (P := n = n)) by done.
  rewrite Hlm. fold (shortForm ip). destruct (decide (n = 0%nat ∨ length (shortForm ip) ≠ n)) as [Hx|Hx].
  { split; [done|]. intros [? _]. destruct Hx; lia. }
  assert (length (shortForm ip) = n) as Hs by lia. destruct (bigForIP_short ip n Hv Hs Hn) as [Hsb _].
  assert (length (zip_with Z.land (net_IP net) (CIDRMask ones n)) = length (zip_with Z.land (shortForm ip) (CIDRMask ones n))) as Hle
    by (rewrite !length_zip_with; lia).
  rewrite bool_decide_eq_true. trans (setBytes (zip_with Z.land (net_IP net) (CIDRMask ones n)) =
    setBytes (zip_with Z.land (shortForm ip) (CIDRMask ones n))).
  { split; [congruence|]. apply setBytes_inj; try done; apply masked_bytes; done || apply CIDRMask_bytes. }
  rewrite !land_CIDRMask by done. fold H in Hz |- *. rewrite Hz, Z.sub_0_r.
  pose proof (Z.mod_pos_bound (setBytes (shortForm ip)) H HH) as Hmod. split.
  - intros He. split; [done|]. lia.
  - intros [_ Hin]. enough (setBytes (shortForm ip) mod H = setBytes (shortForm ip) - setBytes (net_IP net)) by lia.
    symmetry. apply (Z.mod_unique _ _ (setBytes (net_IP net) / H)); [left; lia|].
    pose proof (Z.div_mod (setBytes (net_IP net)) H ltac:(lia)). lia.
Qed.
End block.

Lemma maskOnes_CIDRMask ones n : n = 4%nat ∨ n = 16%nat → 0 <= ones <= 8 * Z.of_nat n →
  maskOnes (CIDRMask ones n) = ones.
Proof.
  intros Hn Ho. assert (Forall (λ o, maskOnes (CIDRMask o 4) = o) (seqZ 0 33) ∧ Forall (λ o, maskOnes (CIDRMask o 16) = o) (seqZ 0 129))
    as [H4 H16] by (split; apply (bool_decide_unpack _); vm_compute; exact I).
  rewrite Forall_forall in H4, H16.
  destruct Hn as [-> | ->]; [apply H4|apply H16]; apply elem_of_seqZ; lia.
Qed.

(** The address of a block is not one in the IPv4-mapped range. *)
Definition plain (net : IPNet) : Prop := length (net_Mask net) = 16%nat → 2 ^ 120 <= bigForIP (net_IP net).
(** The block has at most [2 ^ 64] addresses: it is an IPv4 block, or an IPv6
    block of [/64] or more bits. *)
Definition narrow (net : IPNet) : Prop := 8 * Z.of_nat (length (net_Mask net)) - maskOnes (net_Mask net) <= 64.

(** The addresses to hand out: those of the block but its first and its last
    one; of an IPv6 block the first 65534 of them, and of an IPv4 block that is
    wider than [/2] none. *)
Definition usable (net : IPNet) (v : Z) : Prop :=
  let hosts := 8 * Z.of_nat (length (net_Mask net)) - maskOnes (net_Mask net) in
  bigForIP (net_IP net) < v < bigForIP (net_IP net) + 2 ^ hosts - 1 ∧
  if decide (length (net_Mask net) = 4%nat) then hosts <= 30 else v < bigForIP (net_IP net) + 65535.

Lemma To4_big ip : length ip = 16%nat → Forall is_byte ip → 2 ^ 120 <= setBytes ip → To4 ip = [].
Proof.
  intros Hl Hb Hv. pose proof (setBytes_bound ip Hb) as Hbd. rewrite Hl in Hbd. change (256 ^ Z.of_nat 16) with (2 ^ 128) in Hbd.
  rewrite <- (toBytes_setBytes ip Hb), Hl. apply (To4_addr6 (setBytes ip)). lia.
Qed.

Lemma short_of_value ip n : valid_ip ip → n = 4%nat ∨ n = 16%nat →
  (n = 4%nat → prefixOf 4 <= bigForIP ip < prefixOf 4 + 2 ^ 32) → (n = 16%nat → 2 ^ 120 <= bigForIP ip) →
  length (shortForm ip) = n.
Proof.
  intros [Hl Hb] Hn Hlo Hhi. unfold shortForm.
  destruct (decide (length ip = 4%nat)) as [H4|H4].
  - assert (To4 ip = ip) as -> by (unfold To4; by rewrite decide_True). case_decide; [by subst|].
    destruct Hn as [->| ->]; [done|]. exfalso. specialize (Hhi eq_refl). unfold bigForIP, To16 in Hhi.
    rewrite decide_True, setBytes_app, H4 in Hhi by done. pose proof (setBytes_bound ip Hb) as Hbd. rewrite H4 in Hbd.
    change (setBytes v4InV6Prefix * 256 ^ Z.of_nat 4) with (0xffff * 2 ^ 32) in Hhi. change (256 ^ Z.of_nat 4) with (2 ^ 32) in Hbd. lia.
  - assert (length ip = 16%nat) as H16 by lia. assert (bigForIP ip = setBytes ip) as Hbig by (unfold bigForIP; by rewrite To16_16).
    rewrite Hbig in Hlo, Hhi. destruct Hn as [-> | ->].
    + specialize (Hlo eq_refl). assert (take 12 ip = v4InV6Prefix) as Hp.
      { apply setBytes_inj; [by apply Forall_take|apply (bool_decide_unpack _); vm_compute; exact I|rewrite length_take, H16; done|].
        rewrite <- (take_drop 12 ip), setBytes_app, length_drop, H16 in Hlo.
        pose proof (setBytes_bound (drop 12 ip) (Forall_drop _ 12 _ Hb)) as Hd. rewrite length_drop, H16 in Hd.
        change (256 ^ Z.of_nat (16 - 12)) with (2 ^ 32) in *. change (setBytes v4InV6Prefix) with 0xffff.
        change (prefixOf 4) with (0xffff * 2 ^ 32) in Hlo. nia. }
      unfold To4. rewrite (decide_False (P := length ip = 4%nat)), (decide_True (P := length ip = 16%nat ∧ _)) by done.
      case_decide as Hx; [|by rewrite length_drop, H16]. apply (f_equal length) in Hx. rewrite length_drop, H16 in Hx. done.
    + rewrite To4_big by (done || by apply Hhi). by rewrite decide_True.
Qed.

Lemma IPRangeSize_le net n ones : block net n ones → 0 <= IPRangeSize net <= 2 ^ (8 * Z.of_nat n - ones).
Proof.
  intros Hbl. pose proof (block_pos net n ones Hbl) as HH. destruct Hbl as [Hn Ho Hm _ _ _]. unfold IPRangeSize.
  rewrite Hm, maskOnes_CIDRMask by done.
  replace (length (CIDRMask ones n)) with n by (unfold CIDRMask; by rewrite length_fmap, length_seq).
  repeat case_match; try lia. apply andb_true_iff in H0 as [_ H0%Z.leb_le]. split; [lia|]. apply Z.pow_le_mono_r; lia.
Qed.

Lemma IPRangeSize_small net n ones : block net n ones → IPRangeSize net <= 2 ^ 32.
Proof.
  intros Hbl. destruct Hbl as [Hn Ho Hm _ _ _]. unfold IPRangeSize. rewrite Hm, maskOnes_CIDRMask by done.
  replace (length (CIDRMask ones n)) with n by (unfold CIDRMask; by rewrite length_fmap, length_seq).
  destruct Hn as [-> | ->]; [change (8 * Z.of_nat 4) with 32|change (8 * Z.of_nat 16) with 128].
  - change (32 =? 32) with true. change (32 =? 128) with false. cbn [andb]. rewrite orb_false_r.
    destruct (31 <=? 32 - ones); [lia|]. apply Z.pow_le_mono_r; lia.
  - change (128 =? 32) with false. change (128 =? 128) with true. cbn [andb orb].
    destruct (127 <=? 128 - ones); [lia|]. destruct (Z.leb_spec 16 (128 - ones)); [lia|]. apply Z.pow_le_mono_r; lia.
Qed.

Lemma IPRangeSize_usable net n ones v : block net n ones → narrow net →
  bigForIP (net_IP net) < v < bigForIP (net_IP net) + IPRangeSize net - 1 ↔ usable net v.
Proof.
  intros Hbl. pose proof (block_pos net n ones Hbl) as HH. destruct Hbl as [Hn Ho Hm _ _ _]. unfold IPRangeSize, usable, narrow.
  rewrite Hm, maskOnes_CIDRMask by done.
  replace (length (CIDRMask ones n)) with n by (unfold CIDRMask; by rewrite length_fmap, length_seq).
  intros Hw. destruct Hn as [-> | ->]; [change (8 * Z.of_nat 4) with 32 in *|change (8 * Z.of_nat 16) with 128 in *].
  - change (32 =? 32) with true. change (32 =? 128) with false. cbn [andb]. rewrite orb_false_r, decide_True by done.
    destruct (Z.leb_spec 31 (32 - ones)); lia.
  - change (128 =? 32) with false. change (128 =? 128) with true. cbn [andb orb]. rewrite decide_False by done.
    destruct (Z.leb_spec 127 (128 - ones)); [lia|]. destruct (Z.leb_spec 16 (128 - ones)).
    + assert (2 ^ 16 <= 2 ^ (128 - ones)) by (apply Z.pow_le_mono_r; lia). lia.
    + assert (2 ^ (128 - ones) <= 2 ^ 15) by (apply Z.pow_le_mono_r; lia). lia.
Qed.

Lemma NewCIDRRange_wf `{Rand} s ip net : ParseCIDR s = Some (ip, net) → plain net → narrow net →
  iprange_wf (NewCIDRRange net) ∧ addresses (NewCIDRRange net) = ∅.
Proof.
  intros (n & ones & Hbl)%ParseCIDR_block Hp Hw.
  split; [|apply set_eq; intros v; rewrite elem_of_addresses; simpl; rewrite bits_NewAllocationMap; set_solver].
  pose proof (block_pos _ _ _ Hbl) as HH. pose proof (IPRangeSize_le _ _ _ Hbl) as Hsz. pose proof (NetContains_block _ _ _ Hbl) as Hnc.
  pose proof Hbl as [Hn Ho Hm Hl Hb Hz]. unfold plain, narrow in *.
  replace (length (net_Mask net)) with n in * by (rewrite Hm; unfold CIDRMask; by rewrite length_fmap, length_seq).
  rewrite Hm, maskOnes_CIDRMask in Hw by done. set (HB := 2 ^ (8 * Z.of_nat n - ones)) in *.
  assert (HB <= 2 ^ 64) by (apply Z.pow_le_mono_r; lia).
  assert (IPRangeSize net <= 2 ^ 63).
  { pose proof (IPRangeSize_small net n ones Hbl) as Hsm. change (2 ^ 63) with (2 ^ 32 * 2 ^ 31). lia. }
  assert (Hbig : bigForIP (net_IP net) = prefixOf n + setBytes (net_IP net)).
  { unfold bigForIP, To16, prefixOf. rewrite Hl. destruct Hn as [-> | ->].
    - rewrite !decide_True by done. rewrite setBytes_app, Hl. reflexivity.
    - rewrite (decide_False (P := 16%nat = 4%nat)), decide_True by done. done. }
  assert (Hnot : n = 16%nat → To4 (net_IP net) = []).
  { intros ->. apply To4_big; [done|done|]. rewrite Hbig in Hp. unfold prefixOf in Hp. simpl in Hp. by apply Hp. }
  specialize (λ ip, Hnc ip Hnot).
  pose proof (setBytes_bound _ Hb) as Hbd. rewrite Hl in Hbd.
  assert (Htop : setBytes (net_IP net) + HB <= 256 ^ Z.of_nat n).
  { pose proof (Z.div_mod (setBytes (net_IP net)) HB ltac:(lia)) as Hdm. rewrite Hz, Z.add_0_r in Hdm.
    assert (256 ^ Z.of_nat n = 2 ^ ones * HB) as HP.
    { unfold HB. change 256 with (2 ^ 8). rewrite <- Z.pow_mul_r, <- Z.pow_add_r by lia. f_equal. lia. }
    rewrite HP in Hbd |- *. set (q := setBytes (net_IP net) / HB) in *.
    assert (q < 2 ^ ones) by (apply (Z.mul_lt_mono_pos_r HB); lia). nia. }
  assert (Hpre : prefixOf n + 256 ^ Z.of_nat n <= 2 ^ 128) by (by destruct Hn as [-> | ->]; vm_compute).
  assert (0 <= prefixOf n) by (by destruct Hn as [-> | ->]; vm_compute).
  assert (Hmax : 0 <= maximum 0 (IPRangeSize net - 2) ∧ (maximum 0 (IPRangeSize net - 2) = 0 ∨ maximum 0 (IPRangeSize net - 2) <= HB - 2) ∧ maximum 0 (IPRangeSize net - 2) <= 2 ^ 63).
  { unfold maximum. destruct (Z.ltb_spec (IPRangeSize net - 2) 0); lia. }
  unfold NewCIDRRange. set (mx := maximum 0 (IPRangeSize net - 2)) in *.
  split; cbn [ir_alloc ir_max ir_base ir_net]; [apply NewAllocationMap_wf|done|lia|lia| |lia|].
  - intros x Hx Hin. rewrite Hbig in Hin. assert (length (shortForm x) = n) as Hs.
    { apply short_of_value; [done|done| |].
      - intros ->. change (256 ^ Z.of_nat 4) with (2 ^ 32) in *. lia.
      - intros ->. specialize (Hp eq_refl). lia. }
    apply Hnc; [done|]. split; [done|]. destruct (bigForIP_short x n Hx Hs Hn) as [_ Hv]. lia.
  - intros x Hx Hin. apply Hnc in Hin as [Hs Hin]; [|done]. destruct (bigForIP_short x n Hx Hs Hn) as [_ Hv]. lia.
Qed.

Lemma ipInside_block net v : ipInside (NewCIDRRange net) v ↔
  bigForIP (net_IP net) < v < bigForIP (net_IP net) + IPRangeSize net - 1.
Proof.
  unfold ipInside, NewCIDRRange, maximum. cbn [ir_base ir_max]. destruct (Z.ltb_spec (IPRangeSize net - 2) 0); lia.
Qed.

(** A range stays within its block whatever is allocated and released. *)
Lemma poolRun_block `{Rand} s ip net ops : ParseCIDR s = Some (ip, net) → plain net → narrow net → Forall op_ok ops →
  let r := poolRun ops (NewCIDRRange net) in
  iprange_wf r ∧ (∀ v, ipInside r v ↔ usable net v) ∧ ∀ k, valid_ip k → usable net (bigForIP k) → NetContains net k = true.
Proof.
  intros Hs Hp Hn Hops r. destruct (NewCIDRRange_wf s ip net Hs Hp Hn) as [Hwf _].
  destruct (poolRun_wf (H0 := ip_pool_laws) ops (NewCIDRRange net) Hwf Hops) as [Hwf' Hf]. fold r in Hwf', Hf.
  destruct (ParseCIDR_block s ip net Hs) as (n & ones & Hbl). pose proof (IPRangeSize_usable net n ones) as Hu. split_and!; [done| |].
  - intros v. rewrite <- (Hu v Hbl Hn), (Hf v). apply ipInside_block.
  - intros k Hk Hi. apply (iw_net _ Hwf); [done|]. by apply ipInside_block, (Hu _ Hbl Hn).
Qed.

Lemma IPAllocateNext_inside `{AllocLaws T} (r : IPRange T) k r' : iprange_wf r → IPAllocateNext r = Ret (k, r') →
  valid_ip k ∧ ipInside r (bigForIP k) ∧ (bigForIP k ∉ addresses r) ∧ addresses r' = {[bigForIP k]} ∪ addresses r.
Proof.
  intros Hwf E. pose proof (IPAllocateNext_law r Hwf) as Hl. rewrite E in Hl.
  destruct Hl as ([->|Hv] & Hwf2 & Hf2 & v & Hk & Hnew & Hadd); [done|]. rewrite ipValue_valid in Hk by done. injection Hk as <-.
  split_and!; [done| |done|done]. apply Hf2. assert (bigForIP k ∈ addresses r') as Hin by (rewrite Hadd; set_solver).
  apply elem_of_addresses, items_bound in Hin; [|apply Hwf2]. unfold ipInside. rewrite (iw_cap _ Hwf2) in Hin. lia.
Qed.

(** C30. A range made from a CIDR block (IPv4, or IPv6 of [/64] or more bits and
    not below [0100::]), after any calls of [Allocate], [AllocateNext] and
    [Release]: [AllocateNext] returns an address of the block that is not in use,
    neither the first nor the last of the block and in an IPv6 block among the
    65534 that follow the first, and marks it; it fails only when every such
    address is in use (always for an IPv4 block wider than [/2]). *)
Theorem tunnel_addresses_are_fresh `{Rand} s ip net ops :
  ParseCIDR s = Some (ip, net) → plain net → narrow net → Forall op_ok ops →
  let r := poolRun ops (NewCIDRRange net) in
  match IPAllocateNext r with
  | Ret (k, r') => NetContains net k = true ∧ usable net (bigForIP k) ∧ (bigForIP k ∉ addresses r) ∧
      addresses r' = {[bigForIP k]} ∪ addresses r
  | Err _ => ∀ v, usable net v → v ∈ addresses r
  | _ => False
  end.
Proof.
  intros Hs Hp Hn Hops r. destruct (poolRun_block s ip net ops Hs Hp Hn Hops) as (Hwf & Hu & Hc). fold r in Hwf, Hu.
  pose proof (IPAllocateNext_law r Hwf) as Hl. destruct (IPAllocateNext r) as [[k r']|e|w|] eqn:E; try done.
  - destruct (IPAllocateNext_inside r k r' Hwf E) as (Hv & Hi & ? & ?). apply Hu in Hi. split_and!; [by apply Hc|done..].
  - intros v Hv. by apply Hl, Hu.
Qed.

Lemma tunnel_addresses_are_fresh_witness :
  let net := mkIPNet (ParseIP "fc00:f853:ccd:e793::") (replicate 8 255 ++ replicate 8 0) in
  ∃ k r', IPAllocateNext (H := @bitmap_ops rand_zero)
            (@poolRun _ _ (@ip_pool _ (@bitmap_ops rand_zero)) [PAllocateNext; PRelease (ParseIP "fc00:f853:ccd:e793::1"); PAllocateNext] (NewCIDRRange net)) = Ret (k, r') ∧
    IPString k = "fc00:f853:ccd:e793::2"%string ∧ NetContains net k = true.
Proof.
  intros net.
  pose proof (@tunnel_addresses_are_fresh rand_zero "fc00:f853:ccd:e793::/64" (ParseIP "fc00:f853:ccd:e793::") net
    [PAllocateNext; PRelease (ParseIP "fc00:f853:ccd:e793::1"); PAllocateNext]) as Ht.
  specialize (Ht ltac:(vm_compute; reflexivity) ltac:(intros _; vm_compute; discriminate)
    ltac:(vm_compute; discriminate)
    ltac:(repeat apply Forall_cons_2; [exact I|apply ParseIP_addr_or_nil|exact I|apply Forall_nil_2])).
  cbv zeta in Ht. revert Ht.
  match goal with |- match ?c with _ => _ end → _ => destruct c as [[k r']|e|w|] eqn:E end; cycle 1.
  1-3: exfalso; vm_compute in E; discriminate.
  intros (Hc & _). exists k, r'. split_and!; [reflexivity| |exact Hc].
  vm_compute in E. injection E as <- _. vm_compute. reflexivity.
Defined.

(** In a block wider than [/64] an address that is [2 ^ 64] above another one is taken for it. *)
Example wide_block_aliases : ∃ net, ParseCIDR "fd00::/48" = Some (ParseIP "fd00::", net) ∧
  ipContains (NewCIDRRange net) (ParseIP "fd00::5") = (true, 4) ∧ ipContains (NewCIDRRange net) (ParseIP "fd00:0:0:1::5") = (true, 4).
Proof. eexists. split; [vm_compute; reflexivity|]. by vm_compute. Qed.
