(* ===== verification/Types.v ===== *)
(** * The API types ([pkg/k8s/apis/v1beta1])

    The custom resources the controller and the agents exchange, as records
    with the fields the code reads or writes.  A field name carries a prefix
    that names its struct; the Go zero value of each type that the code
    creates with [new] is given as [zero...].  [TypeMeta] is dropped: the type
    of an object says its kind. *)

From S2P Require Import Prelude GoStd.

(** ** Kubernetes types *)

Abbreviation labelSet := (gmap string string).

(** [metav1.LabelSelector]. *)
Record LabelSelectorRequirement := mkRequirement {
  req_Key : string;
  req_Operator : string;
  req_Values : list string
}.
Record LabelSelector := mkLabelSelector {
  ls_MatchLabels : labelSet;
  ls_MatchExpressions : list LabelSelectorRequirement
}.

(** [metav1.ObjectMeta]: what the code uses of it.  The deletion time stamp is
    only tested for being set. *)
Record ObjectMeta := mkMeta {
  om_Name : string;
  om_Namespace : string;
  om_Labels : labelSet;
  om_Finalizers : list string;
  om_Deleting : bool;
  om_ResourceVersion : nat
}.
Definition zeroMeta : ObjectMeta := mkMeta "" "" ∅ [] false 0%nat.

(** [types.NamespacedName] and [reconcile.Request]. *)
Record NamespacedName := mkNN { nn_Namespace : string; nn_Name : string }.

(** [reconcile.Result]. *)
Record Result := mkResult { res_Requeue : bool }.
Definition done_ : Result := mkResult false.
Definition requeue : Result := mkResult true.

(** The conversion of a label selector and its evaluation belong to
    apimachinery: a parameter of the code that selects nodes, pods and
    namespaces. *)
Class LabelSelectors := {
  Selector : Type;
  LabelSelectorAsSelector : option LabelSelector → outcome Selector;
  Matches : Selector → labelSet → bool
}.

(** ** EgressGateway *)

Record Policy := mkPolicy { p_Name : string; p_Namespace : string }.

Record Eips := mkEips {
  e_IPv4 : string;
  e_IPv6 : string;
  e_Policies : list Policy
}.
Definition zeroEips : Eips := mkEips "" "" [].

Record EgressIPStatus := mkEgressIPStatus {
  n_Name : string;
  n_Eips : list Eips;
  n_Status : string
}.

Record IPUsage := mkIPUsage {
  u_IPv4Total : Z; u_IPv4Free : Z; u_IPv6Total : Z; u_IPv6Free : Z
}.
Definition zeroUsage : IPUsage := mkIPUsage 0 0 0 0.

Record EgressGatewayStatus := mkGatewayStatus {
  s_NodeList : list EgressIPStatus;
  s_IPUsage : IPUsage
}.

Record Ippools := mkIppools {
  pool_IPv4 : list string;
  pool_IPv6 : list string;
  pool_Ipv4DefaultEIP : string;
  pool_Ipv6DefaultEIP : string
}.

Record NodeSelector := mkNodeSelector {
  ns_Policy : string;
  ns_Selector : option LabelSelector
}.

Record EgressGatewaySpec := mkGatewaySpec {
  spec_ClusterDefault : bool;
  spec_Ippools : Ippools;
  spec_NodeSelector : NodeSelector
}.

Record EgressGateway := mkGateway {
  g_Meta : ObjectMeta;
  g_Spec : EgressGatewaySpec;
  g_Status : EgressGatewayStatus
}.
Definition zeroGateway : EgressGateway :=
  mkGateway zeroMeta (mkGatewaySpec false (mkIppools [] [] "" "") (mkNodeSelector "" None))
    (mkGatewayStatus [] zeroUsage).

(** ** EgressTunnel *)

(** [EgressTunnelPhase] is a string type. *)
Abbreviation EgressTunnelPhase := string (only parsing).
Definition EgressTunnelPending : EgressTunnelPhase := "Pending".
Definition EgressTunnelInit : EgressTunnelPhase := "Init".
Definition EgressTunnelFailed : EgressTunnelPhase := "Failed".
Definition EgressTunnelHeartbeatTimeout : EgressTunnelPhase := "HeartbeatTimeout".
Definition EgressTunnelNodeNotReady : EgressTunnelPhase := "NodeNotReady".
Definition EgressTunnelReady : EgressTunnelPhase := "Ready".

Definition IsEqual (e : EgressTunnelPhase) (s : string) : bool := bool_decide (e = s).
Definition IsNotEqual (e : EgressTunnelPhase) (s : string) : bool := bool_decide (e ≠ s).

Record Parent := mkParent { par_Name : string; par_IPv4 : string; par_IPv6 : string }.
Record Tunnel := mkTunnel {
  tun_IPv4 : string; tun_IPv6 : string; tun_MAC : string; tun_Parent : Parent
}.
Record EgressTunnelStatus := mkTunnelStatus {
  ts_Tunnel : Tunnel;
  ts_Phase : EgressTunnelPhase;
  ts_Mark : string;
  (** In nanoseconds. *)
  ts_LastHeartbeatTime : Z
}.
Record EgressTunnel := mkEgressTunnel { t_Meta : ObjectMeta; t_Status : EgressTunnelStatus }.
Definition zeroTunnel : EgressTunnel :=
  mkEgressTunnel zeroMeta (mkTunnelStatus (mkTunnel "" "" "" (mkParent "" "" "")) "" "" 0).

(** ** EgressPolicy and EgressClusterPolicy *)

Record EgressIP := mkEgressIP {
  eip_IPv4 : string;
  eip_IPv6 : string;
  eip_UseNodeIP : bool;
  eip_AllocatorPolicy : string
}.
Definition EipAllocatorDefault : string := "default".
Definition EipAllocatorRR : string := "rr".

Definition IsEmpty (eip : EgressIP) : bool :=
  bool_decide (eip_IPv4 eip = "") && bool_decide (eip_IPv6 eip = "") &&
  Bool.eqb (eip_UseNodeIP eip) false && bool_decide (eip_AllocatorPolicy eip = "").

Record Eip := mkEip { st_Ipv4 : string; st_Ipv6 : string }.
Record EgressPolicyStatus := mkPolicyStatus { ps_Eip : Eip; ps_Node : string }.
Definition zeroPolicyStatus : EgressPolicyStatus := mkPolicyStatus (mkEip "" "") "".

Record AppliedTo := mkAppliedTo {
  at_PodSelector : option LabelSelector;
  at_PodSubnet : list string
}.
Record EgressPolicySpec := mkPolicySpec {
  pol_EgressGatewayName : string;
  pol_EgressIP : EgressIP;
  pol_AppliedTo : AppliedTo;
  pol_DestSubnet : list string;
  pol_Priority : Z
}.
Record EgressPolicy := mkEgressPolicy {
  ep_Meta : ObjectMeta;
  ep_Spec : EgressPolicySpec;
  ep_Status : EgressPolicyStatus
}.
Definition zeroEgressIP : EgressIP := mkEgressIP "" "" false "".
Definition zeroEgressPolicy : EgressPolicy :=
  mkEgressPolicy zeroMeta (mkPolicySpec "" zeroEgressIP (mkAppliedTo None []) [] 0) zeroPolicyStatus.

(** [PodSubnet] of a cluster policy is a pointer to a slice. *)
Record ClusterAppliedTo := mkClusterAppliedTo {
  cat_PodSelector : option LabelSelector;
  cat_PodSubnet : option (list string);
  cat_NamespaceSelector : option LabelSelector
}.
Record EgressClusterPolicySpec := mkClusterPolicySpec {
  cpol_EgressGatewayName : string;
  cpol_EgressIP : EgressIP;
  cpol_AppliedTo : ClusterAppliedTo;
  cpol_DestSubnet : list string;
  cpol_Priority : Z
}.
Record EgressClusterPolicy := mkEgressClusterPolicy {
  cp_Meta : ObjectMeta;
  cp_Spec : EgressClusterPolicySpec;
  cp_Status : EgressPolicyStatus
}.
Definition zeroEgressClusterPolicy : EgressClusterPolicy :=
  mkEgressClusterPolicy zeroMeta
    (mkClusterPolicySpec "" zeroEgressIP (mkClusterAppliedTo None None None) [] 0) zeroPolicyStatus.

(** ** Endpoint slices *)

Record EgressEndpoint := mkEndpoint {
  ept_Namespace : string;
  ept_Pod : string;
  ept_IPv4 : list string;
  ept_IPv6 : list string;
  ept_Node : string
}.
Record EgressEndpointSlice := mkSlice { sl_Meta : ObjectMeta; sl_Endpoints : list EgressEndpoint }.
Record EgressClusterEndpointSlice := mkClusterSlice {
  csl_Meta : ObjectMeta; csl_Endpoints : list EgressEndpoint
}.

(** ** EgressClusterInfo *)

Record IPListPair := mkIPListPair { il_IPv4 : list string; il_IPv6 : list string }.
(** [PodCidrMode] is a string type. *)
Record AutoDetect := mkAutoDetect { ad_PodCidrMode : string; ad_ClusterIP : bool; ad_NodeIP : bool }.
Record EgressClusterInfoSpec := mkClusterInfoSpec { cis_AutoDetect : AutoDetect; cis_ExtraCidr : list string }.
Record EgressClusterInfoStatus := mkClusterInfoStatus {
  ci_PodCidrMode : string;
  ci_NodeIP : gmap string IPListPair;
  ci_ClusterIP : option IPListPair;
  ci_PodCIDR : gmap string IPListPair;
  ci_ExtraCidr : list string
}.
Record EgressClusterInfo := mkClusterInfo {
  ci_Meta : ObjectMeta;
  ci_Spec : EgressClusterInfoSpec;
  ci_Status : EgressClusterInfoStatus
}.

Definition LabelPolicyName : string := "spidernet.io/policy-name".
Definition LabelNamespaceEgressGatewayDefault : string := "spidernet.io/egressgateway-default".

(** ** Core objects *)

Record Node := mkNode { node_Meta : ObjectMeta }.
Definition zeroNode : Node := mkNode zeroMeta.

(** ** Decidable equality *)

#[export] Instance Requirement_eq_dec : EqDecision LabelSelectorRequirement.
Proof. solve_decision. Defined.
#[export] Instance LabelSelector_eq_dec : EqDecision LabelSelector.
Proof. solve_decision. Defined.
#[export] Instance ObjectMeta_eq_dec : EqDecision ObjectMeta.
Proof. solve_decision. Defined.
#[export] Instance NamespacedName_eq_dec : EqDecision NamespacedName.
Proof. solve_decision. Defined.
#[export] Instance NamespacedName_countable : Countable NamespacedName.
Proof.
  apply (inj_countable' (λ k, (nn_Namespace k, nn_Name k)) (λ k, mkNN k.1 k.2)). by intros [].
Defined.
#[export] Instance Policy_eq_dec : EqDecision Policy.
Proof. solve_decision. Defined.
#[export] Instance Policy_countable : Countable Policy.
Proof. apply (inj_countable' (λ k, (p_Name k, p_Namespace k)) (λ k, mkPolicy k.1 k.2)). by intros []. Defined.
#[export] Instance Eips_eq_dec : EqDecision Eips.
Proof. solve_decision. Defined.
#[export] Instance EgressIPStatus_eq_dec : EqDecision EgressIPStatus.
Proof. solve_decision. Defined.
#[export] Instance IPUsage_eq_dec : EqDecision IPUsage.
Proof. solve_decision. Defined.
#[export] Instance GatewayStatus_eq_dec : EqDecision EgressGatewayStatus.
Proof. solve_decision. Defined.
#[export] Instance Ippools_eq_dec : EqDecision Ippools.
Proof. solve_decision. Defined.
#[export] Instance NodeSelector_eq_dec : EqDecision NodeSelector.
Proof. solve_decision. Defined.
#[export] Instance GatewaySpec_eq_dec : EqDecision EgressGatewaySpec.
Proof. solve_decision. Defined.
#[export] Instance Parent_eq_dec : EqDecision Parent.
Proof. solve_decision. Defined.
#[export] Instance Tunnel_eq_dec : EqDecision Tunnel.
Proof. solve_decision. Defined.
#[export] Instance TunnelStatus_eq_dec : EqDecision EgressTunnelStatus.
Proof. solve_decision. Defined.
#[export] Instance EgressIP_eq_dec : EqDecision EgressIP.
Proof. solve_decision. Defined.
#[export] Instance Eip_eq_dec : EqDecision Eip.
Proof. solve_decision. Defined.
#[export] Instance PolicyStatus_eq_dec : EqDecision EgressPolicyStatus.
Proof. solve_decision. Defined.
#[export] Instance AppliedTo_eq_dec : EqDecision AppliedTo.
Proof. solve_decision. Defined.
#[export] Instance PolicySpec_eq_dec : EqDecision EgressPolicySpec.
Proof. solve_decision. Defined.
#[export] Instance ClusterAppliedTo_eq_dec : EqDecision ClusterAppliedTo.
Proof. solve_decision. Defined.
#[export] Instance ClusterPolicySpec_eq_dec : EqDecision EgressClusterPolicySpec.
Proof. solve_decision. Defined.
#[export] Instance Endpoint_eq_dec : EqDecision EgressEndpoint.
Proof. solve_decision. Defined.

(** ** Methods of the gateway status *)

Fixpoint nodeIPs (nodes : list EgressIPStatus) (nodeName : string) : list Eips :=
  match nodes with
  | [] => []
  | items :: nodes' => if decide (n_Name items = nodeName) then n_Eips items else nodeIPs nodes' nodeName
  end.
Definition GetNodeIPs (status : EgressGatewayStatus) (nodeName : string) : list Eips :=
  nodeIPs (s_NodeList status) nodeName.

Definition ReadyCount (status : EgressGatewayStatus) : nat :=
  foldl (λ res node, if IsEqual EgressTunnelReady (n_Status node) then S res else res) 0%nat (s_NodeList status).

(** ** Replacing a field *)

Definition set_NodeList (egw : EgressGateway) (l : list EgressIPStatus) : EgressGateway :=
  mkGateway (g_Meta egw) (g_Spec egw) (mkGatewayStatus l (s_IPUsage (g_Status egw))).
Definition set_IPUsage (egw : EgressGateway) (u : IPUsage) : EgressGateway :=
  mkGateway (g_Meta egw) (g_Spec egw) (mkGatewayStatus (s_NodeList (g_Status egw)) u).
Definition set_Finalizers (m : ObjectMeta) (f : list string) : ObjectMeta :=
  mkMeta (om_Name m) (om_Namespace m) (om_Labels m) f (om_Deleting m) (om_ResourceVersion m).
Definition NodeList (egw : EgressGateway) : list EgressIPStatus := s_NodeList (g_Status egw).
Definition node_set_Status (n : EgressIPStatus) (s : string) : EgressIPStatus :=
  mkEgressIPStatus (n_Name n) (n_Eips n) s.
Definition node_set_Eips (n : EgressIPStatus) (e : list Eips) : EgressIPStatus :=
  mkEgressIPStatus (n_Name n) e (n_Status n).
Definition eip_set_Policies (e : Eips) (ps : list Policy) : Eips := mkEips (e_IPv4 e) (e_IPv6 e) ps.

Lemma ReadyCount_filter (status : EgressGatewayStatus) :
  ReadyCount status = length (filter (λ n, n_Status n = EgressTunnelReady) (s_NodeList status)).
Proof.
  unfold ReadyCount. rewrite <- (Nat.add_0_l (length _)). generalize 0%nat as c.
  induction (s_NodeList status) as [|n l IH]; intros c; simpl; [lia|].
  rewrite IH. unfold IsEqual. rewrite filter_cons.
  destruct (decide (n_Status n = EgressTunnelReady)) as [Hr|Hr].
  - rewrite bool_decide_eq_true_2 by done. simpl. lia.
  - rewrite bool_decide_eq_false_2 by done. done.
Qed.

(** ** Events *)

(** What a watch delivers to a predicate: an update event carries the old and
    the new object, each of the static type the watch was set up for; the
    type assertions of the predicates are modelled by [None] for an object of
    another type. *)
Record UpdateEvent (T : Type) := mkUpdate { ev_ObjectOld : option T; ev_ObjectNew : option T }.
Arguments mkUpdate {T} _ _.
Arguments ev_ObjectOld {T} _.
Arguments ev_ObjectNew {T} _.
