(* ===== verification/Utils.v ===== *)
(** * Small utilities ([pkg/utils])

    Requests of the controllers carry the kind of the object in the namespace
    ([flat.go]); finalizers ([finalizers.go]); comparison of string slices as
    multisets ([list.go]); removal from a slice ([slice/slice.go]). *)

From S2P Require Import Prelude GoStd Types.
Open Scope nat_scope.

(** ** [flat.go] *)

Definition ErrInvalidRequest : error := ErrNew "error invalid request".

(** [path.Join] on two elements neither of which is empty, "." or "..", or
    has a slash: the kinds are constants of the program and the namespaces
    are DNS labels. *)
Definition pathJoin (a b : string) : string := a +:+ "/" +:+ b.

Definition KindToMapFlat (kind : string) (obj : ObjectMeta) : NamespacedName :=
  let ns := if decide (om_Namespace obj = "") then kind +:+ "/" else pathJoin kind (om_Namespace obj) in
  mkNN ns (om_Name obj).

Definition ParseKindWithReq (req : NamespacedName) : outcome (string * NamespacedName) :=
  match Split (nn_Namespace req) "/"%char with
  | [kind; ns] => Ret (kind, mkNN ns (nn_Name req))
  | _ => Err ErrInvalidRequest
  end.

(** ** [finalizers.go] *)

(** The inner loop runs from the end and removes one occurrence: the last. *)
Definition removeLast (f : string) (l : list string) : list string :=
  let fix first (l : list string) : list string :=
    match l with
    | [] => []
    | x :: l' => if decide (x = f) then l' else x :: first l'
    end in
  reverse (first (reverse l)).

Definition RemoveFinalizers (objMeta : ObjectMeta) (finalizers : list string) : ObjectMeta :=
  foldl (λ m f, set_Finalizers m (removeLast f (om_Finalizers m))) objMeta finalizers.

(** ** [list.go] *)

Fixpoint takeCounted (aMap : gmap string Z) (b : list string) : bool :=
  match b with
  | [] => true
  | v :: b' =>
      match aMap !! v with
      | None => false
      | Some count => if decide (count = 0%Z) then false else takeCounted (<[v := (count - 1)%Z]> aMap) b'
      end
  end.

Definition EqualStringSlice (a b : list string) : bool :=
  if decide (length a ≠ length b) then false
  else
    let aMap := foldl (λ m v, <[v := (default 0 (m !! v) + 1)%Z]> m) ∅ a in
    takeCounted aMap b.

(** ** [slice/slice.go] *)

Fixpoint indexOf (l : list string) (element : string) : option nat :=
  match l with
  | [] => None
  | v :: l' => if decide (v = element) then Some 0 else S <$> indexOf l' element
  end.
Definition RemoveElement (l : list string) (element : string) : list string :=
  match indexOf l element with
  | None => l
  | Some i => take i l ++ drop (S i) l
  end.

(** ** Theorems *)

(** The mapping of an object to a request is undone by the parser: for a
    kind without a slash, the request that [KindToMapFlat] builds for an
    object, namespaced or not, is parsed by [ParseKindWithReq] into that kind
    and the object's own namespace and name. *)
Theorem ParseKindWithReq_roundtrip kind obj :
  ("/"%char ∉ chars kind) → ("/"%char ∉ chars (om_Namespace obj)) →
  ParseKindWithReq (KindToMapFlat kind obj) = Ret (kind, mkNN (om_Namespace obj) (om_Name obj)).
Proof.
  intros Hk Hn. assert (Split (kind +:+ "/" +:+ om_Namespace obj) "/"%char = [kind; om_Namespace obj]) as Hs.
  { unfold Split. rewrite !chars_app. cbn [String.list_ascii_of_string app].
    rewrite splitOn_app, splitOn_none by done. simpl. by rewrite !unchars_chars. }
  unfold ParseKindWithReq, KindToMapFlat, pathJoin. cbn [nn_Namespace nn_Name]. case_decide as He.
  - rewrite He in *. change (kind +:+ "/") with (kind +:+ ("/" +:+ "")). by rewrite Hs.
  - by rewrite Hs.
Qed.

Lemma ParseKindWithReq_roundtrip_witness :
  ParseKindWithReq (KindToMapFlat "Node" (mkMeta "worker-1" "" ∅ [] false 1)) = Ret ("Node", mkNN "" "worker-1").
Proof.
  apply (ParseKindWithReq_roundtrip "Node" (mkMeta "worker-1" "" ∅ [] false 1));
    apply (bool_decide_unpack _); vm_compute; exact I.
Defined.

Definition count (v : string) (l : list string) : nat := length (filter (λ x, x = v) l).

Lemma count_cons v x l : count v (x :: l) = (if decide (x = v) then 1 else 0) + count v l.
Proof. unfold count. rewrite filter_cons. by case_decide. Qed.

Lemma count_map (a : list string) (m : gmap string Z) v :
  default 0%Z (foldl (λ m v, <[v := (default 0 (m !! v) + 1)%Z]> m) m a !! v) = (default 0 (m !! v) + Z.of_nat (count v a))%Z.
Proof.
  revert m. induction a as [|x a IH]; intros m; simpl; [unfold count; simpl; lia|].
  rewrite IH, count_cons. destruct (decide (x = v)) as [->|Hne].
  - rewrite lookup_insert_eq. simpl. lia.
  - rewrite lookup_insert_ne by done. lia.
Qed.

Lemma takeCounted_spec b (m : gmap string Z) : (∀ v c, m !! v = Some c → (0 <= c)%Z) →
  takeCounted m b = true ↔ ∀ v, (Z.of_nat (count v b) <= default 0 (m !! v))%Z.
Proof.
  revert m. induction b as [|x b IH]; intros m Hm; cbn [takeCounted].
  - split; [|done]. intros _ v. unfold count. simpl. destruct (m !! v) as [c|] eqn:E; simpl; [by eapply Hm|lia].
  - assert (∀ v, count v (x :: b) = (if decide (x = v) then 1 else 0) + count v b) as Hc by (intros v; apply count_cons).
    destruct (m !! x) as [c|] eqn:E.
    + pose proof (Hm x c E). case_decide as Hz.
      * split; [done|]. intros Hle. specialize (Hle x). rewrite Hc, decide_True, E in Hle by done. simpl in Hle. lia.
      * rewrite IH.
        -- split; intros Hle v; specialize (Hle v); rewrite Hc in *; destruct (decide (x = v)) as [->|Hne];
             rewrite ?lookup_insert_eq, ?lookup_insert_ne, ?E in * by done; simpl in *; lia.
        -- intros v c'. destruct (decide (x = v)) as [->|Hne].
           ++ rewrite lookup_insert_eq. intros [= <-]. lia.
           ++ rewrite lookup_insert_ne by done. apply Hm.
    + split; [done|]. intros Hle. specialize (Hle x). rewrite Hc, decide_True, E in Hle by done. simpl in Hle. lia.
Qed.

Lemma count_le_Permutation a b : length a = length b → (∀ v, count v b <= count v a) → a ≡ₚ b.
Proof.
  intros Hl Hc. symmetry. apply submseteq_length_Permutation; [|lia].
  clear Hl. revert a Hc. induction b as [|x b IH]; intros a Hc; [apply submseteq_nil_l|].
  assert (x ∈ a) as Hin.
  { apply dec_stable. intros Hn. specialize (Hc x). rewrite count_cons, decide_True in Hc by done.
    assert (count x a = 0) as Hz; [|lia]. unfold count. apply length_zero_iff_nil.
    destruct (filter (λ y, y = x) a) as [|z l] eqn:Hf; [done|]. assert (z ∈ z :: l) as Hz by by left.
    rewrite <- Hf, list_elem_of_filter in Hz. destruct Hz as [-> ?]. done. }
  apply list_elem_of_split in Hin as (a1 & a2 & ->). rewrite <- Permutation_middle. apply submseteq_skip, IH.
  intros v. specialize (Hc v). rewrite count_cons in Hc. unfold count in *.
  rewrite filter_app, filter_cons, length_app in Hc. rewrite filter_app, length_app. case_decide; simpl in *; lia.
Qed.

(** [EqualStringSlice], which counts the strings of the first slice in a
    map and takes those of the second one out of it, holds exactly when one
    slice is a permutation of the other. *)
Theorem EqualStringSlice_permutation a b : EqualStringSlice a b = true ↔ a ≡ₚ b.
Proof.
  unfold EqualStringSlice. case_decide as Hl.
  { split; [done|]. intros Hp. by apply Permutation_length in Hp. }
  set (m := foldl _ ∅ a).
  assert (∀ v, default 0%Z (m !! v) = Z.of_nat (count v a)) as Hm by (intros v; unfold m; rewrite count_map; done).
  rewrite takeCounted_spec.
  - setoid_rewrite Hm. split.
    + intros Hc. apply count_le_Permutation; [done|]. intros v. specialize (Hc v). lia.
    + intros Hp v. unfold count. by rewrite Hp.
  - intros v c Hv. specialize (Hm v). rewrite Hv in Hm. simpl in Hm. lia.
Qed.
