(* ===== verification/GatewayCore.v ===== *)
(** * The gateway status ([pkg/egressgateway/egress_gateway.go], the part that
    does not call the API server)

    The status of an EgressGateway records which node holds which EIP and
    which policies leave through it: [NodeList] is a list of nodes, each with
    a list of [Eips], each with its policies.  This file holds the functions
    that read and change it: [assignIP] gives a policy an EIP and a node,
    [getAssignedIP] looks the assignment up, [deleteEgressPolicy] removes it,
    [moveEipToReadyNode] moves the EIPs of a failed node, [countGatewayIP]
    computes the usage counters; and the watch predicates.

    A Go function that changes the gateway through its pointer returns the
    changed gateway beside its result.  An index variable that the code
    initialises with -1 is an [option nat]. *)

From S2P Require Import Prelude GoStd GoNet IPUtil Types.
Open Scope nat_scope.

Record AssignedIP := mkAssigned {
  a_Node : string;
  a_IPv4 : string;
  a_IPv6 : string;
  a_UseNodeIP : bool
}.
#[export] Instance AssignedIP_eq_dec : EqDecision AssignedIP.
Proof. solve_decision. Defined.

(** ** Changing one node or one EIP *)

Definition updNode (egw : EgressGateway) (i : nat) (f : EgressIPStatus → EgressIPStatus) : EgressGateway :=
  set_NodeList egw (alter f i (NodeList egw)).
Definition appendEip (e : Eips) (n : EgressIPStatus) : EgressIPStatus := node_set_Eips n (n_Eips n ++ [e]).
Definition appendPolicies (ps : list Policy) (e : Eips) : Eips := eip_set_Policies e (e_Policies e ++ ps).
Definition appendPolicyAt (j : nat) (p : Policy) (n : EgressIPStatus) : EgressIPStatus :=
  node_set_Eips n (alter (appendPolicies [p]) j (n_Eips n)).

Definition isReady (n : EgressIPStatus) : bool := bool_decide (n_Status n = EgressTunnelReady).
Definition isBlank (e : Eips) : bool := bool_decide (e_IPv4 e = "") && bool_decide (e_IPv6 e = "").

(** The first EIP, in the order of the two nested loops, that satisfies a
    test: its node's index, its own index, the node and the EIP. *)
Fixpoint findInEips (P : Eips → bool) (j : nat) (eips : list Eips) : option (nat * Eips) :=
  match eips with
  | [] => None
  | e :: eips' => if P e then Some (j, e) else findInEips P (S j) eips'
  end.
Fixpoint findEip (P : Eips → bool) (i : nat) (nodes : list EgressIPStatus)
    : option (nat * nat * EgressIPStatus * Eips) :=
  match nodes with
  | [] => None
  | n :: nodes' =>
      match findInEips P 0 (n_Eips n) with
      | Some (j, e) => Some (i, j, n, e)
      | None => findEip P (S i) nodes'
      end
  end.

(** ** [assignIP] *)

(** "apply node policy to select node": the first Ready node with the fewest
    EIPs; [best] holds [nIndex] and [eipNum]. *)
Fixpoint selectNode (i : nat) (nodes : list EgressIPStatus) (best : option (nat * nat)) : option (nat * nat) :=
  match nodes with
  | [] => best
  | node :: nodes' =>
      if isReady node then
        match best with
        | None => selectNode (S i) nodes' (Some (i, length (n_Eips node)))
        | Some (_, eipNum) =>
            if length (n_Eips node) <? eipNum
            then selectNode (S i) nodes' (Some (i, length (n_Eips node)))
            else selectNode (S i) nodes' best
        end
      else selectNode (S i) nodes' best
  end.

(** [math.MaxInt8]. *)
Definition MaxInt8 : nat := 127.

(** "find best node" of case 3, which starts from [math.MaxInt8]. *)
Fixpoint findBestNode (i : nat) (nodes : list EgressIPStatus) (eipNumMin : nat) (best : option nat) : option nat :=
  match nodes with
  | [] => best
  | node :: nodes' =>
      if isReady node && (length (n_Eips node) <? eipNumMin)
      then findBestNode (S i) nodes' (length (n_Eips node)) (Some i)
      else findBestNode (S i) nodes' eipNumMin best
  end.

Definition nodeName (egw : EgressGateway) (i : nat) : string :=
  match NodeList egw !! i with Some n => n_Name n | None => "" end.
Definition nodeEips (egw : EgressGateway) (i : nat) : list Eips :=
  match NodeList egw !! i with Some n => n_Eips n | None => [] end.

(** case 1: the policy leaves with the address of its node. *)
Definition assignNodeIP (from : EgressGateway) (p : Policy) (nIndex : option nat)
    : EgressGateway * outcome (option AssignedIP) :=
  match nIndex with
  | None => (from, Ret None)
  | Some i =>
      match findInEips isBlank 0 (nodeEips from i) with
      | Some (j, _) => (updNode from i (appendPolicyAt j p), Ret (Some (mkAssigned (nodeName from i) "" "" true)))
      | None => (updNode from i (appendEip (mkEips "" "" [p])), Ret (Some (mkAssigned (nodeName from i) "" "" true)))
      end
  end.

Definition reusesEip (spec : EgressIP) (e : Eips) : bool :=
  (bool_decide (e_IPv4 e = eip_IPv4 spec) && bool_decide (eip_IPv4 spec ≠ "")) ||
  (bool_decide (e_IPv6 e = eip_IPv6 spec) && bool_decide (eip_IPv6 spec ≠ "")).

Definition ErrNoNode : error := ErrNew "EgressGateway does not have an available Node".
Definition ErrNotEnough : error := ErrNew "EgressGateway does not have enough IPs to allocate for Policy".

(** cases 2 and 3: the policy names its EIP, which is reused where it is
    already placed, or placed on the best node. *)
Definition assignSpecified (from : EgressGateway) (p : Policy) (spec : EgressIP)
    : EgressGateway * outcome (option AssignedIP) :=
  match findEip (reusesEip spec) 0 (NodeList from) with
  | Some (i, j, node, e) =>
      (updNode from i (appendPolicyAt j p), Ret (Some (mkAssigned (n_Name node) (e_IPv4 e) (e_IPv6 e) false)))
  | None =>
      match findBestNode 0 (NodeList from) MaxInt8 None with
      | None => (from, Err ErrNoNode)
      | Some i =>
          let from' := updNode from i (appendEip (mkEips (eip_IPv4 spec) (eip_IPv6 spec) [p])) in
          if decide (nodeName from i = "") then (from', Err ErrNoNode)
          else (from', Ret (Some (mkAssigned (nodeName from i) (eip_IPv4 spec) (eip_IPv6 spec) false)))
      end
  end.

(** The addresses of the status, parsed. *)
Definition usedIPs (get : Eips → string) (nodes : list EgressIPStatus) : list IP :=
  nodes ≫= λ node, omap (λ e, if decide (get e ≠ "") then Some (ParseIP (get e)) else None) (n_Eips node).

Section assign.
Context `{MapOrder} `{Rand}.

(** One address family of case 4: the pool is merged; a specified address has
    to be in it; otherwise one of the free addresses is drawn.  [draws] counts
    the numbers drawn from [randObj]; the family is skipped when its pool is
    empty. *)
Definition allocFamily (version : Z) (pool : list string) (specified : string) (used : list IP) (draws : nat)
    : outcome (string * nat) :=
  if decide (pool = []) then Ret ("", draws)
  else
    let! ranges := match MergeIPRanges version pool with
                   | Err _ => Err (ErrNew "assignIP MergeIPRanges with error")
                   | c => c
                   end in
    if decide (specified ≠ "") then
      let! ok := match IsIPIncludedRange version specified ranges with
                 | Err _ => Err (ErrNew "encountered an error while trying to check if the Egress IP exists in the ippool")
                 | c => c
                 end in
      if ok : bool then Ret (specified, draws)
      else Err (ErrNew "the specified egress IP is not in the gateway's ippool")
    else
      let! ips := ParseIPRanges version ranges in
      let free := IPsDiffSet ips used false in
      if decide (length free = 0) then Err ErrNotEnough
      else match free !! Intn draws (length free) with
           | Some ip => Ret (IPString ip, S draws)
           | None => Panic "index out of range"
           end.

(** case 4: a free address of each pool. *)
Definition assignRR (from : EgressGateway) (p : Policy) (spec : EgressIP) (nIndex : option nat)
    : EgressGateway * outcome (option AssignedIP) :=
  let pools := spec_Ippools (g_Spec from) in
  match
    (let! (v4, d) := allocFamily IPv4 (pool_IPv4 pools) (eip_IPv4 spec) (usedIPs e_IPv4 (NodeList from)) 0 in
     let! (v6, _) := allocFamily IPv6 (pool_IPv6 pools) (eip_IPv6 spec) (usedIPs e_IPv6 (NodeList from)) d in
     Ret (v4, v6))
  with
  | Ret (v4, v6) =>
      match nIndex with
      | None => (from, Panic "index out of range [-1]")
      | Some i => (updNode from i (appendEip (mkEips v4 v6 [p])),
                   Ret (Some (mkAssigned (nodeName from i) v4 v6 false)))
      end
  | Err e => (from, Err e)
  | Panic w => (from, Panic w)
  | Timeout => (from, Timeout)
  end.

Definition isDefaultEip (pools : Ippools) (e : Eips) : bool :=
  (bool_decide (e_IPv4 e ≠ "") && bool_decide (e_IPv4 e = pool_Ipv4DefaultEIP pools)) ||
  (bool_decide (e_IPv6 e ≠ "") && bool_decide (e_IPv6 e = pool_Ipv6DefaultEIP pools)).

Fixpoint firstReady (i : nat) (nodes : list EgressIPStatus) : option nat :=
  match nodes with
  | [] => None
  | node :: nodes' => if isReady node then Some i else firstReady (S i) nodes'
  end.

(** case 5: the gateway's default EIP. *)
Definition assignDefault (from : EgressGateway) (p : Policy) : EgressGateway * outcome (option AssignedIP) :=
  let pools := spec_Ippools (g_Spec from) in
  let v4 := pool_Ipv4DefaultEIP pools in
  let v6 := pool_Ipv6DefaultEIP pools in
  let finish from' name :=
    if decide (name = "") then (from', Err ErrNoNode) else (from', Ret (Some (mkAssigned name v4 v6 false))) in
  match findEip (isDefaultEip pools) 0 (NodeList from) with
  | Some (_, _, node, _) => finish from (n_Name node)
  | None =>
      match firstReady 0 (NodeList from) with
      | None => finish from ""
      | Some i => finish (updNode from i (appendEip (mkEips v4 v6 [p]))) (nodeName from i)
      end
  end.

Definition assignIP (from : EgressGateway) (req : NamespacedName) (spec : EgressIP)
    : EgressGateway * outcome (option AssignedIP) :=
  let p := mkPolicy (nn_Name req) (nn_Namespace req) in
  let nIndex := fst <$> selectNode 0 (NodeList from) None in
  if eip_UseNodeIP spec then assignNodeIP from p nIndex
  else if bool_decide (eip_IPv4 spec ≠ "") || bool_decide (eip_IPv6 spec ≠ "") then assignSpecified from p spec
  else if decide (eip_AllocatorPolicy spec = EipAllocatorRR) then assignRR from p spec nIndex
  else assignDefault from p.
End assign.

(** ** Looking up and removing an assignment *)

Definition policyIs (ns name : string) (p : Policy) : bool :=
  bool_decide (p_Name p = name) && bool_decide (p_Namespace p = ns).

Definition getAssignedIP (from : EgressGateway) (policyNs policyName : string) : option AssignedIP :=
  match findEip (λ e, existsb (policyIs policyNs policyName) (e_Policies e)) 0 (NodeList from) with
  | Some (_, _, node, e) => Some (mkAssigned (n_Name node) (e_IPv4 e) (e_IPv6 e) false)
  | None => None
  end.

(** Removal of the first matching policy, at each level of nesting; [None]
    when the level does not hold it.  An EIP left without policies goes. *)
Fixpoint deletePolicy (ns name : string) (ps : list Policy) : option (list Policy) :=
  match ps with
  | [] => None
  | p :: ps' => if policyIs ns name p then Some ps' else cons p <$> deletePolicy ns name ps'
  end.
Fixpoint deleteInEips (ns name : string) (eips : list Eips) : option (list Eips) :=
  match eips with
  | [] => None
  | e :: eips' =>
      match deletePolicy ns name (e_Policies e) with
      | Some [] => Some eips'
      | Some ps => Some (eip_set_Policies e ps :: eips')
      | None => cons e <$> deleteInEips ns name eips'
      end
  end.
Fixpoint deleteInNodes (ns name : string) (nodes : list EgressIPStatus) : option (list EgressIPStatus) :=
  match nodes with
  | [] => None
  | n :: nodes' =>
      match deleteInEips ns name (n_Eips n) with
      | Some eips => Some (node_set_Eips n eips :: nodes')
      | None => cons n <$> deleteInNodes ns name nodes'
      end
  end.

(** The gateway argument is a non-nil pointer at every call. *)
Definition deleteEgressPolicy (gateway : EgressGateway) (policyNs policyName : string) : EgressGateway * bool :=
  match deleteInNodes policyNs policyName (NodeList gateway) with
  | Some l => (set_NodeList gateway l, true)
  | None => (gateway, false)
  end.

(** ** Moving the EIPs of a failed node *)

(** The last blank EIP of a node, if it has one, otherwise the index kept
    from before. *)
Fixpoint lastBlank (j : nat) (eips : list Eips) (useNodeIPIndex : option nat) : option nat :=
  match eips with
  | [] => useNodeIPIndex
  | e :: eips' => lastBlank (S j) eips' (if isBlank e then Some j else useNodeIPIndex)
  end.

(** The state of the first loop: [minEipNodeIndex] and [minEipCount] (set
    together), and [useNodeIPIndex]. *)
Fixpoint selectTarget (i : nat) (nodes : list EgressIPStatus) (min : option (nat * nat)) (useNodeIPIndex : option nat)
    : option (nat * nat) * option nat :=
  match nodes with
  | [] => (min, useNodeIPIndex)
  | node :: nodes' =>
      if isReady node then
        let eipCount := length (n_Eips node) in
        if match min with None => true | Some (_, minEipCount) => eipCount <? minEipCount end
        then selectTarget (S i) nodes' (Some (i, eipCount)) (lastBlank 0 (n_Eips node) useNodeIPIndex)
        else selectTarget (S i) nodes' min useNodeIPIndex
      else selectTarget (S i) nodes' min useNodeIPIndex
  end.

(** The second loop, on the EIPs of the target node. *)
Fixpoint placeEips (target : list Eips) (useNodeIPIndex : option nat) (needMoveIPs : list Eips) : outcome (list Eips) :=
  match needMoveIPs with
  | [] => Ret target
  | e :: rest =>
      if isBlank e then
        match useNodeIPIndex with
        | Some k =>
            if decide (k < length target)
            then placeEips (alter (appendPolicies (e_Policies e)) k target) useNodeIPIndex rest
            else Panic "index out of range"
        | None => placeEips (target ++ [mkEips "" "" (e_Policies e)]) (Some (length target)) rest
        end
      else placeEips (target ++ [e]) useNodeIPIndex rest
  end.

(** Returns the gateway and what is left in [needMoveIPs]. *)
Definition moveEipToReadyNode (gateway : EgressGateway) (needMoveIPs : list Eips)
    : outcome (EgressGateway * list Eips) :=
  if decide (ReadyCount (g_Status gateway) = 0) then Ret (gateway, needMoveIPs)
  else
    match selectTarget 0 (NodeList gateway) None None with
    | (Some (i, _), useNodeIPIndex) =>
        let! eips := placeEips (nodeEips gateway i) useNodeIPIndex needMoveIPs in
        Ret (updNode gateway i (λ n, node_set_Eips n eips), [])
    | (None, _) => Ret (gateway, needMoveIPs)
    end.

(** ** Reading the status *)

Definition GetEipByIPV4 (ipv4 : string) (egw : EgressGateway) : Eips :=
  foldl (λ info node, foldl (λ info e, if decide (e_IPv4 e = ipv4) then e else info) info (n_Eips node))
    zeroEips (NodeList egw).
Definition GetEipByIPV6 (ipv6 : string) (egw : EgressGateway) : Eips :=
  foldl (λ info node, foldl (λ info e, if decide (e_IPv6 e = ipv6) then e else info) info (n_Eips node))
    zeroEips (NodeList egw).

(** Free IPv4, free IPv6, all IPv4, all IPv6. *)
Definition countGatewayIP `{MapOrder} (egw : EgressGateway) : outcome (Z * Z * Z * Z) :=
  let pools := spec_Ippools (g_Spec egw) in
  let! ipv4s := ConvertCidrOrIPrangeToIPs (pool_IPv4 pools) IPv4 in
  let! ipv6s := ConvertCidrOrIPrangeToIPs (pool_IPv6 pools) IPv6 in
  let useIpv4s := usedIPs e_IPv4 (NodeList egw) in
  let useIpv6s := usedIPs e_IPv6 (NodeList egw) in
  Ret (Z.of_nat (length ipv4s) - Z.of_nat (length useIpv4s),
       Z.of_nat (length ipv6s) - Z.of_nat (length useIpv6s),
       Z.of_nat (length ipv4s), Z.of_nat (length ipv6s))%Z.

(** ** Watch predicates *)

Definition egressPolicyPredicate_Update (ev : UpdateEvent EgressPolicy) : bool :=
  match ev_ObjectOld ev, ev_ObjectNew ev with
  | Some old, Some new => if decide (ep_Spec old ≠ ep_Spec new) then true else false
  | _, _ => false
  end.
Definition egressClusterPolicyPredicate_Update (ev : UpdateEvent EgressClusterPolicy) : bool :=
  match ev_ObjectOld ev, ev_ObjectNew ev with
  | Some old, Some new => if decide (cp_Spec old ≠ cp_Spec new) then true else false
  | _, _ => false
  end.
Definition egressGatewayPredicate_Update (ev : UpdateEvent EgressGateway) : bool :=
  match ev_ObjectOld ev, ev_ObjectNew ev with
  | Some old, Some new =>
      if decide (g_Meta old ≠ g_Meta new) then true
      else if decide (g_Spec old ≠ g_Spec new) then true else false
  | _, _ => false
  end.

Definition areMapsEqual (mapA mapB : labelSet) : bool :=
  if decide (size mapA ≠ size mapB) then false
  else forallb (λ '(key, valueA), bool_decide (mapB !! key = Some valueA)) (map_to_list mapA).

Definition nodePredicate_Update (ev : UpdateEvent Node) : bool :=
  match ev_ObjectOld ev, ev_ObjectNew ev with
  | Some old, Some new =>
      if areMapsEqual (om_Labels (node_Meta old)) (om_Labels (node_Meta new)) then false else true
  | _, _ => false
  end.
Definition egressTunnelPredicate_Update (ev : UpdateEvent EgressTunnel) : bool :=
  match ev_ObjectOld ev, ev_ObjectNew ev with
  | Some old, Some new => if decide (ts_Phase (t_Status old) ≠ ts_Phase (t_Status new)) then true else false
  | _, _ => false
  end.
