(* ===== verification/GatewayProps.v ===== *)
(** * The gateway status: invariant and theorems

    [gw_ok] is the invariant of a gateway status; [records] is what a
    successful assignment does to a status, whichever case of [assignIP] made
    it; [moves] is what a failover does.  The theorems about the functions of
    [GatewayCore] are proved through these relations. *)

From S2P Require Import Prelude GoStd GoNet IPUtil Types GatewayCore.
Open Scope nat_scope.

(** ** Views of a status *)

Definition allEips (nodes : list EgressIPStatus) : list Eips := nodes ≫= n_Eips.
Definition allPolicies (nodes : list EgressIPStatus) : list Policy := allEips nodes ≫= e_Policies.
(** The addresses of one family that are placed on some node. *)
Definition placed (get : Eips → string) (eips : list Eips) : list string :=
  filter (λ s, s ≠ "") (get <$> eips).

(** The invariant: a node is listed once; a policy has at most one EIP; an
    address is placed at most once; no EIP is kept without a policy. *)
Record gw_ok (nodes : list EgressIPStatus) : Prop := {
  ok_names : NoDup (n_Name <$> nodes);
  ok_policies : NoDup (allPolicies nodes);
  ok_v4 : NoDup (placed e_IPv4 (allEips nodes));
  ok_v6 : NoDup (placed e_IPv6 (allEips nodes));
  ok_held : Forall (λ e, e_Policies e ≠ []) (allEips nodes)
}.

Lemma allEips_app l1 l2 : allEips (l1 ++ l2) = allEips l1 ++ allEips l2.
Proof. apply bind_app. Qed.
Lemma allEips_cons n l : allEips (n :: l) = n_Eips n ++ allEips l.
Proof. done. Qed.
Lemma allPolicies_app l1 l2 : allPolicies (l1 ++ l2) = allPolicies l1 ++ allPolicies l2.
Proof. unfold allPolicies. by rewrite allEips_app, bind_app. Qed.
Lemma allPolicies_cons n l : allPolicies (n :: l) = (n_Eips n ≫= e_Policies) ++ allPolicies l.
Proof. unfold allPolicies. by rewrite allEips_cons, bind_app. Qed.
Lemma placed_app get l1 l2 : placed get (l1 ++ l2) = placed get l1 ++ placed get l2.
Proof. unfold placed. by rewrite fmap_app, filter_app. Qed.
Lemma placed_cons get e l : placed get (e :: l) = (if decide (get e ≠ "") then [get e] else []) ++ placed get l.
Proof. unfold placed. cbn [fmap list_fmap]. rewrite filter_cons. by case_decide. Qed.
Lemma elem_of_placed get l s : s ∈ placed get l ↔ s ≠ "" ∧ s ∈ get <$> l.
Proof. unfold placed. by rewrite list_elem_of_filter. Qed.

Create Rewrite HintDb gateway.
#[export] Hint Rewrite allEips_app allEips_cons allPolicies_app allPolicies_cons placed_app placed_cons
  @fmap_app @fmap_cons @bind_app @bind_cons @app_nil_r : gateway.

(** [placed] only looks at the addresses. *)
Lemma placed_ext get l l' : get <$> l = get <$> l' → placed get l = placed get l'.
Proof. unfold placed. by intros ->. Qed.

(** ** Index bookkeeping *)

Lemma alter_split {A} (f : A → A) l i x : l !! i = Some x →
  ∃ l1 l2, l = l1 ++ x :: l2 ∧ length l1 = i ∧ alter f i l = l1 ++ f x :: l2.
Proof.
  intros Hi. exists (take i l), (drop (S i) l). pose proof (lookup_lt_Some _ _ _ Hi).
  rewrite take_drop_middle by done. split_and!; [done|rewrite length_take; lia|].
  rewrite <- (take_drop_middle l i x) at 1 by done.
  rewrite alter_app_r_alt by (rewrite length_take; lia). f_equal.
  rewrite length_take. replace (i - min i (length l)) with 0 by lia. done.
Qed.

Lemma alter_middle {A} (f : A → A) l1 x l2 : alter f (length l1) (l1 ++ x :: l2) = l1 ++ f x :: l2.
Proof. rewrite alter_app_r_alt by lia. by rewrite Nat.sub_diag. Qed.

Lemma findInEips_Some P j eips k e : findInEips P j eips = Some (k, e) →
  ∃ e1 e2, eips = e1 ++ e :: e2 ∧ k = j + length e1 ∧ P e = true ∧ Forall (λ e, P e = false) e1.
Proof.
  revert j. induction eips as [|a eips IH]; intros j H; [done|]. simpl in H.
  destruct (P a) eqn:Ha.
  - simplify_eq. exists [], eips. split_and!; [done|simpl; lia|done|constructor].
  - apply IH in H as (e1 & e2 & -> & -> & ? & ?). exists (a :: e1), e2. split_and!; [done|simpl; lia|done|].
    by constructor.
Qed.

Lemma findInEips_None P j eips : findInEips P j eips = None ↔ Forall (λ e, P e = false) eips.
Proof.
  revert j. induction eips as [|a eips IH]; intros j; simpl; [split; [constructor|done]|].
  rewrite Forall_cons. destruct (P a); [split; [done|by intros [? _]]|]. rewrite IH. tauto.
Qed.

Lemma findEip_Some P i nodes k j n e : findEip P i nodes = Some (k, j, n, e) →
  ∃ n1 n2 e1 e2, nodes = n1 ++ n :: n2 ∧ k = i + length n1 ∧ n_Eips n = e1 ++ e :: e2 ∧ j = length e1 ∧
    P e = true ∧ Forall (λ e, P e = false) e1 ∧ Forall (λ e, P e = false) (allEips n1).
Proof.
  revert i. induction nodes as [|a nodes IH]; intros i H; [done|]. simpl in H.
  destruct (findInEips P 0 (n_Eips a)) as [[j' e']|] eqn:Hf.
  - simplify_eq. apply findInEips_Some in Hf as (e1 & e2 & He & -> & ? & ?).
    exists [], nodes, e1, e2. split_and!; (done || simpl; lia || constructor).
  - apply IH in H as (n1 & n2 & e1 & e2 & -> & -> & ? & ? & ? & ? & ?). apply findInEips_None in Hf.
    exists (a :: n1), n2, e1, e2. split_and!; try done; rewrite ?allEips_cons, ?Forall_app; (done || simpl; lia).
Qed.

Lemma findEip_None P i nodes : findEip P i nodes = None ↔ Forall (λ e, P e = false) (allEips nodes).
Proof.
  revert i. induction nodes as [|a nodes IH]; intros i; cbn [findEip]; [split; [constructor|done]|].
  rewrite allEips_cons, Forall_app. destruct (findInEips P 0 (n_Eips a)) as [[j e]|] eqn:Hf.
  - apply findInEips_Some in Hf as (e1 & e2 & He & _ & HP & _). split; [done|]. intros [Hall _].
    rewrite He, Forall_app, Forall_cons in Hall. destruct Hall as (_ & ? & _). congruence.
  - apply findInEips_None in Hf. rewrite IH. tauto.
Qed.

(** ** The nodes the loops select *)

Definition eipCount (n : EgressIPStatus) : nat := length (n_Eips n).

Lemma selectNode_spec i nodes best k c : selectNode i nodes best = Some (k, c) →
  (best = Some (k, c) ∨ ∃ n, nodes !! (k - i) = Some n ∧ i <= k ∧ isReady n = true ∧ c = eipCount n) ∧
  (∀ n, n ∈ nodes → isReady n = true → c <= eipCount n) ∧ (∀ b, best = Some b → c <= b.2).
Proof.
  revert i best. induction nodes as [|a nodes IH]; intros i best; simpl.
  - intros ->. split_and!; [by left|set_solver|]. intros b [= <-]. done.
  - assert (∀ best', selectNode (S i) nodes best' = Some (k, c) →
      (best' = Some (k, c) ∨ ∃ n, (a :: nodes) !! (k - i) = Some n ∧ i <= k ∧ isReady n = true ∧ c = eipCount n) ∧
      (∀ n, n ∈ nodes → isReady n = true → c <= eipCount n) ∧ (∀ b, best' = Some b → c <= b.2)) as IH'.
    { intros best' Hs. apply IH in Hs as (H1 & H2 & H3). split_and!; [|done|done].
      destruct H1 as [?|(n & Hn & Hle & ? & ?)]; [by left|right]. exists n. split_and!; [|lia|done|done].
      replace (k - i) with (S (k - S i)) by lia. done. }
    clear IH. destruct (isReady a) eqn:Ha; [destruct best as [[k' c']|]; [destruct (Nat.ltb_spec (length (n_Eips a)) c')|]|];
      intros Hs; apply IH' in Hs as (H1 & H2 & H3); (split_and!; [|intros n [->|?]%elem_of_cons ?|]);
      try (by eauto); try congruence.
    + destruct H1 as [[= <- <-]|?]; [right; exists a; rewrite Nat.sub_diag; done|auto].
    + specialize (H3 _ eq_refl). done.
    + intros b [= <-]. specialize (H3 _ eq_refl). simpl in *. lia.
    + specialize (H3 _ eq_refl). unfold eipCount. simpl in *. lia.
    + destruct H1 as [[= <- <-]|?]; [right; exists a; rewrite Nat.sub_diag; done|auto].
    + specialize (H3 _ eq_refl). done.
Qed.

Lemma selectNode_None i nodes : selectNode i nodes None = None ↔ Forall (λ n, isReady n = false) nodes.
Proof.
  assert (∀ nodes i b, selectNode i nodes (Some b) ≠ None) as Hs.
  { clear. induction nodes as [|a nodes IH]; intros i [k c]; simpl; [done|].
    destruct (isReady a); [case_match|]; apply IH. }
  revert i. induction nodes as [|a nodes IH]; intros i; simpl; [split; [constructor|done]|].
  rewrite Forall_cons. destruct (isReady a); [split; [by intros ?%Hs|by intros [? _]]|].
  rewrite IH. tauto.
Qed.

Lemma findBestNode_spec i nodes m best k : findBestNode i nodes m best = Some k →
  best = Some k ∨ ∃ n, nodes !! (k - i) = Some n ∧ i <= k ∧ isReady n = true ∧ eipCount n < m.
Proof.
  revert i m best. induction nodes as [|a nodes IH]; intros i m best; simpl; [by left|].
  assert (∀ m' best', m' <= m → findBestNode (S i) nodes m' best' = Some k →
    best' = Some k ∨ ∃ n, (a :: nodes) !! (k - i) = Some n ∧ i <= k ∧ isReady n = true ∧ eipCount n < m) as IH'.
  { intros m' best' Hm Hf. apply IH in Hf as [?|(n & Hn & ? & ? & ?)]; [by left|right].
    exists n. replace (k - i) with (S (k - S i)) by lia. split_and!; [done|lia|done|lia]. }
  destruct (isReady a) eqn:Ha; simpl; [|by apply IH'].
  destruct (Nat.ltb_spec (length (n_Eips a)) m) as [Hl|Hl]; [|by apply IH'].
  intros Hf. apply IH' in Hf as [[= <-]|?]; [right|by auto|lia]. exists a. rewrite Nat.sub_diag. done.
Qed.

Lemma findBestNode_None i nodes m best : findBestNode i nodes m best = None ↔
  best = None ∧ Forall (λ n, isReady n = true → m <= eipCount n) nodes.
Proof.
  revert i m best. induction nodes as [|a nodes IH]; intros i m best; simpl.
  { split; [split; [done|constructor]|by intros [? _]]. }
  rewrite Forall_cons. destruct (isReady a) eqn:Ha; simpl; [|rewrite IH; naive_solver].
  destruct (Nat.ltb_spec (length (n_Eips a)) m); rewrite IH; unfold eipCount in *; [|naive_solver].
  split; [by intros [? _]|]. intros (_ & Hm & _). specialize (Hm eq_refl). lia.
Qed.

Lemma firstReady_Some i nodes k : firstReady i nodes = Some k →
  ∃ n, nodes !! (k - i) = Some n ∧ i <= k ∧ isReady n = true.
Proof.
  revert i. induction nodes as [|a nodes IH]; intros i H; [done|]. simpl in H.
  destruct (isReady a) eqn:Ha; simplify_eq; [exists a; by rewrite Nat.sub_diag|].
  apply IH in H as (n & Hn & Hle & ?). exists n. split_and!; [|lia|done].
  replace (k - i) with (S (k - S i)) by lia. done.
Qed.

(** ** What an assignment does *)

(** [records p a nodes nodes']: policy [p] is added to an EIP that is already
    placed, or an EIP with addresses that are not in use yet is placed on a
    Ready node for it; [a] tells where. *)
Inductive records (p : Policy) (a : AssignedIP) : list EgressIPStatus → list EgressIPStatus → Prop :=
| records_reuse n1 n n2 e1 e e2 :
    n_Eips n = e1 ++ e :: e2 → a_Node a = n_Name n → a_IPv4 a = e_IPv4 e → a_IPv6 a = e_IPv6 e →
    records p a (n1 ++ n :: n2) (n1 ++ node_set_Eips n (e1 ++ appendPolicies [p] e :: e2) :: n2)
| records_new n1 n n2 :
    isReady n = true → a_Node a = n_Name n →
    (a_IPv4 a ∉ placed e_IPv4 (allEips (n1 ++ n :: n2))) →
    (a_IPv6 a ∉ placed e_IPv6 (allEips (n1 ++ n :: n2))) →
    records p a (n1 ++ n :: n2) (n1 ++ appendEip (mkEips (a_IPv4 a) (a_IPv6 a) [p]) n :: n2).

Lemma records_policies p a nodes nodes' : records p a nodes nodes' → allPolicies nodes' ≡ₚ p :: allPolicies nodes.
Proof.
  destruct 1 as [n1 n n2 e1 e e2 He _ _ _|n1 n n2 _ _ _ _];
    unfold appendEip, appendPolicies, node_set_Eips, eip_set_Policies; autorewrite with gateway;
    cbn [n_Eips e_Policies]; rewrite ?He; autorewrite with gateway; cbn [e_Policies]; solve_Permutation.
Qed.

Lemma placed_snoc get l e : NoDup (placed get l) → (get e ∉ placed get l) → NoDup (placed get (e :: l)).
Proof.
  intros Hl Hn. rewrite placed_cons. case_decide; [|done]. simpl. by apply NoDup_cons.
Qed.

Lemma placed_Permutation get l l' : l ≡ₚ l' → placed get l ≡ₚ placed get l'.
Proof. unfold placed. by intros ->. Qed.

Lemma records_ok p a nodes nodes' :
  records p a nodes nodes' → gw_ok nodes → (p ∉ allPolicies nodes) → gw_ok nodes'.
Proof.
  intros Hr [Hn Hp H4 H6 Hh] Hfresh. pose proof (records_policies _ _ _ _ Hr) as Hpol. split.
  - destruct Hr; revert Hn; autorewrite with gateway; done.
  - rewrite Hpol. by apply NoDup_cons.
  - destruct Hr as [n1 n n2 e1 e e2 He _ _ _|n1 n n2 _ _ Hf _].
    + revert H4. autorewrite with gateway. rewrite He. cbn [n_Eips node_set_Eips]. autorewrite with gateway. done.
    + rewrite (placed_Permutation _ _ (mkEips (a_IPv4 a) (a_IPv6 a) [p] :: allEips (n1 ++ n :: n2))).
      * by apply placed_snoc.
      * autorewrite with gateway. cbn [appendEip n_Eips node_set_Eips]. solve_Permutation.
  - destruct Hr as [n1 n n2 e1 e e2 He _ _ _|n1 n n2 _ _ _ Hf].
    + revert H6. autorewrite with gateway. rewrite He. cbn [n_Eips node_set_Eips]. autorewrite with gateway. done.
    + rewrite (placed_Permutation _ _ (mkEips (a_IPv4 a) (a_IPv6 a) [p] :: allEips (n1 ++ n :: n2))).
      * by apply placed_snoc.
      * autorewrite with gateway. cbn [appendEip n_Eips node_set_Eips]. solve_Permutation.
  - destruct Hr as [n1 n n2 e1 e e2 He _ _ _|n1 n n2 _ _ _ _]; revert Hh; autorewrite with gateway;
      cbn [n_Eips node_set_Eips appendEip]; rewrite ?He, !Forall_app, !Forall_cons.
    + intros (? & (? & ? & ?) & ?). split_and!; try done. cbn. by intros [_ ?]%app_eq_nil.
    + intros (? & ? & ?). split_and!; done || by apply Forall_nil_2.
Qed.

(** ** [assignIP] records *)

Lemma updNode_split egw i n f : NodeList egw !! i = Some n →
  ∃ n1 n2, NodeList egw = n1 ++ n :: n2 ∧ NodeList (updNode egw i f) = n1 ++ f n :: n2.
Proof.
  intros Hi. destruct (alter_split f _ _ _ Hi) as (n1 & n2 & Hl & _ & Ha). exists n1, n2.
  split; [done|]. unfold updNode, NodeList, set_NodeList in *. cbn [g_Status s_NodeList]. done.
Qed.

Lemma nodeName_lookup egw i n : NodeList egw !! i = Some n → nodeName egw i = n_Name n.
Proof. unfold nodeName. by intros ->. Qed.

Lemma records_append_new egw p a i n :
  NodeList egw !! i = Some n → isReady n = true → a_Node a = n_Name n →
  (a_IPv4 a ∉ placed e_IPv4 (allEips (NodeList egw))) →
  (a_IPv6 a ∉ placed e_IPv6 (allEips (NodeList egw))) →
  records p a (NodeList egw) (NodeList (updNode egw i (appendEip (mkEips (a_IPv4 a) (a_IPv6 a) [p])))).
Proof.
  intros Hi Hr Ha H4 H6. destruct (updNode_split egw i n (appendEip (mkEips (a_IPv4 a) (a_IPv6 a) [p])) Hi)
    as (n1 & n2 & Hl & ->). rewrite Hl in *. by apply records_new.
Qed.

Lemma records_append_policy egw p a i n e1 e e2 :
  NodeList egw !! i = Some n → n_Eips n = e1 ++ e :: e2 → a_Node a = n_Name n →
  a_IPv4 a = e_IPv4 e → a_IPv6 a = e_IPv6 e →
  records p a (NodeList egw) (NodeList (updNode egw i (appendPolicyAt (length e1) p))).
Proof.
  intros Hi He Ha H4 H6. destruct (updNode_split egw i n (appendPolicyAt (length e1) p) Hi) as (n1 & n2 & Hl & ->).
  rewrite Hl. unfold appendPolicyAt. rewrite He, alter_middle. by apply records_reuse.
Qed.

Lemma blank_not_placed get l : "" ∉ placed get l.
Proof. rewrite elem_of_placed. tauto. Qed.

Lemma assignNodeIP_records from p a from' nIndex :
  (∀ i, nIndex = Some i → ∃ n, NodeList from !! i = Some n ∧ isReady n = true) →
  assignNodeIP from p nIndex = (from', Ret (Some a)) → records p a (NodeList from) (NodeList from').
Proof.
  intros Hn. unfold assignNodeIP. destruct nIndex as [i|]; [|done].
  destruct (Hn i eq_refl) as (n & Hi & Hr). unfold nodeEips. rewrite Hi.
  destruct (findInEips isBlank 0 (n_Eips n)) as [[j e]|] eqn:Hf; intros [= <- <-].
  - apply findInEips_Some in Hf as (e1 & e2 & He & -> & Hb & _). apply andb_prop in Hb as [H4 H6].
    apply bool_decide_eq_true in H4, H6.
    by eapply records_append_policy; simpl; rewrite ?(nodeName_lookup _ _ _ Hi).
  - eapply (records_append_new _ _ (mkAssigned _ "" "" true)); [done|done|simpl; by apply nodeName_lookup|
      apply blank_not_placed..].
Qed.

(** An address that no EIP of the status reuses is not placed. *)
Lemma reusesEip_fresh spec l : Forall (λ e, reusesEip spec e = false) l →
  (eip_IPv4 spec ∉ placed e_IPv4 l) ∧ (eip_IPv6 spec ∉ placed e_IPv6 l).
Proof.
  rewrite Forall_forall. intros Hf. split; rewrite elem_of_placed, list_elem_of_fmap;
    intros (Hne & e & Heq & He); specialize (Hf e He); unfold reusesEip in Hf;
    apply orb_false_iff in Hf as [H4 H6].
  - rewrite !bool_decide_eq_true_2 in H4 by done. done.
  - rewrite !bool_decide_eq_true_2 in H6 by done. done.
Qed.

Lemma isDefaultEip_fresh pools l : Forall (λ e, isDefaultEip pools e = false) l →
  (pool_Ipv4DefaultEIP pools ∉ placed e_IPv4 l) ∧ (pool_Ipv6DefaultEIP pools ∉ placed e_IPv6 l).
Proof.
  rewrite Forall_forall. intros Hf. split; rewrite elem_of_placed, list_elem_of_fmap;
    intros (Hne & e & Heq & He); specialize (Hf e He); unfold isDefaultEip in Hf;
    apply orb_false_iff in Hf as [H4 H6].
  - rewrite !bool_decide_eq_true_2 in H4 by congruence. done.
  - rewrite !bool_decide_eq_true_2 in H6 by congruence. done.
Qed.

Lemma assignSpecified_records from p spec a from' :
  assignSpecified from p spec = (from', Ret (Some a)) → records p a (NodeList from) (NodeList from').
Proof.
  unfold assignSpecified. destruct (findEip _ 0 _) as [[[[i j] n] e]|] eqn:Hf.
  - intros [= <- <-]. apply findEip_Some in Hf as (n1 & n2 & e1 & e2 & Hl & -> & He & -> & _).
    eapply records_append_policy; try done. rewrite Hl. by rewrite list_lookup_middle.
  - apply findEip_None, reusesEip_fresh in Hf as [H4 H6].
    destruct (findBestNode _ _ _ _) as [i|] eqn:Hb; [|done]. case_decide; [done|]. intros [= <- <-].
    apply findBestNode_spec in Hb as [?|(n & Hi & _ & Hr & _)]; [done|]. rewrite Nat.sub_0_r in Hi.
    eapply (records_append_new _ _ (mkAssigned _ _ _ _)); [done|done|simpl; by apply nodeName_lookup|done..].
Qed.

(** A default EIP that is already placed is handed out without recording the
    policy. *)
Lemma assignDefault_records from p a from' :
  assignDefault from p = (from', Ret (Some a)) →
  records p a (NodeList from) (NodeList from') ∨
  (from' = from ∧ Exists (λ e, isDefaultEip (spec_Ippools (g_Spec from)) e = true) (allEips (NodeList from))).
Proof.
  unfold assignDefault. destruct (findEip _ 0 _) as [[[[i j] n] e]|] eqn:Hf.
  - case_decide; [done|]. intros [= <- <-]. right. split; [done|].
    apply findEip_Some in Hf as (n1 & n2 & e1 & e2 & Hl & _ & He & _ & HP & _). rewrite Hl.
    autorewrite with gateway. rewrite He, !Exists_app, Exists_cons. auto.
  - apply findEip_None, isDefaultEip_fresh in Hf as [H4 H6].
    destruct (firstReady 0 (NodeList from)) as [i|] eqn:Hr; [|done]. case_decide; [done|]. intros [= <- <-]. left.
    apply firstReady_Some in Hr as (n & Hi & _ & Hr). rewrite Nat.sub_0_r in Hi.
    eapply (records_append_new _ _ (mkAssigned _ _ _ _)); [done|done|simpl; by apply nodeName_lookup|done..].
Qed.

Lemma usedIPs_allEips get nodes : usedIPs get nodes =
  omap (λ e, if decide (get e ≠ "") then Some (ParseIP (get e)) else None) (allEips nodes).
Proof.
  unfold usedIPs, allEips. induction nodes as [|n nodes IH]; [done|]. cbn [mbind list_bind].
  rewrite IH. by rewrite omap_app.
Qed.

Lemma elem_of_usedIPs get nodes ip : ip ∈ usedIPs get nodes ↔ ∃ s, s ∈ placed get (allEips nodes) ∧ ip = ParseIP s.
Proof.
  rewrite usedIPs_allEips, list_elem_of_omap. setoid_rewrite elem_of_placed. setoid_rewrite list_elem_of_fmap. split.
  - intros (e & He & Hs). case_decide; simplify_eq. eauto 10.
  - intros (s & (Hne & e & -> & He) & ->). exists e. split; [done|]. by rewrite decide_True.
Qed.

Lemma usedIPs_addr_or_nil get nodes : Forall addr_or_nil (usedIPs get nodes).
Proof.
  apply Forall_forall. intros ip (s & _ & ->)%elem_of_usedIPs. apply ParseIP_addr_or_nil.
Qed.

Section rr.
Context `{HM : MapOrder} `{HR : Rand}.

(** What a draw from the free addresses of a family gives. *)
Lemma allocFamily_drawn version pool used draws s d :
  Forall addr_or_nil used → allocFamily version pool "" used draws = Ret (s, d) →
  (pool = [] ∧ s = "") ∨
  ∃ ranges ips ip, MergeIPRanges version pool = Ret ranges ∧ ParseIPRanges version ranges = Ret ips ∧
    s = IPString ip ∧ valid_ip ip ∧ To16 ip = ip ∧ (∃ a, a ∈ ips ∧ To16 a = ip) ∧ ∀ b, b ∈ used → To16 b ≠ ip.
Proof using Type.
  intros Hu. unfold allocFamily. case_decide as Hp; [intros [= <- <-]; by left|].
  intros Hs. right. apply obind_ret_inv in Hs as (ranges & Hr & Hs). rewrite decide_False in Hs by tauto.
  apply obind_ret_inv in Hs as (ips & Hips & Hs). case_decide; [done|].
  destruct (IPsDiffSet ips used false !! _) as [ip|] eqn:Hf; [|done]. injection Hs as <- <-.
  assert (MergeIPRanges version pool = Ret ranges) as Hm by (by destruct (MergeIPRanges version pool)).
  pose proof (ParseIPRanges_addr_or_nil _ _ _ Hips) as Hv.
  apply list_elem_of_lookup_2 in Hf. unfold IPsDiffSet in Hf. fold (diffKeys ips used) in Hf.
  apply diff_elem in Hf as [(a & Ha & Hne & <-) Hb]; [|done..].
  rewrite Forall_forall in Hv. destruct (Hv a Ha) as [?|Hva]; [done|].
  pose proof (valid_To16 _ Hva) as [Hl Hby]. exists ranges, ips, (To16 a). split_and!; try done; try eauto.
  - by split; [right|].
  - by apply To16_16.
Qed.

Lemma allocFamily_fresh version pool get nodes draws s d :
  allocFamily version pool "" (usedIPs get nodes) draws = Ret (s, d) → s ∉ placed get (allEips nodes).
Proof using Type.
  intros Hs. apply allocFamily_drawn in Hs as [[_ ->]|(ranges & ips & ip & _ & _ & -> & Hv & H16 & _ & Hb)];
    [apply blank_not_placed| |apply usedIPs_addr_or_nil].
  intros Hin. apply (Hb (ParseIP (IPString ip))); [apply elem_of_usedIPs; eauto|].
  rewrite ParseIP_IPString, H16 by done. done.
Qed.

Lemma assignRR_records from p spec a from' nIndex :
  eip_IPv4 spec = "" → eip_IPv6 spec = "" →
  (∀ i, nIndex = Some i → ∃ n, NodeList from !! i = Some n ∧ isReady n = true) →
  assignRR from p spec nIndex = (from', Ret (Some a)) → records p a (NodeList from) (NodeList from').
Proof using Type.
  intros E4 E6 Hn. unfold assignRR. rewrite E4, E6.
  destruct (allocFamily IPv4 _ _ _ 0) as [[v4 d]| | |] eqn:H4; try done. cbn [obind].
  destruct (allocFamily IPv6 _ _ _ d) as [[v6 d']| | |] eqn:H6; try done. cbn [obind].
  destruct nIndex as [i|]; [|done]. intros [= <- <-]. destruct (Hn i eq_refl) as (n & Hi & Hr).
  eapply (records_append_new _ _ (mkAssigned _ _ _ _)); [done|done|simpl; by apply nodeName_lookup| |];
    simpl; eapply allocFamily_fresh; done.
Qed.

Lemma selected_ready nodes i : fst <$> selectNode 0 nodes None = Some i →
  ∃ n, nodes !! i = Some n ∧ isReady n = true ∧ ∀ n', n' ∈ nodes → isReady n' = true → eipCount n <= eipCount n'.
Proof using Type.
  clear. destruct (selectNode 0 nodes None) as [[k c]|] eqn:Hs; [|done]. intros [= <-].
  apply selectNode_spec in Hs as ([?|(n & Hi & _ & Hr & ->)] & Hmin & _); [done|].
  rewrite Nat.sub_0_r in Hi. exists n. split_and!; done.
Qed.

(** Every successful call records the assignment, except for a default EIP
    that is already placed. *)
Lemma assignIP_records from req spec a from' :
  assignIP from req spec = (from', Ret (Some a)) →
  records (mkPolicy (nn_Name req) (nn_Namespace req)) a (NodeList from) (NodeList from') ∨
  (from' = from ∧ eip_UseNodeIP spec = false ∧ eip_IPv4 spec = "" ∧ eip_IPv6 spec = "" ∧
   eip_AllocatorPolicy spec ≠ EipAllocatorRR ∧
   Exists (λ e, isDefaultEip (spec_Ippools (g_Spec from)) e = true) (allEips (NodeList from))).
Proof using Type.
  unfold assignIP.
  assert (∀ i, fst <$> selectNode 0 (NodeList from) None = Some i →
    ∃ n, NodeList from !! i = Some n ∧ isReady n = true) as Hn.
  { intros i (n & ? & ? & _)%selected_ready. eauto. }
  destruct (eip_UseNodeIP spec) eqn:Hu; [intros; left; by eapply assignNodeIP_records|].
  destruct (bool_decide (eip_IPv4 spec ≠ "") || bool_decide (eip_IPv6 spec ≠ "")) eqn:Hs;
    [intros; left; by eapply assignSpecified_records|].
  apply orb_false_iff in Hs as [E4 E6]. rewrite bool_decide_eq_false in E4, E6.
  apply dec_stable in E4, E6. case_decide as Hrr; [intros; left; by eapply assignRR_records|].
  intros Ha. apply assignDefault_records in Ha as [?|[-> ?]]; [by left|right]. done.
Qed.
End rr.

(** Only the status of the gateway changes. *)
Lemma assignIP_meta `{MapOrder} `{Rand} from req spec : g_Meta (assignIP from req spec).1 = g_Meta from.
Proof.
  unfold assignIP, assignNodeIP, assignSpecified, assignRR, assignDefault.
  repeat case_match; simplify_eq; try done; repeat case_decide; simplify_eq; done.
Qed.

(** ** Removing and looking up *)

Lemma policyIs_spec ns name p : policyIs ns name p = true ↔ p = mkPolicy name ns.
Proof.
  unfold policyIs. rewrite andb_true_iff, !bool_decide_eq_true. destruct p; simpl. naive_solver.
Qed.

Lemma deletePolicy_skip ns name l1 l2 : (mkPolicy name ns ∉ l1) →
  deletePolicy ns name (l1 ++ l2) = app l1 <$> deletePolicy ns name l2.
Proof.
  induction l1 as [|p l1 IH]; intros Hn; simpl; [by destruct (deletePolicy ns name l2)|].
  rewrite not_elem_of_cons in Hn. destruct Hn as [Hp Hn].
  destruct (policyIs ns name p) eqn:E; [apply policyIs_spec in E; congruence|].
  rewrite IH by done. by destruct (deletePolicy ns name l2).
Qed.

Lemma deletePolicy_None ns name l : (mkPolicy name ns ∉ l) → deletePolicy ns name l = None.
Proof. intros Hn. rewrite <- (app_nil_r l), deletePolicy_skip by done. done. Qed.

Lemma deleteInEips_skip ns name l1 l2 : (mkPolicy name ns ∉ l1 ≫= e_Policies) →
  deleteInEips ns name (l1 ++ l2) = app l1 <$> deleteInEips ns name l2.
Proof.
  induction l1 as [|e l1 IH]; intros Hn; [simpl; by destruct (deleteInEips ns name l2)|].
  rewrite bind_cons, not_elem_of_app in Hn. destruct Hn as [Hp Hn]. cbn [deleteInEips app].
  rewrite deletePolicy_None, IH by done. by destruct (deleteInEips ns name l2).
Qed.

Lemma deleteInEips_None ns name l : (mkPolicy name ns ∉ l ≫= e_Policies) → deleteInEips ns name l = None.
Proof. intros Hn. rewrite <- (app_nil_r l), deleteInEips_skip by done. done. Qed.

Lemma deleteInNodes_skip ns name l1 l2 : (mkPolicy name ns ∉ allPolicies l1) →
  deleteInNodes ns name (l1 ++ l2) = app l1 <$> deleteInNodes ns name l2.
Proof.
  induction l1 as [|n l1 IH]; intros Hn; [simpl; by destruct (deleteInNodes ns name l2)|].
  rewrite allPolicies_cons, not_elem_of_app in Hn. destruct Hn as [Hp Hn]. cbn [deleteInNodes app].
  rewrite deleteInEips_None, IH by done. by destruct (deleteInNodes ns name l2).
Qed.

Lemma deleteInNodes_None ns name l : (mkPolicy name ns ∉ allPolicies l) → deleteInNodes ns name l = None.
Proof. intros Hn. rewrite <- (app_nil_r l), deleteInNodes_skip by done. done. Qed.

Lemma node_eta n eips : n_Eips n = eips → node_set_Eips n eips = n.
Proof. intros <-. by destruct n. Qed.
Lemma eip_eta e ps : e_Policies e = ps → eip_set_Policies e ps = e.
Proof. intros <-. by destruct e. Qed.

(** Removing a policy that was just recorded restores the status. *)
Lemma delete_records p a nodes nodes' :
  records p a nodes nodes' → gw_ok nodes → (p ∉ allPolicies nodes) →
  deleteInNodes (p_Namespace p) (p_Name p) nodes' = Some nodes.
Proof.
  intros Hr Hok Hf. assert (mkPolicy (p_Name p) (p_Namespace p) = p) as Hp by by destruct p.
  destruct Hr as [n1 n n2 e1 e e2 He _ _ _|n1 n n2 _ _ _ _];
    revert Hf; rewrite allPolicies_app, allPolicies_cons, !not_elem_of_app; intros (Hf1 & Hfn & _);
    rewrite deleteInNodes_skip by (by rewrite Hp); cbn [deleteInNodes node_set_Eips appendEip n_Eips].
  - rewrite He, bind_app, bind_cons, !not_elem_of_app in Hfn. destruct Hfn as (Hf2 & Hf3 & _).
    rewrite deleteInEips_skip by (by rewrite Hp). cbn [deleteInEips appendPolicies e_Policies eip_set_Policies].
    rewrite deletePolicy_skip by (by rewrite Hp). simpl.
    rewrite (proj2 (policyIs_spec _ _ p)) by done. simpl. rewrite app_nil_r.
    assert (e_Policies e ≠ []) as Hh.
    { destruct Hok as [_ _ _ _ Hh]. rewrite allEips_app, allEips_cons, He, !Forall_app, Forall_cons in Hh. tauto. }
    destruct (e_Policies e) as [|q qs] eqn:Hq; [done|]. simpl. do 2 f_equal.
    rewrite <- (node_eta n _ He) at 2. unfold node_set_Eips. simpl. do 3 f_equal. by destruct e; simpl in *; subst.
  - rewrite deleteInEips_skip by (by rewrite Hp). cbn [deleteInEips e_Policies deletePolicy].
    rewrite (proj2 (policyIs_spec _ _ p)) by done. simpl. rewrite app_nil_r. do 3 f_equal. by destruct n.
Qed.

(** What removal does in general: one policy less, an EIP less when it was
    its last policy. *)
Lemma deletePolicy_Some ns name l l' : deletePolicy ns name l = Some l' →
  ∃ l1 l2, l = l1 ++ mkPolicy name ns :: l2 ∧ l' = l1 ++ l2.
Proof.
  revert l'. induction l as [|p l IH]; intros l'; simpl; [done|].
  destruct (policyIs ns name p) eqn:E.
  - intros [= <-]. apply policyIs_spec in E as ->. by exists [], l.
  - destruct (deletePolicy ns name l) as [l0|]; [|done]. intros [= <-].
    destruct (IH l0 eq_refl) as (l1 & l2 & -> & ->). by exists (p :: l1), l2.
Qed.

Lemma deleteInEips_Some ns name l l' : deleteInEips ns name l = Some l' →
  ∃ e1 e e2 p1 p2, l = e1 ++ e :: e2 ∧ e_Policies e = p1 ++ mkPolicy name ns :: p2 ∧
    l' = e1 ++ (if decide (p1 ++ p2 = []) then [] else [eip_set_Policies e (p1 ++ p2)]) ++ e2.
Proof.
  revert l'. induction l as [|e l IH]; intros l'; cbn [deleteInEips]; [done|].
  destruct (deletePolicy ns name (e_Policies e)) as [ps|] eqn:Hd.
  - apply deletePolicy_Some in Hd as (p1 & p2 & He & ->). intros Hl'.
    exists [], e, l, p1, p2. split_and!; [done|done|]. destruct (p1 ++ p2) eqn:Hp; simplify_eq; done.
  - destruct (deleteInEips ns name l) as [l0|]; [|done]. intros [= <-].
    destruct (IH l0 eq_refl) as (e1 & e0 & e2 & p1 & p2 & -> & ? & ->).
    by exists (e :: e1), e0, e2, p1, p2.
Qed.

Lemma deleteInNodes_Some ns name l l' : deleteInNodes ns name l = Some l' →
  ∃ n1 n n2 e1 e e2 p1 p2, l = n1 ++ n :: n2 ∧ n_Eips n = e1 ++ e :: e2 ∧
    e_Policies e = p1 ++ mkPolicy name ns :: p2 ∧
    l' = n1 ++ node_set_Eips n (e1 ++ (if decide (p1 ++ p2 = []) then [] else [eip_set_Policies e (p1 ++ p2)]) ++ e2) :: n2.
Proof.
  revert l'. induction l as [|n l IH]; intros l'; cbn [deleteInNodes]; [done|].
  destruct (deleteInEips ns name (n_Eips n)) as [eips|] eqn:Hd.
  - apply deleteInEips_Some in Hd as (e1 & e & e2 & p1 & p2 & ? & ? & ->). intros [= <-].
    by exists [], n, l, e1, e, e2, p1, p2.
  - destruct (deleteInNodes ns name l) as [l0|]; [|done]. intros [= <-].
    destruct (IH l0 eq_refl) as (n1 & n0 & n2 & e1 & e & e2 & p1 & p2 & -> & ? & ? & ->).
    by exists (n :: n1), n0, n2, e1, e, e2, p1, p2.
Qed.

Lemma delete_policies ns name l l' : deleteInNodes ns name l = Some l' →
  allPolicies l ≡ₚ mkPolicy name ns :: allPolicies l'.
Proof.
  intros (n1 & n & n2 & e1 & e & e2 & p1 & p2 & -> & He & Hp & ->)%deleteInNodes_Some.
  autorewrite with gateway. cbn [n_Eips node_set_Eips]. rewrite He. autorewrite with gateway. rewrite Hp.
  case_decide as Hd; autorewrite with gateway; cbn [e_Policies eip_set_Policies mbind list_bind].
  - apply app_eq_nil in Hd as [-> ->]. solve_Permutation.
  - rewrite ?app_nil_r. solve_Permutation.
Qed.

Lemma placed_sublist get l l' : l `sublist_of` l' → placed get l `sublist_of` placed get l'.
Proof.
  induction 1; rewrite ?placed_cons; [done|by apply sublist_app|by apply sublist_inserts_l].
Qed.

Lemma delete_ok ns name l l' : deleteInNodes ns name l = Some l' → gw_ok l → gw_ok l'.
Proof.
  intros Hd [Hn Hp H4 H6 Hh]. pose proof (delete_policies _ _ _ _ Hd) as Hpol.
  apply deleteInNodes_Some in Hd as (n1 & n & n2 & e1 & e & e2 & p1 & p2 & -> & He & Hpe & ->).
  assert (∀ get, (∀ e ps, get (eip_set_Policies e ps) = get e) →
    placed get (allEips (n1 ++ node_set_Eips n (e1 ++
      (if decide (p1 ++ p2 = []) then [] else [eip_set_Policies e (p1 ++ p2)]) ++ e2) :: n2)) `sublist_of`
    placed get (allEips (n1 ++ n :: n2))) as Hsub.
  { intros get Hget. autorewrite with gateway. cbn [n_Eips node_set_Eips]. rewrite He. autorewrite with gateway.
    apply sublist_app; [done|]. apply sublist_app; [|done]. apply sublist_app; [done|].
    case_decide; autorewrite with gateway; rewrite ?Hget; [by apply sublist_inserts_l|done]. }
  split.
  - revert Hn. autorewrite with gateway. done.
  - rewrite Hpol in Hp. by apply NoDup_cons in Hp as [_ ?].
  - by apply (sublist_NoDup _ _ H4), Hsub.
  - by apply (sublist_NoDup _ _ H6), Hsub.
  - revert Hh. autorewrite with gateway. cbn [n_Eips node_set_Eips]. rewrite He, !Forall_app, Forall_cons.
    intros (? & (? & ? & ?) & ?). split_and!; try done. case_decide; [by apply Forall_nil_2|].
    apply Forall_cons. split; [done|by apply Forall_nil_2].
Qed.

Lemma delete_iff ns name l : is_Some (deleteInNodes ns name l) ↔ mkPolicy name ns ∈ allPolicies l.
Proof.
  split.
  - intros [l' Hd]. apply delete_policies in Hd. rewrite Hd. by left.
  - intros Hin. destruct (deleteInNodes ns name l) eqn:Hd; [eauto|]. exfalso. revert Hin.
    revert Hd. induction l as [|n l IH]; [intros _; apply not_elem_of_nil|]. cbn [deleteInNodes].
    destruct (deleteInEips ns name (n_Eips n)) eqn:Hn; [done|].
    destruct (deleteInNodes ns name l); [done|]. intros _. rewrite allPolicies_cons, elem_of_app.
    intros [Hin|Hin]; [|by apply IH]. clear IH. revert Hn Hin.
    induction (n_Eips n) as [|e eips IHe]; [intros _; apply not_elem_of_nil|]. cbn [deleteInEips].
    destruct (deletePolicy ns name (e_Policies e)) as [[|]|] eqn:He; [done|done|].
    destruct (deleteInEips ns name eips); [done|]. intros _. rewrite bind_cons, elem_of_app.
    intros [Hin|Hin]; [|by apply IHe]. apply list_elem_of_split in Hin as (l1 & l2 & Heq).
    assert (∀ l1, deletePolicy ns name (l1 ++ mkPolicy name ns :: l2) ≠ None) as Hne; [|congruence].
    induction l0 as [|p l0 IHl]; simpl; [by rewrite (proj2 (policyIs_spec _ _ _)) by done|].
    destruct (policyIs ns name p); [done|]. by destruct (deletePolicy ns name (l0 ++ _)).
Qed.

(** [getAssignedIP] finds the EIP that holds the policy. *)
Definition holds (ns name : string) (e : Eips) : Prop := mkPolicy name ns ∈ e_Policies e.

Lemma existsb_holds ns name e : existsb (policyIs ns name) (e_Policies e) = true ↔ holds ns name e.
Proof.
  rewrite existsb_exists. unfold holds. setoid_rewrite policyIs_spec. split.
  - intros (p & Hin & ->). by apply list_elem_of_In.
  - intros Hin. exists (mkPolicy name ns). split; [by apply list_elem_of_In|done].
Qed.

Lemma getAssignedIP_None egw ns name :
  getAssignedIP egw ns name = None ↔ mkPolicy name ns ∉ allPolicies (NodeList egw).
Proof.
  unfold getAssignedIP. destruct (findEip _ 0 _) as [[[[i j] n] e]|] eqn:Hf.
  - split; [done|]. intros Hn. exfalso. apply Hn.
    apply findEip_Some in Hf as (n1 & n2 & e1 & e2 & -> & _ & He & _ & HP & _). apply existsb_holds in HP.
    autorewrite with gateway. rewrite He. autorewrite with gateway. rewrite !elem_of_app. auto.
  - apply findEip_None in Hf. split; [|done]. intros _ Hin. apply list_elem_of_bind in Hin as (e & He & Hin).
    rewrite Forall_forall in Hf. specialize (Hf e Hin). simpl in Hf. rewrite (proj2 (existsb_holds _ _ _)) in Hf by done. done.
Qed.

Lemma getAssignedIP_Some egw ns name a : getAssignedIP egw ns name = Some a →
  ∃ n e, n ∈ NodeList egw ∧ e ∈ n_Eips n ∧ holds ns name e ∧ a = mkAssigned (n_Name n) (e_IPv4 e) (e_IPv6 e) false.
Proof.
  unfold getAssignedIP. destruct (findEip _ 0 _) as [[[[i j] n] e]|] eqn:Hf; [|done]. intros [= <-].
  apply findEip_Some in Hf as (n1 & n2 & e1 & e2 & -> & _ & He & _ & HP & _). apply existsb_holds in HP.
  exists n, e. split_and!; [set_solver|rewrite He; set_solver|done|done].
Qed.

(** With at most one EIP per policy, the EIP that holds it is the one found. *)
Lemma holds_unique nodes ns name n e n' e' : NoDup (allPolicies nodes) →
  n ∈ nodes → e ∈ n_Eips n → holds ns name e → n' ∈ nodes → e' ∈ n_Eips n' → holds ns name e' → n = n' ∧ e = e'.
Proof.
  intros Hnd Hn He Hh Hn' He' Hh'.
  assert (∀ eips, NoDup (eips ≫= e_Policies) → e ∈ eips → e' ∈ eips → e = e') as Hin.
  { clear -Hh Hh'. induction eips as [|a eips IH]; [set_solver|]. rewrite bind_cons, NoDup_app.
    intros (_ & Hd & Hnd). rewrite !elem_of_cons. intros [->|He] [->|He']; [done| | |by apply IH].
    - exfalso. apply (Hd _ Hh). apply list_elem_of_bind. eauto.
    - exfalso. apply (Hd _ Hh'). apply list_elem_of_bind. eauto. }
  induction nodes as [|m nodes IH]; [set_solver|]. rewrite allPolicies_cons, NoDup_app in Hnd.
  destruct Hnd as (Hm & Hd & Hnd).
  assert (∀ m e, m ∈ nodes → e ∈ n_Eips m → holds ns name e → mkPolicy name ns ∈ allPolicies nodes) as Hall.
  { intros m0 e0 ???. apply list_elem_of_bind. exists e0. split; [done|]. apply list_elem_of_bind. eauto. }
  rewrite elem_of_cons in Hn, Hn'. destruct Hn as [->|Hn], Hn' as [->|Hn']; [split; [done|eauto]| | |auto].
  - exfalso. apply (Hd (mkPolicy name ns)); [apply list_elem_of_bind; eauto|eauto].
  - exfalso. apply (Hd (mkPolicy name ns)); [apply list_elem_of_bind; eauto|eauto].
Qed.

Lemma getAssignedIP_unique egw ns name n e : NoDup (allPolicies (NodeList egw)) →
  n ∈ NodeList egw → e ∈ n_Eips n → holds ns name e →
  getAssignedIP egw ns name = Some (mkAssigned (n_Name n) (e_IPv4 e) (e_IPv6 e) false).
Proof.
  intros Hnd Hn He Hh. destruct (getAssignedIP egw ns name) as [a|] eqn:Ha.
  - apply getAssignedIP_Some in Ha as (n' & e' & Hn' & He' & Hh' & ->).
    by destruct (holds_unique _ _ _ _ _ _ _ Hnd Hn He Hh Hn' He' Hh') as [-> ->].
  - apply getAssignedIP_None in Ha. exfalso. apply Ha. apply list_elem_of_bind. exists e. split; [done|].
    apply list_elem_of_bind. eauto.
Qed.

Lemma get_records egw p a nodes : records p a nodes (NodeList egw) → gw_ok nodes → (p ∉ allPolicies nodes) →
  getAssignedIP egw (p_Namespace p) (p_Name p) = Some (mkAssigned (a_Node a) (a_IPv4 a) (a_IPv6 a) false).
Proof.
  intros Hr Hok Hf. pose proof (records_ok _ _ _ _ Hr Hok Hf) as Hok'.
  assert (holds (p_Namespace p) (p_Name p) = λ e, p ∈ e_Policies e) as Hh by by destruct p.
  remember (NodeList egw) as nodes' eqn:Hl.
  destruct Hr as [n1 n n2 e1 e e2 He -> -> ->|n1 n n2 _ -> _ _].
  - rewrite (getAssignedIP_unique egw _ _ (node_set_Eips n (e1 ++ appendPolicies [p] e :: e2)) (appendPolicies [p] e)).
    + done.
    + rewrite <- Hl. apply Hok'.
    + rewrite <- Hl. apply elem_of_app. right. by left.
    + simpl. apply elem_of_app. right. by left.
    + rewrite Hh. simpl. set_solver.
  - rewrite (getAssignedIP_unique egw _ _ (appendEip (mkEips (a_IPv4 a) (a_IPv6 a) [p]) n) (mkEips (a_IPv4 a) (a_IPv6 a) [p])).
    + done.
    + rewrite <- Hl. apply Hok'.
    + rewrite <- Hl. apply elem_of_app. right. by left.
    + simpl. apply elem_of_app. right. by left.
    + rewrite Hh. simpl. set_solver.
Qed.

(** ** Theorems on assignments *)

(** A gateway with two Ready nodes and a failed one, to run the theorems on. *)
Definition sampleNodes : list EgressIPStatus :=
  [mkEgressIPStatus "node1" [mkEips "10.0.0.1" "" [mkPolicy "p1" "ns"]; mkEips "" "" [mkPolicy "p2" ""]] "Ready";
   mkEgressIPStatus "node2" [mkEips "10.0.0.2" "" [mkPolicy "p3" "ns"]] "Ready";
   mkEgressIPStatus "node3" [] "HeartbeatTimeout"].
Definition sampleGateway : EgressGateway :=
  mkGateway (mkMeta "egw" "" ∅ [] false 1)
    (mkGatewaySpec false (mkIppools ["10.0.0.1-10.0.0.4"] [] "10.0.0.1" "") (mkNodeSelector "" None))
    (mkGatewayStatus sampleNodes zeroUsage).

Lemma sample_ok : gw_ok sampleNodes.
Proof. split; apply (bool_decide_unpack _); vm_compute; exact I. Qed.

(** C4. [assignIP] keeps the status well formed and records what it says: on a
    well-formed status that does not know the policy, whichever case applies
    (node address, EIP named by the policy, free address of the pool, default
    EIP), the new status is well formed, holds the policy besides the ones it
    held, and [getAssignedIP] finds the returned node and addresses; the one
    exception is a default EIP that is already placed, where the status is
    returned unchanged. *)
Theorem assignIP_keeps_status_ok `{MapOrder} `{Rand} from req spec from' a :
  let p := mkPolicy (nn_Name req) (nn_Namespace req) in
  gw_ok (NodeList from) → (p ∉ allPolicies (NodeList from)) →
  assignIP from req spec = (from', Ret (Some a)) →
  gw_ok (NodeList from') ∧
  ((allPolicies (NodeList from') ≡ₚ p :: allPolicies (NodeList from) ∧
    getAssignedIP from' (nn_Namespace req) (nn_Name req) = Some (mkAssigned (a_Node a) (a_IPv4 a) (a_IPv6 a) false)) ∨
   (from' = from ∧ eip_AllocatorPolicy spec ≠ EipAllocatorRR ∧
    Exists (λ e, isDefaultEip (spec_Ippools (g_Spec from)) e = true) (allEips (NodeList from)))).
Proof.
  intros p Hok Hf Ha. apply assignIP_records in Ha as [Hr|(-> & _ & _ & _ & ? & ?)]; [|by auto].
  split; [by eapply records_ok|]. left. split; [by eapply records_policies|].
  by apply (get_records _ p a (NodeList from)).
Qed.

Lemma assignIP_keeps_status_ok_witness :
  let r := @assignIP map_order_id rand_zero sampleGateway (mkNN "ns" "new") (mkEgressIP "" "" false "rr") in
  r.2 = Ret (Some (mkAssigned "node2" "10.0.0.3" "" false)) ∧ gw_ok (NodeList r.1).
Proof.
  split; [vm_compute; reflexivity|].
  apply (@assignIP_keeps_status_ok map_order_id rand_zero sampleGateway (mkNN "ns" "new")
    (mkEgressIP "" "" false "rr") _ (mkAssigned "node2" "10.0.0.3" "" false)).
  - apply sample_ok.
  - apply (bool_decide_unpack _). vm_compute. exact I.
  - vm_compute. reflexivity.
Defined.

(** C34. Assigning and deleting a policy is a round trip: from a well-formed
    status without the policy, deleting the policy after [assignIP] has returned
    an assignment restores the node list exactly, so a released EIP is free again
    and a shared one keeps its other policies; and the deletion finds the policy,
    but for the case in which the policy asked for the default EIP while that
    was placed, which [assignIP] does not record. *)
Theorem assign_delete_roundtrip `{MapOrder} `{Rand} from req spec from' a :
  gw_ok (NodeList from) → (mkPolicy (nn_Name req) (nn_Namespace req) ∉ allPolicies (NodeList from)) →
  assignIP from req spec = (from', Ret (Some a)) →
  let r := deleteEgressPolicy from' (nn_Namespace req) (nn_Name req) in
  NodeList r.1 = NodeList from ∧
  (r.2 = true ∨ eip_IPv4 spec = "" ∧ eip_IPv6 spec = "" ∧ eip_UseNodeIP spec = false ∧ eip_AllocatorPolicy spec ≠ EipAllocatorRR ∧
    Exists (λ e, isDefaultEip (spec_Ippools (g_Spec from)) e = true) (allEips (NodeList from))).
Proof.
  intros Hok Hf Ha. apply assignIP_records in Ha as [Hr|(-> & ? & ? & ? & ? & ?)]; unfold deleteEgressPolicy.
  - pose proof (delete_records _ _ _ _ Hr Hok Hf) as Hdel. simpl in Hdel. rewrite Hdel. auto.
  - pose proof (delete_iff (nn_Namespace req) (nn_Name req) (NodeList from)) as Hiff.
    destruct (deleteInNodes _ _ (NodeList from)) as [l|]; [|by auto 10]. exfalso. apply Hf, Hiff. eauto.
Qed.

Lemma assign_delete_roundtrip_witness :
  let g := set_NodeList sampleGateway (drop 1 sampleNodes) in
  let r := @assignIP map_order_id rand_zero g (mkNN "ns" "new") (mkEgressIP "" "" true "") in
  r.2 = Ret (Some (mkAssigned "node2" "" "" true)) ∧
  NodeList (deleteEgressPolicy r.1 "ns" "new").1 = drop 1 sampleNodes.
Proof.
  intros g r. split; [vm_compute; reflexivity|].
  destruct (@assign_delete_roundtrip map_order_id rand_zero g (mkNN "ns" "new")
    (mkEgressIP "" "" true "") r.1 (mkAssigned "node2" "" "" true)) as [Hl _].
  - split; apply (bool_decide_unpack _); vm_compute; exact I.
  - apply (bool_decide_unpack _). vm_compute. exact I.
  - vm_compute. reflexivity.
  - exact Hl.
Defined.

(** C33. [deleteEgressPolicy] removes exactly the given policy: it reports true
    exactly when the status holds it; then the policies are the ones before
    without it, the status stays well formed (an EIP whose last policy went
    is dropped), and the policy has no assignment any more. *)
Theorem deleteEgressPolicy_removes gateway ns name :
  gw_ok (NodeList gateway) →
  let r := deleteEgressPolicy gateway ns name in
  (r.2 = true ↔ mkPolicy name ns ∈ allPolicies (NodeList gateway)) ∧
  gw_ok (NodeList r.1) ∧ getAssignedIP r.1 ns name = None ∧
  (r.2 = true → allPolicies (NodeList gateway) ≡ₚ mkPolicy name ns :: allPolicies (NodeList r.1)) ∧
  (r.2 = false → r.1 = gateway).
Proof.
  intros Hok r. pose proof (delete_iff ns name (NodeList gateway)) as Hiff. subst r. unfold deleteEgressPolicy.
  destruct (deleteInNodes ns name (NodeList gateway)) as [l|] eqn:Hd; cbn [fst snd].
  - change (NodeList (set_NodeList gateway l)) with l. pose proof (delete_policies _ _ _ _ Hd) as Hp.
    split_and!; [|by eapply delete_ok| |done|done].
    + split; [|done]. intros _. apply Hiff. eauto.
    + apply getAssignedIP_None. change (NodeList (set_NodeList gateway l)) with l.
      apply ok_policies in Hok. rewrite Hp in Hok. by apply NoDup_cons in Hok as [? _].
  - split_and!; [|done| |done|done].
    + split; [done|]. intros Hin. by apply Hiff in Hin as [? ?].
    + apply getAssignedIP_None. intros Hin. by apply Hiff in Hin as [? ?].
Qed.

Lemma deleteEgressPolicy_removes_witness :
  gw_ok (NodeList (deleteEgressPolicy sampleGateway "ns" "p1").1) ∧
  NodeList (deleteEgressPolicy sampleGateway "ns" "p1").1 !! 0 =
    Some (mkEgressIPStatus "node1" [mkEips "" "" [mkPolicy "p2" ""]] "Ready").
Proof. split; [apply (deleteEgressPolicy_removes sampleGateway "ns" "p1"), sample_ok|vm_compute; reflexivity]. Defined.

(** ** Drawing from a pool *)

(** An address of the family is free when no placed address parses to it. *)
Definition unused (used : list IP) (ip : IP) : Prop := Forall (λ b, To16 b ≠ ip) used.
#[export] Instance unused_dec used ip : Decision (unused used ip).
Proof. unfold unused. apply _. Defined.

Section pool.
Context `{HM : MapOrder} `{HR : Rand}.
Context {version : Z} {addr : Z → IP} {lo hi : Z} {F : AddrFamily version addr lo hi}.

(** [allocFamily] on a pool of runs: an error exactly when every address is in
    use, otherwise an unused address of the pool. *)
Lemma allocFamily_runs rs used draws :
  runs_ok (lo := lo) (hi := hi) rs → rs ≠ [] → Forall addr_or_nil used →
  (∃ x, covered x rs ∧ unused used (addr x) ∧
    allocFamily version (show_run (addr := addr) <$> rs) "" used draws = Ret (IPString (addr x), S draws)) ∨
  ((∀ x, covered x rs → ¬ unused used (addr x)) ∧
    allocFamily version (show_run (addr := addr) <$> rs) "" used draws = Err ErrNotEnough).
Proof using F.
  intros Hok Hne Hu. destruct (MergeIPRanges_runs (F := F) rs Hok) as (runs & Hm & Hsep & Hcov).
  pose proof (covered_runs_ok _ _ Hok Hsep Hcov) as Hrok. unfold allocFamily.
  rewrite decide_False by (by destruct rs). rewrite Hm. cbn [obind].
  rewrite decide_False by tauto. rewrite (ParseIPRanges_runs (F := F)) by done. cbn [obind].
  set (ips := addr <$> _).
  assert (∀ ip, ip ∈ ips ↔ ∃ x, covered x rs ∧ ip = addr x) as Hips.
  { intros ip. unfold ips. rewrite list_elem_of_fmap. setoid_rewrite covered_elem. setoid_rewrite Hcov. naive_solver. }
  assert (∀ x, covered x rs → valid_ip (addr x) ∧ To16 (addr x) = addr x ∧ addr x ≠ []) as Hv.
  { intros x Hx. pose proof (runs_ok_bound _ _ Hok Hx). split_and!.
    - apply addr_valid_ip. lia.
    - apply To16_16, addr_valid. lia.
    - apply addr_nonnil. lia. }
  assert (Forall addr_or_nil ips) as Hvi.
  { apply Forall_forall. intros ip (x & Hx & ->)%Hips. right. by apply Hv. }
  assert (∀ ip, ip ∈ IPsDiffSet ips used false ↔ ∃ x, covered x rs ∧ unused used (addr x) ∧ ip = addr x) as Hd.
  { intros ip. unfold IPsDiffSet. fold (diffKeys ips used). rewrite diff_elem by done.
    unfold unused. setoid_rewrite Forall_forall. split.
    - intros [(a & Ha & _ & <-) Hb]. apply Hips in Ha as (x & Hx & ->). destruct (Hv x Hx) as (_ & H16 & _).
      rewrite H16 in Hb |- *. eauto.
    - intros (x & Hx & Hb & ->). destruct (Hv x Hx) as (_ & H16 & ?). split; [|done].
      exists (addr x). split_and!; [apply Hips; eauto|done|done]. }
  case_decide as Hl.
  - right. split; [|done]. intros x Hx Hun. apply nil_length_inv in Hl.
    apply (not_elem_of_nil (addr x)). rewrite <- Hl. apply Hd. eauto.
  - left. pose proof (Intn_lt draws (length (IPsDiffSet ips used false)) ltac:(lia)) as Hi.
    apply lookup_lt_is_Some_2 in Hi as [ip Hip]. rewrite Hip. apply list_elem_of_lookup_2 in Hip.
    apply Hd in Hip as (x & Hx & Hun & ->). exists x. done.
Qed.
End pool.

Definition rrSpec : EgressIP := mkEgressIP "" "" false EipAllocatorRR.

(** What is drawn from a pool of runs: nothing from an empty one, otherwise an
    address of the pool that is not used; and that there is none. *)
Definition drawn (addr : Z → IP) (rs : list (Z * Z)) (used : list IP) (text : string) : Prop :=
  rs = [] ∧ text = "" ∨ ∃ x, covered x rs ∧ unused used (addr x) ∧ text = IPString (addr x).
Definition exhausted (addr : Z → IP) (rs : list (Z * Z)) (used : list IP) : Prop :=
  rs ≠ [] ∧ ∀ x, covered x rs → ¬ unused used (addr x).

Lemma allocFamily_draws `{MapOrder} `{Rand} {version addr lo hi} {F : AddrFamily version addr lo hi} rs used draws :
  runs_ok (lo := lo) (hi := hi) rs → Forall addr_or_nil used →
  (∃ text d, drawn addr rs used text ∧ allocFamily version (show_run (addr := addr) <$> rs) "" used draws = Ret (text, d)) ∨
  exhausted addr rs used ∧ allocFamily version (show_run (addr := addr) <$> rs) "" used draws = Err ErrNotEnough.
Proof.
  intros Hok Hu. destruct (decide (rs = [])) as [->|Hne]; [left; exists "", draws; split; [by left|done]|].
  destruct (allocFamily_runs (F := F) rs used draws Hok Hne Hu) as [(x & ? & ? & ->)|[? ->]]; [left|right; done].
  exists (IPString (addr x)), (S draws). split; [|done]. right. eauto.
Qed.

(** C29. The "rr" allocator on pools of ranges of either family, when a node is
    Ready and the request names no address: if every pool that is not empty has
    an unused address it returns, for whatever numbers the generator draws, such
    an address of each family, on the Ready node with the fewest EIPs, and
    records it there; if all of a pool are in use it returns the "not enough
    IPs" error and leaves the gateway as it was. *)
Theorem rr_allocates_unused_pool_address `{MapOrder} `{Rand} from req rs4 rs6 :
  runs_ok (lo := (2 ^ 24 - 1)%Z) (hi := (2 ^ 32 - 1)%Z) rs4 → runs_ok (lo := (2 ^ 120)%Z) (hi := (2 ^ 128 - 1)%Z) rs6 →
  pool_IPv4 (spec_Ippools (g_Spec from)) = show_run (addr := addr4) <$> rs4 →
  pool_IPv6 (spec_Ippools (g_Spec from)) = show_run (addr := addr6) <$> rs6 →
  Exists (λ n, isReady n = true) (NodeList from) →
  let used4 := usedIPs e_IPv4 (NodeList from) in
  let used6 := usedIPs e_IPv6 (NodeList from) in
  (∃ v4 v6 n, assignIP from req rrSpec =
      (updNode from n.1 (appendEip (mkEips v4 v6 [mkPolicy (nn_Name req) (nn_Namespace req)])),
       Ret (Some (mkAssigned (n_Name n.2) v4 v6 false))) ∧
     drawn addr4 rs4 used4 v4 ∧ drawn addr6 rs6 used6 v6 ∧ NodeList from !! n.1 = Some n.2 ∧ isReady n.2 = true ∧
     ∀ n', n' ∈ NodeList from → isReady n' = true → eipCount n.2 <= eipCount n') ∨
  ((exhausted addr4 rs4 used4 ∨ exhausted addr6 rs6 used6) ∧ assignIP from req rrSpec = (from, Err ErrNotEnough)).
Proof.
  intros Hok4 Hok6 H4 H6 Hready used4 used6. unfold assignIP, rrSpec.
  cbn [eip_UseNodeIP eip_IPv4 eip_IPv6 eip_AllocatorPolicy]. rewrite !bool_decide_eq_false_2 by tauto.
  cbn [orb]. rewrite decide_True by done. unfold assignRR. rewrite H4, H6. cbn [eip_IPv4 eip_IPv6]. fold used4 used6.
  destruct (allocFamily_draws (F := family4) rs4 used4 0 Hok4) as [(v4 & d & Hv4 & ->)|[Hfull ->]]; [apply usedIPs_addr_or_nil| |by auto].
  cbn [obind]. destruct (allocFamily_draws (F := family6) rs6 used6 d Hok6) as [(v6 & d' & Hv6 & ->)|[Hfull ->]]; [apply usedIPs_addr_or_nil| |by auto].
  cbn [obind]. left. destruct (fst <$> selectNode 0 (NodeList from) None) as [i|] eqn:Hs.
  - apply selected_ready in Hs as (n & Hi & Hr & Hmin). exists v4, v6, (i, n). rewrite (nodeName_lookup _ _ _ Hi). done.
  - apply fmap_None in Hs. apply selectNode_None in Hs. rewrite Exists_exists in Hready.
    destruct Hready as (n & Hin & Hr). rewrite Forall_forall in Hs. specialize (Hs n Hin). simpl in Hs. congruence.
Qed.

(** The gateway with an IPv6 pool of one address. *)
Definition dualGateway : EgressGateway :=
  mkGateway (g_Meta sampleGateway) (mkGatewaySpec false (mkIppools ["10.0.0.1-10.0.0.4"] ["fd00::9"] "10.0.0.1" "") (mkNodeSelector "" None))
    (mkGatewayStatus sampleNodes zeroUsage).

Lemma rr_allocates_unused_pool_address_witness :
  (assignIP (H := map_order_id) (H0 := rand_zero) dualGateway (mkNN "ns" "new") rrSpec).2 =
    Ret (Some (mkAssigned "node2" "10.0.0.3" "fd00::9" false)) ∧
  assignIP (H := map_order_id) (H0 := rand_zero) dualGateway (mkNN "ns" "new") rrSpec ≠ (dualGateway, Err ErrNotEnough).
Proof.
  split; [vm_compute; reflexivity|].
  destruct (rr_allocates_unused_pool_address (H := map_order_id) (H0 := rand_zero) dualGateway (mkNN "ns" "new")
    [(10 * 2 ^ 24 + 1, 10 * 2 ^ 24 + 4)%Z] [(253 * 2 ^ 120 + 9, 253 * 2 ^ 120 + 9)%Z]) as [(v4 & v6 & n & Heq & _)|[Hfull _]].
  - apply Forall_cons. split; [simpl; lia|apply Forall_nil_2].
  - apply Forall_cons. split; [simpl; lia|apply Forall_nil_2].
  - vm_compute. reflexivity.
  - vm_compute. reflexivity.
  - apply (bool_decide_unpack _). vm_compute. exact I.
  - rewrite Heq. done.
  - exfalso. destruct Hfull as [[_ Hfull]|[_ Hfull]].
    + apply (Hfull (10 * 2 ^ 24 + 3)%Z); [|apply (bool_decide_unpack _); vm_compute; exact I].
      exists (10 * 2 ^ 24 + 1, 10 * 2 ^ 24 + 4)%Z. split; [by left|simpl; lia].
    + apply (Hfull (253 * 2 ^ 120 + 9)%Z); [|apply (bool_decide_unpack _); vm_compute; exact I].
      exists (253 * 2 ^ 120 + 9, 253 * 2 ^ 120 + 9)%Z. split; [by left|simpl; lia].
Defined.

(** ** Failover *)

Lemma selectTarget_select i nodes min k : (selectTarget i nodes min k).1 = selectNode i nodes min.
Proof.
  revert i min k. induction nodes as [|a nodes IH]; intros i min k; [done|]. cbn [selectTarget selectNode].
  destruct (isReady a); [|apply IH]. destruct min as [[m c]|]; [|apply IH].
  destruct (length (n_Eips a) <? c); apply IH.
Qed.

Lemma lastBlank_none j eips k : Forall (λ e, isBlank e = false) eips → lastBlank j eips k = k.
Proof.
  intros Hf. revert j. induction Hf as [|e eips He _ IH]; intros j; simpl; [done|]. by rewrite He, IH.
Qed.

(** When no Ready node serves policies with its own address, the index of the
    blank EIP stays unset. *)
Lemma selectTarget_no_blank i nodes min :
  Forall (λ n, isReady n = true → Forall (λ e, isBlank e = false) (n_Eips n)) nodes →
  (selectTarget i nodes min None).2 = None.
Proof.
  intros Hf. revert i min. induction Hf as [|a nodes Ha _ IH]; intros i min; [done|]. cbn [selectTarget].
  destruct (isReady a); [|apply IH]. rewrite lastBlank_none by auto. destruct min as [[m c]|]; [|apply IH].
  destruct (length (n_Eips a) <? c); apply IH.
Qed.

Lemma isBlank_addrs e : isBlank e = true → e_IPv4 e = "" ∧ e_IPv6 e = "".
Proof. unfold isBlank. rewrite andb_true_iff, !bool_decide_eq_true. done. Qed.

(** What placing does: [e] is served by [e'] when it has the same addresses
    and at least the same policies. *)
Definition served_by (e e' : Eips) : Prop :=
  e_IPv4 e' = e_IPv4 e ∧ e_IPv6 e' = e_IPv6 e ∧ e_Policies e ⊆ e_Policies e'.

#[export] Instance served_by_preorder : PreOrder served_by.
Proof.
  split; [by intros e|]. intros a b c (H1 & H2 & H3) (H4 & H5 & H6). unfold served_by. split_and!; [congruence..|].
  by etrans.
Qed.

(** Addresses and policies of a target after EIPs were placed on it. *)
Record placement (old need new : list Eips) : Prop := {
  pl_v4 : placed e_IPv4 new ≡ₚ placed e_IPv4 old ++ placed e_IPv4 need;
  pl_v6 : placed e_IPv6 new ≡ₚ placed e_IPv6 old ++ placed e_IPv6 need;
  pl_policies : new ≫= e_Policies ≡ₚ (old ≫= e_Policies) ++ (need ≫= e_Policies);
  pl_held : Forall (λ e, e_Policies e ≠ []) (old ++ need) → Forall (λ e, e_Policies e ≠ []) new
}.
Definition all_served (before after : list Eips) : Prop := ∀ e, e ∈ before → ∃ e', e' ∈ after ∧ served_by e e'.

Lemma all_served_trans a b c d : all_served a b → all_served (b ++ d) c → all_served (a ++ d) c.
Proof.
  intros H1 H2 e [He|He]%elem_of_app.
  - destruct (H1 e He) as (e1 & He1 & S1). destruct (H2 e1) as (e2 & He2 & S2); [set_solver|].
    exists e2. split; [done|by etrans].
  - apply H2. set_solver.
Qed.

Lemma all_served_refl l : all_served l l.
Proof. intros e He. exists e. split; [done|reflexivity]. Qed.

(** A placement of [x :: rest] from a target in which [x] has been placed. *)
Lemma placement_step old x mid rest new :
  placement old [x] mid → placement mid rest new → placement old (x :: rest) new.
Proof.
  intros [A1 A2 A3 A5] [B1 B2 B3 B5]. split.
  - rewrite B1, A1. rewrite !placed_cons. solve_Permutation.
  - rewrite B2, A2. rewrite !placed_cons. solve_Permutation.
  - rewrite B3, A3. rewrite !bind_cons. simpl. rewrite app_nil_r. solve_Permutation.
  - rewrite Forall_app, Forall_cons. intros (Ho & Hx & Hr). apply B5. apply Forall_app. split; [|done].
    apply A5. rewrite Forall_app, Forall_cons. split_and!; [done|done|apply Forall_nil_2].
Qed.

Lemma placement_append old x : placement old [x] (old ++ [x]).
Proof. split; autorewrite with gateway; done. Qed.

Lemma placement_nil old : placement old [] old.
Proof. split; autorewrite with gateway; done. Qed.

Lemma placement_blank old k x : isBlank x = true → k < length old →
  placement old [x] (alter (appendPolicies (e_Policies x)) k old).
Proof.
  intros Hx Hk. apply lookup_lt_is_Some_2 in Hk as [y Hk].
  destruct (alter_split (appendPolicies (e_Policies x)) _ _ _ Hk) as (l1 & l2 & -> & _ & ->).
  apply isBlank_addrs in Hx as [X4 X6]. split.
  - autorewrite with gateway. simpl. rewrite X4. simpl. by rewrite app_nil_r.
  - autorewrite with gateway. simpl. rewrite X6. simpl. by rewrite app_nil_r.
  - autorewrite with gateway. simpl. solve_Permutation.
  - rewrite !Forall_app, !Forall_cons. intros ((? & ? & ?) & ? & _). split_and!; try done.
    simpl. by intros [? _]%app_eq_nil.
Qed.

Lemma served_blank old k x y : old !! k = Some y → isBlank y = true → isBlank x = true →
  all_served (old ++ [x]) (alter (appendPolicies (e_Policies x)) k old).
Proof.
  intros Hk Hy Hx. destruct (alter_split (appendPolicies (e_Policies x)) _ _ _ Hk) as (l1 & l2 & -> & _ & ->).
  apply isBlank_addrs in Hy as [Y4 Y6], Hx as [X4 X6].
  intros e He. rewrite !elem_of_app, elem_of_cons, list_elem_of_singleton in He.
  assert (appendPolicies (e_Policies x) y ∈ l1 ++ appendPolicies (e_Policies x) y :: l2) by set_solver.
  destruct He as [[He|[->|He]]| ->].
  - exists e. split; [set_solver|reflexivity].
  - exists (appendPolicies (e_Policies x) y). split; [done|]. split_and!; [done|done|]. simpl. set_solver.
  - exists e. split; [set_solver|reflexivity].
  - exists (appendPolicies (e_Policies x) y). split; [done|]. split_and!; simpl; [congruence..|set_solver].
Qed.

(** Whenever placing returns, addresses and policies are accounted for. *)
Lemma placeEips_placement need target k eips : placeEips target k need = Ret eips → placement target need eips.
Proof.
  revert target k. induction need as [|x need IH]; intros target k; cbn [placeEips].
  { intros [= <-]. apply placement_nil. }
  destruct (isBlank x) eqn:Hx; [destruct k as [j|]; [case_decide; [|done]|]|]; intros Hp.
  - eapply placement_step; [by apply (placement_blank _ j)|by eapply IH].
  - eapply placement_step; [|by eapply IH]. apply isBlank_addrs in Hx as [H4 H6].
    destruct x; simpl in *; subst. apply placement_append.
  - eapply placement_step; [apply placement_append|by eapply IH].
Qed.

(** It does return, and every EIP is served, when the remembered index is the
    one of a blank EIP of the target, or is not needed. *)
Lemma placeEips_served need target k :
  Forall (λ e, isBlank e = false) need ∨ (∀ j, k = Some j → ∃ y, target !! j = Some y ∧ isBlank y = true) →
  ∃ eips, placeEips target k need = Ret eips ∧ all_served (target ++ need) eips.
Proof.
  revert target k. induction need as [|x need IH]; intros target k Hk; cbn [placeEips].
  { exists target. split; [done|]. rewrite app_nil_r. apply all_served_refl. }
  replace (target ++ x :: need) with ((target ++ [x]) ++ need) by by rewrite <- app_assoc.
  destruct (isBlank x) eqn:Hx.
  - destruct Hk as [Hk|Hk]; [rewrite Forall_cons in Hk; destruct Hk; congruence|]. destruct k as [j|].
    + destruct (Hk j eq_refl) as (y & Hy & Hb). rewrite decide_True by by eapply lookup_lt_Some.
      destruct (IH (alter (appendPolicies (e_Policies x)) j target) (Some j)) as (eips & -> & Hp).
      { right. intros j' [= <-]. rewrite list_lookup_alter_eq, Hy. eauto. }
      exists eips. split; [done|]. eapply all_served_trans; [by eapply served_blank|done].
    + destruct (IH (target ++ [mkEips "" "" (e_Policies x)]) (Some (length target))) as (eips & -> & Hp).
      { right. intros j' [= <-]. rewrite list_lookup_middle by done. eauto. }
      exists eips. split; [done|]. apply isBlank_addrs in Hx as [H4 H6]. destruct x; simpl in *; subst. done.
  - destruct (IH (target ++ [x]) k) as (eips & -> & Hp); [|by eauto].
    destruct Hk as [Hk|Hk]; [left; by apply Forall_cons in Hk as [_ ?]|right].
    intros j Hj. destruct (Hk j Hj) as (y & Hy & Hb). exists y. split; [|done]. by apply lookup_app_l_Some.
Qed.

Lemma ready_counted gateway : Exists (λ n, isReady n = true) (NodeList gateway) → ReadyCount (g_Status gateway) ≠ 0.
Proof.
  intros Hex. rewrite ReadyCount_filter. intros Hl%nil_length_inv. apply Exists_exists in Hex as (n & Hin & Hr).
  apply (not_elem_of_nil n). rewrite <- Hl. apply list_elem_of_filter. split; [|done]. by apply bool_decide_eq_true in Hr.
Qed.

Lemma moveEip_placement gateway need :
  Exists (λ n, isReady n = true) (NodeList gateway) →
  Forall (λ e, isBlank e = false) need ∨
    Forall (λ n, isReady n = true → Forall (λ e, isBlank e = false) (n_Eips n)) (NodeList gateway) →
  ∃ n1 n n2 eips, NodeList gateway = n1 ++ n :: n2 ∧ isReady n = true ∧
    moveEipToReadyNode gateway need = Ret (set_NodeList gateway (n1 ++ node_set_Eips n eips :: n2), []) ∧
    placement (n_Eips n) need eips ∧ all_served (n_Eips n ++ need) eips.
Proof.
  intros Hex Hcase. unfold moveEipToReadyNode. rewrite decide_False by by apply ready_counted.
  pose proof (selectTarget_select 0 (NodeList gateway) None None) as Hsel.
  pose proof (selectTarget_no_blank 0 (NodeList gateway) None) as Hblank.
  destruct (selectTarget 0 (NodeList gateway) None None) as [min k]. simpl in Hsel, Hblank.
  destruct min as [[i c]|]; [|exfalso].
  - assert (fst <$> selectNode 0 (NodeList gateway) None = Some i) as Hi by by rewrite <- Hsel.
    apply selected_ready in Hi as (n & Hi & Hr & _). unfold nodeEips. rewrite Hi.
    destruct (placeEips_served need (n_Eips n) k) as (eips & Hp & Hpl).
    { destruct Hcase as [?|Hb]; [by left|right]. intros j Hj. by rewrite Hblank in Hj. }
    rewrite Hp. cbn [obind].
    destruct (alter_split (λ n, node_set_Eips n eips) _ _ _ Hi) as (n1 & n2 & Hl & _ & Ha).
    exists n1, n, n2, eips. split_and!; try done; [unfold updNode; by rewrite Ha|by eapply placeEips_placement].
  - symmetry in Hsel. apply selectNode_None in Hsel. apply Exists_exists in Hex as (n & Hin & Hr).
    rewrite Forall_forall in Hsel. specialize (Hsel n Hin). simpl in Hsel. congruence.
Qed.

(** A status while some EIPs are taken off their node and not placed yet. *)
Record moving_ok (nodes : list EgressIPStatus) (need : list Eips) : Prop := {
  mv_names : NoDup (n_Name <$> nodes);
  mv_policies : NoDup (allPolicies nodes ++ (need ≫= e_Policies));
  mv_v4 : NoDup (placed e_IPv4 (allEips nodes ++ need));
  mv_v6 : NoDup (placed e_IPv6 (allEips nodes ++ need));
  mv_held : Forall (λ e, e_Policies e ≠ []) (allEips nodes ++ need)
}.

Lemma placement_ok n1 n n2 need eips : placement (n_Eips n) need eips →
  moving_ok (n1 ++ n :: n2) need → gw_ok (n1 ++ node_set_Eips n eips :: n2).
Proof.
  intros [P4 P6 PP PH] [Hn Hp H4 H6 Hh]. split.
  - revert Hn. autorewrite with gateway. done.
  - revert Hp. autorewrite with gateway. cbn [n_Eips node_set_Eips]. rewrite PP.
    intros Hp. eapply NoDup_Permutation_proper; [|exact Hp]. solve_Permutation.
  - revert H4. autorewrite with gateway. cbn [n_Eips node_set_Eips]. rewrite P4.
    intros Hp4. eapply NoDup_Permutation_proper; [|exact Hp4]. solve_Permutation.
  - revert H6. autorewrite with gateway. cbn [n_Eips node_set_Eips]. rewrite P6.
    intros Hp6. eapply NoDup_Permutation_proper; [|exact Hp6]. solve_Permutation.
  - revert Hh. autorewrite with gateway. cbn [n_Eips node_set_Eips]. rewrite !Forall_app.
    intros ((? & ? & ?) & ?). split_and!; try done. apply PH. apply Forall_app. done.
Qed.

Lemma moving_drop nodes need : moving_ok nodes need → gw_ok nodes.
Proof.
  intros [Hn Hp H4 H6 Hh]. rewrite placed_app, NoDup_app in H4, H6. rewrite NoDup_app in Hp.
  rewrite Forall_app in Hh. split; tauto.
Qed.

Lemma moving_none nodes : gw_ok nodes → moving_ok nodes [].
Proof. intros [Hn Hp H4 H6 Hh]. split; rewrite ?app_nil_r; done. Qed.

(** Whenever [moveEipToReadyNode] returns, the status is well formed. *)
Lemma moveEip_ok gateway need gateway' left :
  moving_ok (NodeList gateway) need →
  moveEipToReadyNode gateway need = Ret (gateway', left) →
  gw_ok (NodeList gateway') ∧ n_Name <$> NodeList gateway' = n_Name <$> NodeList gateway ∧
  g_Meta gateway' = g_Meta gateway ∧ g_Spec gateway' = g_Spec gateway.
Proof.
  intros Hok. unfold moveEipToReadyNode.
  case_decide; [intros [= <- <-]; split_and!; [by eapply moving_drop|done..]|].
  pose proof (selectTarget_select 0 (NodeList gateway) None None) as Hsel.
  destruct (selectTarget 0 (NodeList gateway) None None) as [[[i c]|] k];
    [|intros [= <- <-]; split_and!; [by eapply moving_drop|done..]].
  assert (fst <$> selectNode 0 (NodeList gateway) None = Some i) as Hi by by rewrite <- Hsel.
  apply selected_ready in Hi as (n & Hi & _). unfold nodeEips. rewrite Hi. intros Hm. inv_ret. simplify_eq.
  destruct (updNode_split gateway i n (λ n, node_set_Eips n a) Hi) as (n1 & n2 & Hl & Hl').
  rewrite Hl, Hl' in *. split_and!; [by eapply placement_ok; [eapply placeEips_placement|]| |done|done].
  by autorewrite with gateway.
Qed.

(** C5. Failover keeps every assignment: when the EIPs of a lost node are to be
    moved and some node is Ready, and either none of them stands for a node
    address or no Ready node serves policies with its node address yet,
    [moveEipToReadyNode] does not panic, moves all of them, and yields a
    well-formed status over the same nodes that holds exactly the policies
    before and the moved ones, each moved EIP being on a Ready node with the
    same addresses and at least its policies. *)
Theorem failover_keeps_every_assignment gateway need :
  moving_ok (NodeList gateway) need →
  Exists (λ n, isReady n = true) (NodeList gateway) →
  Forall (λ e, isBlank e = false) need ∨
    Forall (λ n, isReady n = true → Forall (λ e, isBlank e = false) (n_Eips n)) (NodeList gateway) →
  ∃ gateway', moveEipToReadyNode gateway need = Ret (gateway', []) ∧
    gw_ok (NodeList gateway') ∧ n_Name <$> NodeList gateway' = n_Name <$> NodeList gateway ∧
    allPolicies (NodeList gateway') ≡ₚ allPolicies (NodeList gateway) ++ (need ≫= e_Policies) ∧
    ∀ e, e ∈ need → ∃ n e', n ∈ NodeList gateway' ∧ isReady n = true ∧ e' ∈ n_Eips n ∧ served_by e e'.
Proof.
  intros Hok Hex Hcase.
  destruct (moveEip_placement gateway need Hex Hcase) as (n1 & n & n2 & eips & Hl & Hr & Hm & Hpl & PS).
  exists (set_NodeList gateway (n1 ++ node_set_Eips n eips :: n2)). split; [done|].
  change (NodeList (set_NodeList gateway ?l)) with l. rewrite Hl in *.
  split_and!; [by eapply placement_ok| |..].
  - by autorewrite with gateway.
  - autorewrite with gateway. cbn [n_Eips node_set_Eips]. rewrite (pl_policies _ _ _ Hpl). solve_Permutation.
  - intros e He. destruct (PS e) as (e' & He' & Hs); [apply elem_of_app; by right|].
    exists (node_set_Eips n eips), e'. split_and!; [set_solver|done|done|done].
Qed.

Lemma failover_keeps_every_assignment_witness :
  let need := [mkEips "10.0.0.9" "fd00::9" [mkPolicy "p9" "ns"; mkPolicy "p10" ""]] in
  moveEipToReadyNode sampleGateway need =
    Ret (updNode sampleGateway 1 (appendEip (mkEips "10.0.0.9" "fd00::9" [mkPolicy "p9" "ns"; mkPolicy "p10" ""])), []) ∧
  ∃ g, moveEipToReadyNode sampleGateway need = Ret (g, []) ∧ gw_ok (NodeList g).
Proof.
  intros need. split; [vm_compute; reflexivity|].
  destruct (failover_keeps_every_assignment sampleGateway need) as (g & Hg & Hok & _).
  - split; apply (bool_decide_unpack _); vm_compute; exact I.
  - apply (bool_decide_unpack _). vm_compute. exact I.
  - left. apply (bool_decide_unpack _). vm_compute. exact I.
  - exists g. split; [exact Hg|exact Hok].
Defined.

(** With no Ready node nothing moves. *)
Lemma moveEip_no_ready gateway need :
  Forall (λ n, isReady n = false) (NodeList gateway) → moveEipToReadyNode gateway need = Ret (gateway, need).
Proof.
  intros Hf. unfold moveEipToReadyNode. rewrite decide_True; [done|]. rewrite ReadyCount_filter.
  rewrite list_filter_none; [done|]. intros n Hin Hs. rewrite Forall_forall in Hf. specialize (Hf n Hin).
  simpl in Hf. apply bool_decide_eq_false in Hf. done.
Qed.

(** *** The index that is not reset *)

Lemma lastBlank_some j pre e post k : isBlank e = true → Forall (λ e, isBlank e = false) post →
  lastBlank j (pre ++ e :: post) k = Some (j + length pre).
Proof.
  intros He Hp. revert j k. induction pre as [|x pre IH]; intros j k; simpl.
  - rewrite He, lastBlank_none by done. f_equal. lia.
  - rewrite IH. f_equal. lia.
Qed.

Lemma selectTarget_skip i l nodes min k : Forall (λ n, isReady n = false) l →
  selectTarget i (l ++ nodes) min k = selectTarget (i + length l) nodes min k.
Proof.
  intros Hl. revert i. induction Hl as [|n l Hn _ IH]; intros i; simpl; [by rewrite Nat.add_0_r|].
  rewrite Hn, IH. f_equal. lia.
Qed.

(** C40. The index of the blank EIP that [moveEipToReadyNode] remembers is not
    reset when a later node becomes the target.  Of two Ready nodes, let the
    first serve policies with its node address, by the EIP at an index [k], and
    let the second have fewer EIPs and none of that kind.  Moving an EIP of a
    node address first indexes the second node with [k]: with at most [k] EIPs
    there the handler panics, whatever else is to be moved; with more, the
    policies of the moved EIP are added to an unrelated EIP of the second node,
    and would leave with its addresses. *)
Theorem failover_uses_stale_index gateway l0 a l1 b l2 pre blank post e rest :
  NodeList gateway = l0 ++ a :: l1 ++ b :: l2 →
  isReady a = true → isReady b = true → Forall (λ n, isReady n = false) (l0 ++ l1 ++ l2) →
  n_Eips a = pre ++ blank :: post → isBlank blank = true → Forall (λ e, isBlank e = false) (post ++ n_Eips b) →
  length (n_Eips b) < length (n_Eips a) → isBlank e = true →
  (length (n_Eips b) <= length pre → moveEipToReadyNode gateway (e :: rest) = Panic "index out of range") ∧
  ∀ other, n_Eips b !! length pre = Some other → isBlank other = false ∧
    moveEipToReadyNode gateway [e] =
      Ret (set_NodeList gateway (l0 ++ a :: l1 ++ node_set_Eips b (<[length pre := appendPolicies (e_Policies e) other]> (n_Eips b)) :: l2), []).
Proof.
  intros Hl Ha Hb [Hl0 [Hl1 Hl2]%Forall_app]%Forall_app Hea Hbl [Hpost Hnb]%Forall_app Hlt He.
  assert (selectTarget 0 (NodeList gateway) None None = (Some (length (l0 ++ a :: l1), length (n_Eips b)), Some (length pre))) as Hsel.
  { rewrite Hl, selectTarget_skip by done. cbn [selectTarget]. rewrite Ha, Hea, lastBlank_some by done.
    rewrite selectTarget_skip by done. cbn [selectTarget]. rewrite Hb.
    assert ((length (n_Eips b) <? length (pre ++ blank :: post)) = true) as -> by (apply Nat.ltb_lt; by rewrite <- Hea).
    rewrite lastBlank_none by done. rewrite <- (app_nil_r l2), selectTarget_skip by done. cbn [selectTarget].
    rewrite length_app. simpl. do 3 f_equal. lia. }
  assert (NodeList gateway = (l0 ++ a :: l1) ++ b :: l2) as Hl' by (by rewrite Hl, <- app_assoc).
  assert (∀ l, moveEipToReadyNode gateway l = let! eips := placeEips (n_Eips b) (Some (length pre)) l in
    Ret (set_NodeList gateway ((l0 ++ a :: l1) ++ node_set_Eips b eips :: l2), [])) as Hm.
  { intros l. unfold moveEipToReadyNode. rewrite decide_False by (apply ready_counted, Exists_exists; exists b; rewrite Hl; set_solver).
    rewrite Hsel. unfold nodeEips, updNode. rewrite Hl' at 1. rewrite list_lookup_middle by done.
    destruct (placeEips _ _ l); [|done..]. cbn [obind]. rewrite Hl', alter_app_r_alt by done. by rewrite Nat.sub_diag. }
  rewrite !Hm. cbn [placeEips]. rewrite He. split; [intros Hle; by rewrite decide_False by lia|].
  intros other Ho. split; [by eapply Forall_lookup_1 in Hnb|]. rewrite decide_True by (by eapply lookup_lt_Some). cbn [obind].
  rewrite <- app_assoc, list_insert_alter.
  by rewrite (list_alter_ext (appendPolicies (e_Policies e)) (λ _, appendPolicies (e_Policies e) other) (n_Eips b) (n_Eips b) (length pre)) by (congruence || intros ?; congruence).
Qed.

(** A gateway whose first node serves [p2] with its own address. *)
Definition staleGateway : EgressGateway :=
  set_NodeList sampleGateway
    [mkEgressIPStatus "node1" [mkEips "" "" [mkPolicy "p2" ""]; mkEips "10.0.0.1" "" [mkPolicy "p1" "ns"]] "Ready";
     mkEgressIPStatus "node2" [mkEips "10.0.0.2" "" [mkPolicy "p3" "ns"]] "Ready"].

Lemma failover_uses_stale_index_witness :
  moveEipToReadyNode sampleGateway [mkEips "" "" [mkPolicy "p9" "ns"]] = Panic "index out of range" ∧
  moveEipToReadyNode staleGateway [mkEips "" "" [mkPolicy "p9" "ns"]] =
  Ret (set_NodeList sampleGateway
      [mkEgressIPStatus "node1" [mkEips "" "" [mkPolicy "p2" ""]; mkEips "10.0.0.1" "" [mkPolicy "p1" "ns"]] "Ready";
       mkEgressIPStatus "node2" [mkEips "10.0.0.2" "" [mkPolicy "p3" "ns"; mkPolicy "p9" "ns"]] "Ready"], []).
Proof.
  split.
  - refine (proj1 (failover_uses_stale_index sampleGateway [] (mkEgressIPStatus "node1" [mkEips "10.0.0.1" "" [mkPolicy "p1" "ns"]; mkEips "" "" [mkPolicy "p2" ""]] "Ready") []
      (mkEgressIPStatus "node2" [mkEips "10.0.0.2" "" [mkPolicy "p3" "ns"]] "Ready") [mkEgressIPStatus "node3" [] "HeartbeatTimeout"]
      [mkEips "10.0.0.1" "" [mkPolicy "p1" "ns"]] (mkEips "" "" [mkPolicy "p2" ""]) [] (mkEips "" "" [mkPolicy "p9" "ns"]) [] eq_refl eq_refl eq_refl _ eq_refl eq_refl _ _ eq_refl) _);
      try (apply (bool_decide_unpack _); vm_compute; exact I); simpl; lia.
  - refine (proj2 (proj2 (failover_uses_stale_index staleGateway [] (mkEgressIPStatus "node1" [mkEips "" "" [mkPolicy "p2" ""]; mkEips "10.0.0.1" "" [mkPolicy "p1" "ns"]] "Ready") []
      (mkEgressIPStatus "node2" [mkEips "10.0.0.2" "" [mkPolicy "p3" "ns"]] "Ready") []
      [] (mkEips "" "" [mkPolicy "p2" ""]) [mkEips "10.0.0.1" "" [mkPolicy "p1" "ns"]] (mkEips "" "" [mkPolicy "p9" "ns"]) [] eq_refl eq_refl eq_refl _ eq_refl eq_refl _ _ eq_refl) _ eq_refl));
      try (apply (bool_decide_unpack _); vm_compute; exact I); simpl; lia.
Defined.

