(* ===== verification/ApiServer.v ===== *)
(** * The Kubernetes API as the controller sees it

    The API server is not part of the repository: it is a parameter, a type
    [W] of states of the cluster with the calls the controller makes, and the
    documented behaviour the controller relies on as laws.  A call may fail
    with any error at any time, and other clients may act between two calls;
    the laws say what they may do to a gateway: the status of a gateway is a
    subresource, which only the status endpoint writes, and a gateway is
    created with an empty status.

    Reads of gateways go to the API server ([r.cli]); reads of other objects
    go to a cache ([r.client]), about whose answers nothing is assumed.

    The effectful code of the controller is written in the monad [M]. *)

From S2P Require Import Prelude GoStd Types.
Open Scope nat_scope.

(** ** The monad *)

Definition M (W A : Type) : Type := W → W * outcome A.

Section monad.
Context {W : Type}.

Definition mret {A} (a : A) : M W A := λ w, (w, Ret a).
Definition merr {A} (e : error) : M W A := λ w, (w, Err e).
Definition lift {A} (c : outcome A) : M W A := λ w, (w, c).
Definition mbind_ {A B} (c : M W A) (k : A → M W B) : M W B := λ w,
  match c w with
  | (w', Ret a) => k a w'
  | (w', Err e) => (w', Err e)
  | (w', Panic s) => (w', Panic s)
  | (w', Timeout) => (w', Timeout)
  end.
(** The [err] of a call as a value, for code that inspects it. *)
Definition attempt {A} (c : M W A) : M W (A + error) := λ w,
  match c w with
  | (w', Ret a) => (w', Ret (inl a))
  | (w', Err e) => (w', Ret (inr e))
  | (w', Panic s) => (w', Panic s)
  | (w', Timeout) => (w', Timeout)
  end.
(** [for _, x := range l] with a state and an early return on an error. *)
Fixpoint mforeach {A S} (f : A → S → M W S) (l : list A) (s : S) : M W S :=
  match l with
  | [] => mret s
  | x :: l' => mbind_ (f x s) (λ s', mforeach f l' s')
  end.
End monad.

Notation "'let*' x ':=' c 'in' k" := (mbind_ c (λ x, k))
  (at level 10, x pattern, c at level 100, k at level 200,
   format "'let*'  x  ':='  c  'in' '//' k") : go_scope.

(** [errors.IsNotFound] and [errors.IsConflict]. *)
Definition IsNotFound (e : error) : bool := bool_decide (e = ErrApi NotFound).
Definition IsConflict (e : error) : bool := bool_decide (e = ErrApi Conflict).

(** A [Get] whose absence of the object is not an error: the object is [None]
    when it does not exist. *)
Definition getOrAbsent {W A} (c : M W A) : M W (option A) :=
  let* r := attempt c in
  match r with
  | inl a => mret (Some a)
  | inr e => if IsNotFound e then mret None else merr e
  end.

(** ** The calls *)

Class ApiServer (W : Type) `{LabelSelectors} := {
  (** The gateways that the server stores, by name. *)
  gateways : W → gmap string EgressGateway;
  (** [r.cli]: reads of gateways. *)
  getGateway : string → M W EgressGateway;
  listGateways : M W (list EgressGateway);
  (** [Status().Update] and [Update] return the object the server stored. *)
  updateGatewayStatus : EgressGateway → M W EgressGateway;
  updateGateway : EgressGateway → M W EgressGateway;
  getTunnel : string → M W EgressTunnel;
  getNode : string → M W Node;
  listNodes : Selector → M W (list Node);
  getPolicy : NamespacedName → M W EgressPolicy;
  listPolicies : M W (list EgressPolicy);
  updatePolicyStatus : EgressPolicy → M W EgressPolicy;
  getClusterPolicy : NamespacedName → M W EgressClusterPolicy;
  listClusterPolicies : M W (list EgressClusterPolicy);
  updateClusterPolicyStatus : EgressClusterPolicy → M W EgressClusterPolicy
}.

Definition nodes_of (g : EgressGateway) : list EgressIPStatus := s_NodeList (g_Status g).

(** What the cluster may do to the gateways between two states of it, when
    the controller writes no status: every status that is stored afterwards
    was stored under that name before, or is empty. *)
Definition evolves {W} `{ApiServer W} (w w' : W) : Prop :=
  ∀ k g', gateways w' !! k = Some g' →
    nodes_of g' = [] ∨ ∃ g, gateways w !! k = Some g ∧ nodes_of g' = nodes_of g.

(** The same when the controller writes the status of [sent]; the write may
    have taken effect even if an error is returned. *)
Definition evolves_writing {W} `{ApiServer W} (sent : EgressGateway) (w w' : W) : Prop :=
  ∀ k g', gateways w' !! k = Some g' →
    nodes_of g' = [] ∨ nodes_of g' = nodes_of sent ∨ ∃ g, gateways w !! k = Some g ∧ nodes_of g' = nodes_of g.

Class ApiServerLaws (W : Type) `{A : ApiServer W} := {
  getGateway_evolves n w : evolves w (getGateway n w).1;
  getGateway_stored n w w' g : getGateway n w = (w', Ret g) → gateways w' !! n = Some g;
  listGateways_evolves w : evolves w (listGateways w).1;
  listGateways_stored w w' l : listGateways w = (w', Ret l) → ∀ g, g ∈ l → ∃ k, gateways w' !! k = Some g;
  updateGatewayStatus_evolves g w : evolves_writing g w (updateGatewayStatus g w).1;
  updateGatewayStatus_stored g w w' g' : updateGatewayStatus g w = (w', Ret g') → nodes_of g' = nodes_of g;
  updateGateway_evolves g w : evolves w (updateGateway g w).1;
  getTunnel_evolves n w : evolves w (getTunnel n w).1;
  getNode_evolves n w : evolves w (getNode n w).1;
  listNodes_evolves s w : evolves w (listNodes s w).1;
  getPolicy_evolves n w : evolves w (getPolicy n w).1;
  listPolicies_evolves w : evolves w (listPolicies w).1;
  updatePolicyStatus_evolves p w : evolves w (updatePolicyStatus p w).1;
  getClusterPolicy_evolves n w : evolves w (getClusterPolicy n w).1;
  listClusterPolicies_evolves w : evolves w (listClusterPolicies w).1;
  updateClusterPolicyStatus_evolves p w : evolves w (updateClusterPolicyStatus p w).1
}.
