(* ===== verification/GatewayReconcile.v ===== *)
(** * The gateway controller ([pkg/egressgateway/egress_gateway.go], the
    reconcilers)

    [egnReconciler] reacts to changes of gateways, policies, nodes and tunnels
    by rewriting gateway statuses, then the statuses of the policies.  Each
    handler is one definition in the monad of [ApiServer]; a gateway that the
    Go code changes through a pointer is passed and returned.  When a handler
    returns an error the [reconcile.Result] beside it is ignored by
    controller-runtime and is not kept. *)

From S2P Require Import Prelude GoStd GoNet IPUtil Types GatewayCore ApiServer Utils.
Open Scope nat_scope.

Definition egressGatewayFinalizers : string := "egressgateway.spidernet.io/egressgateway".
Definition ErrNotEnoughIP : error := ErrNew "not enough ip".

(** The first node of a given name, and the list without it. *)
Fixpoint takeNode (name : string) (nodes : list EgressIPStatus) : option (EgressIPStatus * list EgressIPStatus) :=
  match nodes with
  | [] => None
  | n :: nodes' =>
      if decide (n_Name n = name) then Some (n, nodes')
      else match takeNode name nodes' with
           | Some (m, rest) => Some (m, n :: rest)
           | None => None
           end
  end.

(** The index of the first node of a given name. *)
Fixpoint nodeIndexOf (name : string) (i : nat) (nodes : list EgressIPStatus) : option (nat * EgressIPStatus) :=
  match nodes with
  | [] => None
  | n :: nodes' => if decide (n_Name n = name) then Some (i, n) else nodeIndexOf name (S i) nodes'
  end.

Section reconcile.
Context {W : Type} `{LS : LabelSelectors} `{AS : !ApiServer W} `{MO : MapOrder} `{RD : Rand}.

(** ** Policy statuses *)

Definition statusOf (a : AssignedIP) : EgressPolicyStatus := mkPolicyStatus (mkEip (a_IPv4 a) (a_IPv6 a)) (a_Node a).

(** On a conflict the policy is read again and written back as read; the
    conflict is returned even if that succeeds, and a failed second read that
    is not "not found" returns no error. *)
Definition updateEgressPolicyStatusIfNeed (policy : EgressPolicy) (assignedIP : AssignedIP) : M W unit :=
  let st := ep_Status policy in
  if bool_decide (st_Ipv4 (ps_Eip st) ≠ a_IPv4 assignedIP) || bool_decide (st_Ipv6 (ps_Eip st) ≠ a_IPv6 assignedIP) ||
     bool_decide (ps_Node st ≠ a_Node assignedIP)
  then
    let policy' := mkEgressPolicy (ep_Meta policy) (ep_Spec policy) (statusOf assignedIP) in
    let* r := attempt (updatePolicyStatus policy') in
    match r with
    | inl _ => mret tt
    | inr err =>
        if IsConflict err then
          let* r2 := attempt (getPolicy (mkNN (om_Namespace (ep_Meta policy)) (om_Name (ep_Meta policy)))) in
          match r2 with
          | inr err2 => if negb (IsNotFound err2) then mret tt else merr err2
          | inl fresh =>
              let* r3 := attempt (updatePolicyStatus fresh) in
              match r3 with
              | inr err3 => merr err3
              | inl _ => merr err
              end
          end
        else merr err
    end
  else mret tt.

Definition updateEgressClusterPolicyStatusIfNeed (policy : EgressClusterPolicy) (assignedIP : AssignedIP) : M W unit :=
  let st := cp_Status policy in
  if bool_decide (st_Ipv4 (ps_Eip st) ≠ a_IPv4 assignedIP) || bool_decide (st_Ipv6 (ps_Eip st) ≠ a_IPv6 assignedIP) ||
     bool_decide (ps_Node st ≠ a_Node assignedIP)
  then
    let policy' := mkEgressClusterPolicy (cp_Meta policy) (cp_Spec policy) (statusOf assignedIP) in
    let* r := attempt (updateClusterPolicyStatus policy') in
    match r with
    | inl _ => mret tt
    | inr err =>
        if IsConflict err then
          let* r2 := attempt (getClusterPolicy (mkNN (om_Namespace (cp_Meta policy)) (om_Name (cp_Meta policy)))) in
          match r2 with
          | inr err2 => if negb (IsNotFound err2) then mret tt else merr err2
          | inl fresh =>
              let* r3 := attempt (updateClusterPolicyStatus fresh) in
              match r3 with
              | inr err3 => merr err3
              | inl _ => merr err
              end
          end
        else merr err
    end
  else mret tt.

(** One policy of an EIP gets the given assignment. *)
Definition syncPolicy (assigned : bool → AssignedIP) (p : Policy) : M W unit :=
  let key := mkNN (p_Namespace p) (p_Name p) in
  if decide (p_Namespace p ≠ "") then
    let* policy := getPolicy key in
    updateEgressPolicyStatusIfNeed policy (assigned (eip_UseNodeIP (pol_EgressIP (ep_Spec policy))))
  else
    let* policy := getClusterPolicy key in
    updateEgressClusterPolicyStatusIfNeed policy (assigned (eip_UseNodeIP (cpol_EgressIP (cp_Spec policy)))).

Definition updateAllPolicyStatus (egw : EgressGateway) : M W unit :=
  mforeach (λ node _,
    mforeach (λ eip _,
      let useNodeIP := isBlank eip in
      let assignedIP := mkAssigned (n_Name node) (e_IPv4 eip) (e_IPv6 eip) useNodeIP in
      mforeach (λ p _, syncPolicy (λ _, assignedIP) p) (e_Policies eip) tt)
    (n_Eips node) tt)
  (NodeList egw) tt.

Definition cleanPolicyStatus (eips : list Eips) : M W unit :=
  mforeach (λ eip _,
    mforeach (λ p _, syncPolicy (λ useNodeIP, mkAssigned "" "" "" useNodeIP) p) (e_Policies eip) tt)
  eips tt.

(** ** Writing a gateway status *)

(** The gateway argument is a non-nil pointer at every call.  [Status().Update]
    decodes the stored object into the gateway. *)
Definition updateGatewayStatusWithUsage (gateway : EgressGateway) : M W EgressGateway :=
  match countGatewayIP gateway with
  | Err _ => merr (ErrNew "failed to calculate gateway ip usage")
  | Panic s => lift (Panic s)
  | Timeout => lift Timeout
  | Ret (ipv4sFree, ipv6sFree, ipv4sTotal, ipv6sTotal) =>
      updateGatewayStatus (set_IPUsage gateway (mkIPUsage ipv4sTotal ipv4sFree ipv6sTotal ipv6sFree))
  end.

(** The sequence that ends a handler which changed a gateway status. *)
Definition syncGateway (egw : EgressGateway) (needMoveIPs : list Eips) : M W unit :=
  let* egw := updateGatewayStatusWithUsage egw in
  let* _ := updateAllPolicyStatus egw in
  cleanPolicyStatus needMoveIPs.

(** [assignIP] with its error and its nil result turned into errors. *)
Definition assignOrFail (gateway : EgressGateway) (req : NamespacedName) (spec : EgressIP)
    : M W (EgressGateway * AssignedIP) :=
  let '(gateway', r) := assignIP gateway req spec in
  let* assigned := lift r in
  match assigned with
  | None => merr ErrNotEnoughIP
  | Some a => mret (gateway', a)
  end.

Definition reAssignEgressPolicyIP (req : NamespacedName) (gateway : EgressGateway) (policy : EgressPolicy)
    : M W EgressGateway :=
  match getAssignedIP gateway (nn_Namespace req) (nn_Name req) with
  | None =>
      let* (gateway, a) := assignOrFail gateway req (pol_EgressIP (ep_Spec policy)) in
      let* gateway := updateGatewayStatusWithUsage gateway in
      let* _ := updateEgressPolicyStatusIfNeed policy a in
      mret gateway
  | Some a =>
      let* _ := updateEgressPolicyStatusIfNeed policy a in
      mret gateway
  end.

(** Unlike its counterpart it does not write the gateway. *)
Definition reAssignEgressClusterPolicyIP (req : NamespacedName) (gateway : EgressGateway) (policy : EgressClusterPolicy)
    : M W EgressGateway :=
  match getAssignedIP gateway (nn_Namespace req) (nn_Name req) with
  | None =>
      let* (gateway, a) := assignOrFail gateway req (cpol_EgressIP (cp_Spec policy)) in
      let* _ := updateEgressClusterPolicyStatusIfNeed policy a in
      mret gateway
  | Some a =>
      let* _ := updateEgressClusterPolicyStatusIfNeed policy a in
      mret gateway
  end.

Definition checkAndUpdateAllPolicyIfNeedWhenFirstNodeReady (egw : EgressGateway) : M W EgressGateway :=
  let* clusterPolicies := listClusterPolicies in
  let* egw := mforeach (λ p egw,
    if decide (cpol_EgressGatewayName (cp_Spec p) = om_Name (g_Meta egw))
    then reAssignEgressClusterPolicyIP (mkNN (om_Namespace (cp_Meta p)) (om_Name (cp_Meta p))) egw p
    else mret egw) clusterPolicies egw in
  let* policies := listPolicies in
  mforeach (λ p egw,
    if decide (pol_EgressGatewayName (ep_Spec p) = om_Name (g_Meta egw))
    then reAssignEgressPolicyIP (mkNN (om_Namespace (ep_Meta p)) (om_Name (ep_Meta p))) egw p
    else mret egw) policies egw.

(** [if len(needMoveIPs) > 0 { moveEipToReadyNode(...) }]. *)
Definition moveIfNeeded (egw : EgressGateway) (needMoveIPs : list Eips) : M W (EgressGateway * list Eips) :=
  if decide (0 < length needMoveIPs) then lift (moveEipToReadyNode egw needMoveIPs) else mret (egw, needMoveIPs).

(** ** Tunnels *)

(** One gateway, when the tunnel of node [name] is gone. *)
Definition tunnelDeleted (name : string) (egw : EgressGateway) : M W unit :=
  match takeNode name (NodeList egw) with
  | None => mret tt
  | Some (node, rest) =>
      let* (egw, needMoveIPs) := moveIfNeeded (set_NodeList egw rest) (n_Eips node) in
      syncGateway egw needMoveIPs
  end.

(** One gateway, when the tunnel of node [name] has phase [phase]. *)
Definition tunnelUpdated (name : string) (phase : EgressTunnelPhase) (egw : EgressGateway) : M W unit :=
  match nodeIndexOf name 0 (NodeList egw) with
  | None => mret tt
  | Some (i, node) =>
      if decide (phase = EgressTunnelReady) then
        if IsNotEqual phase (n_Status node) then
          let egw := updNode egw i (λ n, node_set_Status n phase) in
          let* egw := (if decide (ReadyCount (g_Status egw) = 1)
                       then checkAndUpdateAllPolicyIfNeedWhenFirstNodeReady egw else mret egw) in
          syncGateway egw []
        else mret tt
      else
        let needMoveIPs := n_Eips node in
        let changed := bool_decide (0 < length (n_Eips node)) || IsNotEqual phase (n_Status node) in
        let egw := if decide (0 < length (n_Eips node)) then updNode egw i (λ n, node_set_Eips n []) else egw in
        let egw := if IsNotEqual phase (n_Status node) then updNode egw i (λ n, node_set_Status n phase) else egw in
        let* (egw, needMoveIPs) := moveIfNeeded egw needMoveIPs in
        if changed then syncGateway egw needMoveIPs else mret tt
  end.

Definition reconcileTunnel (req : NamespacedName) : M W Result :=
  let* tunnel := getOrAbsent (getTunnel (nn_Name req)) in
  let deleted := match tunnel with None => true | Some t => om_Deleting (t_Meta t) end in
  let* egwList := listGateways in
  let* _ := mforeach (λ egw _,
    if deleted then tunnelDeleted (nn_Name req) egw
    else tunnelUpdated (nn_Name req) (match tunnel with None => "" | Some t => ts_Phase (t_Status t) end) egw)
    egwList tt in
  mret done_.

(** ** Nodes *)

(** The status a node enters the list with. *)
Definition tunnelPhase (name : string) : M W EgressTunnelPhase :=
  let* t := getOrAbsent (getTunnel name) in
  mret (match t with None => EgressTunnelPending | Some t => ts_Phase (t_Status t) end).

Definition nodeChanged (node : Node) (egw : EgressGateway) : M W unit :=
  let name := om_Name (node_Meta node) in
  let* selector := lift (LabelSelectorAsSelector (ns_Selector (spec_NodeSelector (g_Spec egw)))) in
  if Matches selector (om_Labels (node_Meta node)) then
    match nodeIndexOf name 0 (NodeList egw) with
    | Some _ => mret tt
    | None =>
        let* status := tunnelPhase name in
        let egw := set_NodeList egw (NodeList egw ++ [mkEgressIPStatus name [] status]) in
        let* egw := checkAndUpdateAllPolicyIfNeedWhenFirstNodeReady egw in
        syncGateway egw []
    end
  else
    match takeNode name (NodeList egw) with
    | None => mret tt
    | Some (item, rest) =>
        let* (egw, needMoveIPs) := moveIfNeeded (set_NodeList egw rest) (n_Eips item) in
        syncGateway egw needMoveIPs
    end.

Definition reconcileNode (req : NamespacedName) : M W Result :=
  let* node := getOrAbsent (getNode (nn_Name req)) in
  match node with
  | None => mret done_
  | Some node =>
      if om_Deleting (node_Meta node) then mret done_
      else
        let* egwList := listGateways in
        let* _ := mforeach (λ egw _, nodeChanged node egw) egwList tt in
        mret done_
  end.

(** ** Gateways *)

(** The second list goes into the same variable as the first, so that cluster
    policies are never counted. *)
Definition getPolicyCountByGatewayName (name : string) : M W nat :=
  let* items := listPolicies in
  let num := length (filter (λ p, pol_EgressGatewayName (ep_Spec p) = name) items) in
  let* _ := listPolicies in
  let policyListItems : list EgressClusterPolicy := [] in
  mret (num + length (filter (λ p, cpol_EgressGatewayName (cp_Spec p) = name) policyListItems)).

(** The variables of the loop over the node list: the nodes passed, the nodes
    from index [i] on, the names not seen yet, the EIPs to move, and whether
    the status changed. *)
Record NodeLoop := mkLoop {
  lp_passed : list EgressIPStatus;
  lp_rest : list EgressIPStatus;
  lp_names : gset string;
  lp_move : list Eips;
  lp_update : bool
}.

(** One turn.  A node without a tunnel is not passed: the next turn sees it
    again, with its name taken out of the map. *)
Definition nodeLoopTurn (s : NodeLoop) (node : EgressIPStatus) (rest : list EgressIPStatus) : M W NodeLoop :=
  if decide (n_Name node ∈ lp_names s) then
    let names := lp_names s ∖ {[n_Name node]} in
    let* tunnel := getOrAbsent (getTunnel (n_Name node)) in
    match tunnel with
    | None =>
        if IsNotEqual EgressTunnelPending (n_Status node) then
          mret (mkLoop (lp_passed s) (mkEgressIPStatus (n_Name node) [] EgressTunnelPending :: rest) names
                  (lp_move s ++ n_Eips node) true)
        else mret (mkLoop (lp_passed s) (node :: rest) names (lp_move s) (lp_update s))
    | Some tunnel =>
        if IsNotEqual (ts_Phase (t_Status tunnel)) (n_Status node) then
          mret (mkLoop (lp_passed s ++ [node_set_Status node EgressTunnelPending]) rest names (lp_move s) true)
        else mret (mkLoop (lp_passed s ++ [node]) rest names (lp_move s) (lp_update s))
    end
  else mret (mkLoop (lp_passed s) rest (lp_names s) (lp_move s ++ n_Eips node) true).

Fixpoint nodeLoop (fuel : nat) (s : NodeLoop) : M W NodeLoop :=
  match lp_rest s with
  | [] => mret s
  | node :: rest =>
      match fuel with
      | O => lift Timeout
      | S fuel' => let* s' := nodeLoopTurn s node rest in nodeLoop fuel' s'
      end
  end.

(** "add k8s nodes to gateway match list". *)
Definition addNodes (names : gset string) (egw : EgressGateway) : M W EgressGateway :=
  mforeach (λ name egw,
    let* status := tunnelPhase name in
    mret (set_NodeList egw (NodeList egw ++ [mkEgressIPStatus name [] status])))
    (map_order (elements names)) egw.

(** "first create egw update usage". *)
Definition usageMissing (egw : EgressGateway) : bool :=
  let u := s_IPUsage (g_Status egw) in
  let pools := spec_Ippools (g_Spec egw) in
  (bool_decide (u_IPv4Total u = 0%Z) && bool_decide (length (pool_IPv4 pools) ≠ 0)) ||
  (bool_decide (u_IPv6Total u = 0%Z) || bool_decide (length (pool_IPv6 pools) ≠ 0)).

Definition gatewayDeleted (req : NamespacedName) (egw : EgressGateway) : M W Result :=
  let* count := getPolicyCountByGatewayName (nn_Name req) in
  if bool_decide (count = 0) && bool_decide (om_Name (g_Meta egw) ≠ "") then
    let* _ := updateGateway (mkGateway (RemoveFinalizers (g_Meta egw) [egressGatewayFinalizers])
                               (g_Spec egw) (g_Status egw)) in
    mret done_
  else mret done_.

(** Two turns per node are enough: see [nodeLoop_terminates]. *)
Definition gatewayUpdated (egw : EgressGateway) : M W Result :=
  let* selector := lift (LabelSelectorAsSelector (ns_Selector (spec_NodeSelector (g_Spec egw)))) in
  let* k8sNodeList := listNodes selector in
  let names : gset string := list_to_set ((λ n, om_Name (node_Meta n)) <$> k8sNodeList) in
  let* s := nodeLoop (2 * length (NodeList egw)) (mkLoop [] (NodeList egw) names [] false) in
  let egw := set_NodeList egw (lp_passed s) in
  let beforeReadyCount := ReadyCount (g_Status egw) in
  let* egw := addNodes (lp_names s) egw in
  let needUpdate := lp_update s || bool_decide (lp_names s ≠ ∅) in
  let* (egw, needMoveIPs) := moveIfNeeded egw (lp_move s) in
  let* egw := (if decide (beforeReadyCount = 0) then checkAndUpdateAllPolicyIfNeedWhenFirstNodeReady egw else mret egw) in
  let needUpdate := needUpdate || usageMissing egw in
  let* _ := (if needUpdate then syncGateway egw needMoveIPs else mret tt) in
  mret done_.

Definition reconcileGateway (req : NamespacedName) : M W Result :=
  let* egw := getOrAbsent (getGateway (nn_Name req)) in
  match egw with
  | None => gatewayDeleted req zeroGateway
  | Some egw => if om_Deleting (g_Meta egw) then gatewayDeleted req egw else gatewayUpdated egw
  end.

(** ** Policies *)

(** The first gateway of a list that holds the policy is updated. *)
Fixpoint deleteInFirst (req : NamespacedName) (gateways : list EgressGateway) : M W unit :=
  match gateways with
  | [] => mret tt
  | gateway :: gateways' =>
      let '(gateway, update) := deleteEgressPolicy gateway (nn_Namespace req) (nn_Name req) in
      if update : bool then let* _ := updateGatewayStatusWithUsage gateway in mret tt
      else deleteInFirst req gateways'
  end.

Definition reconcileDeletePolicy (req : NamespacedName) (egwName : string) : M W Result :=
  if decide (egwName = "") then
    let* gatewayList := attempt listGateways in
    match gatewayList with
    | inr err => if IsNotFound err then mret done_ else merr err
    | inl gatewayList => let* _ := deleteInFirst req gatewayList in mret done_
    end
  else
    let* gateway := getOrAbsent (getGateway egwName) in
    match gateway with
    | None => mret done_
    | Some gateway =>
        if decide (om_Name (g_Meta gateway) ≠ "") then
          let '(gateway, update) := deleteEgressPolicy gateway (nn_Namespace req) (nn_Name req) in
          let* _ := (if update : bool then updateGatewayStatusWithUsage gateway else mret gateway) in
          mret done_
        else mret done_
    end.

Definition ErrNoGateway : error := ErrNew "reconcile EgressPolicy, not found egress gateway".

Definition reconcileEgressClusterPolicy (req : NamespacedName) : M W Result :=
  let* r := getOrAbsent (getClusterPolicy req) in
  let policy := default zeroEgressClusterPolicy r in
  let deleted := match r with None => true | Some p => om_Deleting (cp_Meta p) end in
  let gatewayName := cpol_EgressGatewayName (cp_Spec policy) in
  if deleted then reconcileDeletePolicy req gatewayName
  else if bool_decide (om_Name (cp_Meta policy) ≠ "") && bool_decide (gatewayName ≠ "") then
    let* gateway := getOrAbsent (getGateway gatewayName) in
    match gateway with
    | None => merr ErrNoGateway
    | Some gateway =>
        match getAssignedIP gateway (nn_Namespace req) (nn_Name req) with
        | None =>
            let* (gateway, a) := assignOrFail gateway req (cpol_EgressIP (cp_Spec policy)) in
            let* _ := updateGatewayStatusWithUsage gateway in
            let* _ := updateEgressClusterPolicyStatusIfNeed policy a in
            mret done_
        | Some a => let* _ := updateEgressClusterPolicyStatusIfNeed policy a in mret done_
        end
    end
  else mret done_.

(** Its code for a deleted policy repeats [reconcileDeletePolicy]. *)
Definition reconcileEgressPolicy (req : NamespacedName) : M W Result :=
  let* r := getOrAbsent (getPolicy req) in
  let policy := default zeroEgressPolicy r in
  let deleted := match r with None => true | Some p => om_Deleting (ep_Meta p) end in
  let gatewayName := pol_EgressGatewayName (ep_Spec policy) in
  if deleted then reconcileDeletePolicy req gatewayName
  else if bool_decide (om_Name (ep_Meta policy) ≠ "") && bool_decide (gatewayName ≠ "") then
    let* gateway := getOrAbsent (getGateway gatewayName) in
    match gateway with
    | None => merr ErrNoGateway
    | Some gateway =>
        match getAssignedIP gateway (nn_Namespace req) (nn_Name req) with
        | None =>
            let* (gateway, a) := assignOrFail gateway req (pol_EgressIP (ep_Spec policy)) in
            let* _ := updateGatewayStatusWithUsage gateway in
            let* _ := updateEgressPolicyStatusIfNeed policy a in
            mret done_
        | Some a => let* _ := updateEgressPolicyStatusIfNeed policy a in mret done_
        end
    end
  else mret done_.

(** ** Dispatch *)

Definition Reconcile (req : NamespacedName) : M W Result :=
  let* (kind, newReq) := lift (ParseKindWithReq req) in
  if decide (kind = "EgressGateway") then reconcileGateway newReq
  else if decide (kind = "EgressClusterPolicy") then reconcileEgressClusterPolicy newReq
  else if decide (kind = "EgressPolicy") then reconcileEgressPolicy newReq
  else if decide (kind = "Node") then reconcileNode newReq
  else if decide (kind = "EgressTunnel") then reconcileTunnel newReq
  else mret done_.
End reconcile.
