(* ===== verification/GatewayInvariant.v ===== *)
(** * The gateway controller keeps every gateway status well formed

    A small program logic for the monad of [ApiServer]: [safe c Q] says that
    [c], run in a cluster whose stored gateways are all well formed, leaves
    all stored gateways well formed whatever its outcome (a value, an error at
    any call, a panic), and that a value it returns satisfies [Q].  Other
    clients may act between any two calls, within the laws of
    [ApiServerLaws]. *)

From S2P Require Import Prelude GoStd GoNet IPUtil Types GatewayCore GatewayProps ApiServer Utils GatewayReconcile.
Open Scope nat_scope.

(** ** Changes of a node list that keep it well formed *)

#[export] Instance gw_ok_Permutation : Proper ((≡ₚ) ==> iff) gw_ok.
Proof.
  assert (∀ l l', l ≡ₚ l' → gw_ok l → gw_ok l') as Himp.
  { intros l l' Hl [Hn Hp H4 H6 Hh].
    assert (allEips l ≡ₚ allEips l') as He by (unfold allEips; by rewrite Hl).
    split.
    - by rewrite <- Hl.
    - unfold allPolicies in *. by rewrite <- He.
    - by rewrite <- (placed_Permutation _ _ _ He).
    - by rewrite <- (placed_Permutation _ _ _ He).
    - by rewrite <- He. }
  intros l l' Hl. split; apply Himp; [done|by symmetry].
Qed.

Lemma gw_ok_nil : gw_ok [].
Proof. split; constructor. Qed.

Lemma gw_ok_status n1 n n2 s : gw_ok (n1 ++ n :: n2) → gw_ok (n1 ++ node_set_Status n s :: n2).
Proof. intros [Hn Hp H4 H6 Hh]. split; revert Hn Hp H4 H6 Hh; autorewrite with gateway; done. Qed.

Lemma moving_status n1 n n2 s need : moving_ok (n1 ++ n :: n2) need → moving_ok (n1 ++ node_set_Status n s :: n2) need.
Proof. intros [Hn Hp H4 H6 Hh]. split; revert Hn Hp H4 H6 Hh; autorewrite with gateway; done. Qed.

(** Taking a node away, or emptying it, sets its EIPs moving. *)
Lemma moving_remove n1 n n2 need : moving_ok (n1 ++ n :: n2) need → moving_ok (n1 ++ n2) (need ++ n_Eips n).
Proof.
  intros [Hn Hp H4 H6 Hh]. split; revert Hn Hp H4 H6 Hh; autorewrite with gateway; intros Hn Hp H4 H6 Hh.
  - eapply NoDup_Permutation_proper in Hn; [|apply Permutation_middle]. by apply NoDup_cons in Hn as [_ ?].
  - eapply NoDup_Permutation_proper; [|exact Hp]. solve_Permutation.
  - eapply NoDup_Permutation_proper; [|exact H4]. solve_Permutation.
  - eapply NoDup_Permutation_proper; [|exact H6]. solve_Permutation.
  - rewrite !Forall_app in *. tauto.
Qed.

Lemma moving_empty n1 n n2 s need : moving_ok (n1 ++ n :: n2) need →
  moving_ok (n1 ++ mkEgressIPStatus (n_Name n) [] s :: n2) (need ++ n_Eips n).
Proof.
  intros [Hn Hp H4 H6 Hh]. split; revert Hn Hp H4 H6 Hh; autorewrite with gateway; cbn [n_Eips n_Name mbind list_bind app];
    intros Hn Hp H4 H6 Hh.
  - done.
  - eapply NoDup_Permutation_proper; [|exact Hp]. solve_Permutation.
  - eapply NoDup_Permutation_proper; [|exact H4]. solve_Permutation.
  - eapply NoDup_Permutation_proper; [|exact H6]. solve_Permutation.
  - rewrite !Forall_app in *. tauto.
Qed.

Lemma moving_add nodes name s need : (name ∉ n_Name <$> nodes) → moving_ok nodes need →
  moving_ok (nodes ++ [mkEgressIPStatus name [] s]) need.
Proof.
  intros Hf [Hn Hp H4 H6 Hh]. split; autorewrite with gateway; cbn [n_Eips n_Name fmap list_fmap].
  - apply NoDup_app. split_and!; [done| |apply NoDup_singleton]. intros x Hx ->%list_elem_of_singleton. done.
  - done.
  - by rewrite <- placed_app.
  - by rewrite <- placed_app.
  - done.
Qed.

Lemma gw_ok_add nodes name s : (name ∉ n_Name <$> nodes) → gw_ok nodes → gw_ok (nodes ++ [mkEgressIPStatus name [] s]).
Proof. intros Hf Hok. apply (moving_drop _ []), moving_add; [done|]. by apply moving_none. Qed.

Lemma takeNode_Some name nodes n rest : takeNode name nodes = Some (n, rest) →
  ∃ n1 n2, nodes = n1 ++ n :: n2 ∧ rest = n1 ++ n2.
Proof.
  revert rest. induction nodes as [|a nodes IH]; intros rest; simpl; [done|]. case_decide.
  - intros [= <- <-]. by exists [], nodes.
  - destruct (takeNode name nodes) as [[m r]|]; [|done]. intros [= -> <-].
    destruct (IH r eq_refl) as (n1 & n2 & -> & ->). by exists (a :: n1), n2.
Qed.

Lemma nodeIndexOf_Some name i nodes k n : nodeIndexOf name i nodes = Some (k, n) →
  nodes !! (k - i) = Some n ∧ i <= k ∧ n_Name n = name.
Proof.
  revert i. induction nodes as [|a nodes IH]; intros i; simpl; [done|]. case_decide.
  - intros [= <- <-]. by rewrite Nat.sub_diag.
  - intros Hn. apply IH in Hn as (Hl & Hle & ?). split_and!; [|lia|done].
    replace (k - i) with (S (k - S i)) by lia. done.
Qed.

Lemma nodeIndexOf_None name i nodes : nodeIndexOf name i nodes = None ↔ name ∉ n_Name <$> nodes.
Proof.
  revert i. induction nodes as [|a nodes IH]; intros i; simpl; [split; [set_solver|done]|].
  case_decide as Hd; [split; [done|set_solver]|]. rewrite IH. set_solver.
Qed.

(** ** The program logic *)

Section logic.
Context {W : Type} `{LS : LabelSelectors} `{AS : !ApiServer W} `{AL : !ApiServerLaws W}.

Definition AllOk (w : W) : Prop := ∀ k g, gateways w !! k = Some g → gw_ok (NodeList g).

Definition safe {A} (c : M W A) (Q : A → Prop) : Prop :=
  ∀ w, AllOk w → AllOk (c w).1 ∧ ∀ a, (c w).2 = Ret a → Q a.

Lemma safe_ret {A} (a : A) (Q : A → Prop) : Q a → safe (mret a) Q.
Proof using. intros HQ w Hw. split; [done|]. by intros a' [= <-]. Qed.
Lemma safe_err {A} e (Q : A → Prop) : safe (merr e) Q.
Proof using. intros w Hw. split; [done|]. done. Qed.
Lemma safe_lift {A} (c : outcome A) (Q : A → Prop) : (∀ a, c = Ret a → Q a) → safe (lift c) Q.
Proof using. intros HQ w Hw. split; [done|]. simpl. done. Qed.

Lemma safe_bind {A B} (c : M W A) (k : A → M W B) Q R :
  safe c Q → (∀ a, Q a → safe (k a) R) → safe (mbind_ c k) R.
Proof using.
  intros Hc Hk w Hw. unfold mbind_. specialize (Hc w Hw). destruct (c w) as [w' [a| | |]]; simpl in *;
    destruct Hc as [Hw' HQ]; try (split; [done|by intros ? ?]). apply Hk; auto.
Qed.

Lemma safe_weaken {A} (c : M W A) (Q R : A → Prop) : safe c Q → (∀ a, Q a → R a) → safe c R.
Proof using. intros Hc HQR w Hw. destruct (Hc w Hw) as [? HQ]. split; [done|]. auto. Qed.

Lemma safe_attempt {A} (c : M W A) (Q : A → Prop) :
  safe c Q → safe (attempt c) (λ r, match r with inl a => Q a | inr _ => True end).
Proof using.
  intros Hc w Hw. specialize (Hc w Hw). unfold attempt. destruct (c w) as [w' [a| | |]]; simpl in *;
    destruct Hc as [Hw' HQ]; (split; [done|]); intros ? [= <-]; auto.
Qed.

Lemma safe_getOrAbsent {A} (c : M W A) (Q : A → Prop) :
  safe c Q → safe (getOrAbsent c) (λ r, match r with Some a => Q a | None => True end).
Proof using.
  intros Hc. unfold getOrAbsent. eapply safe_bind; [by apply safe_attempt|].
  intros [a|e] Hr; [by apply safe_ret|]. destruct (IsNotFound e); [by apply safe_ret|apply safe_err].
Qed.

Lemma safe_foreach {A S} (f : A → S → M W S) l s (P : A → Prop) (I : S → Prop) :
  Forall P l → I s → (∀ x s, P x → I s → safe (f x s) I) → safe (mforeach f l s) I.
Proof using.
  intros Hl Hs Hf. revert s Hs. induction Hl as [|x l Hx _ IH]; intros s Hs; simpl; [by apply safe_ret|].
  eapply safe_bind; [by apply Hf|]. auto.
Qed.

Lemma safe_evolves {A} (c : M W A) : (∀ w, evolves w (c w).1) → safe c (λ _, True).
Proof using.
  intros Hc w Hw. split; [|done]. intros k g Hg. destruct (Hc w k g Hg) as [Hn|(g0 & Hg0 & Hn)];
    unfold NodeList in *; unfold nodes_of in Hn; rewrite Hn; [apply gw_ok_nil|by eapply Hw].
Qed.

Lemma safe_getGateway n : safe (getGateway n) (λ g, gw_ok (NodeList g)).
Proof using AL.
  intros w Hw. destruct (safe_evolves (getGateway n) (getGateway_evolves n) w Hw) as [Hok _]. split; [done|].
  intros g Hg. destruct (getGateway n w) as [w' o] eqn:E. simpl in *. subst o.
  eapply Hok. by eapply getGateway_stored.
Qed.

Lemma safe_listGateways : safe listGateways (Forall (λ g, gw_ok (NodeList g))).
Proof using AL.
  intros w Hw. destruct (safe_evolves listGateways listGateways_evolves w Hw) as [Hok _]. split; [done|].
  intros l Hl. destruct (listGateways w) as [w' o] eqn:E. simpl in *. subst o.
  apply Forall_forall. intros g Hg. destruct (listGateways_stored _ _ _ E g Hg) as [k Hk]. by eapply Hok.
Qed.

Lemma safe_updateGatewayStatus g : gw_ok (NodeList g) → safe (updateGatewayStatus g) (λ g', gw_ok (NodeList g')).
Proof using AL.
  intros Hg w Hw. split.
  - intros k h Hh. destruct (updateGatewayStatus_evolves g w k h Hh) as [Hn|[Hn|(g0 & Hg0 & Hn)]];
      unfold NodeList in *; unfold nodes_of in Hn; rewrite Hn; [apply gw_ok_nil|done|by eapply Hw].
  - intros g' Hg'. destruct (updateGatewayStatus g w) as [w' o] eqn:E. simpl in Hg'. subst o.
    apply updateGatewayStatus_stored in E. unfold NodeList in *. unfold nodes_of in E. by rewrite E.
Qed.
End logic.

(** The loop over the node list: nothing is lost while EIPs are set aside, and
    the names still to be added are not in the list. *)
Definition loop_ok (s : NodeLoop) : Prop :=
  moving_ok (lp_passed s ++ lp_rest s) (lp_move s) ∧ ∀ n, n ∈ lp_passed s → n_Name n ∉ lp_names s.

Lemma loop_ok_pass s node rest node' names update :
  loop_ok s → lp_rest s = node :: rest → n_Name node' = n_Name node → n_Eips node' = n_Eips node →
  names = lp_names s ∖ {[n_Name node]} →
  loop_ok (mkLoop (lp_passed s ++ [node']) rest names (lp_move s) update).
Proof.
  intros [Hm Hn] Hr Hname Heips ->. rewrite Hr in Hm. split; simpl.
  - rewrite <- app_assoc. simpl. apply (moving_status _ _ _ (n_Status node')) in Hm.
    destruct node, node'; simpl in *; subst. done.
  - intros n [Hin| ->%list_elem_of_singleton]%elem_of_app; [specialize (Hn n Hin); set_solver|].
    rewrite Hname. set_solver.
Qed.

(** Calls that do not write a gateway status, composed in any way. *)
Ltac safe_call :=
  solve [ apply safe_evolves;
          first [ apply getTunnel_evolves | apply getNode_evolves | apply listNodes_evolves | apply getPolicy_evolves
                | apply listPolicies_evolves | apply updatePolicyStatus_evolves | apply getClusterPolicy_evolves
                | apply listClusterPolicies_evolves | apply updateClusterPolicyStatus_evolves
                | apply updateGateway_evolves ]
        | apply (safe_lift _ (λ _, True)); done ].
Ltac safe_step :=
  match goal with
  | |- safe (mret _) _ => apply safe_ret; done
  | |- safe (merr _) _ => apply safe_err
  | |- safe (mbind_ (attempt _) _) _ => eapply safe_bind; [apply safe_attempt; safe_call|intros [?|?] _]
  | |- safe (mbind_ (getOrAbsent _) _) _ => eapply safe_bind; [apply safe_getOrAbsent; safe_call|intros [?|] _]
  | |- safe (mbind_ _ _) _ => eapply safe_bind; [safe_call|intros ? _]
  | |- safe (if ?b then _ else _) _ => destruct b
  | |- safe (match ?b with _ => _ end) _ => destruct b
  end.

Section handlers.
Context {W : Type} `{LS : LabelSelectors} `{AS : !ApiServer W} `{AL : !ApiServerLaws W} `{MO : MapOrder} `{RD : Rand}.

Abbreviation any := (λ _, True).
Abbreviation ok := (λ g : EgressGateway, gw_ok (NodeList g)).

Lemma safe_policyStatus p a : safe (updateEgressPolicyStatusIfNeed p a) any.
Proof using AL. unfold updateEgressPolicyStatusIfNeed. repeat safe_step. Qed.
Lemma safe_clusterPolicyStatus p a : safe (updateEgressClusterPolicyStatusIfNeed p a) any.
Proof using AL. unfold updateEgressClusterPolicyStatusIfNeed. repeat safe_step. Qed.

Lemma safe_syncPolicy f p : safe (syncPolicy f p) any.
Proof using AL.
  unfold syncPolicy. case_decide; safe_step; [apply safe_policyStatus|apply safe_clusterPolicyStatus].
Qed.

Lemma safe_each {A} (f : A → unit → M W unit) l : (∀ x s, safe (f x s) any) → safe (mforeach f l tt) any.
Proof using. intros Hf. apply (safe_foreach _ _ _ any any); auto. by apply Forall_true. Qed.

Lemma safe_updateAllPolicyStatus egw : safe (updateAllPolicyStatus egw) any.
Proof using AL.
  unfold updateAllPolicyStatus. apply safe_each. intros node _. apply safe_each. intros eip _.
  apply safe_each. intros p _. apply safe_syncPolicy.
Qed.

Lemma safe_cleanPolicyStatus eips : safe (cleanPolicyStatus eips) any.
Proof using AL.
  unfold cleanPolicyStatus. apply safe_each. intros eip _. apply safe_each. intros p _. apply safe_syncPolicy.
Qed.

Lemma safe_updateGatewayStatusWithUsage g : ok g → safe (updateGatewayStatusWithUsage g) ok.
Proof using AL.
  intros Hg. unfold updateGatewayStatusWithUsage. destruct (countGatewayIP g) as [[[[a b] c] d]| | |].
  - by apply safe_updateGatewayStatus.
  - apply safe_err.
  - by apply safe_lift.
  - by apply safe_lift.
Qed.

Lemma safe_syncGateway g need : ok g → safe (syncGateway g need) any.
Proof using AL.
  intros Hg. unfold syncGateway. eapply safe_bind; [by apply safe_updateGatewayStatusWithUsage|].
  intros g' _. eapply safe_bind; [apply safe_updateAllPolicyStatus|]. intros _ _. apply safe_cleanPolicyStatus.
Qed.

Lemma safe_assignOrFail g req spec : ok g → getAssignedIP g (nn_Namespace req) (nn_Name req) = None →
  safe (assignOrFail g req spec) (λ r, ok r.1).
Proof using.
  intros Hg Hn. unfold assignOrFail. destruct (assignIP g req spec) as [g' r] eqn:Ha.
  eapply safe_bind; [by apply (safe_lift _ (λ a, r = Ret a))|]. intros [a|] Hr; [|apply safe_err].
  apply safe_ret. subst r. simpl. apply getAssignedIP_None in Hn.
  apply assignIP_records in Ha as [Hrec|(-> & _)]; [|done]. by eapply records_ok.
Qed.

Lemma safe_reAssignPolicy req g p : ok g → safe (reAssignEgressPolicyIP req g p) ok.
Proof using AL.
  intros Hg. unfold reAssignEgressPolicyIP. destruct (getAssignedIP _ _ _) as [a|] eqn:Ha.
  - eapply safe_bind; [apply safe_policyStatus|]. intros _ _. by apply safe_ret.
  - eapply safe_bind; [by apply safe_assignOrFail|]. intros [g' a] Hg'. simpl in Hg'.
    eapply safe_bind; [by apply safe_updateGatewayStatusWithUsage|]. intros g'' Hg''.
    eapply safe_bind; [apply safe_policyStatus|]. intros _ _. by apply safe_ret.
Qed.

Lemma safe_reAssignClusterPolicy req g p : ok g → safe (reAssignEgressClusterPolicyIP req g p) ok.
Proof using AL.
  intros Hg. unfold reAssignEgressClusterPolicyIP. destruct (getAssignedIP _ _ _) as [a|] eqn:Ha.
  - eapply safe_bind; [apply safe_clusterPolicyStatus|]. intros _ _. by apply safe_ret.
  - eapply safe_bind; [by apply safe_assignOrFail|]. intros [g' a] Hg'. simpl in Hg'.
    eapply safe_bind; [apply safe_clusterPolicyStatus|]. intros _ _. by apply safe_ret.
Qed.

Lemma safe_checkAll g : ok g → safe (checkAndUpdateAllPolicyIfNeedWhenFirstNodeReady g) ok.
Proof using AL.
  intros Hg. unfold checkAndUpdateAllPolicyIfNeedWhenFirstNodeReady. safe_step. eapply safe_bind.
  - apply (safe_foreach _ _ _ any ok); [by apply Forall_true|done|].
    intros p g' _ Hg'. case_decide; [by apply safe_reAssignClusterPolicy|by apply safe_ret].
  - intros g' Hg'. safe_step. apply (safe_foreach _ _ _ any ok); [by apply Forall_true|done|].
    intros p g'' _ Hg''. case_decide; [by apply safe_reAssignPolicy|by apply safe_ret].
Qed.

Lemma safe_moveIfNeeded g need : moving_ok (NodeList g) need → safe (moveIfNeeded g need) (λ r, ok r.1).
Proof using.
  intros Hm. unfold moveIfNeeded. case_decide.
  - apply safe_lift. intros [g' rest] Hr. simpl. by eapply moveEip_ok.
  - apply safe_ret. simpl. by eapply moving_drop.
Qed.

Lemma moving_take g name n rest : ok g → takeNode name (NodeList g) = Some (n, rest) → moving_ok rest (n_Eips n).
Proof using.
  intros Hg (n1 & n2 & Hl & ->)%takeNode_Some. simpl in Hg. rewrite Hl in Hg. apply moving_none in Hg.
  by apply (moving_remove _ _ _ []).
Qed.

(** ** Tunnel and node events *)

Lemma safe_tunnelDeleted name g : ok g → safe (tunnelDeleted name g) any.
Proof using AL.
  intros Hg. unfold tunnelDeleted. destruct (takeNode name (NodeList g)) as [[n rest]|] eqn:Ht; [|by apply safe_ret].
  eapply safe_bind; [apply safe_moveIfNeeded; exact (moving_take _ _ _ _ Hg Ht)|]. intros [g' need'] Hg'. by apply safe_syncGateway.
Qed.

Lemma safe_tunnelUpdated name phase g : ok g → safe (tunnelUpdated name phase g) any.
Proof using AL.
  intros Hg. unfold tunnelUpdated. destruct (nodeIndexOf name 0 (NodeList g)) as [[i n]|] eqn:Hi; [|by apply safe_ret].
  apply nodeIndexOf_Some in Hi as (Hi & _ & _). rewrite Nat.sub_0_r in Hi. case_decide as Hphase.
  - destruct (IsNotEqual phase (n_Status n)); [|by apply safe_ret].
    destruct (updNode_split g i n (λ n, node_set_Status n phase) Hi) as (n1 & n2 & Hl & Hl').
    assert (ok (updNode g i (λ n, node_set_Status n phase))) as Hok'.
    { rewrite Hl'. apply gw_ok_status. by rewrite <- Hl. }
    eapply (safe_bind _ _ ok); [|intros g' Hg'; by apply safe_syncGateway]. simpl.
    case_decide; [by apply safe_checkAll|by apply safe_ret].
  - cbv zeta. set (g1 := if decide (0 < length (n_Eips n)) then _ else g).
    assert (∃ n1 n' n2, NodeList g1 = n1 ++ n' :: n2 ∧ length n1 = i ∧ moving_ok (NodeList g1) (n_Eips n)) as
      (n1 & n' & n2 & Hl1 & Hlen & Hm).
    { subst g1. pose proof (moving_none _ Hg) as Hm0. case_decide as Hlen.
      - destruct (alter_split (λ n, node_set_Eips n []) _ _ _ Hi) as (n1 & n2 & Hl & Hlen1 & Hl').
        exists n1, (node_set_Eips n []), n2.
        change (NodeList (updNode g i (λ n, node_set_Eips n []))) with (alter (λ n, node_set_Eips n []) i (NodeList g)).
        rewrite Hl'. split_and!; [done|done|]. rewrite Hl in Hm0.
        by apply (moving_empty _ _ _ (n_Status n) []).
      - destruct (alter_split id _ _ _ Hi) as (n1 & n2 & Hl & Hlen1 & _). exists n1, n, n2. split_and!; [done|done|].
        destruct (n_Eips n); [done|simpl in Hlen; lia]. }
    eapply safe_bind.
    + apply safe_moveIfNeeded. case_match; [|done].
      change (NodeList (updNode g1 i ?f)) with (alter f i (NodeList g1)). rewrite Hl1, <- Hlen, alter_middle.
      apply moving_status. by rewrite <- Hl1.
    + intros [g' need'] Hg'. case_match; [by apply safe_syncGateway|by apply safe_ret].
Qed.

Lemma safe_reconcileTunnel req : safe (reconcileTunnel req) any.
Proof using AL.
  unfold reconcileTunnel. eapply safe_bind; [apply safe_getOrAbsent; safe_call|]. intros t _.
  eapply safe_bind; [apply safe_listGateways|]. intros l Hl. eapply safe_bind; [|intros _ _; by apply safe_ret].
  apply (safe_foreach _ _ _ ok any); [done|done|]. intros g [] Hg _.
  case_match; [by apply safe_tunnelDeleted|by apply safe_tunnelUpdated].
Qed.

Lemma safe_tunnelPhase name : safe (tunnelPhase name) any.
Proof using AL. unfold tunnelPhase. repeat safe_step. Qed.

Lemma safe_nodeChanged node g : ok g → safe (nodeChanged node g) any.
Proof using AL.
  intros Hg. unfold nodeChanged. cbv zeta. safe_step. case_match.
  - destruct (nodeIndexOf _ 0 (NodeList g)) as [[i n]|] eqn:Hi; [by apply safe_ret|].
    apply nodeIndexOf_None in Hi. eapply safe_bind; [apply safe_tunnelPhase|]. intros status _.
    eapply safe_bind; [apply safe_checkAll; by apply gw_ok_add|]. intros g' Hg'. by apply safe_syncGateway.
  - destruct (takeNode _ (NodeList g)) as [[n rest]|] eqn:Ht; [|by apply safe_ret].
    eapply safe_bind; [apply safe_moveIfNeeded; exact (moving_take _ _ _ _ Hg Ht)|]. intros [g' need'] Hg'. by apply safe_syncGateway.
Qed.

Lemma safe_reconcileNode req : safe (reconcileNode req) any.
Proof using AL.
  unfold reconcileNode. safe_step; [|by apply safe_ret]. case_match; [by apply safe_ret|].
  eapply safe_bind; [apply safe_listGateways|]. intros l Hl. eapply safe_bind; [|intros _ _; by apply safe_ret].
  apply (safe_foreach _ _ _ ok any); [done|done|]. intros g [] Hg _. by apply safe_nodeChanged.
Qed.

(** ** Gateway events *)

Lemma safe_nodeLoopTurn s node rest : loop_ok s → lp_rest s = node :: rest →
  safe (nodeLoopTurn s node rest) loop_ok.
Proof using AL.
  intros Hs Hr. pose proof Hs as [Hm Hn]. rewrite Hr in Hm. unfold nodeLoopTurn. case_decide as Hin.
  - cbv zeta. safe_step.
    + case_match; apply safe_ret; by eapply loop_ok_pass.
    + case_match; apply safe_ret; (split; simpl; [|intros n Hn'; specialize (Hn n Hn'); set_solver]).
      * by apply moving_empty.
      * done.
  - apply safe_ret. split; simpl; [by apply moving_remove|done].
Qed.

Lemma safe_nodeLoop fuel s : loop_ok s → safe (nodeLoop fuel s) (λ s', loop_ok s' ∧ lp_rest s' = []).
Proof using AL.
  revert s. induction fuel as [|fuel IH]; intros s Hs; cbn [nodeLoop];
    destruct (lp_rest s) as [|node rest] eqn:Hr; try (by apply safe_ret).
  - by apply safe_lift.
  - eapply safe_bind; [by apply safe_nodeLoopTurn|]. auto.
Qed.

Lemma safe_addNodes names g need :
  moving_ok (NodeList g) need → (∀ n, n ∈ NodeList g → n_Name n ∉ names) →
  safe (addNodes names g) (λ g', moving_ok (NodeList g') need).
Proof using AL.
  intros Hm Hd. unfold addNodes.
  assert (NoDup (map_order (elements names))) as Hnd by (rewrite map_order_perm; apply NoDup_elements).
  assert (∀ name, name ∈ map_order (elements names) → name ∉ n_Name <$> NodeList g) as Hfresh.
  { intros name. rewrite map_order_perm, elem_of_elements. intros Hin Hn.
    apply list_elem_of_fmap in Hn as (n & -> & Hn). by apply (Hd n). }
  clear Hd. revert g Hm Hfresh. induction Hnd as [|name l Hni Hnd IH]; intros g Hm Hfresh; simpl; [by apply safe_ret|].
  eapply (safe_bind _ _ (λ g', ∃ st, g' = set_NodeList g (NodeList g ++ [mkEgressIPStatus name [] st]))).
  - eapply safe_bind; [apply safe_tunnelPhase|]. intros st _. apply safe_ret. eauto.
  - intros g' [st ->]. apply IH.
    + apply moving_add; [|done]. apply Hfresh. by left.
    + intros name' Hin. change (NodeList (set_NodeList g ?l)) with l. rewrite fmap_app, elem_of_app.
      intros [Hin'|Hin']; [by eapply Hfresh; [right|]|]. simpl in Hin'. set_solver.
Qed.

Lemma safe_policyCount name : safe (getPolicyCountByGatewayName name) any.
Proof using AL. unfold getPolicyCountByGatewayName. repeat safe_step. Qed.

Lemma safe_gatewayDeleted req g : safe (gatewayDeleted req g) any.
Proof using AL.
  unfold gatewayDeleted. eapply safe_bind; [apply safe_policyCount|]. intros n _. repeat safe_step.
Qed.

Lemma safe_gatewayUpdated g : ok g → safe (gatewayUpdated g) any.
Proof using AL.
  intros Hg. unfold gatewayUpdated. safe_step. safe_step. eapply safe_bind.
  { apply safe_nodeLoop. split; simpl; [by apply moving_none|]. intros n Hn. by apply not_elem_of_nil in Hn. }
  intros s [[Hm Hn] Hr]. rewrite Hr, app_nil_r in Hm. cbv zeta. eapply safe_bind.
  { apply safe_addNodes; [exact Hm|exact Hn]. }
  intros g1 Hm1. eapply safe_bind; [by apply safe_moveIfNeeded|]. intros [g2 need] Hg2. simpl in Hg2.
  eapply (safe_bind _ _ ok).
  { case_decide; [by apply safe_checkAll|by apply safe_ret]. }
  intros g3 Hg3. eapply (safe_bind _ _ any); [|intros _ _; by apply safe_ret].
  case_match; [by apply safe_syncGateway|by apply safe_ret].
Qed.

Lemma safe_reconcileGateway req : safe (reconcileGateway req) any.
Proof using AL.
  unfold reconcileGateway. eapply safe_bind; [apply safe_getOrAbsent, safe_getGateway|].
  intros [g|] Hg; [|apply safe_gatewayDeleted]. case_match; [apply safe_gatewayDeleted|by apply safe_gatewayUpdated].
Qed.

(** ** Policy events *)

Lemma delete_policy_ok g ns name : ok g → ok (deleteEgressPolicy g ns name).1.
Proof using.
  intros Hg. unfold deleteEgressPolicy. destruct (deleteInNodes _ _ _) as [l|] eqn:Hd; [|done]. simpl.
  by eapply delete_ok.
Qed.

Lemma safe_deleteInFirst req l : Forall ok l → safe (deleteInFirst req l) any.
Proof using AL.
  induction 1 as [|g l Hg _ IH]; simpl; [by apply safe_ret|].
  pose proof (delete_policy_ok g (nn_Namespace req) (nn_Name req) Hg) as Hd.
  destruct (deleteEgressPolicy g _ _) as [g' [|]]; [|done].
  eapply safe_bind; [by apply safe_updateGatewayStatusWithUsage|]. intros _ _. by apply safe_ret.
Qed.

Lemma safe_reconcileDeletePolicy req name : safe (reconcileDeletePolicy req name) any.
Proof using AL.
  unfold reconcileDeletePolicy. case_decide.
  - eapply safe_bind; [apply safe_attempt, safe_listGateways|]. intros [l|e] Hl; [|repeat safe_step].
    eapply safe_bind; [by apply safe_deleteInFirst|]. intros _ _. by apply safe_ret.
  - eapply safe_bind; [apply safe_getOrAbsent, safe_getGateway|]. intros [g|] Hg; [|by apply safe_ret].
    case_decide; [|by apply safe_ret]. pose proof (delete_policy_ok g (nn_Namespace req) (nn_Name req) Hg) as Hd.
    destruct (deleteEgressPolicy g _ _) as [g' upd]. eapply (safe_bind _ _ any); [|intros _ _; by apply safe_ret].
    destruct upd; [|by apply safe_ret]. eapply safe_weaken; [by apply safe_updateGatewayStatusWithUsage|done].
Qed.

Lemma safe_reconcileEgressClusterPolicy req : safe (reconcileEgressClusterPolicy req) any.
Proof using AL.
  unfold reconcileEgressClusterPolicy. eapply safe_bind; [apply safe_getOrAbsent; safe_call|]. intros r _. cbv zeta.
  destruct r as [p|]; [|apply safe_reconcileDeletePolicy].
  destruct (om_Deleting (cp_Meta p)); [apply safe_reconcileDeletePolicy|]. case_match; [|by apply safe_ret].
  eapply safe_bind; [apply safe_getOrAbsent, safe_getGateway|]. intros [g|] Hg; [|apply safe_err].
  destruct (getAssignedIP g _ _) as [a|] eqn:Ha.
  - eapply safe_bind; [apply safe_clusterPolicyStatus|]. intros _ _. by apply safe_ret.
  - eapply safe_bind; [by apply safe_assignOrFail|]. intros [g' a] Hg'. simpl in Hg'.
    eapply safe_bind; [by apply safe_updateGatewayStatusWithUsage|]. intros _ _.
    eapply safe_bind; [apply safe_clusterPolicyStatus|]. intros _ _. by apply safe_ret.
Qed.

Lemma safe_reconcileEgressPolicy req : safe (reconcileEgressPolicy req) any.
Proof using AL.
  unfold reconcileEgressPolicy. eapply safe_bind; [apply safe_getOrAbsent; safe_call|]. intros r _. cbv zeta.
  destruct r as [p|]; [|apply safe_reconcileDeletePolicy].
  destruct (om_Deleting (ep_Meta p)); [apply safe_reconcileDeletePolicy|]. case_match; [|by apply safe_ret].
  eapply safe_bind; [apply safe_getOrAbsent, safe_getGateway|]. intros [g|] Hg; [|apply safe_err].
  destruct (getAssignedIP g _ _) as [a|] eqn:Ha.
  - eapply safe_bind; [apply safe_policyStatus|]. intros _ _. by apply safe_ret.
  - eapply safe_bind; [by apply safe_assignOrFail|]. intros [g' a] Hg'. simpl in Hg'.
    eapply safe_bind; [by apply safe_updateGatewayStatusWithUsage|]. intros _ _.
    eapply safe_bind; [apply safe_policyStatus|]. intros _ _. by apply safe_ret.
Qed.

Lemma safe_Reconcile req : safe (Reconcile req) any.
Proof using AL.
  unfold Reconcile. safe_step. case_match.
  repeat case_decide; auto using safe_reconcileGateway, safe_reconcileEgressClusterPolicy, safe_reconcileEgressPolicy,
    safe_reconcileNode, safe_reconcileTunnel. by apply safe_ret.
Qed.
End handlers.
