(* ===== verification/Store.v ===== *)
(** * A concrete API server

    An instance of [ApiServer] to run the controller on: maps of objects, and
    a script that says which calls fail.  It has optimistic concurrency (a
    write with an old resource version is a conflict), the status subresource
    and finalizers.  It shows that the laws of the interface can be met, and
    the witnesses of the theorems about the controller evaluate on it. *)

From S2P Require Import Prelude GoStd Types ApiServer.
Open Scope nat_scope.

(** ** Label selectors *)

Definition matchRequirement (l : labelSet) (r : LabelSelectorRequirement) : bool :=
  if decide (req_Operator r = "In") then
    match l !! req_Key r with Some v => bool_decide (v ∈ req_Values r) | None => false end
  else if decide (req_Operator r = "NotIn") then
    match l !! req_Key r with Some v => negb (bool_decide (v ∈ req_Values r)) | None => true end
  else if decide (req_Operator r = "Exists") then bool_decide (is_Some (l !! req_Key r))
  else bool_decide (l !! req_Key r = None).

(** A nil selector matches nothing, an empty one everything. *)
Definition matchSelector (s : option LabelSelector) (l : labelSet) : bool :=
  match s with
  | None => false
  | Some s => bool_decide (map_Forall (λ k v, l !! k = Some v) (ls_MatchLabels s)) &&
              forallb (matchRequirement l) (ls_MatchExpressions s)
  end.

Definition knownOperator (r : LabelSelectorRequirement) : bool :=
  bool_decide (req_Operator r ∈ ["In"; "NotIn"; "Exists"; "DoesNotExist"]).

#[export] Instance store_labels : LabelSelectors := {
  Selector := option LabelSelector;
  LabelSelectorAsSelector s :=
    match s with
    | Some s' => if forallb knownOperator (ls_MatchExpressions s') then Ret s else Err (ErrNew "invalid selector")
    | None => Ret s
    end;
  Matches := matchSelector
}.

(** ** The store *)

Record Store := mkStore {
  st_gateways : gmap string EgressGateway;
  st_policies : gmap NamespacedName EgressPolicy;
  st_clusterPolicies : gmap NamespacedName EgressClusterPolicy;
  st_tunnels : gmap string EgressTunnel;
  st_nodes : gmap string Node;
  st_script : list bool
}.

Definition with_gateways (s : Store) (m : gmap string EgressGateway) : Store :=
  mkStore m (st_policies s) (st_clusterPolicies s) (st_tunnels s) (st_nodes s) (st_script s).
Definition with_policies (s : Store) (m : gmap NamespacedName EgressPolicy) : Store :=
  mkStore (st_gateways s) m (st_clusterPolicies s) (st_tunnels s) (st_nodes s) (st_script s).
Definition with_clusterPolicies (s : Store) (m : gmap NamespacedName EgressClusterPolicy) : Store :=
  mkStore (st_gateways s) (st_policies s) m (st_tunnels s) (st_nodes s) (st_script s).
Definition with_script (s : Store) (l : list bool) : Store :=
  mkStore (st_gateways s) (st_policies s) (st_clusterPolicies s) (st_tunnels s) (st_nodes s) l.

(** Each call takes one entry of the script: whether it fails. *)
Definition call {A} (f : Store → Store * outcome A) : M Store A := λ s,
  match st_script s with
  | true :: l => (with_script s l, Err (ErrApi OtherApi))
  | false :: l => f (with_script s l)
  | [] => f s
  end.

Definition found {A} (s : Store) (o : option A) : Store * outcome A :=
  match o with Some a => (s, Ret a) | None => (s, Err (ErrApi NotFound)) end.
Definition values {K A} `{Countable K} (m : gmap K A) : list A := (map_to_list m).*2.

Definition bumped (m : ObjectMeta) : ObjectMeta :=
  mkMeta (om_Name m) (om_Namespace m) (om_Labels m) (om_Finalizers m) (om_Deleting m) (S (om_ResourceVersion m)).

(** Replace the object stored under [k] when the resource version sent is the
    stored one. *)
Definition replace {K A} `{Countable K} (s : Store) (m : gmap K A) (put : gmap K A → Store) (meta : A → ObjectMeta)
    (k : K) (sent : A) (merge : A → A) : Store * outcome A :=
  match m !! k with
  | None => (s, Err (ErrApi NotFound))
  | Some old =>
      if decide (om_ResourceVersion (meta old) ≠ om_ResourceVersion (meta sent)) then (s, Err (ErrApi Conflict))
      else (put (<[k := merge old]> m), Ret (merge old))
  end.

Definition key (m : ObjectMeta) : NamespacedName := mkNN (om_Namespace m) (om_Name m).

Definition store_updateGateway (g : EgressGateway) (s : Store) : Store * outcome EgressGateway :=
  let merge old := mkGateway (bumped (g_Meta g)) (g_Spec g) (g_Status old) in
  let put m := with_gateways s
    (if om_Deleting (g_Meta g) && bool_decide (om_Finalizers (g_Meta g) = [])
     then delete (om_Name (g_Meta g)) m else m) in
  replace s (st_gateways s) put g_Meta (om_Name (g_Meta g)) g merge.

#[export] Instance store_api : ApiServer Store := {
  gateways := st_gateways;
  getGateway n := call (λ s, found s (st_gateways s !! n));
  listGateways := call (λ s, (s, Ret (values (st_gateways s))));
  updateGatewayStatus g := call (λ s,
    replace s (st_gateways s) (with_gateways s) g_Meta (om_Name (g_Meta g)) g
      (λ old, mkGateway (bumped (g_Meta old)) (g_Spec old) (g_Status g)));
  updateGateway g := call (store_updateGateway g);
  getTunnel n := call (λ s, found s (st_tunnels s !! n));
  getNode n := call (λ s, found s (st_nodes s !! n));
  listNodes sel := call (λ s, (s, Ret (filter (λ n, matchSelector sel (om_Labels (node_Meta n)) = true) (values (st_nodes s)))));
  getPolicy k := call (λ s, found s (st_policies s !! k));
  listPolicies := call (λ s, (s, Ret (values (st_policies s))));
  updatePolicyStatus p := call (λ s,
    replace s (st_policies s) (with_policies s) ep_Meta (key (ep_Meta p)) p
      (λ old, mkEgressPolicy (bumped (ep_Meta old)) (ep_Spec old) (ep_Status p)));
  getClusterPolicy k := call (λ s, found s (st_clusterPolicies s !! k));
  listClusterPolicies := call (λ s, (s, Ret (values (st_clusterPolicies s))));
  updateClusterPolicyStatus p := call (λ s,
    replace s (st_clusterPolicies s) (with_clusterPolicies s) cp_Meta (key (cp_Meta p)) p
      (λ old, mkEgressClusterPolicy (bumped (cp_Meta old)) (cp_Spec old) (cp_Status p)))
}.

(** ** It meets the laws *)

Lemma evolves_same (s s' : Store) : st_gateways s' = st_gateways s → evolves s s'.
Proof. intros Heq k g Hg. right. exists g. simpl in *. rewrite Heq in Hg. done. Qed.

Lemma call_evolves {A} (f : Store → Store * outcome A) s : (∀ s, evolves s (f s).1) → evolves s (call f s).1.
Proof.
  intros Hf. unfold call. destruct (st_script s) as [|[|] l]; [apply Hf|by apply evolves_same|].
  intros k g Hg. by apply (Hf (with_script s l) k g Hg).
Qed.

Lemma found_evolves {A} s (o : option A) : evolves s (found s o).1.
Proof. destruct o; by apply evolves_same. Qed.

Lemma replace_evolves {K A} `{Countable K} s (m : gmap K A) put meta k sent merge :
  (∀ m', st_gateways (put m') = st_gateways s) → evolves s (replace s m put meta k sent merge).1.
Proof.
  intros Hput. unfold replace. destruct (m !! k); [case_decide|]; simpl; apply evolves_same; done || apply Hput.
Qed.

Lemma call_Ret {A} (f : Store → Store * outcome A) s s' a : call f s = (s', Ret a) →
  ∃ s0, st_gateways s0 = st_gateways s ∧ st_policies s0 = st_policies s ∧ f s0 = (s', Ret a).
Proof.
  unfold call. destruct (st_script s) as [|[|] l]; intros Hf; [exists s|done|exists (with_script s l)]; by split_and!.
Qed.

#[export] Instance store_laws : ApiServerLaws Store.
Proof.
  split; intros.
  - apply call_evolves. intros. apply found_evolves.
  - apply call_Ret in H as (s0 & Hs0 & _ & Hf). simpl in Hf. unfold found in Hf.
    destruct (st_gateways s0 !! n) eqn:E; simplify_eq. done.
  - apply call_evolves. intros. by apply evolves_same.
  - apply call_Ret in H as (s0 & Hs0 & _ & Hf). simpl in Hf. simplify_eq. unfold values in *.
    apply list_elem_of_fmap in H0 as ([k g'] & -> & Hin). apply elem_of_map_to_list in Hin. eauto.
  - assert (∀ s', st_gateways s' = st_gateways w →
      evolves_writing g w (replace s' (st_gateways s') (with_gateways s') g_Meta (om_Name (g_Meta g)) g
        (λ old, mkGateway (bumped (g_Meta old)) (g_Spec old) (g_Status g))).1) as Hr.
    { intros s' Hs' k g'. unfold replace. destruct (st_gateways s' !! _) as [old|] eqn:E; [case_decide|]; simpl.
      - rewrite Hs'. eauto.
      - intros [[<- <-]|[_ ?]]%lookup_insert_Some; [auto|]. rewrite <- Hs'. eauto.
      - rewrite Hs'. eauto. }
    simpl. unfold call. destruct (st_script w) as [|[|] l]; [by apply Hr| |by apply Hr].
    intros k g' Hg'. simpl in *. eauto.
  - apply call_Ret in H as (s0 & _ & _ & Hf). unfold replace in Hf.
    destruct (st_gateways s0 !! _); [case_decide|]; simplify_eq. done.
  - apply call_evolves. intros s k g'. unfold store_updateGateway, replace.
    destruct (st_gateways s !! om_Name (g_Meta g)) as [old|] eqn:E; [case_decide|]; simpl; try (by eauto).
    assert (∀ m : gmap string EgressGateway, m !! k = Some g' → m = <[om_Name (g_Meta g) := mkGateway (bumped (g_Meta g)) (g_Spec g) (g_Status old)]> (st_gateways s) →
      nodes_of g' = [] ∨ ∃ g0, st_gateways s !! k = Some g0 ∧ nodes_of g' = nodes_of g0) as Hm.
    { intros m Hm ->. apply lookup_insert_Some in Hm as [[<- <-]|[_ ?]]; eauto. }
    destruct (om_Deleting _ && _); [|by eauto]. intros [_ ?]%lookup_delete_Some. eauto.
  - apply call_evolves. intros. apply found_evolves.
  - apply call_evolves. intros. apply found_evolves.
  - apply call_evolves. intros. by apply evolves_same.
  - apply call_evolves. intros. apply found_evolves.
  - apply call_evolves. intros. by apply evolves_same.
  - apply call_evolves. intros. by apply replace_evolves.
  - apply call_evolves. intros. apply found_evolves.
  - apply call_evolves. intros. by apply evolves_same.
  - apply call_evolves. intros. by apply replace_evolves.
Qed.
