(* ===== verification/Egctl.v ===== *)
(** * The command line tool ([cmd/egctl/cmd/vip.go])

    An administrator moves an EIP of a gateway to another node: the tool takes it off its node in the status of
    the gateway, puts it on the target, writes the status, and then the node in the status of each policy that
    leaves with the EIP.  It is another client of the API server, beside the gateway controller. *)

From S2P Require Import Prelude GoStd GoNet IPUtil Types GatewayCore GatewayProps ApiServer Utils GatewayReconcile GatewayInvariant.
Open Scope nat_scope.

(** ** The model *)

(** The inner loop of [findAndRemoveEIP], from index [j]: [None] goes on with the next node, [Some None] is the
    return without an EIP, since the node is the target. *)
Fixpoint findInNode (vipAddress targetNode : string) (node : EgressIPStatus) (j : nat) (eips : list Eips) : option (option (nat * Eips)) :=
  match eips with
  | [] => None
  | eip :: eips' =>
      if decide (n_Name node = targetNode) then Some None
      else if decide (e_IPv4 eip = vipAddress ∨ e_IPv6 eip = vipAddress) then Some (Some (j, eip))
      else findInNode vipAddress targetNode node (S j) eips'
  end.
(** The outer loop; [passed] are the nodes before. *)
Fixpoint findInNodes (vipAddress targetNode : string) (passed nodes : list EgressIPStatus) : outcome (option (Eips * list EgressIPStatus)) :=
  match nodes with
  | [] => Err (ErrNew "VIP not found in any node of EgressGateway")
  | node :: nodes' =>
      match findInNode vipAddress targetNode node 0 (n_Eips node) with
      | Some None => Ret None
      | Some (Some (j, foundEIP)) => Ret (Some (foundEIP, passed ++ node_set_Eips node (take j (n_Eips node) ++ drop (S j) (n_Eips node)) :: nodes'))
      | None => findInNodes vipAddress targetNode (passed ++ [node]) nodes'
      end
  end.
Definition findAndRemoveEIP (egw : EgressGateway) (vipAddress targetNode : string) : outcome (option (Eips * EgressGateway)) :=
  let! r := findInNodes vipAddress targetNode [] (NodeList egw) in
  Ret (match r with Some (eip, nodes) => Some (eip, set_NodeList egw nodes) | None => None end).
Definition moveEIPToNode (egw : EgressGateway) (targetNode : string) (eipPair : Eips) : outcome EgressGateway :=
  match nodeIndexOf targetNode 0 (NodeList egw) with
  | None => Err (ErrNew "target node not found in EgressGateway")
  | Some (i, node) =>
      if isReady node then Ret (updNode egw i (appendEip eipPair)) else Err (ErrNew "target node not ready, please select a ready node")
  end.

Section egctl.
Context {W : Type} `{LS : LabelSelectors} `{AS : !ApiServer W}.

(** [fmt.Errorf] around the error of a call. *)
Definition failing {A} (msg : string) (c : M W A) : M W A :=
  let* r := attempt c in match r with inl a => mret a | inr _ => merr (ErrNew msg) end.
Definition movePolicy (targetNode : string) (p : Policy) : M W unit :=
  let key := mkNN (p_Namespace p) (p_Name p) in
  if decide (p_Namespace p = "") then
    let* policy := failing "failed to get EgressClusterPolicy status" (getClusterPolicy key) in
    let st := cp_Status policy in
    let* _ := failing "failed to update EgressClusterPolicy status" (updateClusterPolicyStatus (mkEgressClusterPolicy (cp_Meta policy) (cp_Spec policy) (mkPolicyStatus (ps_Eip st) targetNode))) in
    mret tt
  else
    let* policy := failing "failed to get EgressPolicy status" (getPolicy key) in
    let st := ep_Status policy in
    let* _ := failing "failed to update EgressPolicy status" (updatePolicyStatus (mkEgressPolicy (ep_Meta policy) (ep_Spec policy) (mkPolicyStatus (ps_Eip st) targetNode))) in
    mret tt.
Definition MoveEgressIP (egressGatewayName vipAddress targetNode : string) : M W unit :=
  let* egw := failing "failed to get EgressGateway" (getGateway egressGatewayName) in
  let* r := lift (findAndRemoveEIP egw vipAddress targetNode) in
  match r with
  | None => mret tt
  | Some (eipPair, egw) =>
      let* egw := lift (moveEIPToNode egw targetNode eipPair) in
      let* _ := failing "failed to update EgressGateway status" (updateGatewayStatus egw) in
      mforeach (λ p _, movePolicy targetNode p) (e_Policies eipPair) tt
  end.
(** [PreRun] of the command, then [Run]; the tool exits with 1 where this is an error. *)
Definition moveCmd (egressGatewayName vipAddress targetNode : string) : M W unit :=
  if decide (egressGatewayName = "" ∨ vipAddress = "" ∨ targetNode = "") then merr (ErrNew "egressGatewayName, vip address, and target node name must be specified")
  else MoveEgressIP egressGatewayName vipAddress targetNode.
End egctl.

(** ** The status after a move *)

Definition hasVip (vip : string) (e : Eips) : bool := bool_decide (e_IPv4 e = vip ∨ e_IPv6 e = vip).

Lemma findInNode_other vip target n j eips : n_Name n ≠ target → findInNode vip target n j eips = Some <$> findInEips (hasVip vip) j eips.
Proof.
  intros Hn. revert j. induction eips as [|e eips IH]; intros j; simpl; [done|]. rewrite decide_False by done.
  unfold hasVip at 1. case_decide as Hv; case_bool_decide; done || apply IH.
Qed.
(** The target is passed only while it has no EIPs. *)
Lemma findInNodes_held vip target passed nodes i n1 n n2 e1 e e2 : nodes = n1 ++ n :: n2 → n_Eips n = e1 ++ e :: e2 → hasVip vip e = true →
  Forall (λ e, hasVip vip e = false) e1 → Forall (λ e, hasVip vip e = false) (allEips n1) → n_Name n ≠ target → i = length n1 →
  findInNodes vip target passed nodes =
    if decide (Exists (λ t, n_Name t = target ∧ n_Eips t ≠ []) (take i nodes)) then Ret None
    else Ret (Some (e, passed ++ n1 ++ node_set_Eips n (e1 ++ e2) :: n2)).
Proof.
  intros Hl He Hv H1 Ha Hn ->. subst nodes. rewrite take_app_length. revert passed. induction n1 as [|a n1 IH]; intros passed; cbn [findInNodes app].
  - rewrite decide_False by by intros H%Exists_nil. rewrite findInNode_other by done.
    assert (findInEips (hasVip vip) 0 (n_Eips n) = Some (length e1, e)) as ->.
    { rewrite He. clear -Hv H1. assert (∀ k, findInEips (hasVip vip) k (e1 ++ e :: e2) = Some (k + length e1, e)) as H; [|apply (H 0)].
      induction H1 as [|a l Ha _ IH]; intros k; simpl; [by rewrite Hv, Nat.add_0_r|]. rewrite Ha, IH. by rewrite Nat.add_succ_r. }
    simpl. rewrite He, take_app_length. rewrite (drop_app_ge (e1) (e :: e2)) by lia. by replace (S (length e1) - length e1) with 1 by lia.
  - rewrite allEips_cons, Forall_app in Ha. destruct Ha as [Ha1 Ha2]. specialize (IH Ha2). destruct (decide (n_Name a = target)) as [Ht|Ht].
    + destruct (n_Eips a) as [|x l] eqn:Ea; simpl.
      * rewrite IH, <- app_assoc. apply decide_ext. rewrite Exists_cons, Ea. naive_solver.
      * rewrite !decide_True; [done|constructor; by rewrite Ea|done].
    + rewrite findInNode_other by done. rewrite (proj2 (findInEips_None _ _ _)) by done. simpl. rewrite IH, <- app_assoc. apply decide_ext. rewrite Exists_cons. naive_solver.
Qed.

(** One EIP taken off its node, and put on another. *)
Inductive movedTo (target : string) (e : Eips) (nodes nodes' : list EgressIPStatus) : Prop :=
| movedTo_intro n1 n n2 e1 e2 m1 t m2 : nodes = n1 ++ n :: n2 → n_Eips n = e1 ++ e :: e2 →
    n1 ++ node_set_Eips n (e1 ++ e2) :: n2 = m1 ++ t :: m2 → n_Name t = target → nodes' = m1 ++ appendEip e t :: m2 → movedTo target e nodes nodes'.

Lemma moving_takeEip n1 n n2 e1 e e2 : n_Eips n = e1 ++ e :: e2 → gw_ok (n1 ++ n :: n2) → moving_ok (n1 ++ node_set_Eips n (e1 ++ e2) :: n2) [e].
Proof.
  intros He [Hn Hp H4 H6 Hh]. split; revert Hn Hp H4 H6 Hh; autorewrite with gateway; cbn [n_Eips n_Name node_set_Eips]; rewrite He; autorewrite with gateway; intros Hn Hp H4 H6 Hh.
  - done.
  - eapply NoDup_Permutation_proper; [|exact Hp]. cbn. rewrite ?app_nil_r. solve_Permutation.
  - eapply NoDup_Permutation_proper; [|exact H4]. cbn. rewrite ?app_nil_r. solve_Permutation.
  - eapply NoDup_Permutation_proper; [|exact H6]. cbn. rewrite ?app_nil_r. solve_Permutation.
  - rewrite !Forall_app, !Forall_cons, Forall_nil in *. tauto.
Qed.
Lemma placement_snoc old e : placement old [e] (old ++ [e]).
Proof. split; autorewrite with gateway; done. Qed.
Lemma movedTo_ok target e nodes nodes' : movedTo target e nodes nodes' → gw_ok nodes → gw_ok nodes'.
Proof.
  intros [n1 n n2 e1 e2 m1 t m2 -> He Hl _ ->] Hok. apply (placement_ok _ _ _ [e]); [apply placement_snoc|]. rewrite <- Hl. by apply moving_takeEip.
Qed.
Lemma movedTo_names target e nodes nodes' : movedTo target e nodes nodes' → n_Name <$> nodes' = n_Name <$> nodes.
Proof.
  intros [n1 n n2 e1 e2 m1 t m2 -> He Hl _ ->]. apply (f_equal (fmap n_Name)) in Hl. revert Hl. autorewrite with gateway. done.
Qed.
Lemma movedTo_eips target e nodes nodes' : movedTo target e nodes nodes' → allEips nodes' ≡ₚ allEips nodes.
Proof.
  intros [n1 n n2 e1 e2 m1 t m2 -> He Hl _ ->]. apply (f_equal allEips) in Hl. revert Hl. autorewrite with gateway. cbn [n_Eips node_set_Eips appendEip].
  rewrite He. intros Hl. trans (e :: allEips m1 ++ n_Eips t ++ allEips m2); [solve_Permutation|]. rewrite <- Hl. solve_Permutation.
Qed.
(** The moved EIP is on the target, the others stay where they are. *)
Lemma movedTo_target target e nodes nodes' : movedTo target e nodes nodes' → ∃ t, t ∈ nodes' ∧ n_Name t = target ∧ e ∈ n_Eips t.
Proof. intros [n1 n n2 e1 e2 m1 t m2 -> He Hl Ht ->]. exists (appendEip e t). split_and!; [set_solver|done|]. simpl. set_solver. Qed.
Lemma movedTo_others target e nodes nodes' m e' : movedTo target e nodes nodes' → m ∈ nodes → e' ∈ n_Eips m → e' ≠ e →
  ∃ m', m' ∈ nodes' ∧ n_Name m' = n_Name m ∧ e' ∈ n_Eips m'.
Proof.
  intros [n1 n n2 e1 e2 m1 t m2 -> He Hl _ ->] Hm He' Hne.
  assert (∃ m', m' ∈ m1 ++ t :: m2 ∧ n_Name m' = n_Name m ∧ e' ∈ n_Eips m') as (x & Hx & Hxn & Hxe).
  { rewrite <- Hl. apply elem_of_app in Hm as [Hm|[->|Hm]%elem_of_cons]; [exists m; set_solver|exists (node_set_Eips n (e1 ++ e2))|exists m; set_solver].
    split_and!; [set_solver|done|]. simpl. rewrite He in He'. set_solver. }
  rewrite <- Hxn. apply elem_of_app in Hx as [Hx|[->|Hx]%elem_of_cons]; [exists x; set_solver|exists (appendEip e t)|exists x; set_solver].
  split_and!; [set_solver|done|]. simpl. set_solver.
Qed.
Lemma movedTo_assigned target e egw egw' ns name : movedTo target e (NodeList egw) (NodeList egw') → gw_ok (NodeList egw) →
  getAssignedIP egw' ns name =
    if decide (mkPolicy name ns ∈ e_Policies e) then Some (mkAssigned target (e_IPv4 e) (e_IPv6 e) false) else getAssignedIP egw ns name.
Proof.
  intros Hm Hok. pose proof (movedTo_ok _ _ _ _ Hm Hok) as Hok'. case_decide as Hp.
  - destruct (movedTo_target _ _ _ _ Hm) as (t & Ht & <- & He). by rewrite (getAssignedIP_unique _ _ _ t e (ok_policies _ Hok')).
  - destruct (getAssignedIP egw ns name) as [a|] eqn:Ha.
    + apply getAssignedIP_Some in Ha as (n & e' & Hn & He' & Hh & ->).
      destruct (movedTo_others _ _ _ _ n e' Hm Hn He') as (m' & Hm' & <- & He2); [by intros ->|]. by rewrite (getAssignedIP_unique _ _ _ m' e' (ok_policies _ Hok')).
    + apply getAssignedIP_None. apply getAssignedIP_None in Ha. unfold allPolicies in *. by rewrite (movedTo_eips _ _ _ _ Hm).
Qed.

Lemma moveEIPToNode_Ret egw target e egw' n1 n n2 e1 e2 nodes : moveEIPToNode (set_NodeList egw nodes) target e = Ret egw' →
  NodeList egw = n1 ++ n :: n2 → n_Eips n = e1 ++ e :: e2 → nodes = n1 ++ node_set_Eips n (e1 ++ e2) :: n2 → movedTo target e (NodeList egw) (NodeList egw').
Proof.
  unfold moveEIPToNode. change (NodeList (set_NodeList egw nodes)) with nodes. intros Hm Hl He Hn. destruct (nodeIndexOf target 0 nodes) as [[k t]|] eqn:Hk; [|done].
  destruct (isReady t); [|done]. injection Hm as <-. apply nodeIndexOf_Some in Hk as (Hk & _ & Ht). rewrite Nat.sub_0_r in Hk.
  destruct (updNode_split (set_NodeList egw nodes) k t (appendEip e) Hk) as (m1 & m2 & Hm & ->).
  by eapply (movedTo_intro _ _ _ _ n1 n n2 e1 e2 m1 t m2); [..|rewrite <- Hm, <- Hn| |].
Qed.

(** A node of a list with distinct names is the one found under its name. *)
Lemma nodeIndexOf_here nodes t : NoDup (n_Name <$> nodes) → t ∈ nodes → ∃ k, nodeIndexOf (n_Name t) 0 nodes = Some (k, t).
Proof.
  intros Hnd Ht. destruct (nodeIndexOf (n_Name t) 0 nodes) as [[k t']|] eqn:Hk.
  - exists k. apply nodeIndexOf_Some in Hk as (Hk & _ & Hn). rewrite Nat.sub_0_r in Hk. apply list_elem_of_lookup in Ht as [i Hi].
    assert (i = k) as ->; [|congruence]. apply (NoDup_lookup (n_Name <$> nodes) i k (n_Name t) Hnd); rewrite list_lookup_fmap, ?Hi, ?Hk; simpl; congruence.
  - apply nodeIndexOf_None in Hk. destruct Hk. apply list_elem_of_fmap. eauto.
Qed.

(** C21. Moving an EIP with the command line tool, on a well-formed status whose first EIP with the address is on
    another node than the target, and whose target is Ready: unless the target is listed before that node and
    has EIPs, the EIP is found and put on the target, the status stays well formed over the same nodes, the
    policies of the EIP are now assigned to the target with the addresses they had, and the assignment of every
    other policy is the one before; in the excepted case the tool takes the EIP to be on the target already and
    changes nothing. *)
Theorem egctl_moves_one_eip egw vip i j n e t :
  gw_ok (NodeList egw) → findEip (hasVip vip) 0 (NodeList egw) = Some (i, j, n, e) → t ∈ NodeList egw → isReady t = true → n_Name n ≠ n_Name t →
  if decide (Exists (λ t', n_Name t' = n_Name t ∧ n_Eips t' ≠ []) (take i (NodeList egw))) then findAndRemoveEIP egw vip (n_Name t) = Ret None
  else ∃ egw1 egw2, findAndRemoveEIP egw vip (n_Name t) = Ret (Some (e, egw1)) ∧ moveEIPToNode egw1 (n_Name t) e = Ret egw2 ∧
    gw_ok (NodeList egw2) ∧ n_Name <$> NodeList egw2 = n_Name <$> NodeList egw ∧
    ∀ ns name, getAssignedIP egw2 ns name =
      if decide (mkPolicy name ns ∈ e_Policies e) then Some (mkAssigned (n_Name t) (e_IPv4 e) (e_IPv6 e) false) else getAssignedIP egw ns name.
Proof.
  intros Hok Hf Ht Hr Hn. apply findEip_Some in Hf as (n1 & n2 & e1 & e2 & Hl & -> & He & _ & Hv & H1 & Ha).
  unfold findAndRemoveEIP. rewrite (findInNodes_held vip (n_Name t) [] _ (length n1) n1 n n2 e1 e e2) by done. simpl.
  case_decide; [done|]. set (nodes := n1 ++ node_set_Eips n (e1 ++ e2) :: n2). simpl.
  assert (n_Name <$> nodes = n_Name <$> NodeList egw) as Hnames by (rewrite Hl; unfold nodes; by autorewrite with gateway).
  assert (t ∈ nodes) as Ht' by (rewrite Hl in Ht; unfold nodes; set_solver).
  destruct (nodeIndexOf_here nodes t) as [k Hk]; [rewrite Hnames; apply Hok|done|].
  assert (∃ egw2, moveEIPToNode (set_NodeList egw nodes) (n_Name t) e = Ret egw2) as [egw2 Hm].
  { unfold moveEIPToNode. change (NodeList (set_NodeList egw nodes)) with nodes. rewrite Hk, Hr. eauto. }
  pose proof (moveEIPToNode_Ret _ _ _ _ n1 n n2 e1 e2 _ Hm Hl He eq_refl) as Hmoved.
  exists (set_NodeList egw nodes), egw2. split_and!; [done|done|by eapply movedTo_ok|by eapply movedTo_names|]. intros ns name. by apply movedTo_assigned.
Qed.
Lemma egctl_moves_one_eip_witness :
  let t := mkEgressIPStatus "node2" [mkEips "10.0.0.2" "" [mkPolicy "p3" "ns"]] "Ready" in
  ∃ egw1 egw2, findAndRemoveEIP sampleGateway "10.0.0.1" "node2" = Ret (Some (mkEips "10.0.0.1" "" [mkPolicy "p1" "ns"], egw1)) ∧
    moveEIPToNode egw1 "node2" (mkEips "10.0.0.1" "" [mkPolicy "p1" "ns"]) = Ret egw2 ∧ getAssignedIP egw2 "ns" "p1" = Some (mkAssigned "node2" "10.0.0.1" "" false).
Proof.
  intros t. pose proof (egctl_moves_one_eip sampleGateway "10.0.0.1" 0 0 (mkEgressIPStatus "node1" [mkEips "10.0.0.1" "" [mkPolicy "p1" "ns"]; mkEips "" "" [mkPolicy "p2" ""]] "Ready")
    (mkEips "10.0.0.1" "" [mkPolicy "p1" "ns"]) t) as H.
  destruct H as (egw1 & egw2 & Hf & Hm & _ & _ & Ha).
  - apply sample_ok.
  - vm_compute. reflexivity.
  - right. left.
  - vm_compute. reflexivity.
  - by vm_compute.
  - exists egw1, egw2. split_and!; [exact Hf|exact Hm|]. rewrite Ha. vm_compute. reflexivity.
Defined.

(** The target is listed first and has an EIP: the tool says that nothing has to change, and the EIP stays on the other node. *)
Example move_to_earlier_node_is_skipped : findAndRemoveEIP sampleGateway "10.0.0.2" "node1" = Ret None ∧
  getAssignedIP sampleGateway "ns" "p3" = Some (mkAssigned "node2" "10.0.0.2" "" false).
Proof. by vm_compute. Qed.

(** ** The tool beside the controller *)

Section safe.
Context {W : Type} `{LS : LabelSelectors} `{AS : !ApiServer W} `{AL : !ApiServerLaws W}.

Lemma safe_failing {A} msg (c : M W A) Q : safe c Q → safe (failing msg c) Q.
Proof using. intros Hc. eapply safe_bind; [by apply safe_attempt|]. intros [a|e] Ha; [by apply safe_ret|apply safe_err]. Qed.
Lemma safe_movePolicy target p : safe (movePolicy target p) (λ _, True).
Proof using AL.
  unfold movePolicy. cbv zeta. case_decide; (eapply safe_bind; [apply safe_failing; safe_call|]; intros policy _; eapply safe_bind; [apply safe_failing; safe_call|]; intros ? _; by apply safe_ret).
Qed.
Lemma findInNodes_Ret vip target passed nodes e nodes' : findInNodes vip target passed nodes = Ret (Some (e, nodes')) →
  ∃ n1 n n2 e1 e2, passed ++ nodes = n1 ++ n :: n2 ∧ n_Eips n = e1 ++ e :: e2 ∧ nodes' = n1 ++ node_set_Eips n (e1 ++ e2) :: n2.
Proof using.
  revert passed. induction nodes as [|a nodes IH]; intros passed; simpl; [done|]. destruct (findInNode vip target a 0 (n_Eips a)) as [[[j x]|]|] eqn:Hf; [|done|].
  - intros [= <- <-]. destruct (decide (n_Name a = target)) as [Ht|Ht].
    + destruct (n_Eips a); simpl in Hf; [done|]. by rewrite decide_True in Hf.
    + rewrite findInNode_other in Hf by done. destruct (findInEips _ _ _) as [[j' x']|] eqn:Hi; [|done]. injection Hf as -> ->.
      apply findInEips_Some in Hi as (e1 & e2 & He & -> & _). exists passed, a, nodes, e1, e2. split_and!; [done|done|].
      simpl. rewrite He, take_app_length. rewrite (drop_app_ge e1 (x :: e2)) by lia. by replace (S (length e1) - length e1) with 1 by lia.
  - intros Hr. destruct (IH _ Hr) as (n1 & n & n2 & e1 & e2 & Hl & ?). exists n1, n, n2, e1, e2. by rewrite <- app_assoc in Hl.
Qed.
Lemma safe_MoveEgressIP name vip target : safe (MoveEgressIP name vip target) (λ _, True).
Proof using AL.
  unfold MoveEgressIP. eapply safe_bind; [apply safe_failing, safe_getGateway|]. intros egw Hok.
  eapply (safe_bind _ _ (λ r, ∀ e egw1, r = Some (e, egw1) → ∀ egw2, moveEIPToNode egw1 target e = Ret egw2 → gw_ok (NodeList egw2))).
  { apply safe_lift. intros r Hr e egw1 -> egw2 Hm. unfold findAndRemoveEIP in Hr. destruct (findInNodes _ _ _ _) as [[[x nodes]|]| | |] eqn:Hf; try done. injection Hr as -> <-.
    apply findInNodes_Ret in Hf as (n1 & n & n2 & e1 & e2 & Hl & He & ->). eapply movedTo_ok; [|exact Hok]. by eapply moveEIPToNode_Ret. }
  intros [[e egw1]|] Hr; [|by apply safe_ret]. eapply (safe_bind _ _ (λ egw2, gw_ok (NodeList egw2))); [apply safe_lift; by eapply Hr|].
  intros egw2 Hok2. eapply safe_bind; [by apply safe_failing, safe_updateGatewayStatus|]. intros ? _.
  apply (safe_foreach _ _ _ (λ _, True)); [by apply Forall_true|done|]. intros p ? _ _. apply safe_movePolicy.
Qed.
Lemma safe_moveCmd name vip target : safe (moveCmd name vip target) (λ _, True).
Proof using AL. unfold moveCmd. case_decide; [apply safe_err|apply safe_MoveEgressIP]. Qed.
End safe.
