(* ===== verification/ClusterTheorems.v ===== *)
(** * Theorems about the gateway controller in a cluster

    The controller and the other clients of the API server as a transition
    system; the invariant of gateway statuses over all its runs; termination
    of the node loop; what a reconciled policy has; when the finalizer of a
    gateway is removed. *)

From S2P Require Import Prelude GoStd GoNet IPUtil Types GatewayCore GatewayProps ApiServer Utils.
From S2P Require Import GatewayReconcile GatewayInvariant Store Egctl.
Open Scope nat_scope.

(** ** Runs *)

Section runs.
Context {W : Type} `{LS : LabelSelectors} `{AS : !ApiServer W} `{AL : !ApiServerLaws W} `{MO : MapOrder} `{RD : Rand}.

(** A step: another client acts, the controller handles a request, or an
    administrator moves an EIP with the command line tool, to whatever end. *)
Inductive cluster_step : W → W → Prop :=
| step_other w w' : evolves w w' → cluster_step w w'
| step_reconcile w req : cluster_step w (Reconcile req w).1
| step_egctl w name vip target : cluster_step w (moveCmd name vip target w).1.

Inductive reachable (w0 : W) : W → Prop :=
| reachable_init : reachable w0 w0
| reachable_step w w' : reachable w0 w → cluster_step w w' → reachable w0 w'.

Lemma reachable_ok w0 w : AllOk w0 → reachable w0 w → AllOk w.
Proof using AL.
  intros H0. induction 1 as [|w w' _ IH Hstep]; [done|].
  destruct Hstep as [w w' He|w req|w name vip target].
  - intros k g Hg. destruct (He k g Hg) as [Hn|(g0 & Hg0 & Hn)]; unfold NodeList in *; unfold nodes_of in Hn; rewrite Hn.
    + apply gw_ok_nil.
    + by eapply IH.
  - by apply (safe_Reconcile req w IH).
  - by apply (safe_moveCmd name vip target w IH).
Qed.

(** C1. Over every run of the cluster (requests of every kind in any order,
    EIPs moved by hand with [egctl], other clients creating, deleting and
    editing objects in between, any API call failing with any error at any
    point, handlers that panic), every
    gateway status that the API server stores stays well formed: no node is
    listed twice, no policy has two EIPs, no address is placed twice, no EIP
    is kept without a policy. *)
Theorem every_run_keeps_statuses_ok w0 w : AllOk w0 → reachable w0 w → AllOk w.
Proof using AL. apply reachable_ok. Qed.
End runs.

(** A cluster with the sample gateway, its two live nodes' tunnels and a new
    policy. *)
Definition samplePolicy : EgressPolicy :=
  mkEgressPolicy (mkMeta "new" "ns" ∅ [] false 1)
    (mkPolicySpec "egw" (mkEgressIP "" "" false "rr") (mkAppliedTo None []) [] 0) zeroPolicyStatus.
Definition sampleStore : Store :=
  mkStore {["egw" := sampleGateway]} {[mkNN "ns" "new" := samplePolicy]} ∅ ∅ ∅ [].

Lemma sampleStore_ok : AllOk sampleStore.
Proof.
  intros k g Hg. simpl in Hg. apply lookup_singleton_Some in Hg as [_ <-]. apply sample_ok.
Qed.

Abbreviation reconcileSample := (Reconcile (MO := map_order_id) (RD := rand_zero) (mkNN "EgressPolicy/ns" "new")).

Lemma every_run_keeps_statuses_ok_witness :
  (reconcileSample sampleStore).2 = Ret done_ ∧ AllOk (reconcileSample sampleStore).1.
Proof.
  split; [vm_compute; reflexivity|].
  apply (every_run_keeps_statuses_ok (MO := map_order_id) (RD := rand_zero) sampleStore).
  - apply sampleStore_ok.
  - eapply reachable_step; [apply reachable_init|apply step_reconcile].
Defined.

(** ** The node loop *)

Section loop.
Context {W : Type} `{LS : LabelSelectors} `{AS : !ApiServer W}.

(** Turns left: one per node, and one more per node whose name is still in
    the map. *)
Definition turns (s : NodeLoop) : nat :=
  length (lp_rest s) + length (filter (λ n, n_Name n ∈ lp_names s) (lp_rest s)).

Lemma filter_names_le (l : list EgressIPStatus) (A B : gset string) : A ⊆ B →
  length (filter (λ n, n_Name n ∈ A) l) <= length (filter (λ n, n_Name n ∈ B) l).
Proof using.
  clear. intros Hs. induction l as [|n l IH]; [done|]. rewrite !filter_cons.
  repeat case_decide; simpl; try lia. exfalso. set_solver.
Qed.

Lemma nodeLoopTurn_turns s node rest w w' s' : lp_rest s = node :: rest →
  nodeLoopTurn s node rest w = (w', Ret s') → turns s' < turns s.
Proof using.
  clear. intros Hr. unfold nodeLoopTurn, turns. rewrite Hr, filter_cons. case_decide as Hin.
  - pose proof (filter_names_le rest (lp_names s ∖ {[n_Name node]}) (lp_names s) ltac:(set_solver)) as Hle.
    assert (n_Name node ∉ lp_names s ∖ {[n_Name node]}) as Hni by set_solver.
    unfold mbind_. destruct (getOrAbsent _ w) as [w1 [[t|]| | |]]; try done; case_match; intros [= <- <-];
      cbn [lp_rest lp_names length]; rewrite ?filter_cons; cbn [n_Name]; rewrite ?decide_False by done; simpl; lia.
  - intros [= <- <-]. simpl. lia.
Qed.

Lemma nodeLoop_enough fuel s w : turns s <= fuel → (∀ n w, (getTunnel n w).2 ≠ Timeout) →
  (nodeLoop fuel s w).2 ≠ Timeout.
Proof using.
  intros Hf Ht. revert s w Hf. induction fuel as [|fuel IH]; intros s w Hf; cbn [nodeLoop];
    destruct (lp_rest s) as [|node rest] eqn:Hr; try done.
  - unfold turns in Hf. rewrite Hr in Hf. simpl in Hf. lia.
  - assert ((nodeLoopTurn s node rest w).2 ≠ Timeout) as Hturn.
    { unfold nodeLoopTurn. case_decide; [|done]. cbv zeta. unfold mbind_, getOrAbsent, mbind_, attempt.
      specialize (Ht (n_Name node) w). destruct (getTunnel (n_Name node) w) as [w1 [t|e| |]]; try done.
      - simpl. by destruct (IsNotEqual _ _).
      - destruct (IsNotFound e); [|done]. simpl. by destruct (IsNotEqual _ _). }
    unfold mbind_. destruct (nodeLoopTurn s node rest w) as [w1 [s'| | |]] eqn:E; try done.
    apply IH. pose proof (nodeLoopTurn_turns _ _ _ _ _ _ Hr E). lia.
Qed.

(** Reads of tunnels answer, with a tunnel or an error. *)
Definition tunnels_answer : Prop := ∀ n (w : W), (getTunnel n w).2 ≠ Timeout.

(** C38. The loop of [reconcileGateway] over the node list ends, although a node
    without a tunnel makes it go round without advancing the index: two turns
    per node are enough, so with tunnel reads that answer the loop never runs
    out of the fuel [gatewayUpdated] gives it. *)
Theorem nodeLoop_terminates nodes names w :
  tunnels_answer →
  (nodeLoop (2 * length nodes) (mkLoop [] nodes names [] false) w).2 ≠ Timeout.
Proof using.
  intros Ht. apply nodeLoop_enough; [|done]. unfold turns. cbn [lp_rest lp_names].
  pose proof (length_filter (λ n, n_Name n ∈ names) nodes). lia.
Qed.
End loop.

Lemma nodeLoop_terminates_witness :
  (nodeLoop 6 (mkLoop [] sampleNodes {["node1"; "node2"]} [] false) sampleStore).2 ≠ Timeout.
Proof.
  apply (nodeLoop_terminates sampleNodes). intros n w. simpl. unfold call.
  destruct (st_script w) as [|[|] l]; simpl; [|done|]; by destruct (st_tunnels w !! n).
Defined.

(** A node that still matches but has no tunnel is dropped from the list (the
    comment says it is kept as Pending). *)
Lemma node_without_tunnel_is_dropped :
  (nodeLoop 6 (mkLoop [] sampleNodes {["node1"; "node2"]} [] false) sampleStore).2 =
  Ret (mkLoop [] [] ∅ (allEips sampleNodes) true).
Proof. vm_compute. reflexivity. Qed.

(** ** A reconciled policy *)

(** The API server when nobody else writes: reads answer what is stored and
    change nothing, writes store what is sent, and there is no conflict when
    the object sent is the one stored. *)
Class QuietApi (W : Type) `{AS : ApiServer W} := {
  policies : W → gmap NamespacedName EgressPolicy;
  q_getPolicy k w w' r : getPolicy k w = (w', r) →
    gateways w' = gateways w ∧ policies w' = policies w ∧
    (∀ p, r = Ret p → policies w !! k = Some p) ∧ (r = Err (ErrApi NotFound) → policies w !! k = None);
  q_getGateway n w w' r : getGateway n w = (w', r) →
    gateways w' = gateways w ∧ policies w' = policies w ∧ ∀ g, r = Ret g → gateways w !! n = Some g;
  q_updateGatewayStatus g w w' g' : updateGatewayStatus g w = (w', Ret g') →
    gateways w' = <[om_Name (g_Meta g) := g']> (gateways w) ∧ nodes_of g' = nodes_of g ∧ policies w' = policies w;
  q_updatePolicyStatus p w w' p' : updatePolicyStatus p w = (w', Ret p') →
    policies w' = <[key (ep_Meta p) := p']> (policies w) ∧ ep_Status p' = ep_Status p ∧ gateways w' = gateways w;
  q_no_conflict p w p0 : policies w !! key (ep_Meta p) = Some p0 →
    om_ResourceVersion (ep_Meta p0) = om_ResourceVersion (ep_Meta p) →
    (updatePolicyStatus p w).2 ≠ Err (ErrApi Conflict)
}.

#[export] Instance store_quiet : QuietApi Store.
Proof.
  assert (∀ A (f : Store → Store * outcome A) s, (∀ s, (f s).1 = s) →
    st_gateways (call f s).1 = st_gateways s ∧ st_policies (call f s).1 = st_policies s) as Hread.
  { intros A f s Hf. unfold call. destruct (st_script s) as [|[|] l]; by rewrite ?Hf. }
  assert (∀ A s (o : option A), (found s o).1 = s) as Hfound by (intros A s [|]; done).
  refine {| policies := st_policies |}.
  - intros k w w' r Hr. destruct (Hread _ (λ s, found s (st_policies s !! k)) w) as [H1 H2]; [by intros; apply Hfound|].
    simpl in Hr. rewrite Hr in H1, H2. split_and!; [done|done| |].
    2: { intros ->. unfold call, found in Hr. destruct (st_script w) as [|[|] l]; simpl in Hr;
         destruct (st_policies w !! k) eqn:E; simplify_eq; done. }
    intros p ->. apply call_Ret in Hr as (s0 & _ & Hp & Hf). rewrite <- Hp. unfold found in Hf. by destruct (st_policies s0 !! k); simplify_eq.
  - intros k w w' r Hr. destruct (Hread _ (λ s, found s (st_gateways s !! k)) w) as [H1 H2]; [by intros; apply Hfound|].
    simpl in Hr. rewrite Hr in H1, H2. split_and!; [done|done|]. intros p ->.
    apply call_Ret in Hr as (s0 & Hg & _ & Hf). change (gateways w) with (st_gateways w). rewrite <- Hg. unfold found in Hf. by destruct (st_gateways s0 !! k); simplify_eq.
  - intros g w w' g' (s0 & Hg & Hp & Hf)%call_Ret. change (gateways w) with (st_gateways w); change (gateways w') with (st_gateways w'); rewrite <- ?Hg, <- ?Hp. unfold replace in Hf.
    destruct (st_gateways s0 !! _); [case_decide|]; simplify_eq. done.
  - intros p w w' p' (s0 & Hg & Hp & Hf)%call_Ret. change (gateways w) with (st_gateways w); change (gateways w') with (st_gateways w'); rewrite <- ?Hg, <- ?Hp. unfold replace in Hf.
    destruct (st_policies s0 !! _); [case_decide|]; simplify_eq. done.
  - intros p w p0 Hp Hv. simpl. unfold call, replace.
    destruct (st_script w) as [|[|] l]; simpl; [|done|]; rewrite Hp; by rewrite decide_False by tauto.
Defined.

Section policy.
Context {W : Type} `{LS : LabelSelectors} `{AS : !ApiServer W} `{QA : !QuietApi W} `{MO : MapOrder} `{RD : Rand}.

(** After the status update the stored policy has the assigned status. *)
Lemma policyStatus_written p a w w' : policies w !! key (ep_Meta p) = Some p →
  updateEgressPolicyStatusIfNeed p a w = (w', Ret tt) →
  gateways w' = gateways w ∧ ∃ p', policies w' !! key (ep_Meta p) = Some p' ∧ ep_Status p' = statusOf a.
Proof using.
  intros Hp. unfold updateEgressPolicyStatusIfNeed. cbv zeta.
  destruct (_ || _) eqn:Hdiff.
  - set (p1 := mkEgressPolicy _ _ _). unfold mbind_, attempt.
    pose proof (q_no_conflict p1 w p Hp eq_refl) as Hnc.
    destruct (updatePolicyStatus p1 w) as [w1 [p'|e| |]] eqn:E; try done.
    + intros [= <-]. apply q_updatePolicyStatus in E as (Hpol & Hst & Hg). split; [done|].
      exists p'. rewrite Hpol. by rewrite lookup_insert_eq.
    + rewrite bool_decide_eq_false_2 || (unfold IsConflict; rewrite bool_decide_eq_false_2); [done|].
      intros ->. by apply Hnc.
  - intros [= <-]. split; [done|]. exists p. split; [done|].
    rewrite !orb_false_iff, !bool_decide_eq_false in Hdiff. destruct Hdiff as [[H4 H6] Hn].
    apply dec_stable in H4, H6, Hn. unfold statusOf. destruct (ep_Status p) as [[v4 v6] n]. simpl in *. congruence.
Qed.

Lemma mbind_Ret {A B} (c : M W A) (k : A → M W B) w w' b : mbind_ c k w = (w', Ret b) →
  ∃ w1 a, c w = (w1, Ret a) ∧ k a w1 = (w', Ret b).
Proof using. clear. unfold mbind_. destruct (c w) as [w1 [a| | |]]; [eauto|done..]. Qed.

Lemma getOrAbsent_Ret {A} (c : M W A) w w' r : getOrAbsent c w = (w', Ret r) →
  c w = (w', match r with Some a => Ret a | None => Err (ErrApi NotFound) end).
Proof using.
  clear. unfold getOrAbsent, mbind_, attempt. destruct (c w) as [w1 [a|e| |]]; try done; [by intros [= <- <-]|].
  destruct (IsNotFound e) eqn:E; [|done]. apply bool_decide_eq_true in E as ->. by intros [= <- <-].
Qed.

Lemma getAssignedIP_nodes g g' ns name : NodeList g = NodeList g' → getAssignedIP g ns name = getAssignedIP g' ns name.
Proof using. clear. intros H. unfold getAssignedIP. by rewrite H. Qed.

(** A policy is in effect: the stored gateway assigns it and its stored status
    gives the assignment. *)
Definition in_effect (w : W) (req : NamespacedName) (gatewayName : string) : Prop :=
  ∃ g' a p', gateways w !! gatewayName = Some g' ∧
    getAssignedIP g' (nn_Namespace req) (nn_Name req) = Some a ∧
    policies w !! req = Some p' ∧ ep_Status p' = statusOf a.

(** C25. An EgressPolicy that is reconciled without an error and without other
    clients of the API server ([QuietApi]) is in effect: when a stored policy names a stored gateway (well formed) and does not ask for
    the default EIP, after [reconcileEgressPolicy] the stored gateway holds
    an assignment for the policy and the status of the stored policy gives
    its node and its addresses. *)
Theorem reconciled_policy_is_assigned req w w' res p g :
  policies w !! req = Some p → key (ep_Meta p) = req → om_Deleting (ep_Meta p) = false → nn_Name req ≠ "" →
  pol_EgressGatewayName (ep_Spec p) ≠ "" →
  gateways w !! pol_EgressGatewayName (ep_Spec p) = Some g →
  om_Name (g_Meta g) = pol_EgressGatewayName (ep_Spec p) → gw_ok (NodeList g) →
  eip_UseNodeIP (pol_EgressIP (ep_Spec p)) = true ∨ eip_IPv4 (pol_EgressIP (ep_Spec p)) ≠ "" ∨
    eip_IPv6 (pol_EgressIP (ep_Spec p)) ≠ "" ∨ eip_AllocatorPolicy (pol_EgressIP (ep_Spec p)) = EipAllocatorRR →
  reconcileEgressPolicy req w = (w', Ret res) →
  in_effect w' req (pol_EgressGatewayName (ep_Spec p)).
Proof using QA.
  intros Hp Hkey Hdel Hname Hgn Hg Hgname Hok Hspec Hrec. unfold reconcileEgressPolicy in Hrec.
  apply mbind_Ret in Hrec as (w1 & r & Hr & Hrec). apply getOrAbsent_Ret in Hr.
  apply q_getPolicy in Hr as (G1 & P1 & Hfound & Habs).
  destruct r as [p0|]; [|by rewrite (Habs eq_refl) in Hp]. rewrite (Hfound p0 eq_refl) in Hp. injection Hp as ->.
  cbn [from_option id] in Hrec. cbv zeta in Hrec. rewrite Hdel in Hrec.
  assert (om_Name (ep_Meta p) = nn_Name req) as Hn by (by rewrite <- Hkey). rewrite Hn in Hrec.
  rewrite !bool_decide_eq_true_2 in Hrec by done. simpl in Hrec.
  apply mbind_Ret in Hrec as (w2 & r2 & Hr2 & Hrec). apply getOrAbsent_Ret in Hr2.
  apply q_getGateway in Hr2 as (G2 & P2 & Hfound2).
  destruct r2 as [g0|]; [|done]. specialize (Hfound2 g0 eq_refl). rewrite G1, Hg in Hfound2. injection Hfound2 as <-.
  assert (policies w2 !! key (ep_Meta p) = Some p) as Hp2.
  { rewrite P2, P1, Hkey. by apply Hfound. }
  assert (gateways w2 = gateways w) as G12 by congruence.
  destruct (getAssignedIP g _ _) as [a|] eqn:Ha.
  - apply mbind_Ret in Hrec as (w3 & [] & Hst & [= <- <-]).
    destruct (policyStatus_written _ _ _ _ Hp2 Hst) as (G3 & p' & Hp' & Hs).
    exists g, a, p'. rewrite G3, G12, <- Hkey. rewrite <- Hkey in Ha. done.
  - apply mbind_Ret in Hrec as (w3 & [g1 a] & Has & Hrec). unfold assignOrFail in Has.
    destruct (assignIP g req _) as [g1' r3] eqn:Hassign.
    apply mbind_Ret in Has as (w4 & [a'|] & [= -> ->] & [= <- <- <-]).
    pose proof (assignIP_meta g req (pol_EgressIP (ep_Spec p))) as Hmeta. rewrite Hassign in Hmeta. simpl in Hmeta.
    apply getAssignedIP_None in Ha. apply assignIP_records in Hassign as [Hrc|(_ & ? & ? & ? & ? & _)];
      [|exfalso; destruct Hspec as [Hs|[Hs|[Hs|Hs]]]; congruence].
    apply mbind_Ret in Hrec as (w5 & g2 & Hup & Hrec). apply mbind_Ret in Hrec as (w6 & [] & Hst & [= <- <-]).
    unfold updateGatewayStatusWithUsage in Hup.
    destruct (countGatewayIP g1') as [[[[c1 c2] c3] c4]| | |]; try done.
    apply q_updateGatewayStatus in Hup as (G5 & Hn5 & P5). simpl in G5, Hn5.
    rewrite <- P5 in Hp2. destruct (policyStatus_written _ _ _ _ Hp2 Hst) as (G6 & p' & Hp' & Hs).
    exists g2, (mkAssigned (a_Node a') (a_IPv4 a') (a_IPv6 a') false), p'. split_and!.
    + rewrite G6, G5, Hmeta, Hgname. by rewrite lookup_insert_eq.
    + rewrite (getAssignedIP_nodes g2 g1') by exact Hn5.
      by apply (get_records g1' (mkPolicy (nn_Name req) (nn_Namespace req)) a' (NodeList g)).
    + by rewrite <- Hkey.
    + by rewrite Hs.
Qed.
End policy.

Lemma reconciled_policy_is_assigned_witness :
  ∃ g' a p', let w' := (reconcileEgressPolicy (MO := map_order_id) (RD := rand_zero) (mkNN "ns" "new") sampleStore).1 in
    gateways w' !! "egw" = Some g' ∧ getAssignedIP g' "ns" "new" = Some a ∧ a_IPv4 a = "10.0.0.3" ∧
    policies w' !! mkNN "ns" "new" = Some p' ∧ ep_Status p' = statusOf a.
Proof.
  destruct (reconciled_policy_is_assigned (MO := map_order_id) (RD := rand_zero) (mkNN "ns" "new") sampleStore
    (reconcileEgressPolicy (MO := map_order_id) (RD := rand_zero) (mkNN "ns" "new") sampleStore).1 done_
    samplePolicy sampleGateway) as (g' & a & p' & Hg & Ha & Hp & Hs);
    [vm_compute; reflexivity|reflexivity|reflexivity|done|done|vm_compute; reflexivity|reflexivity|apply sample_ok|
     right; right; right; reflexivity|vm_compute; reflexivity|].
  exists g', a, p'. cbv zeta. split_and!; [exact Hg|exact Ha| |exact Hp|exact Hs].
  vm_compute in Hg. injection Hg as <-. vm_compute in Ha. by injection Ha as <-.
Defined.

(** ** The finalizer *)

(** C39. A gateway that is being deleted is kept while an [EgressPolicy] uses it:
    if the list of policies has one that names the gateway, [reconcileGateway]
    only reads, so the finalizer stays and the API server keeps the gateway. *)
Theorem used_gateway_keeps_its_finalizer {W} `{ApiServer W} `{MapOrder} `{Rand} req g (w0 w w1 : W) items p :
  getGateway (nn_Name req) w0 = (w, Ret g) → om_Deleting (g_Meta g) = true →
  listPolicies w = (w1, Ret items) → p ∈ items → pol_EgressGatewayName (ep_Spec p) = nn_Name req →
  (reconcileGateway req w0).1 = (listPolicies w1).1 ∧
  (is_ret (listPolicies w1).2 = true → (reconcileGateway req w0).2 = Ret done_).
Proof.
  intros Hg Hd Hl Hp Hn.
  assert (reconcileGateway req w0 = gatewayDeleted req g w) as ->.
  { unfold reconcileGateway, getOrAbsent, mbind_ at 1 2, attempt. rewrite Hg. unfold mret at 1. by rewrite Hd. }
  unfold gatewayDeleted, getPolicyCountByGatewayName, mbind_. rewrite Hl.
  destruct (listPolicies w1) as [w2 [l2|e|s|]]; try done. simpl.
  assert (0 < length (filter (λ p, pol_EgressGatewayName (ep_Spec p) = nn_Name req) items)) as Hlen.
  { assert (Hin : p ∈ filter (λ p, pol_EgressGatewayName (ep_Spec p) = nn_Name req) items) by (by apply list_elem_of_filter).
    destruct (filter _ items); [by apply not_elem_of_nil in Hin|simpl; lia]. }
  rewrite bool_decide_eq_false_2 by lia. simpl. done.
Qed.

Definition deletingStore (policies : gmap NamespacedName EgressPolicy) (clusterPolicies : gmap NamespacedName EgressClusterPolicy) : Store :=
  mkStore {["egw" := mkGateway (mkMeta "egw" "" ∅ [egressGatewayFinalizers] true 1) (g_Spec sampleGateway) (g_Status sampleGateway)]}
    policies clusterPolicies ∅ ∅ [].
Abbreviation reconcileEgw := (reconcileGateway (MO := map_order_id) (RD := rand_zero) (mkNN "" "egw")).

Lemma used_gateway_keeps_its_finalizer_witness :
  let s := deletingStore {[mkNN "ns" "new" := samplePolicy]} ∅ in (reconcileEgw s).1 = s.
Proof.
  intros s.
  destruct (used_gateway_keeps_its_finalizer (H1 := map_order_id) (H2 := rand_zero) (mkNN "" "egw")
    (mkGateway (mkMeta "egw" "" ∅ [egressGatewayFinalizers] true 1) (g_Spec sampleGateway) (g_Status sampleGateway))
    s s s [samplePolicy] samplePolicy) as [Hw _]; [reflexivity..|apply list_elem_of_singleton; reflexivity|reflexivity|].
  exact Hw.
Defined.

(** The count leaves out cluster policies: the finalizer of a gateway that a
    cluster policy uses is removed, and the gateway is gone. *)
Lemma finalizer_ignores_cluster_policies :
  let cp := mkEgressClusterPolicy (mkMeta "cp" "" ∅ [] false 1)
    (mkClusterPolicySpec "egw" zeroEgressIP (mkClusterAppliedTo None None None) [] 0) zeroPolicyStatus in
  gateways (reconcileEgw (deletingStore ∅ {[mkNN "" "cp" := cp]})).1 !! "egw" = None.
Proof. vm_compute. reflexivity. Qed.
