(* ===== verification/EndpointSlice.v ===== *)
(** * Endpoint slices ([pkg/controller/endpoint])

    The pods a policy selects are published to the agents in endpoint slices
    of bounded size.  [endpoint_slice.go] (EgressPolicy) and
    [cluster_endpoint_slice.go] (EgressClusterPolicy) have the same reconcile
    code on two types of slices: it is written once here, over the interface
    [SliceOps] that both types implement.

    The computation of what to write is [planSlices]; the reconcilers run it
    between the reads and the writes.  [GenerateName] and [OwnerReferences] of
    a new slice are not part of the modelled metadata. *)

From S2P Require Import Prelude GoStd GoNet IPUtil Types ApiServer.
Open Scope nat_scope.

(** What the code uses of a pod and of a namespace. *)
Record Pod := mkPod {
  pod_Meta : ObjectMeta;
  pod_NodeName : string;
  pod_PodIPs : list string
}.
Record Namespace := mkNamespace { nsp_Meta : ObjectMeta }.

Definition podKey (pod : Pod) : NamespacedName := mkNN (om_Namespace (pod_Meta pod)) (om_Name (pod_Meta pod)).
Definition epKey (ep : EgressEndpoint) : NamespacedName := mkNN (ept_Namespace ep) (ept_Pod ep).

(** ** One endpoint *)

(** The loop over [pod.Status.PodIPs] that [newEndpoint] and
    [needUpdateEndpoint] share. *)
Definition splitPodIPs (pod : Pod) : list string * list string :=
  foldl (λ acc podIP,
    let ip := ParseIP podIP in
    if decide (To4 ip ≠ []) then (acc.1 ++ [podIP], acc.2)
    else if decide (To16 ip ≠ []) then (acc.1, acc.2 ++ [podIP])
    else acc) ([], []) (pod_PodIPs pod).

Definition newEndpoint (pod : Pod) : option EgressEndpoint :=
  let '(ipv4List, ipv6List) := splitPodIPs pod in
  if bool_decide (length ipv4List = 0) && bool_decide (length ipv6List = 0) then None
  else Some (mkEndpoint (om_Namespace (pod_Meta pod)) (om_Name (pod_Meta pod)) ipv4List ipv6List (pod_NodeName pod)).

Fixpoint sliceEqualLoop (a b : list string) : bool :=
  match a, b with
  | x :: a', y :: b' => if decide (x ≠ y) then false else sliceEqualLoop a' b'
  | _, _ => true
  end.
Definition sliceEqual (a b : list string) : bool :=
  if decide (length a ≠ length b) then false else sliceEqualLoop a b.

(** The endpoint that is changed through the pointer is returned with the
    answer. *)
Definition needUpdateEndpoint (pod : Pod) (ep : EgressEndpoint) : bool * EgressEndpoint :=
  let '(v4, v6) := splitPodIPs pod in
  let expIPv4List := sortStrings v4 in
  let expIPv6List := sortStrings v6 in
  let upd4 := negb (sliceEqual expIPv4List (ept_IPv4 ep)) in
  let upd6 := negb (sliceEqual expIPv6List (ept_IPv6 ep)) in
  let updN := bool_decide (pod_NodeName pod ≠ ept_Node ep) in
  (upd4 || upd6 || updN,
   mkEndpoint (ept_Namespace ep) (ept_Pod ep)
     (if upd4 then expIPv4List else ept_IPv4 ep) (if upd6 then expIPv6List else ept_IPv6 ep)
     (if updN then pod_NodeName pod else ept_Node ep)).

(** ** Slices *)

(** What the reconcile code needs of a type of slices. *)
Class SliceOps (S : Type) := {
  Endpoints : S → list EgressEndpoint;
  withEndpoints : S → list EgressEndpoint → S;
  sliceMeta : S → ObjectMeta;
  Endpoints_with s l : Endpoints (withEndpoints s l) = l;
  sliceMeta_with s l : sliceMeta (withEndpoints s l) = sliceMeta s;
  with_Endpoints s : withEndpoints s (Endpoints s) = s
}.
#[export] Instance slice_ops : SliceOps EgressEndpointSlice.
Proof.
  refine {| Endpoints := sl_Endpoints; withEndpoints s l := mkSlice (sl_Meta s) l; sliceMeta := sl_Meta |};
    by try intros [].
Defined.
#[export] Instance cluster_slice_ops : SliceOps EgressClusterEndpointSlice.
Proof.
  refine {| Endpoints := csl_Endpoints; withEndpoints s l := mkClusterSlice (csl_Meta s) l; sliceMeta := csl_Meta |};
    by try intros [].
Defined.

Section plan.
Context {S : Type} `{SO : !SliceOps S}.

(** The loop over the endpoints of one slice: those kept, whether the slice
    changed, and the keys seen. *)
Fixpoint syncEndpoints (podMap : gmap NamespacedName Pod) (eps : list EgressEndpoint)
    (existing : gset NamespacedName) : list EgressEndpoint * bool * gset NamespacedName :=
  match eps with
  | [] => ([], false, existing)
  | ep :: eps' =>
      match podMap !! epKey ep with
      | Some pod =>
          let '(upd, ep') := needUpdateEndpoint pod ep in
          let '(kept, needUpdate, existing') := syncEndpoints podMap eps' ({[epKey ep]} ∪ existing) in
          (ep' :: kept, upd || needUpdate, existing')
      | None =>
          let '(kept, _, existing') := syncEndpoints podMap eps' existing in
          (kept, true, existing')
      end
  end.

(** The loop over the existing slices: to update, not changed, keys seen. *)
Fixpoint syncSlices (podMap : gmap NamespacedName Pod) (slices : list S) (existing : gset NamespacedName)
    : list S * list S * gset NamespacedName :=
  match slices with
  | [] => ([], [], existing)
  | s :: slices' =>
      let '(kept, needUpdate, existing1) := syncEndpoints podMap (Endpoints s) existing in
      let '(toUpdate, notChange, existing2) := syncSlices podMap slices' existing1 in
      let s' := withEndpoints s kept in
      if needUpdate : bool then (s' :: toUpdate, notChange, existing2) else (toUpdate, s' :: notChange, existing2)
  end.

(** Filling the slices that are updated anyway. *)
Fixpoint fillUpdated (max : Z) (slices : list S) (need : list EgressEndpoint) : list S * list EgressEndpoint :=
  match slices with
  | [] => ([], need)
  | s :: slices' =>
      if decide (Z.of_nat (length (Endpoints s)) < max)%Z then
        let count := Z.to_nat (max - Z.of_nat (length (Endpoints s))) in
        if decide (count < length need) then
          let '(filled, need') := fillUpdated max slices' (drop count need) in
          (withEndpoints s (Endpoints s ++ take count need) :: filled, need')
        else (withEndpoints s (Endpoints s ++ need) :: slices', [])
      else
        let '(filled, need') := fillUpdated max slices' need in (s :: filled, need')
  end.

(** Filling slices that did not change: the filled ones, which are appended to
    the slices to update, the ones left alone, and the endpoints left. *)
Fixpoint fillNotChanged (max : Z) (slices : list S) (need : list EgressEndpoint)
    : list S * list S * list EgressEndpoint :=
  match slices with
  | [] => ([], [], need)
  | s :: slices' =>
      if decide (Z.of_nat (length (Endpoints s)) < max)%Z then
        let count := Z.to_nat (max - Z.of_nat (length (Endpoints s))) in
        if decide (count < length need) then
          let '(filled, rest, need') := fillNotChanged max slices' (drop count need) in
          (withEndpoints s (Endpoints s ++ take count need) :: filled, rest, need')
        else ([withEndpoints s (Endpoints s ++ need)], slices', [])
      else
        let '(filled, rest, need') := fillNotChanged max slices' need in (filled, s :: rest, need')
  end.

(** [for len(needToCreateEp) > 0]: new slices for what is left.  Slicing with a
    negative bound panics. *)
Fixpoint createSlices (fuel : nat) (max : Z) (newSlice : S) (need : list EgressEndpoint) : outcome (list S) :=
  match need with
  | [] => Ret []
  | _ :: _ =>
      match fuel with
      | O => Timeout
      | Datatypes.S fuel' =>
          if decide (max < Z.of_nat (length need))%Z then
            if decide (max < 0)%Z then Panic "slice bounds out of range"
            else
              let! rest := createSlices fuel' max newSlice (drop (Z.to_nat max) need) in
              Ret (withEndpoints newSlice (Endpoints newSlice ++ take (Z.to_nat max) need) :: rest)
          else
            let! rest := createSlices fuel' max newSlice [] in
            Ret (withEndpoints newSlice (Endpoints newSlice ++ need) :: rest)
      end
  end.

Record Plan := mkPlan {
  plan_update : list S;
  plan_create : list S;
  (** Slices that are not written. *)
  plan_keep : list S
}.

(** The computation between the reads and the writes of [Reconcile].  One turn
    of the last loop per missing endpoint is enough, for a positive bound. *)
Definition planSlices (max : Z) (pods : list Pod) (slices : list S) (newSlice : S) : outcome Plan :=
  let podMap : gmap NamespacedName Pod := foldl (λ m pod, <[podKey pod := pod]> m) ∅ pods in
  let '(toUpdate, notChange, existing) := syncSlices podMap slices ∅ in
  let need := omap (λ pod, if decide (podKey pod ∈ existing) then None else newEndpoint pod) pods in
  let '(toUpdate, keep, need) :=
    if decide (0 < length need) then
      let '(toUpdate', need1) := fillUpdated max toUpdate need in
      let '(filled, keep, need2) := fillNotChanged max notChange need1 in
      (toUpdate' ++ filled, keep, need2)
    else (toUpdate, notChange, need) in
  let! toCreate := createSlices (length need) max newSlice need in
  Ret (mkPlan toUpdate toCreate keep).
End plan.
Arguments Plan : clear implicits.
Arguments mkPlan {S} _ _ _.
Arguments plan_update {S} _.
Arguments plan_create {S} _.
Arguments plan_keep {S} _.

(** ** The reconcilers *)

(** The calls they make. *)
Class EndpointApi (W : Type) `{LabelSelectors} := {
  epGetPolicy : NamespacedName → M W EgressPolicy;
  epGetClusterPolicy : NamespacedName → M W EgressClusterPolicy;
  (** Pods of a namespace, or of all namespaces for [""]. *)
  listPods : string → Selector → M W (list Pod);
  listNamespaces : Selector → M W (list Namespace);
  getNamespace : string → M W Namespace;
  listAllNamespaces : M W (list Namespace);
  epListPolicies : M W (list EgressPolicy);
  epListClusterPolicies : M W (list EgressClusterPolicy);
  listSlices : string → Selector → M W (list EgressEndpointSlice);
  updateSlice : EgressEndpointSlice → M W unit;
  createSlice : EgressEndpointSlice → M W unit;
  deleteSlice : EgressEndpointSlice → M W unit;
  listClusterSlices : Selector → M W (list EgressClusterEndpointSlice);
  updateClusterSlice : EgressClusterEndpointSlice → M W unit;
  createClusterSlice : EgressClusterEndpointSlice → M W unit;
  deleteClusterSlice : EgressClusterEndpointSlice → M W unit
}.

Section reconcile.
Context {W : Type} `{LS : LabelSelectors} `{EA : !EndpointApi W}.

Definition newEndpointSlice (policy : EgressPolicy) : EgressEndpointSlice :=
  mkSlice (mkMeta "" (om_Namespace (ep_Meta policy)) {[LabelPolicyName := om_Name (ep_Meta policy)]} [] false 0) [].
Definition newClusterEndpointSlice (policy : EgressClusterPolicy) : EgressClusterEndpointSlice :=
  mkClusterSlice (mkMeta "" "" {[LabelPolicyName := om_Name (cp_Meta policy)]} [] false 0) [].

Definition policyLabel (policyName : string) : option LabelSelector :=
  Some (mkLabelSelector {[LabelPolicyName := policyName]} []).

Definition listPodsByPolicy (policy : EgressPolicy) : M W (list Pod) :=
  let* selector := lift (LabelSelectorAsSelector (at_PodSelector (pol_AppliedTo (ep_Spec policy)))) in
  listPods (om_Namespace (ep_Meta policy)) selector.

Definition listEndpointSlices (namespace policyName : string) : M W (list EgressEndpointSlice) :=
  let* selector := lift (LabelSelectorAsSelector (policyLabel policyName)) in
  listSlices namespace selector.

Definition listPodsByClusterPolicy (policy : EgressClusterPolicy) : M W (list Pod) :=
  let applied := cpol_AppliedTo (cp_Spec policy) in
  match cat_NamespaceSelector applied with
  | None =>
      let* selector := lift (LabelSelectorAsSelector (cat_PodSelector applied)) in
      listPods "" selector
  | Some nsSelector =>
      let* nsSelector := lift (LabelSelectorAsSelector (Some nsSelector)) in
      let* nsList := listNamespaces nsSelector in
      mforeach (λ ns res,
        let* selector := lift (LabelSelectorAsSelector (cat_PodSelector applied)) in
        let* pods := listPods (om_Name (nsp_Meta ns)) selector in
        mret (res ++ pods)) nsList []
  end.

Definition listClusterEndpointSlices (policyName : string) : M W (list EgressClusterEndpointSlice) :=
  let* selector := lift (LabelSelectorAsSelector (policyLabel policyName)) in
  listClusterSlices selector.

(** A write whose error is collected. *)
Definition collect (c : M W unit) (errs : list error) : M W (list error) :=
  let* r := attempt c in
  mret (match r with inl _ => errs | inr e => errs ++ [e] end).

(** The three loops of writes: a slice to update that has become empty is
    deleted instead; errors are aggregated. *)
Definition writeSlices {S} `{!SliceOps S} (update create delete : S → M W unit) (plan : Plan S) : M W Result :=
  let isEmpty s := bool_decide (length (Endpoints s) = 0) in
  let toDelete := filter (λ s, isEmpty s = true) (plan_update plan) in
  let* errs := mforeach (λ s errs, if isEmpty s then mret errs else collect (update s) errs) (plan_update plan) [] in
  let* errs := mforeach (λ s errs, collect (create s) errs) (plan_create plan) errs in
  let* errs := mforeach (λ s errs, collect (delete s) errs) toDelete errs in
  match errs with
  | [] => mret done_
  | _ => merr (ErrNew "aggregate")
  end.

(** [max] is [MaxNumberEndpointPerSlice] of the configuration. *)
Definition reconcileEndpointSlices (max : Z) (req : NamespacedName) : M W Result :=
  let* policy := getOrAbsent (epGetPolicy req) in
  match policy with
  | None => mret done_
  | Some policy =>
      if om_Deleting (ep_Meta policy) then mret done_
      else
        let* pods := listPodsByPolicy policy in
        let* slices := listEndpointSlices (om_Namespace (ep_Meta policy)) (om_Name (ep_Meta policy)) in
        let* plan := lift (planSlices max pods slices (newEndpointSlice policy)) in
        writeSlices updateSlice createSlice deleteSlice plan
  end.

Definition reconcileClusterEndpointSlices (max : Z) (req : NamespacedName) : M W Result :=
  let* policy := getOrAbsent (epGetClusterPolicy req) in
  match policy with
  | None => mret done_
  | Some policy =>
      if om_Deleting (cp_Meta policy) then mret done_
      else
        let* pods := listPodsByClusterPolicy policy in
        let* slices := listClusterEndpointSlices (om_Name (cp_Meta policy)) in
        let* plan := lift (planSlices max pods slices (newClusterEndpointSlice policy)) in
        writeSlices updateClusterSlice createClusterSlice deleteClusterSlice plan
  end.

(** ** From pods and namespaces to requests *)

(** The list of a call, [None] when it fails: the handlers then return nil. *)
Definition listOrNil {A} (c : M W A) : M W (option A) :=
  let* r := attempt c in
  mret (match r with inl a => Some a | inr _ => None end).

(** Requests for the policies of a list that match; an invalid selector gives
    nil for the whole list. *)
Fixpoint matchingPolicies (pod : Pod) (policies : list EgressPolicy) : option (list NamespacedName) :=
  match policies with
  | [] => Some []
  | policy :: policies' =>
      match LabelSelectorAsSelector (at_PodSelector (pol_AppliedTo (ep_Spec policy))) with
      | Ret selPods =>
          match matchingPolicies pod policies' with
          | None => None
          | Some res =>
              Some (if Matches selPods (om_Labels (pod_Meta pod))
                    then mkNN (om_Namespace (ep_Meta policy)) (om_Name (ep_Meta policy)) :: res else res)
          end
      | _ => None
      end
  end.

Definition enqueuePod (obj : option Pod) : M W (list NamespacedName) :=
  match obj with
  | None => mret []
  | Some pod =>
      let* policyList := listOrNil epListPolicies in
      mret (match policyList with None => [] | Some l => default [] (matchingPolicies pod l) end)
  end.

Fixpoint matchingNS (ns : Namespace) (policies : list EgressClusterPolicy) : option (list NamespacedName) :=
  match policies with
  | [] => Some []
  | policy :: policies' =>
      match LabelSelectorAsSelector (cat_NamespaceSelector (cpol_AppliedTo (cp_Spec policy))) with
      | Ret selNS =>
          match matchingNS ns policies' with
          | None => None
          | Some res =>
              Some (if Matches selNS (om_Labels (nsp_Meta ns))
                    then mkNN (om_Namespace (cp_Meta policy)) (om_Name (cp_Meta policy)) :: res else res)
          end
      | _ => None
      end
  end.

Definition enqueueNS (obj : option Namespace) : M W (list NamespacedName) :=
  match obj with
  | None => mret []
  | Some ns =>
      let* policyList := listOrNil epListClusterPolicies in
      mret (match policyList with None => [] | Some l => default [] (matchingNS ns l) end)
  end.

(** The pods of a cluster policy: the labels of the pod, then those of its
    namespace, which is read for each policy that needs it. *)
Fixpoint matchingClusterPolicies (pod : Pod) (policies : list EgressClusterPolicy) (res : list NamespacedName)
    : M W (list NamespacedName) :=
  match policies with
  | [] => mret res
  | policy :: policies' =>
      let applied := cpol_AppliedTo (cp_Spec policy) in
      let request := mkNN (om_Namespace (cp_Meta policy)) (om_Name (cp_Meta policy)) in
      match LabelSelectorAsSelector (cat_PodSelector applied) with
      | Ret selPods =>
          if Matches selPods (om_Labels (pod_Meta pod)) then
            match cat_NamespaceSelector applied with
            | None => matchingClusterPolicies pod policies' (res ++ [request])
            | Some sel =>
                let* ns := listOrNil (getNamespace (om_Namespace (pod_Meta pod))) in
                match ns with
                | None => mret []
                | Some ns =>
                    match LabelSelectorAsSelector (Some sel) with
                    | Ret selNS =>
                        if Matches selNS (om_Labels (nsp_Meta ns))
                        then matchingClusterPolicies pod policies' (res ++ [request])
                        else matchingClusterPolicies pod policies' res
                    | _ => mret []
                    end
                end
            end
          else matchingClusterPolicies pod policies' res
      | _ => mret []
      end
  end.

Definition enqueueEGCP (obj : option Pod) : M W (list NamespacedName) :=
  match obj with
  | None => mret []
  | Some pod =>
      let* policyList := listOrNil epListClusterPolicies in
      match policyList with
      | None => mret []
      | Some l =>
          let* nsList := listOrNil listAllNamespaces in
          match nsList with
          | None => mret []
          | Some _ => matchingClusterPolicies pod l []
          end
      end
  end.
End reconcile.

(** ** Events *)

Definition podPredicate_Create (obj : option Pod) : bool :=
  match obj with
  | None => false
  | Some pod => if decide (length (pod_PodIPs pod) = 0) then false else true
  end.
Definition podPredicate_Update (ev : UpdateEvent Pod) : bool :=
  match ev_ObjectOld ev, ev_ObjectNew ev with
  | Some old, Some new =>
      if bool_decide (om_Labels (pod_Meta old) = om_Labels (pod_Meta new)) &&
         bool_decide (pod_PodIPs old = pod_PodIPs new) && bool_decide (pod_NodeName old = pod_NodeName new)
      then false else true
  | _, _ => false
  end.
Definition nsPredicate_Update (ev : UpdateEvent Namespace) : bool :=
  match ev_ObjectOld ev, ev_ObjectNew ev with
  | Some old, Some new =>
      if decide (om_Labels (nsp_Meta old) = om_Labels (nsp_Meta new)) then false else true
  | _, _ => false
  end.

(** ** What the plan publishes *)

(** An endpoint tells the truth about its pod. *)
Definition up_to_date (pod : Pod) (ep : EgressEndpoint) : Prop :=
  epKey ep = podKey pod ∧ ept_Node ep = pod_NodeName pod ∧
  ept_IPv4 ep ≡ₚ (splitPodIPs pod).1 ∧ ept_IPv6 ep ≡ₚ (splitPodIPs pod).2.

Lemma sliceEqual_spec a b : sliceEqual a b = true ↔ a = b.
Proof.
  unfold sliceEqual. case_decide as Hl; [split; [done|]; intros ->; done|].
  assert (length a = length b) as Hl' by lia. clear Hl.
  revert b Hl'. induction a as [|x a IH]; intros [|y b] Hl; simplify_eq; simpl; [done|].
  case_decide; [split; [done|]; congruence|]. rewrite IH by (simpl in Hl; lia). naive_solver.
Qed.

Lemma sortStrings_perm l : sortStrings l ≡ₚ l.
Proof. apply merge_sort_Permutation. Qed.

Lemma needUpdateEndpoint_refreshes pod ep : epKey ep = podKey pod → up_to_date pod (needUpdateEndpoint pod ep).2.
Proof.
  intros Hk. unfold needUpdateEndpoint, up_to_date. destruct (splitPodIPs pod) as [v4 v6]. cbn [snd fst].
  assert (∀ exp got, (if negb (sliceEqual (sortStrings exp) got) then sortStrings exp else got) ≡ₚ exp) as Hl.
  { intros exp got. destruct (sliceEqual (sortStrings exp) got) eqn:E; simpl; [|apply sortStrings_perm].
    apply sliceEqual_spec in E as <-. apply sortStrings_perm. }
  split_and!; [done| |apply Hl|apply Hl]. simpl. case_bool_decide as Hn; [done|]. done.
Qed.

Lemma needUpdateEndpoint_unchanged pod ep ep' : needUpdateEndpoint pod ep = (false, ep') → ep' = ep.
Proof.
  unfold needUpdateEndpoint. destruct (splitPodIPs pod) as [v4 v6]. intros [= Hu <-].
  rewrite !orb_false_iff in Hu. destruct Hu as [[-> ->] ->]. by destruct ep.
Qed.

Lemma newEndpoint_up_to_date pod ep : newEndpoint pod = Some ep → up_to_date pod ep.
Proof.
  unfold newEndpoint, up_to_date. destruct (splitPodIPs pod) as [v4 v6].
  destruct (_ && _); [done|]. intros [= <-]. done.
Qed.

(** What is kept of an existing endpoint. *)
Definition refresh (podMap : gmap NamespacedName Pod) (ep : EgressEndpoint) : option EgressEndpoint :=
  (λ pod, (needUpdateEndpoint pod ep).2) <$> podMap !! epKey ep.

Lemma syncEndpoints_spec podMap eps existing kept upd existing' :
  syncEndpoints podMap eps existing = (kept, upd, existing') →
  kept = omap (refresh podMap) eps ∧
  existing' = existing ∪ list_to_set (filter (λ k, is_Some (podMap !! k)) (epKey <$> eps)) ∧
  (upd = false → kept = eps).
Proof.
  revert existing kept upd existing'. induction eps as [|ep eps IH]; intros existing kept upd existing'; cbn [syncEndpoints].
  { intros [= <- <- <-]. split_and!; [done|set_solver|done]. }
  cbn [omap list_omap fmap list_fmap]. rewrite filter_cons. unfold refresh at 1.
  destruct (podMap !! epKey ep) as [pod|] eqn:Hp.
  - destruct (needUpdateEndpoint pod ep) as [u ep'] eqn:Hu.
    destruct (syncEndpoints podMap eps ({[epKey ep]} ∪ existing)) as [[kept0 upd0] ex0] eqn:E.
    intros [= <- <- <-]. destruct (IH _ _ _ _ E) as (-> & -> & Hu0). split_and!.
    + simpl. by rewrite Hu.
    + rewrite decide_True by eauto. set_solver.
    + intros [-> ->]%orb_false_iff. apply needUpdateEndpoint_unchanged in Hu as ->. f_equal. by apply Hu0.
  - destruct (syncEndpoints podMap eps existing) as [[kept0 upd0] ex0] eqn:E. intros [= <- <- <-].
    destruct (IH _ _ _ _ E) as (-> & -> & _). split_and!; [done| |done].
    rewrite decide_False by (by intros [? ?]). done.
Qed.

Lemma length_omap_le {A B} (f : A → option B) (l : list A) : length (omap f l) <= length l.
Proof. induction l as [|x l IH]; csimpl; [done|]. destruct (f x); simpl; lia. Qed.

Lemma list_omap_ext_strong {A B} (f g : A → option B) (l : list A) :
  (∀ x, x ∈ l → f x = g x) → omap f l = omap g l.
Proof.
  induction l as [|x l IH]; intros Hl; csimpl; [done|]. rewrite (Hl x) by by left.
  rewrite IH; [done|]. intros y Hy. apply Hl. by right.
Qed.

Section plan_facts.
Context {S : Type} `{SO : !SliceOps S}.

Definition allEndpoints (slices : list S) : list EgressEndpoint := slices ≫= Endpoints.
Definition fits (max : Z) (s : S) : Prop := (Z.of_nat (length (Endpoints s)) <= max)%Z.

Lemma allEndpoints_app l1 l2 : allEndpoints (l1 ++ l2) = allEndpoints l1 ++ allEndpoints l2.
Proof using. apply bind_app. Qed.
Lemma allEndpoints_cons s l : allEndpoints (s :: l) = Endpoints s ++ allEndpoints l.
Proof using. done. Qed.
Lemma allEndpoints_with s eps l : allEndpoints (withEndpoints s eps :: l) = eps ++ allEndpoints l.
Proof using. rewrite allEndpoints_cons. by rewrite Endpoints_with. Qed.

#[local] Instance allEndpoints_proper : Proper ((≡ₚ) ==> (≡ₚ)) allEndpoints.
Proof using. intros l l' Hl. unfold allEndpoints. by rewrite Hl. Qed.

Lemma syncSlices_spec podMap slices existing upd keep existing' :
  syncSlices podMap slices existing = (upd, keep, existing') →
  allEndpoints (upd ++ keep) ≡ₚ omap (refresh podMap) (allEndpoints slices) ∧
  existing' = existing ∪ list_to_set (filter (λ k, is_Some (podMap !! k)) (epKey <$> allEndpoints slices)) ∧
  sliceMeta <$> (upd ++ keep) ≡ₚ sliceMeta <$> slices ∧
  (∀ s, s ∈ keep → s ∈ slices) ∧
  (∀ max, Forall (fits max) slices → Forall (fits max) (upd ++ keep)).
Proof using.
  revert existing upd keep existing'. induction slices as [|s slices IH]; intros existing upd keep existing'; cbn [syncSlices].
  { intros [= <- <- <-]. split_and!; [done|set_solver|done|done|done]. }
  destruct (syncEndpoints podMap (Endpoints s) existing) as [[kept b] ex1] eqn:E1.
  destruct (syncSlices podMap slices ex1) as [[upd0 keep0] ex2] eqn:E2.
  apply syncEndpoints_spec in E1 as (Hkept & -> & Hsame). destruct (IH _ _ _ _ E2) as (He & -> & Hm & Hk & Hf).
  assert (∀ max, fits max s → fits max (withEndpoints s kept)) as Hfs.
  { intros max. unfold fits. rewrite Endpoints_with, Hkept. pose proof (length_omap_le (refresh podMap) (Endpoints s)). lia. }
  rewrite allEndpoints_cons, omap_app, fmap_app, filter_app, list_to_set_app_L, <- Hkept.
  destruct b; intros [= <- <- <-].
  - cbn [app]. rewrite allEndpoints_with, He. cbn [fmap list_fmap]. rewrite sliceMeta_with, Hm.
    split_and!; [done|set_solver|done|set_solver|]. intros max. rewrite !Forall_cons. naive_solver.
  - split_and!.
    + rewrite <- Permutation_middle, allEndpoints_with, He. done.
    + set_solver.
    + rewrite <- Permutation_middle. cbn [fmap list_fmap]. by rewrite sliceMeta_with, Hm.
    + intros s'. rewrite (Hsame eq_refl), with_Endpoints. set_solver.
    + intros max. rewrite !Forall_cons. rewrite <- Permutation_middle. rewrite Forall_cons. naive_solver.
Qed.

Lemma fillUpdated_spec max slices need filled need' :
  fillUpdated max slices need = (filled, need') →
  allEndpoints filled ++ need' ≡ₚ allEndpoints slices ++ need ∧ sliceMeta <$> filled = sliceMeta <$> slices ∧
  (Forall (fits max) slices → Forall (fits max) filled).
Proof using.
  revert need filled need'. induction slices as [|s slices IH]; intros need filled need'; cbn [fillUpdated].
  { intros [= <- <-]. done. }
  destruct (decide _) as [Hlt|_]; [set (count := Z.to_nat _); destruct (decide _) as [Hc|Hc]|].
  - destruct (fillUpdated max slices (drop count need)) as [filled0 need0] eqn:E. intros [= <- <-].
    destruct (IH _ _ _ E) as (Hp & Hm & Hf). split_and!.
    + rewrite allEndpoints_with, allEndpoints_cons, <- app_assoc, Hp. rewrite <- (take_drop count need) at 3. solve_Permutation.
    + cbn [fmap list_fmap]. by rewrite sliceMeta_with, Hm.
    + rewrite !Forall_cons. intros [_ Hs]. split; [|auto]. unfold fits. rewrite Endpoints_with, length_app, length_take. lia.
  - intros [= <- <-]. split_and!.
    + rewrite allEndpoints_with, allEndpoints_cons, app_nil_r. solve_Permutation.
    + cbn [fmap list_fmap]. by rewrite sliceMeta_with.
    + rewrite !Forall_cons. intros [_ Hs]. split; [|done]. unfold fits. rewrite Endpoints_with, length_app. lia.
  - destruct (fillUpdated max slices need) as [filled0 need0] eqn:E. intros [= <- <-].
    destruct (IH _ _ _ E) as (Hp & Hm & Hf). split_and!.
    + rewrite !allEndpoints_cons, <- app_assoc, Hp. solve_Permutation.
    + cbn [fmap list_fmap]. by rewrite Hm.
    + rewrite !Forall_cons. intros [? ?]. auto.
Qed.

Lemma fillNotChanged_spec max slices need filled rest need' :
  fillNotChanged max slices need = (filled, rest, need') →
  allEndpoints (filled ++ rest) ++ need' ≡ₚ allEndpoints slices ++ need ∧
  sliceMeta <$> (filled ++ rest) ≡ₚ sliceMeta <$> slices ∧ (∀ s, s ∈ rest → s ∈ slices) ∧
  (Forall (fits max) slices → Forall (fits max) (filled ++ rest)).
Proof using.
  revert need filled rest need'. induction slices as [|s slices IH]; intros need filled rest need'; cbn [fillNotChanged].
  { intros [= <- <- <-]. done. }
  destruct (decide _) as [Hlt|_]; [set (count := Z.to_nat _); destruct (decide _) as [Hc|Hc]|].
  - destruct (fillNotChanged max slices (drop count need)) as [[filled0 rest0] need0] eqn:E. intros [= <- <- <-].
    destruct (IH _ _ _ _ E) as (Hp & Hm & Hk & Hf). cbn [app]. split_and!.
    + rewrite allEndpoints_with, allEndpoints_cons, <- app_assoc, Hp. rewrite <- (take_drop count need) at 3. solve_Permutation.
    + cbn [fmap list_fmap]. by rewrite sliceMeta_with, Hm.
    + set_solver.
    + rewrite !Forall_cons. intros [_ Hs]. split; [|auto]. unfold fits. rewrite Endpoints_with, length_app, length_take. lia.
  - intros [= <- <- <-]. cbn [app]. split_and!.
    + rewrite allEndpoints_with, allEndpoints_cons, app_nil_r. solve_Permutation.
    + cbn [fmap list_fmap]. by rewrite sliceMeta_with.
    + set_solver.
    + rewrite !Forall_cons. intros [_ Hs]. split; [|done]. unfold fits. rewrite Endpoints_with, length_app. lia.
  - destruct (fillNotChanged max slices need) as [[filled0 rest0] need0] eqn:E. intros [= <- <- <-].
    destruct (IH _ _ _ _ E) as (Hp & Hm & Hk & Hf). split_and!.
    + rewrite <- Permutation_middle. rewrite !allEndpoints_cons, <- app_assoc, Hp. solve_Permutation.
    + rewrite <- Permutation_middle. cbn [fmap list_fmap]. by rewrite Hm.
    + set_solver.
    + rewrite <- Permutation_middle. rewrite !Forall_cons. intros [? ?]. auto.
Qed.

Lemma createSlices_spec fuel max newSlice need :
  (0 < max)%Z → Endpoints newSlice = [] → length need <= fuel →
  ∃ slices, createSlices fuel max newSlice need = Ret slices ∧ allEndpoints slices = need ∧
    Forall (λ s, fits max s ∧ Endpoints s ≠ [] ∧ sliceMeta s = sliceMeta newSlice) slices.
Proof using.
  intros Hmax Hnew. revert need. induction fuel as [|fuel IH]; intros need Hl; cbn [createSlices].
  { destruct need; [|simpl in Hl; lia]. exists []. split_and!; [done|done|apply Forall_nil_2]. }
  destruct need as [|ep need0] eqn:Hneed; [exists []; split_and!; [done|done|apply Forall_nil_2]|].
  rewrite <- Hneed in *. assert (need ≠ []) as Hne by by rewrite Hneed. clear Hneed. case_decide as Hm.
  - rewrite decide_False by lia. destruct (IH (drop (Z.to_nat max) need)) as (slices & -> & He & Hf).
    { rewrite length_drop. lia. }
    cbn [obind]. eexists. split; [done|]. rewrite allEndpoints_with, Hnew, He. cbn [app]. split; [apply take_drop|].
    apply Forall_cons. split; [|done]. unfold fits. rewrite Endpoints_with, sliceMeta_with, length_take. split_and!; [lia| |done].
    intros Hn. apply (f_equal length) in Hn. rewrite length_take in Hn. simpl in Hn. lia.
  - destruct (IH []) as (slices & -> & He & Hf); [simpl; lia|]. cbn [obind]. eexists. split; [done|].
    rewrite allEndpoints_with, Hnew, He. cbn [app]. split; [apply app_nil_r|].
    apply Forall_cons. split; [|done]. unfold fits. rewrite Endpoints_with, sliceMeta_with. split_and!; [lia|done|done].
Qed.

(** The whole plan in one equation. *)
Lemma planSlices_spec max pods slices newSlice podMap need :
  (0 < max)%Z → Endpoints newSlice = [] →
  podMap = foldl (λ m pod, <[podKey pod := pod]> m) ∅ pods →
  need = omap (λ pod, if decide (podKey pod ∈ epKey <$> allEndpoints slices) then None else newEndpoint pod) pods →
  (∀ pod, pod ∈ pods → is_Some (podMap !! podKey pod)) →
  ∃ plan, planSlices max pods slices newSlice = Ret plan ∧
    allEndpoints (plan_update plan ++ plan_keep plan ++ plan_create plan) ≡ₚ
      omap (refresh podMap) (allEndpoints slices) ++ need ∧
    sliceMeta <$> (plan_update plan ++ plan_keep plan) ≡ₚ sliceMeta <$> slices ∧
    (∀ s, s ∈ plan_keep plan → s ∈ slices) ∧
    (Forall (fits max) slices → Forall (fits max) (plan_update plan ++ plan_keep plan)) ∧
    Forall (λ s, fits max s ∧ Endpoints s ≠ [] ∧ sliceMeta s = sliceMeta newSlice) (plan_create plan).
Proof using.
  intros Hmax Hnew Hpm Hneed Hmap. unfold planSlices. rewrite <- Hpm.
  destruct (syncSlices podMap slices ∅) as [[upd keep] existing] eqn:E.
  apply syncSlices_spec in E as (He & Hex & Hm & Hk & Hf).
  assert (omap (λ pod, if decide (podKey pod ∈ existing) then None else newEndpoint pod) pods = need) as ->.
  { subst need existing. apply list_omap_ext_strong. intros pod Hpod.
    assert (podKey pod ∈ ∅ ∪ list_to_set (C := gset NamespacedName)
      (filter (λ k, is_Some (podMap !! k)) (epKey <$> allEndpoints slices)) ↔
      podKey pod ∈ epKey <$> allEndpoints slices) as Hiff.
    { rewrite elem_of_union, elem_of_list_to_set, list_elem_of_filter. specialize (Hmap pod Hpod). set_solver. }
    destruct (decide (podKey pod ∈ epKey <$> allEndpoints slices)) as [Hin|Hin].
    - rewrite decide_True by by apply Hiff. done.
    - rewrite decide_False by by rewrite Hiff. done. }
  clear Hneed Hex. case_decide as Hpos.
  - destruct (fillUpdated max upd need) as [upd1 need1] eqn:E1. apply fillUpdated_spec in E1 as (Hp1 & Hm1 & Hf1).
    destruct (fillNotChanged max keep need1) as [[filled rest] need2] eqn:E2.
    apply fillNotChanged_spec in E2 as (Hp2 & Hm2 & Hk2 & Hf2).
    destruct (createSlices_spec (length need2) max newSlice need2 Hmax Hnew ltac:(lia)) as (crt & -> & Hc & Hfc).
    cbn [obind]. eexists. split; [done|]. cbn [plan_update plan_keep plan_create]. split_and!.
    + rewrite !allEndpoints_app, Hc. rewrite allEndpoints_app in Hp2, He.
      transitivity (allEndpoints upd1 ++ ((allEndpoints filled ++ allEndpoints rest) ++ need2)); [solve_Permutation|].
      rewrite Hp2. transitivity (allEndpoints keep ++ (allEndpoints upd1 ++ need1)); [solve_Permutation|].
      rewrite Hp1. rewrite <- He. solve_Permutation.
    + rewrite <- app_assoc, fmap_app, Hm1, Hm2, <- fmap_app. done.
    + intros s Hs. apply Hk, Hk2, Hs.
    + intros Hs. specialize (Hf max Hs). rewrite Forall_app in Hf. destruct Hf. rewrite <- app_assoc. apply Forall_app. auto.
    + done.
  - assert (need = []) as -> by (destruct need; [done|simpl in Hpos; lia]). cbn [createSlices length obind].
    eexists. split; [done|]. cbn [plan_update plan_keep plan_create]. rewrite !app_nil_r.
    split_and!; [done|done|done|by apply Hf|apply Forall_nil_2].
Qed.
End plan_facts.

Lemma podMap_lookup (pods : list Pod) (m : gmap NamespacedName Pod) k pod :
  foldl (λ m pod, <[podKey pod := pod]> m) m pods !! k = Some pod →
  m !! k = Some pod ∨ (pod ∈ pods ∧ podKey pod = k).
Proof.
  revert m. induction pods as [|q pods IH]; intros m; simpl; [auto|]. intros Hk.
  apply IH in Hk as [Hk|[Hin Hk]]; [|right; split; [by right|done]].
  apply lookup_insert_Some in Hk as [[<- <-]|[_ ?]]; [right; split; [by left|done]|auto].
Qed.

Lemma podMap_is_Some (pods : list Pod) (m : gmap NamespacedName Pod) k :
  is_Some (foldl (λ m pod, <[podKey pod := pod]> m) m pods !! k) ↔ is_Some (m !! k) ∨ k ∈ podKey <$> pods.
Proof.
  revert m. induction pods as [|q pods IH]; intros m; simpl; [set_solver|]. rewrite IH, lookup_insert_is_Some, elem_of_cons.
  destruct (decide (podKey q = k)); naive_solver.
Qed.

Lemma refresh_key podMap ep ep' : refresh podMap ep = Some ep' → epKey ep' = epKey ep.
Proof.
  unfold refresh. intros (pod & _ & ->)%fmap_Some. unfold needUpdateEndpoint. by destruct (splitPodIPs pod).
Qed.

Lemma omap_keys_NoDup {A} (key : A → NamespacedName) (f : A → option EgressEndpoint) (l : list A) :
  (∀ x ep, f x = Some ep → epKey ep = key x) → NoDup (key <$> l) → NoDup (epKey <$> omap f l) ∧
  ∀ k, k ∈ epKey <$> omap f l → k ∈ key <$> l.
Proof.
  intros Hf. induction l as [|x l IH]; csimpl; [by split; [constructor|]|]. intros [Hx Hl]%NoDup_cons.
  destruct (IH Hl) as [Hnd Hin]. destruct (f x) as [ep|] eqn:E; csimpl; [|set_solver].
  rewrite (Hf _ _ E). split; [apply NoDup_cons; split; [|done]; by intros ?%Hin|set_solver].
Qed.

Lemma newEndpoint_key pod ep : newEndpoint pod = Some ep → epKey ep = podKey pod.
Proof. intros Hn. by apply newEndpoint_up_to_date in Hn as [? _]. Qed.

Lemma plan_publishes {S} `{!SliceOps S} max pods (slices : list S) newSlice :
  (0 < max)%Z → Endpoints newSlice = [] → NoDup (podKey <$> pods) → NoDup (epKey <$> allEndpoints slices) →
  Forall (fits max) slices →
  ∃ plan, planSlices max pods slices newSlice = Ret plan ∧
    let eps := allEndpoints (plan_update plan ++ plan_keep plan ++ plan_create plan) in
    NoDup (epKey <$> eps) ∧
    (∀ ep, ep ∈ eps → ∃ pod, pod ∈ pods ∧ up_to_date pod ep) ∧
    (∀ pod, pod ∈ pods → newEndpoint pod ≠ None → ∃ ep, ep ∈ eps ∧ epKey ep = podKey pod) ∧
    Forall (fits max) (plan_update plan ++ plan_keep plan ++ plan_create plan) ∧
    Forall (λ s, Endpoints s ≠ []) (plan_create plan) ∧
    sliceMeta <$> (plan_update plan ++ plan_keep plan) ≡ₚ sliceMeta <$> slices.
Proof.
  intros Hmax Hnew Hpods Heps Hfit. set (podMap := foldl (λ m pod, <[podKey pod := pod]> m) (∅ : gmap _ _) pods).
  set (f := λ pod, if decide (podKey pod ∈ epKey <$> allEndpoints slices) then None else newEndpoint pod).
  assert (∀ k pod, podMap !! k = Some pod → pod ∈ pods ∧ podKey pod = k) as Hlook.
  { intros k pod Hk. apply podMap_lookup in Hk as [Hk|?]; [by rewrite lookup_empty in Hk|done]. }
  assert (∀ pod, pod ∈ pods → is_Some (podMap !! podKey pod)) as Hin.
  { intros pod Hp. apply podMap_is_Some. right. by apply list_elem_of_fmap_2. }
  destruct (planSlices_spec max pods slices newSlice podMap (omap f pods)) as (plan & Hplan & Hp & Hm & _ & Hf & Hc); [done..|].
  exists plan. split; [done|]. cbv zeta. specialize (Hf Hfit).
  assert (∀ x ep, f x = Some ep → epKey ep = podKey x ∧ (podKey x ∉ epKey <$> allEndpoints slices)) as Hfk.
  { intros x ep. unfold f. case_decide; [done|]. intros He. split; [by apply newEndpoint_key|done]. }
  destruct (omap_keys_NoDup epKey (refresh podMap) (allEndpoints slices)) as [Hnd1 Hin1]; [apply refresh_key|done|].
  destruct (omap_keys_NoDup podKey f pods) as [Hnd2 Hin2]; [by intros x ep He; apply Hfk|done|].
  split_and!.
  - rewrite Hp, fmap_app. apply NoDup_app. split_and!; [done| |done]. intros k Hk1 Hk2. apply Hin1 in Hk1.
    apply list_elem_of_fmap in Hk2 as (ep & -> & Hep). apply list_elem_of_omap in Hep as (pod & _ & Hfe).
    apply Hfk in Hfe as [Heq Hni]. rewrite Heq in Hk1. done.
  - intros ep. rewrite Hp, elem_of_app, !list_elem_of_omap. intros [(e & He & Hr)|(pod & Hpod & Hfe)].
    + unfold refresh in Hr. apply fmap_Some in Hr as (pod & Hpod & ->). apply Hlook in Hpod as [? Hk].
      exists pod. split; [done|]. by apply needUpdateEndpoint_refreshes.
    + exists pod. split; [done|]. unfold f in Hfe. case_decide; [done|]. by apply newEndpoint_up_to_date.
  - intros pod Hpod Hne. setoid_rewrite Hp. setoid_rewrite elem_of_app.
    destruct (decide (podKey pod ∈ epKey <$> allEndpoints slices)) as [Hex|Hex].
    + apply list_elem_of_fmap in Hex as (ep & Hk & Hep). destruct (Hin pod Hpod) as [pod' Hl].
      exists (needUpdateEndpoint pod' ep).2.
      assert (refresh podMap ep = Some (needUpdateEndpoint pod' ep).2) as Hr by (unfold refresh; by rewrite <- Hk, Hl).
      split; [left; apply list_elem_of_omap; eauto|]. rewrite (refresh_key _ _ _ Hr). done.
    + destruct (newEndpoint pod) as [ep|] eqn:E; [|done]. exists ep. split; [|by apply newEndpoint_key].
      right. apply list_elem_of_omap. exists pod. split; [done|]. unfold f. by rewrite decide_False.
  - rewrite app_assoc. apply Forall_app. split; [done|]. eapply Forall_impl; [exact Hc|]. naive_solver.
  - eapply Forall_impl; [exact Hc|]. naive_solver.
  - done.
Qed.


Definition samplePods : list Pod :=
  [mkPod (mkMeta "a" "ns" ∅ [] false 1) "node1" ["10.1.0.1"; "fd00::1"];
   mkPod (mkMeta "b" "ns" ∅ [] false 1) "node2" ["10.1.0.2"];
   mkPod (mkMeta "c" "ns" ∅ [] false 1) "node2" ["10.1.0.3"];
   mkPod (mkMeta "d" "ns" ∅ [] false 1) "node1" []].
Definition sampleSlices : list EgressEndpointSlice :=
  [mkSlice (mkMeta "p-1" "ns" ∅ [] false 1)
     [mkEndpoint "ns" "a" ["10.1.0.9"] [] "node1"; mkEndpoint "ns" "gone" ["10.1.0.8"] [] "node1"]].


(** With a bound of zero the loop that creates slices never ends. *)
Lemma createSlices_zero_diverges {S} `{!SliceOps S} fuel (newSlice : S) ep need :
  createSlices fuel 0 newSlice (ep :: need) = Timeout.
Proof.
  induction fuel as [|fuel IH]; cbn [createSlices]; [done|]. rewrite decide_True by (simpl; lia).
  rewrite decide_False by lia. change (drop (Z.to_nat 0) (ep :: need)) with (ep :: need). by rewrite IH.
Qed.
