(* ===== verification/Webhook.v ===== *)
(** * Admission webhooks ([pkg/controller/webhook], [pkg/egressgateway/egress_gateway_webhook.go])

    Requests to create, change or delete gateways and policies are validated
    and completed before they reach the API server.  A request carries its
    objects decoded: [None] is an object whose JSON cannot be read.  The reads
    the webhooks make are the calls of [HookApi], about whose answers nothing
    is assumed. *)

From S2P Require Import Prelude GoStd GoNet IPUtil Types ApiServer GatewayCore GatewayReconcile.
Open Scope nat_scope.

(** ** Requests and responses *)

Inductive operation := Create | Update | Delete | Connect.
#[export] Instance operation_eq_dec : EqDecision operation.
Proof. solve_decision. Defined.

Record AdmissionRequest (T : Type) := mkRequest {
  rq_Operation : operation;
  rq_Name : string;
  rq_Namespace : string;
  rq_Object : option T;
  rq_OldObject : option T
}.
Arguments mkRequest {T} _ _ _ _ _.
Arguments rq_Operation {T} _.
Arguments rq_Name {T} _.
Arguments rq_Namespace {T} _.
Arguments rq_Object {T} _.
Arguments rq_OldObject {T} _.

(** The values that patches of these webhooks carry. *)
Inductive patchValue :=
| PString (s : string)
| PStrings (l : list string)
| PEgressIP (e : EgressIP).
Record patchOperation := mkPatch { pt_Op : string; pt_Path : string; pt_Value : patchValue }.

(** Texts of responses leave out the values that format strings insert. *)
Inductive response :=
| Allowed (reason : string)
| Denied (reason : string)
| Patched (patches : list patchOperation).

(** What the webhooks read of the configuration file. *)
Record FileConfig := mkFileConfig { cfg_EnableIPv4 : bool; cfg_EnableIPv6 : bool }.

Class HookApi (W : Type) := {
  hkGetGateway : string → M W EgressGateway;
  hkListGateways : M W (list EgressGateway);
  (** The labels of a namespace. *)
  hkGetNamespace : string → M W labelSet
}.

(** A selector that selects nothing by itself. *)
Definition selectorUnset (s : option LabelSelector) : bool :=
  match s with
  | None => true
  | Some s => bool_decide (size (ls_MatchLabels s) = 0) && bool_decide (length (ls_MatchExpressions s) = 0)
  end.

(** ** Checks on addresses *)

(** [isIPv4] and [isIPv6] of [validate.go]. *)
Definition hookIsIPv4 (ip : string) : bool :=
  let netIP := ParseIP ip in
  if bool_decide (netIP ≠ []) && bool_decide (To4 netIP ≠ []) then true else false.
Definition hookIsIPv6 (ip : string) : bool :=
  let netIP := ParseIP ip in
  if bool_decide (netIP ≠ []) && bool_decide (To4 netIP = []) && bool_decide (To16 netIP ≠ []) then true else false.

Definition validateSubnet (subnet : list string) : response :=
  let invalidList := filter (λ s,
    match ParseCIDR s with
    | None => true
    | Some (ip, _) => bool_decide (To4 ip = []) && bool_decide (To16 ip = [])
    end = true) subnet in
  if decide (0 < length invalidList) then Denied "invalid destSubnet list" else Allowed "checked".

Section hooks.
Context {W : Type} `{HA : !HookApi W} `{MO : MapOrder} `{RD : Rand}.

(** An IP computation whose error denies the request. *)
Definition orDeny {A} (c : outcome A) (reason : string) (k : A → M W response) : M W response :=
  match c with
  | Ret a => k a
  | Err _ => mret (Denied reason)
  | Panic s => lift (Panic s)
  | Timeout => lift Timeout
  end.

(** ** Gateways *)

(** The printed addresses of the pools of every gateway but one, by name. *)
Definition buildClusterIPMap (egwList : list EgressGateway) (skipName : string)
    : outcome (gmap string (gset string)) :=
  oforeach (λ item res,
    if decide (om_Name (g_Meta item) = skipName) then Ret res
    else
      let pools := spec_Ippools (g_Spec item) in
      let! ipv4Ranges := MergeIPRanges IPv4 (pool_IPv4 pools) in
      let! ipv6Ranges := MergeIPRanges IPv6 (pool_IPv6 pools) in
      let! ipv4s := ParseIPRanges IPv4 ipv4Ranges in
      let! ipv6s := ParseIPRanges IPv6 ipv6Ranges in
      let m : gset string := list_to_set (IPString <$> ipv4s) ∪ list_to_set (IPString <$> ipv6s) in
      Ret (<[om_Name (g_Meta item) := m]> res)) egwList ∅.

(** Whether an address is in the pool of some other gateway; the order in
    which the map is ranged over only decides which gateway is named. *)
Definition inSomePool (clusterIPMap : gmap string (gset string)) (v : IP) : bool :=
  existsb (λ gw, bool_decide (IPString v ∈ gw)) (map_to_list clusterIPMap).*2.
Definition checkDupIP (ipv4s ipv6s : list IP) (clusterIPMap : gmap string (gset string)) : outcome unit :=
  if existsb (inSomePool clusterIPMap) ipv4s then Err (ErrNew "find duplicate IPv4")
  else if existsb (inSomePool clusterIPMap) ipv6s then Err (ErrNew "find duplicate IPv6")
  else Ret tt.

(** Every EIP that is handed out stays in the pools. *)
Fixpoint checkAllocated (eips : list Eips) (ipv4Ranges ipv6Ranges : list string) : M W response :=
  match eips with
  | [] => mret (Allowed "checked")
  | eip :: eips' =>
      if isBlank eip then checkAllocated eips' ipv4Ranges ipv6Ranges
      else
        let check6 :=
          if decide (e_IPv6 eip ≠ "") then
            orDeny (IsIPIncludedRange IPv6 (e_IPv6 eip) ipv6Ranges) "Failed to check IPv6" (λ result,
              if result : bool then checkAllocated eips' ipv4Ranges ipv6Ranges
              else mret (Denied "has been allocated and cannot be deleted"))
          else checkAllocated eips' ipv4Ranges ipv6Ranges in
        if decide (e_IPv4 eip ≠ "") then
          orDeny (IsIPIncludedRange IPv4 (e_IPv4 eip) ipv4Ranges) "Failed to check IPv4" (λ result,
            if result : bool then check6 else mret (Denied "has been allocated and cannot be deleted"))
        else check6
  end.

(** "only for update". *)
Definition validateGatewayUpdate (name : string) (newEg : EgressGateway) (ipv4Ranges ipv6Ranges : list string)
    : M W response :=
  let* r := attempt (hkGetGateway name) in
  match r with
  | inr err =>
      if negb (IsNotFound err) then mret (Denied "failed to obtain the EgressGateway")
      else
        if decide (0 < length (pool_IPv4 (spec_Ippools (g_Spec newEg)))) then
          mret (Denied "the 'spec.Ippools.IPv4' field cannot to be modified when it is empty")
        else if decide (0 < length (pool_IPv6 (spec_Ippools (g_Spec newEg)))) then
          mret (Denied "the 'spec.Ippools.IPv6' field cannot to be modified when it is empty")
        else mret (Allowed "checked")
  | inl old =>
      let oldPools := spec_Ippools (g_Spec old) in
      let newPools := spec_Ippools (g_Spec newEg) in
      if bool_decide (length (pool_IPv4 oldPools) = 0) && bool_decide (0 < length (pool_IPv4 newPools)) then
        mret (Denied "the 'spec.Ippools.IPv4' field cannot to be modified when it is empty")
      else if bool_decide (length (pool_IPv6 oldPools) = 0) && bool_decide (0 < length (pool_IPv6 newPools)) then
        mret (Denied "the 'spec.Ippools.IPv6' field cannot to be modified when it is empty")
      else checkAllocated (NodeList old ≫= n_Eips) ipv4Ranges ipv6Ranges
  end.

(** The default EIP of one family. *)
Definition checkDefaultEIP (version : Z) (eip : string) (ranges : list string) (k : M W response) : M W response :=
  if decide (eip ≠ "") then
    orDeny (IsIPIncludedRange version eip ranges) "Failed to check defaultEIP" (λ result,
      if result : bool then k else mret (Denied "is not covered by IPPools"))
  else k.

(** Another gateway that is already the cluster's default. *)
Definition checkClusterDefault (newEg : EgressGateway) (k : M W response) : M W response :=
  if spec_ClusterDefault (g_Spec newEg) then
    let* r := attempt hkListGateways in
    match r with
    | inr _ => mret (Denied "Check for duplicate EgressGateway, get EgressGatewayList")
    | inl items =>
        if existsb (λ item, spec_ClusterDefault (g_Spec item) && bool_decide (om_Name (g_Meta item) ≠ om_Name (g_Meta newEg))) items
        then mret (Denied "A cluster can only have one default gateway")
        else k
    end
  else k.

Definition EgressGatewayValidate (cfg : FileConfig) (req : AdmissionRequest EgressGateway) : M W response :=
  if decide (rq_Operation req = Delete) then mret (Allowed "checked")
  else
    match rq_Object req with
    | None => mret (Denied "json unmarshal EgressGateway with error")
    | Some newEg =>
        let pools := spec_Ippools (g_Spec newEg) in
        if selectorUnset (ns_Selector (spec_NodeSelector (g_Spec newEg)))
        then mret (Denied "The field spec.nodeSelector.selector is not set")
        else if cfg_EnableIPv4 cfg && negb (cfg_EnableIPv6 cfg) && bool_decide (length (pool_IPv6 pools) ≠ 0)
        then mret (Denied "Please do not configure spec.ippools.ipv6")
        else if negb (cfg_EnableIPv4 cfg) && cfg_EnableIPv6 cfg && bool_decide (length (pool_IPv4 pools) ≠ 0)
        then mret (Denied "Please do not configure spec.ippools.ipv4")
        else checkClusterDefault newEg (
          orDeny (MergeIPRanges IPv4 (pool_IPv4 pools)) "Failed to check IP" (λ ipv4Ranges,
          orDeny (MergeIPRanges IPv6 (pool_IPv6 pools)) "Failed to check IP" (λ ipv6Ranges,
          orDeny (if cfg_EnableIPv4 cfg then ParseIPRanges IPv4 ipv4Ranges else Ret []) "Failed to check IP" (λ ipv4s,
          orDeny (if cfg_EnableIPv6 cfg then ParseIPRanges IPv6 ipv6Ranges else Ret []) "Failed to check IP" (λ ipv6s,
          if cfg_EnableIPv4 cfg && cfg_EnableIPv6 cfg && bool_decide (0 < length (pool_IPv4 pools)) &&
             bool_decide (0 < length (pool_IPv6 pools)) && bool_decide (length ipv4s ≠ length ipv6s)
          then mret (Denied "The number of ipv4 and ipv6 is not equal")
          else
            checkDefaultEIP IPv4 (pool_Ipv4DefaultEIP pools) ipv4Ranges (
            checkDefaultEIP IPv6 (pool_Ipv6DefaultEIP pools) ipv6Ranges (
            let* r := attempt hkListGateways in
            match r with
            | inr _ => mret (Denied "Failed to get EgressGatewayList")
            | inl egwList =>
                orDeny (buildClusterIPMap egwList (om_Name (g_Meta newEg)))
                  "Failed to build cluster EgressGateway IP map" (λ clusterMap,
                orDeny (checkDupIP ipv4s ipv6s clusterMap) "find duplicate IP" (λ _,
                if decide (rq_Operation req = Update)
                then validateGatewayUpdate (rq_Name req) newEg ipv4Ranges ipv6Ranges
                else mret (Allowed "checked")))
            end)))))))
    end.

(** A default EIP drawn from a pool that has none. *)
Definition defaultEIPPatch (enabled : bool) (version : Z) (eip : string) (pool : list string) (path : string) (draws : nat)
    (patches : list patchOperation) (k : list patchOperation → nat → M W response) : M W response :=
  if enabled && bool_decide (eip = "") && bool_decide (length pool ≠ 0) then
    orDeny (MergeIPRanges version pool) "ippools format error" (λ ranges,
      match ParseIPRanges version ranges with
      | Ret ips =>
          if decide (length ips ≠ 0) then
            match ips !! Intn draws (length ips) with
            | Some ip => k (patches ++ [mkPatch "add" path (PString (IPString ip))]) (S draws)
            | None => lift (Panic "index out of range")
            end
          else k patches draws
      | Err _ => k patches draws
      | Panic s => lift (Panic s)
      | Timeout => lift Timeout
      end)
  else k patches draws.

Definition getEgressGatewayFinalizerPatch (req : AdmissionRequest EgressGateway) (finalizer : list string)
    : option patchOperation :=
  if decide (rq_Operation req = Create) then Some (mkPatch "add" "/metadata/finalizers" (PStrings finalizer)) else None.

Definition EgressGatewayMutate (cfg : FileConfig) (req : AdmissionRequest EgressGateway) : M W response :=
  match rq_Object req with
  | None => mret (Denied "json unmarshal EgressGateway with error")
  | Some eg =>
      let pools := spec_Ippools (g_Spec eg) in
      defaultEIPPatch (cfg_EnableIPv4 cfg) IPv4 (pool_Ipv4DefaultEIP pools) (pool_IPv4 pools)
        "/spec/ippools/ipv4DefaultEIP" 0 [] (λ patches draws,
      defaultEIPPatch (cfg_EnableIPv6 cfg) IPv6 (pool_Ipv6DefaultEIP pools) (pool_IPv6 pools)
        "/spec/ippools/ipv6DefaultEIP" draws patches (λ patches _,
      let patches := match getEgressGatewayFinalizerPatch req [egressGatewayFinalizers] with
                     | Some p => patches ++ [p]
                     | None => patches
                     end in
      if decide (0 < length patches) then mret (Patched patches) else mret (Allowed "checked")))
  end.

(** ** Policies *)

(** The address checks that both kinds of policy begin with: the reason of a
    denial, if any. *)
Definition checkEgressIP (eip : EgressIP) : option string :=
  if eip_UseNodeIP eip && (bool_decide (eip_IPv4 eip ≠ "") || bool_decide (eip_IPv6 eip ≠ ""))
  then Some "useNodeIP cannot be used with egressIP.ipv4 or egressIP.ipv6 at the same time"
  else if bool_decide (eip_IPv4 eip ≠ "") && negb (hookIsIPv4 (eip_IPv4 eip)) then Some "invalid ipv4 format"
  else if bool_decide (eip_IPv6 eip ≠ "") && negb (hookIsIPv6 (eip_IPv6 eip)) then Some "invalid ipv6 format"
  else None.

(** The pods of a policy: a selector or subnets, not both and not neither. *)
Definition checkAppliedTo (podSelector : option LabelSelector) (podSubnet : list string) : option string :=
  let hasLabels := match podSelector with
                   | Some s => bool_decide (size (ls_MatchLabels s) ≠ 0)
                   | None => false
                   end in
  if hasLabels && bool_decide (length podSubnet ≠ 0) then Some "podSelector and podSubnet cannot be used together"
  else if bool_decide (length podSubnet = 0) && selectorUnset podSelector
  then Some "spec.appliedTo field requires at least one of its fields"
  else None.

(** What an update may not change. *)
Definition checkImmutable (name oldName : string) (eip oldEip : EgressIP) : option string :=
  if decide (name ≠ oldName) then Some "'spec.EgressGatewayName' field is immutable"
  else if decide (eip_UseNodeIP eip ≠ eip_UseNodeIP oldEip) then Some "the UseNodeIP field cannot be modified"
  else if decide (eip_IPv4 eip ≠ eip_IPv4 oldEip) then Some "the EgressIP.IPv4 field cannot be modified"
  else if decide (eip_IPv6 eip ≠ eip_IPv6 oldEip) then Some "the EgressIP.IPv6 field cannot be modified"
  else if decide (eip_AllocatorPolicy eip ≠ eip_AllocatorPolicy oldEip)
  then Some "the EgressIP.AllocatorPolicy field cannot be modified"
  else None.

Definition denyIf (reason : option string) (k : M W response) : M W response :=
  match reason with
  | Some s => mret (Denied s)
  | None => k
  end.

Definition checkEGWIppools (name : string) : M W unit :=
  let* r := attempt (hkGetGateway name) in
  match r with
  | inr _ => merr (ErrNew "failed to obtain the EgressGateway")
  | inl egw =>
      let pools := spec_Ippools (g_Spec egw) in
      if bool_decide (length (pool_IPv4 pools) = 0) && bool_decide (length (pool_IPv6 pools) = 0)
      then merr (ErrNew "spec.Ippools cannot be empty")
      else mret tt
  end.

(** [(false, err)] is the error [err]; the result is never [(false, nil)]. *)
Definition checkEIP (eipIPV4 eipIPV6 egwName : string) : M W unit :=
  if decide (eipIPV4 = "" ∧ eipIPV6 = "") then mret tt
  else
    let* egw := hkGetGateway egwName in
    let pools := spec_Ippools (g_Spec egw) in
    let default4 := pool_Ipv4DefaultEIP pools in
    let default6 := pool_Ipv6DefaultEIP pools in
    if decide ((default4 ≠ "" ∧ default6 ≠ "") ∧ (eipIPV4 = default4 ∨ eipIPV6 = default6) ∧
               (eipIPV4 ≠ default4 ∨ eipIPV6 ≠ default6))
    then merr (ErrNew "they can only be used together")
    else
      let eips4 := GetEipByIPV4 eipIPV4 egw in
      if decide (0 < length (pool_IPv4 pools) ∧ e_IPv6 eips4 ≠ "" ∧ eipIPV6 ≠ e_IPv6 eips4)
      then merr (ErrNew "cannot be used")
      else
        let eips6 := GetEipByIPV6 eipIPV6 egw in
        if decide (0 < length (pool_IPv6 pools) ∧ e_IPv4 eips6 ≠ "" ∧ eipIPV4 ≠ e_IPv4 eips6)
        then merr (ErrNew "cannot be used")
        else mret tt.

(** A gateway that does not exist is read as the zero value. *)
Definition checkEIPIncluded (ipv4 ipv6 egwName : string) : M W bool :=
  if decide (ipv4 = "" ∧ ipv6 = "") then mret true
  else
    let* found := getOrAbsent (hkGetGateway egwName) in
    let pools := spec_Ippools (g_Spec (default zeroGateway found)) in
    if decide (length (pool_IPv4 pools) ≠ 0 ∨ length (pool_IPv6 pools) ≠ 0) then
      let ips := pool_IPv4 pools ++ pool_IPv6 pools in
      let* ok4 := lift (if decide (ipv4 ≠ "") then CheckIPIncluded ipv4 ips else Ret true) in
      if negb ok4 then mret false
      else lift (if decide (ipv6 ≠ "") then CheckIPIncluded ipv6 ips else Ret true)
    else mret true.

(** What only the creation of a policy checks. *)
Definition checkCreate (cfg : FileConfig) (eip : EgressIP) (egwName : string) (k : M W response) : M W response :=
  let included :=
    let* r := attempt (checkEIPIncluded (eip_IPv4 eip) (eip_IPv6 eip) egwName) in
    match r with
    | inr _ => mret (Denied "failed to get the EgressGateway")
    | inl ok => if ok : bool then k
                else mret (Denied "the Spec.EgressIP.IPv4 or Spec.EgressIP.IPv6 is not within the ip ranges")
    end in
  if cfg_EnableIPv4 cfg || cfg_EnableIPv6 cfg then
    let* r := attempt (checkEIP (eip_IPv4 eip) (eip_IPv6 eip) egwName) in
    match r with
    | inr _ => mret (Denied "cannot be used")
    | inl _ =>
        if negb (eip_UseNodeIP eip) then
          let* r := attempt (checkEGWIppools egwName) in
          match r with
          | inr _ => mret (Denied "when UseNodeIP is false")
          | inl _ => included
          end
        else included
    end
  else included.

Definition validateEgressPolicy (cfg : FileConfig) (req : AdmissionRequest EgressPolicy) : M W response :=
  if decide (rq_Operation req = Delete) then mret (Allowed "checked")
  else
    match rq_Object req with
    | None => mret (Denied "json unmarshal EgressPolicy with error")
    | Some egp =>
        let spec := ep_Spec egp in
        let rest := mret (validateSubnet (pol_DestSubnet spec)) in
        if decide (pol_EgressGatewayName spec = "") then mret (Denied "egressGatewayName cannot be empty")
        else
          denyIf (checkEgressIP (pol_EgressIP spec)) (
          denyIf (checkAppliedTo (at_PodSelector (pol_AppliedTo spec)) (at_PodSubnet (pol_AppliedTo spec))) (
          match rq_Operation req with
          | Update =>
              match rq_OldObject req with
              | None => mret (Denied "json unmarshal EgressPolicy with error")
              | Some old =>
                  denyIf (checkImmutable (pol_EgressGatewayName spec) (pol_EgressGatewayName (ep_Spec old))
                            (pol_EgressIP spec) (pol_EgressIP (ep_Spec old))) rest
              end
          | Create => checkCreate cfg (pol_EgressIP spec) (pol_EgressGatewayName spec) rest
          | _ => rest
          end))
    end.

(** [PodSubnet] is a pointer: [nil] and the empty slice are treated alike. *)
Definition validateEgressClusterPolicy (cfg : FileConfig) (req : AdmissionRequest EgressClusterPolicy) : M W response :=
  if decide (rq_Operation req = Delete) then mret (Allowed "checked")
  else
    match rq_Object req with
    | None => mret (Denied "json unmarshal EgressClusterPolicy with error")
    | Some policy =>
        let spec := cp_Spec policy in
        let rest := mret (validateSubnet (cpol_DestSubnet spec)) in
        if decide (cpol_EgressGatewayName spec = "") then mret (Denied "egressGatewayName cannot be empty")
        else
          denyIf (checkEgressIP (cpol_EgressIP spec)) (
          denyIf (checkAppliedTo (cat_PodSelector (cpol_AppliedTo spec)) (default [] (cat_PodSubnet (cpol_AppliedTo spec)))) (
          match rq_Operation req with
          | Update =>
              match rq_OldObject req with
              | None => mret (Denied "json unmarshal EgressClusterPolicy with error")
              | Some old =>
                  denyIf (checkImmutable (cpol_EgressGatewayName spec) (cpol_EgressGatewayName (cp_Spec old))
                            (cpol_EgressIP spec) (cpol_EgressIP (cp_Spec old))) rest
              end
          | Create => checkCreate cfg (cpol_EgressIP spec) (cpol_EgressGatewayName spec) rest
          | _ => rest
          end))
    end.

(** The name of the last listed gateway that is the cluster's default. *)
Definition getGlobalDefaultEgwPatch : M W (option patchOperation) :=
  let* r := attempt hkListGateways in
  match r with
  | inr err => if IsNotFound err then mret None else merr (ErrNew "failed to check global default EgressGateway")
  | inl items =>
      let name := foldl (λ name item, if spec_ClusterDefault (g_Spec item) then om_Name (g_Meta item) else name)
                    ""%string items in
      mret (if decide (name = "") then None
            else Some (mkPatch "add" "/spec/egressGatewayName" (PString name)))
  end.

(** The [EgressIP] that an empty one is replaced by, and the response. *)
Definition finishPolicyPatch (eip : EgressIP) (patchList : list patchOperation) : response :=
  let patchList :=
    if IsEmpty eip then patchList ++ [mkPatch "add" "/spec/egressIP" (PEgressIP (mkEgressIP "" "" false "default"))]
    else patchList in
  if decide (0 < length patchList) then Patched patchList else Allowed "skipped".

Definition globalDefaultPatches (k : list patchOperation → M W response) : M W response :=
  let* r := attempt getGlobalDefaultEgwPatch in
  match r with
  | inr _ => mret (Denied "failed to check global default EgressGateway")
  | inl None => k []
  | inl (Some p) => k [p]
  end.

Definition mutateHookEgressPolicy (req : AdmissionRequest EgressPolicy) : M W response :=
  match rq_Object req with
  | None => mret (Denied "json unmarshal EgressPolicy with error")
  | Some policy =>
      let finish patchList := mret (finishPolicyPatch (pol_EgressIP (ep_Spec policy)) patchList) in
      if decide (pol_EgressGatewayName (ep_Spec policy) = "") then
        let* r := attempt (hkGetNamespace (om_Namespace (ep_Meta policy))) in
        match r with
        | inr _ => mret (Denied "failed to get EgressPolicy namespaces")
        | inl labels =>
            match labels !! LabelNamespaceEgressGatewayDefault with
            | None => globalDefaultPatches finish
            | Some egw =>
                if decide (egw = "") then globalDefaultPatches finish
                else finish [mkPatch "add" "/spec/egressGatewayName" (PString egw)]
            end
        end
      else finish []
  end.

Definition mutateHookEgressClusterPolicy (req : AdmissionRequest EgressClusterPolicy) : M W response :=
  match rq_Object req with
  | None => mret (Denied "json unmarshal EgressPolicy with error")
  | Some policy =>
      let finish patchList := mret (finishPolicyPatch (cpol_EgressIP (cp_Spec policy)) patchList) in
      if decide (cpol_EgressGatewayName (cp_Spec policy) = "") then globalDefaultPatches finish else finish []
  end.

(** ** The two entry points *)

(** A request, by the kind of its object. *)
Inductive kindRequest :=
| KClusterInfo (op : operation)
| KGateway (req : AdmissionRequest EgressGateway)
| KClusterPolicy (req : AdmissionRequest EgressClusterPolicy)
| KPolicy (req : AdmissionRequest EgressPolicy)
| KOther.

Definition ValidateHook (cfg : FileConfig) (req : kindRequest) : M W response :=
  match req with
  | KClusterInfo op =>
      if decide (op = Delete) then mret (Denied "EgressClusterInfo 'default' is not allowed to be deleted")
      else mret (Allowed "checked")
  | KGateway req => EgressGatewayValidate cfg req
  | KClusterPolicy req => validateEgressClusterPolicy cfg req
  | KPolicy req => validateEgressPolicy cfg req
  | KOther => mret (Allowed "checked")
  end.

Definition MutateHook (cfg : FileConfig) (req : kindRequest) : M W response :=
  match req with
  | KGateway req => EgressGatewayMutate cfg req
  | KPolicy req => mutateHookEgressPolicy req
  | KClusterPolicy req => mutateHookEgressClusterPolicy req
  | _ => mret (Allowed "checked")
  end.
End hooks.
