(* ===== verification/WebhookTheorems.v ===== *)
(** * What admission guarantees

    The invariant that the validating webhook of gateways maintains on the
    gateways the cluster stores, and what an accepted policy satisfies.  The
    theorems are proved against [HookLaws], which says that the webhooks read
    what is stored; [hook_store] is an instance. *)

From S2P Require Import Prelude GoStd GoNet IPUtil Types ApiServer GatewayCore GatewayReconcile Webhook.
Open Scope nat_scope.

(** ** The interface *)

(** Reads change nothing, return what is stored, and report [NotFound] only
    for what is not stored; they may fail with other errors at any time. *)
Class HookLaws (W : Type) `{HookApi W} := {
  hkGateways : W → gmap string EgressGateway;
  hkGet_reads n w : hkGateways (hkGetGateway n w).1 = hkGateways w;
  hkGet_stored n w g : (hkGetGateway n w).2 = Ret g → hkGateways w !! n = Some g;
  hkGet_absent n w : (hkGetGateway n w).2 = Err (ErrApi NotFound) → hkGateways w !! n = None;
  hkList_reads w : hkGateways (hkListGateways w).1 = hkGateways w;
  hkList_stored w l : (hkListGateways w).2 = Ret l → l ≡ₚ (map_to_list (hkGateways w)).*2
}.

(** ** The pools of a gateway *)

Abbreviation gw_name g := (om_Name (g_Meta g)).
Definition poolOf (version : Z) (g : EgressGateway) : list string :=
  if decide (version = IPv4) then pool_IPv4 (spec_Ippools (g_Spec g)) else pool_IPv6 (spec_Ippools (g_Spec g)).
Definition defaultOf (version : Z) (g : EgressGateway) : string :=
  if decide (version = IPv4) then pool_Ipv4DefaultEIP (spec_Ippools (g_Spec g))
  else pool_Ipv6DefaultEIP (spec_Ippools (g_Spec g)).
Definition isFamily (version : Z) : Prop := version = IPv4 ∨ version = IPv6.

Section pools.
Context `{MO : MapOrder}.

(** The addresses of a pool. *)
Definition poolIPs (version : Z) (g : EgressGateway) : outcome (list IP) :=
  let! ranges := MergeIPRanges version (poolOf version g) in ParseIPRanges version ranges.
Definition inPool (version : Z) (s : string) (g : EgressGateway) : outcome bool :=
  let! ranges := MergeIPRanges version (poolOf version g) in IsIPIncludedRange version s ranges.

(** The pools of two gateways have no printed address in common. *)
Definition apart (g1 g2 : EgressGateway) : Prop :=
  ∀ v1 v2 ips1 ips2, isFamily v1 → isFamily v2 →
    poolIPs v1 g1 = Ret ips1 → poolIPs v2 g2 = Ret ips2 →
    ∀ s, s ∈ IPString <$> ips1 → s ∉ IPString <$> ips2.

(** The default EIPs are in the pools. *)
Definition defaults_ok (g : EgressGateway) : Prop :=
  ∀ v, isFamily v → defaultOf v g ≠ ""%string → inPool v (defaultOf v g) g = Ret true.

(** Every EIP of a status is in the pools of a gateway. *)
Definition covers (g : EgressGateway) (nodes : list EgressIPStatus) : Prop :=
  ∀ n e, n ∈ nodes → e ∈ n_Eips n →
    (e_IPv4 e ≠ ""%string → inPool IPv4 (e_IPv4 e) g = Ret true) ∧
    (e_IPv6 e ≠ ""%string → inPool IPv6 (e_IPv6 e) g = Ret true).

(** The invariant of the stored gateways. *)
Record gateways_ok (m : gmap string EgressGateway) : Prop := {
  ok_named : ∀ k g, m !! k = Some g → gw_name g = k;
  ok_pools : ∀ k g v, m !! k = Some g → isFamily v → ∃ ips, poolIPs v g = Ret ips;
  ok_defaults : ∀ k g, m !! k = Some g → defaults_ok g;
  ok_apart : ∀ k1 k2 g1 g2, m !! k1 = Some g1 → m !! k2 = Some g2 → k1 ≠ k2 → apart g1 g2;
  ok_default : ∀ k1 k2 g1 g2, m !! k1 = Some g1 → m !! k2 = Some g2 →
    spec_ClusterDefault (g_Spec g1) = true → spec_ClusterDefault (g_Spec g2) = true → k1 = k2
}.

Lemma poolIPs_nil v g : isFamily v → poolOf v g = [] → poolIPs v g = Ret [].
Proof using.
  intros Hv Hp. unfold poolIPs. rewrite Hp.
  assert (Ho : map_order [] = []) by (apply Permutation_nil_r, map_order_perm).
  assert (Hm : MergeIPRanges v [] = Ret []).
  { unfold MergeIPRanges, ConvertCidrOrIPrangeToIPs, CidrsToIPs, ParseIPRanges. simpl.
    unfold rangeValues. rewrite !map_to_list_empty. simpl. rewrite !Ho. simpl.
    rewrite map_to_list_empty. simpl. rewrite Ho. simpl.
    unfold ConvertIPsToIPRanges. destruct Hv as [-> | ->]; simpl; rewrite map_to_list_empty; simpl; rewrite Ho; done. }
  by rewrite Hm.
Qed.
End pools.

(** ** Runs that accept *)

Section accept.
Context {W : Type} `{HA : !HookApi W} `{MO : MapOrder}.
Implicit Types (w : W).

Lemma bind_attempt_inv {A B} (c : M W A) (k : A + error → M W B) w w' b :
  (let* r := attempt c in k r) w = (w', Ret b) →
  ∃ w1 r, k r w1 = (w', Ret b) ∧ w1 = (c w).1 ∧
    match r with inl a => (c w).2 = Ret a | inr e => (c w).2 = Err e end.
Proof.
  unfold mbind_, attempt. destruct (c w) as [w1 [a|e|s|]]; simpl; intros Hk; try done.
  - by exists w1, (inl a).
  - by exists w1, (inr e).
Qed.

Lemma orDeny_accepts {A} (c : outcome A) reason (k : A → M W response) w w' r :
  orDeny c reason k w = (w', Ret (Allowed r)) → ∃ a, c = Ret a ∧ k a w = (w', Ret (Allowed r)).
Proof. unfold orDeny. destruct c; simpl; intros Hk; try done. eauto. Qed.

Lemma denyIf_accepts reason (k : M W response) w w' r :
  denyIf reason k w = (w', Ret (Allowed r)) → reason = None ∧ k w = (w', Ret (Allowed r)).
Proof. unfold denyIf. by destruct reason. Qed.

Lemma checkDefaultEIP_accepts v s ranges (k : M W response) w w' r :
  checkDefaultEIP v s ranges k w = (w', Ret (Allowed r)) →
  (s ≠ ""%string → IsIPIncludedRange v s ranges = Ret true) ∧ k w = (w', Ret (Allowed r)).
Proof.
  unfold checkDefaultEIP. case_decide as Hs; [|by intros ?; split].
  intros Hk. apply orDeny_accepts in Hk as ([] & Hi & Hk); [|done]. done.
Qed.

Lemma checkAllocated_accepts eips r4 r6 w w' r :
  checkAllocated eips r4 r6 w = (w', Ret (Allowed r)) →
  Forall (λ e, (e_IPv4 e ≠ ""%string → IsIPIncludedRange IPv4 (e_IPv4 e) r4 = Ret true) ∧
               (e_IPv6 e ≠ ""%string → IsIPIncludedRange IPv6 (e_IPv6 e) r6 = Ret true)) eips.
Proof.
  induction eips as [|e eips IH]; cbn [checkAllocated]; intros Hk; [apply Forall_nil_2|].
  apply Forall_cons.
  destruct (isBlank e) eqn:Hb.
  { split; [|auto]. unfold isBlank in Hb. apply andb_true_iff in Hb as [H4 H6].
    apply bool_decide_eq_true in H4, H6. done. }
  assert (H6 : ∀ w0, (if decide (e_IPv6 e ≠ ""%string) then
     orDeny (IsIPIncludedRange IPv6 (e_IPv6 e) r6) "Failed to check IPv6" (λ result : bool,
       if result then checkAllocated eips r4 r6 else mret (Denied "has been allocated and cannot be deleted"))
     else checkAllocated eips r4 r6) w0 = (w', Ret (Allowed r)) →
     (e_IPv6 e ≠ ""%string → IsIPIncludedRange IPv6 (e_IPv6 e) r6 = Ret true) ∧
     checkAllocated eips r4 r6 w0 = (w', Ret (Allowed r))).
  { intros w0. destruct (decide (e_IPv6 e ≠ ""%string)) as [Hs|Hs]; [|by intros ?; split]. intros Ha.
    apply orDeny_accepts in Ha as ([] & Hi & Ha); [|done]. done. }
  destruct (decide (e_IPv4 e ≠ ""%string)) as [Hs|Hs].
  - apply orDeny_accepts in Hk as ([] & Hi & Hk); [|done]. apply H6 in Hk as [? Hk]. split; [done|eauto].
  - apply H6 in Hk as [? Hk]. split; [done|eauto].
Qed.

Lemma checkDupIP_accepts ips4 ips6 m u :
  checkDupIP ips4 ips6 m = Ret u → ∀ k ss s, m !! k = Some ss → s ∈ IPString <$> (ips4 ++ ips6) → s ∉ ss.
Proof.
  assert (Hex : ∀ ips, existsb (inSomePool m) ips = false →
    ∀ k ss s, m !! k = Some ss → s ∈ IPString <$> ips → s ∉ ss).
  { intros ips Hf k ss s Hk Hs Hin. apply list_elem_of_fmap in Hs as (v & -> & Hv).
    assert (existsb (inSomePool m) ips = true); [|congruence].
    apply existsb_exists. exists v. split; [by apply list_elem_of_In|].
    unfold inSomePool. apply existsb_exists. exists ss. split; [|by apply bool_decide_eq_true].
    apply list_elem_of_In, list_elem_of_fmap. exists (k, ss). split; [done|]. by apply elem_of_map_to_list. }
  unfold checkDupIP. destruct (existsb _ ips4) eqn:E4; [done|]. destruct (existsb _ ips6) eqn:E6; [done|].
  intros _ k ss s Hk Hs. rewrite fmap_app, elem_of_app in Hs. destruct Hs; eauto.
Qed.

Lemma buildClusterIPMap_covers l skip res :
  buildClusterIPMap l skip = Ret res → NoDup ((λ g, gw_name g) <$> l) →
  ∀ g, g ∈ l → gw_name g ≠ skip → ∃ i4 i6, poolIPs IPv4 g = Ret i4 ∧ poolIPs IPv6 g = Ret i6 ∧
    res !! gw_name g = Some (list_to_set (IPString <$> i4) ∪ list_to_set (IPString <$> i6)).
Proof.
  unfold buildClusterIPMap. generalize (∅ : gmap string (gset string)) as acc.
  intros acc Hr Hnd.
  enough ((∀ g, g ∈ l → gw_name g ≠ skip → ∃ i4 i6, poolIPs IPv4 g = Ret i4 ∧ poolIPs IPv6 g = Ret i6 ∧
    res !! gw_name g = Some (list_to_set (IPString <$> i4) ∪ list_to_set (IPString <$> i6))) ∧
    ∀ k, k ∉ (λ g, gw_name g) <$> l → res !! k = acc !! k) as [? _]; [done|].
  revert acc Hr Hnd. induction l as [|x l IH]; intros acc Hr Hnd; simpl in Hr.
  { injection Hr as <-. split; [set_solver|done]. }
  rewrite fmap_cons in Hnd. apply NoDup_cons in Hnd as [Hx Hnd].
  apply obind_ret_inv in Hr as (acc' & Hstep & Hr). specialize (IH _ Hr Hnd) as [IH1 IH2].
  assert (Hkeep : ∀ k, k ≠ gw_name x → acc' !! k = acc !! k).
  { intros k Hk. case_decide; [by inv_ret|]. inv_ret. by rewrite lookup_insert_ne. }
  split.
  - intros g Hg Hs. apply elem_of_cons in Hg as [->|Hg]; [|by apply IH1].
    rewrite decide_False in Hstep by done. inv_ret. exists a1, a2.
    unfold poolIPs, poolOf. simpl. rewrite Hret, Hret0. simpl. rewrite Hret1, Hret2.
    split_and!; [done..|]. rewrite IH2 by done. by rewrite lookup_insert_eq.
  - intros k Hk. rewrite fmap_cons, not_elem_of_cons in Hk. destruct Hk as [Hk1 Hk2].
    rewrite IH2 by done. by apply Hkeep.
Qed.
End accept.

(** ** What an accepted gateway satisfies *)

Section gateways.
Context {W : Type} `{HL : HookLaws W} `{MO : MapOrder}.

Lemma checkClusterDefault_accepts g (k : M W response) w w' r :
  checkClusterDefault g k w = (w', Ret (Allowed r)) →
  ∃ w1, hkGateways w1 = hkGateways w ∧ k w1 = (w', Ret (Allowed r)) ∧
  (spec_ClusterDefault (g_Spec g) = true →
   ∀ n g', hkGateways w !! n = Some g' → spec_ClusterDefault (g_Spec g') = true → gw_name g' = gw_name g).
Proof.
  unfold checkClusterDefault. destruct (spec_ClusterDefault _) eqn:Hd; [|by exists w].
  intros Hk. apply bind_attempt_inv in Hk as (w1 & [items|e] & Hk & -> & Hl); [|done].
  destruct (existsb _ items) eqn:Hex; [done|].
  exists (hkListGateways w).1. split_and!; [apply hkList_reads|done|]. intros _ n g' Hn Hd'.
  apply hkList_stored in Hl. apply not_true_iff_false in Hex. rewrite existsb_exists in Hex.
  destruct (decide (gw_name g' = gw_name g)) as [He|He]; [done|]. destruct Hex. exists g'. split.
  - apply list_elem_of_In. rewrite Hl. apply list_elem_of_fmap. exists (n, g'). split; [done|].
    by apply elem_of_map_to_list.
  - by rewrite Hd', bool_decide_true.
Qed.

(** The names in a list of all gateways are distinct. *)
Lemma listed_names (m : gmap string EgressGateway) l : (∀ k g, m !! k = Some g → gw_name g = k) →
  l ≡ₚ (map_to_list m).*2 → NoDup ((λ g, gw_name g) <$> l).
Proof.
  intros Hn Hl. rewrite Hl. rewrite <- list_fmap_compose.
  rewrite (list_fmap_ext _ fst).
  - apply NoDup_fst_map_to_list.
  - intros i [k g] Hi. simpl. apply Hn, elem_of_map_to_list. by eapply list_elem_of_lookup_2.
Qed.

(** What [EgressGatewayValidate] has checked of an accepted gateway, against
    the stored ones. *)
Record checked (m : gmap string EgressGateway) (g : EgressGateway) : Prop := {
  ck_pools : ∀ v, isFamily v → ∃ ips, poolIPs v g = Ret ips;
  ck_defaults : defaults_ok g;
  ck_apart : ∀ n g', m !! n = Some g' → gw_name g' ≠ gw_name g → apart g g';
  ck_default : spec_ClusterDefault (g_Spec g) = true → ∀ n g', m !! n = Some g' →
    spec_ClusterDefault (g_Spec g') = true → gw_name g' = gw_name g
}.

(** Parsing a family that is switched off is skipped, but then its pool is
    empty. *)
Lemma skipped_family v (enabled : bool) g ranges ips : isFamily v →
  (enabled = false → poolOf v g = []) → MergeIPRanges v (poolOf v g) = Ret ranges →
  (if enabled then ParseIPRanges v ranges else Ret []) = Ret ips → poolIPs v g = Ret ips.
Proof using.
  intros Hv He Hm Hp. destruct enabled.
  - unfold poolIPs. by rewrite Hm.
  - injection Hp as <-. by apply poolIPs_nil, He.
Qed.

Lemma apart_from_checked g g' ips4 ips6 i4 i6 :
  poolIPs IPv4 g = Ret ips4 → poolIPs IPv6 g = Ret ips6 →
  poolIPs IPv4 g' = Ret i4 → poolIPs IPv6 g' = Ret i6 →
  (∀ s, s ∈ IPString <$> (ips4 ++ ips6) →
     s ∉ (list_to_set (IPString <$> i4) ∪ list_to_set (IPString <$> i6) : gset string)) →
  apart g g'.
Proof using.
  intros H4 H6 H4' H6' Hs v1 v2 l1 l2 Hv1 Hv2 Hl1 Hl2 s Hin1 Hin2. apply (Hs s).
  - rewrite fmap_app, elem_of_app. destruct Hv1 as [-> | ->]; [left|right]; congruence.
  - rewrite elem_of_union, !elem_of_list_to_set. destruct Hv2 as [-> | ->]; [left|right]; congruence.
Qed.

Lemma defaults_from_checked g r4 r6 :
  MergeIPRanges IPv4 (pool_IPv4 (spec_Ippools (g_Spec g))) = Ret r4 →
  MergeIPRanges IPv6 (pool_IPv6 (spec_Ippools (g_Spec g))) = Ret r6 →
  (pool_Ipv4DefaultEIP (spec_Ippools (g_Spec g)) ≠ ""%string →
   IsIPIncludedRange IPv4 (pool_Ipv4DefaultEIP (spec_Ippools (g_Spec g))) r4 = Ret true) →
  (pool_Ipv6DefaultEIP (spec_Ippools (g_Spec g)) ≠ ""%string →
   IsIPIncludedRange IPv6 (pool_Ipv6DefaultEIP (spec_Ippools (g_Spec g))) r6 = Ret true) →
  defaults_ok g.
Proof using.
  intros H4 H6 Hd4 Hd6 v [-> | ->]; unfold defaultOf, inPool, poolOf; simpl; intros Hne.
  - rewrite H4. by apply Hd4.
  - rewrite H6. by apply Hd6.
Qed.

Lemma covers_from_checked g r4 r6 nodes :
  MergeIPRanges IPv4 (pool_IPv4 (spec_Ippools (g_Spec g))) = Ret r4 →
  MergeIPRanges IPv6 (pool_IPv6 (spec_Ippools (g_Spec g))) = Ret r6 →
  Forall (λ e, (e_IPv4 e ≠ ""%string → IsIPIncludedRange IPv4 (e_IPv4 e) r4 = Ret true) ∧
               (e_IPv6 e ≠ ""%string → IsIPIncludedRange IPv6 (e_IPv6 e) r6 = Ret true)) (nodes ≫= n_Eips) →
  covers g nodes.
Proof using.
  intros H4 H6 Hf n e Hn He. rewrite Forall_forall in Hf.
  destruct (Hf e) as [Hf4 Hf6]; [apply list_elem_of_bind; eauto|].
  unfold inPool, poolOf. simpl. rewrite H4, H6. done.
Qed.

Lemma validateGatewayUpdate_accepts name g r4 r6 w w' r old :
  validateGatewayUpdate name g r4 r6 w = (w', Ret (Allowed r)) → hkGateways w !! name = Some old →
  Forall (λ e, (e_IPv4 e ≠ ""%string → IsIPIncludedRange IPv4 (e_IPv4 e) r4 = Ret true) ∧
               (e_IPv6 e ≠ ""%string → IsIPIncludedRange IPv6 (e_IPv6 e) r6 = Ret true)) (NodeList old ≫= n_Eips).
Proof.
  intros Hk Hold. unfold validateGatewayUpdate in Hk.
  apply bind_attempt_inv in Hk as (w1 & [old'|e] & Hk & -> & Hg).
  - apply hkGet_stored in Hg. simplify_eq. do 2 (destruct (_ && _); [done|]). by eapply checkAllocated_accepts.
  - destruct (IsNotFound e) eqn:Hnf; [|done]. apply bool_decide_eq_true in Hnf as ->.
    apply hkGet_absent in Hg. congruence.
Qed.

(** A family that is switched off has no pool. *)
Lemma disabled_pools cfg g :
  cfg_EnableIPv4 cfg || cfg_EnableIPv6 cfg = true →
  cfg_EnableIPv4 cfg && negb (cfg_EnableIPv6 cfg) && bool_decide (length (pool_IPv6 (spec_Ippools (g_Spec g))) ≠ 0) = false →
  negb (cfg_EnableIPv4 cfg) && cfg_EnableIPv6 cfg && bool_decide (length (pool_IPv4 (spec_Ippools (g_Spec g))) ≠ 0) = false →
  (cfg_EnableIPv4 cfg = false → poolOf IPv4 g = []) ∧ (cfg_EnableIPv6 cfg = false → poolOf IPv6 g = []).
Proof using.
  unfold poolOf. simpl. destruct (cfg_EnableIPv4 cfg), (cfg_EnableIPv6 cfg); simpl; intros; try done; split; try done;
    intros _; apply nil_length_inv; apply dec_stable; eapply bool_decide_eq_false_1; eassumption.
Qed.

Lemma EgressGatewayValidate_accepts cfg req g w w' r :
  cfg_EnableIPv4 cfg || cfg_EnableIPv6 cfg = true →
  (∀ k g, hkGateways w !! k = Some g → gw_name g = k) →
  rq_Operation req ≠ Delete → rq_Object req = Some g →
  EgressGatewayValidate cfg req w = (w', Ret (Allowed r)) →
  checked (hkGateways w) g ∧
  (rq_Operation req = Update → ∀ old, hkGateways w !! rq_Name req = Some old → covers g (NodeList old)).
Proof.
  intros Hen Hnames Hop Hobj. unfold EgressGatewayValidate. rewrite decide_False, Hobj by done.
  destruct (selectorUnset _); [done|].
  destruct (_ && _ && _) eqn:E6; [done|]. destruct (negb _ && _ && _) eqn:E4; [done|]. intros Hk.
  destruct (disabled_pools cfg g Hen E6 E4) as [Hoff4 Hoff6].
  apply checkClusterDefault_accepts in Hk as (w1 & Hw1 & Hk & Hdef).
  apply orDeny_accepts in Hk as (r4 & Hr4 & Hk). apply orDeny_accepts in Hk as (r6 & Hr6 & Hk).
  apply orDeny_accepts in Hk as (i4 & Hi4 & Hk). apply orDeny_accepts in Hk as (i6 & Hi6 & Hk).
  apply (skipped_family IPv4 _ g) in Hi4; [|by left|done|done]. apply (skipped_family IPv6 _ g) in Hi6; [|by right|done|done].
  match type of Hk with (if ?b then _ else _) _ = _ => destruct b; [done|] end.
  apply checkDefaultEIP_accepts in Hk as [Hd4 Hk]. apply checkDefaultEIP_accepts in Hk as [Hd6 Hk].
  apply bind_attempt_inv in Hk as (w2 & [l|e] & Hk & -> & Hl); [|done]. apply hkList_stored in Hl.
  pose proof (hkList_reads w1) as Hw2. rewrite Hw1 in Hl, Hw2.
  apply orDeny_accepts in Hk as (cm & Hcm & Hk). apply orDeny_accepts in Hk as (u & Hdup & Hk).
  split; [split|].
  - intros v [-> | ->]; eauto.
  - by eapply defaults_from_checked.
  - intros n g' Hn Hne.
    destruct (buildClusterIPMap_covers l (gw_name g) cm Hcm (listed_names _ _ Hnames Hl) g') as (j4 & j6 & Hj4 & Hj6 & Hcov).
    + rewrite Hl. apply list_elem_of_fmap. exists (n, g'). split; [done|]. by apply elem_of_map_to_list.
    + done.
    + eapply apart_from_checked; eauto. intros s Hs. by eapply checkDupIP_accepts.
  - done.
  - intros Hup old Hold. rewrite decide_True in Hk by done. eapply covers_from_checked; [done..|].
    eapply validateGatewayUpdate_accepts; [done|]. congruence.
Qed.

(** ** The stored gateways under admission *)

(** One change of the stored gateways: an accepted request that the API
    server then carries out (an object is created with an empty status, an
    update keeps the status), a deletion, or a write of a status. *)
Inductive admission (cfg : FileConfig) : gmap string EgressGateway → gmap string EgressGateway → Prop :=
| admit_create w w' req g r :
    rq_Operation req = Create → rq_Object req = Some g → gw_name g = rq_Name req →
    hkGateways w !! rq_Name req = None →
    EgressGatewayValidate cfg req w = (w', Ret (Allowed r)) →
    admission cfg (hkGateways w) (<[rq_Name req := mkGateway (g_Meta g) (g_Spec g) (g_Status zeroGateway)]> (hkGateways w))
| admit_update w w' req g old r :
    rq_Operation req = Update → rq_Object req = Some g → gw_name g = rq_Name req →
    hkGateways w !! rq_Name req = Some old →
    EgressGatewayValidate cfg req w = (w', Ret (Allowed r)) →
    admission cfg (hkGateways w) (<[rq_Name req := mkGateway (g_Meta g) (g_Spec g) (g_Status old)]> (hkGateways w))
| admit_delete m n : admission cfg m (delete n m)
| admit_status m n g s : m !! n = Some g → admission cfg m (<[n := mkGateway (g_Meta g) (g_Spec g) s]> m).

Lemma apart_sym g1 g2 : apart g1 g2 → apart g2 g1.
Proof using. intros Ha v1 v2 l1 l2 Hv1 Hv2 H1 H2 s Hs Hs'. by eapply (Ha v2 v1 l2 l1). Qed.

(** Everything the invariant says is about names and specs. *)
Lemma gateways_ok_insert m g s : gateways_ok m → checked m g →
  gateways_ok (<[gw_name g := mkGateway (g_Meta g) (g_Spec g) s]> m).
Proof using.
  intros [Hn Hp Hd Ha Hc] [Cp Cd Ca Cc]. split.
  - intros k x [[<- <-]|[? ?]]%lookup_insert_Some; [done|by apply Hn].
  - intros k x v [[<- <-]|[? ?]]%lookup_insert_Some Hv; [by apply (Cp v)|by eapply Hp].
  - intros k x [[<- <-]|[? ?]]%lookup_insert_Some; [exact Cd|by eapply Hd].
  - intros k1 k2 g1 g2 [[<- <-]|[Hk1 H1]]%lookup_insert_Some [[<- <-]|[Hk2 H2]]%lookup_insert_Some Hne; try done.
    + apply (Ca k2 g2); [done|]. rewrite (Hn _ _ H2). done.
    + apply apart_sym, (Ca k1 g1); [done|]. rewrite (Hn _ _ H1). done.
    + by eapply Ha.
  - intros k1 k2 g1 g2 [[<- <-]|[Hk1 H1]]%lookup_insert_Some [[<- <-]|[Hk2 H2]]%lookup_insert_Some D1 D2; try done.
    + rewrite <- (Hn _ _ H2). symmetry. by eapply Cc.
    + rewrite <- (Hn _ _ H1). by eapply Cc.
    + by eapply Hc.
Qed.

Lemma gateways_ok_status m n g s : gateways_ok m → m !! n = Some g →
  gateways_ok (<[n := mkGateway (g_Meta g) (g_Spec g) s]> m).
Proof using.
  intros Hok Hg. rewrite <- (ok_named _ Hok _ _ Hg). apply gateways_ok_insert; [done|].
  destruct Hok as [Hn Hp Hd Ha Hc]. split; [eauto..| |].
  - intros k g' Hk Hne. eapply Ha; eauto. rewrite <- (Hn _ _ Hg), <- (Hn _ _ Hk). done.
  - intros D k g' Hk D'. rewrite (Hn _ _ Hg), (Hn _ _ Hk). by eapply Hc.
Qed.

Lemma gateways_ok_delete m n : gateways_ok m → gateways_ok (delete n m).
Proof using.
  intros [Hn Hp Hd Ha Hc].
  split; intros; repeat match goal with H : delete _ _ !! _ = Some _ |- _ => apply lookup_delete_Some in H as [_ H] end;
    eauto.
Qed.

(** C6. Whatever requests are made, accepted one after another by the
    validating webhook with at least one address family enabled, the stored
    gateways always satisfy: every pool can be expanded to addresses, the
    default EIPs of a gateway are in its pools, no address is in the pools of
    two gateways, and at most one gateway is the cluster's default. *)
Theorem admission_keeps_gateways_ok cfg m :
  cfg_EnableIPv4 cfg || cfg_EnableIPv6 cfg = true →
  rtc (admission cfg) ∅ m → gateways_ok m.
Proof.
  intros Hen Hr. assert (H0 : gateways_ok ∅) by (split; intros *; rewrite lookup_empty; done).
  revert H0. induction Hr as [|m1 m2 m3 Hstep _ IH]; [done|]. intros Hok. apply IH. clear IH.
  destruct Hstep as [w w' req g r Hop Hobj Hname _ Hv | w w' req g old r Hop Hobj Hname _ Hv | m n | m n g s Hg].
  - rewrite <- Hname. apply gateways_ok_insert; [done|].
    eapply EgressGatewayValidate_accepts; [..|exact Hv]; [done|apply Hok|congruence|done].
  - rewrite <- Hname. apply gateways_ok_insert; [done|].
    eapply EgressGatewayValidate_accepts; [..|exact Hv]; [done|apply Hok|congruence|done].
  - by apply gateways_ok_delete.
  - by apply gateways_ok_status.
Qed.

(** C32. An update of a gateway that the webhook accepts cannot take an
    address away that is in use: every EIP in the stored status of the gateway
    is in the pools of the updated gateway. *)
Theorem update_keeps_allocated_addresses cfg req g old w w' r :
  cfg_EnableIPv4 cfg || cfg_EnableIPv6 cfg = true →
  (∀ k g, hkGateways w !! k = Some g → gw_name g = k) →
  rq_Operation req = Update → rq_Object req = Some g → hkGateways w !! rq_Name req = Some old →
  EgressGatewayValidate cfg req w = (w', Ret (Allowed r)) →
  covers g (NodeList old).
Proof.
  intros Hen Hn Hop Hobj Hold Hv.
  eapply (EgressGatewayValidate_accepts cfg req g w w' r); eauto. congruence.
Qed.
End gateways.

(** ** Policies *)

(** The fields that the validation of a policy of either kind looks at. *)
Record policyFields := mkFields {
  pf_gateway : string;
  pf_eip : EgressIP;
  pf_podSelector : option LabelSelector;
  pf_podSubnet : list string;
  pf_destSubnet : list string
}.
Definition fieldsOf (p : EgressPolicy) : policyFields :=
  let s := ep_Spec p in
  mkFields (pol_EgressGatewayName s) (pol_EgressIP s) (at_PodSelector (pol_AppliedTo s))
    (at_PodSubnet (pol_AppliedTo s)) (pol_DestSubnet s).
Definition fieldsOfCluster (p : EgressClusterPolicy) : policyFields :=
  let s := cp_Spec p in
  mkFields (cpol_EgressGatewayName s) (cpol_EgressIP s) (cat_PodSelector (cpol_AppliedTo s))
    (default [] (cat_PodSubnet (cpol_AppliedTo s))) (cpol_DestSubnet s).

(** The operation, the fields and the old fields of a request about a policy. *)
Definition policyRequest (req : kindRequest) : option (operation * option policyFields * option policyFields) :=
  match req with
  | KPolicy r => Some (rq_Operation r, fieldsOf <$> rq_Object r, fieldsOf <$> rq_OldObject r)
  | KClusterPolicy r => Some (rq_Operation r, fieldsOfCluster <$> rq_Object r, fieldsOfCluster <$> rq_OldObject r)
  | _ => None
  end.

(** What every accepted policy satisfies by itself. *)
Record policy_ok (f : policyFields) : Prop := {
  po_gateway : pf_gateway f ≠ ""%string;
  po_exclusive : eip_UseNodeIP (pf_eip f) = true → eip_IPv4 (pf_eip f) = ""%string ∧ eip_IPv6 (pf_eip f) = ""%string;
  po_IPv4 : eip_IPv4 (pf_eip f) ≠ ""%string → hookIsIPv4 (eip_IPv4 (pf_eip f)) = true;
  po_IPv6 : eip_IPv6 (pf_eip f) ≠ ""%string → hookIsIPv6 (eip_IPv6 (pf_eip f)) = true;
  po_applies : pf_podSubnet f ≠ [] ∨ selectorUnset (pf_podSelector f) = false;
  po_dest : Forall (λ s, is_Some (ParseCIDR s)) (pf_destSubnet f)
}.

Lemma checkEgressIP_none e : checkEgressIP e = None →
  (eip_UseNodeIP e = true → eip_IPv4 e = ""%string ∧ eip_IPv6 e = ""%string) ∧
  (eip_IPv4 e ≠ ""%string → hookIsIPv4 (eip_IPv4 e) = true) ∧ (eip_IPv6 e ≠ ""%string → hookIsIPv6 (eip_IPv6 e) = true).
Proof.
  unfold checkEgressIP. destruct (eip_UseNodeIP e), (hookIsIPv4 (eip_IPv4 e)), (hookIsIPv6 (eip_IPv6 e)); simpl;
    repeat case_bool_decide; simpl; naive_solver.
Qed.

Lemma checkAppliedTo_none s l : checkAppliedTo s l = None → l ≠ [] ∨ selectorUnset s = false.
Proof.
  unfold checkAppliedTo. destruct (_ && _); [done|]. destruct l as [|x l]; [|by left]. simpl.
  destruct (selectorUnset s); [done|]. by right.
Qed.

Lemma checkImmutable_none n n' e e' : checkImmutable n n' e e' = None → n = n' ∧ e = e'.
Proof.
  unfold checkImmutable. destruct e, e'; simpl. repeat case_decide; try done. by simplify_eq.
Qed.

Lemma validateSubnet_allowed l r : validateSubnet l = Allowed r → Forall (λ s, is_Some (ParseCIDR s)) l.
Proof.
  unfold validateSubnet. case_decide as Hl; [done|]. intros _. apply Forall_forall. intros s Hs.
  destruct (ParseCIDR s) eqn:Hp; [done|]. destruct Hl.
  assert (Hin : s ∈ filter (λ s, match ParseCIDR s with
    | Some (ip, _) => bool_decide (To4 ip = []) && bool_decide (To16 ip = [])
    | None => true end = true) l).
  { apply list_elem_of_filter. by rewrite Hp. }
  match goal with |- 0 < length ?x => destruct x; [by apply not_elem_of_nil in Hin|simpl; lia] end.
Qed.

Section policies.
Context {W : Type} `{HL : HookLaws W} `{MO : MapOrder}.

(** What the creation of a policy checks against the stored gateway it names:
    unless it uses node addresses, the gateway exists and has a pool, and the
    addresses the policy names are in the pools. *)
Definition create_ok (m : gmap string EgressGateway) (f : policyFields) : Prop :=
  eip_UseNodeIP (pf_eip f) = false → ∃ g, m !! pf_gateway f = Some g ∧
    let pools := pool_IPv4 (spec_Ippools (g_Spec g)) ++ pool_IPv6 (spec_Ippools (g_Spec g)) in
    pools ≠ [] ∧
    (eip_IPv4 (pf_eip f) ≠ ""%string → CheckIPIncluded (eip_IPv4 (pf_eip f)) pools = Ret true) ∧
    (eip_IPv6 (pf_eip f) ≠ ""%string → CheckIPIncluded (eip_IPv6 (pf_eip f)) pools = Ret true).

Lemma checkEGWIppools_ok n w :
  match (checkEGWIppools n w).2 with
  | Ret _ => ∃ g, hkGateways w !! n = Some g ∧
      pool_IPv4 (spec_Ippools (g_Spec g)) ++ pool_IPv6 (spec_Ippools (g_Spec g)) ≠ []
  | _ => True
  end ∧ hkGateways (checkEGWIppools n w).1 = hkGateways w.
Proof using HL.
  unfold checkEGWIppools, mbind_, attempt. pose proof (hkGet_reads n w) as Hr.
  pose proof (hkGet_stored n w) as Hs. destruct (hkGetGateway n w) as [w1 [g|e|s|]]; simpl in *; try done.
  destruct (_ && _) eqn:Hb; simpl; [done|]. split; [|done]. exists g. split; [by apply Hs|]. intros [H4 H6]%app_nil.
  by rewrite H4, H6 in Hb.
Qed.

Lemma checkEIP_reads e4 e6 n w : hkGateways (checkEIP e4 e6 n w).1 = hkGateways w.
Proof using HL.
  unfold checkEIP. case_decide; [done|]. unfold mbind_. pose proof (hkGet_reads n w) as Hr.
  destruct (hkGetGateway n w) as [w1 [g|e|s|]]; simpl in *; try done. by repeat case_decide.
Qed.

Lemma checkEIPIncluded_ok e4 e6 n w w' g : checkEIPIncluded e4 e6 n w = (w', Ret true) →
  hkGateways w !! n = Some g →
  let pools := pool_IPv4 (spec_Ippools (g_Spec g)) ++ pool_IPv6 (spec_Ippools (g_Spec g)) in
  pools ≠ [] →
  (e4 ≠ ""%string → CheckIPIncluded e4 pools = Ret true) ∧ (e6 ≠ ""%string → CheckIPIncluded e6 pools = Ret true).
Proof using HL.
  intros Hk Hg pools Hne. unfold checkEIPIncluded in Hk. case_decide as He; [by destruct He as [-> ->]|].
  unfold mbind_ at 1, getOrAbsent in Hk. unfold mbind_, attempt in Hk.
  pose proof (hkGet_stored n w) as Hs. pose proof (hkGet_absent n w) as Ha.
  destruct (hkGetGateway n w) as [w1 [g'|e|s|]]; simpl in *; try done.
  - specialize (Hs g' eq_refl). assert (g' = g) as -> by congruence. simpl in Hk.
    case_decide as Hp; simpl in Hk.
    + change (pool_IPv4 _ ++ pool_IPv6 _) with pools in Hk.
      destruct (decide (e4 ≠ "")%string) as [H4|H4], (decide (e6 ≠ "")%string) as [H6|H6]; simpl in Hk;
        try destruct (CheckIPIncluded e4 pools) as [[]| | |]; simpl in Hk; simplify_eq;
        try destruct (CheckIPIncluded e6 pools) as [[]| | |]; simplify_eq; done.
    + destruct Hne. unfold pools. destruct (pool_IPv4 _), (pool_IPv6 _); naive_solver.
  - destruct (IsNotFound e) eqn:Hnf; simpl in Hk; [|done]. apply bool_decide_eq_true in Hnf as ->.
    rewrite Ha in Hg; done.
Qed.

Lemma checkCreate_accepts cfg f k w w' r :
  cfg_EnableIPv4 cfg || cfg_EnableIPv6 cfg = true →
  checkCreate cfg (pf_eip f) (pf_gateway f) k w = (w', Ret (Allowed r)) →
  create_ok (hkGateways w) f ∧ ∃ w1, k w1 = (w', Ret (Allowed r)).
Proof using HL.
  intros Hen Hk. unfold checkCreate in Hk. rewrite Hen in Hk.
  assert (Hinc : ∀ w0, (let* r := attempt (checkEIPIncluded (eip_IPv4 (pf_eip f)) (eip_IPv6 (pf_eip f)) (pf_gateway f)) in
    match r with
    | inl ok => if ok : bool then k
                else mret (Denied "the Spec.EgressIP.IPv4 or Spec.EgressIP.IPv6 is not within the ip ranges")
    | inr _ => mret (Denied "failed to get the EgressGateway")
    end) w0 = (w', Ret (Allowed r)) →
    (∃ w1, checkEIPIncluded (eip_IPv4 (pf_eip f)) (eip_IPv6 (pf_eip f)) (pf_gateway f) w0 = (w1, Ret true)) ∧
    ∃ w1, k w1 = (w', Ret (Allowed r))).
  { intros w0 H0. apply bind_attempt_inv in H0 as (w1 & [[]|e] & H0 & -> & H1); try done.
    split; [|eauto]. exists (checkEIPIncluded (eip_IPv4 (pf_eip f)) (eip_IPv6 (pf_eip f)) (pf_gateway f) w0).1.
    by destruct (checkEIPIncluded _ _ _ w0); simpl in *; subst. }
  apply bind_attempt_inv in Hk as (w1 & [u|e] & Hk & -> & _); [|done].
  pose proof (checkEIP_reads (eip_IPv4 (pf_eip f)) (eip_IPv6 (pf_eip f)) (pf_gateway f) w) as Hr1.
  destruct (eip_UseNodeIP (pf_eip f)) eqn:Hu; simpl in Hk.
  - split; [|by eapply Hinc]. unfold create_ok. by rewrite Hu.
  - apply bind_attempt_inv in Hk as (w2 & [u2|e] & Hk & -> & Hp); [|done].
    destruct (checkEGWIppools_ok (pf_gateway f) (checkEIP (eip_IPv4 (pf_eip f)) (eip_IPv6 (pf_eip f)) (pf_gateway f) w).1)
      as [Hpool Hr2].
    rewrite Hp in Hpool. destruct Hpool as (g & Hg & Hne). rewrite Hr1 in Hg, Hr2.
    apply Hinc in Hk as [[w3 Hi] Hk]. split; [|done]. intros _. exists g. split; [done|]. split; [done|].
    eapply checkEIPIncluded_ok; [exact Hi|by rewrite Hr2|done].
Qed.

(** Both validators are one function of the fields of the policy. *)
Definition validateFields (badJSON : string) (cfg : FileConfig) (op : operation) (new old : option policyFields) : M W response :=
  if decide (op = Delete) then mret (Allowed "checked")
  else match new with
  | None => mret (Denied badJSON)
  | Some f =>
      let rest := mret (validateSubnet (pf_destSubnet f)) in
      if decide (pf_gateway f = "") then mret (Denied "egressGatewayName cannot be empty")
      else denyIf (checkEgressIP (pf_eip f)) (denyIf (checkAppliedTo (pf_podSelector f) (pf_podSubnet f)) (
        match op with
        | Update => match old with
                    | None => mret (Denied badJSON)
                    | Some f' => denyIf (checkImmutable (pf_gateway f) (pf_gateway f') (pf_eip f) (pf_eip f')) rest
                    end
        | Create => checkCreate cfg (pf_eip f) (pf_gateway f) rest
        | _ => rest
        end))
  end.

Lemma validators_agree cfg req op new old : policyRequest req = Some (op, new, old) →
  ∃ badJSON, ValidateHook cfg req = validateFields badJSON cfg op new old.
Proof using.
  destruct req as [|?|[o n ns p p']|[o n ns p p']|]; intros [= <- <- <-].
  - exists "json unmarshal EgressClusterPolicy with error"%string. by destruct p, p'.
  - exists "json unmarshal EgressPolicy with error"%string. by destruct p, p'.
Qed.

(** C27. A policy of either kind whose creation or change the validating webhook
    accepts names a gateway, does not ask for node addresses and for given
    addresses at once, names well-formed addresses of the right family,
    applies to some pods and has destinations that are CIDR blocks.  An
    accepted update keeps the gateway and the egress addresses; at an accepted
    creation of a policy that does not use the node address the gateway exists,
    has a pool, and the addresses that the policy names are in its pools. *)
Theorem accepted_policy_ok cfg req op f old w w' r :
  cfg_EnableIPv4 cfg || cfg_EnableIPv6 cfg = true →
  policyRequest req = Some (op, Some f, old) → op ≠ Delete →
  ValidateHook cfg req w = (w', Ret (Allowed r)) →
  policy_ok f ∧
  (op = Update → ∃ f', old = Some f' ∧ pf_gateway f = pf_gateway f' ∧ pf_eip f = pf_eip f') ∧
  (op = Create → create_ok (hkGateways w) f).
Proof using HL.
  intros Hen Hreq Hop Hk. destruct (validators_agree cfg req _ _ _ Hreq) as [bad Heq]. rewrite Heq in Hk. clear Heq.
  unfold validateFields in Hk.
  rewrite decide_False in Hk by done. destruct (decide (pf_gateway f = "")) as [|Hg]; [done|].
  apply denyIf_accepts in Hk as [(Hx & H4 & H6)%checkEgressIP_none Hk].
  apply denyIf_accepts in Hk as [Ha%checkAppliedTo_none Hk].
  assert (Hok : ∀ w1, mret (validateSubnet (pf_destSubnet f)) w1 = (w', Ret (Allowed r)) → policy_ok f).
  { intros w1 [= _ Hs]. split; try done. by eapply validateSubnet_allowed. }
  destruct op; try done.
  - apply checkCreate_accepts in Hk as [Hc [w1 Hk]]; [|done]. split; [eauto|done].
  - destruct old as [f'|]; [|done]. apply denyIf_accepts in Hk as [[Hi1 Hi2]%checkImmutable_none Hk]. naive_solver.
  - naive_solver.
Qed.

Lemma fold_default items n : (∀ g, g ∈ items → spec_ClusterDefault (g_Spec g) = true → gw_name g = n) →
  ∀ acc, (∃ g, g ∈ items ∧ spec_ClusterDefault (g_Spec g) = true) ∨ acc = n →
  foldl (λ name item, if spec_ClusterDefault (g_Spec item) then gw_name item else name) acc items = n.
Proof using.
  induction items as [|x items IH]; intros Hall acc Hor; simpl.
  { destruct Hor as [(g & Hg & _)|]; [by apply not_elem_of_nil in Hg|done]. }
  apply IH; [set_solver|]. destruct (spec_ClusterDefault (g_Spec x)) eqn:Hd.
  - right. apply Hall; [set_solver|done].
  - destruct Hor as [(g & [->|Hg]%elem_of_cons & Hgd)|]; [congruence| |by right]. left. eauto.
Qed.

(** In a cluster that satisfies the invariant of the gateways, a cluster policy
    without a gateway gets the cluster's default gateway from the mutating
    webhook, and an empty [egressIP] gets the default allocator. *)
Theorem default_gateway_is_filled_in req p n g w w' l :
  gateways_ok (hkGateways w) → hkGateways w !! n = Some g → spec_ClusterDefault (g_Spec g) = true → n ≠ ""%string →
  rq_Object req = Some p → cpol_EgressGatewayName (cp_Spec p) = ""%string →
  hkListGateways w = (w', Ret l) →
  mutateHookEgressClusterPolicy req w =
    (w', Ret (Patched (mkPatch "add" "/spec/egressGatewayName" (PString n) ::
      if IsEmpty (cpol_EgressIP (cp_Spec p))
      then [mkPatch "add" "/spec/egressIP" (PEgressIP (mkEgressIP "" "" false "default"))] else []))).
Proof using HL.
  intros Hok Hg Hd Hn Hobj Hname Hl. unfold mutateHookEgressClusterPolicy. rewrite Hobj, decide_True by done.
  unfold globalDefaultPatches, getGlobalDefaultEgwPatch, mbind_, attempt. rewrite Hl.
  pose proof (hkList_stored w l) as Hs. rewrite Hl in Hs. specialize (Hs eq_refl).
  rewrite (fold_default l n).
  - rewrite decide_False by done. simpl. unfold finishPolicyPatch. by destruct (IsEmpty _).
  - intros g' Hg' Hd'. rewrite Hs in Hg'. apply list_elem_of_fmap in Hg' as ([k g''] & -> & Hk). simpl in *.
    apply elem_of_map_to_list in Hk. rewrite (ok_named _ Hok _ _ Hk). by eapply (ok_default _ Hok).
  - left. exists g. split; [|done]. rewrite Hs. apply list_elem_of_fmap. exists (n, g). split; [done|].
    by apply elem_of_map_to_list.
Qed.
End policies.

(** ** An instance, and the theorems at work *)

Abbreviation hookStore := (gmap string EgressGateway).
#[local] Instance hook_api : HookApi hookStore := {
  hkGetGateway n := λ m, (m, match m !! n with Some g => Ret g | None => Err (ErrApi NotFound) end);
  hkListGateways := λ m, (m, Ret (map_to_list m).*2);
  hkGetNamespace _ := mret ∅
}.
#[local] Instance hook_store : HookLaws hookStore.
Proof.
  refine {| hkGateways := λ m : hookStore, m |}; intros; simpl in *; try done.
  - destruct (w !! n) eqn:Hn; simplify_eq; done.
  - by destruct (w !! n).
  - by simplify_eq.
Defined.
#[local] Existing Instance map_order_id.

Definition sampleGateway (name : string) (isDefault : bool) (pool : list string) (eip : string) : EgressGateway :=
  mkGateway (mkMeta name "" ∅ [] false 0)
    (mkGatewaySpec isDefault (mkIppools pool [] eip "")
       (mkNodeSelector "" (Some (mkLabelSelector {["egress" := "true"]} [])))) (g_Status zeroGateway).
Definition sampleCfg : FileConfig := mkFileConfig true false.
Definition sampleCreate (g : EgressGateway) : AdmissionRequest EgressGateway :=
  mkRequest Create (gw_name g) "" (Some g) None.
Definition gwA := sampleGateway "a" true ["10.6.1.1-10.6.1.4"] "10.6.1.2".
Definition gwB := sampleGateway "b" false ["10.6.1.4-10.6.1.9"] "".

(** A gateway whose pool overlaps that of another one is refused. *)
Example overlap_is_denied :
  (EgressGatewayValidate sampleCfg (sampleCreate gwB) ({["a" := gwA]} : hookStore)).2 = Ret (Denied "find duplicate IP").
Proof. vm_compute. reflexivity. Qed.

Lemma admission_keeps_gateways_ok_witness : rtc (admission sampleCfg) ∅ (<["a" := gwA]> ∅) ∧ gateways_ok (<["a" := gwA]> ∅).
Proof.
  assert (Hr : rtc (admission sampleCfg) ∅ (<["a" := gwA]> ∅)).
  { apply rtc_once. change (admission sampleCfg (hkGateways (∅ : hookStore)) (<["a" := gwA]> (hkGateways (∅ : hookStore)))).
    apply (admit_create sampleCfg (∅ : hookStore) ∅ (sampleCreate gwA) gwA "checked");
      [reflexivity..|vm_compute; reflexivity]. }
  split; [exact Hr|]. exact (admission_keeps_gateways_ok sampleCfg _ eq_refl Hr).
Defined.

(** Gateway [a] after an address has been handed out. *)
Definition gwUsed : EgressGateway :=
  set_NodeList gwA [mkEgressIPStatus "n1" [mkEips "10.6.1.3" "" [mkPolicy "p" "ns"]] "Ready"].
Definition gwShrunk := sampleGateway "a" true ["10.6.1.2-10.6.1.3"] "10.6.1.2".
Definition shrink (g : EgressGateway) : AdmissionRequest EgressGateway := mkRequest Update "a" "" (Some g) (Some gwUsed).

Example used_address_cannot_leave_the_pool :
  (EgressGatewayValidate sampleCfg (shrink (sampleGateway "a" true ["10.6.1.1-10.6.1.2"] "10.6.1.2")) ({["a" := gwUsed]} : hookStore)).2
  = Ret (Denied "has been allocated and cannot be deleted").
Proof. vm_compute. reflexivity. Qed.

Lemma update_keeps_allocated_addresses_witness : covers gwShrunk (NodeList gwUsed).
Proof.
  apply (update_keeps_allocated_addresses sampleCfg (shrink gwShrunk) gwShrunk gwUsed ({["a" := gwUsed]} : hookStore)
    {["a" := gwUsed]} "checked"); [reflexivity| |reflexivity..|vm_compute; reflexivity].
  intros k g Hk. change (({["a" := gwUsed]} : hookStore) !! k = Some g) in Hk.
  apply lookup_singleton_Some in Hk as [<- <-]. reflexivity.
Defined.

Definition samplePolicy (gw ip : string) : EgressPolicy :=
  mkEgressPolicy (mkMeta "p" "ns" ∅ [] false 0)
    (mkPolicySpec gw (mkEgressIP ip "" false "rr") (mkAppliedTo None ["10.10.0.0/16"]) ["8.8.8.8/32"] 0) zeroPolicyStatus.

Lemma accepted_policy_ok_witness :
  policy_ok (fieldsOf (samplePolicy "a" "10.6.1.3")) ∧
  create_ok ({["a" := gwA]} : hookStore) (fieldsOf (samplePolicy "a" "10.6.1.3")).
Proof.
  destruct (accepted_policy_ok sampleCfg (KPolicy (mkRequest Create "p" "ns" (Some (samplePolicy "a" "10.6.1.3")) None))
    Create (fieldsOf (samplePolicy "a" "10.6.1.3")) None ({["a" := gwA]} : hookStore) {["a" := gwA]} "checked")
    as (Hok & _ & Hc); [reflexivity|reflexivity|discriminate|vm_compute; reflexivity|].
  split; [exact Hok|]. exact (Hc eq_refl).
Defined.

Definition bareClusterPolicy : EgressClusterPolicy := zeroEgressClusterPolicy.

Lemma gwA_ok : gateways_ok (<["a" := gwA]> ∅).
Proof.
  split.
  - intros k g [[<- <-]|[_ Hk]]%lookup_insert_Some; [reflexivity|by rewrite lookup_empty in Hk].
  - intros k g v [[<- <-]|[_ Hk]]%lookup_insert_Some Hv; [|by rewrite lookup_empty in Hk].
    destruct Hv as [-> | ->]; eexists; vm_compute; reflexivity.
  - intros k g [[<- <-]|[_ Hk]]%lookup_insert_Some; [|by rewrite lookup_empty in Hk].
    intros v [-> | ->] Hne; [vm_compute; reflexivity|by destruct Hne].
  - intros k1 k2 g1 g2 [[<- <-]|[_ Hk]]%lookup_insert_Some [[<- <-]|[_ Hk']]%lookup_insert_Some;
      [done|by rewrite lookup_empty in Hk'|by rewrite lookup_empty in Hk..].
  - intros k1 k2 g1 g2 [[<- <-]|[_ Hk]]%lookup_insert_Some [[<- <-]|[_ Hk']]%lookup_insert_Some;
      [done|by rewrite lookup_empty in Hk'|by rewrite lookup_empty in Hk..].
Qed.

Lemma default_gateway_is_filled_in_witness :
  mutateHookEgressClusterPolicy (mkRequest Create "cp" "" (Some bareClusterPolicy) None) (<["a" := gwA]> ∅ : hookStore) =
    (<["a" := gwA]> ∅, Ret (Patched [mkPatch "add" "/spec/egressGatewayName" (PString "a");
                           mkPatch "add" "/spec/egressIP" (PEgressIP (mkEgressIP "" "" false "default"))])).
Proof.
  apply (default_gateway_is_filled_in (mkRequest Create "cp" "" (Some bareClusterPolicy) None) bareClusterPolicy "a" gwA
    (<["a" := gwA]> ∅ : hookStore) (<["a" := gwA]> ∅) [gwA]); try reflexivity; [|discriminate].
  exact gwA_ok.
Defined.
