(* ===== verification/Triple.v ===== *)
(** * Triples for stateful calls

    Reasoning about programs of the monad [M]: what holds before a call, what
    holds when it returns a value, and what holds when it ends otherwise. *)

From S2P Require Import Prelude GoStd Types ApiServer.
Open Scope nat_scope.

Section triple.
Context {S : Type}.

(** From a state with [P], a value is returned in a state with [Q]; any other
    end is in a state with [E]. *)
Definition tri {A} (P : S → Prop) (c : M S A) (Q : A → S → Prop) (E : S → Prop) : Prop :=
  ∀ s, P s → match (c s).2 with Ret a => Q a (c s).1 | _ => E (c s).1 end.

Lemma tri_bind {A B} P (c : M S A) (k : A → M S B) Q Q' E :
  tri P c Q E → (∀ a, tri (Q a) (k a) Q' E) → tri P (mbind_ c k) Q' E.
Proof.
  intros Hc Hk s Hs. specialize (Hc s Hs). unfold mbind_. destruct (c s) as [s1 [a|e|p|]]; simpl in *; try done.
  by apply (Hk a s1).
Qed.

Lemma tri_attempt {A} P (c : M S A) Q E :
  tri P c Q E → tri P (attempt c) (λ x, match x with inl a => Q a | inr _ => E end) E.
Proof. intros Hc s Hs. specialize (Hc s Hs). unfold attempt. destruct (c s) as [s1 [a|e|p|]]; simpl in *; done. Qed.

Lemma tri_ret {A} (P : S → Prop) (a : A) (Q : A → S → Prop) E : (∀ s, P s → Q a s) → tri P (mret a) Q E.
Proof. intros HQ s Hs. by apply HQ. Qed.

Lemma tri_err {A} (P : S → Prop) e (Q : A → S → Prop) (E : S → Prop) : (∀ s, P s → E s) → tri P (merr e) Q E.
Proof. intros HQ s Hs. by apply HQ. Qed.

Lemma tri_lift {A} (P : S → Prop) (o : outcome A) (Q : A → S → Prop) (E : S → Prop) :
  (∀ s, P s → match o with Ret a => Q a s | _ => E s end) → tri P (lift o) Q E.
Proof. intros HQ s Hs. specialize (HQ s Hs). by destruct o. Qed.

Lemma tri_pre {A} (P P' : S → Prop) (c : M S A) Q E : (∀ s, P s → P' s) → tri P' c Q E → tri P c Q E.
Proof. intros HP Hc s Hs. by apply Hc, HP. Qed.

Lemma tri_post {A} P (c : M S A) (Q Q' : A → S → Prop) E E' :
  tri P c Q E → (∀ a s, Q a s → Q' a s) → (∀ s, E s → E' s) → tri P c Q' E'.
Proof. intros Hc HQ HE s Hs. specialize (Hc s Hs). destruct (c s).2; auto. Qed.

(** A fact about no state. *)
Lemma tri_pure {A} (F : Prop) P (c : M S A) (Q : A → S → Prop) E :
  (∀ s, P s → F) → (F → tri P c Q E) → tri P c (λ a s, Q a s ∧ F) E.
Proof.
  intros HF Hc s Hs. pose proof (HF s Hs) as Hf. specialize (Hc Hf s Hs). by destruct (c s).2.
Qed.

(** A loop: [I] holds of the elements that are done. *)
Lemma tri_foreach_pos {A B} (I : list A → B → S → Prop) (f : A → B → M S B) l b E :
  (∀ done x rest b, l = done ++ x :: rest → tri (I done b) (f x b) (I (done ++ [x])) E) → tri (I [] b) (mforeach f l b) (I l) E.
Proof.
  intros Hf. assert (∀ rest done b, l = done ++ rest → tri (I done b) (mforeach f rest b) (I l) E) as H; [|by apply (H l [])].
  induction rest as [|x rest IH]; intros done b' Hl; cbn [mforeach].
  - apply tri_ret. intros s Hs. by rewrite Hl, app_nil_r.
  - eapply tri_bind; [by eapply Hf|]. intros b1. apply IH. by rewrite Hl, <- app_assoc.
Qed.
Lemma tri_foreach {A B} (I : list A → B → S → Prop) (f : A → B → M S B) l b E :
  (∀ done x b, x ∈ l → tri (I done b) (f x b) (I (done ++ [x])) E) → tri (I [] b) (mforeach f l b) (I l) E.
Proof. intros Hf. apply tri_foreach_pos. intros done x rest b' ->. apply Hf. apply elem_of_app. right. apply list_elem_of_here. Qed.

(** A loop that keeps a property. *)
Lemma tri_foreach_inv {A B} (P : S → Prop) (f : A → B → M S B) l b E :
  (∀ x b, x ∈ l → tri P (f x b) (λ _, P) E) → tri P (mforeach f l b) (λ _, P) E.
Proof. intros Hf. apply (tri_foreach (λ _ _, P)). auto. Qed.
End triple.

(** A fact that the precondition carries. *)
Lemma tri_extract {S A} (F : Prop) P (c : M S A) Q E : (F → tri P c Q E) → tri (λ s, P s ∧ F) c Q E.
Proof. intros H s [Hs HF]. by apply H. Qed.
(** State by state. *)
Lemma tri_here {S A} P (c : M S A) Q E : (∀ s, P s → tri (λ s', s' = s) c Q E) → tri P c Q E.
Proof. intros H s Hs. by apply (H s Hs). Qed.

(** ** Invariants *)

(** [P] is kept, however the call ends. *)
Definition keepsInv {S A} (P : S → Prop) (c : M S A) : Prop := tri P c (λ _, P) P.

Section invariants.
Context {S : Type} (P : S → Prop).
Lemma inv_ret {A} (a : A) : keepsInv P (mret a).
Proof. by apply tri_ret. Qed.
Lemma inv_err {A} e : keepsInv P (merr (A := A) e).
Proof. by apply tri_err. Qed.
Lemma inv_lift {A} (c : outcome A) : keepsInv P (lift c).
Proof. apply tri_lift. intros s Hs. by destruct c. Qed.
Lemma inv_bind {A B} (c : M S A) (k : A → M S B) : keepsInv P c → (∀ a, keepsInv P (k a)) → keepsInv P (mbind_ c k).
Proof. intros Hc Hk. by eapply tri_bind. Qed.
Lemma inv_attempt {A} (c : M S A) : keepsInv P c → keepsInv P (attempt c).
Proof. intros H. eapply tri_post; [by apply tri_attempt|by intros []|done]. Qed.
Lemma inv_foreach {A B} (f : A → B → M S B) l b : (∀ x b, x ∈ l → keepsInv P (f x b)) → keepsInv P (mforeach f l b).
Proof. apply tri_foreach_inv. Qed.
End invariants.
