(* ===== verification/StateM.v ===== *)
(** * Components with a state of their own

    A component that keeps a Go struct next to the outside world: its methods are
    programs over pairs of the struct and the world. *)

From S2P Require Import Prelude GoStd Types ApiServer Triple.
Open Scope nat_scope.

(** One call after another, where the value of the first is not used. *)
Lemma tri_seq {S A B} P (c : M S A) (k : M S B) (Q : S → Prop) Q' E : tri P c (λ _, Q) E → tri Q k Q' E → tri P (mbind_ c (λ _, k)) Q' E.
Proof. intros Hc Hk. by eapply tri_bind. Qed.

Lemma tri_assoc {S A B C} P (c : M S A) (f : A → M S B) (g : B → M S C) Q E :
  tri P (mbind_ (mbind_ c f) g) Q E → tri P (mbind_ c (λ x, mbind_ (f x) g)) Q E.
Proof. intros H s Hs. specialize (H s Hs). unfold mbind_ in *. by destruct (c s) as [s' [a|e|p|]]. Qed.

Section ops.
Context {S W : Type}.

(** A call of the outside world, a look at the struct, an assignment. *)
Definition scall {A} (c : M W A) : M (S * W) A := λ s, let '(w', o) := c s.2 in ((s.1, w'), o).
Definition sget : M (S * W) S := λ s, (s, Ret s.1).
Definition smod (f : S → S) : M (S * W) unit := λ s, ((f s.1, s.2), Ret tt).
(** A call whose error is only logged. *)
Definition logged {A} (c : M (S * W) A) : M (S * W) unit := let* _ := attempt c in mret tt.

Abbreviation Props := (S * W → Prop).
Lemma tri_scall {A} (P : Props) (c : M W A) (Q : A → Props) (E : Props) :
  (∀ s w, P (s, w) → match (c w).2 with Ret a => Q a (s, (c w).1) | _ => E (s, (c w).1) end) → tri P (scall c) Q E.
Proof. intros H [s w] HP. specialize (H s w HP). unfold scall. cbn [fst snd]. by destruct (c w) as [w' [a|e|p|]]. Qed.
Lemma tri_sget {A} (P : Props) (k : S → M (S * W) A) Q E : (∀ s, tri (λ x, P x ∧ x.1 = s) (k s) Q E) → tri P (mbind_ sget k) Q E.
Proof. intros H [s w] HP. by apply (H s (s, w)). Qed.
Lemma tri_smod (P : Props) f (Q : unit → Props) E : (∀ s w, P (s, w) → Q tt (f s, w)) → tri P (smod f) Q E.
Proof. intros H [s w] HP. by apply H. Qed.
Lemma tri_logged {A} (P : Props) (c : M (S * W) A) (Q E : Props) : tri P c (λ _, Q) Q → (∀ s, Q s → E s) → tri P (logged c) (λ _, Q) E.
Proof.
  intros Hc HE. eapply (tri_bind _ _ _ (λ _, Q)); [|intros ?; by apply tri_ret]. eapply tri_post; [apply tri_attempt, Hc|by intros []|done].
Qed.

Context (P : Props).
Lemma inv_scall {A} (c : M W A) : (∀ s w, P (s, w) → P (s, (c w).1)) → keepsInv P (scall c).
Proof. intros H. apply tri_scall. intros s w Hs. specialize (H s w Hs). by destruct (c w).2. Qed.
Lemma inv_smod f : (∀ s w, P (s, w) → P (f s, w)) → keepsInv P (smod f).
Proof. intros H. by apply tri_smod. Qed.
Lemma inv_sget {A} (k : S → M (S * W) A) : (∀ s, keepsInv P (k s)) → keepsInv P (mbind_ sget k).
Proof. intros H. apply tri_sget. intros s. eapply tri_pre; [|apply H]. by intros x [? _]. Qed.
Lemma inv_logged {A} (c : M (S * W) A) : keepsInv P c → keepsInv P (logged c).
Proof. intros H. by apply tri_logged. Qed.
End ops.

(** [time.Now], in nanoseconds. *)
Class Clock (W : Type) := Now : M W Z.
