(* ===== verification/Sha1.v ===== *)
(** * SHA-1 (Go's [crypto/sha1], which names the MAC address of a tunnel)

    The hash of a message of bytes, with 32-bit words as integers. *)

From S2P Require Import Prelude.
Open Scope Z_scope.

Definition word (x : Z) : Z := x mod 2 ^ 32.
Definition rotl (k x : Z) : Z := Z.lor (word (Z.shiftl x k)) (Z.shiftr x (32 - k)).

(** Big-endian words and bytes. *)
Definition wordOfBytes (a b c d : Z) : Z := ((a * 256 + b) * 256 + c) * 256 + d.
Definition bytesOfWord (w : Z) : list Z := [w / 2 ^ 24 mod 256; w / 2 ^ 16 mod 256; w / 2 ^ 8 mod 256; w mod 256].
Fixpoint wordsOf (l : list Z) : list Z :=
  match l with
  | a :: b :: c :: d :: l' => wordOfBytes a b c d :: wordsOf l'
  | _ => []
  end.

(** The message, one bit, zeros, and the length in bits: a multiple of 64
    bytes. *)
Definition pad (m : list Z) : list Z :=
  let n := Z.of_nat (length m) in
  let bits := 8 * n in
  m ++ [128] ++ replicate (Z.to_nat ((55 - n) mod 64)) 0 ++
    bytesOfWord (bits / 2 ^ 32 mod 2 ^ 32) ++ bytesOfWord (bits mod 2 ^ 32).

(** The message schedule, last word first. *)
Fixpoint schedule (k : nat) (ws : list Z) : list Z :=
  match k with
  | O => ws
  | S k' =>
      let w i := nth i ws 0 in
      schedule k' (rotl 1 (Z.lxor (Z.lxor (w 2%nat) (w 7%nat)) (Z.lxor (w 13%nat) (w 15%nat))) :: ws)
  end.

Definition sha_state := (Z * Z * Z * Z * Z)%type.

Definition sha_round (t : nat) (w : Z) (s : sha_state) : sha_state :=
  let '(a, b, c, d, e) := s in
  let '(f, k) :=
    if (t <? 20)%nat then (Z.lor (Z.land b c) (Z.land (Z.lxor b 0xFFFFFFFF) d), 0x5A827999)
    else if (t <? 40)%nat then (Z.lxor b (Z.lxor c d), 0x6ED9EBA1)
    else if (t <? 60)%nat then (Z.lor (Z.land b c) (Z.lor (Z.land b d) (Z.land c d)), 0x8F1BBCDC)
    else (Z.lxor b (Z.lxor c d), 0xCA62C1D6) in
  (word (rotl 5 a + f + e + k + w), a, rotl 30 b, c, d).

Fixpoint sha_rounds (t : nat) (ws : list Z) (s : sha_state) : sha_state :=
  match ws with
  | [] => s
  | w :: ws' => sha_rounds (S t) ws' (sha_round t w s)
  end.

Definition sha_block (s : sha_state) (block : list Z) : sha_state :=
  let '(a, b, c, d, e) := sha_rounds 0 (reverse (schedule 64 (reverse block))) s in
  let '(h0, h1, h2, h3, h4) := s in
  (word (h0 + a), word (h1 + b), word (h2 + c), word (h3 + d), word (h4 + e)).

Fixpoint sha_blocks (n : nat) (ws : list Z) (s : sha_state) : sha_state :=
  match n with
  | O => s
  | S n' => sha_blocks n' (drop 16 ws) (sha_block s (take 16 ws))
  end.

Definition sha1 (m : list Z) : list Z :=
  let ws := wordsOf (pad m) in
  let '(h0, h1, h2, h3, h4) :=
    sha_blocks (length ws / 16) ws (0x67452301, 0xEFCDAB89, 0x98BADCFE, 0x10325476, 0xC3D2E1F0) in
  bytesOfWord h0 ++ bytesOfWord h1 ++ bytesOfWord h2 ++ bytesOfWord h3 ++ bytesOfWord h4.

Definition bytesOf (s : string) : list Z := (λ c, Z.of_N (N_of_ascii c)) <$> chars s.

(** The test vectors of FIPS 180. *)
Example sha1_abc : sha1 (bytesOf "abc") =
  [0xa9; 0x99; 0x3e; 0x36; 0x47; 0x06; 0x81; 0x6a; 0xba; 0x3e; 0x25; 0x71; 0x78; 0x50; 0xc2; 0x6c; 0x9c; 0xd0; 0xd8; 0x9d].
Proof. vm_compute. reflexivity. Qed.
Example sha1_two_blocks : sha1 (bytesOf "abcdbcdecdefdefgefghfghighijhijkijkljklmklmnlmnomnopnopq") =
  [0x84; 0x98; 0x3e; 0x44; 0x1c; 0x3b; 0xd2; 0x6e; 0xba; 0xae; 0x4a; 0xa1; 0xf9; 0x51; 0x29; 0xe5; 0xe5; 0x46; 0x70; 0xf1].
Proof. vm_compute. reflexivity. Qed.

Lemma sha1_bytes m : length (sha1 m) = 20%nat ∧ Forall (λ b, 0 <= b < 256) (sha1 m).
Proof.
  unfold sha1. destruct (sha_blocks _ _ _) as [[[[h0 h1] h2] h3] h4]. split; [done|].
  repeat apply Forall_app_2; unfold bytesOfWord; repeat (apply Forall_cons_2; [apply Z.mod_pos_bound; lia|]); apply Forall_nil_2.
Qed.
