(* ===== verification/Sha224.v ===== *)
(** * SHA-224 and URL-safe base64 (Go's [crypto/sha256] and [encoding/base64])

    The hashes that mark the rules of the agent: [sha256.New224] over words of
    32 bits, printed with [base64.RawURLEncoding]. *)

From S2P Require Import Prelude Sha1.
Open Scope Z_scope.

Definition rotr (k x : Z) : Z := Z.lor (Z.shiftr x k) (word (Z.shiftl x (32 - k))).

(** The constants of the rounds: the first 32 bits of the fractional parts of the
    cube roots of the first 64 primes. *)
Fixpoint cubeRoot (bits : nat) (n root : Z) : Z :=
  match bits with
  | O => root
  | S i => let next := root + 2 ^ Z.of_nat i in cubeRoot i n (if next ^ 3 <=? n then next else root)
  end.
Definition isPrime (n : nat) : bool := forallb (λ d, negb (n mod d =? 0)%nat) (seq 2 (n - 2)).
Definition firstPrimes : list nat := Eval vm_compute in take 64 (List.filter isPrime (seq 2 400)).
Definition sha256_k : list Z :=
  Eval vm_compute in (λ p, word (cubeRoot 40 (Z.of_nat p * 2 ^ 96) 0)) <$> firstPrimes.

Definition sigma0 (x : Z) : Z := Z.lxor (rotr 7 x) (Z.lxor (rotr 18 x) (Z.shiftr x 3)).
Definition sigma1 (x : Z) : Z := Z.lxor (rotr 17 x) (Z.lxor (rotr 19 x) (Z.shiftr x 10)).

(** The message schedule, last word first. *)
Fixpoint schedule256 (k : nat) (ws : list Z) : list Z :=
  match k with
  | O => ws
  | S k' =>
      let w i := nth i ws 0 in
      schedule256 k' (word (sigma1 (w 1%nat) + w 6%nat + sigma0 (w 14%nat) + w 15%nat) :: ws)
  end.

Definition sha256_state := (Z * Z * Z * Z * Z * Z * Z * Z)%type.

Definition sha256_round (s : sha256_state) (kw : Z * Z) : sha256_state :=
  let '(a, b, c, d, e, f, g, h) := s in
  let '(k, w) := kw in
  let s1 := Z.lxor (rotr 6 e) (Z.lxor (rotr 11 e) (rotr 25 e)) in
  let ch := Z.lxor (Z.land e f) (Z.land (Z.lxor e 0xFFFFFFFF) g) in
  let t1 := word (h + s1 + ch + k + w) in
  let s0 := Z.lxor (rotr 2 a) (Z.lxor (rotr 13 a) (rotr 22 a)) in
  let maj := Z.lxor (Z.land a b) (Z.lxor (Z.land a c) (Z.land b c)) in
  (word (t1 + s0 + maj), a, b, c, word (d + t1), e, f, g).

Definition sha256_block (s : sha256_state) (block : list Z) : sha256_state :=
  let '(a, b, c, d, e, f, g, h) := foldl sha256_round s (zip sha256_k (reverse (schedule256 48 (reverse block)))) in
  let '(a0, b0, c0, d0, e0, f0, g0, h0) := s in
  (word (a0 + a), word (b0 + b), word (c0 + c), word (d0 + d), word (e0 + e), word (f0 + f), word (g0 + g), word (h0 + h)).

Fixpoint sha256_blocks (n : nat) (ws : list Z) (s : sha256_state) : sha256_state :=
  match n with
  | O => s
  | S n' => sha256_blocks n' (drop 16 ws) (sha256_block s (take 16 ws))
  end.

Definition sha224 (m : list Z) : list Z :=
  let ws := wordsOf (pad m) in
  let '(a, b, c, d, e, f, g, _) :=
    sha256_blocks (length ws / 16) ws
      (0xc1059ed8, 0x367cd507, 0x3070dd17, 0xf70e5939, 0xffc00b31, 0x68581511, 0x64f98fa7, 0xbefa4fa4) in
  [a; b; c; d; e; f; g] ≫= bytesOfWord.

Example sha224_abc : sha224 (bytesOf "abc") =
  [0x23; 0x09; 0x7d; 0x22; 0x34; 0x05; 0xd8; 0x22; 0x86; 0x42; 0xa4; 0x77; 0xbd; 0xa2;
   0x55; 0xb3; 0x2a; 0xad; 0xbc; 0xe4; 0xbd; 0xa0; 0xb3; 0xf7; 0xe3; 0x6c; 0x9d; 0xa7].
Proof. vm_compute. reflexivity. Qed.

(** ** Base64 *)

Definition alphabet64 : list ascii := chars "ABCDEFGHIJKLMNOPQRSTUVWXYZabcdefghijklmnopqrstuvwxyz0123456789-_".
Definition char64 (v : Z) : ascii := default "A"%char (alphabet64 !! Z.to_nat (v mod 64)).

(** Three bytes give four digits; without padding one and two bytes give two
    and three. *)
Fixpoint base64 (l : list Z) : list ascii :=
  match l with
  | a :: b :: c :: l' =>
      [char64 (a / 4); char64 (a * 16 + b / 16); char64 (b * 4 + c / 64); char64 c] ++ base64 l'
  | [a; b] => [char64 (a / 4); char64 (a * 16 + b / 16); char64 (b * 4)]
  | [a] => [char64 (a / 4); char64 (a * 16)]
  | [] => []
  end.

Example base64_vector : unchars (base64 (bytesOf "any carnal pleas?")) = "YW55IGNhcm5hbCBwbGVhcz8".
Proof. reflexivity. Qed.

(** The characters that the comments of rules may have in place of a hash. *)
Definition hashChar (c : ascii) : bool :=
  let n := Z.of_N (N_of_ascii c) in
  ((97 <=? n) && (n <=? 122)) || ((65 <=? n) && (n <=? 90)) || ((48 <=? n) && (n <=? 57)) || (n =? 95) || (n =? 45).

Lemma char64_hashChar v : hashChar (char64 v) = true.
Proof.
  unfold char64. destruct (alphabet64 !! _) as [c|] eqn:E; [|reflexivity]. simpl.
  apply list_elem_of_lookup_2 in E. revert c E. apply Forall_forall. apply (bool_decide_unpack _). vm_compute. exact I.
Qed.

Lemma base64_hashChars l : Forall (λ c, hashChar c = true) (base64 l).
Proof.
  remember (length l) as n eqn:Hn. revert l Hn. induction n as [n IH] using lt_wf_ind. intros l ->.
  destruct l as [|a [|b [|c l]]]; simpl; repeat (apply Forall_cons_2; [apply char64_hashChar|]); try apply Forall_nil_2.
  eapply IH; [|reflexivity]. simpl. lia.
Qed.

Lemma length_base64 a b c l : length (base64 (a :: b :: c :: l)) = (4 + length (base64 l))%nat.
Proof. reflexivity. Qed.

Lemma length_sha224 m : length (sha224 m) = 28%nat.
Proof. unfold sha224. by destruct (sha256_blocks _ _ _) as [[[[[[[a b] c] d] e] f] g] h]. Qed.

Lemma base64_28 l : length l = 28%nat → length (base64 l) = 38%nat.
Proof. intros Hl. do 28 (destruct l as [|? l]; [discriminate|]). destruct l; [reflexivity|discriminate]. Qed.
