(* ===== verification/Tunnel.v ===== *)
(** * The tunnel controller ([pkg/controller/tunnel/egress_tunnel.go])

    One EgressTunnel per node.  The controller gives each a packet mark and the
    addresses of its end of the vxlan tunnel, keeps its phase, and marks it
    timed out when its agent stops reporting.  The allocators are in memory and
    are rebuilt from the stored tunnels at start; they are any pools that meet
    [PoolLaws].

    The state of the controller is passed beside the state of the cluster.  The
    deferred function of a handler runs its rollbacks when the variable [err]
    of the outer scope is not nil, so every return of the model says what that
    variable holds ([exit]). *)

From S2P Require Import Prelude GoStd Allocator MarkAllocator Pool GoNet IPAllocator Types ApiServer Utils Sha1.
Open Scope nat_scope.

(** ** Nodes and calls *)

Record NodeCondition := mkCondition { nc_Type : string; nc_Status : string }.
Record KNode := mkKNode { kn_Meta : ObjectMeta; kn_Conditions : list NodeCondition }.

Class TunnelApi (W : Type) := {
  tnGet : string → M W EgressTunnel;
  tnList : M W (list EgressTunnel);
  tnCreate : EgressTunnel → M W unit;
  tnUpdate : EgressTunnel → M W unit;
  tnUpdateStatus : EgressTunnel → M W unit;
  tnDelete : EgressTunnel → M W unit;
  tnGetNode : string → M W KNode;
  (** [time.Now], in nanoseconds. *)
  tnNow : M W Z
}.

(** What the controller reads of [GatewayFailover] and of the address families; the timeout in seconds. *)
Record TunnelConfig := mkTunnelConfig { tc_Failover : bool; tc_EipEvictionTimeout : Z }.

Definition egressTunnelFinalizers : string := "egressgateway.spidernet.io/egresstunnel".

(** ** Fields of a tunnel *)

Definition set_tunnelStatus (t : EgressTunnel) (s : EgressTunnelStatus) : EgressTunnel := mkEgressTunnel (t_Meta t) s.
Definition set_Phase (t : EgressTunnel) (p : EgressTunnelPhase) : EgressTunnel :=
  set_tunnelStatus t (mkTunnelStatus (ts_Tunnel (t_Status t)) p (ts_Mark (t_Status t)) (ts_LastHeartbeatTime (t_Status t))).
Definition set_Mark (t : EgressTunnel) (m : string) : EgressTunnel :=
  set_tunnelStatus t (mkTunnelStatus (ts_Tunnel (t_Status t)) (ts_Phase (t_Status t)) m (ts_LastHeartbeatTime (t_Status t))).
Definition set_Tunnel (t : EgressTunnel) (u : Tunnel) : EgressTunnel :=
  set_tunnelStatus t (mkTunnelStatus u (ts_Phase (t_Status t)) (ts_Mark (t_Status t)) (ts_LastHeartbeatTime (t_Status t))).
Definition set_IPv4 (t : EgressTunnel) (s : string) : EgressTunnel :=
  let u := ts_Tunnel (t_Status t) in set_Tunnel t (mkTunnel s (tun_IPv6 u) (tun_MAC u) (tun_Parent u)).
Definition set_IPv6 (t : EgressTunnel) (s : string) : EgressTunnel :=
  let u := ts_Tunnel (t_Status t) in set_Tunnel t (mkTunnel (tun_IPv4 u) s (tun_MAC u) (tun_Parent u)).
Definition set_MAC (t : EgressTunnel) (s : string) : EgressTunnel :=
  let u := ts_Tunnel (t_Status t) in set_Tunnel t (mkTunnel (tun_IPv4 u) (tun_IPv6 u) s (tun_Parent u)).

Abbreviation t_Mark t := (ts_Mark (t_Status t)).
Abbreviation t_IPv4 t := (tun_IPv4 (ts_Tunnel (t_Status t))).
Abbreviation t_IPv6 t := (tun_IPv6 (ts_Tunnel (t_Status t))).
Abbreviation t_MAC t := (tun_MAC (ts_Tunnel (t_Status t))).

(** [net.HardwareAddr.String]. *)
Definition macString (hw : list Z) : string := unchars (joinChar ":"%char (hex2 <$> hw)).

Definition generateMACAddress (nodeName : string) : string :=
  macString (bytesOf "f" ++ take 5 (sha1 (bytesOf (nodeName +:+ "egress")))).

(** ** The controller *)

Record egReconciler (MA IA : Type) := mkEg {
  r_mark : MA;
  r_allocatorV4 : option IA;
  r_allocatorV6 : option IA;
  r_once : bool
}.
Arguments mkEg {MA IA} _ _ _ _.
Arguments r_mark {MA IA} _.
Arguments r_allocatorV4 {MA IA} _.
Arguments r_allocatorV6 {MA IA} _.
Arguments r_once {MA IA} _.

Section tunnel.
Context {W MA IA : Type} `{TA : !TunnelApi W} `{PM : !PoolOps MA string} `{PI : !PoolOps IA IP}.
Abbreviation R := (egReconciler MA IA).
Abbreviation TM := (M (R * W)).

Definition with_mark (r : R) (m : MA) : R := mkEg m (r_allocatorV4 r) (r_allocatorV6 r) (r_once r).
Definition with_V4 (r : R) (a : IA) : R := mkEg (r_mark r) (Some a) (r_allocatorV6 r) (r_once r).
Definition with_V6 (r : R) (a : IA) : R := mkEg (r_mark r) (r_allocatorV4 r) (Some a) (r_once r).

Definition api {A} (c : M W A) : TM A := λ s, let '(w', o) := c s.2 in ((s.1, w'), o).
(** A call of an allocator: an error leaves it as it is. *)
Definition onMark {B} (f : MA → outcome (B * MA)) : TM B := λ s,
  match f (r_mark s.1) with
  | Ret (b, m) => ((with_mark s.1 m, s.2), Ret b)
  | Err e => (s, Err e) | Panic p => (s, Panic p) | Timeout => (s, Timeout)
  end.
Definition onV4 {B} (f : IA → outcome (B * IA)) (a : IA) : TM B := λ s,
  match f a with
  | Ret (b, a') => ((with_V4 s.1 a', s.2), Ret b)
  | Err e => (s, Err e) | Panic p => (s, Panic p) | Timeout => (s, Timeout)
  end.
Definition onV6 {B} (f : IA → outcome (B * IA)) (a : IA) : TM B := λ s,
  match f a with
  | Ret (b, a') => ((with_V6 s.1 a', s.2), Ret b)
  | Err e => (s, Err e) | Panic p => (s, Panic p) | Timeout => (s, Timeout)
  end.
Definition noValue {A} (c : outcome A) : outcome (unit * A) := let! a := c in Ret (tt, a).
Definition getR : TM R := λ s, (s, Ret s.1).

(** A rollback ignores the error of its call. *)
Definition tryMark (f : MA → outcome MA) (r : R) : R := match f (r_mark r) with Ret m => with_mark r m | _ => r end.
Definition tryV4 (f : IA → outcome IA) (r : R) : R :=
  match r_allocatorV4 r with
  | Some a => match f a with Ret a' => with_V4 r a' | _ => r end
  | None => r
  end.
Definition tryV6 (f : IA → outcome IA) (r : R) : R :=
  match r_allocatorV6 r with
  | Some a => match f a with Ret a' => with_V6 r a' | _ => r end
  | None => r
  end.

(** Returning [res]: the deferred function runs the rollbacks, in the order in
    which they were added, if the outer [err] is not nil. *)
Definition exit {A} (outer : option error) (rollback : list (R → R)) (res : outcome A) : TM A := λ s,
  ((match outer with Some _ => foldl (λ r f, f r) s.1 rollback | None => s.1 end, s.2), res).

(** ** Writing the status *)

(** The phase that [updateEgressTunnel] writes. *)
Definition phaseOf (hasV4 hasV6 : bool) (t : EgressTunnel) : EgressTunnelPhase :=
  let p := ts_Phase (t_Status t) in
  let p := if decide (p = "") then EgressTunnelInit else p in
  let p := if decide (par_Name (tun_Parent (ts_Tunnel (t_Status t))) = "") then EgressTunnelInit else p in
  let p := if decide (t_Mark t = "") then EgressTunnelPending else p in
  let p := if bool_decide (t_IPv4 t = "") && hasV4 then EgressTunnelPending else p in
  let p := if bool_decide (t_IPv6 t = "") && hasV6 then EgressTunnelPending else p in
  if decide (t_MAC t = "") then EgressTunnelPending else p.

Definition isSome {A} (o : option A) : bool := match o with Some _ => true | None => false end.

Definition updateEgressTunnel (node : EgressTunnel) : TM unit :=
  let* r := getR in
  let node := set_Phase node (phaseOf (isSome (r_allocatorV4 r)) (isSome (r_allocatorV6 r)) node) in
  let* res := attempt (api (tnUpdateStatus node)) in
  match res with
  | inr _ => merr (ErrNew "rebuild failed to update egress tunnel")
  | inl _ => mret tt
  end.

(** ** Allocating *)

(** The address and mark fields that are empty are filled.  The errors of the
    IPv4 allocation and of the update are those of an inner [err]; an error of
    the IPv6 allocation is logged and the nil address printed. *)
Definition keepEgressTunnel (node : EgressTunnel) : TM unit :=
  let newNode := if decide (t_MAC node = "") then set_MAC node (generateMACAddress (om_Name (t_Meta node))) else node in
  let* res := (if decide (t_Mark newNode = "") then
    let* res := attempt (onMark pAllocateNext) in
    match res with
    | inr err => mret (inr err)
    | inl m => mret (inl (set_Mark newNode m, true, [tryMark (pRelease m)]))
    end
    else mret (inl (newNode, false, []))) in
  match res with
  | inr err => exit (Some err) [] (Err (ErrNew "can't allocate next mark"))
  | inl (newNode, needUpdate, rollback) =>
      let* r := getR in
      let* res := (match r_allocatorV4 r with
        | Some a =>
            if decide (t_IPv4 newNode = "") then
              let* res := attempt (onV4 pAllocateNext a) in
              match res with
              | inr err => mret (inr err)
              | inl ip => mret (inl (set_IPv4 newNode (IPString ip), true, rollback ++ [tryV4 (pRelease ip)]))
              end
            else mret (inl (newNode, needUpdate, rollback))
        | None => mret (inl (newNode, needUpdate, rollback))
        end) in
      match res with
      | inr _ => exit None rollback (Err (ErrNew "can't allocate next ipv4"))
      | inl (newNode, needUpdate, rollback) =>
          let* r := getR in
          let* (newNode, needUpdate, rollback) := (match r_allocatorV6 r with
            | Some a =>
                if decide (t_IPv6 newNode = "") then
                  let* res := attempt (onV6 pAllocateNext a) in
                  let ip := match res with inl ip => ip | inr _ => [] end in
                  mret (set_IPv6 newNode (IPString ip), true, rollback ++ [tryV6 (pRelease ip)])
                else mret (newNode, needUpdate, rollback)
            | None => mret (newNode, needUpdate, rollback)
            end) in
          if needUpdate : bool then
            let* res := attempt (updateEgressTunnel newNode) in
            match res with
            | inr _ => exit None rollback (Err (ErrNew "rebuild failed to update egress tunnel"))
            | inl _ => exit None rollback (Ret tt)
            end
          else exit None rollback (Ret tt)
      end
  end.

(** ** Releasing *)

(** The release of one address: nothing is released for a text that is not an
    address of the family, but the rollback is added. *)
Definition releaseEgressTunnel (node : EgressTunnel) (commit : TM unit) : TM unit :=
  let* res := attempt (if decide (t_Mark node ≠ "") then onMark (λ m, noValue (pRelease (t_Mark node) m)) else mret tt) in
  match res with
  | inr _ => exit None [] (Err (ErrNew "failed to release egress tunnel mark"))
  | inl _ =>
      let rollback := if decide (t_Mark node ≠ "") then [tryMark (pAllocate (t_Mark node))] else [] in
      let* r := getR in
      let ip4 := ParseIP (t_IPv4 node) in
      let* res := attempt (match r_allocatorV4 r with
        | Some a => if decide (t_IPv4 node ≠ "" ∧ To4 ip4 ≠ []) then onV4 (λ a, noValue (pRelease (To4 ip4) a)) a else mret tt
        | None => mret tt
        end) in
      match res with
      | inr _ => exit None rollback (Err (ErrNew "failed to release egress tunnel tunnel ipv4"))
      | inl _ =>
          let rollback := if bool_decide (t_IPv4 node ≠ "") && isSome (r_allocatorV4 r)
                          then rollback ++ [tryV4 (pAllocate ip4)] else rollback in
          let ip6 := ParseIP (t_IPv6 node) in
          let* res := attempt (match r_allocatorV6 r with
            | Some a => if decide (t_IPv6 node ≠ "" ∧ To16 ip6 ≠ []) then onV6 (λ a, noValue (pRelease (To16 ip6) a)) a else mret tt
            | None => mret tt
            end) in
          match res with
          | inr _ => exit None rollback (Err (ErrNew "failed to release egress tunnel tunnel ipv6"))
          | inl _ =>
              let rollback := if bool_decide (t_IPv6 node ≠ "") && isSome (r_allocatorV6 r)
                              then rollback ++ [tryV6 (pAllocate ip6)] else rollback in
              let* res := attempt commit in
              match res with
              | inr err => exit None rollback (Err err)
              | inl _ => exit None rollback (Ret tt)
              end
          end
      end
  end.

Definition deleteEgressTunnel (node : EgressTunnel) : TM unit := releaseEgressTunnel node (api (tnDelete node)).

Definition createEgressTunnel (name : string) : TM unit :=
  let t := mkEgressTunnel (mkMeta name "" ∅ [egressTunnelFinalizers] false 0) (t_Status zeroTunnel) in
  let* res := attempt (api (tnCreate t)) in
  match res with
  | inr _ => merr (ErrNew "failed to create egress tunnel")
  | inl _ => mret tt
  end.

(** ** Rebuilding the allocators *)

(** A mark that cannot be taken empties the MAC field. *)
Definition rebuildMark (newNode : EgressTunnel) : TM (EgressTunnel * bool * list (R → R)) :=
  if decide (t_Mark newNode ≠ "") then
    let* res := attempt (onMark (λ m, noValue (pAllocate (t_Mark newNode) m))) in
    match res with
    | inr _ => mret (set_MAC newNode "", true, [])
    | inl _ => mret (newNode, false, [tryMark (pRelease (t_Mark newNode))])
    end
  else mret (newNode, false, []).

Definition rebuildV4 (newNode : EgressTunnel) (needUpdate : bool) (rollback : list (R → R))
    : TM (EgressTunnel * bool * list (R → R)) :=
  let* r := getR in
  if decide (t_IPv4 newNode ≠ "") then
    match r_allocatorV4 r with
    | Some a =>
        let ip := ParseIP (t_IPv4 newNode) in
        if decide (To4 ip ≠ []) then
          let* res := attempt (onV4 (λ a, noValue (pAllocate (To4 ip) a)) a) in
          match res with
          | inr _ => mret (set_IPv4 newNode "", true, rollback)
          | inl _ => mret (newNode, needUpdate, rollback ++ [tryV4 (pRelease ip)])
          end
        else mret (newNode, needUpdate, rollback)
    | None => mret (set_IPv4 newNode "", true, rollback)
    end
  else mret (newNode, needUpdate, rollback).

(** The rollback belongs to the branch of the other errors. *)
Definition rebuildV6 (newNode : EgressTunnel) (needUpdate : bool) (rollback : list (R → R))
    : TM (EgressTunnel * bool * list (R → R)) :=
  let* r := getR in
  if decide (t_IPv6 newNode ≠ "") then
    match r_allocatorV6 r with
    | Some a =>
        let ip := ParseIP (t_IPv6 newNode) in
        if decide (To16 ip ≠ []) then
          let* res := attempt (onV6 (λ a, noValue (pAllocate (To16 ip) a)) a) in
          match res with
          | inr err =>
              if decide (err = ErrIPAllocated) then mret (set_IPv6 newNode "", true, rollback)
              else mret (newNode, needUpdate, rollback ++ [tryV6 (pRelease ip)])
          | inl _ => mret (newNode, needUpdate, rollback)
          end
        else mret (newNode, needUpdate, rollback)
    | None => mret (set_IPv6 newNode "", true, rollback)
    end
  else mret (newNode, needUpdate, rollback).

Definition reBuildCache (node : EgressTunnel) : TM unit :=
  let* (newNode, needUpdate, rollback) := rebuildMark node in
  let* (newNode, needUpdate, rollback) := rebuildV4 newNode needUpdate rollback in
  let* (newNode, needUpdate, rollback) := rebuildV6 newNode needUpdate rollback in
  if needUpdate : bool then
    let* res := attempt (updateEgressTunnel newNode) in
    match res with
    | inr _ => exit None rollback (Err (ErrNew "rebuild failed to update egress tunnel"))
    | inl _ => exit None rollback (Ret tt)
    end
  else exit None rollback (Ret tt).

(** A loop that tries again until it succeeds, with fuel. *)
Fixpoint retry (fuel : nat) (c : TM unit) : TM unit :=
  match fuel with
  | O => lift Timeout
  | S fuel' =>
      let* res := attempt c in
      match res with
      | inr _ => retry fuel' c
      | inl _ => mret tt
      end
  end.

Definition initEgressTunnel (fuel : nat) : TM unit :=
  let* res := attempt (api tnList) in
  match res with
  | inr _ => merr (ErrNew "failed to list node")
  | inl items => mforeach (λ node _, retry fuel (reBuildCache node)) items tt
  end.

(** ** The handlers *)

(** The phase that the conditions of a node stand for. *)
Definition phaseOfNode (node : KNode) : EgressTunnelPhase :=
  foldl (λ phase c, if bool_decide (nc_Type c = "Ready") && bool_decide (nc_Status c ≠ "True")
                    then EgressTunnelNodeNotReady else phase) EgressTunnelReady (kn_Conditions node).

Definition reconcileTunnelNode (cfg : TunnelConfig) (name : string) : TM Result :=
  let* node := getOrAbsent (api (tnGetNode name)) in
  let deleted := match node with None => true | Some n => om_Deleting (kn_Meta n) end in
  if deleted then
    let* egressTunnel := getOrAbsent (api (tnGet name)) in
    match egressTunnel with
    | None => mret done_
    | Some egressTunnel => let* _ := deleteEgressTunnel egressTunnel in mret done_
    end
  else
    match node with
    | None => mret done_
    | Some node =>
        let* egressTunnel := getOrAbsent (api (tnGet name)) in
        match egressTunnel with
        | None => let* _ := createEgressTunnel (om_Name (kn_Meta node)) in mret done_
        | Some egressTunnel =>
            let phase := phaseOfNode node in
            let old := ts_Phase (t_Status egressTunnel) in
            if negb (tc_Failover cfg) && bool_decide (old ≠ EgressTunnelHeartbeatTimeout) && bool_decide (old ≠ phase)
            then let* _ := updateEgressTunnel (set_Phase egressTunnel phase) in mret done_
            else mret done_
        end
    end.

(** The commit of the release of a tunnel that a user deleted. *)
Definition removeTunnelFinalizer (t : EgressTunnel) : EgressTunnel :=
  mkEgressTunnel (RemoveFinalizers (t_Meta t) [egressTunnelFinalizers]) (t_Status t).

Definition reconcileEGN (cfg : TunnelConfig) (name : string) : TM Result :=
  let* r := getOrAbsent (api (tnGet name)) in
  let egresstunnel := default zeroTunnel r in
  let deleted := match r with None => true | Some t => om_Deleting (t_Meta t) end in
  if deleted then
    if decide (0 < length (om_Finalizers (t_Meta egresstunnel))) then
      let* _ := releaseEgressTunnel egresstunnel (api (tnUpdate (removeTunnelFinalizer egresstunnel))) in
      reconcileTunnelNode cfg name
    else mret done_
  else
    let* _ := keepEgressTunnel egresstunnel in
    mret done_.

Definition setOnce (r : R) : R := mkEg (r_mark r) (r_allocatorV4 r) (r_allocatorV6 r) true.

Definition tunnelReconcile (fuel : nat) (cfg : TunnelConfig) (req : NamespacedName) : TM Result :=
  let* (kind, newReq) := lift (ParseKindWithReq req) in
  let* r := getR in
  let* _ := (if r_once r then mret tt
             else let* _ := retry fuel (initEgressTunnel fuel) in λ s, ((setOnce s.1, s.2), Ret tt)) in
  if decide (kind = "EgressTunnel") then reconcileEGN cfg (nn_Name newReq)
  else if decide (kind = "Node") then reconcileTunnelNode cfg (nn_Name newReq)
  else mret done_.

(** ** Heartbeats *)

(** One tunnel of the list; errors are logged. *)
Definition checkHeartbeat (cfg : TunnelConfig) (name : string) : TM unit :=
  let* res := attempt (api (tnGet name)) in
  match res with
  | inr _ => mret tt
  | inl tunnel =>
      let* now := api tnNow in
      if decide (ts_LastHeartbeatTime (t_Status tunnel) + timeSeconds (tc_EipEvictionTimeout cfg) < now)%Z then
        if decide (ts_Phase (t_Status tunnel) = EgressTunnelHeartbeatTimeout) then mret tt
        else
          let* _ := attempt (api (tnUpdateStatus (set_Phase tunnel EgressTunnelHeartbeatTimeout))) in
          mret tt
      else mret tt
  end.

Definition tunnelListCheck (cfg : TunnelConfig) : TM unit :=
  let* items := api tnList in
  mforeach (λ item _, checkHeartbeat cfg (om_Name (t_Meta item))) items tt.
End tunnel.

(** ** Construction *)

(** What the constructor reads of the configuration. *)
Record FileConfig := mkFileConfig {
  fc_Mark : string;
  fc_EnableIPv4 : bool; fc_TunnelIpv4Subnet : string;
  fc_EnableIPv6 : bool; fc_TunnelIpv6Subnet : string
}.

Definition newAllocator (enable : bool) (subnet : string) : outcome (option (IPRange AllocationBitmap)) :=
  if enable then
    match ParseCIDR subnet with
    | None => Err (ErrNew "invalid CIDR address")
    | Some (_, cidr) => Ret (Some (NewCIDRRange cidr))
    end
  else Ret None.

Definition NewEgressTunnelController (cfg : FileConfig)
    : outcome (egReconciler (Range AllocationBitmap) (IPRange AllocationBitmap)) :=
  let! mark := NewAllocatorMarkRange (fc_Mark cfg) in
  let! v4 := newAllocator (fc_EnableIPv4 cfg) (fc_TunnelIpv4Subnet cfg) in
  let! v6 := newAllocator (fc_EnableIPv6 cfg) (fc_TunnelIpv6Subnet cfg) in
  Ret (mkEg mark v4 v6 false).
