(* ===== verification/TunnelTheorems.v ===== *)
(** * Theorems about the tunnel controller

    No two tunnels share a mark or a tunnel address, and what tunnels hold is
    taken in the allocators: the invariant, the handlers that keep it, and the
    two ways in which the code loses it.  The allocators are any pools, the API
    server is any that meets [TunnelLaws]. *)

From S2P Require Import Prelude GoStd Allocator MarkAllocator Pool GoNet IPUtil IPAllocator Types ApiServer Utils Sha1 Tunnel Triple.
Open Scope nat_scope.

(** ** The interfaces *)

(** The tunnels an API server stores, when nobody else writes during a handler:
    reads answer what is stored, a write is carried out if and only if it
    returns no error. *)
Abbreviation t_name t := (om_Name (t_Meta t)).
Definition same_object (t t' : EgressTunnel) : Prop :=
  t_name t' = t_name t ∧ om_Finalizers (t_Meta t') = om_Finalizers (t_Meta t) ∧
  om_Deleting (t_Meta t') = om_Deleting (t_Meta t) ∧ t_Status t' = t_Status t.

Class TunnelLaws (W : Type) `{TunnelApi W} := {
  tunnels : W → gmap string EgressTunnel;
  tnGet_law n w : tunnels (tnGet n w).1 = tunnels w ∧
    (∀ t, (tnGet n w).2 = Ret t → tunnels w !! n = Some t) ∧
    ((tnGet n w).2 = Err (ErrApi NotFound) → tunnels w !! n = None);
  tnList_law w : tunnels (tnList w).1 = tunnels w ∧
    ∀ l, (tnList w).2 = Ret l → l ≡ₚ (map_to_list (tunnels w)).*2;
  tnGetNode_law n w : tunnels (tnGetNode n w).1 = tunnels w;
  tnNow_law w : tunnels (tnNow w).1 = tunnels w;
  tnCreate_law t w : match (tnCreate t w).2 with
    | Ret _ => tunnels w !! t_name t = None ∧
        ∃ t', same_object t t' ∧ tunnels (tnCreate t w).1 = <[t_name t := t']> (tunnels w)
    | _ => tunnels (tnCreate t w).1 = tunnels w
    end;
  tnUpdateStatus_law t w : match (tnUpdateStatus t w).2 with
    | Ret _ => ∃ t0 t', tunnels w !! t_name t = Some t0 ∧ same_object (mkEgressTunnel (t_Meta t0) (t_Status t)) t' ∧
        tunnels (tnUpdateStatus t w).1 = <[t_name t := t']> (tunnels w)
    | _ => tunnels (tnUpdateStatus t w).1 = tunnels w
    end;
  (** An object that is being deleted goes when its last finalizer goes. *)
  tnUpdate_law t w : match (tnUpdate t w).2 with
    | Ret _ => ∃ t0, tunnels w !! t_name t = Some t0 ∧
        if om_Deleting (t_Meta t0) && bool_decide (om_Finalizers (t_Meta t) = [])
        then tunnels (tnUpdate t w).1 = delete (t_name t) (tunnels w)
        else ∃ t', same_object (mkEgressTunnel (set_Finalizers (t_Meta t0) (om_Finalizers (t_Meta t))) (t_Status t0)) t' ∧
             tunnels (tnUpdate t w).1 = <[t_name t := t']> (tunnels w)
    | _ => tunnels (tnUpdate t w).1 = tunnels w
    end
}.

(** A pool of addresses: the keys are addresses, and the forms of an address
    are one key. *)
Class AddressPool (IA : Type) `{PoolLaws IA IP} := {
  address_key ip : addr_or_nil ip → key_ok ip;
  address_To16 ip : To16 ip ≠ [] → value (To16 ip) = value ip;
  address_To4 ip : To4 ip ≠ [] → value (To4 ip) = value ip;
  next_valid a k a' : pool_wf a → pAllocateNext a = Ret (k, a') → valid_ip k
}.

(** A pool of marks: every text is a key, and the empty one is no mark. *)
Class TextPool (MA : Type) `{PoolLaws MA string} := { text_key (k : string) : key_ok k; text_empty : value "" = None }.
#[export] Instance markrange_text {T} `{AllocLaws T} : TextPool (Range T).
Proof. by split. Qed.

#[export] Instance iprange_addresses {T} `{AllocLaws T} : AddressPool (IPRange T).
Proof.
  split.
  - done.
  - intros ip Hip. change (ipValue (To16 ip) = ipValue ip). unfold ipValue, bigForIP.
    assert (To16 (To16 ip) = To16 ip) as ->; [|done]. apply To16_16. unfold To16 in *. repeat case_decide; try done.
    rewrite length_app. simpl. lia.
  - intros ip Hip. change (ipValue (To4 ip) = ipValue ip). unfold ipValue, bigForIP.
    assert (To16 (To4 ip) = To16 ip) as ->; [|done]. unfold To4 in *. unfold To16. repeat case_decide; try done; try lia.
    + destruct_and!. rewrite length_drop in *. rewrite <- (take_drop 12 ip) at 2. congruence.
    + destruct_and!. rewrite length_drop in *. lia.
    + destruct_and!. rewrite length_drop in *. lia.
  - intros a k a' Hwf Hn. pose proof (IPAllocateNext_law a Hwf) as Hl. simpl in Hn. rewrite Hn in Hl.
    destruct Hl as ([->|Hv] & _ & _ & v & Hk & _); [|done]. done.
Qed.

(** ** The invariant *)

(** What each stored tunnel holds of a pool is taken there, and nothing is held
    twice. *)
Record backed (S : gset Z) (f : EgressTunnel → option Z) (m : gmap string EgressTunnel) : Prop := {
  bk_taken : ∀ n t v, m !! n = Some t → f t = Some v → v ∈ S;
  bk_unique : ∀ n1 n2 t1 t2 v, m !! n1 = Some t1 → m !! n2 = Some t2 → f t1 = Some v → f t2 = Some v → n1 = n2
}.

(** Tunnel [n] may be given the fields of [t]. *)
Definition may_hold (S : gset Z) (f : EgressTunnel → option Z) (m : gmap string EgressTunnel) (n : string)
    (t : EgressTunnel) : Prop :=
  ∀ v, f t = Some v → v ∈ S ∧ ∀ n' t', m !! n' = Some t' → f t' = Some v → n' = n.

Lemma backed_insert S f m n t : backed S f m → may_hold S f m n t → backed S f (<[n := t]> m).
Proof.
  intros [Ht Hu] Hm. split.
  - intros k t' v [[<- <-]|[_ Hk]]%lookup_insert_Some Hv; [by apply Hm|by eapply Ht].
  - intros n1 n2 t1 t2 v [[<- <-]|[H1 Hk1]]%lookup_insert_Some [[<- <-]|[H2 Hk2]]%lookup_insert_Some V1 V2; try done.
    + symmetry. by eapply Hm.
    + by eapply Hm.
    + by eapply Hu.
Qed.

Lemma backed_holds S f m n t : backed S f m → m !! n = Some t → may_hold S f m n t.
Proof. intros [Ht Hu] Hn v Hv. split; [by eapply Ht|]. intros n' t' Hn' Hv'. by eapply Hu. Qed.

Lemma backed_mono S S' f m : S ⊆ S' → backed S f m → backed S' f m.
Proof. intros Hs [Ht Hu]. split; [|done]. intros n t v Hn Hv. apply Hs. by eapply Ht. Qed.

Lemma may_hold_mono S S' f m n t : S ⊆ S' → may_hold S f m n t → may_hold S' f m n t.
Proof. intros Hs Hm v Hv. destruct (Hm v Hv). split; [by apply Hs|done]. Qed.

Lemma may_hold_fresh S S' f m n t v : backed S f m → v ∉ S → S' = {[v]} ∪ S → f t = Some v → may_hold S' f m n t.
Proof.
  intros [Ht _] Hv -> Hf v' Hf'. simplify_eq. split; [set_solver|]. intros n' t' Hn' Hv'. destruct Hv. by eapply Ht.
Qed.

Lemma may_hold_ext S f m n t t' : f t' = f t ∨ f t' = None → may_hold S f m n t → may_hold S f m n t'.
Proof. intros [He|He] Hm v Hv; rewrite He in Hv; [by apply Hm|done]. Qed.

Lemma backed_delete S f m n : backed S f m → backed S f (delete n m).
Proof.
  intros [Ht Hu]. split.
  - intros k t v [_ Hk]%lookup_delete_Some Hv. by eapply Ht.
  - intros n1 n2 t1 t2 v [_ H1]%lookup_delete_Some [_ H2]%lookup_delete_Some V1 V2. by eapply Hu.
Qed.

(** Giving back what a tunnel held, once the tunnel is out of the map. *)
Lemma backed_released S S' f m n t : backed S f m → m !! n = Some t →
  (∀ v, v ∈ S' ↔ v ∈ S ∧ f t ≠ Some v) → backed S' f (delete n m).
Proof.
  intros Hb Hn Hs. split; [|by eapply bk_unique, backed_delete]. intros k t' v [Hkn Hk]%lookup_delete_Some Hv. apply Hs. split.
  - by eapply (bk_taken _ _ _ Hb).
  - intros Hv'. apply Hkn. by eapply (bk_unique _ _ _ Hb).
Qed.

Lemma To4_valid ip : valid_ip ip → To4 ip ≠ [] → valid_ip (To4 ip).
Proof.
  intros [Hl Hb]. unfold To4. destruct (decide (length ip = 4)) as [H4|H4]; [done|].
  case_decide as Hp; [|done]. intros _. destruct Hp as [H16 _].
  split; [left; rewrite length_drop; lia|by apply Forall_drop].
Qed.

Section theorems.
Context {W MA IA : Type} `{TL : TunnelLaws W} `{ML : TextPool MA} `{AP : AddressPool IA}.
Abbreviation R := (egReconciler MA IA).
Abbreviation TM := (M (R * W)).
Implicit Types (r : R) (s : R * W) (m : gmap string EgressTunnel).

(** What a tunnel holds of the three pools. *)
Definition markOf (t : EgressTunnel) : option Z := if decide (t_Mark t = "") then None else value (t_Mark t).
Definition v4Of (t : EgressTunnel) : option Z :=
  let ip := ParseIP (t_IPv4 t) in if decide (To4 ip = []) then None else value (To4 ip).
Definition v6Of (t : EgressTunnel) : option Z :=
  let ip := ParseIP (t_IPv6 t) in if decide (To16 ip = []) then None else value (To16 ip).

Definition backedBy (a : option IA) (f : EgressTunnel → option Z) m : Prop :=
  match a with Some a => pool_wf a ∧ backed (taken a) f m | None => True end.
Definition mayHoldOf (a : option IA) (f : EgressTunnel → option Z) m n t : Prop :=
  match a with Some a => may_hold (taken a) f m n t | None => True end.

(** The controller's own finalizer is the only one. *)
Definition meta_ok m : Prop := ∀ n t, m !! n = Some t →
  t_name t = n ∧ (om_Finalizers (t_Meta t) = [] ∨ om_Finalizers (t_Meta t) = [egressTunnelFinalizers]).

Record tunnels_ok r m : Prop := {
  to_meta : meta_ok m;
  to_wf : pool_wf (r_mark r);
  to_mark : backed (taken (r_mark r)) markOf m;
  to_v4 : backedBy (r_allocatorV4 r) v4Of m;
  to_v6 : backedBy (r_allocatorV6 r) v6Of m
}.
Definition Inv s : Prop := tunnels_ok s.1 (tunnels s.2).

(** Tunnel [n] may be updated to [t]. *)
Record may_become r m (n : string) (t : EgressTunnel) : Prop := {
  mb_name : t_name t = n;
  mb_mark : may_hold (taken (r_mark r)) markOf m n t;
  mb_v4 : mayHoldOf (r_allocatorV4 r) v4Of m n t;
  mb_v6 : mayHoldOf (r_allocatorV6 r) v6Of m n t
}.
Definition Upd n t s : Prop := Inv s ∧ may_become s.1 (tunnels s.2) n t.

(** ** Triples *)

Lemma tri_exit {A} (P : R * W → Prop) rollback (res : outcome A) (Q : A → R * W → Prop) E :
  (∀ s, P s → match res with Ret a => Q a s | _ => E s end) → tri P (exit None rollback res) Q E.
Proof. intros HQ [r w] Hs. unfold exit. simpl. specialize (HQ _ Hs). by destruct res. Qed.

Lemma tri_getR {A} P (k : R → TM A) Q E :
  (∀ r, tri (λ s, P s ∧ s.1 = r) (k r) Q E) → tri P (mbind_ getR k) Q E.
Proof. intros Hk [r w] Hs. unfold mbind_, getR. simpl. by apply (Hk r (r, w)). Qed.

(** A read of the API server. *)
Lemma tri_api {A} (P : R * W → Prop) (c : M W A) (Q : A → R * W → Prop) E :
  (∀ r w, P (r, w) → match (c w).2 with Ret a => Q a (r, (c w).1) | _ => E (r, (c w).1) end) → tri P (api c) Q E.
Proof. intros Hc [r w] Hs. specialize (Hc r w Hs). unfold api. simpl. by destruct (c w) as [w' [a|e|p|]]. Qed.

(** ** Allocation keeps the invariant *)

Lemma Upd_Inv n t s : Upd n t s → Inv s.
Proof. by intros [? _]. Qed.

(** The fields a tunnel has may be written back. *)
Lemma Inv_Upd n t s : Inv s → tunnels s.2 !! n = Some t → Upd n t s.
Proof.
  intros HI Hn. split; [done|]. destruct HI as [Hm Hwf Hk H4 H6]. split.
  - by apply Hm.
  - by apply backed_holds.
  - unfold backedBy, mayHoldOf in *. destruct (r_allocatorV4 s.1); [|done]. apply backed_holds; [apply H4|done].
  - unfold backedBy, mayHoldOf in *. destruct (r_allocatorV6 s.1); [|done]. apply backed_holds; [apply H6|done].
Qed.

(** Fields the pools do not look at may change. *)
Lemma Upd_ext n t t' s : t_name t' = t_name t → markOf t' = markOf t → v4Of t' = v4Of t → v6Of t' = v6Of t →
  Upd n t s → Upd n t' s.
Proof.
  intros Hn E0 E4 E6 [HI [Mn Mk M4 M6]]. split; [done|]. split.
  - congruence.
  - by eapply may_hold_ext; [left|].
  - unfold mayHoldOf in *. destruct (r_allocatorV4 s.1); [|done]. by eapply may_hold_ext; [left|].
  - unfold mayHoldOf in *. destruct (r_allocatorV6 s.1); [|done]. by eapply may_hold_ext; [left|].
Qed.

Lemma onMark_next n t : tri (Upd n t) (onMark pAllocateNext) (λ k, Upd n (set_Mark t k)) Inv.
Proof.
  intros [r w] [[Hm Hwf Hk H4 H6] [Mn Mk M4 M6]]. unfold onMark. simpl in *.
  pose proof (pAllocateNext_law (r_mark r) Hwf) as Hl.
  destruct (pAllocateNext (r_mark r)) as [[k a]|e|p|]; simpl; try by split.
  destruct Hl as (_ & Hwf' & _ & v & Hv & Hnew & Hadd).
  assert (taken (r_mark r) ⊆ taken a) as Hsub by (rewrite Hadd; set_solver).
  split; [split|split]; simpl; try done.
  - by eapply backed_mono.
  - destruct (decide (k = "")) as [->|Hne].
    + intros v' Hv'. unfold markOf in Hv'. simpl in Hv'. done.
    + eapply may_hold_fresh; [done|done|done|]. unfold markOf. simpl. by rewrite decide_False.
Qed.

(** The printed form of an address that was handed out stands for the same
    number. *)
Lemma v4Of_printed t ip v : valid_ip ip → value ip = Some v →
  v4Of (set_IPv4 t (IPString ip)) = Some v ∨ v4Of (set_IPv4 t (IPString ip)) = None.
Proof.
  intros Hip Hv. unfold v4Of. cbn [set_IPv4 set_Tunnel set_tunnelStatus t_Status ts_Tunnel tun_IPv4].
  rewrite ParseIP_IPString, To4_To16 by done. case_decide; [by right|]. left. by rewrite address_To4.
Qed.

Lemma v6Of_printed t ip v : valid_ip ip → value ip = Some v → v6Of (set_IPv6 t (IPString ip)) = Some v.
Proof.
  intros Hip Hv. unfold v6Of. cbn [set_IPv6 set_Tunnel set_tunnelStatus t_Status ts_Tunnel tun_IPv6].
  destruct (valid_To16 ip Hip) as [Hl _].
  rewrite ParseIP_IPString, (To16_16 (To16 ip)) by done. rewrite decide_False by (by destruct (To16 ip)).
  rewrite address_To16; [done|]. by destruct (To16 ip).
Qed.

Lemma onV4_next n t a :
  tri (λ s, Upd n t s ∧ r_allocatorV4 s.1 = Some a) (onV4 pAllocateNext a) (λ ip, Upd n (set_IPv4 t (IPString ip))) Inv.
Proof.
  intros [r w] [[[Hm Hwf Hk H4 H6] [Mn Mk M4 M6]] Ha]. unfold onV4. simpl in *. rewrite Ha in *. destruct H4 as [Hwa H4].
  pose proof (pAllocateNext_law a Hwa) as Hl. pose proof (next_valid a) as Hnv.
  destruct (pAllocateNext a) as [[k a']|e|p|] eqn:E; simpl; try (split; simpl; rewrite ?Ha; done).
  destruct Hl as (_ & Hwf' & _ & v & Hv & Hnew & Hadd). specialize (Hnv k a' Hwa eq_refl).
  assert (taken a ⊆ taken a') as Hsub by (rewrite Hadd; set_solver).
  split; [split|split]; simpl; try done.
  - split; [done|]. by eapply backed_mono.
  - destruct (v4Of_printed t k v Hnv Hv) as [He|He]; [by eapply may_hold_fresh|].
    intros v' Hv'. rewrite He in Hv'. done.
Qed.

Lemma onV6_next n t a :
  tri (λ s, Upd n t s ∧ r_allocatorV6 s.1 = Some a) (attempt (onV6 pAllocateNext a))
    (λ res, Upd n (set_IPv6 t (IPString (match res with inl ip => ip | inr _ => [] end)))) Inv.
Proof.
  intros [r w] [[[Hm Hwf Hk H4 H6] [Mn Mk M4 M6]] Ha]. unfold attempt, onV6. simpl in *. rewrite Ha in *. destruct H6 as [Hwa H6].
  pose proof (pAllocateNext_law a Hwa) as Hl. pose proof (next_valid a) as Hnv.
  destruct (pAllocateNext a) as [[k a']|e|p|] eqn:E; simpl; try (split; simpl; rewrite ?Ha; done).
  - destruct Hl as (_ & Hwf' & _ & v & Hv & Hnew & Hadd). specialize (Hnv k a' Hwa eq_refl).
    assert (taken a ⊆ taken a') as Hsub by (rewrite Hadd; set_solver).
    split; [split|split]; simpl; try done.
    + split; [done|]. by eapply backed_mono.
    + eapply may_hold_fresh; [done|done|done|]. by apply v6Of_printed.
  - split; [split|split]; simpl; rewrite ?Ha; done.
Qed.

Lemma write_keeps n t : tri (Upd n t) (api (tnUpdateStatus t)) (λ _, Inv) Inv.
Proof.
  apply tri_api. intros r w [HI Hb]. pose proof (tnUpdateStatus_law t w) as Hl. unfold Inv in *. simpl in *.
  destruct (tnUpdateStatus t w) as [w' [u|e|p|]]; simpl in *; try (by rewrite Hl).
  destruct Hl as (t0 & t1 & Ht0 & (Hn & Hf & _ & Hst) & ->). simpl in *.
  destruct HI as [Hm Hwf Hk H4 H6]. destruct Hb as [Mn Mk M4 M6]. subst n.
  assert (markOf t1 = markOf t ∧ v4Of t1 = v4Of t ∧ v6Of t1 = v6Of t) as (E0 & E4 & E6)
    by (unfold markOf, v4Of, v6Of; rewrite Hst; done).
  split; simpl; try done.
  - intros k t2 [[<- <-]|[_ Hk2]]%lookup_insert_Some; [|by apply Hm]. rewrite Hn, Hf. by apply Hm.
  - apply backed_insert; [done|]. by eapply may_hold_ext; [left|].
  - unfold backedBy, mayHoldOf in *. destruct (r_allocatorV4 r) as [a|]; [|done]. destruct H4. split; [done|].
    apply backed_insert; [done|]. by eapply may_hold_ext; [left|].
  - unfold backedBy, mayHoldOf in *. destruct (r_allocatorV6 r) as [a|]; [|done]. destruct H6. split; [done|].
    apply backed_insert; [done|]. by eapply may_hold_ext; [left|].
Qed.

Lemma set_Phase_upd n t p s : Upd n t s → Upd n (set_Phase t p) s.
Proof. by apply Upd_ext. Qed.

Lemma update_keeps n t : tri (Upd n t) (updateEgressTunnel t) (λ _, Inv) Inv.
Proof.
  unfold updateEgressTunnel. apply tri_getR. intros r.
  eapply (tri_bind _ _ _ (λ _, Inv)); [|intros [|]; [by apply tri_ret|by apply tri_err]].
  eapply tri_post; [apply tri_attempt; eapply tri_pre; [|apply (write_keeps n)]|by intros [|]|done].
  intros s [Hu _]. by apply set_Phase_upd.
Qed.

Lemma keep_keeps n t : tri (Upd n t) (keepEgressTunnel t) (λ _, Inv) Inv.
Proof.
  unfold keepEgressTunnel. set (t1 := if decide (t_MAC t = "") then _ else t).
  apply (tri_pre _ (Upd n t1)).
  { intros s. apply Upd_ext; unfold t1; by case_decide. }
  eapply (tri_bind _ _ _ (λ res s, match res with inr _ => Inv s | inl (t2, _, _) => Upd n t2 s end)).
  { case_decide; [|by apply tri_ret]. eapply tri_bind; [apply tri_attempt, onMark_next|].
    intros [k|e]; by apply tri_ret. }
  intros [[[t2 upd] rb]|e]; [|by intros [r w] Hs]. apply tri_getR. intros r.
  eapply (tri_bind _ _ _ (λ res s, match res with inr _ => Inv s | inl (t3, _, _) => Upd n t3 s end)).
  { destruct (r_allocatorV4 r) as [a|] eqn:Ha; [|apply tri_ret; by intros s [? _]].
    case_decide; [|apply tri_ret; by intros s [? _]].
    eapply tri_bind; [apply tri_attempt; eapply tri_pre; [|apply onV4_next]; intros s [? <-]; done|].
    intros [k|e]; by apply tri_ret. }
  clear r. intros [[[t3 upd'] rb']|e]; [|by apply tri_exit]. apply tri_getR. intros r.
  eapply (tri_bind _ _ _ (λ res s, Upd n res.1.1 s)).
  { destruct (r_allocatorV6 r) as [a|] eqn:Ha; [|apply tri_ret; by intros s [? _]].
    case_decide; [|apply tri_ret; by intros s [? _]].
    eapply tri_bind; [eapply tri_pre; [|apply onV6_next]; intros s [? <-]; done|].
    intros res. by apply tri_ret. }
  intros [[t4 upd2] rb2]. simpl. destruct upd2; [|apply tri_exit; intros s; apply Upd_Inv].
  eapply tri_bind; [apply tri_attempt, update_keeps|]. intros [u|e]; by apply tri_exit.
Qed.

(** ** Release *)

(** The three pools, each with the tunnels whose holdings it has. *)
Record parts r (mM m4 m6 : gmap string EgressTunnel) : Prop := {
  pa_wf : pool_wf (r_mark r);
  pa_mark : backed (taken (r_mark r)) markOf mM;
  pa_v4 : backedBy (r_allocatorV4 r) v4Of m4;
  pa_v6 : backedBy (r_allocatorV6 r) v6Of m6
}.
Definition Parts m mM m4 m6 s : Prop := tunnels s.2 = m ∧ parts s.1 mM m4 m6.

Lemma backedBy_delete a f m n : backedBy a f m → backedBy a f (delete n m).
Proof. unfold backedBy. destruct a; [|done]. intros [? ?]. split; [done|]. by apply backed_delete. Qed.

Lemma backedBy_released a a' f m n t k : backedBy (Some a) f m → m !! n = Some t → key_ok k → f t = value k →
  pRelease k a = Ret a' → backedBy (Some a') f (delete n m).
Proof.
  intros [Hwf Hb] Hn Hk Hf Hr. pose proof (pRelease_law k a Hwf Hk) as Hl. rewrite Hr in Hl.
  destruct Hl as (Hwf' & _ & Hs). split; [done|]. eapply backed_released; [done|done|]. by rewrite Hf.
Qed.

Section release.
Context (m : gmap string EgressTunnel) (n : string) (t : EgressTunnel) (Hn : m !! n = Some t).

Lemma release_mark :
  tri (Parts m m m m)
    (if decide (t_Mark t ≠ "") then onMark (λ a, noValue (pRelease (t_Mark t) a)) else mret tt)
    (λ _, Parts m (delete n m) m m) (λ _, True).
Proof.
  case_decide as Hm.
  - intros [r w] [Hw [Hwf Hk H4 H6]]. unfold onMark, noValue. simpl in *.
    pose proof (pRelease_law (t_Mark t) (r_mark r) Hwf (text_key _)) as Hl.
    destruct (pRelease (t_Mark t) (r_mark r)) as [a|e|p|]; simpl; try done. destruct Hl as (Hwf' & _ & Hs).
    split; [done|]. split; simpl; try done. eapply backed_released; [done|done|].
    unfold markOf. by rewrite decide_False.
  - apply tri_ret. intros s [Hw [Hwf Hk H4 H6]]. split; [done|]. split; try done. by apply backed_delete.
Qed.

Lemma release_v4 r : tri (λ s, Parts m (delete n m) m m s ∧ s.1 = r)
    (match r_allocatorV4 r with
     | Some a => if decide (t_IPv4 t ≠ "" ∧ To4 (ParseIP (t_IPv4 t)) ≠ [])
                 then onV4 (λ a, noValue (pRelease (To4 (ParseIP (t_IPv4 t))) a)) a else mret tt
     | None => mret tt
     end) (λ _ s, Parts m (delete n m) (delete n m) m s ∧ r_allocatorV6 s.1 = r_allocatorV6 r) (λ _, True).
Proof.
  destruct (r_allocatorV4 r) as [a|] eqn:Ha.
  2: { apply tri_ret. intros s [[Hw [Hwf Hk H4 H6]] <-]. split; [|done]. split; [done|]. split; try done. by apply backedBy_delete. }
  case_decide as Hc.
  - intros [r0 w] [[Hw [Hwf Hk H4 H6]] Hr]. simpl in *. subst r0. unfold onV4, noValue. rewrite Ha in H4.
    pose proof (backedBy_released a) as Hrel.
    destruct (pRelease (To4 (ParseIP (t_IPv4 t))) a) as [a'|e|p|] eqn:E; simpl; try done.
    split; [|done]. split; [done|]. split; simpl; try done. eapply Hrel; [done|done| | |exact E].
    + apply address_key. destruct (ParseIP_addr_or_nil (t_IPv4 t)) as [E0|Hv]; [left; by rewrite E0|right].
      by apply To4_valid, Hc.
    + unfold v4Of. by rewrite decide_False by apply Hc.
  - apply tri_ret. intros s [[Hw [Hwf Hk H4 H6]] <-]. split; [|done]. split; [done|]. split; try done. by apply backedBy_delete.
Qed.

Lemma release_v6 r :
  tri (λ s, Parts m (delete n m) (delete n m) m s ∧ r_allocatorV6 s.1 = r_allocatorV6 r)
    (match r_allocatorV6 r with
     | Some a => if decide (t_IPv6 t ≠ "" ∧ To16 (ParseIP (t_IPv6 t)) ≠ [])
                 then onV6 (λ a, noValue (pRelease (To16 (ParseIP (t_IPv6 t))) a)) a else mret tt
     | None => mret tt
     end) (λ _, Parts m (delete n m) (delete n m) (delete n m)) (λ _, True).
Proof.
  destruct (r_allocatorV6 r) as [a|] eqn:Ha.
  2: { apply tri_ret. intros s [[Hw [Hwf Hk H4 H6]] _]. split; [done|]. split; try done. by apply backedBy_delete. }
  case_decide as Hc.
  - intros [r1 w] [[Hw [Hwf Hk H4 H6]] Hr]. simpl in *. unfold onV6, noValue. rewrite Hr in H6.
    pose proof (backedBy_released a) as Hrel.
    destruct (pRelease (To16 (ParseIP (t_IPv6 t))) a) as [a'|e|p|] eqn:E; simpl; try done.
    split; [done|]. split; simpl; try done. eapply Hrel; [done|done| | |exact E].
    + apply address_key. destruct (ParseIP_addr_or_nil (t_IPv6 t)) as [E0|Hv]; [left; by rewrite E0|right].
      destruct (valid_To16 _ Hv). by split; [right|].
    + unfold v6Of. by rewrite decide_False by apply Hc.
  - apply tri_ret. intros s [[Hw [Hwf Hk H4 H6]] _]. split; [done|]. split; try done. by apply backedBy_delete.
Qed.
End release.

Lemma removeLast_only : removeLast egressTunnelFinalizers [egressTunnelFinalizers] = [].
Proof. vm_compute. reflexivity. Qed.

(** A released tunnel whose finalizer could be removed is gone. *)
Lemma release_keeps n t :
  tri (λ s, Inv s ∧ tunnels s.2 !! n = Some t ∧ om_Deleting (t_Meta t) = true ∧
            om_Finalizers (t_Meta t) = [egressTunnelFinalizers])
    (releaseEgressTunnel t (api (tnUpdate (removeTunnelFinalizer t))))
    (λ _ s, Inv s ∧ tunnels s.2 !! n = None) (λ _, True).
Proof.
  intros s0 ([Hmeta Hwf0 Hk0 H40 H60] & Hn & Hdel & Hfin). revert s0 Hmeta Hwf0 Hk0 H40 H60 Hn.
  intros s0. set (m := tunnels s0.2). intros Hmeta Hwf0 Hk0 H40 H60 Hn.
  assert (HP : Parts m m m m s0) by (split; [done|by split]). clearbody m. revert HP. generalize s0. clear s0 Hwf0 Hk0 H40 H60.
  fold (tri (Parts m m m m) (releaseEgressTunnel t (api (tnUpdate (removeTunnelFinalizer t))))
    (λ _ s, Inv s ∧ tunnels s.2 !! n = None) (λ _, True)).
  unfold releaseEgressTunnel.
  eapply tri_bind; [apply tri_attempt, (release_mark m n t Hn)|]. intros [u|e]; [|by apply tri_exit].
  apply tri_getR. intros r. eapply tri_bind; [apply tri_attempt, (release_v4 m n t Hn)|]. intros [u4|e]; [|by apply tri_exit].
  eapply tri_bind; [apply tri_attempt, (release_v6 m n t Hn)|]. intros [u6|e]; [|by apply tri_exit].
  eapply tri_bind; [apply tri_attempt, (tri_api _ _ (λ _ s, Inv s ∧ tunnels s.2 !! n = None) (λ _, True))|].
  2: { intros [x|e]; by apply tri_exit. }
  intros r1 w [Hw [Hwf Hk H4 H6]]. simpl in *. set (t' := removeTunnelFinalizer t).
  assert (t_name t' = n) as Hname by (apply Hmeta in Hn as [<- _]; done).
  pose proof (tnUpdate_law t' w) as Hl. destruct (tnUpdate t' w) as [w' [x|e|p|]]; try done. simpl in *.
  destruct Hl as (t0 & Ht0 & Hl). rewrite Hw, Hname, Hn in Ht0. injection Ht0 as <-.
  rewrite Hdel, bool_decide_true in Hl by (simpl; rewrite Hfin; apply removeLast_only). simpl in Hl.
  rewrite Hname, Hw in Hl. unfold Inv. simpl. rewrite Hl. split; [|apply lookup_delete_eq].
  split; try done. intros k y [_ Hx]%lookup_delete_Some. by apply Hmeta.
Qed.

(** ** The handlers *)

Lemma Inv_same r w w' : tunnels w' = tunnels w → Inv (r, w) → Inv (r, w').
Proof. unfold Inv. simpl. by intros ->. Qed.

Lemma getTunnel_reads n x : tri (λ s, Inv s ∧ tunnels s.2 !! n = x) (getOrAbsent (api (tnGet n)))
  (λ o s, Inv s ∧ tunnels s.2 !! n = x ∧ o = x) Inv.
Proof.
  intros [r w] [HI Hx]. unfold getOrAbsent, mbind_, attempt, api. simpl in *.
  pose proof (tnGet_law n w) as (Hs & Hr & Ha). destruct (tnGet n w) as [w' [t|e|p|]]; simpl in *.
  - split; [by eapply Inv_same|]. rewrite Hs, Hx. split; [done|]. symmetry. rewrite <- Hx. by apply Hr.
  - destruct (IsNotFound e) eqn:He; simpl; [|by eapply Inv_same]. apply bool_decide_eq_true in He as ->.
    split; [by eapply Inv_same|]. rewrite Hs, Hx. split; [done|]. symmetry. rewrite <- Hx. by apply Ha.
  - by eapply Inv_same.
  - by eapply Inv_same.
Qed.

(** The node of a tunnel exists, or there is no such tunnel. *)
Definition node_lives n s : Prop :=
  tunnels s.2 !! n = None ∨ ∃ k, (tnGetNode n s.2).2 = Ret k ∧ om_Deleting (kn_Meta k) = false.

Lemma create_keeps name : tri Inv (createEgressTunnel name) (λ _, Inv) Inv.
Proof.
  unfold createEgressTunnel. eapply tri_bind.
  - eapply tri_attempt, (tri_api _ _ (λ _, Inv) Inv). intros r w HI. set (t := mkEgressTunnel _ _).
    pose proof (tnCreate_law t w) as Hl. destruct (tnCreate t w) as [w' [u|e|p|]]; simpl in *; try by eapply Inv_same.
    destruct Hl as (Hnone & t' & (Hn & Hf & _ & Hst) & Hw). unfold Inv in *. simpl in *. rewrite Hw.
    assert (markOf t' = None ∧ v4Of t' = None ∧ v6Of t' = None) as (E0 & E4 & E6).
    { unfold markOf, v4Of, v6Of. rewrite Hst. done. }
    destruct HI as [Hm Hwf Hk H4 H6]. split; simpl; try done.
    + intros k t2 [[<- <-]|[_ Hk2]]%lookup_insert_Some; [|by apply Hm]. rewrite Hn, Hf. by split; [|right].
    + apply backed_insert; [done|]. intros v Hv. congruence.
    + unfold backedBy in *. destruct (r_allocatorV4 r) as [a|]; [|done]. destruct H4. split; [done|].
      apply backed_insert; [done|]. intros v Hv. congruence.
    + unfold backedBy in *. destruct (r_allocatorV6 r) as [a|]; [|done]. destruct H6. split; [done|].
      apply backed_insert; [done|]. intros v Hv. congruence.
  - intros [|]; [by apply tri_ret|by apply tri_err].
Qed.

Lemma node_keeps cfg n : tri (λ s, Inv s ∧ node_lives n s) (reconcileTunnelNode cfg n) (λ _, Inv) Inv.
Proof.
  unfold reconcileTunnelNode.
  eapply (tri_bind _ _ _ (λ o s, Inv s ∧ (tunnels s.2 !! n = None ∨ ∃ k, o = Some k ∧ om_Deleting (kn_Meta k) = false))).
  { intros [r w] [HI Hl]. unfold node_lives, getOrAbsent, mbind_, attempt, api in *. simpl in *.
    pose proof (tnGetNode_law n w) as Hs. destruct (tnGetNode n w) as [w' [k|e|p|]]; simpl in *; try by eapply Inv_same.
    - split; [by eapply Inv_same|]. rewrite Hs. destruct Hl as [?|(k' & [= ->] & ?)]; [by left|right; eauto].
    - destruct (IsNotFound e) eqn:He; simpl; [|by eapply Inv_same].
      split; [by eapply Inv_same|]. rewrite Hs. destruct Hl as [?|(k' & ? & _)]; [by left|done]. }
  intros o. destruct (match o with None => true | Some k => om_Deleting (kn_Meta k) end) eqn:Hdel.
  - eapply tri_pre; [|eapply tri_bind; [apply (getTunnel_reads n None)|]].
    + intros s [HI [?|(k & -> & Hk)]]; [done|congruence].
    + intros o'. intros s (HI & Hn & ->). done.
  - destruct o as [k|]; [|done]. intros s0 [HI _]. revert s0 HI.
    fold (tri Inv (let* egressTunnel := getOrAbsent (api (tnGet n)) in
      match egressTunnel with
      | Some t => if negb (tc_Failover cfg) && bool_decide (ts_Phase (t_Status t) ≠ EgressTunnelHeartbeatTimeout) &&
                     bool_decide (ts_Phase (t_Status t) ≠ phaseOfNode k)
                  then let* _ := updateEgressTunnel (set_Phase t (phaseOfNode k)) in mret done_ else mret done_
      | None => let* _ := createEgressTunnel (om_Name (kn_Meta k)) in mret done_
      end) (λ _, Inv) Inv).
    eapply (tri_bind _ _ _ (λ o' s, Inv s ∧ tunnels s.2 !! n = o')).
    { intros s HI. pose proof (getTunnel_reads n (tunnels s.2 !! n) s ltac:(done)) as Ht.
      destruct (getOrAbsent _ s) as [s' [x|e|p|]]; simpl in *; try done. destruct Ht as (? & Hx & ->). done. }
    intros [t|].
    + destruct (_ && _); [|apply tri_ret; by intros s [? _]].
      eapply (tri_bind _ _ _ (λ _, Inv)); [|intros u; by apply tri_ret].
      eapply tri_pre; [|apply (update_keeps n)]. intros s [HI Hn]. by apply set_Phase_upd, Inv_Upd.
    + eapply (tri_bind _ _ _ (λ _, Inv)); [|intros u; by apply tri_ret]. eapply tri_pre; [|apply create_keeps]. by intros s [? _].
Qed.

Definition deleting n s : Prop := ∃ t, tunnels s.2 !! n = Some t ∧ om_Deleting (t_Meta t) = true.

Lemma egn_keeps cfg n s : Inv s → (deleting n s → is_ret (reconcileEGN cfg n s).2 = true) → Inv (reconcileEGN cfg n s).1.
Proof.
  intros HI Hd. unfold reconcileEGN in *. unfold mbind_ at 1 in Hd. unfold mbind_ at 1.
  pose proof (getTunnel_reads n (tunnels s.2 !! n) s ltac:(done)) as Hg.
  destruct (getOrAbsent (api (tnGet n)) s) as [s1 [o|e|p|]]; simpl in Hg; try done. destruct Hg as (HI1 & Hn1 & ->).
  destruct (tunnels s.2 !! n) as [t|] eqn:Hn; simpl in *.
  2: { done. }
  destruct (om_Deleting (t_Meta t)) eqn:Hdel.
  - specialize (Hd (ex_intro _ t (conj Hn Hdel))). destruct (to_meta _ _ HI n t Hn) as [_ [Hf|Hf]]; rewrite Hf in *; simpl in *; [done|].
    pose proof (tri_bind _ _ (λ _, reconcileTunnelNode cfg n) _ (λ _, Inv) (λ _, True) (release_keeps n t)) as Ht.
    specialize (Ht ltac:(intros a; eapply tri_post;
      [eapply tri_pre; [|apply (node_keeps cfg n)]; intros s2 [? ?]; split; [done|by left]|done|done]) s1).
    specialize (Ht ltac:(by split_and!)).
    destruct (mbind_ _ _ s1) as [s2 [x|e|p|]]; simpl in *; done.
  - pose proof (tri_bind _ _ (λ _, mret done_) _ (λ _, Inv) Inv (keep_keeps n t)
      ltac:(intros a; by apply tri_ret) s1 ltac:(by apply Inv_Upd)) as Ht.
    destruct (mbind_ _ _ s1) as [s2 [x|e|p|]]; simpl in *; done.
Qed.

(** In the states [C], which the calls do not leave, it is [now] and the calls
    about stored tunnels succeed, writes with the stored version included. *)
Definition calm (now : Z) (C : W → Prop) : Prop := ∀ w, C w →
  ((tnNow w).2 = Ret now ∧ C (tnNow w).1) ∧ (is_ret (tnList w).2 = true ∧ C (tnList w).1) ∧
  ∀ n t, tunnels w !! n = Some t → t_name t = n → (is_ret (tnGet n w).2 = true ∧ C (tnGet n w).1) ∧
    ∀ t', t_Meta t' = t_Meta t → is_ret (tnUpdateStatus t' w).2 = true ∧ C (tnUpdateStatus t' w).1.

(** ** What is written *)

(** A tunnel with everything the data path needs. *)
Definition complete (hasV4 hasV6 : bool) (t : EgressTunnel) : Prop :=
  t_Mark t ≠ "" ∧ t_MAC t ≠ "" ∧ par_Name (tun_Parent (ts_Tunnel (t_Status t))) ≠ "" ∧
  (hasV4 = true → t_IPv4 t ≠ "") ∧ (hasV6 = true → t_IPv6 t ≠ "").

Lemma phaseOf_complete h4 h6 t : phaseOf h4 h6 t ≠ EgressTunnelInit → phaseOf h4 h6 t ≠ EgressTunnelPending →
  complete h4 h6 t ∧ phaseOf h4 h6 t = ts_Phase (t_Status t).
Proof.
  unfold phaseOf, complete. cbv zeta. destruct (decide (t_MAC t = "")); [done|].
  destruct (bool_decide (t_IPv6 t = "") && h6) eqn:E6; [done|]. destruct (bool_decide (t_IPv4 t = "") && h4) eqn:E4; [done|].
  destruct (decide (t_Mark t = "")); [done|]. destruct (decide (par_Name _ = "")); [done|].
  destruct (decide (ts_Phase (t_Status t) = "")); [done|]. intros _ _.
  apply andb_false_iff in E4, E6. rewrite !bool_decide_eq_false in E4, E6. split_and!; try done; naive_solver.
Qed.

Lemma update_writes r (w : W) t s' : updateEgressTunnel t (r, w) = (s', Ret tt) →
  ∃ t', tunnels s'.2 !! t_name t = Some t' ∧ s'.1 = r ∧
    t_Status t' = t_Status (set_Phase t (phaseOf (isSome (r_allocatorV4 r)) (isSome (r_allocatorV6 r)) t)).
Proof.
  unfold updateEgressTunnel, mbind_, getR, attempt, api. cbn [fst snd]. set (tp := set_Phase t _).
  pose proof (tnUpdateStatus_law tp w) as Hl. destruct (tnUpdateStatus tp w) as [w' [u|e|p|]]; try done.
  intros [= <-]. destruct Hl as (t0 & t' & _ & (_ & _ & _ & Hst) & Hw). exists t'. simpl in *. rewrite Hw.
  split_and!; [apply lookup_insert_eq|done|done].
Qed.

(** What [updateEgressTunnel] stores is the status it is given, but for the
    phase; a phase other than Init and Pending is stored only for a tunnel that
    has a mark, a MAC, a parent link and an address of every enabled family. *)
Theorem written_phase_tells_completeness r (w : W) t s' : updateEgressTunnel t (r, w) = (s', Ret tt) →
  ∃ t', tunnels s'.2 !! t_name t = Some t' ∧ s'.1 = r ∧ t_Status t' = t_Status (set_Phase t (ts_Phase (t_Status t'))) ∧
    (ts_Phase (t_Status t') ≠ EgressTunnelInit → ts_Phase (t_Status t') ≠ EgressTunnelPending →
     complete (isSome (r_allocatorV4 r)) (isSome (r_allocatorV6 r)) t' ∧ ts_Phase (t_Status t') = ts_Phase (t_Status t)).
Proof.
  intros Hu. destruct (update_writes r w t s' Hu) as (t' & Ht' & Hr & Hst). exists t'. rewrite Hst. split_and!; try done.
  simpl. intros Hi Hp. destruct (phaseOf_complete _ _ _ Hi Hp) as [Hc He]. split; [|done]. unfold complete. by rewrite Hst.
Qed.

Lemma IPString_nonempty ip : valid_ip ip → IPString ip ≠ ""%string.
Proof.
  intros Hv He. pose proof (ParseIP_IPString ip Hv) as Hp. rewrite He in Hp. destruct (valid_To16 ip Hv) as [Hl _].
  rewrite <- Hp in Hl. by vm_compute in Hl.
Qed.

(** The numbers a tunnel must have, and those it keeps. *)
Definition has_numbers (h4 h6 : bool) (t : EgressTunnel) : Prop :=
  t_Mark t ≠ "" ∧ (h4 = true → t_IPv4 t ≠ "") ∧ (h6 = true → t_IPv6 t ≠ "").
Definition keeps_numbers (t0 t : EgressTunnel) : Prop :=
  (t_Mark t0 ≠ "" → t_Mark t = t_Mark t0) ∧ (t_IPv4 t0 ≠ "" → t_IPv4 t = t_IPv4 t0) ∧
  (t_IPv6 t0 ≠ "" → t_IPv6 t = t_IPv6 t0).
Definition Filled h4 h6 t0 s : Prop :=
  ∃ t', tunnels s.2 !! t_name t0 = Some t' ∧ has_numbers h4 h6 t' ∧ keeps_numbers t0 t'.

(** A number of a pool is free. *)
Definition room {A K} `{PoolLaws A K} (a : A) : Prop := ∃ v, fits a v ∧ v ∉ taken a.

Section fill.
(** [ok] says that nothing stands in the way: the calls succeed, and the pools
    that are drawn from have numbers left. *)
Context (ok : Prop) (now : Z) (C : W → Prop) (Hcalm : ok → calm now C).
Context (h4 h6 : bool) (t0 : EgressTunnel).

Definition wfBy (h : bool) (a : option IA) : Prop :=
  match a with Some a => h = true ∧ pool_wf a | None => h = false end.
Definition roomBy (a : option IA) : Prop := match a with Some a => room a | None => True end.

(** [t] keeps every number of [t0], and is [t0] if nothing was added. *)
Definition extends (t : EgressTunnel) (upd : bool) : Prop :=
  t_Meta t = t_Meta t0 ∧ keeps_numbers t0 t ∧
  (upd = false → t_Mark t = t_Mark t0 ∧ t_IPv4 t = t_IPv4 t0 ∧ t_IPv6 t = t_IPv6 t0).
Record Working t upd s : Prop := {
  wo_stored : tunnels s.2 !! t_name t0 = Some t0;
  wo_mark : pool_wf (r_mark s.1);
  wo_v4 : wfBy h4 (r_allocatorV4 s.1);
  wo_v6 : wfBy h6 (r_allocatorV6 s.1);
  wo_ext : extends t upd;
  wo_calm : ok → C s.2;
  wo_room : ok → t_Mark t = "" → room (r_mark s.1);
  wo_room4 : ok → t_IPv4 t = "" → roomBy (r_allocatorV4 s.1)
}.

Lemma fill_mark t upd : t_Mark t = "" →
  tri (Working t upd) (onMark pAllocateNext) (λ k s, Working (set_Mark t k) true s ∧ k ≠ "") (λ _, ¬ ok).
Proof.
  intros He [r w] [Ht Hwf H4' H6' (Hm & (Hk & Hv4 & Hv6) & Hu) HC Hr Hr4]. unfold onMark. simpl in *.
  pose proof (pAllocateNext_law (r_mark r) Hwf) as Hl. destruct (pAllocateNext (r_mark r)) as [[k a]|e|p|]; simpl; try done.
  - destruct Hl as (_ & Hwf' & _ & v & Hv & _ & _). assert (k ≠ ""%string) as Hne by (intros ->; by rewrite text_empty in Hv).
    split; [|done]. split; try done. unfold extends, keeps_numbers. split_and!; try done. simpl. intros Hne'. exfalso. by rewrite Hk in He.
  - intros Hok. destruct (Hr Hok He) as (v & Hf & Hn). by apply Hn, Hl.
Qed.

Lemma fill_v4 t upd a : t_IPv4 t = "" →
  tri (λ s, Working t upd s ∧ r_allocatorV4 s.1 = Some a) (onV4 pAllocateNext a)
    (λ k s, Working (set_IPv4 t (IPString k)) true s ∧ IPString k ≠ "") (λ _, ¬ ok).
Proof.
  intros He [r w] [[Ht Hwf H4' H6' (Hm & (Hk & Hv4 & Hv6) & Hu) HC Hr Hr4] Ha]. unfold onV4. simpl in *. rewrite Ha in H4', Hr4.
  destruct H4' as [Hh Hwa]. pose proof (pAllocateNext_law a Hwa) as Hl. pose proof (next_valid a) as Hnv.
  destruct (pAllocateNext a) as [[k a']|e|p|]; simpl; try done.
  - specialize (Hnv k a' Hwa eq_refl). destruct Hl as (_ & Hwf' & _). pose proof (IPString_nonempty k Hnv) as Hne.
    split; [|done]. split; try done. unfold extends, keeps_numbers. split_and!; try done. simpl. intros Hne'. exfalso. by rewrite Hv4 in He.
  - intros Hok. destruct (Hr4 Hok He) as (v & Hf & Hn). by apply Hn, Hl.
Qed.

Lemma fill_v6 t upd a : t_IPv6 t = "" →
  tri (λ s, Working t upd s ∧ r_allocatorV6 s.1 = Some a) (attempt (onV6 pAllocateNext a))
    (λ res s, let k := match res with inl ip => ip | inr _ => [] end in
       Working (set_IPv6 t (IPString k)) true s ∧ IPString k ≠ "") (λ _, ¬ ok).
Proof.
  intros He [r w] [[Ht Hwf H4' H6' (Hm & (Hk & Hv4 & Hv6) & Hu) HC Hr Hr4] Ha]. unfold attempt, onV6. simpl in *.
  pose proof H6' as Hw6. rewrite Ha in H6'. destruct H6' as [Hh6 Hwa].
  pose proof (pAllocateNext_law a Hwa) as Hl. pose proof (next_valid a) as Hnv.
  assert (∀ k : IP, t_IPv6 t0 ≠ "" → IPString k = t_IPv6 t0) as Hx by (intros k Hne; by rewrite Hv6 in He).
  destruct (pAllocateNext a) as [[k a']|e|p|]; simpl; try done.
  - specialize (Hnv k a' Hwa eq_refl). destruct Hl as (_ & Hwf' & _). split; [|by apply IPString_nonempty].
    split; try done. unfold extends, keeps_numbers. split_and!; try done. apply Hx.
  - split; [|done]. split; try done. unfold extends, keeps_numbers. split_and!; try done. apply (Hx []).
Qed.

Lemma fill_write t upd :
  tri (λ s, Working t upd s ∧ has_numbers h4 h6 t) (updateEgressTunnel t) (λ _ s, Filled h4 h6 t0 s) (λ _, ¬ ok).
Proof.
  intros [r w] [[Ht _ _ _ (Hm & Hk & _) HC _ _] Hn]. pose proof (update_writes r w t) as Hw. unfold Filled. simpl in *.
  assert (ok → is_ret (updateEgressTunnel t (r, w)).2 = true) as Hok.
  { intros Hok. unfold updateEgressTunnel, mbind_, getR, attempt, api. cbn [fst snd].
    destruct (Hcalm Hok w (HC Hok)) as (_ & _ & Hc). destruct (Hc _ _ Ht eq_refl) as [_ Hu]. set (tp := set_Phase t _).
    destruct (Hu tp Hm) as [Hr _]. by destruct (tnUpdateStatus tp w) as [w' [u|e|p|]]. }
  destruct (updateEgressTunnel t (r, w)) as [s' [[]|e|p|]]; simpl in *; try (intros Ho; by apply Hok in Ho).
  destruct (Hw s' eq_refl) as (t' & Ht' & _ & Hst). rewrite Hm in Ht'. exists t'. split; [done|].
  unfold has_numbers, keeps_numbers in *. by rewrite Hst.
Qed.

(** Nothing to write. *)
Lemma fill_none t s : Working t false s → has_numbers h4 h6 t → Filled h4 h6 t0 s.
Proof.
  intros [Ht _ _ _ (_ & _ & Hu) _ _ _] Hn. destruct (Hu eq_refl) as (Em & E4 & E6). exists t0. split; [done|].
  unfold has_numbers, keeps_numbers in *. by rewrite <- Em, <- E4, <- E6.
Qed.

Lemma keep_fills : tri (Working t0 false) (keepEgressTunnel t0) (λ _ s, Filled h4 h6 t0 s) (λ _, ¬ ok).
Proof.
  unfold keepEgressTunnel. set (t1 := if decide (t_MAC t0 = "") then _ else t0).
  apply (tri_pre _ (Working t1 false)).
  { intros s []. unfold t1. case_decide; by split. }
  eapply (tri_bind _ _ _ (λ res s, match res with inr _ => ¬ ok | inl (t2, u, _) => Working t2 u s ∧ t_Mark t2 ≠ "" end)).
  { case_decide; [|by apply tri_ret]. eapply tri_bind; [by apply tri_attempt, fill_mark|]. intros [k|e]; by apply tri_ret. }
  intros [[[t2 u2] rb]|e]; [|by intros [r w] Hs]. apply tri_getR. intros r.
  eapply (tri_bind _ _ _ (λ res s, match res with inr _ => ¬ ok | inl (t3, u, _) =>
    Working t3 u s ∧ t_Mark t3 ≠ "" ∧ (h4 = true → t_IPv4 t3 ≠ "") end)).
  { destruct (r_allocatorV4 r) as [a|] eqn:Ha.
    2: { apply tri_ret. intros s [[HW ?] <-]. split_and!; try done. pose proof (wo_v4 _ _ _ HW) as A4. rewrite Ha in A4. simpl in A4. congruence. }
    case_decide; [|apply tri_ret; by intros s [[? ?] _]].
    eapply tri_bind; [apply tri_attempt, (tri_pure (t_Mark t2 ≠ "")); [|intros Hm; eapply tri_pre; [|by apply fill_v4]]|].
    - by intros s [[_ ?] _].
    - by intros s [[? _] <-].
    - intros [k|e]; apply tri_ret; [|done]. intros s [[? ?] ?]. done. }
  clear r. intros [[[t3 u3] rb3]|e]; [|by apply tri_exit]. apply tri_getR. intros r.
  eapply (tri_bind _ _ _ (λ res s, Working res.1.1 res.1.2 s ∧ has_numbers h4 h6 res.1.1)).
  { destruct (r_allocatorV6 r) as [a|] eqn:Ha.
    2: { apply tri_ret. intros s [[HW [? ?]] <-]. unfold has_numbers. split_and!; try done.
         pose proof (wo_v6 _ _ _ HW) as A6. rewrite Ha in A6. simpl in A6. congruence. }
    case_decide; [|apply tri_ret; by intros s [[? [? ?]] _]].
    eapply tri_bind; [apply (tri_pure (t_Mark t3 ≠ "" ∧ (h4 = true → t_IPv4 t3 ≠ ""))); [|intros Hm; eapply tri_pre; [|by apply fill_v6]]|].
    - by intros s [[_ ?] _].
    - by intros s [[? _] <-].
    - intros res. apply tri_ret. intros s [[? ?] [? ?]]. done. }
  intros [[t4 u4] rb4]. cbn [fst snd]. destruct u4.
  - eapply tri_bind; [apply tri_attempt, fill_write|]. intros [u|e]; by apply tri_exit.
  - apply tri_exit. intros s [? ?]. by eapply fill_none.
Qed.
End fill.

(** Nothing stands in the way of giving [t] its numbers. *)
Definition can_fill (now : Z) (C : W → Prop) (t : EgressTunnel) s : Prop :=
  calm now C ∧ C s.2 ∧ (t_Mark t = "" → room (r_mark s.1)) ∧ (t_IPv4 t = "" → roomBy (r_allocatorV4 s.1)).

Lemma Inv_Working ok now C s t : Inv s → tunnels s.2 !! t_name t = Some t → (ok → can_fill now C t s) →
  Working ok C (isSome (r_allocatorV4 s.1)) (isSome (r_allocatorV6 s.1)) t t false s.
Proof.
  intros [_ Hwf _ B4 B6] Ht Hok. unfold backedBy in *. split; try done; try (intros Ho; by apply Hok).
  - unfold wfBy. destruct (r_allocatorV4 s.1); [|done]. by destruct B4.
  - unfold wfBy. destruct (r_allocatorV6 s.1); [|done]. by destruct B6.
Qed.

Lemma getTunnel_calm now C s n t : tunnels s.2 !! n = Some t → t_name t = n →
  let '(s1, o) := getOrAbsent (api (tnGet n)) s in
  match o with
  | Ret x => x = Some t ∧ s1.1 = s.1 ∧ tunnels s1.2 = tunnels s.2 ∧ (calm now C → C s.2 → C s1.2)
  | _ => ¬ (calm now C ∧ C s.2)
  end.
Proof.
  intros Ht Hn. destruct s as [r w]. unfold getOrAbsent, mbind_, attempt, api. simpl in *.
  assert (calm now C → C w → is_ret (tnGet n w).2 = true ∧ C (tnGet n w).1) as Hc
    by (intros Hc Hw; destruct (Hc w Hw) as (_ & _ & Ho); by apply (Ho n t)).
  pose proof (tnGet_law n w) as (Hs & Hr & Ha). destruct (tnGet n w) as [w' [t1|e|p|]]; simpl in *.
  - split_and!; [|done|done|naive_solver]. specialize (Hr t1 eq_refl). congruence.
  - destruct (IsNotFound e) eqn:He; simpl; [|naive_solver]. apply bool_decide_eq_true in He as ->. specialize (Ha eq_refl). congruence.
  - naive_solver.
  - naive_solver.
Qed.

(** C28. The event of a stored tunnel that is not being deleted: when the handler
    returns, the tunnel has a mark and an address (or, for IPv6, the text of
    one) of every enabled family, and every number that it had; and the handler
    returns whenever the calls succeed and the pools of marks and of IPv4
    addresses have a number left for what is missing. *)
Theorem reconciled_tunnel_has_numbers cfg now C s t : Inv s → tunnels s.2 !! t_name t = Some t →
  om_Deleting (t_Meta t) = false →
  let s' := reconcileEGN cfg (t_name t) s in
  (is_ret s'.2 = true → Filled (isSome (r_allocatorV4 s.1)) (isSome (r_allocatorV6 s.1)) t s'.1) ∧
  (can_fill now C t s → is_ret s'.2 = true).
Proof.
  intros HI Ht Hdel s'. set (ok := can_fill now C t s).
  assert (match s'.2 with Ret _ => Filled (isSome (r_allocatorV4 s.1)) (isSome (r_allocatorV6 s.1)) t s'.1 | _ => ¬ ok end) as Hs.
  2: { destruct (s'.2); simpl; naive_solver. }
  subst s'. unfold reconcileEGN, mbind_. pose proof (getTunnel_calm now C _ _ _ Ht eq_refl) as Hg.
  destruct (getOrAbsent (api (tnGet (t_name t))) s) as [s1 [o|e|p|]]; simpl in *; try (intros Ho; by apply Hg; destruct Ho as (? & ? & _)).
  destruct Hg as (-> & E1 & E2 & HC). simpl. rewrite Hdel. rewrite <- E1.
  assert (ok → can_fill now C t s1) as Hok.
  { intros (Hc & Hw & Hr & Hr4). split; [done|]. rewrite E1. split_and!; auto. }
  assert (Inv s1) as HI1 by (unfold Inv in *; by rewrite E1, E2). rewrite <- E2 in Ht.
  pose proof (keep_fills ok now C (λ Ho, proj1 (Hok Ho)) _ _ t s1 (Inv_Working ok now C s1 t HI1 Ht Hok)) as Hk.
  by destruct (keepEgressTunnel t s1) as [s2 [u|e|p|]].
Qed.

(** ** Heartbeats *)

Definition late (cfg : TunnelConfig) (now : Z) (t : EgressTunnel) : Prop :=
  (ts_LastHeartbeatTime (t_Status t) + timeSeconds (tc_EipEvictionTimeout cfg) < now)%Z.
#[local] Instance late_dec cfg now t : Decision (late cfg now t).
Proof. unfold late. apply _. Defined.

(** The status of a tunnel after a check at time [now]. *)
Definition checkedStatus (cfg : TunnelConfig) (now : Z) (t : EgressTunnel) : EgressTunnelStatus :=
  t_Status (if decide (late cfg now t) then set_Phase t EgressTunnelHeartbeatTimeout else t).

(** One check changes one tunnel only, and that one as it should. *)
Lemma checkHeartbeat_one cfg now C s n t : calm now C → C s.2 → tunnels s.2 !! n = Some t → t_name t = n →
  ∃ s', checkHeartbeat cfg n s = (s', Ret tt) ∧ C s'.2 ∧ (∀ k, k ≠ n → tunnels s'.2 !! k = tunnels s.2 !! k) ∧
    ∃ t', tunnels s'.2 !! n = Some t' ∧ t_name t' = n ∧ t_Status t' = checkedStatus cfg now t.
Proof.
  intros Hc HC Hn Hname. destruct s as [r w]. unfold checkHeartbeat, mbind_, attempt, api. simpl in *.
  destruct (Hc w HC) as (_ & _ & Hok). destruct (Hok n t Hn Hname) as [[Hg HC1] _].
  pose proof (tnGet_law n w) as (Hs & Hr & _). destruct (tnGet n w) as [w1 [t1|e|p|]]; simpl in *; try done.
  assert (t1 = t) as -> by (specialize (Hr t1 eq_refl); congruence).
  destruct (Hc w1 HC1) as ([Hnow HC2] & _ & _). pose proof (tnNow_law w1) as Hs2.
  destruct (tnNow w1) as [w2 [now'|e|p|]]; simpl in *; try done.
  injection Hnow as ->. rewrite Hs in Hs2. unfold checkedStatus.
  destruct (decide (late cfg now t)) as [Hlate|Hlate]; [rewrite decide_True by exact Hlate|rewrite decide_False by exact Hlate].
  2: { exists (r, w2). simpl. rewrite Hs2. split_and!; [done|done|done|]. exists t. done. }
  case_decide as Hph.
  { exists (r, w2). simpl. rewrite Hs2. split_and!; [done|done|done|]. exists t. split_and!; [done|done|].
    destruct t as [mt [u ph mk hb]]. simpl in *. by subst. }
  destruct (Hc w2 HC2) as (_ & _ & Hok2). rewrite Hs2 in Hok2. destruct (Hok2 n t Hn Hname) as [_ Hu].
  set (tp := set_Phase t EgressTunnelHeartbeatTimeout) in *.
  destruct (Hu tp eq_refl) as [Hur HC3]. pose proof (tnUpdateStatus_law tp w2) as Hl. change (t_name tp) with (t_name t) in Hl.
  cbn [snd fst]. destruct (tnUpdateStatus tp w2) as [w3 [u|e|p|]]; simpl in *; try done.
  destruct Hl as (t0 & t' & H0t & (Hn' & _ & _ & Hst) & Hw). rewrite Hs2, Hname in *.
  assert (t0 = t) as -> by congruence. exists (r, w3). simpl. rewrite Hw. split_and!; [done|done| |].
  - intros k Hk. by rewrite lookup_insert_ne.
  - exists t'. rewrite lookup_insert_eq. simpl in *. split_and!; [done|congruence|done].
Qed.

Lemma heartbeat_loop cfg now C l s : calm now C → C s.2 → NoDup ((λ t, t_name t) <$> l) →
  (∀ t, t ∈ l → tunnels s.2 !! t_name t = Some t) →
  ∃ s', mforeach (λ item _, checkHeartbeat cfg (t_name item)) l tt s = (s', Ret tt) ∧
    (∀ k, (k ∉ (λ t, t_name t) <$> l) → tunnels s'.2 !! k = tunnels s.2 !! k) ∧
    ∀ t, t ∈ l → ∃ t', tunnels s'.2 !! t_name t = Some t' ∧ t_Status t' = checkedStatus cfg now t.
Proof.
  intros Hc. revert s. induction l as [|t l IH]; intros s HC Hnd Hin; simpl.
  { exists s. split_and!; [done|done|]. intros t Ht. by apply not_elem_of_nil in Ht. }
  rewrite fmap_cons in Hnd. apply NoDup_cons in Hnd as [Hnt Hnd].
  destruct (checkHeartbeat_one cfg now C s (t_name t) t Hc HC) as (s1 & E1 & HC1 & Hk1 & t1 & Ht1 & _ & Hst1);
    [by apply Hin, list_elem_of_here|done|].
  destruct (IH s1 HC1 Hnd) as (s2 & E2 & Hk2 & Hl2).
  { intros t0 Ht0. rewrite Hk1; [by apply Hin, list_elem_of_further|]. intros He. apply Hnt.
    apply list_elem_of_fmap. by exists t0. }
  exists s2. unfold mbind_. rewrite E1. split_and!; [done| |].
  - intros k Hk. apply not_elem_of_cons in Hk. destruct Hk as [Hk Hkl]. rewrite Hk2 by done. by apply Hk1.
  - intros t0 [->|Ht0]%elem_of_cons; [|by apply Hl2]. exists t1. rewrite Hk2 by done. done.
Qed.

(** A list of the tunnels has each once, by its name. *)
Lemma listed_tunnels m l : meta_ok m → l ≡ₚ (map_to_list m).*2 →
  NoDup ((λ t, t_name t) <$> l) ∧ ∀ t, t ∈ l ↔ m !! t_name t = Some t.
Proof.
  intros Hm Hp. split.
  - rewrite Hp, <- list_fmap_compose. rewrite (list_fmap_ext _ fst); [apply NoDup_fst_map_to_list|].
    intros i [k t] Hi. simpl. apply Hm, elem_of_map_to_list. by eapply list_elem_of_lookup_2.
  - intros t. rewrite Hp, list_elem_of_fmap. split.
    + intros ([k t'] & -> & Hk%elem_of_map_to_list). simpl. by destruct (Hm _ _ Hk) as [-> _].
    + intros Ht. exists (t_name t, t). split; [done|]. by apply elem_of_map_to_list.
Qed.

(** C35. A health check of the tunnels, when the calls succeed, sets exactly the
    tunnels whose last heartbeat is older than the eviction timeout to
    HeartbeatTimeout, and changes nothing else of any status. *)
Theorem health_check_finds_late_tunnels cfg now C s : calm now C → C s.2 → meta_ok (tunnels s.2) →
  ∃ s', tunnelListCheck cfg s = (s', Ret tt) ∧ dom (tunnels s'.2) = dom (tunnels s.2) ∧
    ∀ n t, tunnels s.2 !! n = Some t →
      ∃ t', tunnels s'.2 !! n = Some t' ∧ t_Status t' = checkedStatus cfg now t.
Proof.
  intros Hc HC Hm. unfold tunnelListCheck, mbind_ at 1, api. destruct (Hc s.2 HC) as (_ & [Hl HC1] & _).
  pose proof (tnList_law s.2) as [Hs Hp]. destruct (tnList s.2) as [w1 [l|e|p|]]; try done. simpl in Hs, Hp, HC1.
  specialize (Hp l eq_refl).
  destruct (listed_tunnels _ _ Hm Hp) as [Hnd Hin].
  destruct (heartbeat_loop cfg now C l (s.1, w1) Hc HC1) as (s' & E & Hk & Hl').
  - done.
  - intros t Ht. simpl. rewrite Hs. by apply Hin.
  - simpl in *. exists s'. split; [done|]. rewrite Hs in Hk. split.
    + apply set_eq. intros k. rewrite !elem_of_dom. destruct (tunnels s.2 !! k) as [t|] eqn:Ek.
      * destruct (Hm _ _ Ek) as [<- _]. destruct (Hl' t) as (t' & -> & _); [by apply Hin|]. done.
      * rewrite Hk; [by rewrite Ek|]. intros (t & -> & Ht%Hin)%list_elem_of_fmap. congruence.
    + intros n t Ht. destruct (Hm _ _ Ht) as [<- _]. apply Hl'. by apply Hin.
Qed.

Lemma heartbeat_keeps cfg : tri Inv (tunnelListCheck cfg) (λ _, Inv) Inv.
Proof.
  unfold tunnelListCheck. eapply (tri_bind _ _ _ (λ _, Inv)).
  { apply tri_api. intros r w HI. pose proof (tnList_law w) as [Hs _]. destruct (tnList w) as [w' [l|e|p|]]; by eapply Inv_same. }
  intros l. generalize tt. induction l as [|x l IH]; intros u; simpl; [by apply tri_ret|].
  eapply (tri_bind _ _ _ (λ _, Inv)); [|apply IH]. clear IH. unfold checkHeartbeat.
  eapply (tri_bind _ _ _ (λ o s, Inv s ∧ match o with inl t => tunnels s.2 !! t_name x = Some t | inr _ => True end)).
  { intros [r w] HI. unfold attempt, api. simpl. pose proof (tnGet_law (t_name x) w) as (Hs & Hr & _).
    destruct (tnGet (t_name x) w) as [w' [t|e|p|]]; simpl in *; try by eapply Inv_same.
    - split; [by eapply Inv_same|]. rewrite Hs. by apply Hr.
    - split; [by eapply Inv_same|done]. }
  intros [t|e]; [|apply tri_ret; by intros s [? _]].
  eapply (tri_bind _ _ _ (λ _ s, Inv s ∧ tunnels s.2 !! t_name x = Some t)).
  { apply tri_api. intros r w [HI Ht]. pose proof (tnNow_law w) as Hs. destruct (tnNow w) as [w' [z|e|p|]]; simpl in *;
      try (by eapply Inv_same). split; [by eapply Inv_same|by rewrite Hs]. }
  intros now. case_decide; [|apply tri_ret; by intros s [? _]]. case_decide; [apply tri_ret; by intros s [? _]|].
  eapply (tri_bind _ _ _ (λ _, Inv)); [|intros ?; by apply tri_ret].
  eapply tri_post; [apply tri_attempt; eapply tri_pre; [|apply (write_keeps (t_name x))]|by intros [|]|done].
  intros s [HI Ht]. by apply set_Phase_upd, Inv_Upd.
Qed.

(** ** Runs *)

(** What others do: a tunnel they create holds nothing, and they leave what a
    tunnel holds alone. *)
Definition others_ok m m' : Prop := ∀ n t', m' !! n = Some t' →
  (t_name t' = n ∧ (om_Finalizers (t_Meta t') = [] ∨ om_Finalizers (t_Meta t') = [egressTunnelFinalizers])) ∧
  ((markOf t' = None ∧ v4Of t' = None ∧ v6Of t' = None) ∨
   ∃ t, m !! n = Some t ∧ markOf t' = markOf t ∧ v4Of t' = v4Of t ∧ v6Of t' = v6Of t).

(** The handler of a tunnel that is being deleted succeeds, and the node of a
    node event exists. *)
Inductive tunnel_step : R * W → R * W → Prop :=
| step_others r w w' : others_ok (tunnels w) (tunnels w') → tunnel_step (r, w) (r, w')
| step_tunnel cfg n s : (deleting n s → is_ret (reconcileEGN cfg n s).2 = true) →
    tunnel_step s (reconcileEGN cfg n s).1
| step_node cfg n s : node_lives n s → tunnel_step s (reconcileTunnelNode cfg n s).1
| step_health cfg s : tunnel_step s (tunnelListCheck cfg s).1.

Lemma backed_others S f m m' : backed S f m →
  (∀ n t', m' !! n = Some t' → f t' = None ∨ ∃ t, m !! n = Some t ∧ f t' = f t) → backed S f m'.
Proof.
  intros [Ht Hu] Hm. split.
  - intros n t v Hn Hv. destruct (Hm n t Hn) as [|(t0 & Hn0 & He)]; [congruence|]. apply (Ht n t0 v); congruence.
  - intros n1 n2 t1 t2 v H1' H2' V1 V2. destruct (Hm _ _ H1') as [|(t3 & H3' & E3)]; [congruence|].
    destruct (Hm _ _ H2') as [|(t4 & H4' & E4)]; [congruence|]. apply (Hu n1 n2 t3 t4 v); congruence.
Qed.

Lemma tri_keeps {A} (P : R * W → Prop) (c : TM A) s : tri P c (λ _, Inv) Inv → P s → Inv (c s).1.
Proof. intros Hc Hs. specialize (Hc s Hs). by destruct (c s).2. Qed.

Lemma tunnel_runs s0 s : Inv s0 → rtc tunnel_step s0 s → Inv s.
Proof.
  intros HI Hr. induction Hr as [|s1 s2 s3 Hs _ IH]; [done|]. apply IH. clear IH. destruct Hs as [r w w' Ho|cfg n s Hd|cfg n s Hl|cfg s].
  - destruct HI as [Hm Hwf Hk H4 H6]. simpl in *. split; simpl; [|done|..].
    + intros n t Hn. by apply (Ho n t Hn).
    + eapply backed_others; [done|]. intros n t Hn. destruct (Ho n t Hn) as [_ [?|?]]; naive_solver.
    + unfold backedBy in *. destruct (r_allocatorV4 r); [|done]. destruct H4. split; [done|].
      eapply backed_others; [done|]. intros n t Hn. destruct (Ho n t Hn) as [_ [?|?]]; naive_solver.
    + unfold backedBy in *. destruct (r_allocatorV6 r); [|done]. destruct H6. split; [done|].
      eapply backed_others; [done|]. intros n t Hn. destruct (Ho n t Hn) as [_ [?|?]]; naive_solver.
  - by apply egn_keeps.
  - by apply (tri_keeps _ _ _ (node_keeps cfg n)).
  - by apply (tri_keeps _ _ _ (heartbeat_keeps cfg)).
Qed.

(** C7. Over every run in which deletions of tunnels are carried through (no
    event of a deleted node that still has a tunnel, no failed removal of the
    finalizer), whatever calls fail otherwise: no two tunnels share a mark or
    a tunnel address, and everything a tunnel holds is taken in its
    allocator. *)
Theorem tunnels_never_share s0 s : Inv s0 → rtc tunnel_step s0 s → Inv s.
Proof. apply tunnel_runs. Qed.

(** ** Start *)

(** What is taken of a pool is what the tunnels of a list hold. *)
Definition exactly (S : gset Z) (f : EgressTunnel → option Z) (l : list EgressTunnel) : Prop :=
  ∀ v, v ∈ S ↔ ∃ t, t ∈ l ∧ f t = Some v.
Definition exactlyBy (a : option IA) (f : EgressTunnel → option Z) (l : list EgressTunnel) : Prop :=
  match a with Some a => pool_wf a ∧ exactly (taken a) f l | None => True end.

(** A text is absent, or stands for a number of the pool that no tunnel of a
    list holds. *)
Definition placeable (fit : Z → Prop) (f : EgressTunnel → option Z) (l : list EgressTunnel) (t : EgressTunnel) : Prop :=
  ∃ v, f t = Some v ∧ fit v ∧ ∀ t', t' ∈ l → f t' ≠ Some v.
Record restorable r (l : list EgressTunnel) (t : EgressTunnel) : Prop := {
  rs_mark : t_Mark t = "" ∨ placeable (fits (r_mark r)) markOf l t;
  rs_v4 : t_IPv4 t = "" ∨ ∃ a, r_allocatorV4 r = Some a ∧ placeable (fits a) v4Of l t;
  rs_v6 : t_IPv6 t = "" ∨ ∃ a, r_allocatorV6 r = Some a ∧ placeable (fits a) v6Of l t
}.

Record restored r (l : list EgressTunnel) : Prop := {
  re_wf : pool_wf (r_mark r);
  re_mark : exactly (taken (r_mark r)) markOf l;
  re_v4 : exactlyBy (r_allocatorV4 r) v4Of l;
  re_v6 : exactlyBy (r_allocatorV6 r) v6Of l
}.

Lemma exactly_none S f l t : exactly S f l → f t = None → exactly S f (l ++ [t]).
Proof.
  intros He Hf v. rewrite (He v). split; intros (t' & Ht' & Hv).
  - exists t'. set_solver.
  - apply elem_of_app in Ht' as [?|Ht']; [eauto|]. apply list_elem_of_singleton in Ht' as ->. congruence.
Qed.

Lemma exactly_add S f l t v : exactly S f l → f t = Some v → exactly ({[v]} ∪ S) f (l ++ [t]).
Proof.
  intros He Hf v'. rewrite elem_of_union, elem_of_singleton, (He v'). split.
  - intros [->|(t' & Ht' & Hv)]; [exists t|exists t']; set_solver.
  - intros (t' & Ht' & Hv). apply elem_of_app in Ht' as [?|Ht']; [eauto|].
    apply list_elem_of_singleton in Ht' as ->. left. congruence.
Qed.

(** Taking a key that is free. *)
Lemma allocate_free {A K} `{!PoolOps A K} `{!PoolLaws A K} (a : A) (k : K) (f : EgressTunnel → option Z) l t v :
  pool_wf a → key_ok k → exactly (taken a) f l → value k = Some v → fits a v → f t = Some v →
  (∀ t', t' ∈ l → f t' ≠ Some v) →
  ∃ a', pAllocate k a = Ret a' ∧ pool_wf a' ∧ exactly (taken a') f (l ++ [t]) ∧ ∀ v', fits a' v' ↔ fits a v'.
Proof.
  intros Hwf Hk He Hv Hf Hft Hno. pose proof (pAllocate_law k a Hwf Hk) as Hl. destruct (pAllocate k a) as [a'|e|p|]; try done.
  - destruct Hl as (Hwf' & Hfit & v' & Hv' & _ & Htk). simplify_eq. exists a'. split_and!; try done.
    rewrite Htk. by apply exactly_add.
  - specialize (Hl v Hv Hf). apply He in Hl as (t' & Ht' & Hv'). by destruct (Hno t').
Qed.

Lemma restored_mark r (w : W) l t : restored r l → restorable r l t →
  ∃ r' rb, rebuildMark t (r, w) = ((r', w), Ret (t, false, rb)) ∧ pool_wf (r_mark r') ∧
    exactly (taken (r_mark r')) markOf (l ++ [t]) ∧ (∀ v, fits (r_mark r') v ↔ fits (r_mark r) v) ∧
    r_allocatorV4 r' = r_allocatorV4 r ∧ r_allocatorV6 r' = r_allocatorV6 r.
Proof.
  intros [Hwf Hm _ _] [Hrm _ _]. unfold rebuildMark. destruct (decide (t_Mark t ≠ "")) as [Hne|He].
  - destruct Hrm as [?|(v & Hv & Hf & Hno)]; [done|].
    assert (value (t_Mark t) = Some v) as Hval by (unfold markOf in Hv; by rewrite decide_False in Hv).
    destruct (allocate_free (r_mark r) (t_Mark t) markOf l t v) as (a & Ha & Hwf' & Hex & Hfit); try done; [apply text_key|].
    unfold mbind_, attempt, onMark, noValue. simpl. rewrite Ha. simpl. by eexists (with_mark r a), _.
  - exists r, []. split_and!; try done. apply exactly_none; [done|]. unfold markOf. rewrite decide_True; [done|].
    by apply dec_stable.
Qed.

Lemma restored_v4 r (w : W) l t u rb : exactlyBy (r_allocatorV4 r) v4Of l →
  (t_IPv4 t = "" ∨ ∃ a, r_allocatorV4 r = Some a ∧ placeable (fits a) v4Of l t) →
  ∃ r' rb', rebuildV4 t u rb (r, w) = ((r', w), Ret (t, u, rb')) ∧ r_mark r' = r_mark r ∧
    exactlyBy (r_allocatorV4 r') v4Of (l ++ [t]) ∧ r_allocatorV6 r' = r_allocatorV6 r ∧
    (∀ a, r_allocatorV4 r = Some a → ∃ a', r_allocatorV4 r' = Some a' ∧ ∀ v, fits a' v ↔ fits a v).
Proof.
  intros He Hr. unfold rebuildV4, mbind_ at 1, getR. simpl. destruct (decide (t_IPv4 t ≠ "")) as [Hne|Hnil].
  - destruct Hr as [?|(a & Ha & v & Hv & Hf & Hno)]; [done|]. rewrite Ha in *. destruct He as [Hwf He].
    unfold v4Of in Hv. destruct (decide (To4 (ParseIP (t_IPv4 t)) = [])) as [|Hne4]; [done|].
    rewrite decide_True by done.
    destruct (allocate_free a (To4 (ParseIP (t_IPv4 t))) v4Of l t v) as (a' & Ha' & Hwf' & Hex & Hfit); try done.
    { apply address_key. destruct (ParseIP_addr_or_nil (t_IPv4 t)) as [E0|Hval]; [left; by rewrite E0|right; by apply To4_valid]. }
    { unfold v4Of. by rewrite decide_False. }
    unfold mbind_, attempt, onV4, noValue. rewrite Ha'. simpl. eexists (with_V4 r a'), _. split_and!; try done.
    intros a1 Ha1. exists a'. split; [done|]. intros v'. replace a1 with a by congruence. done.
  - exists r, rb. assert (v4Of t = None) as Hnone.
    { unfold v4Of. assert (t_IPv4 t = ""%string) as -> by (by apply dec_stable). done. }
    split_and!; try done; [|by eauto]. unfold exactlyBy in *. destruct (r_allocatorV4 r); [|done]. destruct He.
    split; [done|]. by apply exactly_none.
Qed.

Lemma restored_v6 r (w : W) l t u rb : exactlyBy (r_allocatorV6 r) v6Of l →
  (t_IPv6 t = "" ∨ ∃ a, r_allocatorV6 r = Some a ∧ placeable (fits a) v6Of l t) →
  ∃ r' rb', rebuildV6 t u rb (r, w) = ((r', w), Ret (t, u, rb')) ∧ r_mark r' = r_mark r ∧
    exactlyBy (r_allocatorV6 r') v6Of (l ++ [t]) ∧ r_allocatorV4 r' = r_allocatorV4 r ∧
    (∀ a, r_allocatorV6 r = Some a → ∃ a', r_allocatorV6 r' = Some a' ∧ ∀ v, fits a' v ↔ fits a v).
Proof.
  intros He Hr. unfold rebuildV6, mbind_ at 1, getR. simpl. destruct (decide (t_IPv6 t ≠ "")) as [Hne|Hnil].
  - destruct Hr as [?|(a & Ha & v & Hv & Hf & Hno)]; [done|]. rewrite Ha in *. destruct He as [Hwf He].
    unfold v6Of in Hv. destruct (decide (To16 (ParseIP (t_IPv6 t)) = [])) as [|Hne6]; [done|].
    rewrite decide_True by done.
    destruct (allocate_free a (To16 (ParseIP (t_IPv6 t))) v6Of l t v) as (a' & Ha' & Hwf' & Hex & Hfit); try done.
    { apply address_key. destruct (ParseIP_addr_or_nil (t_IPv6 t)) as [E0|Hval]; [left; by rewrite E0|right].
      destruct (valid_To16 _ Hval). by split; [right|]. }
    { unfold v6Of. by rewrite decide_False. }
    unfold mbind_, attempt, onV6, noValue. rewrite Ha'. simpl. eexists (with_V6 r a'), _. split_and!; try done.
    intros a1 Ha1. exists a'. split; [done|]. intros v'. replace a1 with a by congruence. done.
  - exists r, rb. assert (v6Of t = None) as Hnone.
    { unfold v6Of. assert (t_IPv6 t = ""%string) as -> by (by apply dec_stable). done. }
    split_and!; try done; [|by eauto]. unfold exactlyBy in *. destruct (r_allocatorV6 r); [|done]. destruct He.
    split; [done|]. by apply exactly_none.
Qed.

(** The numbers of the pools stay the same. *)
Definition same_pools r r' : Prop :=
  (∀ v, fits (r_mark r') v ↔ fits (r_mark r) v) ∧
  (∀ a, r_allocatorV4 r = Some a → ∃ a', r_allocatorV4 r' = Some a' ∧ ∀ v, fits a' v ↔ fits a v) ∧
  (∀ a, r_allocatorV6 r = Some a → ∃ a', r_allocatorV6 r' = Some a' ∧ ∀ v, fits a' v ↔ fits a v).

Lemma restorable_same r r' l t : same_pools r r' → restorable r l t → restorable r' l t.
Proof.
  intros (Hm & H4 & H6) [Rm R4 R6]. unfold placeable in *. split.
  - destruct Rm as [?|(v & ? & ? & ?)]; [by left|right]. exists v. by rewrite Hm.
  - destruct R4 as [?|(a & Ha & v & ? & ? & ?)]; [by left|right]. destruct (H4 a Ha) as (a' & Ha' & Hf).
    exists a'. split; [done|]. exists v. by rewrite Hf.
  - destruct R6 as [?|(a & Ha & v & ? & ? & ?)]; [by left|right]. destruct (H6 a Ha) as (a' & Ha' & Hf).
    exists a'. split; [done|]. exists v. by rewrite Hf.
Qed.

Lemma restored_one r (w : W) l t fuel : restored r l → restorable r l t →
  ∃ r', retry (S fuel) (reBuildCache t) (r, w) = ((r', w), Ret tt) ∧ restored r' (l ++ [t]) ∧ same_pools r r'.
Proof.
  intros Hr Ht. destruct (restored_mark r w l t Hr Ht) as (r1 & rb1 & E1 & Hwf1 & Hm1 & Hf1 & A4 & A6).
  destruct Hr as [_ _ He4 He6]. destruct Ht as [_ R4 R6]. rewrite <- A4 in He4, R4. rewrite <- A6 in He6, R6.
  destruct (restored_v4 r1 w l t false rb1 He4 R4) as (r2 & rb2 & E2 & Hm2 & X4 & B6 & F4).
  rewrite <- B6 in He6, R6. destruct (restored_v6 r2 w l t false rb2 He6 R6) as (r3 & rb3 & E3 & Hm3 & X6 & C4 & F6).
  exists r3. split_and!.
  - cbn [retry]. unfold mbind_ at 1, attempt, reBuildCache, mbind_. rewrite E1. rewrite E2. rewrite E3. done.
  - split; [by rewrite Hm3, Hm2|by rewrite Hm3, Hm2|by rewrite C4|done].
  - split_and!.
    + intros v. rewrite Hm3, Hm2. apply Hf1.
    + intros a Ha. rewrite C4. apply F4. by rewrite A4.
    + intros a Ha. apply F6. by rewrite B6, A6.
Qed.

(** Every tunnel of a list can be restored after the ones before it. *)
Fixpoint all_restorable r (l rest : list EgressTunnel) : Prop :=
  match rest with
  | [] => True
  | t :: rest' => restorable r l t ∧ all_restorable r (l ++ [t]) rest'
  end.

Lemma all_restorable_same r r' l rest : same_pools r r' → all_restorable r l rest → all_restorable r' l rest.
Proof.
  revert l. induction rest as [|t rest IH]; intros l Hs; [done|]. intros [? ?]. split; [by eapply restorable_same|by apply IH].
Qed.

Lemma restored_all r (w : W) l rest fuel : restored r l → all_restorable r l rest →
  ∃ r', mforeach (λ node _, retry (S fuel) (reBuildCache node)) rest tt (r, w) = ((r', w), Ret tt) ∧ restored r' (l ++ rest).
Proof.
  revert r l. induction rest as [|t rest IH]; intros r l Hr Ha.
  { exists r. rewrite app_nil_r. done. }
  destruct Ha as [Ht Ha]. destruct (restored_one r w l t fuel Hr Ht) as (r1 & E1 & Hr1 & Hs).
  destruct (IH r1 (l ++ [t]) Hr1) as (r2 & E2 & Hr2); [by eapply all_restorable_same|].
  exists r2. cbn [mforeach]. unfold mbind_. rewrite E1, E2. split; [done|]. by rewrite <- app_assoc in Hr2.
Qed.

Lemma exactly_backed S f m l : exactly S f l → l ≡ₚ (map_to_list m).*2 →
  (∀ n1 n2 t1 t2 v, m !! n1 = Some t1 → m !! n2 = Some t2 → f t1 = Some v → f t2 = Some v → n1 = n2) → backed S f m.
Proof.
  intros He Hl Hu. split; [|done]. intros n t v Hn Hv. apply He. exists t. split; [|done].
  rewrite Hl. apply list_elem_of_fmap. exists (n, t). split; [done|]. by apply elem_of_map_to_list.
Qed.

(** What the tunnels hold is what the pools can give, each number once. *)
Record holdings_ok r m : Prop := {
  ho_mark : ∀ n t, m !! n = Some t → t_Mark t ≠ "" → ∃ v, markOf t = Some v ∧ fits (r_mark r) v;
  ho_v4 : ∀ n t, m !! n = Some t → t_IPv4 t ≠ "" → ∃ a v, r_allocatorV4 r = Some a ∧ v4Of t = Some v ∧ fits a v;
  ho_v6 : ∀ n t, m !! n = Some t → t_IPv6 t ≠ "" → ∃ a v, r_allocatorV6 r = Some a ∧ v6Of t = Some v ∧ fits a v;
  ho_once : ∀ f, f = markOf ∨ f = v4Of ∨ f = v6Of →
    ∀ n1 n2 t1 t2 v, m !! n1 = Some t1 → m !! n2 = Some t2 → f t1 = Some v → f t2 = Some v → n1 = n2
}.

Lemma holdings_restorable r m l : meta_ok m → holdings_ok r m → NoDup l → (∀ t, t ∈ l → m !! t_name t = Some t) →
  ∀ pre rest, l = pre ++ rest → all_restorable r pre rest.
Proof.
  intros Hm Hh Hnd Hin. intros pre rest. revert pre. induction rest as [|t rest IH]; intros pre ->; [done|].
  split; [|apply IH; [done..|]; by rewrite <- app_assoc].
  assert (Ht : m !! t_name t = Some t) by (apply Hin; set_solver).
  assert (Hno : ∀ f, f = markOf ∨ f = v4Of ∨ f = v6Of → ∀ v, f t = Some v → ∀ t', t' ∈ pre → f t' ≠ Some v).
  { intros f Hf v Hv t' Ht' Hv'. apply NoDup_app in Hnd as (_ & Hd & _).
    assert (m !! t_name t' = Some t') as Hmt' by (apply Hin; set_solver).
    pose proof (ho_once _ _ Hh f Hf _ _ _ _ _ Hmt' Ht Hv' Hv) as He. rewrite He in Hmt'.
    assert (t' = t) as -> by congruence. apply (Hd t Ht'). apply list_elem_of_here. }
  split.
  - destruct (decide (t_Mark t = "")) as [?|Hne]; [by left|right]. destruct (ho_mark _ _ Hh _ _ Ht Hne) as (v & Hv & Hf).
    exists v. split_and!; [done|done|]. apply Hno; auto.
  - destruct (decide (t_IPv4 t = "")) as [?|Hne]; [by left|right]. destruct (ho_v4 _ _ Hh _ _ Ht Hne) as (a & v & Ha & Hv & Hf).
    exists a. split; [done|]. exists v. split_and!; [done|done|]. apply Hno; auto.
  - destruct (decide (t_IPv6 t = "")) as [?|Hne]; [by left|right]. destruct (ho_v6 _ _ Hh _ _ Ht Hne) as (a & v & Ha & Hv & Hf).
    exists a. split; [done|]. exists v. split_and!; [done|done|]. apply Hno; auto.
Qed.

Lemma exactly_perm S f l l' : l ≡ₚ l' → exactly S f l → exactly S f l'.
Proof. intros Hl He v. rewrite (He v). by setoid_rewrite Hl. Qed.

Lemma restored_perm r l l' : l' ≡ₚ l → restored r l → restored r l'.
Proof.
  intros Hl [Hwf Hk H4 H6]. unfold exactlyBy in *.
  split; [done|by eapply exactly_perm|..]; unfold exactlyBy in *; [destruct (r_allocatorV4 r)|destruct (r_allocatorV6 r)]; try done.
  - destruct H4. split; [done|by eapply exactly_perm].
  - destruct H6. split; [done|by eapply exactly_perm].
Qed.

Lemma restored_ok r m l : meta_ok m → holdings_ok r m → l ≡ₚ (map_to_list m).*2 → ∀ r', restored r' l → tunnels_ok r' m.
Proof.
  intros Hm Hh Hl r' [Hwf Hk H4 H6]. split; [done|done|..].
  - eapply exactly_backed; [done|done|]. apply (ho_once _ _ Hh). auto.
  - unfold exactlyBy, backedBy in *. destruct (r_allocatorV4 r'); [|done]. destruct H4. split; [done|].
    eapply exactly_backed; [done|done|]. apply (ho_once _ _ Hh). auto.
  - unfold exactlyBy, backedBy in *. destruct (r_allocatorV6 r'); [|done]. destruct H6. split; [done|].
    eapply exactly_backed; [done|done|]. apply (ho_once _ _ Hh). auto.
Qed.

(** C26. A controller that starts with empty allocators while the stored tunnels
    hold each number once and within the ranges rebuilds exactly what the
    tunnels hold at the first attempt, writes no tunnel, and so starts in the
    invariant. *)
Theorem restart_restores_allocators r (w : W) fuel : restored r [] → meta_ok (tunnels w) → holdings_ok r (tunnels w) →
  is_ret (tnList w).2 = true →
  ∃ r' w', initEgressTunnel (S fuel) (r, w) = ((r', w'), Ret tt) ∧ tunnels w' = tunnels w ∧
    Inv (r', w') ∧ restored r' (map_to_list (tunnels w)).*2.
Proof.
  intros Hr Hm Hh Hl. unfold initEgressTunnel, mbind_ at 1, attempt, api. simpl.
  pose proof (tnList_law w) as [Hs Hp]. destruct (tnList w) as [w1 [l|e|p|]]; try done. simpl in *.
  specialize (Hp l eq_refl). destruct (listed_tunnels _ _ Hm Hp) as [Hnd Hin].
  destruct (restored_all r w1 [] l fuel Hr) as (r' & E & Hr').
  { apply (holdings_restorable r (tunnels w) l); try done; [by eapply NoDup_fmap_1|]. intros t. apply Hin. }
  exists r', w1. split_and!; [done|done| |].
  - unfold Inv. simpl. rewrite Hs. by eapply restored_ok.
  - eapply restored_perm; [symmetry; exact Hp|done].
Qed.
End theorems.

(** ** A new controller *)

(** A tunnel subnet is a CIDR block of at most [2 ^ 64] addresses, and for IPv6
    not below [0100::]. *)
Definition subnet_ok (s : string) : Prop := ∀ ip net, ParseCIDR s = Some (ip, net) → plain net ∧ narrow net.

Section construct.
Context `{Rand}.

Lemma newAllocator_empty enable s a : newAllocator enable s = Ret a → subnet_ok s → ∀ f, exactlyBy a f [].
Proof.
  unfold newAllocator. intros Ha Hs f. destruct enable; [|by simplify_eq].
  destruct (ParseCIDR s) as [[ip net]|] eqn:E; [|done]. simplify_eq. destruct (Hs _ _ E) as [Hp Hn].
  destruct (NewCIDRRange_wf _ _ _ E Hp Hn) as [Hwf He]. split; [done|]. intros v.
  change (v ∈ addresses (NewCIDRRange net) ↔ ∃ t, t ∈ [] ∧ f t = Some v). rewrite He. set_solver.
Qed.

(** What the constructor makes is what [initEgressTunnel] needs. *)
Lemma new_controller_empty cfg r : NewEgressTunnelController cfg = Ret r → (rg_end (r_mark r) - rg_start (r_mark r) <= 2 ^ 63)%Z →
  subnet_ok (fc_TunnelIpv4Subnet cfg) → subnet_ok (fc_TunnelIpv6Subnet cfg) → restored r [].
Proof.
  intros Hc Hw H4 H6. unfold NewEgressTunnelController in Hc. apply obind_ret_inv in Hc as (m & Hm & Hc).
  apply obind_ret_inv in Hc as (a4 & E4 & Hc). apply obind_ret_inv in Hc as (a6 & E6 & Hc). injection Hc as <-. simpl in *.
  destruct (NewAllocatorMarkRange_wf _ _ Hm Hw) as [Hwf He]. split; simpl; [done| | |].
  - intros v. change (v ∈ marks m ↔ ∃ t, t ∈ [] ∧ markOf t = Some v). rewrite He. set_solver.
  - by eapply newAllocator_empty.
  - by eapply newAllocator_empty.
Qed.
End construct.
