(* ===== verification/TunnelStore.v ===== *)
(** * A concrete cluster for the tunnel controller, and its runs

    An executable store of tunnels and nodes that meets [TunnelLaws], with a
    script of failing calls.  It witnesses the theorems of [TunnelTheorems] and
    runs the two histories in which the controller lets tunnels share a mark. *)

From S2P Require Import Prelude GoStd Allocator MarkAllocator Pool GoNet IPUtil IPAllocator Types ApiServer Utils Sha1 Tunnel.
From S2P Require Import TunnelTheorems.
Open Scope nat_scope.

Record TStore := mkTStore {
  tt_tunnels : gmap string EgressTunnel;
  tt_nodes : gmap string KNode;
  tt_now : Z;
  tt_script : list bool
}.
Definition with_tunnels (w : TStore) (m : gmap string EgressTunnel) : TStore := mkTStore m (tt_nodes w) (tt_now w) (tt_script w).
Definition with_tscript (w : TStore) (l : list bool) : TStore := mkTStore (tt_tunnels w) (tt_nodes w) (tt_now w) l.

(** Each call takes one entry of the script: whether it fails. *)
Definition tcall {A} (f : TStore → TStore * outcome A) : M TStore A := λ w,
  match tt_script w with
  | true :: l => (with_tscript w l, Err (ErrApi OtherApi))
  | false :: l => f (with_tscript w l)
  | [] => f w
  end.
Definition tfound {A} (w : TStore) (o : option A) : TStore * outcome A :=
  match o with Some a => (w, Ret a) | None => (w, Err (ErrApi NotFound)) end.

(** The new version of an object; a write with an old version is refused. *)
Definition newer (m : ObjectMeta) (fin : list string) (del : bool) : ObjectMeta :=
  mkMeta (om_Name m) (om_Namespace m) (om_Labels m) fin del (S (om_ResourceVersion m)).
Definition writeTunnel (t : EgressTunnel) (put : EgressTunnel → option EgressTunnel) (w : TStore) : TStore * outcome unit :=
  match tt_tunnels w !! t_name t with
  | None => (w, Err (ErrApi NotFound))
  | Some old =>
      if decide (om_ResourceVersion (t_Meta old) ≠ om_ResourceVersion (t_Meta t)) then (w, Err (ErrApi Conflict))
      else (with_tunnels w (partial_alter (λ _, put old) (t_name t) (tt_tunnels w)), Ret tt)
  end.

#[export] Instance tstore_api : TunnelApi TStore := {
  tnGet n := tcall (λ w, tfound w (tt_tunnels w !! n));
  tnList := tcall (λ w, (w, Ret (map_to_list (tt_tunnels w)).*2));
  tnCreate t := tcall (λ w,
    match tt_tunnels w !! t_name t with
    | Some _ => (w, Err (ErrApi OtherApi))
    | None => (with_tunnels w (<[t_name t := mkEgressTunnel (newer (t_Meta t) (om_Finalizers (t_Meta t)) (om_Deleting (t_Meta t))) (t_Status t)]> (tt_tunnels w)), Ret tt)
    end);
  tnUpdateStatus t := tcall (writeTunnel t (λ old,
    Some (mkEgressTunnel (newer (t_Meta old) (om_Finalizers (t_Meta old)) (om_Deleting (t_Meta old))) (t_Status t))));
  tnUpdate t := tcall (writeTunnel t (λ old,
    if om_Deleting (t_Meta old) && bool_decide (om_Finalizers (t_Meta t) = []) then None
    else Some (mkEgressTunnel (newer (t_Meta old) (om_Finalizers (t_Meta t)) (om_Deleting (t_Meta old))) (t_Status old))));
  (** A delete request carries no version; finalizers keep the object. *)
  tnDelete t := tcall (λ w,
    match tt_tunnels w !! t_name t with
    | None => (w, Err (ErrApi NotFound))
    | Some old =>
        (with_tunnels w (partial_alter (λ _, if decide (om_Finalizers (t_Meta old) = []) then None
           else Some (mkEgressTunnel (newer (t_Meta old) (om_Finalizers (t_Meta old)) true) (t_Status old)))
           (t_name t) (tt_tunnels w)), Ret tt)
    end);
  tnGetNode n := tcall (λ w, tfound w (tt_nodes w !! n));
  tnNow := λ w, (w, Ret (tt_now w))
}.

(** A call that the script lets through is one in a state with the same
    tunnels. *)
Lemma tcall_law {A} (f : TStore → TStore * outcome A) w (P : gmap string EgressTunnel → outcome A → Prop) :
  P (tt_tunnels w) (Err (ErrApi OtherApi)) →
  (∀ w', tt_tunnels w' = tt_tunnels w → P (tt_tunnels (f w').1) (f w').2) → P (tt_tunnels (tcall f w).1) (tcall f w).2.
Proof.
  intros He Hf. unfold tcall. destruct (tt_script w) as [|[|] l]; [by apply Hf|done|by apply Hf].
Qed.

#[export] Program Instance tstore_laws : TunnelLaws TStore := {| tunnels := tt_tunnels |}.
Next Obligation.
  intros n w. apply (tcall_law _ w (λ m o, m = _ ∧ (∀ t, o = Ret t → _) ∧ (o = Err (ErrApi NotFound) → _))); [done|].
  intros w' <-. unfold tfound. destruct (tt_tunnels w' !! n); simpl; naive_solver.
Qed.
Next Obligation.
  intros w. apply (tcall_law _ w (λ m o, m = _ ∧ ∀ l, o = Ret l → _)); [done|]. intros w' <-. naive_solver.
Qed.
Next Obligation.
  intros n w. apply (tcall_law _ w (λ m o, m = _)); [done|]. intros w' <-. unfold tfound. by destruct (_ !! n).
Qed.
Next Obligation. done. Qed.
Next Obligation.
  intros t w. apply (tcall_law _ w (λ m o, match o with Ret _ => _ ∧ ∃ t', same_object t t' ∧ m = _ | _ => m = _ end)); [done|].
  intros w' <-. destruct (tt_tunnels w' !! t_name t) eqn:E; [done|]. simpl. split; [done|]. eexists. split; [|reflexivity]. done.
Qed.
Next Obligation.
  intros t w. apply (tcall_law _ w (λ m o, match o with Ret _ => ∃ t0 t', _ ∧ same_object _ t' ∧ m = _ | _ => m = _ end)); [done|].
  intros w' <-. unfold writeTunnel. destruct (tt_tunnels w' !! t_name t) as [old|] eqn:E; [|done]. case_decide; [done|].
  simpl. exists old. eexists. split_and!; [done| |reflexivity]. done.
Qed.
Next Obligation.
  intros t w. apply (tcall_law _ w (λ m o, match o with Ret _ => ∃ t0, _ ∧
    if om_Deleting (t_Meta t0) && _ then m = _ else ∃ t', same_object _ t' ∧ m = _ | _ => m = _ end)); [done|].
  intros w' <-. unfold writeTunnel. destruct (tt_tunnels w' !! t_name t) as [old|] eqn:E; [|done]. case_decide; [done|].
  simpl. exists old. split; [done|]. destruct (om_Deleting (t_Meta old) && _); [done|]. eexists. split; [|reflexivity]. done.
Qed.

(** ** Sample clusters *)

Section samples.
#[local] Existing Instance rand_zero.

Abbreviation SR := (egReconciler (Range AllocationBitmap) (IPRange AllocationBitmap)).

Definition sampleConfig : FileConfig := mkFileConfig "0x26000" true "172.31.0.0/16" true "fd11::/112".
Definition sampleController : SR :=
  match NewEgressTunnelController sampleConfig with
  | Ret r => r
  | _ => mkEg example_range None None false
  end.
Definition noFailover : TunnelConfig := mkTunnelConfig false 15.

Definition readyNode (n : string) : string * KNode := (n, mkKNode (mkMeta n "" ∅ [] false 1) [mkCondition "Ready" "True"]).
(** A tunnel as the controller creates it, and one that is in use, with its heartbeat in seconds. *)
Definition emptyTunnel (n : string) : string * EgressTunnel :=
  (n, mkEgressTunnel (mkMeta n "" ∅ [egressTunnelFinalizers] false 1) (t_Status zeroTunnel)).
Definition usedTunnel (n mark v4 v6 : string) (heartbeat : Z) : string * EgressTunnel :=
  (n, mkEgressTunnel (mkMeta n "" ∅ [egressTunnelFinalizers] false 1)
        (mkTunnelStatus (mkTunnel v4 v6 (generateMACAddress n) (mkParent "eth0" "10.6.0.1" "")) EgressTunnelReady mark (1000000000 * heartbeat))).

Definition twoTunnels : TStore := mkTStore
  (list_to_map [usedTunnel "node1" "0x26001" "172.31.0.1" "fd11::1" 100; usedTunnel "node2" "0x26007" "172.31.3.9" "fd11::a" 80])
  (list_to_map [readyNode "node1"; readyNode "node2"]) 100000000000 [].

Definition threeTunnels : TStore := mkTStore
  (list_to_map [emptyTunnel "node1"; emptyTunnel "node2"; emptyTunnel "node3"])
  (list_to_map [readyNode "node2"; readyNode "node3"]) 100 [].

Definition markAt (n : string) (s : SR * TStore) : option (string * bool) :=
  (λ t, (t_Mark t, om_Deleting (t_Meta t))) <$> tunnels s.2 !! n.

Abbreviation onTunnel n s := (reconcileEGN (W := TStore) (MA := Range AllocationBitmap) (IA := IPRange AllocationBitmap) noFailover n s).1.
Abbreviation onNode n s := (reconcileTunnelNode (W := TStore) (MA := Range AllocationBitmap) (IA := IPRange AllocationBitmap) noFailover n s).1.

Lemma sampleController_empty : restored sampleController [].
Proof.
  apply (new_controller_empty sampleConfig); [reflexivity|by vm_compute|..].
  - intros ip net E. vm_compute in E. injection E as <- <-. split; [intros Hx; discriminate|by vm_compute].
  - intros ip net E. vm_compute in E. injection E as <- <-. split; [intros _|]; by vm_compute.
Qed.

(** ** Witnesses *)

(** Two nodes come up, get tunnels, and the tunnels get numbers. *)
Definition noTunnels : TStore := mkTStore ∅ (list_to_map [readyNode "node1"; readyNode "node2"]) 100 [].
Definition twoNodesUp : SR * TStore := onTunnel "node2" (onNode "node2" (onTunnel "node1" (onNode "node1" (sampleController, noTunnels)))).

Lemma Inv_none (r : SR) (w : TStore) : restored r [] → tunnels w = ∅ → Inv (r, w).
Proof.
  intros [Hwf _ H4 H6] Hw. unfold Inv. cbn [fst snd]. rewrite Hw.
  split; [done|done|by split|..]; unfold exactlyBy, backedBy in *.
  - destruct (r_allocatorV4 r); [|done]. split; [apply H4|by split].
  - destruct (r_allocatorV6 r); [|done]. split; [apply H6|by split].
Qed.

Lemma tunnels_never_share_witness : Inv twoNodesUp ∧
  markAt "node1" twoNodesUp = Some ("0x26001", false) ∧ markAt "node2" twoNodesUp = Some ("0x26002", false).
Proof.
  split_and!; [|vm_compute; reflexivity..].
  apply (tunnels_never_share (sampleController, noTunnels)); [by apply Inv_none; [apply sampleController_empty|]|]. unfold twoNodesUp.
  eapply rtc_l; [apply (step_node noFailover "node1"); left; vm_compute; reflexivity|].
  eapply rtc_l; [apply (step_tunnel noFailover "node1"); intros _; vm_compute; reflexivity|].
  eapply rtc_l; [apply (step_node noFailover "node2"); left; vm_compute; reflexivity|].
  eapply rtc_l; [apply (step_tunnel noFailover "node2"); intros _; vm_compute; reflexivity|]. apply rtc_refl.
Defined.

(** A check at time 100, with a timeout of 15 seconds: the tunnel of node2, last
    heard of at 80, is late. *)
Lemma twoTunnels_lookup n t : tunnels twoTunnels !! n = Some t →
  (n, t) = usedTunnel "node1" "0x26001" "172.31.0.1" "fd11::1" 100 ∨ (n, t) = usedTunnel "node2" "0x26007" "172.31.3.9" "fd11::a" 80.
Proof. intros Hn. apply elem_of_list_to_map_2 in Hn. set_solver. Qed.

Lemma twoTunnels_meta : meta_ok (tunnels twoTunnels).
Proof. intros n t [E|E]%twoTunnels_lookup; injection E as -> ->; (split; [reflexivity|by right]). Qed.

Lemma calm_store now : calm (W := TStore) now (λ w, tt_script w = [] ∧ tt_now w = now).
Proof.
  intros w [Hs Hn]. split; [by simpl; rewrite Hn|]. split; [by simpl; unfold tcall; rewrite Hs|].
  intros n t Ht Hname. simpl in *. split; [by unfold tcall; rewrite Hs, Ht|].
  intros t' Hm. unfold tcall, writeTunnel. rewrite Hs, Hm, Hname, Ht, decide_False by auto. done.
Qed.

Lemma health_check_finds_late_tunnels_witness :
  ∃ s', tunnelListCheck noFailover (sampleController, twoTunnels) = (s', Ret tt) ∧
    (∃ t1, tunnels s'.2 !! "node1" = Some t1 ∧ ts_Phase (t_Status t1) = EgressTunnelReady) ∧
    ∃ t2, tunnels s'.2 !! "node2" = Some t2 ∧ ts_Phase (t_Status t2) = EgressTunnelHeartbeatTimeout.
Proof.
  destruct (health_check_finds_late_tunnels noFailover 100000000000 (λ w, tt_script w = [] ∧ tt_now w = 100000000000%Z) (sampleController, twoTunnels)
    (calm_store 100000000000) (conj eq_refl eq_refl) twoTunnels_meta) as (s' & E & _ & Hl).
  exists s'. split_and!; [exact E| |].
  - destruct (Hl "node1" (usedTunnel "node1" "0x26001" "172.31.0.1" "fd11::1" 100).2 eq_refl) as (t1 & H1 & S1).
    exists t1. split; [exact H1|]. rewrite S1. vm_compute. reflexivity.
  - destruct (Hl "node2" (usedTunnel "node2" "0x26007" "172.31.3.9" "fd11::a" 80).2 eq_refl) as (t2 & H2' & S2).
    exists t2. split; [exact H2'|]. rewrite S2. vm_compute. reflexivity.
Defined.

(** Evaluate the tunnels of the sample. *)
Ltac sample H := apply twoTunnels_lookup in H as [H|H]; injection H as -> ->.

Lemma twoTunnels_holdings : holdings_ok sampleController (tunnels twoTunnels).
Proof.
  split.
  - intros n t Hn _. sample Hn; eexists; (split; [vm_compute; reflexivity|by vm_compute]).
  - intros n t Hn _. sample Hn; eexists _, _; (split_and!; [vm_compute; reflexivity..|by vm_compute]).
  - intros n t Hn _. sample Hn; eexists _, _; (split_and!; [vm_compute; reflexivity..|by vm_compute]).
  - intros f Hf n1 n2 t1 t2 v H1 H2 V1 V2. sample H1; sample H2; try done;
      destruct Hf as [-> | [-> | ->]]; vm_compute in V1, V2; congruence.
Qed.

Lemma restart_restores_allocators_witness :
  ∃ r' w', initEgressTunnel 1 (sampleController, twoTunnels) = ((r', w'), Ret tt) ∧ tunnels w' = tunnels twoTunnels ∧
    Inv (r', w') ∧ restored r' (map_to_list (tunnels twoTunnels)).*2.
Proof.
  apply (restart_restores_allocators sampleController twoTunnels 0);
    [apply sampleController_empty|apply twoTunnels_meta|apply twoTunnels_holdings|reflexivity].
Defined.

Lemma room_none v : fits (r_mark sampleController) v → room (r_mark sampleController).
Proof.
  intros Hv. exists v. split; [done|]. intros (t & Ht & _)%(re_mark _ _ sampleController_empty). by apply not_elem_of_nil in Ht.
Qed.

Lemma room4_none v : match r_allocatorV4 sampleController with Some a => fits a v | None => True end →
  roomBy (r_allocatorV4 sampleController).
Proof.
  pose proof (re_v4 _ _ sampleController_empty) as He. unfold exactlyBy, roomBy in *.
  destruct (r_allocatorV4 sampleController); [|done]. intros Hv. exists v. split; [done|].
  intros (t & Ht & _)%He. by apply not_elem_of_nil in Ht.
Qed.

(** The event of a tunnel that has just been created. *)
Lemma reconciled_tunnel_has_numbers_witness :
  is_ret (reconcileEGN noFailover "node1" (onNode "node1" (sampleController, noTunnels))).2 = true ∧
  ∃ t', tunnels (onTunnel "node1" (onNode "node1" (sampleController, noTunnels))).2 !! "node1" = Some t' ∧ t_Mark t' ≠ "" ∧ t_IPv4 t' ≠ "".
Proof.
  set (s := onNode "node1" (sampleController, noTunnels)). set (t := (emptyTunnel "node1").2).
  assert (Ht : tunnels s.2 !! "node1" = Some t) by (vm_compute; reflexivity).
  assert (HI : Inv s).
  { apply (tri_keeps _ _ _ (node_keeps noFailover "node1")). split; [|left; reflexivity].
    apply Inv_none; [apply sampleController_empty|reflexivity]. }
  destruct (reconciled_tunnel_has_numbers noFailover 100 (λ w, tt_script w = [] ∧ tt_now w = 100%Z) s t HI Ht eq_refl) as [Hf Hr].
  change (t_name t) with "node1"%string in *.
  assert (Hret : is_ret (reconcileEGN noFailover "node1" s).2 = true).
  { apply Hr. split; [apply calm_store|]. split; [by split|]. assert (s.1 = sampleController) as -> by (vm_compute; reflexivity).
    split; intros _.
    - apply (room_none 0x26001). vm_compute. done.
    - apply (room4_none (0xffff * 2 ^ 32 + 0xac1f0001)). vm_compute. done. }
  split; [exact Hret|]. destruct (Hf Hret) as (t' & Ht' & (Hm & H4 & _) & _). exists t'. split_and!; [exact Ht'|exact Hm|].
  apply H4. vm_compute. reflexivity.
Defined.

Lemma written_phase_tells_completeness_witness :
  ∃ t', tunnels (updateEgressTunnel (usedTunnel "node1" "0x26001" "172.31.0.1" "fd11::1" 100).2 (sampleController, twoTunnels)).1.2
    !! "node1" = Some t' ∧ complete true true t' ∧ ts_Phase (t_Status t') = EgressTunnelReady.
Proof.
  set (t := (usedTunnel "node1" "0x26001" "172.31.0.1" "fd11::1" 100).2).
  assert (E : updateEgressTunnel t (sampleController, twoTunnels) =
    ((updateEgressTunnel t (sampleController, twoTunnels)).1, Ret tt)) by (vm_compute; reflexivity).
  destruct (written_phase_tells_completeness sampleController twoTunnels t _ E) as (t' & Ht' & _ & Hst & Hc).
  assert (Hp : ts_Phase (t_Status t') = EgressTunnelReady).
  { revert Ht'. clear. intros Ht'. vm_compute in Ht'. injection Ht' as <-. reflexivity. }
  exists t'. split; [exact Ht'|]. split; [|exact Hp].
  apply Hc; rewrite Hp; discriminate.
Defined.

(** ** Two histories that share a mark *)

(** A node is removed from the cluster: its event releases the mark and asks for
    the deletion of the tunnel, whose finalizer keeps it.  The mark goes to
    another tunnel; the event of the deletion releases it a second time, and it
    goes to a third one.  No call fails. *)
Definition nodeRemoved : SR * TStore := onNode "node1" (onTunnel "node1" (sampleController, threeTunnels)).
Definition reused : SR * TStore := onTunnel "node2" nodeRemoved.
Definition releasedTwice : SR * TStore := onTunnel "node3" (onTunnel "node1" reused).

(** The event of a removed node releases what its tunnel holds although the
    tunnel stays until its finalizer is removed, and the event of its deletion
    releases it again: in a history of five events in which every call
    succeeds, two tunnels that nobody deletes end with the same mark. *)
Example removed_node_lets_tunnels_share :
  markAt "node1" reused = Some ("0x26001", true) ∧ markAt "node2" reused = Some ("0x26001", false) ∧
  markAt "node2" releasedTwice = Some ("0x26001", false) ∧ markAt "node3" releasedTwice = Some ("0x26001", false).
Proof. vm_compute. split_and!; reflexivity. Qed.

(** The removal of the finalizer fails once: the mark stays released (the
    rollback does not run), while the tunnel still holds it. *)
Definition failOnce (s : SR * TStore) : SR * TStore := (s.1, with_tscript s.2 [false; true]).
Definition userDeletes (n : string) (s : SR * TStore) : SR * TStore :=
  match tunnels s.2 !! n with Some t => (s.1, (tnDelete t s.2).1) | None => s end.
Lemma failed_finalizer_loses_mark :
  let s := onTunnel "node1" (failOnce (userDeletes "node1" (onTunnel "node1" (sampleController, threeTunnels)))) in
  markAt "node1" s = Some ("0x26001", true) ∧ MarkHas "0x26001" (r_mark s.1) = Ret false ∧
  markAt "node2" (onTunnel "node2" s) = Some ("0x26001", false).
Proof. vm_compute. split_and!; reflexivity. Qed.

(** ** Restarts with a duplicate *)

(** Two tunnels that share a mark still share it after a restart: it is the MAC
    of the second that is emptied.  The event of that tunnel computes a MAC but
    writes nothing, since nothing else is missing. *)
Definition twoAlike : TStore := mkTStore
  (list_to_map [usedTunnel "node1" "0x26001" "172.31.0.1" "fd11::1" 100; usedTunnel "node2" "0x26001" "172.31.3.9" "fd11::a" 80])
  (list_to_map [readyNode "node1"; readyNode "node2"]) 100 [].
Definition macAt (n : string) (s : SR * TStore) : option string := (λ t, t_MAC t) <$> tunnels s.2 !! n.
Lemma restart_keeps_shared_mark :
  let s := (initEgressTunnel 1 (sampleController, twoAlike)).1 in
  let s' := onTunnel "node2" (onTunnel "node1" s) in
  markAt "node1" s' = Some ("0x26001", false) ∧ markAt "node2" s' = Some ("0x26001", false) ∧
  (macAt "node1" s' = Some "" ∨ macAt "node2" s' = Some "").
Proof. vm_compute. split_and!; [reflexivity..|]. by first [left; reflexivity|right; reflexivity]. Qed.

(** IPv6 is disabled at a restart, so its address is to be removed; the write
    fails once.  The second attempt finds the mark and the IPv4 address of the
    tunnel taken, by itself, and removes the IPv4 address and the MAC. *)
Definition v4Config : FileConfig := mkFileConfig "0x26000" true "172.31.0.0/16" false "".
Definition oneTunnel (script : list bool) : TStore := mkTStore
  (list_to_map [usedTunnel "node1" "0x26001" "172.31.0.1" "fd11::1" 100]) (list_to_map [readyNode "node1"]) 100 script.
Definition restarted (script : list bool) : option (string * string) :=
  match NewEgressTunnelController v4Config with
  | Ret r => (λ t, (t_IPv4 t, t_MAC t)) <$> tunnels (initEgressTunnel 2 (r, oneTunnel script)).1.2 !! "node1"
  | _ => None
  end.
Lemma failed_rebuild_loses_address :
  restarted [] = Some ("172.31.0.1", generateMACAddress "node1") ∧ restarted [false; true] = Some ("", "").
Proof. vm_compute. split; reflexivity. Qed.

(** When no IPv6 address is left, the text of a nil address is stored. *)
Definition tinyConfig : FileConfig := mkFileConfig "0x26000" false "" true "fd11::/127".
Lemma exhausted_v6_stores_nil :
  match NewEgressTunnelController tinyConfig with
  | Ret r => (λ t, t_IPv6 t) <$> tunnels (onTunnel "node1" (onNode "node1" (r, noTunnels))).2 !! "node1" = Some "<nil>"
  | _ => False
  end.
Proof. vm_compute. reflexivity. Qed.
End samples.
