(* ===== verification/IptablesRule.v ===== *)
(** * Iptables rules ([pkg/iptables/actions.go], [match_builder.go], [rules.go])

    Matches, actions and rules, their text for [iptables-restore], and the
    hashes by which the agent recognises its rules. *)

From S2P Require Import Prelude GoStd GoNet GoFmt Sha1 Sha224.
Open Scope Z_scope.

(** What rendering and the tables read of [Options]; [nftablesMode] is what [NewTable] makes of [BackendMode]: whether it is
    [nft], in either case of letters. *)
Record Options := mkOptions {
  HistoricChainPrefixes : list string;
  InsertMode : string;
  RefreshInterval : Z;
  InitialPostWriteInterval : Z;
  SNATFullyRandom : bool;
  MASQFullyRandom : bool;
  nftablesMode : bool
}.

(** ** Actions *)

Inductive Action :=
| GotoAction (Target : string)
| JumpAction (Target : string)
| ReturnAction
| DropAction
| RejectAction
| LogAction (Prefix : string)
| AcceptAction
| DNATAction (DestAddr : string) (DestPort : Z)
| SNATAction (ToAddr : string)
| MasqAction (ToPorts : string)
| ClearMarkAction (Mark : Z)
| SetMarkAction (Mark : Z)
| SetMaskedMarkAction (Mark Mask : Z)
| NoTrackAction
| SaveConnMarkAction (SaveMask : Z)
| RestoreConnMarkAction (RestoreMask : Z)
| SetConnMarkAction (Mark Mask : Z).

(** A mask of zero stands for the full one. *)
Definition fullMask (mask : Z) : Z := if decide (mask = 0) then 0xffffffff else mask.

Definition markFragment (a : Action) : string :=
  match a with
  | ClearMarkAction m => "--jump MARK --set-mark 0/" +:+ hexOf m
  | SetMarkAction m => "--jump MARK --set-mark " +:+ hexOf m +:+ "/" +:+ hexOf m
  | SetMaskedMarkAction m k => "--jump MARK --set-mark " +:+ hexOf m +:+ "/" +:+ hexOf k
  | SaveConnMarkAction k => "--jump CONNMARK --save-mark --mask " +:+ hexOf (fullMask k)
  | RestoreConnMarkAction k => "--jump CONNMARK --restore-mark --mask " +:+ hexOf (fullMask k)
  | SetConnMarkAction m k => "--jump CONNMARK --set-mark " +:+ hexOf m +:+ "/" +:+ hexOf (fullMask k)
  | _ => ""
  end.

Definition ToFragment (opt : Options) (a : Action) : string :=
  match a with
  | GotoAction target => "--goto " +:+ target
  | JumpAction target => "--jump " +:+ target
  | ReturnAction => "--jump RETURN"
  | DropAction => "--jump DROP"
  | RejectAction => "--jump REJECT"
  | LogAction prefix =>
      "--jump LOG --log-prefix " +:+ unchars [Ascii.ascii_of_nat 34] +:+ prefix +:+ ": " +:+ unchars [Ascii.ascii_of_nat 34] +:+ " --log-level 5"
  | AcceptAction => "--jump ACCEPT"
  | DNATAction addr port =>
      if decide (port = 0) then "--jump DNAT --to-destination " +:+ addr
      else "--jump DNAT --to-destination " +:+ addr +:+ ":" +:+ Itoa port
  | SNATAction addr => "--jump SNAT --to-source " +:+ addr +:+ (if SNATFullyRandom opt then " --random-fully" else "")
  | MasqAction ports =>
      let fullyRand := if MASQFullyRandom opt then " --random-fully" else "" in
      if decide (ports ≠ "") then "--jump MASQUERADE --to-ports " +:+ ports +:+ fullyRand
      else "--jump MASQUERADE" +:+ fullyRand
  | NoTrackAction => "--jump NOTRACK"
  | _ => markFragment a
  end.

(** [Referrer]: the actions that name a chain. *)
Definition ReferencedChain (a : Action) : option string :=
  match a with GotoAction target | JumpAction target => Some target | _ => None end.

(** ** Matches *)

Definition MatchCriteria := list string.

Definition RenderMatch (m : MatchCriteria) : string := joinWords m.

Section matches.
Context (m : MatchCriteria).

Definition MarkClear (mark : Z) : outcome MatchCriteria :=
  if decide (mark = 0) then Panic "zero mark" else Ret (m ++ ["-m mark --mark 0/" +:+ hexOf mark]).
Definition MarkNotClear (mark : Z) : outcome MatchCriteria :=
  if decide (mark = 0) then Panic "zero mark" else Ret (m ++ ["-m mark ! --mark 0/" +:+ hexOf mark]).
Definition MarkMatchesWithMask (mark mask : Z) : outcome MatchCriteria :=
  if decide (mask = 0) then Panic "mask is 0"
  else if decide (Z.land mark mask ≠ mark) then Panic "mark is not contained in mask"
  else Ret (m ++ ["-m mark --mark " +:+ hexOf mark +:+ "/" +:+ hexOf mask]).
Definition NotMarkMatchesWithMask (mark mask : Z) : outcome MatchCriteria :=
  if decide (mask = 0) then Panic "mask is 0"
  else if decide (Z.land mark mask ≠ mark) then Panic "mark is not contained in mask"
  else Ret (m ++ ["-m mark ! --mark " +:+ hexOf mark +:+ "/" +:+ hexOf mask]).
(** [bits.OnesCount32]. *)
Definition OnesCount32 (x : Z) : nat := length (filter (λ i, Z.testbit x (Z.of_nat i) = true) (seq 0 32)).
Definition MarkSingleBitSet (mark : Z) : outcome MatchCriteria :=
  if decide (OnesCount32 mark ≠ 1%nat) then Panic "should only be used with a single mark bit"
  else MarkMatchesWithMask mark mark.

Definition InInterface (iface : string) : MatchCriteria := m ++ ["--in-interface " +:+ iface].
Definition SrcMacSource (mac : string) : MatchCriteria := m ++ ["-m mac --mac-source " +:+ mac].
Definition OutInterface (iface : string) : MatchCriteria := m ++ ["--out-interface " +:+ iface].
Definition RPFCheckPassed (acceptLocal : bool) : MatchCriteria :=
  (m ++ ["-m rpfilter --validmark"]) ++ (if acceptLocal then ["--accept-local"] else []).
Definition RPFCheckFailed (acceptLocal : bool) : MatchCriteria :=
  (m ++ ["-m rpfilter --invert --validmark"]) ++ (if acceptLocal then ["--accept-local"] else []).
Definition IPVSConnection : MatchCriteria := m ++ ["-m ipvs --ipvs"].
Definition NotIPVSConnection : MatchCriteria := m ++ ["-m ipvs ! --ipvs"].
Definition NotSrcAddrType (addrType : string) (limitIfaceOut : bool) : MatchCriteria :=
  m ++ ["-m addrtype ! --src-type " +:+ addrType +:+ (if limitIfaceOut then " --limit-iface-out" else "")].
Definition SrcAddrType (addrType : string) (limitIfaceOut : bool) : MatchCriteria :=
  m ++ ["-m addrtype --src-type " +:+ addrType +:+ (if limitIfaceOut then " --limit-iface-out" else "")].
Definition DestAddrType (addrType : string) : MatchCriteria := m ++ ["-m addrtype --dst-type " +:+ addrType].
Definition NotDestAddrType (addrType : string) : MatchCriteria := m ++ ["-m addrtype ! --dst-type " +:+ addrType].
Definition ConntrackState (names : string) : MatchCriteria := m ++ ["-m conntrack --ctstate " +:+ names].
Definition NotConntrackState (names : string) : MatchCriteria := m ++ ["-m conntrack ! --ctstate " +:+ names].
Definition Protocol (name : string) : MatchCriteria := m ++ ["-p " +:+ name].
Definition NotProtocol (name : string) : MatchCriteria := m ++ ["! -p " +:+ name].
Definition ProtocolNum (num : Z) : MatchCriteria := m ++ ["-p " +:+ Itoa num].
Definition NotProtocolNum (num : Z) : MatchCriteria := m ++ ["! -p " +:+ Itoa num].
Definition SourceNet (net : string) : MatchCriteria := m ++ ["--source " +:+ net].
Definition NotSourceNet (net : string) : MatchCriteria := m ++ ["! --source " +:+ net].
Definition DestNet (net : string) : MatchCriteria := m ++ ["--destination " +:+ net].
Definition NotDestNet (net : string) : MatchCriteria := m ++ ["! --destination " +:+ net].
Definition SourceIPSet (name : string) : MatchCriteria := m ++ ["-m set --match-set " +:+ name +:+ " src"].
Definition NotSourceIPSet (name : string) : MatchCriteria := m ++ ["-m set ! --match-set " +:+ name +:+ " src"].
Definition SourceIPPortSet (name : string) : MatchCriteria := m ++ ["-m set --match-set " +:+ name +:+ " src,src"].
Definition NotSourceIPPortSet (name : string) : MatchCriteria := m ++ ["-m set ! --match-set " +:+ name +:+ " src,src"].
Definition DestIPSet (name : string) : MatchCriteria := m ++ ["-m set --match-set " +:+ name +:+ " dst"].
Definition NotDestIPSet (name : string) : MatchCriteria := m ++ ["-m set ! --match-set " +:+ name +:+ " dst"].
Definition DestIPPortSet (name : string) : MatchCriteria := m ++ ["-m set --match-set " +:+ name +:+ " dst,dst"].
Definition NotDestIPPortSet (name : string) : MatchCriteria := m ++ ["-m set ! --match-set " +:+ name +:+ " dst,dst"].
Definition ICMPType (t : Z) : MatchCriteria := m ++ ["-m icmp --icmp-type " +:+ Itoa t].
Definition NotICMPType (t : Z) : MatchCriteria := m ++ ["-m icmp ! --icmp-type " +:+ Itoa t].
Definition ICMPTypeAndCode (t c : Z) : MatchCriteria := m ++ ["-m icmp --icmp-type " +:+ Itoa t +:+ "/" +:+ Itoa c].
Definition NotICMPTypeAndCode (t c : Z) : MatchCriteria := m ++ ["-m icmp ! --icmp-type " +:+ Itoa t +:+ "/" +:+ Itoa c].
Definition ICMPV6Type (t : Z) : MatchCriteria := m ++ ["-m icmp6 --icmpv6-type " +:+ Itoa t].
Definition NotICMPV6Type (t : Z) : MatchCriteria := m ++ ["-m icmp6 ! --icmpv6-type " +:+ Itoa t].
Definition ICMPV6TypeAndCode (t c : Z) : MatchCriteria := m ++ ["-m icmp6 --icmpv6-type " +:+ Itoa t +:+ "/" +:+ Itoa c].
Definition NotICMPV6TypeAndCode (t c : Z) : MatchCriteria := m ++ ["-m icmp6 ! --icmpv6-type " +:+ Itoa t +:+ "/" +:+ Itoa c].
Definition CTDirectionOriginal (direction : string) : MatchCriteria := m ++ ["-m conntrack --ctdir " +:+ direction].
(** The verb [%x] prints no prefix. *)
Definition VXLANVNI (vni : Z) : MatchCriteria :=
  let quote := unchars [Ascii.ascii_of_nat 34] in
  m ++ ["-m u32 --u32 " +:+ quote +:+ "0>>22&0x3C@12>>8=0x" +:+ unchars (FormatUint16 vni) +:+ quote].

(** [IPSetNames]: the word after every [--match-set]. *)
Fixpoint wordsAfter (words : list string) : list string :=
  match words with
  | w :: rest =>
      (if decide (w = "--match-set") then match rest with n :: _ => [n] | [] => [] end else []) ++ wordsAfter rest
  | [] => []
  end.
Definition IPSetNames : list string := m ≫= λ s, wordsAfter (Split s " "%char).
End matches.

Definition DirectionOriginal : string := "ORIGINAL".
Definition DirectionReply : string := "REPLY".

(** *** Ports *)

Record PortRange := mkPortRange { pr_First : Z; pr_Last : Z }.
Definition PortsToMultiPort (ports : list Z) : string := unchars (joinChar ","%char ((λ p, chars (Itoa p)) <$> ports)).
Definition PortRangesToMultiPort (ports : list PortRange) : string :=
  unchars (joinChar ","%char ((λ p, chars (if decide (pr_First p = pr_Last p) then Itoa (pr_First p)
    else Itoa (pr_First p) +:+ ":" +:+ Itoa (pr_Last p))) <$> ports)).

Section ports.
Context (m : MatchCriteria).
Definition SourcePorts (ports : list Z) : MatchCriteria := m ++ ["-m multiport --source-ports " +:+ PortsToMultiPort ports].
Definition NotSourcePorts (ports : list Z) : MatchCriteria := m ++ ["-m multiport ! --source-ports " +:+ PortsToMultiPort ports].
Definition DestPorts (ports : list Z) : MatchCriteria := m ++ ["-m multiport --destination-ports " +:+ PortsToMultiPort ports].
Definition NotDestPorts (ports : list Z) : MatchCriteria := m ++ ["-m multiport ! --destination-ports " +:+ PortsToMultiPort ports].
Definition SourcePortRanges (ports : list PortRange) : MatchCriteria := m ++ ["-m multiport --source-ports " +:+ PortRangesToMultiPort ports].
Definition NotSourcePortRanges (ports : list PortRange) : MatchCriteria := m ++ ["-m multiport ! --source-ports " +:+ PortRangesToMultiPort ports].
Definition DestPortRanges (ports : list PortRange) : MatchCriteria := m ++ ["-m multiport --destination-ports " +:+ PortRangesToMultiPort ports].
Definition NotDestPortRanges (ports : list PortRange) : MatchCriteria := m ++ ["-m multiport ! --destination-ports " +:+ PortRangesToMultiPort ports].
End ports.

(** ** Rules *)

Record Rule := mkRule { ru_Match : MatchCriteria; ru_Action : option Action; ru_Comment : list string }.
Record Chain := mkChain { ch_Name : string; ch_Rules : list Rule }.

(** The characters outside [[\w @%+=:,./-]], each with all its bytes, become
    underscores. *)
Definition safeChar (c : ascii) : bool := between 97 122 c || between 65 90 c || between 48 57 c || bool_decide (c ∈ chars "_ @%+=:,./-").
Fixpoint escapeChars (fuel : nat) (l : list ascii) : list ascii :=
  match fuel, l with
  | S fuel', c :: l' => if safeChar c then c :: escapeChars fuel' l' else "_"%char :: escapeChars fuel' (drop (runeWidth l) l)
  | _, _ => []
  end.
Definition escapeComment (s : string) : string := unchars (escapeChars (String.length s) (chars s)).

Definition maxCommentLen : nat := 256.
Definition truncateComment (s : string) : string := unchars (take maxCommentLen (chars s)).

Definition quoted (s : string) : string := unchars [Ascii.ascii_of_nat 34] +:+ s +:+ unchars [Ascii.ascii_of_nat 34].
Definition commentFragment (c : string) : string := "-m comment --comment " +:+ quoted (truncateComment (escapeComment c)).

Definition nonEmpty (s : string) : list string := if decide (s = "") then [] else [s].

Definition renderInner (opt : Options) (r : Rule) (fragments : list string) (prefixFragment : string) : string :=
  joinWords (fragments ++ nonEmpty prefixFragment ++ (commentFragment <$> ru_Comment r) ++ nonEmpty (RenderMatch (ru_Match r)) ++
    match ru_Action r with Some a => nonEmpty (ToFragment opt a) | None => [] end).

Definition RenderAppend (opt : Options) (r : Rule) (chainName prefixFragment : string) : string :=
  renderInner opt r ["-A"; chainName] prefixFragment.
Definition RenderInsert (opt : Options) (r : Rule) (chainName prefixFragment : string) : string :=
  renderInner opt r ["-I"; chainName] prefixFragment.
Definition RenderInsertAtRuleNumber (opt : Options) (r : Rule) (chainName : string) (ruleNum : nat) (prefixFragment : string) : string :=
  renderInner opt r ["-I"; chainName; Itoa (Z.of_nat ruleNum)] prefixFragment.
Definition RenderReplace (opt : Options) (r : Rule) (chainName : string) (ruleNum : nat) (prefixFragment : string) : string :=
  renderInner opt r ["-R"; chainName; Itoa (Z.of_nat ruleNum)] prefixFragment.

(** ** Hashes *)

Definition HashLength : nat := 16.

(** Each hash covers the one before it and the text of the rule. *)
Fixpoint ruleHashesFrom (opt : Options) (name : string) (hash : list Z) (rules : list Rule) : list string :=
  match rules with
  | [] => []
  | rule :: rules' =>
      let hash := sha224 (hash ++ bytesOf (RenderAppend opt rule name "HASH")) in
      unchars (take HashLength (base64 hash)) :: ruleHashesFrom opt name hash rules'
  end.
Definition RuleHashes (opt : Options) (c : Chain) : list string :=
  ruleHashesFrom opt (ch_Name c) (sha224 (bytesOf (ch_Name c))) (ch_Rules c).
Definition calculateRuleHashes (opt : Options) (chainName : string) (rules : list Rule) : list string :=
  RuleHashes opt (mkChain chainName rules).
Definition ChainIPSetNames (c : Chain) : list string := ch_Rules c ≫= λ r, IPSetNames (ru_Match r).
