(* ===== verification/IptablesTable.v ===== *)
(** * Iptables tables ([pkg/iptables/table.go], [restore_buffer.go])

    A [Table] keeps the chains and rules that the agent wants, counts which
    chains are referred to, and brings the kernel's table in line with them:
    it reads the table with [iptables-save], compares the hashes in the comments
    of rules with those it wants, and writes the differences with
    [iptables-restore].

    The two programs are calls of the class [Iptables].  Every iteration over a
    set has an order of its own ([ords]).  Durations are in nanoseconds. *)

From S2P Require Import Prelude GoStd GoNet GoFmt Sha1 Sha224 ApiServer IptablesRule.
Open Scope nat_scope.

(** ** The input of [iptables-restore] *)

Record RestoreInputBuilder := mkBuilder { rb_lines : list string; rb_currentTableName : string; rb_txnOpenerWritten : bool }.
Definition emptyBuilder : RestoreInputBuilder := mkBuilder [] "" false.

Definition BufEmpty (b : RestoreInputBuilder) : bool := bool_decide (rb_lines b = []).
Definition BufReset (b : RestoreInputBuilder) : RestoreInputBuilder := emptyBuilder.
Definition StartTransaction (tableName : string) (b : RestoreInputBuilder) : outcome RestoreInputBuilder :=
  if decide (rb_currentTableName b ≠ "") then Panic "StartTransaction() called without ending previous transaction."
  else Ret (mkBuilder (rb_lines b) tableName false).
Definition writeFormattedLine (line : string) (b : RestoreInputBuilder) : RestoreInputBuilder :=
  mkBuilder (rb_lines b ++ [line]) (rb_currentTableName b) (rb_txnOpenerWritten b).
Definition EndTransaction (b : RestoreInputBuilder) : outcome RestoreInputBuilder :=
  if decide (rb_currentTableName b = "") then Panic "EndTransaction() called without active transaction."
  else
    let b := if rb_txnOpenerWritten b then writeFormattedLine "COMMIT" b else b in
    Ret (mkBuilder (rb_lines b) "" (rb_txnOpenerWritten b)).
Definition maybeWriteTransactionOpener (b : RestoreInputBuilder) : outcome RestoreInputBuilder :=
  if decide (rb_currentTableName b = "") then Panic "maybeWriteTransactionOpener() called without active transaction."
  else if rb_txnOpenerWritten b then Ret b
  else
    let b := writeFormattedLine ("*" +:+ rb_currentTableName b) b in
    Ret (mkBuilder (rb_lines b) (rb_currentTableName b) true).
Definition WriteLine (line : string) (b : RestoreInputBuilder) : outcome RestoreInputBuilder :=
  let! b := maybeWriteTransactionOpener b in Ret (writeFormattedLine line b).
Definition forwardLine (chainName : string) : string := ":" +:+ chainName +:+ " - -".
Definition WriteForwardReference (chainName : string) (b : RestoreInputBuilder) : outcome RestoreInputBuilder :=
  let! b := maybeWriteTransactionOpener b in Ret (writeFormattedLine (forwardLine chainName) b).

Definition newline : ascii := Ascii.ascii_of_nat 10.
(** The bytes of the buffer: each line with its end. *)
Definition bytesOfLines (l : list string) : list ascii := l ≫= λ s, chars s ++ [newline].
Definition GetBytesAndReset (b : RestoreInputBuilder) : outcome (list ascii * RestoreInputBuilder) :=
  if decide (rb_currentTableName b ≠ "") then Panic "GetBytesAndReset() called inside transaction."
  else Ret (bytesOfLines (rb_lines b), BufReset b).

(** ** Reading [iptables-save] *)

(** [\S]. *)
Definition nonSpace (c : ascii) : bool := negb (bool_decide (c ∈ [" "%char; Ascii.ascii_of_nat 9; Ascii.ascii_of_nat 10; Ascii.ascii_of_nat 12; Ascii.ascii_of_nat 13])).
Fixpoint spanChars (p : ascii → bool) (l : list ascii) : list ascii :=
  match l with c :: l' => if p c then c :: spanChars p l' else [] | [] => [] end.
Fixpoint stripPrefix (p l : list ascii) : option (list ascii) :=
  match p, l with
  | [], _ => Some l
  | c :: p', d :: l' => if decide (c = d) then stripPrefix p' l' else None
  | _ :: _, [] => None
  end.
Definition nonNil {A} (l : list A) : option (list A) := match l with [] => None | _ => Some l end.

Definition chainCreate (line : list ascii) : option (list ascii) :=
  match stripPrefix [":"%char] line with Some l => nonNil (spanChars nonSpace l) | None => None end.
Definition appendTo (line : list ascii) : option (list ascii) :=
  match stripPrefix (chars "-A ") line with Some l => nonNil (spanChars nonSpace l) | None => None end.
(** The text occurs and is followed by a character. *)
Fixpoint occursBeforeChar (p l : list ascii) : bool :=
  match stripPrefix p l with
  | Some (_ :: _) => true
  | _ => match l with _ :: l' => occursBeforeChar p l' | [] => false end
  end.
Definition nftError (line : list ascii) : bool :=
  match stripPrefix (chars "# Table ") line with
  | Some l => occursBeforeChar (chars " is incompatible, use 'nft' tool") l
  | None => false
  end.

(** [--comment "?prefix([a-zA-Z0-9_-]+)"?], at the head and anywhere. *)
Definition quoteChar : ascii := Ascii.ascii_of_nat 34.
Definition hashAfter (prefix l : list ascii) : option (list ascii) :=
  match stripPrefix prefix l with Some l' => nonNil (spanChars hashChar l') | None => None end.
Definition matchHash (prefix l : list ascii) : option (list ascii) :=
  match stripPrefix (chars "--comment ") l with
  | None => None
  | Some l1 =>
      match match stripPrefix [quoteChar] l1 with Some l2 => hashAfter prefix l2 | None => None end with
      | Some h => Some h
      | None => hashAfter prefix l1
      end
  end.
Fixpoint findHash (prefix l : list ascii) : option (list ascii) :=
  match matchHash prefix l with
  | Some h => Some h
  | None => match l with _ :: l' => findHash prefix l' | [] => None end
  end.

(** ** Tables *)

Record Table := mkTable {
  tb_opt : Options;
  tb_Name : string;
  tb_IPVersion : nat;
  chainToInsertedRules : gmap string (list Rule);
  chainToAppendedRules : gmap string (list Rule);
  dirtyInsertAppend : gset string;
  chainNameToChain : gmap string Chain;
  chainRefCounts : gmap string Z;
  dirtyChains : gset string;
  inSyncWithDataPlane : bool;
  chainToDataplaneHashes : gmap string (list string);
  chainToFullRules : gmap string (list string);
  hashCommentPrefix : string;
  lastReadTime : Z;
  lastWriteTime : Z;
  postWriteInterval : Z
}.

Section setters.
Context (t : Table).
Definition set_Rules (ins app : gmap string (list Rule)) (dirty : gset string) : Table :=
  mkTable (tb_opt t) (tb_Name t) (tb_IPVersion t) ins app dirty (chainNameToChain t) (chainRefCounts t) (dirtyChains t)
    (inSyncWithDataPlane t) (chainToDataplaneHashes t) (chainToFullRules t) (hashCommentPrefix t) (lastReadTime t) (lastWriteTime t) (postWriteInterval t).
Definition set_Chains (chains : gmap string Chain) : Table :=
  mkTable (tb_opt t) (tb_Name t) (tb_IPVersion t) (chainToInsertedRules t) (chainToAppendedRules t) (dirtyInsertAppend t) chains (chainRefCounts t) (dirtyChains t)
    (inSyncWithDataPlane t) (chainToDataplaneHashes t) (chainToFullRules t) (hashCommentPrefix t) (lastReadTime t) (lastWriteTime t) (postWriteInterval t).
Definition set_Refs (refs : gmap string Z) (dirty : gset string) : Table :=
  mkTable (tb_opt t) (tb_Name t) (tb_IPVersion t) (chainToInsertedRules t) (chainToAppendedRules t) (dirtyInsertAppend t) (chainNameToChain t) refs dirty
    (inSyncWithDataPlane t) (chainToDataplaneHashes t) (chainToFullRules t) (hashCommentPrefix t) (lastReadTime t) (lastWriteTime t) (postWriteInterval t).
Definition set_Dirty (dirty dirtyIA : gset string) : Table :=
  mkTable (tb_opt t) (tb_Name t) (tb_IPVersion t) (chainToInsertedRules t) (chainToAppendedRules t) dirtyIA (chainNameToChain t) (chainRefCounts t) dirty
    (inSyncWithDataPlane t) (chainToDataplaneHashes t) (chainToFullRules t) (hashCommentPrefix t) (lastReadTime t) (lastWriteTime t) (postWriteInterval t).
Definition set_Sync (b : bool) : Table :=
  mkTable (tb_opt t) (tb_Name t) (tb_IPVersion t) (chainToInsertedRules t) (chainToAppendedRules t) (dirtyInsertAppend t) (chainNameToChain t) (chainRefCounts t) (dirtyChains t)
    b (chainToDataplaneHashes t) (chainToFullRules t) (hashCommentPrefix t) (lastReadTime t) (lastWriteTime t) (postWriteInterval t).
Definition set_Cache (hashes full : gmap string (list string)) : Table :=
  mkTable (tb_opt t) (tb_Name t) (tb_IPVersion t) (chainToInsertedRules t) (chainToAppendedRules t) (dirtyInsertAppend t) (chainNameToChain t) (chainRefCounts t) (dirtyChains t)
    (inSyncWithDataPlane t) hashes full (hashCommentPrefix t) (lastReadTime t) (lastWriteTime t) (postWriteInterval t).
Definition set_Times (rd wr iv : Z) : Table :=
  mkTable (tb_opt t) (tb_Name t) (tb_IPVersion t) (chainToInsertedRules t) (chainToAppendedRules t) (dirtyInsertAppend t) (chainNameToChain t) (chainRefCounts t) (dirtyChains t)
    (inSyncWithDataPlane t) (chainToDataplaneHashes t) (chainToFullRules t) (hashCommentPrefix t) rd wr iv.
End setters.

Definition millisecond : Z := 1000000.
Definition hour : Z := 3600 * 1000 * millisecond.
Definition minPostWriteInterval : Z := 50 * millisecond.

Definition tableToKernelChains (name : string) : list string :=
  if decide (name = "filter") then ["INPUT"; "FORWARD"; "OUTPUT"]
  else if decide (name = "nat") then ["PREROUTING"; "INPUT"; "OUTPUT"; "POSTROUTING"]
  else if decide (name = "mangle") then ["PREROUTING"; "INPUT"; "FORWARD"; "OUTPUT"; "POSTROUTING"]
  else if decide (name = "raw") then ["PREROUTING"; "OUTPUT"]
  else [].

(** The look-up of the commands ([FindBestBinary]) is in [IptablesSystem]. *)
Definition NewTable (name : string) (ipVersion : nat) (hashPrefix : string) (opt : Options) (now : Z) : outcome Table :=
  let kernel := tableToKernelChains name in
  let! mode := (if decide (InsertMode opt = "" ∨ InsertMode opt = "insert") then Ret "insert"
                else if decide (InsertMode opt = "append") then Ret "append" else Err (ErrNew "unknown insert mode")) in
  let interval := if decide (InitialPostWriteInterval opt <= minPostWriteInterval)%Z then minPostWriteInterval else InitialPostWriteInterval opt in
  let opt := mkOptions (HistoricChainPrefixes opt) mode (RefreshInterval opt) interval (SNATFullyRandom opt) (MASQFullyRandom opt) (nftablesMode opt) in
  Ret (mkTable opt name ipVersion (list_to_map ((λ c, (c, [])) <$> kernel)) (list_to_map ((λ c, (c, [])) <$> kernel))
    (list_to_set kernel) ∅ (list_to_map ((λ c, (c, 1%Z)) <$> kernel)) ∅ false ∅ ∅ hashPrefix 0 now interval).

(** ** References *)

Definition refCount (t : Table) (c : string) : Z := default 0%Z (chainRefCounts t !! c).

Definition increfChain (t : Table) (chainName : string) : Table :=
  let n := (refCount t chainName + 1)%Z in
  set_Refs t (<[chainName := n]> (chainRefCounts t)) (if decide (n = 1%Z) then {[chainName]} ∪ dirtyChains t else dirtyChains t).
Definition decrefChain (t : Table) (chainName : string) : Table :=
  let n := (refCount t chainName - 1)%Z in
  if decide (n = 0%Z) then set_Refs t (delete chainName (chainRefCounts t)) ({[chainName]} ∪ dirtyChains t)
  else set_Refs t (<[chainName := n]> (chainRefCounts t)) (dirtyChains t).

Definition referred (rules : list Rule) : list string :=
  omap (λ r, match ru_Action r with Some a => ReferencedChain a | None => None end) rules.
Definition increfReferredChains (rules : list Rule) (t : Table) : Table := foldl increfChain t (referred rules).
Definition decrefReferredChains (rules : list Rule) (t : Table) : Table := foldl decrefChain t (referred rules).

Definition InvalidateDataplaneCache (t : Table) : Table := set_Sync t false.

(** ** What is wanted *)

Definition InsertOrAppendRules (chainName : string) (newRules : list Rule) (t : Table) : Table :=
  let oldRules := default [] (chainToInsertedRules t !! chainName) in
  let t := set_Rules t (<[chainName := newRules]> (chainToInsertedRules t)) (chainToAppendedRules t) ({[chainName]} ∪ dirtyInsertAppend t) in
  InvalidateDataplaneCache (decrefReferredChains oldRules (increfReferredChains newRules t)).

Definition AppendRules (chainName : string) (rules : list Rule) (t : Table) : Table :=
  let oldRules := default [] (chainToAppendedRules t !! chainName) in
  let t := set_Rules t (chainToInsertedRules t) (<[chainName := rules]> (chainToAppendedRules t)) ({[chainName]} ∪ dirtyInsertAppend t) in
  InvalidateDataplaneCache (decrefReferredChains oldRules (increfReferredChains rules t)).

Definition markIfReferred (name : string) (t : Table) : Table :=
  if decide (0 < refCount t name)%Z then set_Dirty t ({[name]} ∪ dirtyChains t) (dirtyInsertAppend t) else t.

Definition UpdateChain (chain : Chain) (t : Table) : Table :=
  let t := increfReferredChains (ch_Rules chain) t in
  let t := match chainNameToChain t !! ch_Name chain with Some old => decrefReferredChains (ch_Rules old) t | None => t end in
  let t := set_Chains t (<[ch_Name chain := chain]> (chainNameToChain t)) in
  InvalidateDataplaneCache (markIfReferred (ch_Name chain) t).
Definition UpdateChains (chains : list Chain) (t : Table) : Table := foldl (λ t c, UpdateChain c t) t chains.

Definition RemoveChainByName (name : string) (t : Table) : Table :=
  InvalidateDataplaneCache
    match chainNameToChain t !! name with
    | Some old =>
        let t := set_Chains t (delete name (chainNameToChain t)) in
        decrefReferredChains (ch_Rules old) (markIfReferred name t)
    | None => t
    end.
Definition RemoveChains (chains : list Chain) (t : Table) : Table := foldl (λ t c, RemoveChainByName (ch_Name c) t) t chains.

(** A chain that is not referred to is not wanted. *)
Definition desiredStateOfChain (t : Table) (chainName : string) : option Chain :=
  if decide (refCount t chainName = 0%Z) then None else chainNameToChain t !! chainName.

Definition numEmptyStrings (l : list string) : nat := length (filter (λ s, s = "") l).

(** The hashes of a whole chain into which rules are inserted, and those of the
    inserted and of the appended rules. *)
Definition expectedHashesForInsertAppendChain (t : Table) (chainName : string) (numNonCalicoRules : nat)
    : list string * list string * list string :=
  let inserted := default [] (chainToInsertedRules t !! chainName) in
  let appended := default [] (chainToAppendedRules t !! chainName) in
  let ourInserted := calculateRuleHashes (tb_opt t) chainName inserted in
  let ourAppended := calculateRuleHashes (tb_opt t) (chainName +:+ "*appends*") appended in
  let foreign := replicate numNonCalicoRules ""%string in
  let front := if decide (InsertMode (tb_opt t) = "append") then foreign ++ ourInserted else ourInserted ++ foreign in
  (front ++ ourAppended, ourInserted, ourAppended).

(** [ourChainsRegexp]; the prefixes are taken literally. *)
Definition isOurChain (t : Table) (chainName : string) : bool :=
  bool_decide (HistoricChainPrefixes (tb_opt t) = []) ||
  existsb (λ p, match stripPrefix (chars p) (chars chainName) with Some _ => true | None => false end) (HistoricChainPrefixes (tb_opt t)).

(** ** Reading the kernel's table *)

Definition readState := (gmap string (list string) * gmap string (list string) * gset string)%type.
Definition readLine (t : Table) (line : string) (s : readState) : option readState :=
  let '(hashes, rules, has) := s in
  let l := chars line in
  if nftError l then None
  else match chainCreate l with
  | Some c => Some (<[unchars c := []]> hashes, rules, has)
  | None =>
      match appendTo l with
      | None => Some s
      | Some c =>
          let c := unchars c in
          let found := findHash (chars (hashCommentPrefix t)) l in
          let hash := match found with Some h => unchars h | None => "" end in
          let has := match found with Some _ => {[c]} ∪ has | None => has end in
          let hashes := <[c := default [] (hashes !! c) ++ [hash]]> hashes in
          let full := match found with Some _ => line | None => "-" end in
          let rules := if isOurChain t c then rules else <[c := default [] (rules !! c) ++ [full]]> rules in
          Some (hashes, rules, has)
      end
  end.
Fixpoint readLines (t : Table) (lines : list string) (s : readState) : option readState :=
  match lines with
  | [] => Some s
  | line :: lines' => match readLine t line s with Some s' => readLines t lines' s' | None => None end
  end.
(** Full rules are kept for the chains that have rules of the agent. *)
Definition readHashesAndRulesFrom (t : Table) (lines : list string)
    : outcome (gmap string (list string) * gmap string (list string)) :=
  match readLines t lines (∅, ∅, ∅) with
  | None => Err (ErrNew "iptables-save failed because there are incompatible nft rules in the table")
  | Some (hashes, rules, has) => Ret (hashes, filter (λ '(c, _), c ∈ has) rules)
  end.

(** What the first pass over the dirty chains finds of a chain: it is right, it
    is to be flushed, or neither. *)
Inductive firstPass := Skip | Flush | Keep.
#[export] Instance firstPass_eq_dec : EqDecision firstPass.
Proof. solve_decision. Defined.

(** ** Calls *)

Class Iptables (W : Type) := {
  (** [iptables-save -t table]: the lines of the output. *)
  ipSave : string → M W (list string);
  (** [iptables-restore --noflush] with an input. *)
  ipRestore : list ascii → M W unit;
  ipNow : M W Z
}.

Section table.
Context {W : Type} `{IT : !Iptables W} (ords : nat → MapOrder).
Abbreviation TM := (M (Table * W)).

Definition tcall {A} (c : M W A) : TM A := λ s, let '(w', o) := c s.2 in ((s.1, w'), o).
Definition getT : TM Table := λ s, (s, Ret s.1).
Definition putT (t : Table) : TM unit := λ s, ((t, s.2), Ret tt).
Definition iter (k : nat) (s : gset string) : list string := @map_order (ords k) (elements s).

Definition attemptToGetHashesAndRulesFromDataplane : TM (gmap string (list string) * gmap string (list string)) :=
  let* t := getT in
  let* lines := tcall (ipSave (tb_Name t)) in
  lift (readHashesAndRulesFrom t lines).

(** One attempt, and three more after errors. *)
Fixpoint getHashesAndRulesFromDataplane (retries : nat) : TM (gmap string (list string) * gmap string (list string)) :=
  let* res := attempt attemptToGetHashesAndRulesFromDataplane in
  match res with
  | inl r => mret r
  | inr _ =>
      match retries with
      | O => lift (Panic "iptables-save command failed after retries")
      | S retries' => getHashesAndRulesFromDataplane retries'
      end
  end.

(** A chain with a hash in it. *)
Definition hasHash (hashes : list string) : bool := existsb (λ h, negb (bool_decide (h = ""))) hashes.

(** The two loops of [loadDataplaneState]: one chain each. *)
Definition checkExpected (t : Table) (dp : gmap string (list string)) (c : string) (expected : list string) : bool * bool :=
  if decide (c ∈ dirtyChains t ∨ c ∈ dirtyInsertAppend t) then (false, false)
  else
    let dpHashes := dp !! c in
    if isOurChain t c then (negb (bool_decide (dpHashes = Some expected)), false)
    else if decide (default [] (chainToInsertedRules t !! c) = []) then (false, hasHash (default [] dpHashes))
    else
      let '(expected, _, _) := expectedHashesForInsertAppendChain t c (numEmptyStrings (default [] dpHashes)) in
      (false, negb (bool_decide (dpHashes = Some expected))).
Definition checkFound (t : Table) (c : string) (hashes : list string) : bool * bool :=
  if decide (c ∈ dirtyChains t ∨ c ∈ dirtyInsertAppend t) then (false, false)
  else if decide (c ∈ dom (chainToDataplaneHashes t)) then (false, false)
  else if isOurChain t c then (true, false)
  else (false, hasHash hashes).
Definition markDirty (c : string) (marks : bool * bool) (t : Table) : Table :=
  set_Dirty t (if marks.1 then {[c]} ∪ dirtyChains t else dirtyChains t)
    (if marks.2 then {[c]} ∪ dirtyInsertAppend t else dirtyInsertAppend t).

Definition compareDataplane (dp : gmap string (list string)) (t : Table) : Table :=
  let t := foldl (λ t c, markDirty c (checkExpected t dp c (default [] (chainToDataplaneHashes t !! c))) t) t
             (iter 0 (dom (chainToDataplaneHashes t))) in
  foldl (λ t c, markDirty c (checkFound t c (default [] (dp !! c))) t) t (iter 1 (dom dp)).

Definition loadDataplaneState : TM unit :=
  let* t := getT in
  let* now := tcall ipNow in
  let* _ := putT (set_Times t now (lastWriteTime t) (postWriteInterval t)) in
  let* (hashes, rules) := getHashesAndRulesFromDataplane 3 in
  let* t := getT in
  putT (set_Sync (set_Cache (compareDataplane hashes t) hashes rules) true).

(** ** Writing the kernel's table *)

Definition commentFrag (t : Table) (hash : string) : string := "-m comment --comment " +:+ quoted (hashCommentPrefix t +:+ hash).
Definition renderDeleteByIndexLine (chainName : string) (ruleNum : nat) : string :=
  "-D " +:+ chainName +:+ " " +:+ Itoa (Z.of_nat ruleNum).

(** [strings.Replace(rule, "-A", "-D", 1)]. *)
Fixpoint replaceFirst (old new l : list ascii) : list ascii :=
  match stripPrefix old l with
  | Some l' => new ++ l'
  | None => match l with c :: l' => c :: replaceFirst old new l' | [] => [] end
  end.
Definition renderDeleteByValueLine (t : Table) (chainName : string) (ruleNum : nat) : outcome string :=
  match default [] (chainToFullRules t !! chainName) !! ruleNum with
  | None => Err (ErrNew "rendering delete for non-existent rule")
  | Some rule => Ret (unchars (replaceFirst (chars "-A") (chars "-D") (chars rule)))
  end.

(** First pass: is the chain to be flushed, and is it already right (and so
    taken out of the set). *)
Definition chainPass (t : Table) (c : string) : firstPass :=
  if nftablesMode (tb_opt t) then
    let current := match desiredStateOfChain t c with Some ch => Some (RuleHashes (tb_opt t) ch) | None => None end in
    let previous := chainToDataplaneHashes t !! c in
    if decide (0 < length (default [] previous) ∧ current = previous) then Skip else Flush
  else if decide (desiredStateOfChain t c = None) then Flush
  else if decide (chainToDataplaneHashes t !! c = None) then Flush
  else Keep.

(** Second pass: the changes of one chain, rule by rule; [n] is the number of
    rules wanted and [i] the rules done. *)
Definition appendLine (t : Table) (c : string) (hr : string * Rule) : string := RenderAppend (tb_opt t) hr.2 c (commentFrag t hr.1).
Fixpoint diffLines (t : Table) (c : string) (n i : nat) (previous : list string) (current : list (string * Rule)) : list string :=
  match previous, current with
  | p :: previous', (h, r) :: current' =>
      (if decide (p = h) then [] else [RenderReplace (tb_opt t) r c (i + 1) (commentFrag t h)]) ++ diffLines t c n (i + 1) previous' current'
  | _ :: previous', [] => renderDeleteByIndexLine c (n + 1) :: diffLines t c n (i + 1) previous' []
  | [], _ => appendLine t c <$> current
  end.
Definition chainLines (t : Table) (c : string) : list string :=
  match desiredStateOfChain t c with
  | None => []
  | Some chain =>
      let previous := if nftablesMode (tb_opt t) then [] else default [] (chainToDataplaneHashes t !! c) in
      let current := RuleHashes (tb_opt t) chain in
      diffLines t c (length current) 0 previous (zip current (ch_Rules chain))
  end.

(** Third pass: one chain into which rules are inserted.  The rules of the agent
    are removed and written again; [newHashes] has [None] for a chain that
    is to be forgotten. *)
Record updates := mkUpdates {
  up_lines : list string;
  up_newHashes : gmap string (option (list string));
  up_newFull : gmap string (list string)
}.

Fixpoint deleteLines (t : Table) (c : string) (i : nat) (previous : list string) : outcome (list string) :=
  match previous with
  | [] => Ret []
  | h :: previous' =>
      if decide (h = "") then deleteLines t c (i + 1) previous'
      else
        let! line := renderDeleteByValueLine t c i in
        let! lines := deleteLines t c (i + 1) previous' in
        Ret (line :: lines)
  end.

Definition insertLine (t : Table) (c : string) (hr : string * Rule) : string := RenderInsert (tb_opt t) hr.2 c (commentFrag t hr.1).

Definition insertAppendPass (t : Table) (c : string) (u : updates) : outcome updates :=
  let previous := chainToDataplaneHashes t !! c in
  let '(all, insHashes, appHashes) := expectedHashesForInsertAppendChain t c (numEmptyStrings (default [] previous)) in
  if decide (previous = Some all) then Ret u
  else
    let! dels := deleteLines t c 0 (default [] previous) in
    let kept := filter (λ r, r ≠ "") (default [] (up_newFull u !! c)) in
    let inserted := zip insHashes (default [] (chainToInsertedRules t !! c)) in
    let appended := zip appHashes (default [] (chainToAppendedRules t !! c)) in
    let '(insWritten, full) :=
      if decide (InsertMode (tb_opt t) = "insert") then
        (reverse (insertLine t c <$> inserted), (insertLine t c <$> inserted) ++ kept)
      else (appendLine t c <$> inserted, kept ++ (appendLine t c <$> inserted)) in
    let appWritten := appendLine t c <$> appended in
    Ret (mkUpdates (up_lines u ++ dels ++ insWritten ++ appWritten)
           (<[c := Some all]> (up_newHashes u)) (<[c := full ++ appWritten]> (up_newFull u))).

Definition writeLines (lines : list string) (b : RestoreInputBuilder) : outcome RestoreInputBuilder := oforeach WriteLine lines b.
Definition writeForward (chains : list string) (b : RestoreInputBuilder) : outcome RestoreInputBuilder := oforeach WriteForwardReference chains b.

(** The whole input, and what to remember when it has been written. *)
Definition buildUpdates (t : Table) : outcome (RestoreInputBuilder * updates) :=
  let! b := StartTransaction (tb_Name t) (BufReset emptyBuilder) in
  let! b := writeForward (filter (λ c, chainPass t c = Flush) (iter 2 (dirtyChains t))) b in
  let dirty := filter (λ c, chainPass t c ≠ Skip) (dirtyChains t) in
  let pass2 := iter 3 dirty in
  let! b := writeLines (pass2 ≫= chainLines t) b in
  let wanted := filter (λ c, desiredStateOfChain t c ≠ None) pass2 in
  let hashes2 := foldr (λ c m, <[c := match desiredStateOfChain t c with Some ch => Some (RuleHashes (tb_opt t) ch) | None => None end]> m)
                   (∅ : gmap string (option (list string))) wanted in
  let! u := oforeach (insertAppendPass t) (iter 4 (dirtyInsertAppend t)) (mkUpdates [] hashes2 (chainToFullRules t)) in
  let! b := writeLines (up_lines u) b in
  let gone := filter (λ c, desiredStateOfChain t c = None) in
  let! b := (if nftablesMode (tb_opt t) then
               let! b := EndTransaction b in
               let! b := StartTransaction (tb_Name t) b in
               writeForward (gone (iter 5 dirty)) b
             else Ret b) in
  let pass5 := gone (iter 6 dirty) in
  let! b := writeLines ((λ c, "--delete-chain " +:+ c) <$> pass5) b in
  let! b := EndTransaction b in
  Ret (b, mkUpdates (up_lines u) (foldr (λ c m, <[c := None]> m) (up_newHashes u) pass5) (up_newFull u)).

Definition storeHashes (news : gmap string (option (list string))) (old : gmap string (list string)) : gmap string (list string) :=
  map_fold (λ c o m, match o with Some h => <[c := h]> m | None => delete c m end) old news.

Definition applyUpdates : TM unit :=
  let* t := getT in
  let dirty := filter (λ c, chainPass t c ≠ Skip) (dirtyChains t) in
  let* res := attempt (lift (buildUpdates t)) in
  match res with
  | inr err =>
      let* _ := putT (set_Dirty t dirty (dirtyInsertAppend t)) in merr err
  | inl (b, u) =>
      let* _ := putT (set_Dirty t dirty (dirtyInsertAppend t)) in
      let* _ := (if BufEmpty b then mret tt
        else
          let* (input, _) := lift (GetBytesAndReset b) in
          let* res := attempt (tcall (ipRestore input)) in
          let* t := getT in
          match res with
          | inr err => let* _ := putT (set_Sync t false) in merr err
          | inl _ =>
              let* now := tcall ipNow in
              putT (set_Times t (lastReadTime t) now (InitialPostWriteInterval (tb_opt t)))
          end) in
      let* t := getT in
      putT (set_Dirty (set_Cache t (storeHashes (up_newHashes u) (chainToDataplaneHashes t)) (up_newFull u)) ∅ ∅)
  end.

(** ** Apply *)

(** The interval is doubled until it reaches past [now]. *)
Fixpoint postWriteLoop (fuel : nat) (now : Z) (t : Table) : outcome Table :=
  if decide (postWriteInterval t ≠ 0 ∧ postWriteInterval t < hour ∧ lastWriteTime t + postWriteInterval t <= now)%Z then
    match fuel with
    | O => Timeout
    | S fuel' => postWriteLoop fuel' now (InvalidateDataplaneCache (set_Times t (lastReadTime t) (lastWriteTime t) (postWriteInterval t * 2)))
    end
  else Ret t.

(** An update, and ten more after errors. *)
Fixpoint applyLoop (retries : nat) : TM unit :=
  let* t := getT in
  let* _ := (if inSyncWithDataPlane t then mret tt else loadDataplaneState) in
  let* res := attempt applyUpdates in
  match res with
  | inl _ => mret tt
  | inr err =>
      match retries with
      | O => let* t := getT in
             let* _ := attempt (tcall (ipSave (tb_Name t))) in
             merr (ErrNew "failed to program iptables, giving up after retries")
      | S retries' => applyLoop retries'
      end
  end.

Definition rescheduleAfter (now : Z) (t : Table) : Z :=
  let after := if decide (0 < RefreshInterval (tb_opt t))%Z then (RefreshInterval (tb_opt t) - (now - lastReadTime t))%Z else 0%Z in
  if decide (postWriteInterval t < hour)%Z then
    let reached := (lastWriteTime t + postWriteInterval t - now)%Z in
    if decide (reached <= 0)%Z then millisecond
    else if decide (postWriteInterval t <= 0 ∨ reached < after)%Z then reached else after
  else after.

Definition Apply (fuel : nat) : TM Z :=
  let* now := tcall ipNow in
  let* t := getT in
  let t := if decide (0 < RefreshInterval (tb_opt t) ∧ RefreshInterval (tb_opt t) < now - lastReadTime t)%Z then InvalidateDataplaneCache t else t in
  let* t := lift (postWriteLoop fuel now t) in
  let* _ := putT t in
  let* _ := applyLoop 10 in
  let* t := getT in
  mret (rescheduleAfter now t).
End table.
