(* ===== verification/IptablesKernel.v ===== *)
(** * The kernel's side of a table

    What [iptables-save] and [iptables-restore] promise: a table of the kernel
    is a map from chains to the texts of their rules; [execLine] is the effect
    of a line of restore input, as documented in iptables(8) and
    iptables-restore(8).  The kernel prints a rule in a normal form ([norm]),
    which keeps its comments. *)

From S2P Require Import Prelude GoStd GoNet GoFmt Sha1 Sha224 ApiServer IptablesRule IptablesTable.
Open Scope nat_scope.

Abbreviation kernel := (gmap string (list string)) (only parsing).

(** The hash that the agent finds in a rule of a chain. *)
Definition ruleLine (c x : string) : string := "-A " +:+ c +:+ " " +:+ x.
Definition hashAt (prefix c x : string) : string :=
  match findHash (chars prefix) (chars (ruleLine c x)) with Some h => unchars h | None => "" end.

(** ** Names and texts *)

Definition plainName (c : string) : Prop := c ≠ "" ∧ Forall (λ a, nonSpace a = true) (chars c).
Definition ruleLike (x : string) : Prop := (∃ a l, chars x = a :: l ∧ (a = "-"%char ∨ a = "!"%char)) ∧ newline ∉ chars x.

Class KernelText := {
  norm : string → string;
  norm_norm x : norm (norm x) = norm x;
  norm_hash prefix c x : hashAt prefix c (norm x) = hashAt prefix c x;
  norm_like x : ruleLike x → ruleLike (norm x)
}.

(** ** Restore *)

Section exec.
Context `{KT : !KernelText}.

(** Remove the first rule with a text. *)
Fixpoint removeFirst (x : string) (xs : list string) : option (list string) :=
  match xs with
  | [] => None
  | y :: xs' => if decide (x = y) then Some xs' else match removeFirst x xs' with Some l => Some (y :: l) | None => None end
  end.

(** What a command does to the rules of its chain; [rest] is what follows the
    name of the chain. *)
Definition execOn (cmd : list ascii) (rest : list ascii) (xs : list string) : option (list string) :=
  if decide (cmd = chars "-A") then Some (xs ++ [norm (unchars rest)])
  else if decide (cmd = chars "-I") then Some (norm (unchars rest) :: xs)
  else if decide (cmd = chars "-R") then
    match firstWord rest with
    | (num, Some x) =>
        match decNumber num 0 with
        | Some n => if decide (1 <= Z.to_nat n <= length xs) then Some (<[Z.to_nat n - 1 := norm (unchars x)]> xs) else None
        | None => None
        end
    | _ => None
    end
  else if decide (cmd = chars "-D") then
    match decNumber rest 0 with
    | Some n => if decide (1 <= Z.to_nat n <= length xs) then Some (delete (Z.to_nat n - 1) xs) else None
    | None => removeFirst (norm (unchars rest)) xs
    end
  else None.

(** A chain that is deleted must exist and be empty.  iptables asks for more (no rule refers to the deleted chain, the
    chain of a jump exists): what it accepts, it carries out as here, and what it refuses on top leaves the table as it was. *)
Definition execLine (line : string) (k : kernel) : option kernel :=
  match chainCreate (chars line) with
  | Some c => Some (<[unchars c := []]> k)
  | None =>
      match firstWord (chars line) with
      | (cmd, Some l) =>
          if decide (cmd = chars "--delete-chain") then
            if decide (k !! unchars l = Some []) then Some (delete (unchars l) k) else None
          else
            match firstWord l with
            | (c, Some rest) =>
                match k !! unchars c with
                | Some xs => match execOn cmd rest xs with Some ys => Some (<[unchars c := ys]> k) | None => None end
                | None => None
                end
            | _ => None
            end
      | _ => None
      end
  end.

Fixpoint execLines (lines : list string) (k : kernel) : option kernel :=
  match lines with
  | [] => Some k
  | l :: lines' => match execLine l k with Some k' => execLines lines' k' | None => None end
  end.

Lemma execLines_app l1 l2 k : execLines (l1 ++ l2) k = match execLines l1 k with Some k' => execLines l2 k' | None => None end.
Proof. revert k. induction l1 as [|l l1 IH]; intros k; simpl; [done|]. by destruct (execLine l k). Qed.

(** The lines of an input; [*table] and [COMMIT] enclose the commands. *)
Fixpoint execInput (table : string) (lines : list string) (inside : bool) (k : kernel) : option kernel :=
  match lines with
  | [] => if inside then None else Some k
  | l :: lines' =>
      if decide (l = "*" +:+ table) then if inside then None else execInput table lines' true k
      else if decide (l = "COMMIT") then if inside then execInput table lines' false k else None
      else if inside then match execLine l k with Some k' => execInput table lines' true k' | None => None end
      else None
  end.
(** The last line has an end, too. *)
Definition linesOf (input : list ascii) : list string := unchars <$> removelast (splitOn newline input).

Record kernel_wf (k : kernel) : Prop := {
  kw_names : ∀ c xs, k !! c = Some xs → plainName c;
  kw_texts : ∀ c xs x, k !! c = Some xs → x ∈ xs → norm x = x ∧ ruleLike x
}.
End exec.

(** ** Save *)

Definition hashesIn (prefix c : string) (xs : list string) : list string := hashAt prefix c <$> xs.
Definition hashesOf (prefix : string) (k : kernel) : gmap string (list string) :=
  map_imap (λ c xs, Some (hashesIn prefix c xs)) k.

(** The lines that declare a chain or append a rule. *)
Definition relevant (line : string) : Prop :=
  match chars line with ":"%char :: _ => True | "-"%char :: "A"%char :: " "%char :: _ => True | _ => False end.
#[export] Instance relevant_dec line : Decision (relevant line).
Proof. unfold relevant. repeat case_match; apply _. Defined.

(** The output of [iptables-save]: every chain is declared, then the rules
    follow, chain by chain; other lines are comments and brackets. *)
Definition listing (k : kernel) (lines : list string) : Prop :=
  Forall (λ l, nftError (chars l) = false) lines ∧
  ∃ cs policy, cs ≡ₚ elements (dom k) ∧
    filter relevant lines =
      ((λ c, ":" +:+ c +:+ " " +:+ policy c) <$> cs) ++ (cs ≫= λ c, ruleLine c <$> default [] (k !! c)).

(** ** The interface *)

(** Other tables may be read and written by the same programs: the law of
    [iptables-restore] is about inputs that open this one. *)
Class IptablesLaws (W : Type) (name : string) `{!Iptables W} `{!KernelText} := {
  kt : W → kernel;
  save_law w : kernel_wf (kt w) → let '(w', o) := ipSave name w in
    kernel_wf (kt w') ∧ match o with Ret lines => kt w' = kt w ∧ listing (kt w) lines | _ => True end;
  restore_law input w : kernel_wf (kt w) → head (linesOf input) = Some ("*" +:+ name) → let '(w', o) := ipRestore input w in
    match o with Ret _ => execInput name (linesOf input) false (kt w) = Some (kt w') | _ => kernel_wf (kt w') end;
  now_law w : kt (ipNow w).1 = kt w ∧ is_ret (ipNow w).2 = true
}.
