(* ===== verification/IptablesText.v ===== *)
(** * Lines that are written and read

    The hash in the comment of a rule is the one that is read back, and each
    line of restore input does to its chain what its author meant. *)

From S2P Require Import Prelude GoStd GoNet GoFmt Sha1 Sha224 ApiServer IptablesRule IptablesTable IptablesKernel.
Open Scope nat_scope.

(** ** Scanning *)

Lemma stripPrefix_app p l : stripPrefix p (p ++ l) = Some l.
Proof. induction p as [|c p IH]; simpl; [done|]. by rewrite decide_True. Qed.

Lemma stripPrefix_Some p l l' : stripPrefix p l = Some l' → l = p ++ l'.
Proof.
  revert l. induction p as [|c p IH]; intros l; simpl; [by intros [= ->]|].
  destruct l as [|d l]; [done|]. case_decide; [|done]. subst. intros E. by rewrite (IH _ E).
Qed.

(** A word and the blank after it. *)
Lemma stripPrefix_word w s l : (" "%char ∉ w) → (" "%char ∉ s) →
  stripPrefix (w ++ [" "%char]) (s ++ " "%char :: l) = if decide (s = w) then Some l else None.
Proof.
  revert s. induction w as [|c w IH]; intros s Hw Hs; simpl.
  - destruct s as [|d s]; simpl; [done|]. rewrite not_elem_of_cons in Hs. by rewrite decide_False by naive_solver.
  - rewrite not_elem_of_cons in Hw. destruct s as [|d s]; simpl.
    + by rewrite decide_False by naive_solver.
    + rewrite not_elem_of_cons in Hs. destruct (decide (c = d)) as [->|Hne].
      * rewrite IH by naive_solver. destruct (decide (s = w)) as [->|]; [by rewrite decide_True|by rewrite decide_False by congruence].
      * by rewrite decide_False by congruence.
Qed.

Lemma spanChars_app p l1 c l2 : Forall (λ a, p a = true) l1 → p c = false → spanChars p (l1 ++ c :: l2) = l1.
Proof. induction 1 as [|a l1 Ha _ IH]; intros Hc; simpl; [by rewrite Hc|]. rewrite Ha. by rewrite IH. Qed.

Lemma plainName_chars c : plainName c → (" "%char ∉ chars c) ∧ (newline ∉ chars c) ∧ chars c ≠ [].
Proof.
  intros [Hne Hc]. rewrite Forall_forall in Hc. split_and!.
  - intros Hin. by apply Hc in Hin.
  - intros Hin. by apply Hc in Hin.
  - intros E. apply Hne. apply chars_inj. by rewrite E.
Qed.

(** ** The hash in a rule *)

(** The prefix of the hashes starts with neither a dash nor a quote. *)
Definition prefix_ok (prefix : string) : Prop :=
  (∃ a l, chars prefix = a :: l ∧ a ≠ "-"%char ∧ a ≠ quoteChar) ∧ newline ∉ chars prefix.
Definition hash_ok (h : string) : Prop := h ≠ "" ∧ Forall (λ a, hashChar a = true) (chars h).

Lemma findHash_skip p a l : matchHash p (a :: l) = None → findHash p (a :: l) = findHash p l.
Proof. intros E. cbn [findHash]. by rewrite E. Qed.

Lemma matchHash_other p a l : a ≠ "-"%char → matchHash p (a :: l) = None.
Proof. intros Ha. unfold matchHash. cbn [stripPrefix chars]. by rewrite decide_False by congruence. Qed.

Lemma hashAfter_dash p l : (∃ a l', p = a :: l' ∧ a ≠ "-"%char) → hashAfter p ("-"%char :: l) = None.
Proof. intros (a & l' & -> & Ha). unfold hashAfter. simpl. by rewrite decide_False by congruence. Qed.

(** No match starts in a word before a text that starts with a dash. *)
Lemma findHash_word p s l : (∃ a l', p = a :: l' ∧ a ≠ "-"%char) → (" "%char ∉ s) →
  findHash p (s ++ " "%char :: "-"%char :: l) = findHash p ("-"%char :: l).
Proof.
  intros Hp. induction s as [|c s IH]; intros Hs; cbn [app].
  - apply findHash_skip. by apply matchHash_other.
  - pose proof Hs as Hs'. rewrite not_elem_of_cons in Hs. rewrite findHash_skip; [by apply IH; naive_solver|].
    unfold matchHash. change (chars "--comment ") with (chars "--comment" ++ [" "%char]).
    change (c :: s ++ " "%char :: "-"%char :: l) with ((c :: s) ++ " "%char :: "-"%char :: l).
    rewrite stripPrefix_word; [|vm_compute; intros Hx; repeat (apply elem_of_cons in Hx as [Hx|Hx]; [discriminate|]); by apply not_elem_of_nil in Hx|done].
    case_decide; [|done]. cbn [stripPrefix]. rewrite decide_False by done. by apply hashAfter_dash.
Qed.

Lemma matchHash_quoted p h l : p ≠ [] → h ≠ [] → Forall (λ a, hashChar a = true) h →
  matchHash p (chars "--comment " ++ quoteChar :: p ++ h ++ quoteChar :: l) = Some h.
Proof.
  intros Hp Hne Hh. unfold matchHash. rewrite stripPrefix_app. cbn [stripPrefix]. rewrite decide_True by done.
  unfold hashAfter. rewrite stripPrefix_app, spanChars_app by done. by destruct h.
Qed.

Lemma chars_quoted s : chars (quoted s) = quoteChar :: chars s ++ [quoteChar].
Proof. unfold quoted. rewrite !chars_app, !chars_unchars. done. Qed.

(** ** Rendered rules *)

(** What follows the chain in a rule with a comment in front. *)
Definition ruleText (opt : Options) (r : Rule) (frag : string) : string :=
  joinWords (frag :: (commentFragment <$> ru_Comment r) ++ nonEmpty (RenderMatch (ru_Match r)) ++
    match ru_Action r with Some a => nonEmpty (ToFragment opt a) | None => [] end).

Lemma joinWords_two a c l : l ≠ [] → joinWords (a :: c :: l) = a +:+ " " +:+ c +:+ " " +:+ joinWords l.
Proof. intros Hl. rewrite joinWords_cons by done. by rewrite joinWords_cons by done. Qed.

Lemma renderInner_two opt r a c frag : frag ≠ ""%string →
  renderInner opt r [a; c] frag = a +:+ " " +:+ c +:+ " " +:+ ruleText opt r frag.
Proof.
  intros Hf. unfold renderInner, ruleText, nonEmpty at 1. rewrite decide_False by done. cbn [app].
  by rewrite joinWords_two.
Qed.

Lemma renderInner_three opt r a c n frag : frag ≠ ""%string →
  renderInner opt r [a; c; n] frag = a +:+ " " +:+ c +:+ " " +:+ n +:+ " " +:+ ruleText opt r frag.
Proof.
  intros Hf. unfold renderInner, ruleText, nonEmpty at 1. rewrite decide_False by done. cbn [app].
  rewrite joinWords_two by done. by rewrite joinWords_cons.
Qed.

(** The text starts with its first fragment. *)
Lemma ruleText_head opt r frag : ∃ l, chars (ruleText opt r frag) = chars frag ++ l.
Proof.
  unfold ruleText, joinWords. rewrite chars_unchars, fmap_cons.
  destruct (chars <$> _) as [|w ws]; [exists []; by rewrite app_nil_r|]. eexists. apply joinChar_cons2.
Qed.

(** The text of a rule of the agent, with its hash. *)
Definition hashedText (t : Table) (h : string) (r : Rule) : string := ruleText (tb_opt t) r (commentFrag t h).

Lemma commentFrag_chars t h :
  chars (commentFrag t h) = chars "-m comment " ++ chars "--comment " ++ quoteChar :: chars (hashCommentPrefix t) ++ chars h ++ [quoteChar].
Proof. unfold commentFrag. rewrite chars_app, chars_quoted, chars_app, <- app_assoc. done. Qed.

Lemma commentFrag_nonempty t h : commentFrag t h ≠ ""%string.
Proof. intros E. apply (f_equal chars) in E. rewrite commentFrag_chars in E. done. Qed.

(** Scanning a rule that carries a hash finds the hash. *)
Lemma findHash_comment p c h l : p ≠ [] → (∃ a l', p = a :: l' ∧ a ≠ "-"%char) → h ≠ [] → Forall (λ a, hashChar a = true) h →
  (" "%char ∉ c) →
  findHash p (chars "-A " ++ c ++ " "%char :: chars "-m comment " ++ chars "--comment " ++ quoteChar :: p ++ h ++ quoteChar :: l) = Some h.
Proof.
  intros Hp Hpd Hne Hh Hc. change (chars "-A ") with ["-"%char; "A"%char; " "%char]. cbn [app].
  rewrite findHash_skip by done. do 2 rewrite findHash_skip by by apply matchHash_other.
  change (chars "-m comment ") with ("-"%char :: chars "m comment "). cbn [app]. rewrite findHash_word by done.
  rewrite findHash_skip by done.
  change (chars "m comment ") with ["m"%char; " "%char; "c"%char; "o"%char; "m"%char; "m"%char; "e"%char; "n"%char; "t"%char; " "%char]. cbn [app].
  do 10 rewrite findHash_skip by by apply matchHash_other.
  pose proof (matchHash_quoted p h l Hp Hne Hh) as E.
  change (chars "--comment ") with ("-"%char :: chars "-comment ") in *. cbn [app] in *. cbn [findHash]. by rewrite E.
Qed.

(** The hash that is read from a rule of the agent is the hash it carries. *)
Lemma hashedText_hash t c h r : prefix_ok (hashCommentPrefix t) → plainName c → hash_ok h →
  hashAt (hashCommentPrefix t) c (hashedText t h r) = h.
Proof.
  intros [(a & pl & Hp & Ha & Hq) _] Hc [Hh Hhc]. unfold hashAt, ruleLine, hashedText.
  rewrite !chars_app. destruct (ruleText_head (tb_opt t) r (commentFrag t h)) as [l ->]. rewrite commentFrag_chars.
  rewrite <- !app_assoc. rewrite <- app_comm_cons. rewrite <- !app_assoc.
  change (chars " " ++ ?x) with (" "%char :: x). change ([quoteChar] ++ l) with (quoteChar :: l).
  rewrite findHash_comment; [apply unchars_chars|..].
  - by rewrite Hp.
  - eauto.
  - intros E. apply Hh, chars_inj. by rewrite E.
  - done.
  - by apply plainName_chars.
Qed.

(** ** Hashes of rules *)

Lemma ruleHashesFrom_ok opt name d rules : Forall hash_ok (ruleHashesFrom opt name d rules).
Proof.
  revert d. induction rules as [|r rules IH]; intros d; simpl; constructor; [|done].
  split; [|rewrite chars_unchars; apply Forall_take, base64_hashChars].
  intros E. apply (f_equal chars) in E. rewrite chars_unchars in E. apply (f_equal length) in E.
  rewrite length_take, base64_28 in E by apply length_sha224. discriminate E.
Qed.

Lemma RuleHashes_ok opt c : Forall hash_ok (RuleHashes opt c).
Proof. apply ruleHashesFrom_ok. Qed.

Lemma length_RuleHashes opt c : length (RuleHashes opt c) = length (ch_Rules c).
Proof. unfold RuleHashes. generalize (sha224 (bytesOf (ch_Name c))). induction (ch_Rules c) as [|r l IH]; intros d; simpl; [done|]. by rewrite IH. Qed.

(** The agent finds in a chain that it wrote exactly the hashes that it
    computes for the rules of the chain: reading undoes writing. *)
Theorem hash_roundtrip t c chain : prefix_ok (hashCommentPrefix t) → plainName c →
  hashesIn (hashCommentPrefix t) c (zip_with (hashedText t) (RuleHashes (tb_opt t) chain) (ch_Rules chain)) =
  RuleHashes (tb_opt t) chain.
Proof.
  intros Hp Hc. pose proof (RuleHashes_ok (tb_opt t) chain) as Hok. pose proof (length_RuleHashes (tb_opt t) chain) as Hl.
  revert Hok Hl. generalize (RuleHashes (tb_opt t) chain), (ch_Rules chain). intros hs rules Hok.
  revert rules. induction Hok as [|h hs Hh _ IH]; intros [|r rules] Hl; try done.
  unfold hashesIn in *. simpl. rewrite hashedText_hash by done. f_equal. apply IH. by injection Hl.
Qed.

(** ** Commands *)

(** What a line of restore input asks for in a chain. *)
Inductive command :=
| CAppend (x : string)
| CInsert (x : string)
| CReplace (n : nat) (x : string)
| CDeleteNum (n : nat)
| CDelete (x : string).

Section commands.
Context `{KT : !KernelText}.

Definition runCommand (cmd : command) (xs : list string) : option (list string) :=
  match cmd with
  | CAppend x => Some (xs ++ [norm x])
  | CInsert x => Some (norm x :: xs)
  | CReplace n x => if decide (n < length xs) then Some (<[n := norm x]> xs) else None
  | CDeleteNum n => if decide (n < length xs) then Some (delete n xs) else None
  | CDelete x => removeFirst (norm x) xs
  end.
Fixpoint runCommands (cmds : list command) (xs : list string) : option (list string) :=
  match cmds with
  | [] => Some xs
  | cmd :: cmds' => match runCommand cmd xs with Some ys => runCommands cmds' ys | None => None end
  end.

Lemma runCommands_app l1 l2 xs :
  runCommands (l1 ++ l2) xs = match runCommands l1 xs with Some ys => runCommands l2 ys | None => None end.
Proof. revert xs. induction l1 as [|c l1 IH]; intros xs; simpl; [done|]. by destruct (runCommand c xs). Qed.

(** A line is a command for a chain. *)
Definition isCommand (c : string) (cmd : command) (line : string) : Prop := ∀ k,
  execLine line k =
  match k !! c with
  | Some xs => match runCommand cmd xs with Some ys => Some (<[c := ys]> k) | None => None end
  | None => None
  end.

Lemma chainCreate_dash l : chainCreate ("-"%char :: l) = None.
Proof. done. Qed.

Lemma execLine_command (w : ascii) (c : string) (rest : list ascii) k : plainName c → w ≠ "-"%char → w ≠ " "%char →
  execLine (unchars ("-"%char :: w :: " "%char :: chars c ++ " "%char :: rest)) k =
  match k !! c with
  | Some xs => match execOn ["-"%char; w] rest xs with Some ys => Some (<[c := ys]> k) | None => None end
  | None => None
  end.
Proof.
  intros Hc Hw Hw'. unfold execLine. rewrite chars_unchars, chainCreate_dash.
  change ("-"%char :: w :: " "%char :: ?l) with (["-"%char; w] ++ " "%char :: l). rewrite firstWord_app.
  - rewrite decide_False by (intros E; apply (f_equal length) in E; discriminate E). rewrite firstWord_app by by apply plainName_chars.
    by rewrite unchars_chars.
  - rewrite !not_elem_of_cons. split_and!; [done|congruence|apply not_elem_of_nil].
Qed.

(** A rendered rule as a command. *)
Lemma chars_words a c x : chars (a +:+ " " +:+ c +:+ " " +:+ x) = chars a ++ " "%char :: chars c ++ " "%char :: chars x.
Proof. by rewrite !chars_app. Qed.

Lemma append_command c x : plainName c → isCommand c (CAppend x) ("-A" +:+ " " +:+ c +:+ " " +:+ x).
Proof.
  intros Hc k. rewrite <- (unchars_chars ("-A" +:+ _)), chars_words. change (chars "-A") with ["-"%char; "A"%char]. cbn [app].
  rewrite execLine_command by done. destruct (k !! c) as [xs|]; [|done]. unfold execOn. rewrite decide_True by done. by rewrite unchars_chars.
Qed.

Lemma insert_command c x : plainName c → isCommand c (CInsert x) ("-I" +:+ " " +:+ c +:+ " " +:+ x).
Proof.
  intros Hc k. rewrite <- (unchars_chars ("-I" +:+ _)), chars_words. change (chars "-I") with ["-"%char; "I"%char]. cbn [app].
  rewrite execLine_command by done. destruct (k !! c) as [xs|]; [|done]. unfold execOn.
  rewrite decide_False by done. rewrite decide_True by done. by rewrite unchars_chars.
Qed.

Lemma delete_command c x : plainName c → ruleLike x → isCommand c (CDelete x) ("-D" +:+ " " +:+ c +:+ " " +:+ x).
Proof.
  intros Hc [(a & l & Hx & Ha) _] k. rewrite <- (unchars_chars ("-D" +:+ _)), chars_words. change (chars "-D") with ["-"%char; "D"%char]. cbn [app].
  rewrite execLine_command by done. destruct (k !! c) as [xs|]; [|done]. unfold execOn.
  do 3 rewrite decide_False by done. rewrite decide_True by done.
  assert (decNumber (chars x) 0 = None) as -> by (rewrite Hx; by destruct Ha as [->| ->]). by rewrite unchars_chars.
Qed.

Lemma number_command n xs {A} (f : nat → A) (g : A) :
  match decNumber (chars (Itoa (Z.of_nat (n + 1)))) 0 with
  | Some m => if decide (1 <= Z.to_nat m <= length xs) then f (Z.to_nat m - 1) else g
  | None => g
  end = if decide (n < length (A := string) xs) then f n else g.
Proof.
  rewrite decNumber_Itoa by lia. rewrite Nat2Z.id. destruct (decide (n < length xs)).
  - rewrite decide_True by lia. f_equal. lia.
  - by rewrite decide_False by lia.
Qed.

Lemma Itoa_blank n : (" "%char ∉ chars (Itoa (Z.of_nat n))).
Proof.
  unfold Itoa. rewrite chars_unchars. destruct (Z.ltb_spec (Z.of_nat n) 0); [lia|].
  pose proof (decDigits_Forall (λ a, a ≠ " "%char) (decFuel (Z.of_nat n)) (Z.of_nat n)) as HF.
  rewrite Forall_forall in HF. intros Hin. refine (HF _ _ _ Hin eq_refl); [|lia]. by apply decdigit_ind.
Qed.

Lemma replace_command c n x : plainName c → isCommand c (CReplace n x) ("-R" +:+ " " +:+ c +:+ " " +:+ Itoa (Z.of_nat (n + 1)) +:+ " " +:+ x).
Proof.
  intros Hc k. rewrite <- (unchars_chars ("-R" +:+ _)), chars_words. change (chars "-R") with ["-"%char; "R"%char]. cbn [app].
  rewrite execLine_command by done. destruct (k !! c) as [xs|]; [|done]. unfold execOn.
  do 2 rewrite decide_False by done. rewrite decide_True by done. rewrite chars_app, chars_app.
  change (chars " " ++ chars x) with (" "%char :: chars x). rewrite firstWord_app by apply Itoa_blank. cbn [fst snd].
  rewrite (number_command n xs (λ m, Some (<[m := norm (unchars (chars x))]> xs)) None). rewrite unchars_chars. cbn [runCommand]. done.
Qed.

Lemma deleteNum_command c n : plainName c → isCommand c (CDeleteNum n) (renderDeleteByIndexLine c (n + 1)).
Proof.
  intros Hc k. unfold renderDeleteByIndexLine.
  rewrite <- (unchars_chars ("-D " +:+ _)), !chars_app. change (chars "-D ") with ["-"%char; "D"%char; " "%char]. cbn [app].
  change (chars " " ++ ?l) with (" "%char :: l).
  rewrite execLine_command by done. destruct (k !! c) as [xs|]; [|done]. unfold execOn.
  do 3 rewrite decide_False by done. rewrite decide_True by done.
  rewrite decNumber_Itoa by lia. rewrite Nat2Z.id. cbn [runCommand]. destruct (decide (n < length xs)).
  - rewrite decide_True by lia. do 3 f_equal. lia.
  - by rewrite decide_False by lia.
Qed.

Lemma execLine_forward c k : plainName c → execLine (forwardLine c) k = Some (<[c := []]> k).
Proof.
  intros [Hne Hc]. unfold execLine, forwardLine, chainCreate. rewrite !chars_app. cbn [stripPrefix chars app].
  rewrite decide_True by done. change (chars " - -") with (" "%char :: chars "- -"). rewrite spanChars_app by done.
  destruct (chars c) eqn:E; [by destruct Hne; apply chars_inj|]. cbn [nonNil]. by rewrite <- E, unchars_chars.
Qed.

Definition deleteChainLine (c : string) : string := "--delete-chain " +:+ c.
Lemma execLine_deleteChain c k : plainName c →
  execLine (deleteChainLine c) k = if decide (k !! c = Some []) then Some (delete c k) else None.
Proof.
  intros Hc. unfold execLine, deleteChainLine. rewrite chars_app.
  change (chars "--delete-chain ") with (chars "--delete-chain" ++ [" "%char]). rewrite <- app_assoc. cbn [app].
  replace (chainCreate _) with (None (A := list ascii)) by done. rewrite firstWord_app.
  - rewrite decide_True by done. by rewrite unchars_chars.
  - apply (bool_decide_unpack _). vm_compute. exact I.
Qed.
End commands.

(** ** The input as lines *)

Lemma linesOf_bytes ls : Forall (λ l, newline ∉ chars l) ls → linesOf (bytesOfLines ls) = ls.
Proof.
  intros H. unfold linesOf.
  assert (splitOn newline (bytesOfLines ls) = (chars <$> ls) ++ [[]]) as ->.
  { induction H as [|l ls Hl _ IH]; [done|]. unfold bytesOfLines in *. cbn [mbind list_bind]. rewrite <- app_assoc. cbn [app].
    by rewrite splitOn_app, IH. }
  rewrite removelast_last, <- list_fmap_compose. rewrite <- (list_fmap_id ls) at 2. apply list_fmap_ext. intros i x _. apply unchars_chars.
Qed.

(** Lines of a transaction start with a colon or a dash, and have no end in
    them. *)
Definition lineLike (l : string) : Prop := (∃ a r, chars l = a :: r ∧ (a = ":"%char ∨ a = "-"%char)) ∧ newline ∉ chars l.
Definition txn (name : string) (ls : list string) : list string :=
  match ls with [] => [] | _ => ["*" +:+ name] ++ ls ++ ["COMMIT"] end.

Section input.
Context `{KT : !KernelText}.

Lemma execInput_inside name ls rest k : Forall lineLike ls →
  execInput name (ls ++ ["COMMIT"] ++ rest) true k =
  match execLines ls k with Some k' => execInput name rest false k' | None => None end.
Proof.
  intros H. revert k. induction H as [|l ls [(a & r & Ha & Hc) _] _ IH]; intros k.
  - cbn [app execInput execLines]. rewrite decide_False by done. by rewrite decide_True.
  - cbn [app execInput execLines].
    rewrite decide_False by (intros ->; rewrite chars_app in Ha; injection Ha as Ha _; destruct Hc; congruence).
    rewrite decide_False by (intros ->; injection Ha as Ha _; destruct Hc; congruence).
    destruct (execLine l k); [apply IH|done].
Qed.

Lemma execInput_txn name ls rest k : Forall lineLike ls →
  execInput name (txn name ls ++ rest) false k =
  match execLines ls k with Some k' => execInput name rest false k' | None => None end.
Proof.
  intros H. destruct ls as [|l ls]; [done|]. unfold txn.
  rewrite <- !app_assoc. change (["*" +:+ name] ++ ?x) with (("*" +:+ name) :: x). cbn [execInput]. rewrite decide_True by done.
  by apply execInput_inside.
Qed.
End input.

(** ** Writing the input *)

Definition opened (name : string) (ls : list string) : RestoreInputBuilder → RestoreInputBuilder := λ b,
  match ls with
  | [] => b
  | _ => mkBuilder (rb_lines b ++ (if rb_txnOpenerWritten b then [] else ["*" +:+ name]) ++ ls) name true
  end.

Lemma writeLine_opened name l b : name ≠ "" → rb_currentTableName b = name →
  WriteLine l b = Ret (opened name [l] b).
Proof.
  intros Hn <-. unfold WriteLine, maybeWriteTransactionOpener. rewrite decide_False by done.
  unfold opened, writeFormattedLine. destruct (rb_txnOpenerWritten b) eqn:E; simpl; [by rewrite E|]. by rewrite <- app_assoc.
Qed.

Lemma opened_app name l1 l2 b : rb_currentTableName b = name → opened name l2 (opened name l1 b) = opened name (l1 ++ l2) b.
Proof.
  intros <-. destruct l1 as [|x l1]; [done|]. destruct l2 as [|y l2]; [by rewrite app_nil_r|].
  unfold opened. cbn [app rb_lines rb_txnOpenerWritten]. f_equal. by rewrite <- !app_assoc.
Qed.

Lemma opened_name name ls b : rb_currentTableName b = name → rb_currentTableName (opened name ls b) = name.
Proof. by destruct ls. Qed.

Lemma writeLines_opened name ls b : name ≠ "" → rb_currentTableName b = name → writeLines ls b = Ret (opened name ls b).
Proof.
  intros Hn. revert b. induction ls as [|l ls IH]; intros b Hb; [done|].
  unfold writeLines in *. cbn [oforeach]. rewrite (writeLine_opened name) by done. cbn [obind].
  rewrite IH by by apply opened_name. by rewrite opened_app.
Qed.

Lemma writeForward_opened name cs b : name ≠ "" → rb_currentTableName b = name →
  writeForward cs b = Ret (opened name (forwardLine <$> cs) b).
Proof.
  intros Hn Hb. rewrite <- (writeLines_opened name) by done. clear Hb. unfold writeForward, writeLines.
  revert b. induction cs as [|c cs IH]; intros b; [done|]. cbn [oforeach fmap list_fmap].
  change (WriteForwardReference c b) with (WriteLine (forwardLine c) b). destruct (WriteLine _ b); [apply IH|done..].
Qed.

(** A whole transaction. *)
Lemma EndTransaction_opened name ls b : name ≠ "" → rb_currentTableName b = name → rb_txnOpenerWritten b = false →
  ∃ b', EndTransaction (opened name ls b) = Ret b' ∧ rb_lines b' = rb_lines b ++ txn name ls ∧ rb_currentTableName b' = "".
Proof.
  intros Hn Hb Ho. unfold EndTransaction. rewrite decide_False by by rewrite opened_name. eexists. split; [done|].
  destruct ls as [|l ls]; cbn [opened]; rewrite Ho; [by rewrite app_nil_r|]. split; [|done].
  cbn [rb_lines rb_txnOpenerWritten writeFormattedLine]. unfold txn. by rewrite <- !app_assoc.
Qed.

(** ** No line of a rule is broken *)

(** What a rule must not have: ends of lines in its match and its action. *)
Definition rule_ok (opt : Options) (r : Rule) : Prop :=
  (newline ∉ chars (RenderMatch (ru_Match r))) ∧
  match ru_Action r with Some a => newline ∉ chars (ToFragment opt a) | None => True end.

Lemma elem_of_joinChar sep x ls : x ∈ joinChar sep ls → x = sep ∨ ∃ l, l ∈ ls ∧ x ∈ l.
Proof.
  induction ls as [|l [|l' ls] IH]; [by intros ?%elem_of_nil| |].
  - simpl. intros H. right. exists l. split; [by apply list_elem_of_here|done].
  - rewrite joinChar_cons2, elem_of_app, elem_of_cons. intros [H|[->|H]]; [|by left|].
    + right. exists l. split; [by apply list_elem_of_here|done].
    + destruct (IH H) as [?|(l0 & ? & ?)]; [by left|]. right. exists l0. split; [by apply list_elem_of_further|done].
Qed.

Lemma joinWords_newline ws : Forall (λ w, newline ∉ chars w) ws → (newline ∉ chars (joinWords ws)).
Proof.
  rewrite Forall_forall. intros H Hin. unfold joinWords in Hin. rewrite chars_unchars in Hin.
  apply elem_of_joinChar in Hin as [?|(l & (w & -> & Hw)%list_elem_of_fmap & Hl)]; [done|]. by apply (H w).
Qed.

Lemma escapeChars_safe fuel l : Forall (λ a, safeChar a = true) (escapeChars fuel l).
Proof.
  revert l. induction fuel as [|fuel IH]; intros [|c l]; cbn [escapeChars]; try done.
  destruct (safeChar c) eqn:E; constructor; try done.
Qed.

Lemma commentFragment_newline c : (newline ∉ chars (commentFragment c)).
Proof.
  unfold commentFragment, truncateComment, escapeComment. rewrite chars_app, chars_quoted, !chars_unchars.
  intros [Hin|[Hin|[Hin|Hin]%elem_of_app]%elem_of_cons]%elem_of_app.
  - revert Hin. apply (bool_decide_unpack _). vm_compute. exact I.
  - done.
  - pose proof (escapeChars_safe (String.length c) (chars c)) as HF. rewrite Forall_forall in HF.
    apply elem_of_take in Hin as (i & Hi & _). apply list_elem_of_lookup_2, HF in Hi. by vm_compute in Hi.
  - apply list_elem_of_singleton in Hin. done.
Qed.

Lemma nonEmpty_newline s : (newline ∉ chars s) → Forall (λ w, newline ∉ chars w) (nonEmpty s).
Proof. intros H. unfold nonEmpty. case_decide; by repeat constructor. Qed.

Lemma renderInner_newline opt r frags frag : Forall (λ w, newline ∉ chars w) frags → (newline ∉ chars frag) → rule_ok opt r →
  (newline ∉ chars (renderInner opt r frags frag)).
Proof.
  intros Hs Hf [Hm Ha]. apply joinWords_newline. repeat apply Forall_app_2; try done.
  - by apply nonEmpty_newline.
  - apply Forall_fmap, Forall_true. intros c. apply commentFragment_newline.
  - by apply nonEmpty_newline.
  - destruct (ru_Action r); [by apply nonEmpty_newline|done].
Qed.

Lemma hashOk_newline h : hash_ok h → (newline ∉ chars h).
Proof. intros [_ Hh] Hin. rewrite Forall_forall in Hh. apply Hh in Hin. by vm_compute in Hin. Qed.

Lemma commentFrag_newline t h : prefix_ok (hashCommentPrefix t) → hash_ok h → (newline ∉ chars (commentFrag t h)).
Proof.
  intros [_ Hp] Hh. rewrite commentFrag_chars.
  rewrite !not_elem_of_app, not_elem_of_cons, !not_elem_of_app. split_and!; try done.
  - apply (bool_decide_unpack _). vm_compute. exact I.
  - apply (bool_decide_unpack _). vm_compute. exact I.
  - by apply hashOk_newline.
  - rewrite list_elem_of_singleton. done.
Qed.
