(* ===== verification/IptablesWrite.v ===== *)
(** * What the written input does

    The lines that [buildUpdates] writes for a chain, as commands, and their
    effect on the rules of the chain. *)

From S2P Require Import Prelude GoStd GoNet GoFmt Sha1 Sha224 ApiServer IptablesRule IptablesTable IptablesKernel IptablesText.
Open Scope nat_scope.

(** ** Blocks of commands *)

Section blocks.
Context `{KT : !KernelText}.

(** Lines that are commands for one chain. *)
Definition commandsFor (c : string) : list command → list string → Prop := Forall2 (λ cmd l, isCommand c cmd l ∧ lineLike l).

(** Commands need their chain. *)
Definition runOn (cmds : list command) (o : option (list string)) : option (option (list string)) :=
  match cmds, o with
  | [], _ => Some o
  | _ :: _, None => None
  | _ :: _, Some xs => match runCommands cmds xs with Some ys => Some (Some ys) | None => None end
  end.

Lemma runOn_Some cmds xs : runOn cmds (Some xs) = match runCommands cmds xs with Some ys => Some (Some ys) | None => None end.
Proof. by destruct cmds. Qed.

(** The effect of lines on one chain leaves the others alone. *)
Lemma execLines_commands c cmds lines k : commandsFor c cmds lines →
  match execLines lines k with
  | Some k' => runOn cmds (k !! c) = Some (k' !! c) ∧ ∀ c', c' ≠ c → k' !! c' = k !! c'
  | None => runOn cmds (k !! c) = None
  end.
Proof.
  intros H. revert k. induction H as [|cmd l cmds lines [Hcmd _] _ IH]; intros k; [done|].
  cbn [execLines]. rewrite Hcmd. destruct (k !! c) as [xs|] eqn:Hk; [|done].
  rewrite runOn_Some. cbn [runCommands]. destruct (runCommand cmd xs) as [ys|]; [|done].
  specialize (IH (<[c := ys]> k)). rewrite lookup_insert_eq, runOn_Some in IH.
  destruct (execLines lines _) as [k'|].
  - destruct IH as [IH Hne]. split; [done|]. intros c' Hc'. rewrite Hne by done. by rewrite lookup_insert_ne.
  - by destruct (runCommands cmds ys).
Qed.

(** Blocks for different chains. *)
Lemma execLines_blocks cs cmds lines k : NoDup cs → (∀ c, c ∈ cs → commandsFor c (cmds c) (lines c)) →
  match execLines (cs ≫= lines) k with
  | Some k' => (∀ c, c ∈ cs → runOn (cmds c) (k !! c) = Some (k' !! c)) ∧ (∀ c, c ∉ cs → k' !! c = k !! c)
  | None => ∃ c, c ∈ cs ∧ runOn (cmds c) (k !! c) = None
  end.
Proof.
  intros Hnd. revert k. induction Hnd as [|c cs Hc Hnd IH]; intros k H; cbn [mbind list_bind].
  { cbn [execLines]. split; [|done]. by intros c ?%elem_of_nil. }
  rewrite execLines_app. pose proof (execLines_commands c (cmds c) (lines c) k (H c (list_elem_of_here _ _))) as Hl.
  destruct (execLines (lines c) k) as [k1|]; [|exists c; split; [by apply list_elem_of_here|done]].
  destruct Hl as [Hl Hne]. specialize (IH k1 (λ c' Hc', H c' (list_elem_of_further _ _ _ Hc'))).
  change (list_bind _ _ lines cs) with (cs ≫= lines) in *. destruct (execLines (cs ≫= lines) k1) as [k'|].
  - destruct IH as [IH Hout]. split.
    + intros c' [->|Hc']%elem_of_cons; [by rewrite (Hout c)|]. rewrite <- IH by done.
      rewrite Hne; [done|]. by intros ->.
    + intros c' [Hc' Hcs]%not_elem_of_cons. rewrite Hout by done. by rewrite Hne.
  - destruct IH as (c' & Hc' & IH). exists c'. split; [by apply list_elem_of_further|].
    rewrite <- IH, Hne; [done|]. by intros ->.
Qed.

(** Chains that are flushed, and chains that are deleted. *)
Lemma execLines_forward cs k : Forall plainName cs →
  ∃ k', execLines (forwardLine <$> cs) k = Some k' ∧ ∀ c, k' !! c = if decide (c ∈ cs) then Some [] else k !! c.
Proof.
  intros H. revert k. induction H as [|c cs Hc _ IH]; intros k; cbn [fmap list_fmap execLines].
  { exists k. split; [done|]. intros c. rewrite decide_False; [done|apply not_elem_of_nil]. }
  rewrite execLine_forward by done. destruct (IH (<[c := []]> k)) as (k' & -> & Hk'). exists k'. split; [done|].
  intros c'. rewrite Hk'. destruct (decide (c' ∈ cs)); [by rewrite decide_True by by apply list_elem_of_further|].
  destruct (decide (c' = c)) as [->|Hne].
  - rewrite lookup_insert_eq, decide_True; [done|apply list_elem_of_here].
  - rewrite lookup_insert_ne, decide_False; [done| |done]. by apply not_elem_of_cons.
Qed.

Lemma execLines_delete cs k : Forall plainName cs → NoDup cs → (∀ c, c ∈ cs → k !! c = Some []) →
  ∃ k', execLines (deleteChainLine <$> cs) k = Some k' ∧ ∀ c, k' !! c = if decide (c ∈ cs) then None else k !! c.
Proof.
  intros H. revert k. induction H as [|c cs Hc _ IH]; intros k Hnd Hk; cbn [fmap list_fmap execLines].
  { exists k. split; [done|]. intros c. rewrite decide_False; [done|apply not_elem_of_nil]. }
  apply NoDup_cons in Hnd as [Hcs Hnd].
  rewrite execLine_deleteChain by done. rewrite decide_True by (apply Hk, list_elem_of_here).
  destruct (IH (delete c k)) as (k' & -> & Hk'); [done| |].
  { intros c' Hc'. rewrite lookup_delete_ne by by intros ->. by apply Hk, list_elem_of_further. }
  exists k'. split; [done|]. intros c'. rewrite Hk'.
  destruct (decide (c' ∈ cs)); [by rewrite decide_True by by apply list_elem_of_further|].
  destruct (decide (c' = c)) as [->|Hne].
  - rewrite lookup_delete_eq, decide_True; [done|apply list_elem_of_here].
  - rewrite lookup_delete_ne, decide_False; [done| |done]. by apply not_elem_of_cons.
Qed.

(** *** Kernels stay well-formed *)

Definition cmd_ok (cmd : command) : Prop :=
  match cmd with CAppend x | CInsert x | CReplace _ x => ruleLike x | _ => True end.
Definition goodLine (l : string) : Prop := ∀ k k', kernel_wf k → execLine l k = Some k' → kernel_wf k'.

Lemma kernel_wf_insert k c xs : kernel_wf k → plainName c → (∀ x, x ∈ xs → norm x = x ∧ ruleLike x) → kernel_wf (<[c := xs]> k).
Proof.
  intros [Hn Ht] Hc Hx. split.
  - intros c' ys [[-> _]|[_ Hk]]%lookup_insert_Some; [done|by eapply Hn].
  - intros c' ys y [[-> ->]|[_ Hk]]%lookup_insert_Some; [apply Hx|by eapply Ht].
Qed.

Lemma removeFirst_elem x xs ys y : removeFirst x xs = Some ys → y ∈ ys → y ∈ xs.
Proof.
  revert ys. induction xs as [|z xs IH]; intros ys; simpl; [done|]. case_decide; [intros [= ->] ?; by apply list_elem_of_further|].
  destruct (removeFirst x xs) as [l|]; [|done]. intros [= <-] [->|Hy]%elem_of_cons; [apply list_elem_of_here|].
  apply list_elem_of_further. by eapply IH.
Qed.

Lemma runCommand_elem cmd xs ys y : runCommand cmd xs = Some ys → y ∈ ys →
  y ∈ xs ∨ match cmd with CAppend x | CInsert x | CReplace _ x => y = norm x | _ => False end.
Proof.
  destruct cmd as [x|x|n x|n|x]; simpl.
  - intros [= <-] [Hy|Hy%list_elem_of_singleton]%elem_of_app; auto.
  - intros [= <-] [Hy|Hy]%elem_of_cons; auto.
  - case_decide; [|done]. intros [= <-] (i & [(_ & <- & _)|[_ Hi]]%list_lookup_insert_Some)%list_elem_of_lookup_1; [by right|]. left. by eapply list_elem_of_lookup_2.
  - case_decide; [|done]. intros [= <-] Hy%list_elem_of_delete_inv. by left.
  - intros E Hy. left. by eapply removeFirst_elem.
Qed.

Lemma goodLine_command c cmd l : isCommand c cmd l → cmd_ok cmd → goodLine l.
Proof.
  intros Hl Hc k k' wf. rewrite Hl. destruct (k !! c) as [xs|] eqn:E; [|done]. destruct (runCommand cmd xs) as [ys|] eqn:Er; [|done].
  intros [= <-]. apply kernel_wf_insert; [done|by eapply kw_names|]. intros y Hy.
  destruct (runCommand_elem _ _ _ _ Er Hy) as [Hin|Hn]; [by eapply kw_texts|].
  destruct cmd; try done; subst y; (split; [apply norm_norm|by apply norm_like]).
Qed.

Lemma commandsFor_good c cmds lines : commandsFor c cmds lines → Forall cmd_ok cmds → Forall goodLine lines.
Proof. induction 1 as [|cmd l cmds lines [Hl _] _ IH]; [done|]. intros [? ?]%Forall_cons. constructor; [by eapply goodLine_command|auto]. Qed.

Lemma commandsFor_like c cmds lines : commandsFor c cmds lines → Forall lineLike lines.
Proof. induction 1 as [|cmd l cmds lines [_ Hl] _ IH]; by constructor. Qed.

Lemma forwardLine_like c : plainName c → lineLike (forwardLine c).
Proof.
  intros Hc. unfold forwardLine. split; rewrite !chars_app; [eexists _, _; split; [done|by left]|].
  rewrite !not_elem_of_app. split_and!; [|by apply plainName_chars|]; apply (bool_decide_unpack _); vm_compute; exact I.
Qed.

Lemma deleteChainLine_like c : plainName c → lineLike (deleteChainLine c).
Proof.
  intros Hc. unfold deleteChainLine. split; rewrite !chars_app; [eexists _, _; split; [done|by right]|].
  rewrite !not_elem_of_app. split_and!; [|by apply plainName_chars]; apply (bool_decide_unpack _); vm_compute; exact I.
Qed.

Lemma goodLine_forward c : plainName c → goodLine (forwardLine c).
Proof. intros Hc k k' wf. rewrite execLine_forward by done. intros [= <-]. apply kernel_wf_insert; [done..|]. by intros x ?%elem_of_nil. Qed.

Lemma goodLine_deleteChain c : plainName c → goodLine (deleteChainLine c).
Proof.
  intros Hc k k' [Hn Ht]. rewrite execLine_deleteChain by done. case_decide; [|done]. intros [= <-].
  split; [intros c' xs [_ Hk]%lookup_delete_Some|intros c' xs x [_ Hk]%lookup_delete_Some]; eauto.
Qed.

Lemma execLines_good lines k k' : Forall goodLine lines → kernel_wf k → execLines lines k = Some k' → kernel_wf k'.
Proof.
  intros H. revert k. induction H as [|l lines Hl _ IH]; intros k wf; cbn [execLines]; [by intros [= <-]|].
  destruct (execLine l k) as [k1|] eqn:E; [|done]. intros E'. eapply IH; [|exact E']. by eapply Hl.
Qed.
End blocks.

(** ** Rules of the agent *)

Section rules.
Context (t : Table) `{KT : !KernelText} (prefix_fine : prefix_ok (hashCommentPrefix t)).
Abbreviation prefix := (hashCommentPrefix t).
Abbreviation textOf := (λ hr : string * Rule, hashedText t hr.1 hr.2).

(** A hash with its rule. *)
Definition hr_ok (hr : string * Rule) : Prop := hash_ok hr.1 ∧ rule_ok (tb_opt t) hr.2.

Lemma hr_ok_zip chain : Forall (rule_ok (tb_opt t)) (ch_Rules chain) → Forall hr_ok (zip (RuleHashes (tb_opt t) chain) (ch_Rules chain)).
Proof.
  pose proof (RuleHashes_ok (tb_opt t) chain) as Hh. revert Hh. generalize (RuleHashes (tb_opt t) chain). intros hs Hh Hr.
  revert Hh. generalize dependent hs. induction Hr as [|r rs Hr _ IH]; intros [|h hs] Hh; try by constructor.
  apply Forall_cons in Hh as [Hh Hhs]. constructor; [done|]. by apply IH.
Qed.

Lemma lineLike_rule frags r frag : (∃ a l, chars (renderInner (tb_opt t) r frags frag) = a :: l ∧ a = "-"%char) →
  Forall (λ w, newline ∉ chars w) frags → (newline ∉ chars frag) → rule_ok (tb_opt t) r →
  lineLike (renderInner (tb_opt t) r frags frag).
Proof. intros (a & l & E & ->) Hs Hf Hr. split; [exists "-"%char, l; auto|]. by apply renderInner_newline. Qed.

(** The number in a command is one word. *)
Lemma Itoa_newline n : (newline ∉ chars (Itoa (Z.of_nat n))).
Proof.
  unfold Itoa. rewrite chars_unchars. destruct (Z.ltb_spec (Z.of_nat n) 0); [lia|].
  pose proof (decDigits_Forall (λ a, a ≠ newline) (decFuel (Z.of_nat n)) (Z.of_nat n)) as HF.
  rewrite Forall_forall in HF. intros Hin. refine (HF _ _ _ Hin eq_refl); [|lia]. by apply decdigit_ind.
Qed.

Lemma append_line c hr : plainName c → hr_ok hr → isCommand c (CAppend (textOf hr)) (appendLine t c hr) ∧ lineLike (appendLine t c hr).
Proof.
  intros Hc [Hh Hr]. assert (appendLine t c hr = "-A" +:+ " " +:+ c +:+ " " +:+ textOf hr) as E
    by (apply renderInner_two, commentFrag_nonempty).
  split; [rewrite E; by apply append_command|]. apply lineLike_rule; [|repeat constructor|by apply commentFrag_newline|done].
  - unfold appendLine, RenderAppend in E. rewrite E. eexists _, _. by rewrite chars_app.
  - apply (bool_decide_unpack _). vm_compute. exact I.
  - by apply plainName_chars.
Qed.

Lemma insert_line c hr : plainName c → hr_ok hr → isCommand c (CInsert (textOf hr)) (insertLine t c hr) ∧ lineLike (insertLine t c hr).
Proof.
  intros Hc [Hh Hr]. assert (insertLine t c hr = "-I" +:+ " " +:+ c +:+ " " +:+ textOf hr) as E
    by (apply renderInner_two, commentFrag_nonempty).
  split; [rewrite E; by apply insert_command|]. apply lineLike_rule; [|repeat constructor|by apply commentFrag_newline|done].
  - unfold insertLine, RenderInsert in E. rewrite E. eexists _, _. by rewrite chars_app.
  - apply (bool_decide_unpack _). vm_compute. exact I.
  - by apply plainName_chars.
Qed.

Lemma replace_line c n hr : plainName c → hr_ok hr →
  isCommand c (CReplace n (textOf hr)) (RenderReplace (tb_opt t) hr.2 c (n + 1) (commentFrag t hr.1)) ∧
  lineLike (RenderReplace (tb_opt t) hr.2 c (n + 1) (commentFrag t hr.1)).
Proof.
  intros Hc [Hh Hr]. assert (RenderReplace (tb_opt t) hr.2 c (n + 1) (commentFrag t hr.1) =
    "-R" +:+ " " +:+ c +:+ " " +:+ Itoa (Z.of_nat (n + 1)) +:+ " " +:+ textOf hr) as E by (apply renderInner_three, commentFrag_nonempty).
  split; [rewrite E; by apply replace_command|]. apply lineLike_rule; [|repeat constructor|by apply commentFrag_newline|done].
  - unfold RenderReplace in E. rewrite E. eexists _, _. by rewrite chars_app.
  - apply (bool_decide_unpack _). vm_compute. exact I.
  - by apply plainName_chars.
  - apply Itoa_newline.
Qed.

Lemma deleteNum_line c n : plainName c →
  isCommand c (CDeleteNum n) (renderDeleteByIndexLine c (n + 1)) ∧ lineLike (renderDeleteByIndexLine c (n + 1)).
Proof.
  intros Hc. split; [by apply deleteNum_command|]. unfold renderDeleteByIndexLine. split; rewrite !chars_app.
  - eexists "-"%char, _. split; [done|by right].
  - rewrite !not_elem_of_app. split_and!; [|by apply plainName_chars| |apply Itoa_newline];
      apply (bool_decide_unpack _); vm_compute; exact I.
Qed.

(** *** Rule by rule *)

Fixpoint diffCommands (n i : nat) (previous : list string) (current : list (string * Rule)) : list command :=
  match previous, current with
  | p :: previous', hr :: current' =>
      (if decide (p = hr.1) then [] else [CReplace i (textOf hr)]) ++ diffCommands n (i + 1) previous' current'
  | _ :: previous', [] => CDeleteNum n :: diffCommands n (i + 1) previous' []
  | [], _ => (λ hr, CAppend (textOf hr)) <$> current
  end.

Lemma commandsFor_fmap {A} c (f : A → command) (g : A → string) l :
  Forall (λ a, isCommand c (f a) (g a) ∧ lineLike (g a)) l → commandsFor c (f <$> l) (g <$> l).
Proof. induction 1; by constructor. Qed.

Lemma diffLines_commands c n i previous current : plainName c → Forall hr_ok current →
  commandsFor c (diffCommands n i previous current) (diffLines t c n i previous current).
Proof.
  intros Hc. revert i current. induction previous as [|p previous IH]; intros i current Hcur; cbn [diffCommands diffLines].
  - apply commandsFor_fmap. eapply Forall_impl; [done|]. intros hr Hhr. by apply append_line.
  - destruct current as [|[h r] current]; [constructor; [by apply deleteNum_line|by apply IH]|].
    apply Forall_cons in Hcur as [Hhr Hcur]. apply Forall2_app; [|by apply IH].
    cbn [fst]. case_decide; [constructor|]. constructor; [by apply (replace_line c i (h, r))|constructor].
Qed.

Lemma hashAt_text c hr : plainName c → hash_ok hr.1 → hashAt prefix c (norm (textOf hr)) = hr.1.
Proof. intros Hc Hh. rewrite norm_hash. by apply hashedText_hash. Qed.

Lemma runCommands_append l xs : runCommands ((λ hr, CAppend (textOf hr)) <$> l) xs = Some (xs ++ (norm ∘ textOf <$> l)).
Proof.
  revert xs. induction l as [|hr l IH]; intros xs; [by rewrite app_nil_r|]. cbn [fmap list_fmap runCommands runCommand].
  change (list_fmap _ _ ?f ?l) with (f <$> l) in *. rewrite IH. by rewrite <- app_assoc.
Qed.

Lemma hashesIn_texts c l : plainName c → Forall hr_ok l → hashesIn prefix c (norm ∘ textOf <$> l) = l.*1.
Proof.
  intros Hc. unfold hashesIn. induction 1 as [|hr l [Hh _] _ IH]; [done|]. cbn [fmap list_fmap]. f_equal; [|apply IH].
  by apply hashAt_text.
Qed.

(** The commands turn a chain with the hashes [previous] into one with the
    hashes wanted. *)
Lemma runCommands_diff c n previous current old done : plainName c → Forall hr_ok current →
  hashesIn prefix c old = previous → length done + length current = n →
  ∃ new, runCommands (diffCommands n (length done) previous current) (done ++ old) = Some (done ++ new) ∧
    hashesIn prefix c new = current.*1.
Proof.
  intros Hc. revert done previous current. induction old as [|x old IH]; intros done previous current Hcur Hp Hn; simpl in Hp; subst previous.
  - exists (norm ∘ textOf <$> current). cbn [diffCommands]. rewrite runCommands_append, app_nil_r. split; [done|]. by apply hashesIn_texts.
  - destruct current as [|hr current]; cbn [diffCommands].
    + simpl in Hn. cbn [runCommands runCommand]. rewrite decide_True by (rewrite length_app; simpl; lia).
      replace (delete n (done ++ x :: old)) with (done ++ old) by (subst n; rewrite Nat.add_0_r; by rewrite delete_middle).
      destruct (IH done (hashesIn prefix c old) [] (Forall_nil_2 _) eq_refl Hn) as (new & Hrun & Hnew). exists new. split; [|done].
      rewrite <- Hrun. f_equal. clear. generalize (hashesIn prefix c old) as l. intros l. generalize (length done) as i, (length done + 1) as j.
      induction l as [|? l IHl]; intros i j; cbn [diffCommands]; [done|]. f_equal. apply IHl.
    + apply Forall_cons in Hcur as [[Hh Hr] Hcur]. simpl in Hn. rewrite runCommands_app.
      assert (∃ y, runCommands (if decide (hashAt prefix c x = hr.1) then [] else [CReplace (length done) (textOf hr)]) (done ++ x :: old)
        = Some (done ++ y :: old) ∧ hashAt prefix c y = hr.1) as (y & -> & Hy).
      { case_decide as Hx; [by exists x|]. exists (norm (textOf hr)). split; [|by apply hashAt_text].
        cbn [runCommands runCommand]. rewrite decide_True by (rewrite length_app; simpl; lia). by rewrite insert_app_r_alt, Nat.sub_diag by lia. }
      destruct (IH (done ++ [y]) (hashesIn prefix c old) current Hcur eq_refl) as (new & Hrun & Hnew); [rewrite length_app; simpl; lia|].
      exists (y :: new). rewrite length_app in Hrun. rewrite <- !app_assoc in Hrun. split; [done|].
      unfold hashesIn in *. cbn [fmap list_fmap]. by f_equal.
Qed.

Lemma textOf_like hr : hr_ok hr → ruleLike (textOf hr).
Proof.
  intros [Hh Hr]. destruct hr as [h r]. cbn [fst snd] in *. split.
  - unfold hashedText. destruct (ruleText_head (tb_opt t) r (commentFrag t h)) as [l ->]. rewrite commentFrag_chars. eexists _, _. split; [done|by left].
  - unfold hashedText, ruleText. pose proof (renderInner_newline (tb_opt t) r [] (commentFrag t h)) as H. unfold renderInner, nonEmpty at 1 in H.
    rewrite decide_False in H by apply commentFrag_nonempty. apply H; [done|by apply commentFrag_newline|done].
Qed.

Lemma Forall_cmd_ok (f : string → command) l : (∀ x, ruleLike x → cmd_ok (f x)) → Forall hr_ok l → Forall cmd_ok ((λ hr, f (textOf hr)) <$> l).
Proof. intros Hf Hl. apply Forall_fmap. eapply Forall_impl; [exact Hl|]. intros hr Hhr. by apply Hf, textOf_like. Qed.

Lemma diffCommands_ok n i previous current : Forall hr_ok current → Forall cmd_ok (diffCommands n i previous current).
Proof.
  revert i current. induction previous as [|p previous IH]; intros i current Hcur; cbn [diffCommands]; [by apply (Forall_cmd_ok CAppend)|].
  destruct current as [|hr current]; [constructor; [done|by apply IH]|]. apply Forall_cons in Hcur as [Hhr Hcur].
  apply Forall_app_2; [|by apply IH]. case_decide; [done|]. constructor; [by apply textOf_like|done].
Qed.

(** *** Chains that are shared *)

(** The rules that others wrote, and those of the agent. *)
Definition foreign (c : string) (xs : list string) : list string := filter (λ x, hashAt prefix c x = "") xs.
Definition hashed (c : string) (xs : list string) : list string := filter (λ x, hashAt prefix c x ≠ "") xs.

(** The full rules that are kept of a chain are those of the agent, in place. *)
Definition full_ok (c : string) (xs : list string) : Prop := ∀ j x, xs !! j = Some x → hashAt prefix c x ≠ "" →
  default [] (chainToFullRules t !! c) !! j = Some (ruleLine c x).

Lemma deleteByValue c x : plainName c → ruleLike x →
  unchars (replaceFirst (chars "-A") (chars "-D") (chars (ruleLine c x))) = "-D" +:+ " " +:+ c +:+ " " +:+ x.
Proof.
  intros Hc Hx. apply chars_inj. rewrite chars_unchars, chars_words. unfold ruleLine. rewrite !chars_app.
  change (chars "-A ") with (chars "-A" ++ [" "%char]). rewrite <- !app_assoc.
  change (chars "-A" ++ ?l) with ("-"%char :: "A"%char :: l). cbn [replaceFirst].
  change ("-"%char :: "A"%char :: ?l) with (chars "-A" ++ l). rewrite stripPrefix_app. done.
Qed.

Lemma delete_line c x : plainName c → ruleLike x →
  isCommand c (CDelete x) (unchars (replaceFirst (chars "-A") (chars "-D") (chars (ruleLine c x)))) ∧
  lineLike (unchars (replaceFirst (chars "-A") (chars "-D") (chars (ruleLine c x)))).
Proof.
  intros Hc Hx. rewrite deleteByValue by done. split; [by apply delete_command|]. split; rewrite chars_words.
  - eexists "-"%char, _. split; [done|by right].
  - pose proof (plainName_chars c Hc) as (_ & Hn & _). destruct Hx as [_ Hx].
    rewrite not_elem_of_app, not_elem_of_cons, not_elem_of_app, not_elem_of_cons. split_and!; try done.
    apply (bool_decide_unpack _). vm_compute. exact I.
Qed.

Lemma deleteLines_commands c xs : plainName c → Forall ruleLike xs → full_ok c xs →
  ∃ lines, deleteLines t c 0 (hashesIn prefix c xs) = Ret lines ∧ commandsFor c (CDelete <$> hashed c xs) lines.
Proof.
  intros Hc Hl Hf. assert (∀ j x, xs !! j = Some x → hashAt prefix c x ≠ "" →
    default [] (chainToFullRules t !! c) !! (0 + j) = Some (ruleLine c x)) as Hf' by exact Hf.
  clear Hf. revert Hf'. generalize 0 as i. induction Hl as [|x xs Hx _ IH]; intros i Hf; unfold hashed, hashesIn in *; cbn [fmap list_fmap deleteLines].
  { exists []. split; [done|constructor]. }
  destruct (IH (i + 1)) as (lines & E & Hlines).
  { intros j y Hj Hy. rewrite <- Nat.add_assoc. apply (Hf (S j) y Hj Hy). }
  case_decide as Hh.
  - exists lines. split; [exact E|]. rewrite filter_cons_False by naive_solver. done.
  - unfold renderDeleteByValueLine. specialize (Hf 0 x eq_refl Hh). rewrite Nat.add_0_r in Hf. rewrite Hf.
    cbn [obind]. setoid_rewrite E. eexists. split; [done|]. rewrite filter_cons_True by done. constructor; [by apply delete_line|done].
Qed.

Lemma removeFirst_app x xs ys : x ∉ xs → removeFirst x (xs ++ x :: ys) = Some (xs ++ ys).
Proof.
  induction xs as [|y xs IH]; intros Hx; cbn [app removeFirst]; [by rewrite decide_True|].
  apply not_elem_of_cons in Hx as [Hy Hx]. rewrite decide_False by done. by rewrite IH.
Qed.

(** All the rules of the agent go, and no other. *)
Lemma runCommands_delete c xs : Forall (λ x, norm x = x) xs →
  runCommands (CDelete <$> hashed c xs) xs = Some (foreign c xs).
Proof.
  intros Hn. enough (∀ pre, Forall (λ x, hashAt prefix c x = "") pre →
    runCommands (CDelete <$> hashed c xs) (pre ++ xs) = Some (pre ++ foreign c xs)) as H by apply (H []), Forall_nil_2.
  induction Hn as [|x xs Hx _ IH]; intros pre Hpre; unfold hashed, foreign in *; [done|].
  destruct (decide (hashAt prefix c x = "")) as [Hh|Hh].
  - rewrite (filter_cons_True (λ x, hashAt prefix c x = "")), (filter_cons_False (λ x, hashAt prefix c x ≠ "")) by naive_solver.
    specialize (IH (pre ++ [x])). rewrite <- !app_assoc in IH. apply IH. by apply Forall_app_2; repeat constructor.
  - rewrite (filter_cons_False (λ x, hashAt prefix c x = "")), (filter_cons_True (λ x, hashAt prefix c x ≠ "")) by naive_solver.
    cbn [fmap list_fmap runCommands runCommand]. rewrite Hx, removeFirst_app; [by apply IH|].
    intros Hin. rewrite Forall_forall in Hpre. naive_solver.
Qed.

Lemma runCommands_insert l xs : runCommands (reverse ((λ hr, CInsert (textOf hr)) <$> l)) xs = Some ((norm ∘ textOf <$> l) ++ xs).
Proof.
  revert xs. induction l as [|hr l IH]; intros xs; [done|]. rewrite fmap_cons, reverse_cons, runCommands_app, IH. done.
Qed.

(** The rules that are inserted into a chain and those that are appended, with
    their hashes. *)
Definition rulesIn (m : gmap string (list Rule)) (c : string) : list Rule := default [] (m !! c).
Definition insertedOf (c : string) : list (string * Rule) :=
  zip (calculateRuleHashes (tb_opt t) c (rulesIn (chainToInsertedRules t) c)) (rulesIn (chainToInsertedRules t) c).
Definition appendedOf (c : string) : list (string * Rule) :=
  zip (calculateRuleHashes (tb_opt t) (c +:+ "*appends*") (rulesIn (chainToAppendedRules t) c)) (rulesIn (chainToAppendedRules t) c).
Definition expectedOf (c : string) (n : nat) : list string := (expectedHashesForInsertAppendChain t c n).1.1.

Definition hook_ok (c : string) : Prop :=
  Forall (rule_ok (tb_opt t)) (rulesIn (chainToInsertedRules t) c) ∧ Forall (rule_ok (tb_opt t)) (rulesIn (chainToAppendedRules t) c).
Definition mode_ok : Prop := InsertMode (tb_opt t) = "insert" ∨ InsertMode (tb_opt t) = "append".

Lemma zip_fst chain : (zip (RuleHashes (tb_opt t) chain) (ch_Rules chain)).*1 = RuleHashes (tb_opt t) chain.
Proof. apply fst_zip. by rewrite length_RuleHashes. Qed.

Lemma insertedOf_fst c : (insertedOf c).*1 = calculateRuleHashes (tb_opt t) c (rulesIn (chainToInsertedRules t) c).
Proof. apply (zip_fst (mkChain c (rulesIn (chainToInsertedRules t) c))). Qed.
Lemma appendedOf_fst c : (appendedOf c).*1 = calculateRuleHashes (tb_opt t) (c +:+ "*appends*") (rulesIn (chainToAppendedRules t) c).
Proof. apply (zip_fst (mkChain (c +:+ "*appends*") (rulesIn (chainToAppendedRules t) c))). Qed.

Lemma insertedOf_ok c : hook_ok c → Forall hr_ok (insertedOf c).
Proof. intros [Hi _]. by apply (hr_ok_zip (mkChain c _)). Qed.
Lemma appendedOf_ok c : hook_ok c → Forall hr_ok (appendedOf c).
Proof. intros [_ Ha]. by apply (hr_ok_zip (mkChain (c +:+ "*appends*") _)). Qed.

(** The commands of a shared chain. *)
Definition hookCommands (c : string) (o : option (list string)) : list command :=
  let xs := default [] o in
  if decide (hashesIn prefix c <$> o = Some (expectedOf c (numEmptyStrings (hashesIn prefix c xs)))) then []
  else (CDelete <$> hashed c xs) ++
    (if decide (InsertMode (tb_opt t) = "insert") then reverse ((λ hr, CInsert (textOf hr)) <$> insertedOf c)
     else (λ hr, CAppend (textOf hr)) <$> insertedOf c) ++ ((λ hr, CAppend (textOf hr)) <$> appendedOf c).
Definition hookHashes (c : string) (m : gmap string (option (list string))) : gmap string (option (list string)) :=
  let previous := chainToDataplaneHashes t !! c in
  let all := expectedOf c (numEmptyStrings (default [] previous)) in
  if decide (previous = Some all) then m else <[c := Some all]> m.

Lemma commandsFor_app c l1 l2 m1 m2 : commandsFor c l1 m1 → commandsFor c l2 m2 → commandsFor c (l1 ++ l2) (m1 ++ m2).
Proof. apply Forall2_app. Qed.

Lemma appendLines_commands c l : plainName c → Forall hr_ok l → commandsFor c ((λ hr, CAppend (textOf hr)) <$> l) (appendLine t c <$> l).
Proof. intros Hc Hl. apply commandsFor_fmap. eapply Forall_impl; [done|]. intros hr Hhr. by apply append_line. Qed.

Lemma insertLines_commands c l : plainName c → Forall hr_ok l →
  commandsFor c (reverse ((λ hr, CInsert (textOf hr)) <$> l)) (reverse (insertLine t c <$> l)).
Proof.
  intros Hc Hl. apply Forall2_reverse, commandsFor_fmap. eapply Forall_impl; [done|]. intros hr Hhr. by apply insert_line.
Qed.

Lemma insertAppendPass_commands c o : plainName c → hook_ok c → Forall ruleLike (default [] o) → full_ok c (default [] o) →
  chainToDataplaneHashes t !! c = hashesIn prefix c <$> o →
  ∃ lines, commandsFor c (hookCommands c o) lines ∧
    ∀ u, ∃ full, insertAppendPass t c u = Ret (mkUpdates (up_lines u ++ lines) (hookHashes c (up_newHashes u)) full).
Proof.
  intros Hc Hok Hl Hf Hp. pose proof (insertedOf_ok c Hok) as Hi. pose proof (appendedOf_ok c Hok) as Ha.
  unfold hookCommands, hookHashes, insertAppendPass, expectedOf. rewrite Hp.
  assert (default [] (hashesIn prefix c <$> o) = hashesIn prefix c (default [] o)) as -> by by destruct o.
  destruct (expectedHashesForInsertAppendChain _ _ _) as [[all ins] app] eqn:E.
  assert (zip ins (default [] (chainToInsertedRules t !! c)) = insertedOf c) as -> by (unfold insertedOf; by injection E as _ <- _).
  assert (zip app (default [] (chainToAppendedRules t !! c)) = appendedOf c) as -> by (unfold appendedOf; by injection E as _ _ <-).
  cbn [fst]. destruct (decide _) as [Hsame|Hdiff].
  - exists []. split; [constructor|]. intros u. exists (up_newFull u). rewrite app_nil_r. by destruct u.
  - destruct (deleteLines_commands c (default [] o) Hc Hl Hf) as (dels & -> & Hdels). cbn [obind].
    destruct (decide (InsertMode (tb_opt t) = "insert")); eexists; (split; [|intros u; eexists; done]);
      (apply commandsFor_app; [done|]); (apply commandsFor_app; [|by apply appendLines_commands]).
    + by apply insertLines_commands.
    + by apply appendLines_commands.
Qed.

Lemma hookCommands_ok c o : hook_ok c → Forall cmd_ok (hookCommands c o).
Proof.
  intros Hok. pose proof (insertedOf_ok c Hok) as Hi. pose proof (appendedOf_ok c Hok) as Ha.
  unfold hookCommands. case_decide; [done|]. apply Forall_app_2; [by apply Forall_fmap, Forall_true|]. apply Forall_app_2; [|by apply (Forall_cmd_ok CAppend)].
  case_decide; [by apply Forall_reverse, (Forall_cmd_ok CInsert)|by apply (Forall_cmd_ok CAppend)].
Qed.

Lemma foreign_texts c l : plainName c → Forall hr_ok l → foreign c (norm ∘ textOf <$> l) = [].
Proof.
  intros Hc Hl. unfold foreign. induction Hl as [|hr l [Hh _] _ IH]; [done|]. rewrite fmap_cons, filter_cons_False; [done|].
  cbn [compose]. rewrite hashAt_text by done. apply Hh.
Qed.

Lemma hashesIn_foreign c xs : hashesIn prefix c (foreign c xs) = replicate (length (foreign c xs)) "".
Proof.
  unfold hashesIn, foreign. induction xs as [|x xs IH]; [done|].
  destruct (decide (hashAt prefix c x = "")) as [Hh|Hh].
  - rewrite filter_cons_True by done. cbn [fmap list_fmap length replicate]. by rewrite Hh; f_equal.
  - by rewrite filter_cons_False.
Qed.

Lemma numEmpty_hashes c xs : numEmptyStrings (hashesIn prefix c xs) = length (foreign c xs).
Proof.
  unfold numEmptyStrings, hashesIn, foreign. induction xs as [|x xs IH]; [done|]. rewrite fmap_cons, !filter_cons.
  destruct (decide _); simpl; by rewrite IH.
Qed.

Lemma foreign_app c xs ys : foreign c (xs ++ ys) = foreign c xs ++ foreign c ys.
Proof. apply filter_app. Qed.
Lemma hashesIn_app c xs ys : hashesIn prefix c (xs ++ ys) = hashesIn prefix c xs ++ hashesIn prefix c ys.
Proof. apply fmap_app. Qed.

(** A shared chain ends with the rules of the agent and the rules of others, which
    are untouched and in their order. *)
Definition hookDone (c : string) (xs ys : list string) : Prop :=
  foreign c ys = foreign c xs ∧ hashesIn prefix c ys = expectedOf c (length (foreign c xs)).

Lemma hookCommands_run c xs : plainName c → hook_ok c → mode_ok → Forall (λ x, norm x = x) xs →
  ∃ ys, runOn (hookCommands c (Some xs)) (Some xs) = Some (Some ys) ∧ hookDone c xs ys.
Proof.
  intros Hc Hok Hm Hn. pose proof (insertedOf_ok c Hok) as Hi. pose proof (appendedOf_ok c Hok) as Ha.
  unfold hookCommands. cbn [default from_option fmap option_fmap option_map]. rewrite numEmpty_hashes.
  destruct (decide _) as [[= Hsame]|Hdiff]; [by exists xs|]. rewrite runOn_Some, runCommands_app.
  unfold id. rewrite runCommands_delete, runCommands_app by done. unfold hookDone, expectedOf, expectedHashesForInsertAppendChain.
  rewrite <- hashesIn_foreign. fold (rulesIn (chainToInsertedRules t) c) (rulesIn (chainToAppendedRules t) c).
  rewrite <- insertedOf_fst, <- appendedOf_fst. cbn [fst].
  assert (foreign c (foreign c xs) = foreign c xs) as Hff by (unfold foreign; rewrite list_filter_filter; by apply list_filter_iff; naive_solver).
  destruct Hm as [Hm|Hm]; rewrite Hm.
  - rewrite decide_True, runCommands_insert, runCommands_append by done. eexists. split; [done|].
    rewrite (decide_False (P := "insert" = "append")) by done. rewrite !foreign_app, !foreign_texts, Hff, !hashesIn_app, !hashesIn_texts by done.
    by rewrite app_nil_r.
  - rewrite decide_False, !runCommands_append by done. eexists. split; [done|].
    rewrite (decide_True (P := "append" = "append")) by done. rewrite !foreign_app, !foreign_texts, Hff, !hashesIn_app, !hashesIn_texts by done.
    by rewrite !app_nil_r.
Qed.
End rules.
