(* ===== verification/IptablesRead.v ===== *)
(** * What is read of the kernel's table

    The output of [iptables-save] is read as the hashes of every chain and as the
    full text of the rules of the agent in shared chains. *)

From S2P Require Import Prelude GoStd GoNet GoFmt Sha1 Sha224 ApiServer IptablesRule IptablesTable IptablesKernel IptablesText IptablesWrite.
Open Scope nat_scope.

Section read.
Context (t : Table).
Abbreviation prefix := (hashCommentPrefix t).
Abbreviation noNft := (Forall (λ l, nftError (chars l) = false)).

Definition fullOf (c x : string) : string := if decide (hashAt prefix c x = "") then "-" else ruleLine c x.

(** ** Lines *)

Lemma readLine_other line s : nftError (chars line) = false → ¬ relevant line → readLine t line s = Some s.
Proof.
  intros Hn Hr. unfold readLine, relevant in *. destruct s as [[hs rs] has]. rewrite Hn.
  destruct (chars line) as [|a l]; [done|]. unfold chainCreate, appendTo. cbn [stripPrefix chars].
  destruct (decide (":"%char = a)) as [<-|Ha]; [by destruct Hr|]. destruct (decide ("-"%char = a)) as [<-|]; [|done].
  destruct l as [|b l]; [done|]. destruct (decide ("A"%char = b)) as [<-|]; [|done].
  destruct l as [|d l]; [done|]. destruct (decide (" "%char = d)) as [<-|]; [by destruct Hr|done].
Qed.

Lemma readLines_relevant lines s : noNft lines → readLines t lines s = readLines t (filter relevant lines) s.
Proof.
  intros H. revert s. induction H as [|l lines Hl _ IH]; intros s; [done|]. rewrite filter_cons. cbn [readLines].
  destruct (decide (relevant l)) as [Hr|Hr]; cbn [readLines].
  - destruct (readLine t l s); [apply IH|done].
  - rewrite readLine_other by done. apply IH.
Qed.

Lemma readLines_app l1 l2 s : readLines t (l1 ++ l2) s = match readLines t l1 s with Some s' => readLines t l2 s' | None => None end.
Proof. revert s. induction l1 as [|l l1 IH]; intros s; cbn [app readLines]; [done|]. destruct (readLine t l s); [apply IH|done]. Qed.

Lemma nonNil_chars c : plainName c → nonNil (chars c) = Some (chars c).
Proof. intros Hc. destruct (plainName_chars c Hc) as (_ & _ & Hne). by destruct (chars c). Qed.

(** The declaration of a chain. *)
Lemma readLine_decl c policy hs rs has : plainName c → nftError (chars (":" +:+ c +:+ " " +:+ policy)) = false →
  readLine t (":" +:+ c +:+ " " +:+ policy) (hs, rs, has) = Some (<[c := []]> hs, rs, has).
Proof.
  intros Hc Hn. unfold readLine. rewrite Hn, !chars_app. unfold chainCreate. cbn [stripPrefix chars app]. rewrite decide_True by done.
  change (chars " " ++ ?x) with (" "%char :: x). rewrite spanChars_app by (by try apply Hc).
  rewrite nonNil_chars by done. by rewrite unchars_chars.
Qed.

Lemma findHash_nonNil p l h : findHash p l = Some h → h ≠ [].
Proof.
  assert (∀ l h, hashAfter p l = Some h → h ≠ []) as Ha.
  { intros l' h'. unfold hashAfter. destruct (stripPrefix p l') as [l2|]; [|done]. destruct (spanChars hashChar l2); [done|]. by intros [= <-]. }
  assert (∀ l h, matchHash p l = Some h → h ≠ []) as Hm.
  { intros l' h'. unfold matchHash. destruct (stripPrefix _ l') as [l1|]; [|done].
    destruct (match stripPrefix [quoteChar] l1 with Some l2 => hashAfter p l2 | None => None end) as [h2|] eqn:E; [|apply Ha].
    intros [= <-]. destruct (stripPrefix [quoteChar] l1); [by eapply Ha|done]. }
  induction l as [|a l IH]; cbn [findHash].
  - destruct (matchHash p []) eqn:E; [|done]. intros [= <-]. by eapply Hm.
  - destruct (matchHash p (a :: l)) eqn:E; [|done]. intros [= <-]. by eapply Hm.
Qed.

(** A rule of a chain. *)
Lemma readLine_rule c x hs rs has : plainName c → nftError (chars (ruleLine c x)) = false →
  readLine t (ruleLine c x) (hs, rs, has) =
  Some (<[c := default [] (hs !! c) ++ [hashAt prefix c x]]> hs,
        (if isOurChain t c then rs else <[c := default [] (rs !! c) ++ [fullOf c x]]> rs),
        (if decide (hashAt prefix c x = "") then has else {[c]} ∪ has)).
Proof.
  intros Hc Hn. unfold readLine, fullOf, hashAt. rewrite Hn.
  assert (chainCreate (chars (ruleLine c x)) = None) as -> by (unfold ruleLine; by rewrite chars_app).
  assert (appendTo (chars (ruleLine c x)) = Some (chars c)) as ->.
  { unfold appendTo, ruleLine. rewrite !chars_app, stripPrefix_app. change (chars " " ++ ?x) with (" "%char :: x).
    rewrite spanChars_app by (by try apply Hc). by apply nonNil_chars. }
  rewrite unchars_chars. destruct (findHash (chars prefix) (chars (ruleLine c x))) as [h|] eqn:E.
  - apply findHash_nonNil in E. rewrite !(decide_False (P := unchars h = "")); [done|..];
      intros Hh; apply E; apply (f_equal chars) in Hh; by rewrite chars_unchars in Hh.
  - by rewrite !decide_True.
Qed.

(** ** Blocks *)

Lemma readLines_decls policy cs hs rs has : Forall plainName cs → noNft ((λ c, ":" +:+ c +:+ " " +:+ policy c) <$> cs) →
  ∃ hs', readLines t ((λ c, ":" +:+ c +:+ " " +:+ policy c) <$> cs) (hs, rs, has) = Some (hs', rs, has) ∧
    ∀ c, hs' !! c = if decide (c ∈ cs) then Some [] else hs !! c.
Proof.
  intros Hcs. revert hs. induction Hcs as [|c cs Hc _ IH]; intros hs Hn; cbn [fmap list_fmap readLines] in *.
  { exists hs. split; [done|]. intros c. rewrite decide_False; [done|apply not_elem_of_nil]. }
  apply Forall_cons in Hn as [Hn Hns]. rewrite readLine_decl by done.
  destruct (IH (<[c := []]> hs) Hns) as (hs' & -> & Hhs'). exists hs'. split; [done|].
  intros c'. rewrite Hhs'. destruct (decide (c' ∈ cs)); [by rewrite decide_True by by apply list_elem_of_further|].
  destruct (decide (c' = c)) as [->|Hne].
  - rewrite lookup_insert_eq, decide_True; [done|apply list_elem_of_here].
  - rewrite lookup_insert_ne, decide_False; [done| |done]. by apply not_elem_of_cons.
Qed.

Lemma readLines_rules c xs hs rs has h0 : plainName c → noNft (ruleLine c <$> xs) → hs !! c = Some h0 →
  ∃ hs' rs' has', readLines t (ruleLine c <$> xs) (hs, rs, has) = Some (hs', rs', has') ∧
    hs' !! c = Some (h0 ++ hashesIn prefix c xs) ∧ (∀ c', c' ≠ c → hs' !! c' = hs !! c' ∧ rs' !! c' = rs !! c') ∧
    (isOurChain t c = false → default [] (rs' !! c) = default [] (rs !! c) ++ (fullOf c <$> xs)) ∧
    has ⊆ has' ∧ (∀ x, x ∈ xs → hashAt prefix c x ≠ "" → c ∈ has').
Proof.
  intros Hc. revert hs rs has h0. induction xs as [|x xs IH]; intros hs rs has h0 Hn Hh; cbn [fmap list_fmap readLines] in *.
  { exists hs, rs, has. rewrite !app_nil_r. split_and!; try done. by intros x ?%elem_of_nil. }
  apply Forall_cons in Hn as [Hn Hns]. rewrite readLine_rule by done. rewrite Hh. change (default [] (Some h0)) with h0.
  edestruct (IH (<[c := h0 ++ [hashAt prefix c x]]> hs)
    (if isOurChain t c then rs else <[c := default [] (rs !! c) ++ [fullOf c x]]> rs)
    (if decide (hashAt prefix c x = "") then has else {[c]} ∪ has)) as (hs' & rs' & has' & E & H1 & H2 & H3 & H4 & H5);
    [done|apply lookup_insert_eq|]. exists hs', rs', has'. split_and!.
  - exact E.
  - rewrite H1. by rewrite <- app_assoc.
  - intros c' Hne. destruct (H2 c' Hne) as [-> ->]. rewrite lookup_insert_ne by done. split; [done|].
    destruct (isOurChain t c); [done|]. by rewrite lookup_insert_ne.
  - intros Ho. rewrite H3 by done. rewrite Ho, lookup_insert_eq. cbn. by rewrite <- app_assoc.
  - etrans; [|exact H4]. case_decide; set_solver.
  - intros y [->|Hy]%elem_of_cons Hh'; [|by eapply H5]. apply H4. rewrite decide_False by done. set_solver.
Qed.

Abbreviation ruleLines k := (λ c, ruleLine c <$> default [] (k !! c)).

Lemma readLines_chains (k : gmap string (list string)) cs hs rs has : NoDup cs → Forall plainName cs → noNft (cs ≫= ruleLines k) →
  (∀ c, c ∈ cs → hs !! c = Some [] ∧ rs !! c = None) →
  ∃ hs' rs' has', readLines t (cs ≫= ruleLines k) (hs, rs, has) = Some (hs', rs', has') ∧ has ⊆ has' ∧
    (∀ c, c ∉ cs → hs' !! c = hs !! c ∧ rs' !! c = rs !! c) ∧
    ∀ c, c ∈ cs → let xs := default [] (k !! c) in
      hs' !! c = Some (hashesIn prefix c xs) ∧
      (isOurChain t c = false → default [] (rs' !! c) = fullOf c <$> xs) ∧
      (∀ x, x ∈ xs → hashAt prefix c x ≠ "" → c ∈ has').
Proof.
  intros Hnd. revert hs rs has. induction Hnd as [|c cs Hc Hnd IH]; intros hs rs has Hp Hn Hs; cbn [mbind list_bind] in *.
  { exists hs, rs, has. split_and!; try done. by intros c ?%elem_of_nil. }
  change (list_bind _ _ ?f ?l) with (l ≫= f) in *. apply Forall_app in Hn as [Hn Hns]. apply Forall_cons in Hp as [Hpc Hp].
  destruct (Hs c (list_elem_of_here _ _)) as [Hh Hr].
  destruct (readLines_rules c (default [] (k !! c)) hs rs has [] Hpc Hn Hh) as (h1 & r1 & has1 & E & A1 & A2 & A3 & A4 & A5).
  destruct (IH h1 r1 has1 Hp Hns) as (h2 & r2 & has2 & E2 & B1 & B2 & B3).
  { intros c' Hc'. destruct (A2 c') as [-> ->]; [by intros ->|]. by apply Hs, list_elem_of_further. }
  exists h2, r2, has2. rewrite readLines_app, E. split_and!; [done|by etrans| |].
  - intros c' [Hne Hc']%not_elem_of_cons. destruct (B2 c' Hc') as [-> ->]. by apply A2.
  - intros c' [->|Hc']%elem_of_cons; [|by apply B3]. destruct (B2 c Hc) as [-> ->]. cbv zeta. split_and!; [done| |].
    + intros Ho. rewrite A3 by done. by rewrite Hr.
    + intros x Hx Hhx. apply B1. by eapply A5.
Qed.

(** ** The whole output *)

(** The full rules are right for shared chains. *)
Definition fullRules_ok (full : gmap string (list string)) (k : gmap string (list string)) : Prop :=
  ∀ c xs, isOurChain t c = false → k !! c = Some xs →
  ∀ j x, xs !! j = Some x → hashAt prefix c x ≠ "" → default [] (full !! c) !! j = Some (ruleLine c x).

Lemma read_listing (k : gmap string (list string)) lines : listing k lines → (∀ c, is_Some (k !! c) → plainName c) →
  ∃ full, readHashesAndRulesFrom t lines = Ret (hashesOf prefix k, full) ∧ fullRules_ok full k.
Proof.
  intros (Hn & cs & policy & Hcs & Hl) Hp. unfold readHashesAndRulesFrom. rewrite readLines_relevant by done.
  assert (noNft (filter relevant lines)) as Hn'.
  { rewrite Forall_forall in *. intros l [_ Hin]%list_elem_of_filter. by apply Hn. }
  assert (∀ c, c ∈ cs ↔ is_Some (k !! c)) as Hdom by (intros c; by rewrite Hcs, elem_of_elements, elem_of_dom).
  assert (Forall plainName cs) as Hpc by (rewrite Forall_forall; intros c Hc; by apply Hp, Hdom).
  assert (NoDup cs) as Hnd by (rewrite Hcs; apply NoDup_elements).
  rewrite Hl in *. apply Forall_app in Hn' as [Hn1 Hn2].
  destruct (readLines_decls policy cs ∅ ∅ ∅ Hpc Hn1) as (h1 & E1 & Hh1). rewrite readLines_app, E1.
  destruct (readLines_chains k cs h1 ∅ ∅ Hnd Hpc Hn2) as (h2 & r2 & has & -> & _ & Hout & Hin).
  { intros c Hc. rewrite Hh1, decide_True by done. done. }
  assert (h2 = hashesOf prefix k) as ->.
  { apply map_eq. intros c. unfold hashesOf. rewrite map_lookup_imap. destruct (k !! c) as [xs|] eqn:Hk; simpl.
    - destruct (Hin c) as [-> _]; [by apply Hdom; rewrite Hk|]. by rewrite Hk.
    - assert (c ∉ cs) as Hc by (rewrite Hdom, Hk; by intros [? ?]). destruct (Hout c Hc) as [-> _].
      by rewrite Hh1, decide_False. }
  eexists. split; [done|]. intros c xs Ho Hk j x Hj Hx.
  destruct (Hin c) as (_ & Hr & Hhas); [by apply Hdom; rewrite Hk|]. rewrite Hk in *. cbn [default from_option] in *. unfold id in *.
  assert (c ∈ has) as Hch by (eapply Hhas; [by eapply list_elem_of_lookup_2|done]). specialize (Hr Ho).
  rewrite map_lookup_filter. destruct (r2 !! c) as [rs|] eqn:E; simpl in *.
  - rewrite option_guard_True by done. simpl. subst rs. rewrite list_lookup_fmap, Hj. simpl. unfold fullOf. by rewrite decide_False.
  - destruct xs; [done|]. discriminate Hr.
Qed.
End read.
