(* ===== verification/IptablesUpdate.v ===== *)
(** * One update of the kernel's table

    When what the agent remembers of the table is right, the input that
    [buildUpdates] writes brings every dirty chain to what is wanted and leaves
    the rest of the table alone. *)

From S2P Require Import Prelude GoStd GoNet GoFmt Sha1 Sha224 ApiServer IptablesRule IptablesTable IptablesKernel IptablesText IptablesWrite IptablesRead.
Open Scope nat_scope.

Definition desiredHashes (t : Table) (c : string) : option (list string) := RuleHashes (tb_opt t) <$> desiredStateOfChain t c.

(** What every table satisfies. *)
Record table_wf (t : Table) : Prop := {
  tw_name : tb_Name t ≠ "" ∧ (newline ∉ chars (tb_Name t));
  tw_prefix : prefix_ok (hashCommentPrefix t);
  tw_mode : mode_ok t;
  tw_intervals : (0 <= postWriteInterval t ∧ 0 <= InitialPostWriteInterval (tb_opt t))%Z;
  tw_chains : ∀ c chain, chainNameToChain t !! c = Some chain → Forall (rule_ok (tb_opt t)) (ch_Rules chain);
  tw_rules : ∀ c, hook_ok t c;
  tw_dirty : ∀ c, c ∈ dirtyChains t → plainName c;
  tw_hooks : ∀ c, c ∈ dirtyInsertAppend t → plainName c ∧ isOurChain t c = false;
  tw_disjoint : dirtyChains t ## dirtyInsertAppend t
}.

(** What is remembered is what the kernel has. *)
Record fresh (t : Table) (k : gmap string (list string)) : Prop := {
  fr_hashes : chainToDataplaneHashes t = hashesOf (hashCommentPrefix t) k;
  fr_full : fullRules_ok t (chainToFullRules t) k
}.

(** ** Maps of hashes *)

Lemma storeHashes_lookup news old c :
  storeHashes news old !! c = match news !! c with Some o => o | None => old !! c end.
Proof.
  unfold storeHashes. apply (map_fold_weak_ind (λ m (news : gmap string (option (list string))),
    m !! c = match news !! c with Some o => o | None => old !! c end)); [done|].
  intros c' o m r Hm IH. destruct (decide (c' = c)) as [->|Hne].
  - rewrite lookup_insert_eq. destruct o; [apply lookup_insert_eq|apply lookup_delete_eq].
  - rewrite lookup_insert_ne by done. destruct o; [rewrite lookup_insert_ne by done|rewrite lookup_delete_ne by done]; exact IH.
Qed.

Lemma foldr_insert_lookup {A} (f : string → A) (m : gmap string A) cs c :
  foldr (λ c m, <[c := f c]> m) m cs !! c = if decide (c ∈ cs) then Some (f c) else m !! c.
Proof.
  induction cs as [|c' cs IH]; cbn [foldr foldl]; [done|].
  destruct (decide (c' = c)) as [->|Hne].
  - rewrite lookup_insert_eq, decide_True; [done|apply list_elem_of_here].
  - rewrite lookup_insert_ne, IH by done. destruct (decide (c ∈ cs)).
    + by rewrite decide_True by by apply list_elem_of_further.
    + rewrite decide_False; [done|]. rewrite not_elem_of_cons. naive_solver.
Qed.

Section update.
Context (ords : nat → MapOrder) (t : Table) `{KT : !KernelText}.
Abbreviation prefix := (hashCommentPrefix t).
Context (k : gmap string (list string)) (wf : table_wf t) (kwf : kernel_wf k) (fr : fresh t k).

Lemma iter_elem i s c : c ∈ iter ords i s ↔ c ∈ s.
Proof. unfold iter. by rewrite map_order_perm, elem_of_elements. Qed.
Lemma iter_NoDup i s : NoDup (iter ords i s).
Proof. unfold iter. rewrite map_order_perm. apply NoDup_elements. Qed.

Lemma cache_lookup c : chainToDataplaneHashes t !! c = hashesIn prefix c <$> k !! c.
Proof. rewrite (fr_hashes _ _ fr). unfold hashesOf. rewrite map_lookup_imap. by destruct (k !! c). Qed.

Lemma kernel_texts c : Forall (λ x, norm x = x) (default [] (k !! c)) ∧ Forall ruleLike (default [] (k !! c)).
Proof.
  destruct (k !! c) as [xs|] eqn:E; [|by split]. simpl. rewrite !Forall_forall.
  split; intros x Hx; by destruct (kw_texts _ kwf c xs x E Hx).
Qed.

(** ** Chains of the agent *)

Definition previousOf (c : string) : list string := if nftablesMode (tb_opt t) then [] else default [] (chainToDataplaneHashes t !! c).
Definition chainCommands (c : string) : list command :=
  match desiredStateOfChain t c with
  | None => []
  | Some chain => diffCommands t (length (RuleHashes (tb_opt t) chain)) 0 (previousOf c) (zip (RuleHashes (tb_opt t) chain) (ch_Rules chain))
  end.

Lemma desired_rules c chain : desiredStateOfChain t c = Some chain → Forall (rule_ok (tb_opt t)) (ch_Rules chain).
Proof. unfold desiredStateOfChain. case_decide; [done|]. apply (tw_chains _ wf). Qed.

Lemma chainLines_commands c : c ∈ dirtyChains t → commandsFor c (chainCommands c) (chainLines t c).
Proof.
  intros Hc. unfold chainCommands, chainLines, previousOf. destruct (desiredStateOfChain t c) as [chain|] eqn:E; [|constructor].
  apply diffLines_commands; [apply wf|by apply wf|]. apply hr_ok_zip. by eapply desired_rules.
Qed.

(** The chain as the first pass leaves it. *)
Definition flushed (c : string) : option (list string) := if decide (chainPass t c = Flush) then Some [] else k !! c.

Lemma flushed_previous c : chainPass t c ≠ Skip → desiredStateOfChain t c ≠ None →
  ∃ xs, flushed c = Some xs ∧ hashesIn prefix c xs = previousOf c.
Proof.
  unfold flushed, previousOf, chainPass. intros Hs Hd. rewrite cache_lookup in *.
  destruct (nftablesMode (tb_opt t)); [case_decide; [done|]; exists []; by rewrite decide_True|].
  rewrite (decide_False (P := desiredStateOfChain t c = None)) by done.
  destruct (k !! c) as [xs|]; simpl.
  - by exists xs.
  - by exists [].
Qed.

Lemma chainCommands_run c : c ∈ dirtyChains t → chainPass t c ≠ Skip →
  ∃ o, runOn (chainCommands c) (flushed c) = Some o ∧
    match desiredStateOfChain t c with
    | Some chain => hashesIn prefix c <$> o = Some (RuleHashes (tb_opt t) chain)
    | None => o = Some []
    end.
Proof.
  intros Hc Hs. unfold chainCommands. destruct (desiredStateOfChain t c) as [chain|] eqn:E.
  - destruct (flushed_previous c Hs) as (xs & -> & Hxs); [by rewrite E|]. rewrite runOn_Some.
    destruct (runCommands_diff t (tw_prefix _ wf) c (length (RuleHashes (tb_opt t) chain)) (previousOf c)
      (zip (RuleHashes (tb_opt t) chain) (ch_Rules chain)) xs []) as (ys & Hrun & Hys).
    + by apply wf.
    + apply hr_ok_zip. by eapply desired_rules.
    + done.
    + rewrite length_zip_with, length_RuleHashes. simpl. lia.
    + simpl in Hrun. rewrite Hrun. exists (Some ys). split; [done|]. simpl. rewrite Hys. f_equal. apply zip_fst.
  - exists (Some []). split; [|done]. unfold runOn. f_equal. unfold flushed. rewrite decide_True; [done|].
    unfold chainPass in *. rewrite E in *. destruct (nftablesMode (tb_opt t)); [by case_decide|]. by rewrite decide_True.
Qed.

(** A chain that is skipped is right. *)
Lemma chainPass_Skip c : chainPass t c = Skip → hashesIn prefix c <$> k !! c = desiredHashes t c.
Proof.
  unfold chainPass, desiredHashes. rewrite cache_lookup. destruct (nftablesMode (tb_opt t)).
  - case_decide as H; [|done]. intros _. destruct H as [_ H]. rewrite <- H. by destruct (desiredStateOfChain t c).
  - repeat case_decide; done.
Qed.

(** ** Shared chains *)

Definition hookLines (c : string) : list string :=
  match insertAppendPass t c (mkUpdates [] ∅ ∅) with Ret u => up_lines u | _ => [] end.

Lemma hookLines_commands c : c ∈ dirtyInsertAppend t →
  commandsFor c (hookCommands t c (k !! c)) (hookLines c) ∧
  ∀ u, ∃ full, insertAppendPass t c u = Ret (mkUpdates (up_lines u ++ hookLines c) (hookHashes t c (up_newHashes u)) full).
Proof.
  intros Hc. destruct (tw_hooks _ wf c Hc) as [Hp Ho]. destruct (kernel_texts c) as [_ Hl].
  destruct (insertAppendPass_commands t (tw_prefix _ wf) c (k !! c)) as (lines & Hlines & Hu).
  - done.
  - apply wf.
  - done.
  - intros j x Hj Hx. destruct (k !! c) as [xs|] eqn:E; [|done]. by eapply (fr_full _ _ fr).
  - apply cache_lookup.
  - assert (hookLines c = lines) as -> by (unfold hookLines; destruct (Hu (mkUpdates [] ∅ ∅)) as (full & ->); done). done.
Qed.

Lemma oforeach_hooks cs u : (∀ c, c ∈ cs → c ∈ dirtyInsertAppend t) →
  ∃ full, oforeach (insertAppendPass t) cs u =
    Ret (mkUpdates (up_lines u ++ (cs ≫= hookLines)) (foldl (λ m c, hookHashes t c m) (up_newHashes u) cs) full).
Proof.
  revert u. induction cs as [|c cs IH]; intros u Hcs; cbn [oforeach mbind list_bind foldl].
  { exists (up_newFull u). rewrite app_nil_r. by destruct u. }
  destruct (hookLines_commands c) as [_ Hu]; [by apply Hcs, list_elem_of_here|]. destruct (Hu u) as (full & ->). cbn [obind].
  edestruct IH as (full' & ->); [by intros; apply Hcs, list_elem_of_further|]. exists full'. cbn. by rewrite <- app_assoc.
Qed.

Lemma hookHashes_ne c c' m : c' ≠ c → hookHashes t c' m !! c = m !! c.
Proof. intros Hne. unfold hookHashes. case_decide; [done|]. by apply lookup_insert_ne. Qed.

Lemma foldl_hookHashes cs m c : NoDup cs →
  foldl (λ m c, hookHashes t c m) m cs !! c = if decide (c ∈ cs) then hookHashes t c m !! c else m !! c.
Proof.
  intros Hnd. revert m. induction Hnd as [|c' cs Hc' _ IH]; intros m; cbn [foldl]; [done|]. rewrite IH.
  destruct (decide (c' = c)) as [->|H].
  - rewrite (decide_False (P := c ∈ cs)) by done. by rewrite (decide_True (P := c ∈ c :: cs)) by apply list_elem_of_here.
  - destruct (decide (c ∈ cs)).
    + rewrite (decide_True (P := c ∈ c' :: cs)) by by apply list_elem_of_further.
      unfold hookHashes at 1 3. case_decide; [by apply hookHashes_ne|by rewrite !lookup_insert_eq].
    + rewrite (decide_False (P := c ∈ c' :: cs)); [by apply hookHashes_ne|]. rewrite not_elem_of_cons. naive_solver.
Qed.

(** ** The whole input *)

Definition dirtyNow : gset string := filter (λ c, chainPass t c ≠ Skip) (dirtyChains t).
Definition flushList : list string := filter (λ c, chainPass t c = Flush) (iter ords 2 (dirtyChains t)).
Definition mainLines : list string :=
  (forwardLine <$> flushList) ++ (iter ords 3 dirtyNow ≫= chainLines t) ++ (iter ords 4 (dirtyInsertAppend t) ≫= hookLines).
Definition goneList (i : nat) : list string := filter (λ c, desiredStateOfChain t c = None) (iter ords i dirtyNow).

Definition noRules (c : string) : Prop := rulesIn (chainToInsertedRules t) c = [] ∧ rulesIn (chainToAppendedRules t) c = [].
(** Rules are to be inserted into a chain that does not exist. *)
Definition hookMissing : Prop := ∃ c, c ∈ dirtyInsertAppend t ∧ k !! c = None ∧ ¬ noRules c.
Definition hooksWritten (k' : gmap string (list string)) : Prop := ∀ c, c ∈ dirtyInsertAppend t →
  match k !! c with
  | Some xs => ∃ ys, k' !! c = Some ys ∧ hookDone t c xs ys
  | None => k' !! c = None ∧ noRules c
  end.

Lemma dirtyNow_elem c : c ∈ dirtyNow ↔ c ∈ dirtyChains t ∧ chainPass t c ≠ Skip.
Proof. unfold dirtyNow. rewrite elem_of_filter. naive_solver. Qed.

Lemma zip_nil chain : zip (RuleHashes (tb_opt t) chain) (ch_Rules chain) = [] ↔ ch_Rules chain = [].
Proof. rewrite <- !length_zero_iff_nil, length_zip_with, length_RuleHashes. lia. Qed.

Lemma hookCommands_none c : k !! c = None → hookCommands t c (k !! c) = [] ↔ noRules c.
Proof.
  intros ->. unfold hookCommands, noRules. cbn [fmap option_fmap option_map]. rewrite decide_False by done.
  change (CDelete <$> hashed t c (default [] None)) with (@nil command). cbn [app].
  assert (insertedOf t c = [] ↔ rulesIn (chainToInsertedRules t) c = []) as <-.
  { apply (zip_nil (mkChain c _)). }
  assert (appendedOf t c = [] ↔ rulesIn (chainToAppendedRules t) c = []) as <-.
  { apply (zip_nil (mkChain (c +:+ "*appends*") _)). }
  split.
  - intros [H1 H2]%app_eq_nil. apply fmap_nil_inv in H2. split; [|done].
    case_decide; [apply (f_equal reverse) in H1; rewrite reverse_involutive in H1|]; by apply fmap_nil_inv in H1.
  - intros [-> ->]. by case_decide.
Qed.

(** The chains of the agent, and nothing else. *)
Lemma execLines_chains : ∃ k2, execLines ((forwardLine <$> flushList) ++ (iter ords 3 dirtyNow ≫= chainLines t)) k = Some k2 ∧
  (∀ c, c ∈ dirtyNow → match desiredStateOfChain t c with
                       | Some chain => hashesIn prefix c <$> k2 !! c = Some (RuleHashes (tb_opt t) chain)
                       | None => k2 !! c = Some []
                       end) ∧
  (∀ c, c ∉ dirtyNow → k2 !! c = k !! c).
Proof.
  rewrite execLines_app. destruct (execLines_forward flushList k) as (k1 & -> & Hk1).
  { rewrite Forall_forall. intros c [_ Hc%iter_elem]%list_elem_of_filter. by apply wf. }
  assert (∀ c, k1 !! c = if decide (c ∈ dirtyNow) then flushed c else k !! c) as Hflush.
  { intros c. rewrite Hk1. unfold flushed, flushList. destruct (decide (c ∈ dirtyNow)) as [Hd|Hd].
    - apply dirtyNow_elem in Hd as [Hd _]. apply decide_ext. rewrite list_elem_of_filter, iter_elem. naive_solver.
    - rewrite decide_False; [done|]. rewrite list_elem_of_filter, iter_elem. intros [Hf Hd']. apply Hd, dirtyNow_elem. by rewrite Hf. }
  pose proof (execLines_blocks (iter ords 3 dirtyNow) chainCommands (chainLines t) k1 (iter_NoDup _ _)) as H2.
  assert (∀ c, c ∈ iter ords 3 dirtyNow → commandsFor c (chainCommands c) (chainLines t c)) as Hcmds.
  { intros c Hc%iter_elem. apply chainLines_commands. by apply dirtyNow_elem in Hc as [? _]. }
  assert (∀ c, c ∈ iter ords 3 dirtyNow → ∃ o, runOn (chainCommands c) (k1 !! c) = Some o ∧
    match desiredStateOfChain t c with
    | Some chain => hashesIn prefix c <$> o = Some (RuleHashes (tb_opt t) chain)
    | None => o = Some []
    end) as Hrun.
  { intros c Hc%iter_elem. rewrite Hflush, decide_True by done. apply dirtyNow_elem in Hc as [Hc Hs]. by apply chainCommands_run. }
  destruct (execLines (iter ords 3 dirtyNow ≫= chainLines t) k1) as [k2|]; cycle 1.
  { destruct (H2 Hcmds) as (c & Hc & E). destruct (Hrun c Hc) as (o & E' & _). congruence. }
  destruct (H2 Hcmds) as [Hin Hout]. exists k2. split_and!; [done| |].
  - intros c Hc. apply (iter_elem 3) in Hc. destruct (Hrun c Hc) as (o & E & Ho). rewrite (Hin c Hc) in E. by injection E as ->.
  - intros c Hc. rewrite Hout by by rewrite iter_elem. by rewrite Hflush, decide_False.
Qed.

(** The shared chains. *)
Lemma execLines_hooks k2 : (∀ c, c ∈ dirtyInsertAppend t → k2 !! c = k !! c) →
  match execLines (iter ords 4 (dirtyInsertAppend t) ≫= hookLines) k2 with
  | Some k3 => hooksWritten k3 ∧ ∀ c, c ∉ dirtyInsertAppend t → k3 !! c = k2 !! c
  | None => hookMissing
  end.
Proof.
  intros Hk2.
  pose proof (execLines_blocks (iter ords 4 (dirtyInsertAppend t)) (λ c, hookCommands t c (k !! c)) hookLines k2 (iter_NoDup _ _)) as H3.
  assert (∀ c xs, c ∈ dirtyInsertAppend t → k !! c = Some xs → ∃ ys, runOn (hookCommands t c (k !! c)) (k !! c) = Some (Some ys) ∧ hookDone t c xs ys) as Hhook.
  { intros c xs Hc Hx. destruct (kernel_texts c) as [Hn _]. rewrite Hx in *.
    apply hookCommands_run; [apply wf|apply (tw_hooks _ wf c Hc)|apply wf|apply wf|done]. }
  assert (∀ c, c ∈ iter ords 4 (dirtyInsertAppend t) → commandsFor c (hookCommands t c (k !! c)) (hookLines c)) as Hcmds.
  { intros c Hc%iter_elem. by apply hookLines_commands. }
  destruct (execLines _ k2) as [k3|]; specialize (H3 Hcmds).
  - destruct H3 as [Hin Hout]. split; [|intros c Hc; apply Hout; by rewrite iter_elem].
    intros c Hc. specialize (Hin c). rewrite iter_elem, Hk2 in Hin by done. specialize (Hin Hc).
    destruct (k !! c) as [xs|] eqn:E.
    + destruct (Hhook c xs Hc E) as (ys & E' & Hd). rewrite E in E'. exists ys. split; [congruence|done].
    + destruct (hookCommands t c None) as [|cmd cmds] eqn:Ec; [|done]. injection Hin as <-. split; [done|].
      apply (hookCommands_none c E). by rewrite E.
  - destruct H3 as (c & Hc%iter_elem & Hrun). rewrite Hk2 in Hrun by auto. unfold hookMissing. destruct (k !! c) as [xs|] eqn:E.
    + destruct (Hhook c xs Hc E) as (ys & E' & _). rewrite E in E'. congruence.
    + exists c. split_and!; [done|done|]. intros Hno. apply (hookCommands_none c E) in Hno. rewrite E in Hno. by rewrite Hno in Hrun.
Qed.

(** *** Lines *)

Definition restoreLines : list string :=
  if nftablesMode (tb_opt t)
  then txn (tb_Name t) mainLines ++ txn (tb_Name t) ((forwardLine <$> goneList 5) ++ (deleteChainLine <$> goneList 6))
  else txn (tb_Name t) (mainLines ++ (deleteChainLine <$> goneList 6)).

Definition newHashes : gmap string (option (list string)) :=
  let wanted := filter (λ c, desiredStateOfChain t c ≠ None) (iter ords 3 dirtyNow) in
  foldr (λ c m, <[c := None]> m)
    (foldl (λ m c, hookHashes t c m)
      (foldr (λ c m, <[c := match desiredStateOfChain t c with Some ch => Some (RuleHashes (tb_opt t) ch) | None => None end]> m) ∅ wanted)
      (iter ords 4 (dirtyInsertAppend t))) (goneList 6).

Lemma buildUpdates_lines : ∃ b lines full, buildUpdates ords t = Ret (b, mkUpdates lines newHashes full) ∧
  rb_lines b = restoreLines ∧ rb_currentTableName b = "".
Proof.
  destruct (tw_name _ wf) as [Hname _]. set (name := tb_Name t) in *. set (b0 := mkBuilder [] name false).
  unfold buildUpdates. fold name dirtyNow flushList. change (StartTransaction name (BufReset emptyBuilder)) with (Ret b0).
  cbn [obind]. rewrite (writeForward_opened name) by done. cbn [obind].
  rewrite (writeLines_opened name) by (try apply opened_name; done). cbn [obind].
  edestruct (oforeach_hooks (iter ords 4 (dirtyInsertAppend t))) as (full & ->); [by intros c Hc%iter_elem|]. cbn [obind up_lines up_newHashes app].
  rewrite (writeLines_opened name) by (repeat apply opened_name; done). cbn [obind]. rewrite !opened_app by (repeat apply opened_name; done).
  fold mainLines. unfold restoreLines. fold name.
  destruct (nftablesMode (tb_opt t)).
  - destruct (EndTransaction_opened name mainLines b0) as (b1 & -> & Hl1 & Hn1); [done..|]. cbn [obind].
    unfold StartTransaction. rewrite decide_False by (intros H; by apply H). cbn [obind].
    set (b2 := mkBuilder (rb_lines b1) name false). fold (goneList 5) (goneList 6).
    rewrite (writeForward_opened name) by done. cbn [obind]. rewrite (writeLines_opened name) by (try apply opened_name; done). cbn [obind].
    rewrite opened_app by done. edestruct (EndTransaction_opened name) as (b3 & E & Hl3 & Hn3); [..|rewrite E]; [done..|]. cbn [obind].
    eexists b3, _, _. split; [done|]. split; [|done]. rewrite Hl3. cbn [b2 rb_lines]. by rewrite Hl1.
  - cbn [obind]. fold (goneList 6). rewrite (writeLines_opened name) by (try apply opened_name; done). cbn [obind]. rewrite opened_app by done.
    edestruct (EndTransaction_opened name) as (b3 & E & Hl3 & Hn3); [..|rewrite E]; [done..|]. cbn [obind]. eexists b3, _, _. split; [done|].
    split; [|done]. by rewrite Hl3.
Qed.

(** Every line is a line, and keeps kernels well-formed. *)
Lemma mainLines_good : Forall lineLike mainLines ∧ Forall goodLine mainLines.
Proof.
  assert (∀ c, c ∈ flushList → plainName c) as Hf by (intros c [_ Hc%iter_elem]%list_elem_of_filter; by apply wf).
  assert (∀ c, c ∈ dirtyNow → Forall cmd_ok (chainCommands c)) as Hc.
  { intros c _. unfold chainCommands. destruct (desiredStateOfChain t c) as [chain|] eqn:E; [|done].
    apply diffCommands_ok; [apply wf|]. apply hr_ok_zip. by eapply desired_rules. }
  unfold mainLines. rewrite !Forall_app. rewrite !Forall_fmap, !Forall_bind. split_and!; rewrite Forall_forall; intros c Hin; cbn [compose].
  - by apply forwardLine_like, Hf.
  - apply iter_elem, dirtyNow_elem in Hin as [Hin _]. eapply commandsFor_like, chainLines_commands, Hin.
  - apply iter_elem in Hin. eapply commandsFor_like. by apply hookLines_commands.
  - by apply goodLine_forward, Hf.
  - apply iter_elem in Hin. eapply commandsFor_good; [|by apply Hc]. apply chainLines_commands. by apply dirtyNow_elem in Hin as [? _].
  - apply iter_elem in Hin. eapply commandsFor_good; [by apply hookLines_commands|]. apply hookCommands_ok; apply wf.
Qed.

Lemma goneList_elem i c : c ∈ goneList i ↔ c ∈ dirtyNow ∧ desiredStateOfChain t c = None.
Proof. unfold goneList. rewrite list_elem_of_filter, iter_elem. naive_solver. Qed.

Lemma tailLines_good i j : Forall lineLike ((forwardLine <$> goneList i) ++ (deleteChainLine <$> goneList j)) ∧
  Forall goodLine ((forwardLine <$> goneList i) ++ (deleteChainLine <$> goneList j)).
Proof.
  assert (∀ i c, c ∈ goneList i → plainName c) as Hg by (intros i' c [[Hc _]%dirtyNow_elem _]%goneList_elem; by apply wf).
  rewrite !Forall_app, !Forall_fmap. split_and!; rewrite Forall_forall; intros c Hc; apply Hg in Hc; cbn [compose];
    auto using forwardLine_like, deleteChainLine_like, goodLine_forward, goodLine_deleteChain.
Qed.

(** *** The effect *)

Definition written (k' : gmap string (list string)) : Prop :=
  (∀ c, c ∈ dirtyChains t → hashesIn prefix c <$> k' !! c = desiredHashes t c) ∧
  hooksWritten k' ∧ (∀ c, c ∉ dirtyChains t → c ∉ dirtyInsertAppend t → k' !! c = k !! c).

Lemma execLines_main :
  match execLines mainLines k with
  | Some k3 =>
      (∀ c, c ∈ dirtyNow → match desiredStateOfChain t c with
                           | Some chain => hashesIn prefix c <$> k3 !! c = Some (RuleHashes (tb_opt t) chain)
                           | None => k3 !! c = Some []
                           end) ∧
      hooksWritten k3 ∧ (∀ c, c ∉ dirtyNow → c ∉ dirtyInsertAppend t → k3 !! c = k !! c)
  | None => hookMissing
  end.
Proof.
  unfold mainLines. rewrite app_assoc, execLines_app. destruct execLines_chains as (k2 & -> & Hin & Hout).
  assert (∀ c, c ∈ dirtyInsertAppend t → c ∉ dirtyNow) as Hdisj by (intros c Hc [Hc' _]%dirtyNow_elem; by apply (tw_disjoint _ wf c)).
  pose proof (execLines_hooks k2 (λ c Hc, Hout c (Hdisj c Hc))) as H3.
  destruct (execLines _ k2) as [k3|]; [|done]. destruct H3 as [Hw Hsame]. split_and!; [|done|].
  - intros c Hc. rewrite Hsame; [by apply Hin|]. intros Hi. by apply (Hdisj c).
  - intros c Hc Hi. rewrite Hsame by done. by apply Hout.
Qed.

(** Chains that are not wanted are gone at the end. *)
Lemma written_end k3 k' :
  (∀ c, c ∈ dirtyNow → match desiredStateOfChain t c with
                       | Some chain => hashesIn prefix c <$> k3 !! c = Some (RuleHashes (tb_opt t) chain)
                       | None => k3 !! c = Some []
                       end) →
  hooksWritten k3 → (∀ c, c ∉ dirtyNow → c ∉ dirtyInsertAppend t → k3 !! c = k !! c) →
  (∀ c, k' !! c = if decide (c ∈ goneList 6) then None else k3 !! c) → written k'.
Proof.
  intros Hin Hw Hout Hk'. split_and!.
  - intros c Hc. rewrite Hk'. destruct (decide (chainPass t c = Skip)) as [Hs|Hs].
    + assert (c ∉ dirtyNow) as Hd by (rewrite dirtyNow_elem; naive_solver).
      rewrite decide_False by (rewrite goneList_elem; naive_solver). rewrite Hout by (try done; intros Hi; by apply (tw_disjoint _ wf c)).
      by apply chainPass_Skip.
    + assert (c ∈ dirtyNow) as Hd by by apply dirtyNow_elem. specialize (Hin c Hd). unfold desiredHashes.
      destruct (desiredStateOfChain t c) eqn:E; [rewrite decide_False by (rewrite goneList_elem; naive_solver)|rewrite decide_True by by apply goneList_elem]; done.
  - intros c Hc. rewrite Hk', decide_False; [by apply Hw|]. rewrite goneList_elem, dirtyNow_elem. intros [[Hd _] _]. by apply (tw_disjoint _ wf c).
  - intros c Hd Hi. rewrite Hk', decide_False by (rewrite goneList_elem, dirtyNow_elem; naive_solver).
    apply Hout; [|done]. rewrite dirtyNow_elem. naive_solver.
Qed.

Lemma execInput_restore :
  match execInput (tb_Name t) restoreLines false k with Some k' => written k' ∧ kernel_wf k' | None => hookMissing end.
Proof.
  destruct mainLines_good as [Hml Hmg]. pose proof execLines_main as Hmain.
  assert (∀ c, c ∈ goneList 6 → desiredStateOfChain t c = None ∧ c ∈ dirtyNow ∧ plainName c) as Hgone.
  { intros c [Hc Hn]%goneList_elem. split_and!; [done|done|]. apply dirtyNow_elem in Hc as [Hc _]. by apply wf. }
  assert (Forall plainName (goneList 6)) as Hp by (rewrite Forall_forall; intros c Hc; apply (Hgone c Hc)).
  assert (NoDup (goneList 6)) as Hnd by apply NoDup_filter, iter_NoDup.
  unfold restoreLines. destruct (nftablesMode (tb_opt t)).
  - destruct (tailLines_good 5 6) as [Htl Htg]. rewrite execInput_txn by done. destruct (execLines mainLines k) as [k3|] eqn:E3; [|done].
    rewrite <- (app_nil_r (txn _ _)), execInput_txn by done. destruct Hmain as (Hin & Hw & Hout).
    rewrite execLines_app. destruct (execLines_forward (goneList 5) k3) as (k4 & E4 & Hk4).
    { rewrite Forall_forall. intros c Hc. apply (goneList_elem 5), (goneList_elem 6) in Hc. apply (Hgone c Hc). }
    rewrite E4. assert (∀ c, k4 !! c = k3 !! c) as Hk.
    { intros c. rewrite Hk4. case_decide as Hc; [|done]. apply (goneList_elem 5) in Hc as [Hc Hn]. specialize (Hin c Hc). by rewrite Hn in Hin. }
    destruct (execLines_delete (goneList 6) k4) as (k' & E' & Hk'); [done|done| |].
    { intros c (Hn & Hc & _)%Hgone. rewrite Hk. specialize (Hin c Hc). by rewrite Hn in Hin. }
    rewrite E'. cbn [execInput]. split; [apply (written_end k3 k' Hin Hw Hout); intros c; by rewrite Hk', Hk|].
    eapply (execLines_good _ k3); [exact Htg|by apply (execLines_good _ k k3 Hmg)|]. by rewrite execLines_app, E4.
  - destruct (tailLines_good 6 6) as [[_ Htl]%Forall_app [_ Htg]%Forall_app].
    rewrite <- (app_nil_r (txn _ _)), execInput_txn by (by apply Forall_app_2). rewrite execLines_app.
    destruct (execLines mainLines k) as [k3|] eqn:E3; [|done]. destruct Hmain as (Hin & Hw & Hout).
    destruct (execLines_delete (goneList 6) k3) as (k' & E' & Hk'); [done|done| |].
    { intros c (Hn & Hc & _)%Hgone. specialize (Hin c Hc). by rewrite Hn in Hin. }
    rewrite E'. cbn [execInput]. split; [by apply (written_end k3)|]. eapply (execLines_good _ k3); [exact Htg|by apply (execLines_good _ k k3 Hmg)|done].
Qed.

(** *** What is remembered *)

Definition newCache : gmap string (list string) := storeHashes newHashes (chainToDataplaneHashes t).

Lemma newHashes_lookup c : newHashes !! c =
  if decide (c ∈ dirtyNow) then Some (desiredHashes t c)
  else if decide (c ∈ dirtyInsertAppend t) then hookHashes t c ∅ !! c else None.
Proof.
  unfold newHashes. cbv zeta. rewrite (foldr_insert_lookup (λ _, None)), foldl_hookHashes by apply iter_NoDup.
  assert (∀ m, c ∉ dirtyNow → m !! c = None → hookHashes t c m !! c = hookHashes t c ∅ !! c) as Hh.
  { intros m _ Hm. unfold hookHashes. case_decide; [by rewrite Hm, lookup_empty|by rewrite !lookup_insert_eq]. }
  set (m0 := foldr _ ∅ _). assert (m0 !! c = if decide (c ∈ dirtyNow ∧ desiredStateOfChain t c ≠ None) then Some (desiredHashes t c) else None) as Hm0.
  { unfold m0. rewrite (foldr_insert_lookup (λ c, match desiredStateOfChain t c with Some ch => Some (RuleHashes (tb_opt t) ch) | None => None end)).
    rewrite lookup_empty. apply decide_ext. rewrite list_elem_of_filter, iter_elem. naive_solver. }
  destruct (decide (c ∈ dirtyNow)) as [Hd|Hd].
  - unfold desiredHashes in *. destruct (desiredStateOfChain t c) eqn:E.
    + rewrite (decide_False (P := c ∈ goneList 6)) by (rewrite goneList_elem; naive_solver).
      rewrite decide_False; [|rewrite iter_elem; intros Hi; apply dirtyNow_elem in Hd as [Hd _]; by apply (tw_disjoint _ wf c)].
      rewrite Hm0. by rewrite decide_True.
    + by rewrite decide_True by by apply goneList_elem.
  - rewrite (decide_False (P := c ∈ goneList 6)) by (rewrite goneList_elem; naive_solver).
    rewrite decide_False in Hm0 by naive_solver. destruct (decide (c ∈ dirtyInsertAppend t)) as [Hi|Hi].
    + rewrite decide_True by by apply iter_elem. by apply Hh.
    + rewrite decide_False; [done|]. by rewrite iter_elem.
Qed.

Lemma newCache_dirty c : c ∈ dirtyChains t → newCache !! c = desiredHashes t c.
Proof.
  intros Hc. unfold newCache. rewrite storeHashes_lookup, newHashes_lookup. destruct (decide (c ∈ dirtyNow)) as [Hd|Hd]; [done|].
  rewrite decide_False by (intros Hi; by apply (tw_disjoint _ wf c)). rewrite cache_lookup. apply chainPass_Skip.
  rewrite dirtyNow_elem in Hd. destruct (decide (chainPass t c = Skip)); [done|naive_solver].
Qed.

Lemma newCache_hook c : c ∈ dirtyInsertAppend t → is_Some (newCache !! c).
Proof.
  intros Hc. unfold newCache. rewrite storeHashes_lookup, newHashes_lookup.
  rewrite decide_False by (intros [Hd _]%dirtyNow_elem; by apply (tw_disjoint _ wf c)). rewrite decide_True by done.
  unfold hookHashes. case_decide as Hp; [rewrite lookup_empty, Hp; by eexists|rewrite lookup_insert_eq; by eexists].
Qed.

Lemma newCache_other c : c ∉ dirtyChains t → c ∉ dirtyInsertAppend t → newCache !! c = chainToDataplaneHashes t !! c.
Proof.
  intros Hd Hi. unfold newCache. rewrite storeHashes_lookup, newHashes_lookup.
  rewrite decide_False by (rewrite dirtyNow_elem; naive_solver). by rewrite decide_False.
Qed.
End update.
