(* ===== verification/IptablesLoad.v ===== *)
(** * Loading the state of the kernel's table

    After [loadDataplaneState] what is remembered is what the kernel has, and
    every chain that is not as it is wanted is marked dirty. *)

From S2P Require Import Prelude GoStd GoNet GoFmt Sha1 Sha224 ApiServer IptablesRule IptablesTable IptablesKernel IptablesText IptablesWrite IptablesRead IptablesUpdate Triple.
Open Scope nat_scope.

(** ** Tables that can be trusted *)

(** A chain of the agent that is not dirty is remembered as it is wanted; a
    chain with rules inserted is dirty or remembered. *)
Record table_ok (t : Table) : Prop := {
  to_wf : table_wf t;
  to_clean : ∀ c, isOurChain t c = true → c ∉ dirtyChains t → chainToDataplaneHashes t !! c = desiredHashes t c;
  to_inserted : ∀ c, rulesIn (chainToInsertedRules t) c ≠ [] →
    isOurChain t c = false ∧ (c ∉ dirtyChains t) ∧ (c ∈ dirtyInsertAppend t ∨ is_Some (chainToDataplaneHashes t !! c));
  to_appended : ∀ c, rulesIn (chainToAppendedRules t) c ≠ [] → rulesIn (chainToInsertedRules t) c ≠ [];
  to_names : ∀ c, is_Some (chainToDataplaneHashes t !! c) → plainName c
}.

(** A shared chain has the rules of the agent where they belong. *)
Definition hookRight (t : Table) (c : string) (o : option (list string)) : Prop :=
  match o with
  | Some xs => hashesIn (hashCommentPrefix t) c xs = expectedOf t c (length (foreign t c xs))
  | None => noRules t c
  end.

Record ready (t : Table) (k : gmap string (list string)) : Prop := {
  rd_ok : table_ok t;
  rd_fresh : fresh t k;
  rd_hooks : ∀ c, isOurChain t c = false → c ∉ dirtyChains t → c ∉ dirtyInsertAppend t → hookRight t c (k !! c)
}.

(** ** Marking *)

Lemma foldl_mark (g : Table → string → bool * bool) (m : string → bool * bool) t cs :
  (∀ t' c, t' = set_Dirty t (dirtyChains t') (dirtyInsertAppend t') →
     g t' c = if decide (c ∈ dirtyChains t' ∨ c ∈ dirtyInsertAppend t') then (false, false) else m c) →
  let t' := foldl (λ t c, markDirty c (g t c) t) t cs in
  t' = set_Dirty t (dirtyChains t') (dirtyInsertAppend t') ∧
  (∀ c, c ∈ dirtyChains t' ↔ c ∈ dirtyChains t ∨ (c ∈ cs ∧ (c ∉ dirtyChains t) ∧ (c ∉ dirtyInsertAppend t) ∧ (m c).1 = true)) ∧
  (∀ c, c ∈ dirtyInsertAppend t' ↔ c ∈ dirtyInsertAppend t ∨ (c ∈ cs ∧ (c ∉ dirtyChains t) ∧ (c ∉ dirtyInsertAppend t) ∧ (m c).2 = true)).
Proof.
  revert t. induction cs as [|c cs IH]; intros t Hg; cbn [foldl].
  { split_and!; [by destruct t| |]; intros c; split; [auto|intros [?|[[]%elem_of_nil _]]; done|auto|intros [?|[[]%elem_of_nil _]]; done]. }
  rewrite (Hg t c) by by destruct t. set (t1 := markDirty _ _ t).
  destruct (IH t1) as (E & HD & HI). { intros t' c' Ht'. apply Hg. by rewrite Ht' at 1. }
  cbv zeta. split_and!; [by rewrite E at 1| |].
  - intros c0. rewrite HD, !elem_of_cons. unfold t1, markDirty. cbn [dirtyChains dirtyInsertAppend set_Dirty].
    destruct (decide (c ∈ dirtyChains t ∨ c ∈ dirtyInsertAppend t)) as [Hc|Hc]; cbn [fst snd];
      [destruct (decide (c0 = c)) as [->|]; tauto|].
    destruct (decide (c0 = c)) as [->|]; destruct (m c) as [[] []]; cbn [fst snd]; rewrite ?elem_of_union, ?elem_of_singleton; intuition congruence.
  - intros c0. rewrite HI, !elem_of_cons. unfold t1, markDirty. cbn [dirtyChains dirtyInsertAppend set_Dirty].
    destruct (decide (c ∈ dirtyChains t ∨ c ∈ dirtyInsertAppend t)) as [Hc|Hc]; cbn [fst snd];
      [destruct (decide (c0 = c)) as [->|]; tauto|].
    destruct (decide (c0 = c)) as [->|]; destruct (m c) as [[] []]; cbn [fst snd]; rewrite ?elem_of_union, ?elem_of_singleton; intuition congruence.
Qed.

Section load.
Context (ords : nat → MapOrder) (t : Table) (dp : gmap string (list string)).

(** The verdicts on a chain that is remembered and on one that is found. *)
Definition verdictExpected (c : string) : bool * bool :=
  if isOurChain t c then (negb (bool_decide (dp !! c = Some (default [] (chainToDataplaneHashes t !! c)))), false)
  else if decide (rulesIn (chainToInsertedRules t) c = []) then (false, hasHash (default [] (dp !! c)))
  else (false, negb (bool_decide (dp !! c = Some (expectedOf t c (numEmptyStrings (default [] (dp !! c))))))).
Definition verdictFound (c : string) : bool * bool :=
  if decide (c ∈ dom (chainToDataplaneHashes t)) then (false, false)
  else if isOurChain t c then (true, false)
  else (false, hasHash (default [] (dp !! c))).

Abbreviation t' := (compareDataplane ords dp t).

Lemma compareDataplane_spec :
  t' = set_Dirty t (dirtyChains t') (dirtyInsertAppend t') ∧
  (∀ c, c ∈ dirtyChains t' ↔ c ∈ dirtyChains t ∨
     ((c ∉ dirtyChains t) ∧ (c ∉ dirtyInsertAppend t) ∧
      (is_Some (chainToDataplaneHashes t !! c) ∧ (verdictExpected c).1 = true ∨ is_Some (dp !! c) ∧ (verdictFound c).1 = true))) ∧
  (∀ c, c ∈ dirtyInsertAppend t' ↔ c ∈ dirtyInsertAppend t ∨
     ((c ∉ dirtyChains t) ∧ (c ∉ dirtyInsertAppend t) ∧
      (is_Some (chainToDataplaneHashes t !! c) ∧ (verdictExpected c).2 = true ∨ is_Some (dp !! c) ∧ (verdictFound c).2 = true))).
Proof.
  unfold compareDataplane. set (g1 := λ t c, checkExpected t dp c (default [] (chainToDataplaneHashes t !! c))).
  destruct (foldl_mark g1 verdictExpected t (iter ords 0 (dom (chainToDataplaneHashes t)))) as (E1 & HD1 & HI1).
  { intros t1 c ->. unfold g1, checkExpected, verdictExpected, rulesIn, expectedOf. cbn. case_decide; [done|].
    destruct (isOurChain t c) eqn:Ho; change (isOurChain (set_Dirty t _ _) c) with (isOurChain t c); rewrite Ho; [done|]. by case_decide. }
  set (t1 := foldl _ t _) in *.
  set (g2 := λ t c, checkFound t c (default [] (dp !! c))).
  destruct (foldl_mark g2 verdictFound t1 (iter ords 1 (dom dp))) as (E2 & HD2 & HI2).
  { intros t2 c ->. unfold g2, checkFound, verdictFound. case_decide; [done|]. rewrite E1. cbn. case_decide; [done|].
    by change (isOurChain (set_Dirty (set_Dirty t _ _) _ _) c) with (isOurChain t c). }
  set (t2 := foldl _ t1 _) in *. change (foldl (λ t c, markDirty c (checkFound t c (default [] (dp !! c))) t) t1 (iter ords 1 (dom dp))) with t2.
  assert (∀ c, is_Some (chainToDataplaneHashes t !! c) → (verdictFound c).1 ≠ true ∧ (verdictFound c).2 ≠ true) as Hno.
  { intros c Hc. unfold verdictFound. by rewrite decide_True by by apply elem_of_dom. }
  assert (∀ c, c ∈ iter ords 0 (dom (chainToDataplaneHashes t)) ↔ is_Some (chainToDataplaneHashes t !! c)) as Hd0 by (intros c; by rewrite iter_elem, elem_of_dom).
  assert (∀ c, c ∈ iter ords 1 (dom dp) ↔ is_Some (dp !! c)) as Hd1 by (intros c; by rewrite iter_elem, elem_of_dom).
  split_and!.
  - rewrite E2 at 1. by rewrite E1 at 1.
  - intros c. rewrite HD2, HD1, HI1, Hd0, Hd1. specialize (Hno c). tauto.
  - intros c. rewrite HI2, HI1, HD1, Hd0, Hd1. specialize (Hno c). tauto.
Qed.
End load.

(** ** What loading establishes *)

Lemma hasHash_false hs : hasHash hs = false ↔ Forall (λ h, h = "") hs.
Proof.
  induction hs as [|h hs IH]; simpl; [done|]. rewrite orb_false_iff, IH, Forall_cons, negb_false_iff, bool_decide_eq_true. done.
Qed.

(** Without rules of the agent, a chain has no hashes. *)
Lemma expectedOf_none t c n : noRules t c → expectedOf t c n = replicate n "".
Proof.
  intros [E1 E2]. unfold expectedOf, expectedHashesForInsertAppendChain.
  fold (rulesIn (chainToInsertedRules t) c) (rulesIn (chainToAppendedRules t) c). rewrite E1, E2.
  destruct (decide (InsertMode (tb_opt t) = "append")); cbn; by rewrite !app_nil_r.
Qed.

Lemma unhashed t c xs : hasHash (hashesIn (hashCommentPrefix t) c xs) = false →
  hashesIn (hashCommentPrefix t) c xs = replicate (length (foreign t c xs)) "".
Proof.
  rewrite hasHash_false. unfold foreign, hashesIn. induction xs as [|x xs IH]; [done|]. rewrite fmap_cons. intros [Hx Hxs]%Forall_cons.
  rewrite filter_cons_True by done. rewrite Hx. cbn [length replicate]. f_equal. by apply IH.
Qed.

Section loaded.
Context (ords : nat → MapOrder) (t : Table) `{KT : !KernelText} (k : gmap string (list string)).
Context (ok : table_ok t) (kwf : kernel_wf k).
Abbreviation dp := (hashesOf (hashCommentPrefix t) k).
Abbreviation t' := (compareDataplane ords dp t).

Lemma dp_lookup c : dp !! c = hashesIn (hashCommentPrefix t) c <$> k !! c.
Proof. unfold hashesOf. rewrite map_lookup_imap. by destruct (k !! c). Qed.

Lemma dp_names c : is_Some (dp !! c) → plainName c.
Proof. rewrite dp_lookup, fmap_is_Some. intros [xs Hk]. by eapply kw_names. Qed.

(** Nothing but the dirty sets changes, and they grow. *)
Lemma loaded_same : t' = set_Dirty t (dirtyChains t') (dirtyInsertAppend t').
Proof. apply compareDataplane_spec. Qed.

Lemma loaded_dirty c : c ∈ dirtyChains t' → c ∈ dirtyChains t ∨ isOurChain t c = true ∧ plainName c ∧ c ∉ dirtyInsertAppend t.
Proof.
  destruct (compareDataplane_spec ords t dp) as (_ & HD & _). rewrite HD. intros [?|(Hd & Hi & Hv)]; [by left|]. right.
  assert (plainName c) as Hp by (destruct Hv as [[Hs _]|[Hs _]]; [by apply (to_names _ ok)|by apply dp_names]).
  unfold verdictExpected, verdictFound in Hv. destruct (isOurChain t c) eqn:Ho; [done|].
  destruct Hv as [[_ Hv]|[_ Hv]]; repeat case_decide; done.
Qed.

Lemma loaded_hooks c : c ∈ dirtyInsertAppend t' → c ∈ dirtyInsertAppend t ∨ isOurChain t c = false ∧ plainName c ∧ c ∉ dirtyChains t.
Proof.
  destruct (compareDataplane_spec ords t dp) as (_ & _ & HI). rewrite HI. intros [?|(Hd & Hi & Hv)]; [by left|]. right.
  assert (plainName c) as Hp by (destruct Hv as [[Hs _]|[Hs _]]; [by apply (to_names _ ok)|by apply dp_names]).
  unfold verdictExpected, verdictFound in Hv. destruct (isOurChain t c) eqn:Ho; [|done].
  destruct Hv as [[_ Hv]|[_ Hv]]; repeat case_decide; done.
Qed.

Lemma loaded_grow : dirtyChains t ⊆ dirtyChains t' ∧ dirtyInsertAppend t ⊆ dirtyInsertAppend t'.
Proof.
  destruct (compareDataplane_spec ords t dp) as (_ & HD & HI). split; intros c Hc; [apply HD|apply HI]; by left.
Qed.

(** A chain of the agent that is not marked is in the kernel as remembered. *)
Lemma loaded_ours c : isOurChain t c = true → c ∉ dirtyChains t' → dp !! c = chainToDataplaneHashes t !! c.
Proof.
  intros Ho Hd'. destruct (compareDataplane_spec ords t dp) as (_ & HD & _). rewrite HD in Hd'.
  assert (c ∉ dirtyInsertAppend t) as Hi by (intros Hi; apply (tw_hooks _ (to_wf _ ok)) in Hi as [_ Hi]; congruence).
  assert (c ∉ dirtyChains t) as Hd by (intros Hd; apply Hd'; by left).
  unfold verdictExpected, verdictFound in Hd'. rewrite Ho in Hd'. cbn [fst] in Hd'.
  destruct (chainToDataplaneHashes t !! c) as [hs|] eqn:Ec.
  - destruct (decide (dp !! c = Some hs)) as [->|Hne]; [done|]. destruct Hd'. right.
    split_and!; [done|done|]. left. split; [by eexists|].
    simpl. by rewrite bool_decide_eq_false_2.
  - destruct (dp !! c) eqn:E; [|done]. destruct Hd'. right.
    split_and!; [done|done|]. right. split; [by eexists|]. rewrite decide_False; [done|]. by rewrite not_elem_of_dom.
Qed.

(** A shared chain that is not marked is right. *)
Lemma loaded_right c : isOurChain t c = false → c ∉ dirtyChains t' → c ∉ dirtyInsertAppend t' → hookRight t c (k !! c).
Proof.
  intros Ho Hd' Hi'. destruct (compareDataplane_spec ords t dp) as (_ & _ & HI). destruct loaded_grow as [Gd Gi].
  assert (c ∉ dirtyChains t) as Hd by (intros ?; by apply Hd', Gd). assert (c ∉ dirtyInsertAppend t) as Hi by (intros ?; by apply Hi', Gi).
  rewrite HI in Hi'. unfold verdictExpected, verdictFound in Hi'. rewrite Ho in Hi'.
  destruct (decide (rulesIn (chainToInsertedRules t) c = [])) as [Hins|Hins].
  - assert (noRules t c) as Hno.
    { split; [done|]. destruct (decide (rulesIn (chainToAppendedRules t) c = [])) as [|Happ]; [done|]. by apply (to_appended _ ok) in Happ. }
    destruct (k !! c) as [xs|] eqn:Ek; [|done].
    assert (hasHash (hashesIn (hashCommentPrefix t) c xs) = false) as Hh.
    { apply not_true_is_false. intros Hh. apply Hi'. right. split_and!; [done|done|]. rewrite dp_lookup, Ek. simpl.
      destruct (decide (c ∈ dom (chainToDataplaneHashes t))) as [Hc|Hc]; [left; by apply elem_of_dom in Hc|right; by split; [eexists|]]. }
    simpl. rewrite expectedOf_none by done. by apply unhashed.
  - destruct (to_inserted _ ok c Hins) as (_ & _ & [?|Hs]); [done|].
    destruct (decide (dp !! c = Some (expectedOf t c (numEmptyStrings (default [] (dp !! c)))))) as [Heq|Hne].
    + rewrite dp_lookup in Heq. destruct (k !! c) as [xs|]; [|done]. simpl in *. injection Heq as Heq. by rewrite <- numEmpty_hashes.
    + destruct Hi'. right. split_and!; [done|done|]. left. split; [done|]. cbn [snd]. by rewrite bool_decide_eq_false_2.
Qed.

Lemma loaded_wf : table_wf t'.
Proof.
  destruct (to_wf _ ok) as [Hn Hp Hm Hiv Hc Hr Hd Hh Hdis]. rewrite loaded_same. split; try done.
  - intros c Hc'. cbn in Hc'. apply loaded_dirty in Hc' as [?|(_ & ? & _)]; [by apply Hd|done].
  - intros c Hc'. cbn in Hc'. apply loaded_hooks in Hc' as [?|(? & ? & _)]; [by apply Hh|done].
  - cbn. intros c H1 H2. apply loaded_dirty in H1. apply loaded_hooks in H2.
    destruct H1 as [H1|(O1 & _ & N1)], H2 as [H2|(O2 & _ & N2)]; [by apply (Hdis c)|done|done|congruence].
Qed.

(** Once loaded, a table is ready to be written. *)
Lemma loaded_ready full : fullRules_ok t full k → ready (set_Sync (set_Cache t' dp full) true) k.
Proof.
  intros Hf. pose proof loaded_wf as Hwf. destruct loaded_grow as [Gd Gi]. pose proof loaded_same as Hsame.
  assert (∀ c, isOurChain t' c = isOurChain t c) as Ho by (intros c; by rewrite Hsame).
  split.
  - split.
    + destruct Hwf. by split.
    + intros c Hc Hd. cbn in Hd. change (isOurChain t' c = true) in Hc. rewrite Ho in Hc. cbn [chainToDataplaneHashes set_Sync set_Cache].
      rewrite loaded_ours by done. rewrite (to_clean _ ok c Hc) by (intros ?; by apply Hd, Gd). by rewrite Hsame.
    + intros c Hc. cbn in Hc. rewrite Hsame in Hc. cbn in Hc. destruct (to_inserted _ ok c Hc) as (H1 & H2 & H3).
      split_and!; [change (isOurChain t' c = false); by rewrite Ho| |].
      * cbn. intros Hd. apply loaded_dirty in Hd as [?|(? & _)]; [done|congruence].
      * cbn. destruct (decide (c ∈ dirtyInsertAppend t')) as [|Hi]; [by left|]. right.
        assert (hookRight t c (k !! c)) as Hr.
        { apply loaded_right; [done| |done]. intros Hd. apply loaded_dirty in Hd as [?|(? & _)]; [done|congruence]. }
        rewrite dp_lookup, fmap_is_Some. destruct (k !! c); [by eexists|]. by destruct Hr.
    + intros c Hc. cbn in *. rewrite Hsame in *. cbn in *. by apply (to_appended _ ok).
    + intros c Hc. cbn in Hc. by apply dp_names.
  - split; [by rewrite Hsame|]. intros c xs Hc. change (isOurChain t' c = false) in Hc. rewrite Ho in Hc. rewrite Hsame. by apply Hf.
  - intros c Hc Hd Hi. change (isOurChain t' c = false) in Hc. rewrite Ho in Hc. change (hookRight t' c (k !! c)). rewrite Hsame.
    by apply loaded_right.
Qed.
End loaded.
