(* ===== verification/IptablesApply.v ===== *)
(** * Apply

    [Apply] brings the kernel's table in line with what the agent wants, however
    the two programs fail on the way. *)

From S2P Require Import Prelude GoStd GoNet GoFmt Sha1 Sha224 ApiServer IptablesRule IptablesTable IptablesKernel IptablesText IptablesWrite IptablesRead IptablesUpdate Triple IptablesLoad.
Open Scope nat_scope.

(** ** What is wanted of a table *)

Definition wants (t : Table) :=
  (tb_opt t, tb_Name t, chainToInsertedRules t, chainToAppendedRules t, chainNameToChain t, chainRefCounts t, hashCommentPrefix t).

Lemma wants_facts t t0 : wants t = wants t0 →
  tb_opt t = tb_opt t0 ∧ tb_Name t = tb_Name t0 ∧ hashCommentPrefix t = hashCommentPrefix t0 ∧
  (∀ c, isOurChain t c = isOurChain t0 c) ∧ (∀ c, desiredHashes t c = desiredHashes t0 c) ∧ (∀ c o, hookRight t c o = hookRight t0 c o).
Proof.
  destruct t, t0. unfold wants. cbn. intros [= -> -> -> -> -> -> ->]. done.
Qed.

(** The kernel's table is as it is wanted: the chains of the agent, and those in
    [E], are as desired, and the chains that are not in [D] either have the rules of
    the agent where they belong. *)
Record synced (t : Table) (E D : string → Prop) (k : gmap string (list string)) : Prop := {
  sy_ours : ∀ c, isOurChain t c = true ∨ E c → hashesIn (hashCommentPrefix t) c <$> k !! c = desiredHashes t c;
  sy_hooks : ∀ c, isOurChain t c = false → ¬ D c → hookRight t c (k !! c)
}.

(** The rules of others in shared chains are the same. *)
Definition foreignKept (t : Table) (D : string → Prop) (k k' : gmap string (list string)) : Prop :=
  ∀ c, isOurChain t c = false → ¬ D c → foreign t c <$> k' !! c = foreign t c <$> k !! c.

Section tables.
Context {W : Type} `{IT : !Iptables W} (ords : nat → MapOrder).
Abbreviation Props := (Table * W → Prop).

(** Times and flags do not matter. *)
Lemma table_ok_times t rd wr iv : (0 <= iv)%Z → table_ok t → table_ok (set_Times t rd wr iv).
Proof. intros Hiv [[? ? ? [_ ?] ? ? ? ? ?] ? ? ? ?]. split; [by split|done..]. Qed.
Lemma table_ok_sync t b : table_ok t → table_ok (set_Sync t b).
Proof. intros [[] ? ? ? ?]. split; [by split|done..]. Qed.

(** *** Triples for tables *)

Lemma tri_getT {A} (P : Props) (k : Table → M (Table * W) A) Q E :
  (∀ t, tri (λ s, P s ∧ s.1 = t) (k t) Q E) → tri P (mbind_ getT k) Q E.
Proof. intros Hk [t w] Hs. by apply (Hk t (t, w)). Qed.

Lemma tri_putT (P : Props) t (Q : unit → Props) E : (∀ s, P s → Q tt (t, s.2)) → tri P (putT t) Q E.
Proof. intros HQ [t' w] Hs. by apply (HQ (t', w)). Qed.

Lemma tri_tcall {A} (P : Props) (c : M W A) (Q : A → Props) (E : Props) :
  (∀ t w, P (t, w) → match (c w).2 with Ret a => Q a (t, (c w).1) | _ => E (t, (c w).1) end) → tri P (tcall c) Q E.
Proof. intros Hc [t w] Hs. specialize (Hc t w Hs). unfold tcall. cbn. by destruct (c w) as [w' [a|e|p|]]. Qed.

End tables.

Section apply.
Context {W : Type} `{IT : !Iptables W} `{KT : !KernelText} {name : string} `{IL : !IptablesLaws W name} (ords : nat → MapOrder).
Abbreviation Props := (Table * W → Prop).

(** The two programs do what they are asked to do, and the chains that rules are
    inserted into exist. *)
Record calm (t0 : Table) (k0 : gmap string (list string)) : Prop := {
  ca_save : ∀ w, kernel_wf (kt w) → is_ret (ipSave name w).2 = true;
  ca_restore : ∀ input w, kernel_wf (kt w) → execInput name (linesOf input) false (kt w) ≠ None → is_ret (ipRestore input w).2 = true;
  ca_hooks : ∀ c, rulesIn (chainToInsertedRules t0) c ≠ [] → is_Some (k0 !! c)
}.

(** The table [t0] and the kernel [k0] at the start. *)
Context (t0 : Table) (k0 : gmap string (list string)).

Record keeps (t : Table) (k : gmap string (list string)) : Prop := {
  ke_wants : wants t = wants t0;
  ke_name : tb_Name t = name;
  ke_dirty : ∀ c, c ∈ dirtyChains t → c ∈ dirtyChains t0 ∨ isOurChain t0 c = true;
  ke_still : ∀ c, c ∈ dirtyChains t0 → nftablesMode (tb_opt t0) = false ∨ calm t0 k0 → c ∈ dirtyChains t;
  ke_kernel : calm t0 k0 → k = k0
}.
Definition idle : Props := λ s, table_ok s.1 ∧ kernel_wf (kt s.2) ∧ keeps s.1 (kt s.2).
Definition loaded : Props := λ s, ready s.1 (kt s.2) ∧ kernel_wf (kt s.2) ∧ keeps s.1 (kt s.2).
(** An end without a value is not calm. *)
Definition failed : Props := λ s, idle s ∧ ¬ calm t0 k0.
Definition settled : Props := λ s, table_ok s.1 ∧ kernel_wf (kt s.2) ∧ wants s.1 = wants t0 ∧ dirtyChains s.1 = ∅ ∧ dirtyInsertAppend s.1 = ∅ ∧
  synced t0 (λ c, c ∈ dirtyChains t0 ∧ (nftablesMode (tb_opt t0) = false ∨ calm t0 k0)) (λ c, c ∈ dirtyChains t0) (kt s.2) ∧
  (calm t0 k0 → foreignKept t0 (λ c, c ∈ dirtyChains t0) k0 (kt s.2)).

(** The clock changes nothing. *)
Lemma tri_now (P : Props) E : (∀ t w w', kt w' = kt w → P (t, w) → P (t, w')) → tri P (tcall ipNow) (λ _, P) E.
Proof. intros HP. apply tri_tcall. intros t w Hs. pose proof (now_law w) as [? ?]. destruct (ipNow w) as [w' [a|e|p|]]; cbn in *; [eauto|done..]. Qed.

Lemma idle_kernel t w w' : kt w' = kt w → idle (t, w) → idle (t, w').
Proof. unfold idle. cbn. by intros ->. Qed.

(** *** Reading *)

Lemma tri_attemptToGet : tri idle attemptToGetHashesAndRulesFromDataplane
  (λ r s, idle s ∧ r.1 = hashesOf (hashCommentPrefix s.1) (kt s.2) ∧ fullRules_ok s.1 r.2 (kt s.2)) failed.
Proof.
  intros [t w] (Hok & Hwf & Hk). cbn [fst snd] in *. unfold attemptToGetHashesAndRulesFromDataplane, mbind_, getT, tcall, lift. cbn. rewrite (ke_name _ _ Hk).
  pose proof (save_law w Hwf) as Hs. pose proof (λ H : calm t0 k0, ca_save _ _ H w Hwf) as Hc.
  assert (∀ w', is_ret (ipSave name w).2 ≠ true → kernel_wf (kt w') → failed (t, w')) as Hfail.
  { intros w' Hno Hw'. split; [|by intros H%Hc]. split_and!; [done..|]. destruct Hk as [H1 H2 H3 H4 H5]. split; try done. by intros H%Hc. }
  destruct (ipSave name w) as [w' [lines|e|p|]]; cbn in *; [|by apply Hfail; destruct Hs..].
  destruct Hs as (Hwf' & Hk' & Hl). rewrite <- Hk' in Hl, Hk.
  destruct (read_listing t (kt w') lines Hl) as (full & -> & Hfull); [by intros c [xs Hx]; eapply kw_names|]. cbn. unfold idle. cbn. by split_and!.
Qed.

Lemma tri_getHashes n : tri idle (getHashesAndRulesFromDataplane n)
  (λ r s, idle s ∧ r.1 = hashesOf (hashCommentPrefix s.1) (kt s.2) ∧ fullRules_ok s.1 r.2 (kt s.2)) failed.
Proof.
  induction n as [|n IH]; cbn [getHashesAndRulesFromDataplane]; (eapply tri_bind; [apply tri_attempt, tri_attemptToGet|]); intros [r|e].
  - by apply tri_ret.
  - by apply tri_lift.
  - by apply tri_ret.
  - eapply tri_pre; [|apply IH]. by intros s [? _].
Qed.

Lemma tri_load : tri idle (loadDataplaneState ords) (λ _, loaded) failed.
Proof.
  unfold loadDataplaneState. apply tri_getT. intros t. eapply tri_bind.
  - apply tri_now. intros t' w w' Hk [HI Ht]. split; [by eapply idle_kernel|done].
  - intros now. eapply (tri_bind _ _ _ (λ _, idle)).
    { apply tri_putT. intros [? w] [(Hok & Hwf & Hk) Ht]. cbn in Ht. subst. split_and!; [apply table_ok_times; [apply Hok|done]|done|]. by destruct Hk. }
    intros _. eapply tri_bind; [apply tri_getHashes|]. intros [hashes rules]. apply tri_getT. intros t2. apply tri_putT.
    intros [? w] [((Hok & Hwf & [Hw Hn Hd Hg Hc]) & Hh & Hf) Ht]. cbn in *. subst.
    pose proof (wants_facts _ _ Hw) as (_ & _ & _ & Ho & _). destruct (loaded_grow ords t2 (kt w)) as [Gd _].
    split_and!; [by apply (loaded_ready ords t2 (kt w) Hok Hwf)|done|]. split; try done.
    + by rewrite loaded_same.
    + by rewrite loaded_same.
    + cbn. intros c Hx. destruct (loaded_dirty ords t2 (kt w) Hok Hwf c Hx) as [?|(? & _)]; [by apply Hd|]. right. by rewrite <- Ho.
    + intros c Hx Hy. by apply Gd, Hg.
Qed.

(** *** Writing *)

(** What was not right is dirty still, so a failed update loses nothing. *)
Lemma table_ok_skip t k : ready t k → table_ok (set_Dirty t (dirtyNow t) (dirtyInsertAppend t)).
Proof.
  intros [[[Hn Hp Hm Hiv Hc Hr Hd Hh Hdis] Hcl Hins Happ Hnm] Hf Hk]. split; [split|..]; try done.
  - intros c Hc'. cbn in Hc'. apply dirtyNow_elem in Hc' as [? _]. by apply Hd.
  - cbn. intros c [H1 _]%dirtyNow_elem H2. by apply (Hdis c).
  - cbn. intros c Ho Hnd. destruct (decide (c ∈ dirtyChains t)) as [Hin|]; [|by apply Hcl].
    rewrite (cache_lookup t k Hf). apply (chainPass_Skip t k Hf). rewrite dirtyNow_elem in Hnd. destruct (decide (chainPass t c = Skip)); [done|naive_solver].
  - cbn. intros c Hi. destruct (Hins c Hi) as (? & ? & ?). split_and!; [done| |done]. rewrite dirtyNow_elem. naive_solver.
Qed.

(** What is remembered after an update is what was wanted. *)
Lemma table_ok_written t k full : ready t k → table_ok (set_Dirty (set_Cache t (newCache ords t) full) ∅ ∅).
Proof.
  intros [[Hwf Hcl Hins Happ Hnm] Hf Hk]. split; [destruct Hwf; split|..]; try done.
  - intros c Ho _. change (newCache ords t !! c = desiredHashes t c). destruct (decide (c ∈ dirtyChains t)) as [Hd|Hd]; [by apply (newCache_dirty ords t k Hwf Hf)|].
    rewrite newCache_other; [by apply Hcl|done|done|]. intros Hi. apply (tw_hooks _ Hwf) in Hi as [_ Hi]. change (isOurChain t c = true) in Ho. congruence.
  - intros c Hi. destruct (Hins c Hi) as (Ho & Hd & Hs). split_and!; [done|set_solver|]. right.
    change (is_Some (newCache ords t !! c)). destruct (decide (c ∈ dirtyInsertAppend t)) as [Hia|Hia]; [by apply newCache_hook|].
    rewrite newCache_other by done. by destruct Hs.
  - intros c Hc. change (is_Some (newCache ords t !! c)) in Hc. destruct (decide (c ∈ dirtyChains t)); [by apply Hwf|].
    destruct (decide (c ∈ dirtyInsertAppend t)) as [Hi|Hi]; [by apply (tw_hooks _ Hwf c Hi)|]. rewrite newCache_other in Hc by done. by apply Hnm.
Qed.

Lemma written_settled t k k' t' w' : keeps t k → ready t k → written t k k' → kt w' = k' → kernel_wf k' →
  table_ok t' → wants t' = wants t → dirtyChains t' = ∅ → dirtyInsertAppend t' = ∅ → settled (t', w').
Proof.
  intros [Hw Hn Hd Hg Hc] [[Hwf Hcl Hins Happ Hnm] Hf Hk] (H1 & H2 & H3) Hk' Hwf' Hok Hw' Hd' Hi'.
  destruct (wants_facts _ _ Hw) as (Eo & _ & Ep & Ho & Hdes & Hhr).
  assert (∀ c, isOurChain t0 c = false → c ∉ dirtyChains t0 → c ∉ dirtyChains t) as Hnd.
  { intros c Hc' Hnin Hin. apply Hd in Hin as [?|?]; [done|]. congruence. }
  unfold settled. cbn [fst snd]. rewrite Hk'. split_and!; [done|done|congruence|done|done|split|].
  - intros c Hc'. rewrite <- Hdes, <- Ep. destruct (decide (c ∈ dirtyChains t)) as [Hin|Hin]; [by apply H1|].
    destruct Hc' as [Hc'|[Hc' Hnft]]; [|by destruct Hin; apply Hg]. rewrite <- Ho in Hc'.
    rewrite H3 by (try done; intros Hi; apply (tw_hooks _ Hwf) in Hi as [_ Hi]; congruence).
    rewrite <- (cache_lookup t k Hf). by apply Hcl.
  - intros c Hc' Hnin. rewrite <- Hhr. pose proof (Hnd c Hc' Hnin) as Hin. rewrite <- Ho in Hc'.
    destruct (decide (c ∈ dirtyInsertAppend t)) as [Hi|Hi].
    + specialize (H2 c Hi). destruct (k !! c) as [xs|]; [|by destruct H2 as [-> ?]]. destruct H2 as (ys & -> & Hfo & Hh). unfold hookRight. by rewrite Hfo.
    + rewrite H3 by done. by apply Hk.
  - intros Hcalm c Hc' Hnin. rewrite <- (Hc Hcalm). pose proof (Hnd c Hc' Hnin) as Hin.
    assert (∀ xs, foreign t0 c xs = foreign t c xs) as Hfe by (intros xs; unfold foreign; by rewrite Ep).
    destruct (decide (c ∈ dirtyInsertAppend t)) as [Hi|Hi]; [|by rewrite H3].
    specialize (H2 c Hi). destruct (k !! c) as [xs|]; [|by destruct H2 as [-> ?]]. destruct H2 as (ys & -> & Hfo & Hh). cbn. by rewrite !Hfe, Hfo.
Qed.

(** The input that is written. *)
Lemma restoreLines_newline t k : table_wf t → kernel_wf k → fresh t k → Forall (λ l, newline ∉ chars l) (restoreLines ords t).
Proof.
  intros Hwf Hk Hf. destruct (mainLines_good ords t k Hwf Hk Hf) as [Hm _]. destruct (tailLines_good ords t Hwf 5 6) as [Ht _].
  assert (∀ ls, Forall lineLike ls → Forall (λ l, newline ∉ chars l) (txn (tb_Name t) ls)) as Htxn.
  { intros ls Hls. assert (Forall (λ l, newline ∉ chars l) ls) as Hn by (eapply Forall_impl; [exact Hls|]; by intros l [_ ?]).
    destruct ls as [|l ls]; [done|]. unfold txn. apply Forall_app_2; [|apply Forall_app_2; [done|]].
    - constructor; [|done]. rewrite chars_app. apply not_elem_of_app. split; [|apply Hwf]. apply (bool_decide_unpack _). vm_compute. exact I.
    - constructor; [|done]. apply (bool_decide_unpack _). vm_compute. exact I. }
  unfold restoreLines. destruct (nftablesMode (tb_opt t)); [by apply Forall_app_2; apply Htxn|].
  apply Htxn, Forall_app_2; [done|]. by apply Forall_app in Ht as [_ Ht].
Qed.

Lemma restoreLines_head t : restoreLines ords t ≠ [] → head (restoreLines ords t) = Some ("*" +:+ tb_Name t).
Proof. unfold restoreLines, txn. destruct (nftablesMode (tb_opt t)); repeat case_match; naive_solver. Qed.

(** A table in a calm world is written. *)
Lemma calm_hooks t k : calm t0 k0 → keeps t k → ready t k → ¬ hookMissing t k.
Proof.
  intros Hcalm [Hw Hn Hd Hg Hc] Hr (c & _ & Hnone & Hno). rewrite (Hc Hcalm) in Hnone.
  assert (rulesIn (chainToInsertedRules t) c ≠ []) as Hins.
  { intros E. apply Hno. split; [done|]. destruct (decide (rulesIn (chainToAppendedRules t) c = [])) as [|Ha]; [done|].
    by apply (to_appended _ (rd_ok _ _ Hr)) in Ha. }
  assert (chainToInsertedRules t = chainToInsertedRules t0) as E by (unfold wants in Hw; congruence). rewrite E in Hins.
  destruct (ca_hooks _ _ Hcalm c Hins) as [xs Hx]. congruence.
Qed.

(** One update: the kernel is right, or the table is to be loaded again. *)
Lemma tri_applyUpdates : tri loaded (attempt (applyUpdates ords))
  (λ x s, match x with inl _ => settled s | inr _ => failed s ∧ inSyncWithDataPlane s.1 = false end) failed.
Proof.
  intros [t w] (Hr & Hwf & Hk). cbn [fst snd] in *. pose proof (to_wf _ (rd_ok _ _ Hr)) as Htw. pose proof (rd_fresh _ _ Hr) as Hf.
  destruct (buildUpdates_lines ords t (kt w) Htw Hwf Hf) as (b & lines & full & Hb & Hlines & Hname).
  pose proof (execInput_restore ords t (kt w) Htw Hwf Hf) as Hexec. rewrite (ke_name _ _ Hk) in Hexec.
  assert (∀ w1, ¬ calm t0 k0 → kernel_wf (kt w1) → idle (set_Dirty t (dirtyNow t) (dirtyInsertAppend t), w1)) as Hidle.
  { intros w1 Hno Hw1. destruct Hk as [Hw Hn Hd Hg Hc]. split_and!; [by eapply table_ok_skip|done|]. split; try done.
    - cbn. intros c [Hx _]%dirtyNow_elem. by apply Hd.
    - cbn. intros c Hx [Hnft|?]; [|done]. apply dirtyNow_elem. split; [by apply Hg; [|left]|]. destruct (wants_facts _ _ Hw) as (Eo & _).
      unfold chainPass. rewrite Eo, Hnft. by repeat case_decide. }
  unfold attempt, applyUpdates, mbind_, getT, lift, putT, tcall, mret, merr, attempt. cbn [fst snd]. rewrite Hb. cbn [fst snd].
  fold (dirtyNow t). unfold BufEmpty, GetBytesAndReset. rewrite Hlines, Hname. rewrite decide_False by naive_solver.
  pose proof (table_ok_written t (kt w) full Hr) as Hok.
  destruct (decide (restoreLines ords t = [])) as [Hnil|Hne].
  { rewrite bool_decide_eq_true_2 by done. cbn. rewrite Hnil in Hexec. cbn in Hexec. destruct Hexec as [Hwr _]. by eapply written_settled. }
  rewrite bool_decide_eq_false_2 by done. cbn [fst snd]. pose proof (restore_law (bytesOfLines (restoreLines ords t)) w Hwf) as Hlaw.
  rewrite linesOf_bytes in Hlaw by by apply (restoreLines_newline t (kt w)).
  specialize (Hlaw ltac:(by rewrite restoreLines_head, (ke_name _ _ Hk))).
  assert (is_ret (ipRestore (bytesOfLines (restoreLines ords t)) w).2 ≠ true → ¬ calm t0 k0) as Hno.
  { intros Hno Hcalm. apply Hno, (ca_restore _ _ Hcalm); [done|]. rewrite linesOf_bytes by by apply (restoreLines_newline t (kt w)).
    intros E. rewrite E in Hexec. by apply (calm_hooks t (kt w)) in Hexec. }
  destruct (ipRestore _ w) as [w1 [[]|e|p|]]; cbn [fst snd is_ret] in *; [| |by split; [apply Hidle|]; auto|by split; [apply Hidle|]; auto]; cycle 1.
  { destruct (Hidle w1) as (? & ? & Hk1); [auto|done|]. split; [|done]. split; [|auto]. split_and!; [by apply table_ok_sync|done|]. by destruct Hk1. }
  rewrite Hlaw in Hexec. destruct Hexec as [Hwr Hwf1]. destruct (now_law w1) as [Hnow Hret].
  destruct (ipNow w1) as [w2 [now|e|p|]]; try done. cbn [fst snd] in *. rewrite <- Hnow in Hwf1, Hwr.
  eapply written_settled; try done. exact (table_ok_times _ (lastReadTime t) now (InitialPostWriteInterval (tb_opt t)) (proj2 (tw_intervals _ Htw)) Hok).
Qed.

(** ** The loop *)

Lemma tri_applyLoop n : tri (λ s, idle s ∧ inSyncWithDataPlane s.1 = false) (applyLoop ords n) (λ _, settled) failed.
Proof.
  induction n as [|n IH]; cbn [applyLoop]; apply tri_getT; intros t.
  all: eapply (tri_bind _ _ _ (λ _, loaded)); [intros [t' w] [[HI Hs] Ht]; cbn in Ht, Hs; subst t'; rewrite Hs; by apply tri_load|]; intros _.
  all: eapply tri_bind; [apply tri_applyUpdates|]; intros [[]|e]; [by apply tri_ret|].
  - apply tri_getT. intros t1. eapply (tri_bind _ _ _ (λ _, failed)); [|intros _; by apply tri_err].
    eapply tri_pre; [|eapply tri_post; [apply tri_attempt, (tri_tcall (λ s, failed s ∧ s.1 = t1) _ (λ _, failed) failed)|by intros []|done]].
    + by intros s [[? _] ?].
    + intros t2 w [[(Hok & Hwf & Hk) Hno] Ht]. cbn in Ht, Hok, Hwf, Hk. subst t2. rewrite (ke_name _ _ Hk). pose proof (save_law w Hwf) as Hsv.
      assert (∀ w', kernel_wf (kt w') → failed (t1, w')) as Hf.
      { intros w' Hw'. split; [|done]. split_and!; [done|done|]. destruct Hk. by split. }
      destruct (ipSave name w) as [w' [l|e'|p|]]; cbn in *; apply Hf; by destruct Hsv.
  - eapply tri_pre; [|apply IH]. by intros s [[? _] ?].
Qed.

(** ** The whole call *)

(** An hour has less than [2 ^ 42] nanoseconds. *)
Definition applyFuel : nat := 42.

Lemma postWriteLoop_total fuel now t : (0 <= postWriteInterval t)%Z → (postWriteInterval t = 0 ∨ hour <= postWriteInterval t * 2 ^ Z.of_nat fuel)%Z →
  ∃ b iv, postWriteLoop fuel now t = Ret (set_Sync (set_Times t (lastReadTime t) (lastWriteTime t) iv) b) ∧
    (inSyncWithDataPlane t = false → b = false) ∧ (0 <= iv)%Z.
Proof.
  revert t. induction fuel as [|fuel IH]; intros t Hpos Hlt; cbn [postWriteLoop]; case_decide as Hc.
  - simpl in Hlt. lia.
  - exists (inSyncWithDataPlane t), (postWriteInterval t). by destruct t.
  - destruct (IH (InvalidateDataplaneCache (set_Times t (lastReadTime t) (lastWriteTime t) (postWriteInterval t * 2)))) as (b & iv & -> & Hb & Hiv).
    + cbn. lia.
    + cbn [postWriteInterval InvalidateDataplaneCache set_Sync set_Times]. rewrite Nat2Z.inj_succ, Z.pow_succ_r in Hlt by lia. right. lia.
    + exists b, iv. split_and!; [done| |done]. intros _. by apply Hb.
  - exists (inSyncWithDataPlane t), (postWriteInterval t). by destruct t.
Qed.

Lemma tri_Apply fuel : applyFuel <= fuel →
  tri (λ s, idle s ∧ inSyncWithDataPlane s.1 = false) (Apply ords fuel) (λ _, settled) failed.
Proof.
  intros Hfuel. unfold Apply. eapply tri_bind.
  { apply tri_now. intros t w w' Hk [HI ?]. split; [by eapply idle_kernel|done]. }
  intros now. apply tri_getT. intros t. set (t1 := if decide _ then _ else _).
  assert (∃ b, t1 = set_Sync t b ∧ (inSyncWithDataPlane t = false → b = false)) as (b1 & Ht1 & Hb1).
  { unfold t1. case_decide; [by exists false|]. exists (inSyncWithDataPlane t). by destruct t. }
  eapply (tri_bind _ _ _ (λ t2 s, idle (t2, s.2) ∧ inSyncWithDataPlane t2 = false)).
  - clearbody t1. apply tri_lift. intros [t' w] [[HI Hs] Ht]. cbn [fst snd] in *. subst t' t1.
    destruct HI as (Hok & Hwf & []). cbn [fst snd] in *. pose proof (tw_intervals _ (to_wf _ Hok)) as [Hpos _].
    destruct (postWriteLoop_total fuel now (set_Sync t b1) Hpos) as (b & iv & Hloop & Hb & Hiv).
    { cbn. destruct (decide (postWriteInterval t = 0%Z)); [by left|]. right.
      pose proof (Z.pow_le_mono_r 2 (Z.of_nat applyFuel) (Z.of_nat fuel) eq_refl ltac:(lia)) as Hp.
      assert (hour <= 2 ^ Z.of_nat applyFuel)%Z by (by vm_compute). nia. }
    rewrite Hloop. split; [|cbn; auto].
    split_and!; [by apply table_ok_sync, table_ok_times, table_ok_sync|done|]. by split.
  - intros t2. eapply tri_bind; [apply (tri_putT _ _ (λ _ s, idle s ∧ inSyncWithDataPlane s.1 = false)); by intros s [? ?]|].
    intros []. eapply tri_bind; [apply tri_applyLoop|]. intros []. apply tri_getT. intros t3. apply tri_ret. by intros s [? _].
Qed.
End apply.
