(* ===== verification/IptablesRefs.v ===== *)
(** * Reference counts of tables

    A chain is programmed while something refers to it.  The counts that the
    table keeps are the numbers of references in its rules, and a chain whose
    count becomes or ceases to be zero is marked dirty. *)

From S2P Require Import Prelude GoStd GoNet GoFmt Sha1 Sha224 ApiServer IptablesRule IptablesTable IptablesKernel IptablesText IptablesWrite IptablesRead IptablesUpdate.
Open Scope Z_scope.

(** ** Counting *)

Definition occurrences (c : string) (cs : list string) : Z := Z.of_nat (length (filter (λ c', c' = c) cs)).
Definition refsOf (c : string) (rules : list Rule) : Z := occurrences c (referred rules).
Definition refsIn (c : string) (m : gmap string (list Rule)) : Z := map_fold (λ _ rules n, n + refsOf c rules) 0 m.

Lemma occurrences_nonneg c cs : 0 <= occurrences c cs.
Proof. unfold occurrences. lia. Qed.

Lemma occurrences_cons c c' cs : occurrences c (c' :: cs) = (if decide (c' = c) then 1 else 0) + occurrences c cs.
Proof. unfold occurrences. rewrite filter_cons. case_decide; simpl; lia. Qed.

Lemma refsIn_insert_fresh c k rules m : m !! k = None → refsIn c (<[k := rules]> m) = refsIn c m + refsOf c rules.
Proof.
  intros Hk. unfold refsIn. rewrite map_fold_insert_L; [done| |done]. intros. lia.
Qed.

Lemma refsIn_delete c k m : refsIn c (delete k m) = refsIn c m - refsOf c (default [] (m !! k)).
Proof.
  destruct (m !! k) as [rules|] eqn:E; simpl.
  - rewrite <- (insert_delete_id m k rules E) at 2. rewrite refsIn_insert_fresh by apply lookup_delete_eq. lia.
  - rewrite delete_id by done. unfold refsOf, occurrences. simpl. lia.
Qed.

Lemma refsIn_insert c k rules m : refsIn c (<[k := rules]> m) = refsIn c m - refsOf c (default [] (m !! k)) + refsOf c rules.
Proof. rewrite <- insert_delete_eq, refsIn_insert_fresh by apply lookup_delete_eq. by rewrite refsIn_delete. Qed.

Lemma refsIn_nonneg c m : 0 <= refsIn c m.
Proof.
  unfold refsIn. apply (map_fold_weak_ind (λ n _, 0 <= n)); [lia|]. intros k rules m' n _ Hn.
  pose proof (occurrences_nonneg c (referred rules)). unfold refsOf. lia.
Qed.

(** ** The counts move with the references *)

Lemma refCount_incref t c c' : refCount (increfChain t c') c = refCount t c + (if decide (c' = c) then 1 else 0).
Proof.
  unfold refCount, increfChain. cbn [chainRefCounts set_Refs]. case_decide as H; [subst; rewrite lookup_insert_eq; simpl; unfold refCount; lia|].
  rewrite lookup_insert_ne by done. lia.
Qed.

Lemma refCount_decref t c c' : refCount (decrefChain t c') c = refCount t c - (if decide (c' = c) then 1 else 0).
Proof.
  unfold decrefChain. case_decide as Hz; unfold refCount in *; cbn [chainRefCounts set_Refs]; case_decide as H; subst.
  - rewrite lookup_delete_eq. simpl. lia.
  - rewrite lookup_delete_ne by done. lia.
  - rewrite lookup_insert_eq. simpl. lia.
  - rewrite lookup_insert_ne by done. lia.
Qed.

Lemma refCount_increfs rules t c : refCount (increfReferredChains rules t) c = refCount t c + refsOf c rules.
Proof.
  unfold increfReferredChains, refsOf. generalize (referred rules) as cs. intros cs. revert t.
  induction cs as [|c' cs IH]; intros t; cbn [foldl]; [unfold occurrences; simpl; lia|]. rewrite IH, refCount_incref, occurrences_cons. lia.
Qed.

Lemma refCount_decrefs rules t c : refCount (decrefReferredChains rules t) c = refCount t c - refsOf c rules.
Proof.
  unfold decrefReferredChains, refsOf. generalize (referred rules) as cs. intros cs. revert t.
  induction cs as [|c' cs IH]; intros t; cbn [foldl]; [unfold occurrences; simpl; lia|]. rewrite IH, refCount_decref, occurrences_cons. lia.
Qed.

(** Nothing but counts and dirty chains changes. *)
Definition refsChanged (t t' : Table) : Prop := t' = set_Refs t (chainRefCounts t') (dirtyChains t').
Lemma refsChanged_trans t1 t2 t3 : refsChanged t1 t2 → refsChanged t2 t3 → refsChanged t1 t3.
Proof. unfold refsChanged. intros H1 H2. rewrite H2 at 1. by rewrite H1 at 1. Qed.
Lemma refsChanged_rules t t' : refsChanged t t' → chainToInsertedRules t' = chainToInsertedRules t ∧
  chainToAppendedRules t' = chainToAppendedRules t ∧ tb_Name t' = tb_Name t.
Proof. unfold refsChanged. by intros ->. Qed.
Lemma increfs_changed rules t : refsChanged t (increfReferredChains rules t).
Proof.
  unfold increfReferredChains. generalize (referred rules) as cs. intros cs. revert t.
  induction cs as [|c cs IH]; intros t; cbn [foldl]; [by destruct t|]. specialize (IH (increfChain t c)). unfold refsChanged in *. by rewrite IH at 1.
Qed.
Lemma decrefs_changed rules t : refsChanged t (decrefReferredChains rules t).
Proof.
  unfold decrefReferredChains. generalize (referred rules) as cs. intros cs. revert t.
  induction cs as [|c cs IH]; intros t; cbn [foldl]; [by destruct t|]. specialize (IH (decrefChain t c)). unfold refsChanged in *.
  rewrite IH at 1. unfold decrefChain. by case_decide.
Qed.

(** ** Dirty chains *)

(** A chain that starts or stops being referred to becomes dirty; only chains
    that are named do. *)
Record touched (names : list string) (t t' : Table) : Prop := {
  tc_grow : dirtyChains t ⊆ dirtyChains t';
  tc_only : ∀ c, c ∈ dirtyChains t' → c ∈ dirtyChains t ∨ c ∈ names;
  tc_zero : ∀ c, c ∉ dirtyChains t' → refCount t c = 0 ↔ refCount t' c = 0
}.

Lemma touched_trans n1 n2 t1 t2 t3 : touched n1 t1 t2 → touched n2 t2 t3 → touched (n1 ++ n2) t1 t3.
Proof.
  intros [G1 O1 Z1] [G2 O2 Z2]. split; [set_solver|set_solver|]. intros c Hc. rewrite Z1 by set_solver. by apply Z2.
Qed.

Lemma touched_increfs rules t : (∀ c, 0 <= refCount t c) → touched (referred rules) t (increfReferredChains rules t).
Proof.
  unfold increfReferredChains. generalize (referred rules) as cs. intros cs. revert t.
  induction cs as [|c cs IH]; intros t Hpos; cbn [foldl]; [by split; [|auto|]|].
  apply (touched_trans [c] cs _ (increfChain t c)).
  - split.
    + unfold increfChain. cbn [dirtyChains set_Refs]. case_decide; set_solver.
    + unfold increfChain. cbn [dirtyChains set_Refs]. case_decide; set_solver.
    + intros c' Hc'. rewrite refCount_incref. unfold increfChain in Hc'. cbn [dirtyChains set_Refs] in Hc'. specialize (Hpos c').
      destruct (decide (c = c')) as [->|]; [|lia]. destruct (decide (refCount t c' + 1 = 1)); [set_solver|lia].
  - apply IH. intros c'. rewrite refCount_incref. specialize (Hpos c'). case_decide; lia.
Qed.

Lemma touched_decrefs rules t : (∀ c, refsOf c rules <= refCount t c) → touched (referred rules) t (decrefReferredChains rules t).
Proof.
  unfold decrefReferredChains, refsOf. generalize (referred rules) as cs. intros cs. revert t.
  induction cs as [|c cs IH]; intros t Hpos; cbn [foldl]; [by split; [|auto|]|].
  apply (touched_trans [c] cs _ (decrefChain t c)).
  - split.
    + unfold decrefChain. case_decide; cbn [dirtyChains set_Refs]; set_solver.
    + unfold decrefChain. case_decide; cbn [dirtyChains set_Refs]; set_solver.
    + intros c' Hc'. rewrite refCount_decref. unfold decrefChain in Hc'. specialize (Hpos c'). rewrite occurrences_cons in Hpos.
      pose proof (occurrences_nonneg c' cs).
      destruct (decide (c = c')) as [->|]; [|lia]. destruct (decide (refCount t c' - 1 = 0)); cbn [dirtyChains set_Refs] in Hc'; [set_solver|lia].
  - apply IH. intros c'. rewrite refCount_decref. specialize (Hpos c'). rewrite occurrences_cons in Hpos. case_decide; lia.
Qed.

(** ** Operations *)

Inductive tableOp :=
| OpInsert (chainName : string) (rules : list Rule)
| OpAppend (chainName : string) (rules : list Rule)
| OpUpdate (chain : Chain)
| OpUpdates (chains : list Chain)
| OpRemove (name : string)
| OpRemoves (chains : list Chain)
| OpInvalidate.

Definition runOp (t : Table) (op : tableOp) : Table :=
  match op with
  | OpInsert c rules => InsertOrAppendRules c rules t
  | OpAppend c rules => AppendRules c rules t
  | OpUpdate chain => UpdateChain chain t
  | OpUpdates chains => UpdateChains chains t
  | OpRemove name => RemoveChainByName name t
  | OpRemoves chains => RemoveChains chains t
  | OpInvalidate => InvalidateDataplaneCache t
  end.

Definition chainRules (t : Table) : gmap string (list Rule) := ch_Rules <$> chainNameToChain t.
Definition kernelRef (t : Table) (c : string) : Z := if decide (c ∈ tableToKernelChains (tb_Name t)) then 1 else 0.
(** The number of references to a chain. *)
Definition references (t : Table) (c : string) : Z :=
  kernelRef t c + refsIn c (chainToInsertedRules t) + refsIn c (chainToAppendedRules t) + refsIn c (chainRules t).
Definition refs_exact (t : Table) : Prop := ∀ c, refCount t c = references t c.

Lemma refs_nonneg t c : refs_exact t → 0 <= refCount t c.
Proof.
  intros H. rewrite H. unfold references, kernelRef. pose proof (refsIn_nonneg c (chainToInsertedRules t)).
  pose proof (refsIn_nonneg c (chainToAppendedRules t)). pose proof (refsIn_nonneg c (chainRules t)). case_decide; lia.
Qed.

Lemma refCount_mark t name c : refCount (markIfReferred name t) c = refCount t c.
Proof. unfold markIfReferred. by case_decide. Qed.
Lemma mark_changed name t : refsChanged t (markIfReferred name t).
Proof. unfold markIfReferred, refsChanged. case_decide; [done|by destruct t]. Qed.

(** Only the counts matter. *)
Lemma references_changed t t' c : refsChanged t t' → references t' c = references t c.
Proof. intros ->. done. Qed.

Lemma InsertOrAppendRules_refs c rules t : refs_exact t → refs_exact (InsertOrAppendRules c rules t).
Proof.
  intros H c'. unfold InsertOrAppendRules. set (t1 := set_Rules _ _ _ _).
  change (refCount (InvalidateDataplaneCache ?x) c') with (refCount x c'). change (references (InvalidateDataplaneCache ?x) c') with (references x c').
  rewrite refCount_decrefs, refCount_increfs. rewrite (references_changed _ _ _ (decrefs_changed _ _)), (references_changed _ _ _ (increfs_changed _ _)).
  change (refCount t1 c') with (refCount t c'). rewrite H. unfold references. cbn [t1 chainToInsertedRules chainToAppendedRules set_Rules].
  rewrite refsIn_insert. change (chainRules t1) with (chainRules t). change (kernelRef t1 c') with (kernelRef t c'). lia.
Qed.

Lemma AppendRules_refs c rules t : refs_exact t → refs_exact (AppendRules c rules t).
Proof.
  intros H c'. unfold AppendRules. set (t1 := set_Rules _ _ _ _).
  change (refCount (InvalidateDataplaneCache ?x) c') with (refCount x c'). change (references (InvalidateDataplaneCache ?x) c') with (references x c').
  rewrite refCount_decrefs, refCount_increfs. rewrite (references_changed _ _ _ (decrefs_changed _ _)), (references_changed _ _ _ (increfs_changed _ _)).
  change (refCount t1 c') with (refCount t c'). rewrite H. unfold references. cbn [t1 chainToInsertedRules chainToAppendedRules set_Rules].
  rewrite refsIn_insert. change (chainRules t1) with (chainRules t). change (kernelRef t1 c') with (kernelRef t c'). lia.
Qed.

Definition oldRules (t : Table) (name : string) : list Rule := match chainNameToChain t !! name with Some old => ch_Rules old | None => [] end.
Lemma oldRules_lookup t name : default [] (chainRules t !! name) = oldRules t name.
Proof. unfold chainRules, oldRules. rewrite lookup_fmap. by destruct (chainNameToChain t !! name). Qed.

(** An update without the flags: the rules of the old chain are released. *)
Lemma UpdateChain_eq chain t :
  UpdateChain chain t = InvalidateDataplaneCache (markIfReferred (ch_Name chain)
    (set_Chains (decrefReferredChains (oldRules t (ch_Name chain)) (increfReferredChains (ch_Rules chain) t))
       (<[ch_Name chain := chain]> (chainNameToChain t)))).
Proof.
  unfold UpdateChain, oldRules. pose proof (increfs_changed (ch_Rules chain) t) as Hi. set (t1 := increfReferredChains _ t) in *.
  assert (chainNameToChain t1 = chainNameToChain t) as -> by (by rewrite Hi).
  destruct (chainNameToChain t !! ch_Name chain) as [old|]; [|by rewrite Hi].
  pose proof (decrefs_changed (ch_Rules old) t1) as Hd. set (t2 := decrefReferredChains _ t1) in *.
  assert (chainNameToChain t2 = chainNameToChain t) as -> by (by rewrite Hd, Hi). done.
Qed.

Lemma UpdateChain_refs chain t : refs_exact t → refs_exact (UpdateChain chain t).
Proof.
  intros H c. rewrite UpdateChain_eq. change (refCount (InvalidateDataplaneCache ?x) c) with (refCount x c).
  change (references (InvalidateDataplaneCache ?x) c) with (references x c).
  rewrite refCount_mark, (references_changed _ _ _ (mark_changed _ _)). change (refCount (set_Chains ?x _) c) with (refCount x c).
  rewrite refCount_decrefs, refCount_increfs, H.
  set (t1 := decrefReferredChains _ _). assert (refsChanged t t1) as E.
  { eapply refsChanged_trans; [apply increfs_changed|apply decrefs_changed]. }
  unfold references. cbn [chainToInsertedRules chainToAppendedRules set_Chains]. unfold chainRules at 2. cbn [chainNameToChain set_Chains].
  rewrite fmap_insert, refsIn_insert. fold (chainRules t). rewrite oldRules_lookup.
  change (kernelRef (set_Chains t1 _) c) with (kernelRef t1 c). unfold kernelRef. destruct (refsChanged_rules _ _ E) as (-> & -> & ->). lia.
Qed.

Lemma RemoveChainByName_refs name t : refs_exact t → refs_exact (RemoveChainByName name t).
Proof.
  intros H c. unfold RemoveChainByName. destruct (chainNameToChain t !! name) as [old|] eqn:E; [|by apply H].
  change (refCount (InvalidateDataplaneCache ?x) c) with (refCount x c). change (references (InvalidateDataplaneCache ?x) c) with (references x c).
  rewrite refCount_decrefs, refCount_mark, (references_changed _ _ _ (decrefs_changed _ _)), (references_changed _ _ _ (mark_changed _ _)).
  change (refCount (set_Chains t _) c) with (refCount t c). rewrite H. unfold references. cbn [chainToInsertedRules chainToAppendedRules set_Chains].
  unfold chainRules at 2. cbn [chainNameToChain set_Chains]. rewrite fmap_delete, refsIn_delete. fold (chainRules t).
  rewrite oldRules_lookup. unfold oldRules. rewrite E. change (kernelRef (set_Chains t _) c) with (kernelRef t c). lia.
Qed.

Lemma runOp_refs t op : refs_exact t → refs_exact (runOp t op).
Proof.
  destruct op as [c rules|c rules|chain|chains|name|chains|]; cbn [runOp]; intros H.
  - by apply InsertOrAppendRules_refs.
  - by apply AppendRules_refs.
  - by apply UpdateChain_refs.
  - unfold UpdateChains. revert t H. induction chains as [|ch chains IH]; intros t H; [done|]. apply IH. by apply UpdateChain_refs.
  - by apply RemoveChainByName_refs.
  - unfold RemoveChains. revert t H. induction chains as [|ch chains IH]; intros t H; [done|]. apply IH. by apply RemoveChainByName_refs.
  - exact H.
Qed.

(** ** New tables *)

Lemma refsIn_zero c m : (∀ k rules, m !! k = Some rules → rules = []) → refsIn c m = 0.
Proof.
  unfold refsIn. apply (map_fold_weak_ind (λ n (m : gmap string (list Rule)), (∀ k rules, m !! k = Some rules → rules = []) → n = 0)); [done|].
  intros k rules m' n Hk IH H. rewrite IH, (H k rules) by (intros; try apply (H k0); rewrite ?lookup_insert_eq, ?lookup_insert_ne; congruence). done.
Qed.

Lemma NewTable_refs name v prefix opt now t : NewTable name v prefix opt now = Ret t → refs_exact t.
Proof.
  unfold NewTable. intros H. inv_ret. intros c. unfold references, refCount, kernelRef, chainRules. cbn.
  assert (∀ m : gmap string (list Rule), m = list_to_map ((λ c, (c, [])) <$> tableToKernelChains name) → refsIn c m = 0) as Hz.
  { intros m ->. apply refsIn_zero. intros k rules Hk%elem_of_list_to_map_2. apply list_elem_of_fmap in Hk as (? & [= -> ->] & _). done. }
  rewrite (Hz _ eq_refl), fmap_empty. change (refsIn c ∅) with 0.
  destruct (decide (c ∈ tableToKernelChains name)) as [Hin|Hin].
  - destruct (list_to_map _ !! c) eqn:E; simpl.
    + apply elem_of_list_to_map_2, list_elem_of_fmap in E as (? & [= -> ->] & _). done.
    + apply not_elem_of_list_to_map_2 in E. destruct E. rewrite <- list_fmap_compose. by apply list_elem_of_fmap; exists c.
  - rewrite not_elem_of_list_to_map_1; [done|]. rewrite <- list_fmap_compose. intros (? & -> & ?)%list_elem_of_fmap. done.
Qed.

(** The reference counts of a table are the numbers of references in the rules
    it was given, the hooks of the kernel included, after any operations: so a
    chain is programmed exactly while something refers to it. *)
Theorem references_counted name v prefix opt now t ops : NewTable name v prefix opt now = Ret t →
  let t' := foldl runOp t ops in
  (∀ c, refCount t' c = references t' c) ∧
  (∀ c, desiredStateOfChain t' c = if decide (references t' c = 0) then None else chainNameToChain t' !! c).
Proof.
  intros Ht. assert (refs_exact (foldl runOp t ops)) as H.
  { apply NewTable_refs in Ht. revert t Ht. induction ops as [|op ops IH]; intros t Ht; [done|]. apply IH. by apply runOp_refs. }
  split; [exact H|]. intros c. unfold desiredStateOfChain. by rewrite H.
Qed.
