(* ===== verification/IptablesTheorems.v ===== *)
(** * Tables and the kernel, together

    The states that a table and the kernel's table can reach when the agent keeps
    to its chains, other programs to theirs, and the two programs fail at will. *)

From S2P Require Import Prelude GoStd GoNet GoFmt Sha1 Sha224 ApiServer IptablesRule IptablesTable IptablesKernel IptablesText IptablesWrite IptablesRead IptablesUpdate Triple IptablesLoad IptablesApply IptablesRefs.
Open Scope nat_scope.

(** ** The invariant of a table *)

Section invariant.
(** The names that the agent uses for its own chains. *)
Context (own : string → bool).

Definition own_name (c : string) : Prop := plainName c ∧ own c = true.
Definition hook_name (t : Table) (c : string) : Prop := plainName c ∧ own c = false ∧ isOurChain t c = false.

(** Rules refer to chains of the agent. *)
Definition rule_fine (opt : Options) (r : Rule) : Prop :=
  rule_ok opt r ∧ ∀ c, c ∈ referred [r] → own_name c.

Record table_inv (t : Table) : Prop := {
  ti_ok : table_ok t;
  ti_refs : refs_exact t;
  ti_dirty : ∀ c, c ∈ dirtyChains t → own c = true ∨ isOurChain t c = true;
  ti_hooks : ∀ c, c ∈ dirtyInsertAppend t → own c = false;
  ti_names : ∀ c, rulesIn (chainToInsertedRules t) c ≠ [] → own c = false;
  ti_ins : ∀ c, Forall (rule_fine (tb_opt t)) (rulesIn (chainToInsertedRules t) c);
  ti_app : ∀ c, Forall (rule_fine (tb_opt t)) (rulesIn (chainToAppendedRules t) c);
  ti_chain : ∀ c chain, chainNameToChain t !! c = Some chain → own_name c ∧ Forall (rule_fine (tb_opt t)) (ch_Rules chain)
}.

(** What the agent may ask for: its own chains and chains of others are not
    confused, and nothing is appended to a chain into which nothing is inserted. *)
Definition chain_fine (opt : Options) (chain : Chain) : Prop := own_name (ch_Name chain) ∧ Forall (rule_fine opt) (ch_Rules chain).
Definition op_ok (t : Table) (op : tableOp) : Prop :=
  match op with
  | OpInsert c rules => hook_name t c ∧ Forall (rule_fine (tb_opt t)) rules ∧ (rules = [] → rulesIn (chainToAppendedRules t) c = [])
  | OpAppend c rules => hook_name t c ∧ Forall (rule_fine (tb_opt t)) rules ∧ (rules ≠ [] → rulesIn (chainToInsertedRules t) c ≠ [])
  | OpUpdate chain => chain_fine (tb_opt t) chain
  | OpUpdates chains => Forall (chain_fine (tb_opt t)) chains
  | OpRemove _ | OpRemoves _ | OpInvalidate => True
  end.

Lemma referred_fine opt rules c : Forall (rule_fine opt) rules → c ∈ referred rules → own_name c.
Proof.
  intros H (r & Hr & Ha)%list_elem_of_omap. rewrite Forall_forall in H. apply (H r Hr). unfold referred. apply list_elem_of_omap. exists r.
  split; [apply list_elem_of_here|done].
Qed.

Lemma rulesIn_insert m c rules c' : rulesIn (<[c := rules]> m) c' = if decide (c' = c) then rules else rulesIn m c'.
Proof. unfold rulesIn. case_decide; [subst; by rewrite lookup_insert_eq|by rewrite lookup_insert_ne]. Qed.

Lemma refsOf_le c k m : (refsOf c (rulesIn m k) <= refsIn c m)%Z.
Proof. pose proof (refsIn_nonneg c (delete k m)). rewrite refsIn_delete in *. unfold rulesIn. lia. Qed.

(** ** Steps that keep it *)

(** The same options, and dirty sets that grow by the right kind of chains. *)
Record grows (t t' : Table) : Prop := {
  gr_fixed : tb_opt t' = tb_opt t ∧ tb_Name t' = tb_Name t ∧ hashCommentPrefix t' = hashCommentPrefix t ∧
    postWriteInterval t' = postWriteInterval t ∧ chainToDataplaneHashes t' = chainToDataplaneHashes t;
  gr_dirty : dirtyChains t ⊆ dirtyChains t';
  gr_dirty_new : ∀ c, c ∈ dirtyChains t' → c ∈ dirtyChains t ∨ own_name c;
  gr_hooks : dirtyInsertAppend t ⊆ dirtyInsertAppend t';
  gr_hooks_new : ∀ c, c ∈ dirtyInsertAppend t' → c ∈ dirtyInsertAppend t ∨ hook_name t c;
  gr_desired : ∀ c, c ∉ dirtyChains t' → desiredStateOfChain t' c = desiredStateOfChain t c
}.

Lemma isOurChain_opt t t' : tb_opt t' = tb_opt t → ∀ c, isOurChain t' c = isOurChain t c.
Proof. intros E c. unfold isOurChain. by rewrite E. Qed.

Lemma grows_inv t t' : table_inv t → grows t t' → refs_exact t' →
  (∀ c, Forall (rule_fine (tb_opt t)) (rulesIn (chainToInsertedRules t') c)) → (∀ c, Forall (rule_fine (tb_opt t)) (rulesIn (chainToAppendedRules t') c)) →
  (∀ c chain, chainNameToChain t' !! c = Some chain → own_name c ∧ Forall (rule_fine (tb_opt t)) (ch_Rules chain)) →
  (∀ c, rulesIn (chainToInsertedRules t') c ≠ [] → rulesIn (chainToInsertedRules t) c ≠ [] ∨ c ∈ dirtyInsertAppend t' ∧ hook_name t c) →
  (∀ c, rulesIn (chainToAppendedRules t') c ≠ [] → rulesIn (chainToInsertedRules t') c ≠ []) →
  table_inv t'.
Proof.
  intros [[Hwf Hcl Hins Happ Hnm] Hr Hd Hh Hn Hi Ha Hch] [(Eo & En & Ep & Ev & Ec) Gd Gdn Gh Ghn Gde] Hr' Hi' Ha' Hch' Hnew Happ'.
  pose proof (isOurChain_opt t t' Eo) as Ho. destruct Hwf as [W1 W2 W3 W4 W5 W6 W7 W8 W9].
  assert (∀ opt l, Forall (rule_fine opt) l → Forall (rule_ok opt) l) as Hok by (intros opt l Hl; eapply Forall_impl; [exact Hl|]; by intros r [? _]).
  assert (∀ c, c ∈ dirtyChains t' → own c = true ∨ isOurChain t c = true) as Hd' by (intros c [?|[_ ?]]%Gdn; auto).
  assert (∀ c, c ∈ dirtyInsertAppend t' → hook_name t c) as Hia.
  { intros c [Hc|?]%Ghn; [|done]. destruct (W8 c Hc) as [? ?]. split_and!; auto. }
  assert (∀ c, rulesIn (chainToInsertedRules t') c ≠ [] → own c = false ∧ isOurChain t c = false) as Hin.
  { intros c Hc. destruct (Hnew c Hc) as [Hold|[_ (_ & ? & ?)]]; [|done]. destruct (Hins c Hold) as (? & _). auto. }
  split; [split; [split|..]|..]; rewrite ?En, ?Ep, ?Ev, ?Eo, ?Ec; try done.
  - unfold mode_ok. by rewrite Eo.
  - intros c chain Hc. destruct (Hch' c chain Hc) as [_ ?]. auto.
  - intros c. unfold hook_ok. rewrite Eo. split; auto.
  - intros c [?|[? _]]%Gdn; auto.
  - intros c Hc. rewrite Ho. by destruct (Hia c Hc) as (? & _ & ?).
  - intros c H1 H2. destruct (Hia c H2) as (_ & ? & ?). destruct (Hd' c H1); congruence.
  - intros c Hc Hnd. rewrite Ho in Hc. rewrite (Hcl c Hc) by set_solver. unfold desiredHashes. by rewrite Eo, Gde.
  - intros c Hc. rewrite Ho. destruct (Hin c Hc) as [? ?]. split_and!; [done|intros ?%Hd'; naive_solver congruence|].
    destruct (Hnew c Hc) as [Hold|[? _]]; [|by left]. destruct (Hins c Hold) as (_ & _ & [?|?]); [left; set_solver|by right].
  - intros c Hc. rewrite Ho. auto.
  - intros c Hc. by destruct (Hia c Hc) as (_ & ? & _).
  - intros c Hc. by destruct (Hin c Hc).
Qed.

(** ** Operations *)

(** Rules come in and others go out; the counts are never below the references. *)
Lemma touched_swap t t1 new old : (∀ c, 0 <= refCount t c)%Z → (∀ c, refsOf c old <= refCount t c)%Z →
  dirtyChains t1 = dirtyChains t → chainRefCounts t1 = chainRefCounts t →
  touched (referred new ++ referred old) t (decrefReferredChains old (increfReferredChains new t1)).
Proof.
  intros Hpos Hle Hd Hr. assert (∀ c, refCount t1 c = refCount t c) as Hc by (intros c; unfold refCount; by rewrite Hr).
  assert (touched (referred new ++ referred old) t1 (decrefReferredChains old (increfReferredChains new t1))) as [G O Z].
  { eapply touched_trans; [apply touched_increfs; intros c; by rewrite Hc|]. apply touched_decrefs. intros c. rewrite refCount_increfs, Hc.
    specialize (Hle c). pose proof (occurrences_nonneg c (referred new)). unfold refsOf in *. lia. }
  split; [by rewrite <- Hd|by rewrite <- Hd|]. intros c Hc'. rewrite <- Z by done. by rewrite Hc.
Qed.

Lemma desired_touched names t t' c : touched names t t' → chainNameToChain t' !! c = chainNameToChain t !! c → c ∉ dirtyChains t' →
  desiredStateOfChain t' c = desiredStateOfChain t c.
Proof. intros [_ _ Z] E Hc. unfold desiredStateOfChain. rewrite E. apply decide_ext. symmetry. by apply Z. Qed.

Lemma refs_ins_le t c k : refs_exact t → (refsOf c (rulesIn (chainToInsertedRules t) k) <= refCount t c)%Z.
Proof.
  intros H. rewrite H. pose proof (refsOf_le c k (chainToInsertedRules t)). unfold references, kernelRef.
  pose proof (refsIn_nonneg c (chainToAppendedRules t)). pose proof (refsIn_nonneg c (chainRules t)). case_decide; lia.
Qed.
Lemma refs_app_le t c k : refs_exact t → (refsOf c (rulesIn (chainToAppendedRules t) k) <= refCount t c)%Z.
Proof.
  intros H. rewrite H. pose proof (refsOf_le c k (chainToAppendedRules t)). unfold references, kernelRef.
  pose proof (refsIn_nonneg c (chainToInsertedRules t)). pose proof (refsIn_nonneg c (chainRules t)). case_decide; lia.
Qed.
Lemma refs_chain_le t c k : refs_exact t → (refsOf c (oldRules t k) <= refCount t c)%Z.
Proof.
  intros H. rewrite H. pose proof (refsOf_le c k (chainRules t)) as Hle. unfold rulesIn in Hle. rewrite oldRules_lookup in Hle. unfold references, kernelRef.
  pose proof (refsIn_nonneg c (chainToInsertedRules t)). pose proof (refsIn_nonneg c (chainToAppendedRules t)). case_decide; lia.
Qed.

(** The table after rules went in and out of one of its maps. *)
Lemma swap_grows t t1 new old c : table_inv t → Forall (rule_fine (tb_opt t)) new → Forall (rule_fine (tb_opt t)) old → (∀ c, refsOf c old <= refCount t c)%Z →
  hook_name t c →
  t1 = set_Rules t (chainToInsertedRules t1) (chainToAppendedRules t1) ({[c]} ∪ dirtyInsertAppend t) →
  grows t (InvalidateDataplaneCache (decrefReferredChains old (increfReferredChains new t1))).
Proof.
  intros Hinv Hnew Hold Hle Hc E. pose proof (touched_swap t t1 new old (λ c, refs_nonneg t c (ti_refs _ Hinv)) Hle) as Ht.
  destruct Ht as [G O Z]; [by rewrite E|by rewrite E|].
  assert (refsChanged t1 (decrefReferredChains old (increfReferredChains new t1))) as Hch
    by (eapply refsChanged_trans; [apply increfs_changed|apply decrefs_changed]).
  set (t2 := decrefReferredChains old (increfReferredChains new t1)) in *. unfold refsChanged in Hch.
  assert (dirtyInsertAppend t2 = {[c]} ∪ dirtyInsertAppend t) as Hi by (rewrite Hch, E; done).
  split.
  - cbn. rewrite Hch, E. done.
  - done.
  - intros c' Hc'. cbn in Hc'. apply O in Hc' as [?|[Hin|Hin]%elem_of_app]; [by left|right; by apply (referred_fine (tb_opt t) new)|right; by apply (referred_fine (tb_opt t) old)].
  - cbn. rewrite Hi. set_solver.
  - cbn. rewrite Hi. intros c' [->%elem_of_singleton|?]%elem_of_union; [by right|by left].
  - intros c' Hc'. change (desiredStateOfChain t2 c' = desiredStateOfChain t c'). eapply desired_touched; [by split|by rewrite Hch, E|done].
Qed.

Lemma swap_rules t1 new old : let t2 := InvalidateDataplaneCache (decrefReferredChains old (increfReferredChains new t1)) in
  chainToInsertedRules t2 = chainToInsertedRules t1 ∧ chainToAppendedRules t2 = chainToAppendedRules t1 ∧
  chainNameToChain t2 = chainNameToChain t1 ∧ dirtyInsertAppend t2 = dirtyInsertAppend t1.
Proof.
  assert (refsChanged t1 (decrefReferredChains old (increfReferredChains new t1))) as Hch
    by (eapply refsChanged_trans; [apply increfs_changed|apply decrefs_changed]).
  unfold refsChanged in Hch. cbn. by rewrite Hch.
Qed.

Lemma InsertOrAppendRules_inv c rules t : table_inv t → op_ok t (OpInsert c rules) → table_inv (InsertOrAppendRules c rules t).
Proof.
  intros Hinv (Hc & Hr & Ha). unfold InsertOrAppendRules. set (t1 := set_Rules _ _ _ _).
  fold (rulesIn (chainToInsertedRules t) c). set (old := rulesIn (chainToInsertedRules t) c).
  destruct (swap_rules t1 rules old) as (E1 & E2 & E3 & E4). apply (grows_inv t); [done|..].
  - apply (swap_grows t t1 _ _ c); [done|done|apply Hinv| |done|done]. intros c'. apply refs_ins_le, Hinv.
  - change (refs_exact (InsertOrAppendRules c rules t)). apply InsertOrAppendRules_refs, Hinv.
  - intros c'. rewrite E1. cbn [t1 chainToInsertedRules set_Rules]. rewrite rulesIn_insert. case_decide; [done|apply Hinv].
  - intros c'. rewrite E2. apply Hinv.
  - rewrite E3. apply Hinv.
  - intros c'. rewrite E1, E4. cbn [t1 chainToInsertedRules dirtyInsertAppend set_Rules]. rewrite rulesIn_insert.
    case_decide; [subst; intros _; right; split; [set_solver|done]|by left].
  - intros c'. rewrite E1, E2. cbn [t1 chainToInsertedRules chainToAppendedRules set_Rules]. rewrite rulesIn_insert.
    case_decide; [subst; intros Hn Hx; by apply Hn, Ha|]. apply (to_appended _ (ti_ok _ Hinv)).
Qed.

Lemma AppendRules_inv c rules t : table_inv t → op_ok t (OpAppend c rules) → table_inv (AppendRules c rules t).
Proof.
  intros Hinv (Hc & Hr & Hi). unfold AppendRules. set (t1 := set_Rules _ _ _ _).
  fold (rulesIn (chainToAppendedRules t) c). set (old := rulesIn (chainToAppendedRules t) c).
  destruct (swap_rules t1 rules old) as (E1 & E2 & E3 & E4). apply (grows_inv t); [done|..].
  - apply (swap_grows t t1 _ _ c); [done|done|apply Hinv| |done|done]. intros c'. apply refs_app_le, Hinv.
  - change (refs_exact (AppendRules c rules t)). apply AppendRules_refs, Hinv.
  - intros c'. rewrite E1. apply Hinv.
  - intros c'. rewrite E2. cbn [t1 chainToAppendedRules set_Rules]. rewrite rulesIn_insert. case_decide; [done|apply Hinv].
  - rewrite E3. apply Hinv.
  - intros c'. rewrite E1. by left.
  - intros c'. rewrite E1, E2. cbn [t1 chainToInsertedRules chainToAppendedRules set_Rules]. rewrite rulesIn_insert.
    case_decide; [subst; done|]. apply (to_appended _ (ti_ok _ Hinv)).
Qed.

Lemma mark_dirty name t c : c ∈ dirtyChains (markIfReferred name t) ↔ c ∈ dirtyChains t ∨ c = name ∧ (0 < refCount t name)%Z.
Proof. unfold markIfReferred. case_decide; cbn; set_solver. Qed.

Lemma desired_none t c : refCount t c = 0%Z → desiredStateOfChain t c = None.
Proof. intros H. unfold desiredStateOfChain. by rewrite decide_True. Qed.

(** What an update of a chain does to the table. *)
Lemma UpdateChain_parts chain t : table_inv t → let t' := UpdateChain chain t in let t2 := decrefReferredChains (oldRules t (ch_Name chain)) (increfReferredChains (ch_Rules chain) t) in
  touched (referred (ch_Rules chain) ++ referred (oldRules t (ch_Name chain))) t t2 ∧
  (∀ c, refCount t' c = refCount t2 c) ∧
  (∀ c, c ∈ dirtyChains t' ↔ c ∈ dirtyChains t2 ∨ c = ch_Name chain ∧ (0 < refCount t2 (ch_Name chain))%Z) ∧
  t' = set_Sync (set_Refs (set_Chains t (<[ch_Name chain := chain]> (chainNameToChain t))) (chainRefCounts t') (dirtyChains t')) false.
Proof.
  intros Hinv t' t2. unfold t'. rewrite UpdateChain_eq. fold t2. set (t3 := set_Chains t2 _). split_and!.
  - apply touched_swap; try done; intros c; [apply refs_nonneg, Hinv|apply refs_chain_le, Hinv].
  - intros c. exact (refCount_mark t3 (ch_Name chain) c).
  - intros c. exact (mark_dirty (ch_Name chain) t3 c).
  - assert (refsChanged t t2) as Hch by (eapply refsChanged_trans; [apply increfs_changed|apply decrefs_changed]).
    pose proof (mark_changed (ch_Name chain) t3) as Hm. unfold refsChanged in *. unfold InvalidateDataplaneCache.
    rewrite Hm at 1. unfold t3 at 1. by rewrite Hch at 1.
Qed.

Lemma oldRules_fine t name : table_inv t → Forall (rule_fine (tb_opt t)) (oldRules t name).
Proof.
  intros Hinv. unfold oldRules. destruct (chainNameToChain t !! name) as [ch|] eqn:E; [|done]. by apply (ti_chain _ Hinv) in E as [_ ?].
Qed.

Lemma UpdateChain_inv chain t : table_inv t → chain_fine (tb_opt t) chain → table_inv (UpdateChain chain t).
Proof.
  intros Hinv [Hc Hr]. pose proof (UpdateChain_refs chain t (ti_refs _ Hinv)) as Hrefs.
  destruct (UpdateChain_parts chain t Hinv) as ([G O Z] & Hcount & Hd & E). set (t' := UpdateChain chain t) in *. set (t2 := decrefReferredChains _ _) in *.
  apply (grows_inv t); [done|split|done|rewrite E; apply Hinv|rewrite E; apply Hinv|..].
  - by rewrite E.
  - intros c H. apply Hd. left. by apply G.
  - intros c [H|[-> _]]%Hd; [|by right].
    apply O in H as [?|[H|H]%elem_of_app]; [by left|right; by apply (referred_fine (tb_opt t) (ch_Rules chain))|right; eapply referred_fine; [by apply oldRules_fine|done]].
  - by rewrite E.
  - rewrite E. auto.
  - intros c Hnd. rewrite Hd in Hnd. unfold desiredStateOfChain. rewrite Hcount.
    assert (chainNameToChain t' = <[ch_Name chain := chain]> (chainNameToChain t)) as -> by by rewrite E.
    destruct (decide (c = ch_Name chain)) as [->|Hne]; [|rewrite lookup_insert_ne by done; apply decide_ext; symmetry; apply Z; tauto].
    assert (refCount t2 (ch_Name chain) = 0%Z) as Hz.
    { pose proof (refs_nonneg t' (ch_Name chain) Hrefs) as Hp. rewrite Hcount in Hp. destruct (decide (0 < refCount t2 (ch_Name chain))%Z); [tauto|lia]. }
    rewrite !decide_True; [done|apply Z; tauto|done].
  - rewrite E. intros c ch. cbn. intros [[<- <-]|[_ H]]%lookup_insert_Some; [done|by apply Hinv].
  - rewrite E. by left.
  - rewrite E. apply (to_appended _ (ti_ok _ Hinv)).
Qed.

Lemma invalidate_inv t : table_inv t → table_inv (InvalidateDataplaneCache t).
Proof. intros [Hok ? ? ? ? ? ? ?]. split; [by apply table_ok_sync|done..]. Qed.

Lemma RemoveChainByName_inv name t : table_inv t → table_inv (RemoveChainByName name t).
Proof.
  intros Hinv. pose proof (RemoveChainByName_refs name t (ti_refs _ Hinv)) as Hrefs. unfold RemoveChainByName in *.
  destruct (chainNameToChain t !! name) as [old|] eqn:Eo; [|by apply invalidate_inv].
  set (t1 := set_Chains t _) in *. set (t2 := markIfReferred name t1) in *. set (t' := InvalidateDataplaneCache _) in *.
  destruct (ti_chain _ Hinv name old Eo) as [Hn Hold].
  assert (touched (referred (ch_Rules old)) t2 t') as [G O Z].
  { destruct (touched_decrefs (ch_Rules old) t2); [|by split]. intros c.
    pose proof (refs_chain_le t c name (ti_refs _ Hinv)) as Hle. unfold oldRules in Hle. rewrite Eo in Hle. by rewrite (refCount_mark t1 name c : refCount t2 c = refCount t c). }
  assert (∀ c, refCount t2 c = refCount t c) as Hcount by (intros c; apply (refCount_mark t1 name c)).
  assert (∀ c, c ∈ dirtyChains t2 ↔ c ∈ dirtyChains t ∨ c = name ∧ (0 < refCount t name)%Z) as Hd by (intros c; exact (mark_dirty name t1 c)).
  assert (t' = set_Sync (set_Refs t1 (chainRefCounts t') (dirtyChains t')) false) as E.
  { pose proof (decrefs_changed (ch_Rules old) t2) as H1. pose proof (mark_changed name t1) as H2. unfold refsChanged in *. unfold t', InvalidateDataplaneCache.
    rewrite H1 at 1. unfold t2 at 1. by rewrite H2 at 1. }
  apply (grows_inv t); [done|split|done|rewrite E; apply Hinv|rewrite E; apply Hinv|..].
  - by rewrite E.
  - intros c H. apply G, Hd. by left.
  - intros c [[?|[-> _]]%Hd|H]%O; [by left|by right|right; by apply (referred_fine (tb_opt t) (ch_Rules old))].
  - by rewrite E.
  - rewrite E. auto.
  - intros c Hnd. unfold desiredStateOfChain. assert (chainNameToChain t' = delete name (chainNameToChain t)) as -> by by rewrite E.
    assert (refCount t c = 0%Z ↔ refCount t' c = 0%Z) as Hz by (rewrite <- Hcount; by apply Z).
    destruct (decide (c = name)) as [->|Hne]; [|rewrite lookup_delete_ne by done; by apply decide_ext].
    rewrite lookup_delete_eq. assert (refCount t name = 0%Z) as Hz0.
    { pose proof (refs_nonneg t name (ti_refs _ Hinv)). destruct (decide (0 < refCount t name)%Z); [|lia]. destruct Hnd. apply G, Hd. by right. }
    rewrite (decide_True (P := refCount t name = 0%Z)) by done. by case_decide.
  - rewrite E. intros c ch. cbn. intros [_ H]%lookup_delete_Some. by apply Hinv.
  - rewrite E. by left.
  - rewrite E. apply (to_appended _ (ti_ok _ Hinv)).
Qed.

Lemma operations_keep t op : op_ok t op → table_inv t → table_inv (runOp t op).
Proof.
  destruct op as [c rules|c rules|chain|chains|name|chains|]; cbn [runOp op_ok]; intros Hop Hinv.
  - by apply InsertOrAppendRules_inv.
  - by apply AppendRules_inv.
  - by apply UpdateChain_inv.
  - unfold UpdateChains. revert t Hinv Hop. induction chains as [|ch chains IH]; intros t Hinv Hop; [done|]. apply Forall_cons in Hop as [Hch Hop].
    cbn [foldl]. apply IH; [by apply UpdateChain_inv|]. destruct (UpdateChain_parts ch t Hinv) as (_ & _ & _ & E). by rewrite E.
  - by apply RemoveChainByName_inv.
  - unfold RemoveChains. revert t Hinv. induction chains as [|ch chains IH]; intros t Hinv; [done|]. apply IH. by apply RemoveChainByName_inv.
  - by apply invalidate_inv.
Qed.

(** ** New tables *)

(** The names and the prefixes of the agent's chains do not match the chains of the
    kernel. *)
Definition setup_ok (t : Table) : Prop :=
  tb_Name t ≠ "" ∧ (newline ∉ chars (tb_Name t)) ∧ prefix_ok (hashCommentPrefix t) ∧
  ∀ c, c ∈ tableToKernelChains (tb_Name t) → own c = false ∧ isOurChain t c = false.

Lemma kernelChains_plain name c : c ∈ tableToKernelChains name → plainName c.
Proof.
  intros Hc. assert (c ∈ ["INPUT"; "FORWARD"; "OUTPUT"; "PREROUTING"; "POSTROUTING"]) as Hin.
  { unfold tableToKernelChains in Hc. repeat case_decide; set_solver. }
  rewrite !elem_of_cons, elem_of_nil in Hin. destruct Hin as [->|[->|[->|[->|[->|[]]]]]]; (split; [done|]); apply (bool_decide_unpack _); vm_compute; exact I.
Qed.

Lemma NewTable_inv name v prefix opt now t : NewTable name v prefix opt now = Ret t → setup_ok t → table_inv t.
Proof.
  intros HN (Hn & Hnl & Hp & Hk). pose proof (NewTable_refs _ _ _ _ _ _ HN) as Hrefs. unfold NewTable in HN. inv_ret.
  assert (∀ c, rulesIn (list_to_map ((λ c, (c, [])) <$> tableToKernelChains name)) c = []) as Hnil.
  { intros c. unfold rulesIn. destruct (list_to_map _ !! c) eqn:E; [|done]. apply elem_of_list_to_map_2, list_elem_of_fmap in E as (? & [= -> ->] & _). done. }
  set (t := mkTable _ _ _ _ _ _ _ _ _ _ _ _ _ _ _ _) in *.
  assert (∀ c, rulesIn (chainToInsertedRules t) c = [] ∧ rulesIn (chainToAppendedRules t) c = []) as Hrules by (intros c; split; apply Hnil).
  assert (∀ c, c ∈ dirtyInsertAppend t → c ∈ tableToKernelChains name) as Hia by (intros c Hc; by apply elem_of_list_to_set in Hc).
  split; [split; [split|..]|..]; try done.
  - unfold mode_ok. cbn. repeat case_decide; inv_ret; auto.
  - cbn. destruct (decide (InitialPostWriteInterval opt <= minPostWriteInterval)%Z); unfold minPostWriteInterval, millisecond in *; lia.
  - intros c. unfold hook_ok. destruct (Hrules c) as [-> ->]. by split.
  - intros c Hc%Hia. split; [by eapply kernelChains_plain|by apply Hk].
  - intros c _ _. unfold desiredHashes, desiredStateOfChain. by destruct (decide (refCount t c = 0%Z)).
  - intros c Hc. by destruct (Hrules c) as [? _].
  - intros c [? Hc]. done.
  - intros c Hc%Hia. by apply Hk.
  - intros c Hc. by destruct (Hrules c) as [? _].
  - intros c. by destruct (Hrules c) as [-> _].
  - intros c. by destruct (Hrules c) as [_ ->].
Qed.
End invariant.

(** ** Reachable states *)

(** The name of a table is its own. *)
Lemma name_increfs rules t : tb_Name (increfReferredChains rules t) = tb_Name t.
Proof. by destruct (refsChanged_rules _ _ (increfs_changed rules t)) as (_ & _ & ?). Qed.
Lemma name_decrefs rules t : tb_Name (decrefReferredChains rules t) = tb_Name t.
Proof. by destruct (refsChanged_rules _ _ (decrefs_changed rules t)) as (_ & _ & ?). Qed.
Lemma name_mark c t : tb_Name (markIfReferred c t) = tb_Name t.
Proof. by destruct (refsChanged_rules _ _ (mark_changed c t)) as (_ & _ & ?). Qed.
Create Rewrite HintDb table_name.
#[local] Hint Rewrite name_increfs name_decrefs name_mark : table_name.

Lemma runOp_name t op : tb_Name (runOp t op) = tb_Name t.
Proof.
  assert (∀ c t, tb_Name (UpdateChain c t) = tb_Name t) as Hu by (intros c t'; rewrite UpdateChain_eq; cbn; autorewrite with table_name; by cbn; autorewrite with table_name).
  assert (∀ n t, tb_Name (RemoveChainByName n t) = tb_Name t) as Hr
    by (intros n t'; unfold RemoveChainByName; destruct (chainNameToChain t' !! n); [cbn; by autorewrite with table_name|done]).
  destruct op as [c rules|c rules|chain|chains|n|chains|]; cbn [runOp]; try done.
  - cbn. by autorewrite with table_name.
  - cbn. by autorewrite with table_name.
  - unfold UpdateChains. revert t. induction chains as [|ch chains IH]; intros t; [done|]. cbn [foldl]. by rewrite IH.
  - unfold RemoveChains. revert t. induction chains as [|ch chains IH]; intros t; [done|]. cbn [foldl]. by rewrite IH.
Qed.

Section reach.
Context {W : Type} `{IT : !Iptables W} `{KT : !KernelText} (name : string) `{IL : !IptablesLaws W name} (own : string → bool).

(** A table is made; the agent changes what it wants or applies it; other
    programs do what they like with the kernel's table.  [Apply] may fail at will
    where the prefixes cover the agent's own chains. *)
Inductive reach : Table * W → Prop :=
| reach_new v prefix opt now t w : NewTable name v prefix opt now = Ret t → setup_ok own t → kernel_wf (kt w) → reach (t, w)
| reach_op t w op : reach (t, w) → op_ok own t op → reach (runOp t op, w)
| reach_apply ords fuel t w : reach (t, w) → inSyncWithDataPlane t = false → applyFuel <= fuel →
    is_ret (Apply ords fuel (t, w)).2 = true ∨ (∀ c, own c = true → isOurChain t c = true) → reach (Apply ords fuel (t, w)).1
| reach_others t w w' : reach (t, w) → kernel_wf (kt w') → reach (t, w').

(** What [Apply] does from a table that can be trusted. *)
Lemma Apply_outcome ords fuel t w : table_ok t → tb_Name t = name → kernel_wf (kt w) → inSyncWithDataPlane t = false → applyFuel <= fuel →
  match (Apply ords fuel (t, w)).2 with
  | Ret _ => settled t (kt w) (Apply ords fuel (t, w)).1
  | _ => failed t (kt w) (Apply ords fuel (t, w)).1
  end.
Proof.
  intros Hok Hn Hk Hs Hf. apply (tri_Apply ords t (kt w) fuel Hf (t, w)). split; [|done]. split_and!; [done|done|]. by split; auto.
Qed.

(** What is wanted carries the invariant over. *)
Lemma wants_inv t t' : table_inv own t → wants t' = wants t → table_ok t' →
  (∀ c, c ∈ dirtyChains t' → own c = true ∨ isOurChain t c = true) → (∀ c, c ∈ dirtyInsertAppend t' → own c = false) → table_inv own t'.
Proof.
  intros [Hok Hr Hd Hh Hn Hi Ha Hc] Hw Hok' Hd' Hh'. destruct t as [o1 n1 v1 i1 a1 di1 ch1 r1 d1 s1 h1 f1 p1 x1 y1 z1], t'.
  unfold wants in Hw. cbn in Hw. injection Hw as -> -> -> -> -> -> ->. by split.
Qed.

Lemma reach_inv s : reach s → table_inv own s.1 ∧ kernel_wf (kt s.2) ∧ tb_Name s.1 = name.
Proof.
  induction 1 as [v prefix opt now t w HN Hs Hk|t w op _ (Hi & Hk & Hn) Hop|ords fuel t w _ (Hi & Hk & Hn) Hs Hf Hown|t w w' _ (Hi & Hk & Hn) Hk']; cbn [fst snd] in *.
  - split_and!; [by eapply NewTable_inv|done|]. unfold NewTable in HN. by inv_ret.
  - split_and!; [|done|by rewrite runOp_name]. revert Hop Hi. by apply operations_keep.
  - pose proof (Apply_outcome ords fuel t w (ti_ok _ _ Hi) Hn Hk Hs Hf) as Ho. destruct (Apply ords fuel (t, w)) as [[t' w'] o]. cbn [fst snd] in *.
    assert (settled t (kt w) (t', w') ∨ failed t (kt w) (t', w') ∧ ∀ c, own c = true → isOurChain t c = true)
      as [(Hok & Hwf & Hw & Hd & Hia & _)|[[(Hok & Hwf & [Hw Hn' Hd _ _]) _] Hour]] by (destruct o; naive_solver); cbn [fst snd] in *.
    + split_and!; [|done|by destruct (wants_facts _ _ Hw) as (_ & -> & _)]. apply (wants_inv t); [done..| |]; [rewrite Hd|rewrite Hia]; by intros c ?%elem_of_empty.
    + split_and!; [|done|done]. apply (wants_inv t); [done..| |].
      * intros c Hc. apply Hd in Hc as [Hc|Hc]; [by apply Hi|by right].
      * intros c Hc. apply not_true_is_false. intros Ht%Hour. destruct (tw_hooks _ (to_wf _ Hok) c Hc) as [_ Hno].
        destruct (wants_facts _ _ Hw) as (_ & _ & _ & Ho' & _). rewrite Ho' in Hno. congruence.
  - done.
Qed.

(** C11. In every state that can be reached ([reach]: by changes of what is wanted, by Applies
    that read the table again and return without an error or, where the prefixes cover the
    agent's own chains, fail at any call, and by whatever other programs do to the kernel's table) the
    invariant of the table holds: its counts are exact, a chain under the prefixes that is not dirty is
    remembered as it is wanted, a chain with inserted rules is dirty or remembered, and the
    agent's chains and shared chains are kept apart. *)
Theorem tables_stay_consistent s : reach s → table_inv own s.1.
Proof. intros H. by apply reach_inv. Qed.

(** C9. From a reachable state of a table that is to be read again: when [Apply] returns
    without an error, after whatever calls failed within it, the kernel's
    table is what the agent wants: chains under its prefixes, and in legacy mode
    all the chains that were dirty, carry the hashes of exactly the rules
    desired and are gone when they are not wanted; every chain of others has the
    inserted rules in front (or behind, in append mode), then the rules of others,
    then the appended ones.  Nothing is said of chains outside the prefixes in nft mode,
    where a retry can empty them ([IptablesStore.retry_empties_agent_chain]). *)
Theorem apply_brings_kernel_in_line ords fuel t w t' w' d :
  reach (t, w) → inSyncWithDataPlane t = false → applyFuel <= fuel → Apply ords fuel (t, w) = ((t', w'), Ret d) → ∀ c,
  (isOurChain t c = true ∨ c ∈ dirtyChains t ∧ nftablesMode (tb_opt t) = false → hashesIn (hashCommentPrefix t) c <$> kt w' !! c = desiredHashes t c) ∧
  (isOurChain t c = false → own c = false → hookRight t c (kt w' !! c)).
Proof.
  intros Hr Hs Hf E c. destruct (reach_inv _ Hr) as (Hi & Hk & Hn). pose proof (Apply_outcome ords fuel t w (ti_ok _ _ Hi) Hn Hk Hs Hf) as Ho.
  rewrite E in Ho. destruct Ho as (_ & _ & _ & _ & _ & [Hours Hhooks] & _). split.
  - intros Hc. apply Hours. destruct Hc as [?|[? ?]]; auto.
  - intros Hc Hown. apply Hhooks; [done|]. intros Hd. destruct (ti_dirty _ _ Hi c Hd); cbn [fst] in *; congruence.
Qed.

(** When the two programs work and the hooks exist, [Apply] returns at the
    first attempt with the dirty chains and the agent's chains as desired, and no
    rule of another program is lost, changed or moved past another one; this asks nothing of
    the prefixes of the agent's chains.  That a program works ([ca_restore]) includes that
    it accepts jumps and deletions of chains wherever [execLine] does: that the chains jumped to
    exist and the deleted ones are not referred to is taken for granted here. *)
Lemma apply_succeeds_when_calm ords fuel t w :
  table_ok t → tb_Name t = name → kernel_wf (kt w) → inSyncWithDataPlane t = false → applyFuel <= fuel → calm t (kt w) →
  ∃ t' w' d, Apply ords fuel (t, w) = ((t', w'), Ret d) ∧ wants t' = wants t ∧
    synced t (λ c, c ∈ dirtyChains t) (λ c, c ∈ dirtyChains t) (kt w') ∧ foreignKept t (λ c, c ∈ dirtyChains t) (kt w) (kt w').
Proof.
  intros Hok Hn Hk Hs Hf Hcalm. pose proof (Apply_outcome ords fuel t w Hok Hn Hk Hs Hf) as Ho.
  destruct (Apply ords fuel (t, w)) as [[t' w'] [d|e|p|]]; cbn [fst snd] in Ho; [|by destruct Ho as [_ []]..].
  destruct Ho as (_ & _ & Hw & _ & _ & [Hours Hhooks] & Hkept). exists t', w', d. split_and!; [done|done| |by apply Hkept].
  split; [|done]. intros c [?|?]; apply Hours; auto.
Qed.
End reach.
