(* ===== verification/IptablesFrame.v ===== *)
(** * What applying a table leaves alone

    [Apply] reads and writes only the kernel's table of its name: whatever the calls for
    that table leave alone, it leaves alone, however it ends. *)

From S2P Require Import Prelude GoStd GoNet GoFmt Sha1 Sha224 ApiServer IptablesRule IptablesTable IptablesKernel IptablesText Triple IptablesApply.
Open Scope nat_scope.

(** ** The input opens the table *)

(** Nothing is written, or the first line opens the table; an open transaction is one
    of the table. *)
Definition opens (name : string) (b : RestoreInputBuilder) : Prop :=
  (rb_lines b = [] ∨ ∃ ls, rb_lines b = ("*" +:+ name) :: ls) ∧ (rb_currentTableName b = "" ∨ rb_currentTableName b = name) ∧
  (rb_txnOpenerWritten b = true → rb_lines b ≠ []).

Lemma opens_write name line b b' : opens name b → WriteLine line b = Ret b' → opens name b'.
Proof.
  intros (Hl & Ht & Ho). unfold WriteLine, maybeWriteTransactionOpener. destruct (decide (rb_currentTableName b = "")) as [|Hn]; [done|].
  destruct Ht as [?|Hname]; [done|]. destruct (rb_txnOpenerWritten b) eqn:Ew; cbn; intros [= <-]; split_and!; cbn; rewrite ?Hname; auto.
  - destruct Hl as [Hl|[ls ->]]; [by destruct (Ho eq_refl)|]. right. by eexists.
  - intros _. by destruct (rb_lines b).
  - destruct Hl as [->|[ls ->]]; right; by eexists.
  - intros _. by destruct (rb_lines b).
Qed.
Lemma opens_oforeach {A} name (f : A → RestoreInputBuilder → outcome RestoreInputBuilder) l b b' :
  (∀ x b b', opens name b → f x b = Ret b' → opens name b') → opens name b → oforeach f l b = Ret b' → opens name b'.
Proof. intros Hf. revert b. induction l as [|x l IH]; intros b Hb; cbn [oforeach]; intros H; inv_ret; eauto. Qed.
Lemma opens_writeLines name lines b b' : opens name b → writeLines lines b = Ret b' → opens name b'.
Proof. apply opens_oforeach. intros x b1 b2. apply opens_write. Qed.
Lemma opens_writeForward name cs b b' : opens name b → writeForward cs b = Ret b' → opens name b'.
Proof. apply opens_oforeach. intros x b1 b2. apply (opens_write name (forwardLine x)). Qed.
Lemma opens_start name b b' : opens name b → StartTransaction name b = Ret b' → opens name b'.
Proof. intros (Hl & _ & _). unfold StartTransaction. case_decide; [done|]. intros [= <-]. by split_and!; cbn; auto. Qed.
Lemma opens_end name b b' : opens name b → EndTransaction b = Ret b' → opens name b'.
Proof.
  intros (Hl & Ht & Ho). unfold EndTransaction. case_decide; [done|]. intros [= <-]. destruct (rb_txnOpenerWritten b) eqn:Ew; cbn; split_and!; cbn; auto.
  - destruct Hl as [Hl|[ls ->]]; [by destruct (Ho eq_refl)|]. right. by eexists.
  - intros _. by destruct (rb_lines b).
  - by rewrite Ew.
Qed.

Lemma opens_buildUpdates ords t b u : buildUpdates ords t = Ret (b, u) → opens (tb_Name t) b.
Proof.
  unfold buildUpdates. intros H. inv_ret. assert (opens (tb_Name t) emptyBuilder) as H0 by by split_and!; cbn; auto.
  eapply opens_end; [|eassumption].
  assert (opens (tb_Name t) a3) as H3.
  { eapply opens_writeLines; [|eassumption]. eapply opens_writeLines; [|eassumption]. eapply opens_writeForward; [|eassumption]. by eapply opens_start. }
  eapply opens_writeLines; [|eassumption]. destruct (nftablesMode (tb_opt t)); inv_ret; [|done].
  eapply opens_writeForward; [|eassumption]. eapply opens_start; [|eassumption]. by eapply opens_end.
Qed.


Lemma linesOf_head name ls : newline ∉ chars name → head (linesOf (bytesOfLines (("*" +:+ name) :: ls))) = Some ("*" +:+ name).
Proof.
  intros Hn. unfold linesOf, bytesOfLines. cbn [mbind list_bind]. rewrite <- app_assoc. cbn [app]. rewrite splitOn_app.
  - destruct (splitOn newline _) eqn:E; [by apply splitOn_nonnil in E|]. cbn. by rewrite unchars_chars.
  - rewrite chars_app. apply not_elem_of_app. split; [|done]. apply (bool_decide_unpack _). vm_compute. exact I.
Qed.

(** ** The frame *)

Lemma compareDataplane_fixed ords dp t : let t' := compareDataplane ords dp t in
  tb_Name t' = tb_Name t ∧ tb_IPVersion t' = tb_IPVersion t ∧ tb_opt t' = tb_opt t.
Proof.
  assert (∀ (f : Table → string → bool * bool) cs t, let t' := foldl (λ t c, markDirty c (f t c) t) t cs in
    tb_Name t' = tb_Name t ∧ tb_IPVersion t' = tb_IPVersion t ∧ tb_opt t' = tb_opt t) as H.
  { intros f cs. induction cs as [|c cs IH]; intros t0; cbn [foldl]; [done|]. destruct (IH (markDirty c (f t0 c) t0)) as (-> & -> & ->). done. }
  unfold compareDataplane. cbv zeta.
  destruct (H (λ t c, checkFound t c (default [] (dp !! c))) (iter ords 1 (dom dp))
    (foldl (λ t c, markDirty c (checkExpected t dp c (default [] (chainToDataplaneHashes t !! c))) t) t (iter ords 0 (dom (chainToDataplaneHashes t))))) as (-> & -> & ->).
  apply (H (λ t c, checkExpected t dp c (default [] (chainToDataplaneHashes t !! c)))).
Qed.
Lemma postWriteLoop_fixed fuel now t t' : postWriteLoop fuel now t = Ret t' → tb_Name t' = tb_Name t ∧ tb_IPVersion t' = tb_IPVersion t ∧ tb_opt t' = tb_opt t.
Proof.
  revert t. induction fuel as [|fuel IH]; intros t; cbn [postWriteLoop]; case_decide; intros Hr; try discriminate; try (by injection Hr as <-). by apply IH in Hr.
Qed.

Section frame.
Context {W : Type} `{IT : !Iptables W} (ords : nat → MapOrder) (name : string) (version : nat) (I : W → Prop).
Context (Hsave : ∀ w, I w → I (ipSave name w).1)
  (Hrestore : ∀ input w, (newline ∉ chars name → head (linesOf input) = Some ("*" +:+ name)) → I w → I (ipRestore input w).1)
  (Hnow : ∀ w, I w → I (ipNow w).1).

Definition framed (s : Table * W) : Prop := (tb_Name s.1 = name ∧ tb_IPVersion s.1 = version) ∧ I s.2.

(** Calls for the table of this name. *)
Lemma tri_framed {A} (c : Table → M W A) t : (∀ w, tb_Name t = name → I w → I (c t w).1) →
  tri (λ s, framed s ∧ s.1 = t) (tcall (c t)) (λ _ s, framed s ∧ s.1 = t) framed.
Proof. intros Hc. apply tri_tcall. intros t' w [[[Hn Hv] Hi] Ht]. cbn in *. subst t'. pose proof (Hc w Hn Hi). by destruct (c t w) as [w' [a|e|p|]]. Qed.
(** A table of the same name takes the place. *)
Lemma tri_putFramed t t' : (tb_Name t' = tb_Name t ∧ tb_IPVersion t' = tb_IPVersion t ∧ tb_opt t' = tb_opt t) →
  tri (λ s, framed s ∧ s.1 = t) (putT t') (λ _ s, framed s ∧ s.1 = t') framed.
Proof. intros (E1 & E2 & _). apply tri_putT. intros [t0 w] [[[Hn Hv] Hi] Ht]. cbn in *. subst t0. split; [split; [split|]|]; cbn; congruence || done. Qed.
Lemma tri_forget {A} (c : M (Table * W) A) t : tri framed c (λ _, framed) framed → tri (λ s, framed s ∧ s.1 = t) c (λ _, framed) framed.
Proof. intros H. eapply tri_pre; [|exact H]. by intros s [? _]. Qed.

Lemma tri_attemptToGet_frame : tri framed attemptToGetHashesAndRulesFromDataplane (λ _, framed) framed.
Proof.
  unfold attemptToGetHashesAndRulesFromDataplane. apply tri_getT. intros t. eapply tri_bind; [apply (tri_framed (λ t, ipSave (tb_Name t))); intros w ->; apply Hsave|].
  intros lines. apply tri_lift. intros s [Hs _]. by destruct (readHashesAndRulesFrom t lines).
Qed.
Lemma tri_getHashes_frame n : tri framed (getHashesAndRulesFromDataplane n) (λ _, framed) framed.
Proof.
  induction n as [|n IH]; cbn [getHashesAndRulesFromDataplane]; (eapply tri_bind; [eapply tri_attempt, tri_attemptToGet_frame|]); intros [r|e];
    [by apply tri_ret|by apply tri_lift|by apply tri_ret|done].
Qed.
Lemma tri_load_frame : tri framed (loadDataplaneState ords) (λ _, framed) framed.
Proof.
  unfold loadDataplaneState. apply tri_getT. intros t. eapply tri_bind; [apply (tri_framed (λ _, ipNow)); intros w _; apply Hnow|]. intros now.
  eapply tri_bind; [by apply tri_putFramed|]. intros []. eapply tri_bind; [apply tri_forget, tri_getHashes_frame|]. intros [hashes rules].
  apply tri_getT. intros t1. eapply tri_post; [apply tri_putFramed; apply (compareDataplane_fixed ords hashes t1)|by intros ? s [? _]|done].
Qed.

Lemma tri_applyUpdates_frame : tri framed (applyUpdates ords) (λ _, framed) framed.
Proof.
  unfold applyUpdates. apply tri_getT. intros t. destruct (buildUpdates ords t) as [[b u]|e|p|] eqn:Hb.
  - eapply (tri_bind _ _ _ (λ x s, (framed s ∧ s.1 = t) ∧ x = inl (b, u))); [by intros s Hs|]. intros x. apply tri_extract. intros ->.
    eapply tri_bind; [by apply tri_putFramed|]. intros []. set (t1 := set_Dirty t _ _).
    apply (tri_bind _ _ _ (λ _, framed)); [|intros []; apply tri_getT; intros t2; eapply tri_post; [by apply tri_putFramed|by intros ? s [? _]|done]].
    destruct (BufEmpty b) eqn:Hbuf; [apply tri_ret; by intros s [? _]|].
    destruct (opens_buildUpdates ords t b u Hb) as ([Hl|[ls Hl]] & _ & _).
    { unfold BufEmpty in Hbuf. by rewrite bool_decide_eq_true_2 in Hbuf. }
    eapply (tri_bind _ _ _ (λ x s, (framed s ∧ s.1 = t1) ∧ x.1 = bytesOfLines (rb_lines b))).
    { apply tri_lift. intros s Hs. unfold GetBytesAndReset. case_decide; [by destruct Hs|done]. }
    intros [input b']. apply tri_extract. cbn [fst]. intros ->.
    eapply tri_bind; [eapply tri_attempt, (tri_framed (λ t, ipRestore (bytesOfLines (rb_lines b))))|].
    { intros w Hn. apply Hrestore. intros Hname. rewrite Hl. replace (tb_Name t) with name by by rewrite <- Hn. by apply linesOf_head. }
    intros [[]|err].
    + apply tri_getT. intros t2. eapply tri_bind; [eapply tri_pre; [|apply (tri_framed (λ _, ipNow) t2); intros w _; apply Hnow]|].
      * by intros s [[? _] ?].
      * intros now. eapply tri_post; [by apply tri_putFramed|by intros ? s [? _]|done].
    + apply tri_getT. intros t2. apply (tri_bind _ _ _ (λ _, framed)); [eapply tri_post; [by apply tri_putFramed|by intros ? s [? _]|done]|]. intros []. by apply tri_err.
  - eapply (tri_bind _ _ _ (λ x s, (framed s ∧ s.1 = t) ∧ x = inr e)); [by intros s Hs|]. intros x. apply tri_extract. intros ->.
    eapply tri_bind; [by apply tri_putFramed|]. intros []. apply tri_err. by intros s [? _].
  - eapply (tri_bind _ _ _ (λ _ _, False)); [by intros s [? _]|]. by intros ? s [].
  - eapply (tri_bind _ _ _ (λ _ _, False)); [by intros s [? _]|]. by intros ? s [].
Qed.

Lemma tri_applyLoop_frame n : tri framed (applyLoop ords n) (λ _, framed) framed.
Proof.
  induction n as [|n IH]; cbn [applyLoop]; apply tri_getT; intros t.
  all: eapply (tri_bind _ _ _ (λ _, framed)); [destruct (inSyncWithDataPlane t); [apply tri_ret; by intros s [? _]|apply tri_forget, tri_load_frame]|]; intros [].
  all: eapply tri_bind; [eapply tri_attempt, tri_applyUpdates_frame|]; intros [[]|e]; [by apply tri_ret|].
  - apply tri_getT. intros t1. eapply (tri_bind _ _ _ (λ _, framed)); [|intros ?; by apply tri_err].
    eapply tri_post; [eapply tri_attempt, (tri_framed (λ t, ipSave (tb_Name t))); intros w ->; apply Hsave| |done]. by intros [] s; [intros [? _]|].
  - done.
Qed.

Lemma tri_Apply_frame fuel : tri framed (Apply ords fuel) (λ _, framed) framed.
Proof.
  unfold Apply. apply tri_here. intros [t w] Hs.
  apply (tri_bind _ _ _ (λ _ s, framed s ∧ s.1 = t)); [eapply tri_pre; [|apply (tri_framed (λ _, ipNow) t); intros w' _; apply Hnow]; by intros s ->|]. intros now.
  apply tri_getT. intros t0. set (t1 := if decide _ then _ else t0).
  assert (tb_Name t1 = tb_Name t0 ∧ tb_IPVersion t1 = tb_IPVersion t0 ∧ tb_opt t1 = tb_opt t0) as E1 by (unfold t1; by case_decide).
  apply (tri_bind _ _ _ (λ t2 s, (framed s ∧ s.1 = t0) ∧ tb_Name t2 = tb_Name t0 ∧ tb_IPVersion t2 = tb_IPVersion t0 ∧ tb_opt t2 = tb_opt t0)).
  { apply tri_lift. intros s [[Hf _] Ht]. destruct (postWriteLoop fuel now t1) as [t2|e|p|] eqn:Ep; [|done..]. apply postWriteLoop_fixed in Ep as (-> & -> & ->). by split. }
  intros t2. apply tri_extract. intros E2. eapply tri_bind; [by apply tri_putFramed|]. intros []. eapply tri_bind; [apply tri_forget, tri_applyLoop_frame|]. intros [].
  apply tri_getT. intros t3. apply tri_ret. by intros s [? _].
Qed.
End frame.
