(* ===== verification/IptablesStore.v ===== *)
(** * A kernel to run tables against

    An executable instance of [IptablesLaws]: one table of the kernel, a clock
    and a script of failing calls. *)

From S2P Require Import Prelude GoStd GoNet GoFmt Sha1 Sha224 ApiServer IptablesRule IptablesTable IptablesKernel IptablesText IptablesWrite IptablesRead IptablesUpdate Triple IptablesLoad IptablesApply IptablesRefs IptablesTheorems.
Open Scope nat_scope.

Record KStore := mkKStore { ks_table : gmap string (list string); ks_now : Z; ks_script : list bool }.

Definition kcall {A} (f : KStore → KStore * outcome A) : M KStore A := λ w,
  match ks_script w with
  | true :: l => (mkKStore (ks_table w) (ks_now w) l, Err (ErrNew "exit status 1"))
  | false :: l => f (mkKStore (ks_table w) (ks_now w) l)
  | [] => f w
  end.

(** Rules are printed as they were written. *)
#[export] Instance plain_text : KernelText := { norm x := x; norm_norm _ := eq_refl; norm_hash _ _ _ := eq_refl; norm_like _ H := H }.

Definition saveLines (name : string) (k : gmap string (list string)) : list string :=
  ["*" +:+ name] ++ ((λ c, ":" +:+ c +:+ " - [0:0]") <$> elements (dom k)) ++
  (elements (dom k) ≫= λ c, ruleLine c <$> default [] (k !! c)) ++ ["COMMIT"].

#[export] Instance kstore_iptables : Iptables KStore := {
  ipSave name := kcall (λ w, (w, Ret (saveLines name (ks_table w))));
  ipRestore input := kcall (λ w,
    match execInput "mangle" (linesOf input) false (ks_table w) with
    | Some k => (mkKStore k (ks_now w) (ks_script w), Ret tt)
    | None => (w, Err (ErrNew "iptables-restore: line failed"))
    end);
  ipNow := λ w, (w, Ret (ks_now w))
}.

(** ** The laws *)

Lemma saveLines_listing name k : listing k (saveLines name k).
Proof.
  split.
  - rewrite Forall_forall. intros l Hl. unfold saveLines in Hl. rewrite !elem_of_app in Hl.
    assert (∀ a r, chars l = a :: r → a ≠ "#"%char → nftError (chars l) = false) as Hne
      by (intros a r -> Ha; unfold nftError; cbn [stripPrefix chars]; by rewrite decide_False by congruence).
    destruct Hl as [[->|[]%elem_of_nil]%elem_of_cons|[(c & -> & _)%list_elem_of_fmap|[(c & Hin & _)%list_elem_of_bind|[->|[]%elem_of_nil]%elem_of_cons]]].
    + eapply Hne; [by rewrite chars_app|done].
    + eapply Hne; [by rewrite chars_app|done].
    + apply list_elem_of_fmap in Hin as (x & -> & _). eapply Hne; [unfold ruleLine; by rewrite chars_app|done].
    + by eapply Hne.
  - exists (elements (dom k)), (λ _, "- [0:0]"). split; [done|]. unfold saveLines. rewrite !filter_app.
    assert (∀ ls, Forall relevant ls → filter relevant ls = ls) as Hall by (induction 1; [done|rewrite filter_cons_True by done; by f_equal]).
    rewrite (Hall ((λ c, ":" +:+ c +:+ " - [0:0]") <$> elements (dom k))), (Hall (elements (dom k) ≫= _)).
    + rewrite filter_cons_False by (unfold relevant; rewrite chars_app; by intros []). rewrite filter_nil. cbn [app].
      rewrite (filter_cons_False relevant "COMMIT") by (by intros []). rewrite filter_nil, app_nil_r. done.
    + rewrite Forall_bind. apply Forall_true. intros c. apply Forall_fmap, Forall_true. intros x. unfold compose, relevant, ruleLine. by rewrite chars_app.
    + rewrite Forall_fmap. apply Forall_true. intros c. unfold compose, relevant. by rewrite chars_app.
Qed.

#[export] Program Instance kstore_laws : IptablesLaws KStore "mangle" := {| kt := ks_table |}.
Next Obligation.
  intros [k z [|[] script]] Hwf; cbn; (split; [done|]); [|done|]; (split; [done|apply saveLines_listing]).
Qed.
Next Obligation.
  intros input [k z [|[] script]] Hwf; cbn; [|done|]; by destruct (execInput "mangle" (linesOf input) false k) eqn:E.
Qed.
Next Obligation. done. Qed.

(** ** A run *)

Definition listedOrder : MapOrder := {| map_order l := l; map_order_perm l := reflexivity l |}.
Definition ords0 : nat → MapOrder := λ _, listedOrder.

Definition opt0 : Options := mkOptions ["egw-"] "insert" 0 0 false false false.
Definition ruleA : Rule := mkRule ["-m mark --mark 0x26/0xff"] (Some (SetMarkAction 0x10)) ["a rule"].
Definition jumpTo (chain : string) : Rule := mkRule [] (Some (JumpAction chain)) [].
Definition table0 : Table := match NewTable "mangle" 4 "egw:" opt0 0 with Ret t => t | _ => mkTable opt0 "" 0 ∅ ∅ ∅ ∅ ∅ ∅ false ∅ ∅ "" 0 0 0 end.
Definition ops0 : list tableOp := [OpUpdate (mkChain "egw-mark" [ruleA]); OpInsert "PREROUTING" [jumpTo "egw-mark"]].
Definition table1 : Table := foldl runOp table0 ops0.
Definition kernel0 : gmap string (list string) :=
  <["PREROUTING" := ["-j KUBE"]]> (<["INPUT" := []]> (<["FORWARD" := []]> (<["OUTPUT" := []]> (<["POSTROUTING" := []]> (<["egw-old" := ["-j ACCEPT"]]> ∅))))).
Definition world0 : KStore := mkKStore kernel0 100 [].
(** The second call fails. *)
Definition world1 : KStore := mkKStore kernel0 100 [false; true].

(** ** Its hypotheses hold *)

Definition plainb (c : string) : bool := bool_decide (c ≠ "") && forallb nonSpace (chars c).
Lemma plainb_sound c : plainb c = true → plainName c.
Proof. unfold plainb. rewrite andb_true_iff, bool_decide_eq_true. intros [? H]. split; [done|]. rewrite Forall_forall. intros a Ha. rewrite List.forallb_forall in H. by apply H, list_elem_of_In. Qed.

Definition likeb (x : string) : bool := match chars x with a :: _ => bool_decide (a = "-"%char ∨ a = "!"%char) | [] => false end && bool_decide (newline ∉ chars x).
Lemma likeb_sound x : likeb x = true → ruleLike x.
Proof.
  unfold likeb. rewrite andb_true_iff, bool_decide_eq_true. intros [H ?]. split; [|done]. destruct (chars x) as [|a l]; [done|].
  apply bool_decide_eq_true in H. by exists a, l.
Qed.

Definition own0 (c : string) : bool := isOurChain table0 c.
Lemma kernel0_wf : kernel_wf kernel0.
Proof.
  unfold kernel0. repeat (apply kernel_wf_insert; [|by apply plainb_sound|]).
  - split; intros c xs; [by intros ?|by intros x ?].
  - intros x [->|[]%elem_of_nil]%elem_of_cons. split; [done|by apply likeb_sound].
  - by intros x ?%elem_of_nil.
  - by intros x ?%elem_of_nil.
  - by intros x ?%elem_of_nil.
  - by intros x ?%elem_of_nil.
  - intros x [->|[]%elem_of_nil]%elem_of_cons. split; [done|by apply likeb_sound].
Qed.

Lemma setup0 : setup_ok own0 table0.
Proof.
  split_and!; [done|apply (bool_decide_unpack _); vm_compute; exact I|split; [|apply (bool_decide_unpack _); vm_compute; exact I]|].
  - by eexists _, _.
  - apply Forall_forall, (bool_decide_unpack _). vm_compute. exact I.
Qed.

(** The rule with a mark and the jump to a chain of the agent. *)
Lemma rules_fine own opt chain : own_name own chain → (newline ∉ chars (ToFragment opt (JumpAction chain))) → rule_fine own opt ruleA ∧ rule_fine own opt (jumpTo chain).
Proof.
  intros Hc Hn. split; (split; [split|]).
  - apply (bool_decide_unpack _). vm_compute. exact I.
  - apply (bool_decide_unpack _). vm_compute. exact I.
  - by intros c ?%elem_of_nil.
  - apply (bool_decide_unpack _). vm_compute. exact I.
  - exact Hn.
  - by intros c [->|[]%elem_of_nil]%elem_of_cons.
Qed.

Lemma mark0_own : own_name own0 "egw-mark".
Proof. split; [by apply plainb_sound|done]. Qed.

Lemma reach1 w : kernel_wf (ks_table w) → reach "mangle" own0 (table1, w).
Proof.
  intros Hw. destruct (rules_fine own0 (tb_opt table0) "egw-mark" mark0_own) as [Ha Hj]; [apply (bool_decide_unpack _); vm_compute; exact I|].
  change table1 with (runOp (runOp table0 (OpUpdate (mkChain "egw-mark" [ruleA]))) (OpInsert "PREROUTING" [jumpTo "egw-mark"])).
  apply reach_op; [apply reach_op; [by apply (reach_new "mangle" own0 4 "egw:" opt0 0); [|apply setup0|]|]|].
  - split; [apply mark0_own|]. by constructor.
  - split; [|split; [by constructor|done]]. split_and!; [by apply plainb_sound|done|done].
Qed.

Lemma references_counted_witness : refCount table1 "egw-mark" = 1%Z ∧ references table1 "egw-mark" = 1%Z.
Proof.
  destruct (references_counted "mangle" 4 "egw:" opt0 0 table0 ops0 eq_refl) as [H _]. specialize (H "egw-mark"). split; [by vm_compute|].
  etrans; [symmetry; exact H|]. by vm_compute.
Defined.

Lemma tables_stay_consistent_witness : table_inv own0 table1.
Proof. exact (tables_stay_consistent "mangle" own0 (table1, world0) (reach1 world0 kernel0_wf)). Defined.

(** The first attempt to write fails, the second one succeeds; the old chain is
    gone. *)
Lemma apply_brings_kernel_in_line_witness : ∃ t' w' d, Apply ords0 42 (table1, world1) = ((t', w'), Ret d) ∧
  (length <$> (ks_table w' !! "egw-mark")) = Some 1 ∧ ks_table w' !! "egw-old" = None ∧ hookRight table1 "PREROUTING" (ks_table w' !! "PREROUTING").
Proof.
  destruct (Apply ords0 42 (table1, world1)) as [[t' w'] o] eqn:E.
  assert (o = Ret 0%Z) as -> by (apply (f_equal snd) in E; cbn [snd] in E; rewrite <- E; vm_compute; reflexivity).
  pose proof (apply_brings_kernel_in_line "mangle" own0 ords0 42 table1 world1 t' w' 0%Z (reach1 world1 kernel0_wf) eq_refl (le_n 42) E) as H.
  exists t', w', 0%Z. split_and!; [done| | |exact (proj2 (H "PREROUTING") eq_refl eq_refl)].
  - assert (hashesIn "egw:" "egw-mark" <$> ks_table w' !! "egw-mark" = desiredHashes table1 "egw-mark") as Hc by exact (proj1 (H "egw-mark") (or_introl eq_refl)).
    assert (length <$> desiredHashes table1 "egw-mark" = Some 1) as Hl by (by vm_compute). rewrite <- Hc in Hl.
    destruct (ks_table w' !! "egw-mark") as [xs|]; [|done]. change (Some (length (hashesIn "egw:" "egw-mark" xs)) = Some 1) in Hl.
    unfold hashesIn in Hl. by rewrite length_fmap in Hl.
  - assert (hashesIn "egw:" "egw-old" <$> ks_table w' !! "egw-old" = desiredHashes table1 "egw-old") as Hc by exact (proj1 (H "egw-old") (or_introl eq_refl)).
    assert (desiredHashes table1 "egw-old" = None) as Hd by (by vm_compute). rewrite Hd in Hc. by destruct (ks_table w' !! "egw-old").
Defined.

(** ** A kernel that never fails *)

Record QStore := mkQStore { qs_table : gmap string (list string); qs_now : Z }.

#[export] Instance qstore_iptables : Iptables QStore := {
  ipSave name := λ w, (w, Ret (saveLines name (qs_table w)));
  ipRestore input := λ w,
    match execInput "mangle" (linesOf input) false (qs_table w) with
    | Some k => (mkQStore k (qs_now w), Ret tt)
    | None => (w, Err (ErrNew "iptables-restore: line failed"))
    end;
  ipNow := λ w, (w, Ret (qs_now w))
}.

#[export] Program Instance qstore_laws : IptablesLaws QStore "mangle" := {| kt := qs_table |}.
Next Obligation. intros w Hwf. cbn. split_and!; [done|done|apply saveLines_listing]. Qed.
Next Obligation. intros input w Hwf. cbn. by destruct (execInput "mangle" (linesOf input) false (qs_table w)) eqn:E. Qed.
Next Obligation. done. Qed.

(** The agent's own setting: its chains do not have the prefix that is configured,
    and [iptables] is the nft variant. *)
Definition agentOpt : Options := mkOptions ["egw"] "insert" 0 0 false false true.
Definition agentOwn (c : string) : bool := match stripPrefix (chars "EGRESSGATEWAY-") (chars c) with Some _ => true | None => false end.
Definition agentTable : Table := match NewTable "mangle" 4 "egw:" agentOpt 0 with Ret t => t | _ => table0 end.
Definition agentTable1 : Table := foldl runOp agentTable
  [OpUpdate (mkChain "EGRESSGATEWAY-MARK-REQUEST" [ruleA]); OpInsert "PREROUTING" [jumpTo "EGRESSGATEWAY-MARK-REQUEST"]].
Definition agentWorld : QStore := mkQStore kernel0 100.

Lemma agent_setup : setup_ok agentOwn agentTable.
Proof.
  split_and!; [done|apply (bool_decide_unpack _); vm_compute; exact I|split; [|apply (bool_decide_unpack _); vm_compute; exact I]|].
  - by eexists _, _.
  - apply Forall_forall, (bool_decide_unpack _). vm_compute. exact I.
Qed.

Lemma request_own : own_name agentOwn "EGRESSGATEWAY-MARK-REQUEST".
Proof. split; [by apply plainb_sound|done]. Qed.

Lemma agent_reach : reach "mangle" agentOwn (agentTable1, agentWorld).
Proof.
  destruct (rules_fine agentOwn (tb_opt agentTable) "EGRESSGATEWAY-MARK-REQUEST" request_own) as [Ha Hj]; [apply (bool_decide_unpack _); vm_compute; exact I|].
  apply (reach_op "mangle" agentOwn (runOp agentTable (OpUpdate (mkChain "EGRESSGATEWAY-MARK-REQUEST" [ruleA]))) agentWorld (OpInsert "PREROUTING" [jumpTo "EGRESSGATEWAY-MARK-REQUEST"])).
  - apply (reach_op "mangle" agentOwn agentTable agentWorld (OpUpdate (mkChain "EGRESSGATEWAY-MARK-REQUEST" [ruleA]))).
    + apply (reach_new "mangle" agentOwn 4 "egw:" agentOpt 0); [done|apply agent_setup|apply kernel0_wf].
    + split; [apply request_own|]. by constructor.
  - split; [|split; [by constructor|done]]. split_and!; [by apply plainb_sound|done|done].
Qed.

Lemma agent_calm : calm (name := "mangle") (W := QStore) agentTable1 kernel0.
Proof.
  split.
  - done.
  - intros input w _. cbn. by destruct (execInput "mangle" (linesOf input) false (qs_table w)).
  - assert (map_Forall (λ c _, is_Some (kernel0 !! c)) (chainToInsertedRules agentTable1)) as Hall by (apply (bool_decide_unpack _); vm_compute; exact I).
    intros c Hc. unfold rulesIn in Hc. destruct (chainToInsertedRules agentTable1 !! c) eqn:E; [|done]. by apply Hall in E.
Qed.

Lemma apply_succeeds_when_calm_witness : ∃ t' w' d, Apply ords0 42 (agentTable1, agentWorld) = ((t', w'), Ret d) ∧
  hashesIn "egw:" "EGRESSGATEWAY-MARK-REQUEST" <$> qs_table w' !! "EGRESSGATEWAY-MARK-REQUEST" = desiredHashes agentTable1 "EGRESSGATEWAY-MARK-REQUEST" ∧
  foreignKept agentTable1 (λ c, c ∈ dirtyChains agentTable1) kernel0 (qs_table w').
Proof.
  destruct (reach_inv "mangle" agentOwn _ agent_reach) as (Hi & Hk & Hn). cbn [fst snd] in *.
  destruct (apply_succeeds_when_calm "mangle" ords0 42 agentTable1 agentWorld (ti_ok _ _ Hi) Hn Hk eq_refl (le_n 42) agent_calm) as (t' & w' & d & E & _ & [Ho _] & Hf).
  exists t', w', d. split_and!; [done| |exact Hf]. apply (Ho "EGRESSGATEWAY-MARK-REQUEST"). right. apply (bool_decide_unpack _). vm_compute. exact I.
Defined.

(** ** A retry under the agent's own setting *)

(** The chain of the agent is in the kernel and is updated to the rules that it
    has; another program has flushed [PREROUTING].  The first write fails. *)
Definition appliedOnce : Table * KStore := (Apply ords0 42 (agentTable1, mkKStore kernel0 100 [])).1.
Definition updatedAgain : Table := runOp appliedOnce.1 (OpUpdate (mkChain "EGRESSGATEWAY-MARK-REQUEST" [ruleA])).
Definition flushedWorld (script : list bool) : KStore := mkKStore (<["PREROUTING" := []]> (ks_table appliedOnce.2)) 200 script.

(** [Apply] returns without an error.  Without the failure the chain is as it was;
    with it the chain is empty, since a chain that was found right is no longer
    dirty when the table is loaded again, and rules with hashes in a chain without the
    prefix are taken for leftovers. *)
Example retry_empties_agent_chain :
  let run script := Apply ords0 42 (updatedAgain, flushedWorld script) in
  let rules s := length <$> (ks_table s.2 !! "EGRESSGATEWAY-MARK-REQUEST") in
  (run []).2 = Ret 0%Z ∧ rules (run []).1 = Some 1 ∧
  (run [false; true]).2 = Ret 0%Z ∧ rules (run [false; true]).1 = Some 0.
Proof. vm_compute. done. Qed.

Lemma hash_roundtrip_witness : hashesIn "egw:" "egw-mark" (zip_with (hashedText table1) (RuleHashes (tb_opt table1) (mkChain "egw-mark" [ruleA])) [ruleA]) =
  RuleHashes (tb_opt table1) (mkChain "egw-mark" [ruleA]).
Proof.
  apply (hash_roundtrip table1 "egw-mark" (mkChain "egw-mark" [ruleA])); [apply setup0|by apply plainb_sound].
Defined.
