(* ===== verification/IPSet.v ===== *)
(** * IP sets ([pkg/ipset])

    Sets and entries with their validation, and the runner that calls the
    [ipset] program.  [Interface] is the interface of that name, the runner is an
    instance of it.  Errors of calls keep their texts, which the agent reads. *)

From S2P Require Import Prelude GoStd GoNet GoFmt Types ApiServer.
Open Scope Z_scope.

(** ** [types.go] *)

(** [Type] is a string type. *)
Abbreviation Type_ := string (only parsing).
Definition HashIPPort : Type_ := "hash:ip,port".
Definition HashIPPortIP : Type_ := "hash:ip,port,ip".
Definition HashIPPortNet : Type_ := "hash:ip,port,net".
Definition BitmapPort : Type_ := "bitmap:port".
Definition HashIP : Type_ := "hash:ip".
Definition HashNet : Type_ := "hash:net".
Definition DefaultPortRange : string := "0-65535".
Definition ProtocolFamilyIPV4 : string := "inet".
Definition ProtocolFamilyIPV6 : string := "inet6".
Definition ProtocolTCP : string := "tcp".
Definition ProtocolUDP : string := "udp".
Definition ProtocolSCTP : string := "sctp".
Definition ValidIPSetTypes : list Type_ := [HashIPPort; HashIPPortIP; BitmapPort; HashIPPortNet; HashIP; HashNet].

(** ** Sets *)

Record IPSet := mkIPSet {
  is_Name : string;
  is_SetType : Type_;
  is_HashFamily : string;
  is_HashSize : Z;
  is_MaxElem : Z;
  is_PortRange : string;
  is_Comment : string
}.

Definition validateHashFamily (family : string) : outcome unit :=
  if decide (family = ProtocolFamilyIPV4 ∨ family = ProtocolFamilyIPV6) then Ret tt
  else Err (ErrNew "currently supported ip set hash families are").
Definition validateIPSetType (set : Type_) : outcome unit :=
  if existsb (λ valid, bool_decide (set = valid)) ValidIPSetTypes then Ret tt
  else Err (ErrNew "currently supported ipset types are").
Definition validateProtocol (protocol : string) : outcome unit :=
  if decide (protocol = ProtocolTCP ∨ protocol = ProtocolUDP ∨ protocol = ProtocolSCTP) then Ret tt
  else Err (ErrNew "invalid entry's protocol").

(** A port number of a range. *)
Definition portNumber (s : string) : outcome Z :=
  let! num := Atoi s in
  if decide (num < 0) then Err (ErrNew "port number should be >=0") else Ret num.
Definition validatePortRange (portRange : string) : outcome unit :=
  match Split portRange "-"%char with
  | [a; b] => let! _ := portNumber a in let! _ := portNumber b in Ret tt
  | _ => Err (ErrNew "port range should be in the format of `a-b`")
  end.
(** The ends of a range, the smaller one first. *)
Definition parsePortRange (portRange : string) : outcome (Z * Z) :=
  let portRange := if decide (portRange = "") then DefaultPortRange else portRange in
  match Split portRange "-"%char with
  | [a; b] =>
      let! beginPort := portNumber a in
      let! endPort := portNumber b in
      Ret (if decide (beginPort > endPort) then (endPort, beginPort) else (beginPort, endPort))
  | _ => Err (ErrNew "port range should be in the format of `a-b`")
  end.

(** The types whose sets have a family, a hash size and a maximum. *)
Definition isHashType (t : Type_) : bool :=
  bool_decide (t = HashIPPort ∨ t = HashIPPortIP ∨ t = HashIPPortNet ∨ t = HashNet).

Definition IPSet_Validate (set : IPSet) : outcome unit :=
  let! _ := (if isHashType (is_SetType set) then validateHashFamily (is_HashFamily set) else Ret tt) in
  let! _ := validateIPSetType (is_SetType set) in
  let! _ := (if decide (is_SetType set = BitmapPort) then validatePortRange (is_PortRange set) else Ret tt) in
  if decide (is_HashSize set <= 0) then Err (ErrNew "invalid hashsize value, should be >0")
  else if decide (is_MaxElem set <= 0) then Err (ErrNew "invalid maxelem value, should be >0")
  else Ret tt.

Definition setIPSetDefaults (set : IPSet) : IPSet :=
  mkIPSet (is_Name set)
    (if decide (is_SetType set = "") then HashIPPort else is_SetType set)
    (if decide (is_HashFamily set = "") then ProtocolFamilyIPV4 else is_HashFamily set)
    (if decide (is_HashSize set = 0) then 1024 else is_HashSize set)
    (if decide (is_MaxElem set = 0) then 65536 else is_MaxElem set)
    (if decide (is_PortRange set = "") then DefaultPortRange else is_PortRange set)
    (is_Comment set).

(** ** Entries *)

Record Entry := mkEntry {
  en_IP : string;
  en_Port : Z;
  en_Protocol : string;
  en_Net : string;
  en_IP2 : string;
  en_SetType : Type_
}.
Definition set_Protocol (e : Entry) (p : string) : Entry :=
  mkEntry (en_IP e) (en_Port e) p (en_Net e) (en_IP2 e) (en_SetType e).

(** The entry is changed through its pointer, also when an error follows. *)
Definition checkIPandProtocol (e : Entry) : Entry * outcome unit :=
  let e' := if decide (en_Protocol e = "") then set_Protocol e ProtocolTCP else e in
  (e', let! _ := (if decide (en_Protocol e = "") then Ret tt else validateProtocol (en_Protocol e)) in
       if decide (ParseIP (en_IP e) = []) then Err (ErrNew "error parsing entry ip address") else Ret tt).

Definition Entry_Validate (e : Entry) (set : option IPSet) : Entry * outcome unit :=
  if decide (en_Port e < 0) then (e, Err (ErrNew "entry port number should be >=0"))
  else if decide (en_SetType e = HashIPPort) then checkIPandProtocol e
  else if decide (en_SetType e = HashIPPortIP) then
    let '(e', o) := checkIPandProtocol e in
    (e', let! _ := o in if decide (ParseIP (en_IP2 e) = []) then Err (ErrNew "error parsing entry second ip address") else Ret tt)
  else if decide (en_SetType e = HashIPPortNet) then
    let '(e', o) := checkIPandProtocol e in
    (e', let! _ := o in match ParseCIDR (en_Net e) with None => Err (ErrNew "error parsing entry ip net") | Some _ => Ret tt end)
  else if decide (en_SetType e = BitmapPort) then
    (e, match set with
        | None => Err (ErrNew "unable to reference ip set where the entry exists")
        | Some set =>
            let! range := parsePortRange (is_PortRange set) in
            let '(first, last) := range in
            if decide (en_Port e < first ∨ en_Port e > last) then Err (ErrNew "entry port number is not in the port range of its ipset")
            else Ret tt
        end)
  else if decide (en_SetType e = HashIP) then
    (e, if decide (ParseIP (en_IP e) = []) then Err (ErrNew "failed to parse entry ip") else Ret tt)
  else if decide (en_SetType e = HashNet) then
    (e, match ParseCIDR (en_Net e) with None => Err (ErrNew "failed to parse entry net") | Some _ => Ret tt end)
  else (e, Ret tt).

Definition Entry_String (e : Entry) : string :=
  let portPart := en_IP e +:+ "," +:+ en_Protocol e +:+ ":" +:+ Itoa (en_Port e) in
  if decide (en_SetType e = HashIPPort) then portPart
  else if decide (en_SetType e = HashIPPortIP) then portPart +:+ "," +:+ en_IP2 e
  else if decide (en_SetType e = HashIPPortNet) then portPart +:+ "," +:+ en_Net e
  else if decide (en_SetType e = BitmapPort) then Itoa (en_Port e)
  else if decide (en_SetType e = HashIP) then en_IP e
  else if decide (en_SetType e = HashNet) then en_Net e
  else "".

(** ** The interface *)

(** [CreateSet] completes the set that it is given; here it returns it. *)
Class Interface (W : Type) := {
  FlushSet : string → M W unit;
  DestroySet : string → M W unit;
  DestroyAllSets : M W unit;
  CreateSet : IPSet → bool → M W IPSet;
  AddEntry : string → IPSet → bool → M W unit;
  DelEntry : string → string → M W unit;
  ListEntries : string → M W (list string);
  ListSets : M W (list string);
  GetVersion : M W string
}.

(** ** The runner *)

(** [exec.Command("ipset", args...).CombinedOutput()]: the output, and the text of
    the error if the program failed. *)
Class Exec (W : Type) := { CombinedOutput : list string → W → W * (string * option string) }.

Section runner.
Context {W : Type} `{EX : !Exec W}.

(** Run a command; the error is made from the output and the text. *)
Definition run (args : list string) (wrap : string → string → string) : M W string := λ w,
  match CombinedOutput args w with
  | (w', (out, None)) => (w', Ret out)
  | (w', (out, Some err)) => (w', Err (ErrNew (wrap out err)))
  end.
Definition run_ (args : list string) (wrap : string → string → string) : M W unit :=
  let* _ := run args wrap in mret tt.

Definition createArgs (set : IPSet) (ignoreExistErr : bool) : list string :=
  ["create"; is_Name set; is_SetType set] ++
  (if isHashType (is_SetType set) then
     ["family"; is_HashFamily set; "hashsize"; Itoa (is_HashSize set); "maxelem"; Itoa (is_MaxElem set)] else []) ++
  (if decide (is_SetType set = BitmapPort) then ["range"; is_PortRange set] else []) ++
  (if ignoreExistErr then ["-exist"] else []).
Definition createSet (set : IPSet) (ignoreExistErr : bool) : M W unit :=
  run_ (createArgs set ignoreExistErr)
    (λ out err, "error creating ipset " +:+ is_Name set +:+ ", error: " +:+ err +:+ ", out: " +:+ out).

Definition runner_CreateSet (set : IPSet) (ignoreExistErr : bool) : M W IPSet :=
  let set := setIPSetDefaults set in
  match IPSet_Validate set with
  | Ret _ => let* _ := createSet set ignoreExistErr in mret set
  | _ => merr (ErrNew "error creating ipset since it's invalid")
  end.

Definition runner_AddEntry (entry : string) (set : IPSet) (ignoreExistErr : bool) : M W unit :=
  run_ (["add"; is_Name set; entry] ++ (if ignoreExistErr then ["-exist"] else []))
    (λ _ err, "error adding entry " +:+ entry +:+ ", error: " +:+ err).
Definition runner_DelEntry (entry set : string) : M W unit :=
  run_ ["del"; set; entry] (λ _ err, "error deleting entry " +:+ entry +:+ ": from set: " +:+ set +:+ ", error: " +:+ err).
Definition runner_FlushSet (set : string) : M W unit :=
  run_ ["flush"; set] (λ _ err, "error flushing set: " +:+ set +:+ ", error: " +:+ err).
Definition runner_DestroySet (set : string) : M W unit :=
  run_ ["destroy"; set] (λ out err, "error destroying set " +:+ set +:+ ", error: " +:+ err +:+ "(" +:+ out +:+ ")").
Definition runner_DestroyAllSets : M W unit :=
  run_ ["destroy"] (λ _ err, "error destroying all sets, error: " +:+ err).

Definition newlineChar : ascii := Ascii.ascii_of_nat 10.
Definition runner_ListSets : M W (list string) :=
  let* out := run ["list"; "-n"] (λ _ err, "error listing all sets, error: " +:+ err) in
  mret (Split out newlineChar).

(** [EntryMemberPattern]: everything up to the last line [Members:] goes; the
    last piece of the output is not a line. *)
Fixpoint afterMembers (pieces : list string) : option (list string) :=
  match pieces with
  | [] | [_] => None
  | s :: pieces' =>
      match afterMembers pieces' with
      | Some rest => Some rest
      | None => if decide (s = "Members:") then Some pieces' else None
      end
  end.
Definition entriesOf (out : string) : list string :=
  let pieces := Split out newlineChar in
  filter (λ s, s ≠ "") (default pieces (afterMembers pieces)).
Definition listError (set out err : string) : string := "error listing set: " +:+ set +:+ ", error: " +:+ err +:+ " (" +:+ out +:+ ")".
Definition runner_ListEntries (set : string) : M W (list string) :=
  if decide (set = "") then merr (ErrNew "set name can't be nil")
  else
    let* out := run ["list"; set] (listError set) in
    mret (entriesOf out).

(** [VersionPattern]: the leftmost [v], digits, a dot, digits. *)
Definition isDigit (c : ascii) : bool := match decval c with Some _ => true | None => false end.
Fixpoint digitsOf (l : list ascii) : list ascii :=
  match l with c :: l' => if isDigit c then c :: digitsOf l' else [] | [] => [] end.
Definition versionAt (l : list ascii) : option (list ascii) :=
  match l with
  | "v"%char :: l' =>
      let major := digitsOf l' in
      match major, drop (length major) l' with
      | _ :: _, "."%char :: l'' =>
          match digitsOf l'' with [] => None | minor => Some ("v"%char :: major ++ "."%char :: minor) end
      | _, _ => None
      end
  | _ => None
  end.
Fixpoint findVersion (l : list ascii) : option (list ascii) :=
  match versionAt l with
  | Some v => Some v
  | None => match l with [] => None | _ :: l' => findVersion l' end
  end.
Definition getIPSetVersionString : M W string :=
  let* out := run ["--version"] (λ _ err, err) in
  match findVersion (chars out) with
  | Some v => mret (unchars v)
  | None => merr (ErrNew "no ipset version found in string")
  end.

#[export] Instance runner : Interface W := {
  FlushSet := runner_FlushSet;
  DestroySet := runner_DestroySet;
  DestroyAllSets := runner_DestroyAllSets;
  CreateSet := runner_CreateSet;
  AddEntry := runner_AddEntry;
  DelEntry := runner_DelEntry;
  ListEntries := runner_ListEntries;
  ListSets := runner_ListSets;
  GetVersion := getIPSetVersionString
}.
End runner.

Definition ErrAlreadyAddedEntry : error := ErrNew "error already added entry".
(** [err.Error()]. *)
Definition errText (e : error) : string := match e with ErrNew m => m | ErrApi _ => "" end.

(** On the text of an error. *)
Definition IsNotFoundError (es : string) : bool := Contains es "does not exist" || Contains es "element is missing".
