(* ===== verification/IPSetLaws.v ===== *)
(** * What sets promise to their users

    The kernel's sets are a map from names to members, in the form in which
    [ipset list] prints them.  [InterfaceLaws] is what a user of [Interface] relies
    on; [ExecLaws] is the documented behaviour of the commands of ipset(8).  The
    runner turns one into the other ([runner_laws]). *)

From S2P Require Import Prelude GoStd GoNet GoFmt Types ApiServer IPUtil IPSet Triple.
Open Scope nat_scope.

(** Names of lower-case letters, digits and dashes, that are not taken for options. *)
Definition nameChar (c : ascii) : bool :=
  bool_decide (c ∈ chars "abcdefghijklmnopqrstuvwxyz0123456789-").
Definition lowerName (name : string) : Prop :=
  (∃ c l, chars name = c :: l ∧ c ≠ "-"%char) ∧ Forall (λ c, nameChar c = true) (chars name).
Lemma lowerName_nonempty name : lowerName name → name ≠ "".
Proof. intros [(c & l & E & _) _] ->. done. Qed.

Definition missingText : string := "The set with the given name does not exist".

(** Texts that the kernel prints as they are: an address, and a network that is
    neither a single address nor everything.  Addresses of the blocks that the
    C library prints in a mixed notation are left out. *)
Definition printedAddr (ip : IP) : Prop :=
  Forall is_byte ip ∧ (length ip = 4 ∨ length ip = 16 ∧ take 10 ip ≠ replicate 10 0%Z).
Definition canonicalEntry (e : string) : Prop :=
  (∃ ip, printedAddr ip ∧ e = IPString ip) ∨
  (∃ s ip n, ParseCIDR s = Some (ip, n) ∧ printedAddr (net_IP n) ∧ e = IPNetString n ∧
     (0 < maskOnes (net_Mask n) < 8 * Z.of_nat (length (net_IP n)))%Z).

Abbreviation kernelSets := (gmap string (gset string)) (only parsing).

(** A set that is created exists; with [-exist] it keeps its members. *)
Definition created (name : string) (k : kernelSets) : kernelSets :=
  match k !! name with Some _ => k | None => <[name := ∅]> k end.

Class InterfaceLaws (W : Type) `{IF : !Interface W} := {
  sets : W → kernelSets;
  (** The form in which an entry of a set is printed. *)
  member : string → string;
  member_canonical e : canonicalEntry e → member e = e;
  member_printed w name m e : sets w !! name = Some m → e ∈ m → member e = e;
  create_law set w : lowerName (is_Name set) → let '(w', o) := CreateSet set true w in
    match o with
    | Ret set' => is_Name set' = is_Name set ∧ sets w' = created (is_Name set) (sets w)
    | _ => sets w' = sets w
    end;
  add_law e set w : lowerName (is_Name set) → let '(w', o) := AddEntry e set true w in
    match o with
    | Ret _ => ∃ m, sets w !! is_Name set = Some m ∧ sets w' = <[is_Name set := {[member e]} ∪ m]> (sets w)
    | Err err => err ≠ ErrAlreadyAddedEntry ∧ sets w' = sets w
    | _ => sets w' = sets w
    end;
  del_law e name w : lowerName name → let '(w', o) := DelEntry e name w in
    match o with
    | Ret _ => ∃ m, sets w !! name = Some m ∧ sets w' = <[name := m ∖ {[member e]}]> (sets w)
    | _ => sets w' = sets w
    end;
  destroy_law name w : name ≠ "" → let '(w', o) := DestroySet name w in
    sets w' = match o with Ret _ => delete name (sets w) | _ => sets w end;
  entries_law name w : lowerName name → let '(w', o) := ListEntries name w in
    sets w' = sets w ∧
    match o with
    | Ret l => ∃ m, sets w !! name = Some m ∧ l ≡ₚ elements m
    | Err e => Contains (errText e) missingText = true → sets w !! name = None
    | _ => True
    end;
  names_law w : let '(w', o) := ListSets w in
    sets w' = sets w ∧
    match o with Ret l => ∀ name, name ∈ l ∧ name ≠ "" ↔ is_Some (sets w !! name) | _ => True end
}.

(** ** Commands *)

(** Text of lines that all have an end. *)
Definition outputOf (lines : list string) : string := unchars (lines ≫= λ s, chars s ++ [newlineChar]).
Definition oneLine (s : string) : Prop := newlineChar ∉ chars s.

Class ExecLaws (W : Type) `{EX : !Exec W} := {
  ksets : W → kernelSets;
  kmember : string → string;
  kmember_canonical e : canonicalEntry e → kmember e = e;
  kmember_printed w name m e : ksets w !! name = Some m → e ∈ m → kmember e = e;
  run_create name type args w : lowerName name →
    let '(w', (out, err)) := CombinedOutput ("create" :: name :: type :: args ++ ["-exist"]) w in
    ksets w' = match err with None => created name (ksets w) | Some _ => ksets w end;
  run_add e name w : lowerName name → let '(w', (out, err)) := CombinedOutput ["add"; name; e; "-exist"] w in
    match err with
    | None => ∃ m, ksets w !! name = Some m ∧ ksets w' = <[name := {[kmember e]} ∪ m]> (ksets w)
    | Some _ => ksets w' = ksets w
    end;
  run_del e name w : lowerName name → let '(w', (out, err)) := CombinedOutput ["del"; name; e] w in
    match err with
    | None => ∃ m, ksets w !! name = Some m ∧ ksets w' = <[name := m ∖ {[kmember e]}]> (ksets w)
    | Some _ => ksets w' = ksets w
    end;
  run_destroy name w : name ≠ "" → let '(w', (out, err)) := CombinedOutput ["destroy"; name] w in
    ksets w' = match err with None => delete name (ksets w) | Some _ => ksets w end;
  (** A header, the line [Members:], and a member in each line; the text about a
      missing set is not printed of a set that exists. *)
  run_list name w : lowerName name → let '(w', (out, err)) := CombinedOutput ["list"; name] w in
    ksets w' = ksets w ∧
    match err with
    | None => ∃ m header members, ksets w !! name = Some m ∧ members ≡ₚ elements m ∧
        Forall oneLine header ∧ Forall (λ s, oneLine s ∧ s ≠ "" ∧ s ≠ "Members:") members ∧
        out = outputOf (header ++ "Members:" :: members)
    | Some text => Contains (listError name out text) missingText = true → ksets w !! name = None
    end;
  (** A name in each line. *)
  run_names w : let '(w', (out, err)) := CombinedOutput ["list"; "-n"] w in
    ksets w' = ksets w ∧
    match err with
    | None => ∃ names, names ≡ₚ elements (dom (ksets w)) ∧ Forall (λ s, oneLine s ∧ s ≠ "") names ∧ out = outputOf names
    | Some _ => True
    end
}.

(** ** Reading the output *)

Lemma Split_output lines : Forall oneLine lines → Split (outputOf lines) newlineChar = lines ++ [""].
Proof.
  intros H. unfold Split, outputOf. rewrite chars_unchars. induction lines as [|s lines IH]; [done|].
  apply Forall_cons in H as [Hs H]. cbn [mbind list_bind]. rewrite <- app_assoc. cbn [app].
  rewrite splitOn_app by done. cbn. by rewrite unchars_chars, IH.
Qed.

Lemma afterMembers_none l s : "Members:" ∉ l → afterMembers (l ++ [s]) = None.
Proof.
  induction l as [|x l IH]; [done|]. intros [Hx Hl]%not_elem_of_cons. cbn [app afterMembers].
  destruct (l ++ [s]) eqn:E; [done|]. rewrite IH by done. by rewrite decide_False.
Qed.
Lemma afterMembers_header header l s : "Members:" ∉ l → afterMembers (header ++ "Members:" :: l ++ [s]) = Some (l ++ [s]).
Proof.
  intros Hl. induction header as [|x header IH]; cbn [app afterMembers].
  - rewrite afterMembers_none by done. destruct (l ++ [s]) eqn:E; [by destruct l|]. by rewrite decide_True.
  - rewrite IH. destruct (header ++ _) eqn:E; [by destruct header|done].
Qed.

Lemma entriesOf_output header members :
  Forall oneLine header → Forall (λ s, oneLine s ∧ s ≠ "" ∧ s ≠ "Members:") members →
  entriesOf (outputOf (header ++ "Members:" :: members)) = members.
Proof.
  intros Hh Hm. rewrite Forall_forall in Hm. unfold entriesOf. rewrite Split_output.
  - rewrite <- app_assoc. cbn [app]. rewrite afterMembers_header by (intros H%Hm; naive_solver). simpl default.
    rewrite filter_app. cbn. rewrite app_nil_r. apply list_filter_all. intros s Hs%Hm. naive_solver.
  - apply Forall_app_2; [done|]. constructor; [apply (bool_decide_unpack _); vm_compute; exact I|]. apply Forall_forall. intros s Hs%Hm. naive_solver.
Qed.

(** ** The runner keeps the promises *)

Section runner.
Context {W : Type} `{EX : !Exec W} `{EL : !ExecLaws W}.

#[export] Program Instance runner_laws : InterfaceLaws W := {| sets := ksets; member := kmember |}.
Next Obligation. apply kmember_canonical. Qed.
Next Obligation. intros w name m e. apply kmember_printed. Qed.
Next Obligation.
  intros set w Hn. cbn [CreateSet runner]. unfold runner_CreateSet. destruct (IPSet_Validate _); [|done..].
  assert (∃ args, createArgs (setIPSetDefaults set) true = "create" :: is_Name set :: is_SetType (setIPSetDefaults set) :: args ++ ["-exist"]) as [args E]
    by (eexists; unfold createArgs; by rewrite !app_assoc).
  unfold createSet, run_, run, mbind_. rewrite E. pose proof (run_create (is_Name set) (is_SetType (setIPSetDefaults set)) args w Hn) as H.
  destruct (CombinedOutput _ w) as [w' [out [err|]]]; [done|]. by split.
Qed.
Next Obligation.
  intros e set w Hn. cbn [AddEntry runner]. unfold runner_AddEntry, run_, run, mbind_. cbn [app].
  pose proof (run_add e (is_Name set) w Hn) as H. by destruct (CombinedOutput _ w) as [w' [out [err|]]].
Qed.
Next Obligation.
  intros e name w Hn. cbn [DelEntry runner]. unfold runner_DelEntry, run_, run, mbind_.
  pose proof (run_del e name w Hn) as H. by destruct (CombinedOutput _ w) as [w' [out [err|]]].
Qed.
Next Obligation.
  intros name w Hn. cbn [DestroySet runner]. unfold runner_DestroySet, run_, run, mbind_.
  pose proof (run_destroy name w Hn) as H. by destruct (CombinedOutput _ w) as [w' [out [err|]]].
Qed.
Next Obligation.
  intros name w Hn. cbn [ListEntries runner]. unfold runner_ListEntries, run, mbind_. rewrite decide_False by by apply lowerName_nonempty.
  pose proof (run_list name w Hn) as H. destruct (CombinedOutput _ w) as [w' [out [err|]]]; [done|].
  destruct H as (E & m & header & members & Hm & Hp & Hh & Hl & ->). split; [done|]. exists m. by rewrite entriesOf_output.
Qed.
Next Obligation.
  intros w. cbn [ListSets runner]. unfold runner_ListSets, run, mbind_. pose proof (run_names w) as H.
  destruct (CombinedOutput _ w) as [w' [out [err|]]]; [done|]. destruct H as (E & names & Hp & Hl & ->). split; [done|]. intros name.
  rewrite Split_output by (eapply Forall_impl; [exact Hl|]; naive_solver). rewrite <- elem_of_dom, <- elem_of_elements, <- Hp.
  rewrite Forall_forall in Hl. rewrite elem_of_app, list_elem_of_singleton. split; [naive_solver|]. intros H. split; [by left|by apply Hl].
Qed.
End runner.
