(* ===== verification/Police.v ===== *)
(** * The policies on a node ([pkg/agent/police.go])

    The agent's [policeReconciler]: the sets of source and destination addresses
    of every policy, the set of the addresses inside the cluster, and the rules of
    the tables mangle, nat and filter, for both IP versions. *)

From S2P Require Import Prelude GoStd GoNet GoFmt Types Utils ApiServer Sha1 IPUtil EndpointSlice IptablesRule IptablesTable IPSet.
Open Scope nat_scope.

Definition EgressClusterCIDRIPv4 : string := "egress-cluster-cidr-ipv4".
Definition EgressClusterCIDRIPv6 : string := "egress-cluster-cidr-ipv6".
Definition Mark : Z := 0xff000000.
Definition Mask : Z := 0xffffffff.

(** ** State, configuration and calls *)

(** What the reconciler reads of the configuration. *)
Record AgentConfig := mkAgentConfig {
  cfg_NodeName : string;
  cfg_EnableIPv4 : bool;
  cfg_EnableIPv6 : bool;
  cfg_Mark : string;
  cfg_EnableGatewayReplyRoute : bool;
  cfg_GatewayReplyRouteMark : Z;
  cfg_VXLANName : string;
  (** [FileConfig.IPTables], in nanoseconds; the last one says whether the
      backend is nft. *)
  cfg_RefreshInterval : Z;
  cfg_InitialPostWriteInterval : Z;
  cfg_nft : bool
}.

Record policeReconciler := mkPolice {
  ipsetMap : gmap string IPSet;
  doOnce : bool;
  mangleTables : list Table;
  filterTables : list Table;
  natTables : list Table
}.

Class PoliceApi (W : Type) `{LabelSelectors} := {
  paListGateways : M W (list EgressGateway);
  paGetGateway : string → M W EgressGateway;
  paGetPolicy : NamespacedName → M W EgressPolicy;
  paGetClusterPolicy : NamespacedName → M W EgressClusterPolicy;
  paGetTunnel : string → M W EgressTunnel;
  paListTunnels : M W (list EgressTunnel);
  paGetClusterInfo : NamespacedName → M W EgressClusterInfo;
  paListSlices : string → Selector → M W (list EgressEndpointSlice);
  paListClusterSlices : Selector → M W (list EgressClusterEndpointSlice)
}.

Inductive tableKind := KMangle | KFilter | KNat.
#[export] Instance tableKind_eq_dec : EqDecision tableKind.
Proof. solve_decision. Defined.
Definition tablesOf (k : tableKind) (r : policeReconciler) : list Table :=
  match k with KMangle => mangleTables r | KFilter => filterTables r | KNat => natTables r end.
Definition set_tables (k : tableKind) (l : list Table) (r : policeReconciler) : policeReconciler :=
  match k with
  | KMangle => mkPolice (ipsetMap r) (doOnce r) l (filterTables r) (natTables r)
  | KFilter => mkPolice (ipsetMap r) (doOnce r) (mangleTables r) l (natTables r)
  | KNat => mkPolice (ipsetMap r) (doOnce r) (mangleTables r) (filterTables r) l
  end.
Definition set_ipsetMap (m : gmap string IPSet) (r : policeReconciler) : policeReconciler :=
  mkPolice m (doOnce r) (mangleTables r) (filterTables r) (natTables r).
Definition set_doOnce (r : policeReconciler) : policeReconciler :=
  mkPolice (ipsetMap r) true (mangleTables r) (filterTables r) (natTables r).

(** ** Names of sets *)

Inductive IPKind := IPSrc | IPDst.
Inductive IPStack := IPv4 | IPv6.
#[export] Instance IPKind_eq_dec : EqDecision IPKind.
Proof. solve_decision. Defined.
#[export] Instance IPStack_eq_dec : EqDecision IPStack.
Proof. solve_decision. Defined.
Definition HashFamily (stack : IPStack) : string := match stack with IPv4 => "inet" | IPv6 => "inet6" end.
Record SetName := mkSetName { sn_Name : string; sn_Stack : IPStack; sn_Kind : IPKind }.

(** [fmt.Sprintf("%x", sha1.Sum(...))]. *)
Definition sha1Hex (name : string) : list ascii := sha1 (bytesOf name) ≫= hex2.
Definition formatIPSetName (prefix name : string) : outcome string :=
  let hash := sha1Hex name in
  let i := (31 - Z.of_nat (length (chars prefix)))%Z in
  if decide (0 <= i <= Z.of_nat (length hash))%Z then Ret (prefix +:+ unchars (take (Z.to_nat i) hash))
  else Panic "slice bounds out of range".

(** The name of a policy in rules and sets. *)
Definition policyKey (ns name : string) : string := if decide (ns = "") then name else ns +:+ "-" +:+ name.

Definition buildIPSetNamesByPolicy (ns name : string) (enableIPv4 enableIPv6 : bool) : outcome (list SetName) :=
  let name := policyKey ns name in
  let! v4 := (if enableIPv4 then
      let! src := formatIPSetName "egress-src-v4-" name in
      let! dst := formatIPSetName "egress-dst-v4-" name in
      Ret [mkSetName src IPv4 IPSrc; mkSetName dst IPv4 IPDst]
    else Ret []) in
  let! v6 := (if enableIPv6 then
      let! src := formatIPSetName "egress-src-v6-" name in
      let! dst := formatIPSetName "egress-dst-v6-" name in
      Ret [mkSetName src IPv6 IPSrc; mkSetName dst IPv6 IPDst]
    else Ret []) in
  Ret (v4 ++ v6).

(** ** Lists of addresses *)

Definition expandAnyCIDR `{MapOrder} (ips : list string) : list string :=
  let ipSet := foldl (λ (s : gset string) ip, if decide (ip = "0.0.0.0/0") then {["128.0.0.0/1"]} ∪ ({["0.0.0.0/1"]} ∪ s) else {[ip]} ∪ s) ∅ ips in
  map_order (elements ipSet).

Definition getDstCIDR (items : list string) : outcome (list string * list string) :=
  oforeach (λ item '(ipv4List, ipv6List),
    match ParseCIDR item with
    | None => Err (ErrNew "invalid CIDR address")
    | Some (ip, ipNet) =>
        Ret (if decide (To4 ip ≠ []) then (ipv4List ++ [IPNetString ipNet], ipv6List)
             else (ipv4List, ipv6List ++ [IPNetString ipNet]))
    end) items ([], []).

(** The form in which a wanted entry is compared with the entries of a set. *)
Definition normalEntry (s : string) : string :=
  if HasSuffix s "/32" then TrimSuffix s "/32"
  else if HasSuffix s "/128" then
    let ip := To16 (ParseIP (TrimSuffix s "/128")) in
    if decide (ip ≠ []) then IPString ip else s
  else match ParseCIDR s with Some (_, cidr) => IPNetString cidr | None => s end.
Definition findDiff (oldList newList : list string) : list string * list string :=
  let newCopy := normalEntry <$> newList in
  let oldMap : gset string := list_to_set oldList in
  let newMap : gset string := list_to_set newCopy in
  (filter (λ s, s ∉ oldMap) newCopy, filter (λ s, s ∉ newMap) oldList).

(** ** Rules *)

Definition parseMark (mark : string) : outcome Z :=
  let! i64 := ParseInt16_32 (drop0x (chars mark)) in
  Ret (i64 mod 2 ^ 32)%Z.

(** The match of the rules of a policy, for a table of an IP version. *)
Definition policyMatch (policyName : string) (version : nat) (isIgnoreInternalCIDR : bool) : outcome MatchCriteria :=
  let tmp := if decide (version = 6) then "v6-" else "v4-" in
  let ignoreName := if decide (version = 6) then EgressClusterCIDRIPv6 else EgressClusterCIDRIPv4 in
  let! srcName := formatIPSetName ("egress-src-" +:+ tmp) policyName in
  let! dstName := formatIPSetName ("egress-dst-" +:+ tmp) policyName in
  Ret (if isIgnoreInternalCIDR then CTDirectionOriginal (NotDestIPSet (SourceIPSet [] srcName) ignoreName) DirectionOriginal
       else CTDirectionOriginal (DestIPSet (SourceIPSet [] srcName) dstName) DirectionOriginal).

Record EIP := mkEIP { V4 : string; V6 : string }.

Definition buildEipRule (policyName : string) (eip : EIP) (version : nat) (isIgnoreInternalCIDR useNodeIP : bool) : outcome Rule :=
  let ip := if decide (version = 6) then V6 eip else V4 eip in
  let! criteria := policyMatch policyName version isIgnoreInternalCIDR in
  Ret (mkRule criteria (Some (if useNodeIP then MasqAction "" else SNATAction ip)) ["snat policy " +:+ policyName]).

Definition buildPolicyRule (policyName : string) (mark : Z) (version : nat) (isIgnoreInternalCIDR : bool) : outcome Rule :=
  let! criteria := policyMatch policyName version isIgnoreInternalCIDR in
  Ret (mkRule criteria (Some (SetMaskedMarkAction mark Mask)) ["Set mark for EgressPolicy " +:+ policyName]).

Abbreviation chainRulesMap := (gmap string (list Rule)).

Definition buildNatStaticRule (base : Z) : outcome chainRulesMap :=
  let! full := MarkMatchesWithMask [] base Mask in
  let! top := MarkMatchesWithMask [] base Mark in
  Ret (list_to_map
    [("POSTROUTING",
        [mkRule [] (Some (JumpAction "EGRESSGATEWAY-SNAT-EIP")) ["SNAT for egress traffic"];
         mkRule full (Some AcceptAction) ["Accept for egress traffic from pod going to EgressTunnel"]]);
     ("PREROUTING", [mkRule top (Some AcceptAction) ["EgressGateway traffic accept datapath rule"]])]).

Definition buildFilterStaticRule (base : Z) : outcome chainRulesMap :=
  let! full := MarkMatchesWithMask [] base Mask in
  let rules := [mkRule full (Some AcceptAction) ["Accept for egress traffic from pod going to EgressTunnel"]] in
  Ret (list_to_map [("FORWARD", rules); ("OUTPUT", rules)]).

Definition buildMangleStaticRule (base : Z) (isEgressNode enableGatewayReplyRoute : bool) (replyMark : Z) : outcome chainRulesMap :=
  let! top := MarkMatchesWithMask [] base Mark in
  let! full := MarkMatchesWithMask [] base Mask in
  let forward := [mkRule top (Some (SetMaskedMarkAction base Mask)) ["Accept for egress traffic from pod going to EgressTunnel"]] in
  let postrouting := [mkRule full (Some AcceptAction) ["Accept for egress traffic from pod going to EgressTunnel"]] in
  let prerouting := [mkRule [] (Some (JumpAction "EGRESSGATEWAY-MARK-REQUEST")) ["Checking for EgressPolicy matched traffic"]] in
  let accept := mkRule top (Some AcceptAction) ["EgressGateway traffic accept datapath rule"] in
  let! more := (if isEgressNode then
      let! reply := MarkMatchesWithMask [] replyMark Mask in
      Ret ([accept;
            mkRule [] (Some (JumpAction "EGRESSGATEWAY-REPLY-ROUTING")) ["EgressGateway reply datapath rule, rule is from the EgressGateway"];
            mkRule top (Some AcceptAction) ["EgressGateway reply datapath rule, rule is from the EgressGateway"]],
           [mkRule reply (Some (SetMaskedMarkAction 0 Mask)) ["clear the Mark of the inner package, rule is from the EgressGateway"]])
    else Ret ([accept], [])) in
  Ret (list_to_map [("FORWARD", forward); ("POSTROUTING", postrouting ++ more.2); ("PREROUTING", prerouting ++ more.1)]).

Definition buildPreroutingReplyRouting (vxlanName : string) (base : Z) (replyMark mac : string) : outcome (list Rule) :=
  let! mark := parseMark replyMark in
  let! marked := MarkMatchesWithMask [] mark Mask in
  Ret [mkRule (CTDirectionOriginal (SrcMacSource (InInterface [] vxlanName) mac) DirectionOriginal) (Some (SetMaskedMarkAction mark Mask))
         ["Mark the traffic from the EgressGateway tunnel, rule is from the EgressGateway"];
       mkRule marked (Some (SaveConnMarkAction Mask)) ["Save mark to the connection, rule is from the EgressGateway"];
       mkRule (SrcMacSource (InInterface [] vxlanName) mac) (Some (SetMaskedMarkAction base Mask))
         ["Clear Mark of the inner package, rule is from the EgressGateway"]].

(** ** The reconciler *)

Section police.
Context {W : Type} `{LS : LabelSelectors} `{PA : !PoliceApi W} `{IF : !Interface W}.
(** The iptables programs of each IP version. *)
Context (IT : nat → Iptables W).
(** The orders of ranging: over maps of the code below, over the maps of a table, over
    maps of policies. *)
Context (so : nat → MapOrder) (to : tableKind → nat → nat → MapOrder) (po : nat → KeyOrder Policy).
Context (cfg : AgentConfig).
Abbreviation PM := (M (policeReconciler * W)).

Definition call {A} (c : M W A) : PM A := λ s, let '(w', o) := c s.2 in ((s.1, w'), o).
Definition getP : PM policeReconciler := λ s, (s, Ret s.1).
Definition modP (f : policeReconciler → policeReconciler) : PM unit := λ s, ((f s.1, s.2), Ret tt).
(** A method call on the [i]-th table of a kind. *)
Definition modTable (k : tableKind) (i : nat) (f : Table → Table) : PM unit :=
  modP (λ r, set_tables k (alter f i (tablesOf k r)) r).
Definition applyTable (fuel : nat) (k : tableKind) (i : nat) : PM unit := λ s,
  match tablesOf k s.1 !! i with
  | Some t =>
      let '((t', w'), o) := @Apply W (IT (tb_IPVersion t)) (to k i) fuel (t, s.2) in
      ((set_tables k (<[i := t']> (tablesOf k s.1)) s.1, w'),
       match o with Ret _ => Ret tt | Err _ => Err (ErrNew "failed to apply rule") | Panic p => Panic p | Timeout => Timeout end)
  | None => (s, Ret tt)
  end.
(** [for _, table := range tables]. *)
Definition forTables (k : tableKind) (f : nat → nat → PM unit) : PM unit :=
  let* r := getP in
  mforeach (λ '(i, t) _, f i (tb_IPVersion t)) (zip (seq 0 (length (tablesOf k r))) (tablesOf k r)) tt.

(** *** Sets *)

Definition getPolicySubnet (ns name : string) : M W (list string) :=
  let key := mkNN ns name in
  if decide (ns = "") then
    let* obj := getOrAbsent (paGetClusterPolicy key) in
    mret (@expandAnyCIDR (so 0) (match obj with Some p => cpol_DestSubnet (cp_Spec p) | None => [] end))
  else
    let* obj := getOrAbsent (paGetPolicy key) in
    mret (@expandAnyCIDR (so 0) (match obj with Some p => pol_DestSubnet (ep_Spec p) | None => [] end)).

Definition srcIPs (filterf : EgressEndpoint → bool) (slices : list (ObjectMeta * list EgressEndpoint)) : list string * list string :=
  let eps := filter (λ e, filterf e = true) (slices ≫= λ '(m, l), if om_Deleting m then [] else l) in
  (eps ≫= ept_IPv4, eps ≫= ept_IPv6).
Definition getPolicySrcIPs (policyNs policyName : string) (filterf : EgressEndpoint → bool) : M W (list string * list string) :=
  let* selector := lift (LabelSelectorAsSelector (policyLabel policyName)) in
  if decide (policyNs = "") then
    let* eps := paListClusterSlices selector in
    mret (srcIPs filterf ((λ ep, (csl_Meta ep, csl_Endpoints ep)) <$> eps))
  else
    let* eps := paListSlices policyNs selector in
    mret (srcIPs filterf ((λ ep, (sl_Meta ep, sl_Endpoints ep)) <$> eps)).

Definition createIPSet (set : SetName) : PM unit :=
  let* r := getP in
  match ipsetMap r !! sn_Name set with
  | Some _ => mret tt
  | None =>
      if decide (sn_Stack set = IPv4 ∧ cfg_EnableIPv4 cfg = false) then mret tt
      else if decide (sn_Stack set = IPv6 ∧ cfg_EnableIPv6 cfg = false) then mret tt
      else
        let* ipSet := call (CreateSet (mkIPSet (sn_Name set) HashNet (HashFamily (sn_Stack set)) 0 0 "" "") true) in
        modP (λ r, set_ipsetMap (<[sn_Name set := ipSet]> (ipsetMap r)) r)
  end.

Definition removeIPSet (name : string) : PM unit :=
  let* r := getP in
  match ipsetMap r !! name with
  | Some _ =>
      let* _ := attempt (call (DestroySet name)) in
      modP (λ r, set_ipsetMap (delete name (ipsetMap r)) r)
  | None => mret tt
  end.

Definition missingSet : string := "The set with the given name does not exist".
(** The entries to add and to delete, set by set. *)
Definition diffs := (gmap string (list string) * gmap string (list string))%type.
Definition diffSet (src dst : list string * list string) (set : SetName) (d : diffs) : PM diffs :=
  let* res := attempt (call (ListEntries (sn_Name set))) in
  let* oldIPList := (match res with
    | inl l => mret l
    | inr err => if Contains (errText err) missingSet then mret [] else merr err
    end) in
  let '(v4, v6) := match sn_Kind set with IPSrc => src | IPDst => dst end in
  let store new := let '(add, del) := findDiff oldIPList new in (<[sn_Name set := add]> d.1, <[sn_Name set := del]> d.2) in
  mret (if decide (sn_Stack set = IPv4 ∧ cfg_EnableIPv4 cfg = true) then store v4
        else if cfg_EnableIPv6 cfg then store v6 else d).

Definition addEntries (toAddList : gmap string (list string)) : PM unit :=
  mforeach (λ set _,
    let* r := getP in
    match ipsetMap r !! set with
    | None => mret tt
    | Some ipSet =>
        mforeach (λ ip _,
          let* res := attempt (call (AddEntry ip ipSet true)) in
          match res with
          | inr err => if decide (err = ErrAlreadyAddedEntry) then mret tt else merr err
          | inl _ => mret tt
          end) (default [] (toAddList !! set)) tt
    end) (@map_order (so 1) (elements (dom toAddList))) tt.
Definition delEntries (toDelList : gmap string (list string)) : PM unit :=
  mforeach (λ name _, mforeach (λ ip _, call (DelEntry ip name)) (default [] (toDelList !! name)) tt)
    (@map_order (so 2) (elements (dom toDelList))) tt.

Definition updatePolicyIPSet (policyNs policyName : string) (isEipNodeSet : bool) (destSubnet : list string) : PM unit :=
  let* src := call (getPolicySrcIPs policyNs policyName (λ e, bool_decide (ept_Node e = cfg_NodeName cfg) || isEipNodeSet)) in
  let* dst := lift (getDstCIDR destSubnet) in
  let* setNames := lift (buildIPSetNamesByPolicy policyNs policyName (cfg_EnableIPv4 cfg) (cfg_EnableIPv6 cfg)) in
  let* _ := mforeach (λ set _, createIPSet set) setNames tt in
  let* (toAddList, toDelList) := mforeach (diffSet src dst) setNames (∅, ∅) in
  let* _ := addEntries toAddList in
  delEntries toDelList.

Definition ensureClusterInfoIPSet : M W unit :=
  let* _ := CreateSet (mkIPSet EgressClusterCIDRIPv4 HashNet "inet" 0 0 "" "") true in
  let* _ := CreateSet (mkIPSet EgressClusterCIDRIPv6 HashNet "inet6" 0 0 "" "") true in
  mret tt.

(** *** The addresses inside the cluster *)

Definition addIP (acc : list string * list string) (items : list string) : list string * list string :=
  foldl (λ '(ipv4, ipv6) item,
    let ip := ParseIP item in
    if decide (To4 ip ≠ []) then (ipv4 ++ [IPString ip], ipv6)
    else if decide (To16 ip ≠ []) then (ipv4, ipv6 ++ [IPString ip]) else (ipv4, ipv6)) acc items.
Definition addCIDR (acc : list string * list string) (items : list string) : list string * list string :=
  foldl (λ '(ipv4, ipv6) item,
    match ParseCIDR item with
    | None => (ipv4, ipv6)
    | Some (ip, cidr) =>
        if decide (To4 ip ≠ []) then (ipv4 ++ [IPNetString cidr], ipv6)
        else if decide (To16 ip ≠ []) then (ipv4, ipv6 ++ [IPNetString cidr]) else (ipv4, ipv6)
    end) acc items.

(** [for _, pair := range m]. *)
Definition rangePairs (k : nat) (m : gmap string IPListPair) : list IPListPair := omap (λ key, m !! key) (@map_order (so k) (elements (dom m))).
Definition clusterAddrs (status : EgressClusterInfoStatus) : list string * list string :=
  let acc := addIP ([], []) (rangePairs 3 (ci_NodeIP status) ≫= il_IPv4) in
  let acc := addIP acc (rangePairs 4 (ci_NodeIP status) ≫= il_IPv6) in
  let acc := addCIDR acc (rangePairs 5 (ci_PodCIDR status) ≫= il_IPv4) in
  let acc := addCIDR acc (rangePairs 6 (ci_PodCIDR status) ≫= il_IPv6) in
  let acc := match ci_ClusterIP status with
    | Some ips => addCIDR (addCIDR acc (il_IPv4 ips)) (il_IPv6 ips)
    | None => acc
    end in
  addCIDR acc (ci_ExtraCidr status).

(** [process]: [sets.String] lists its members in order. *)
Definition process (gotList expList : list string) (toAdd toDel : string → M W unit) : M W unit :=
  let got : gset string := list_to_set gotList in
  let exp : gset string := list_to_set expList in
  let exp := foldl (λ (exp : gset string) key, if decide (key ∈ exp) then exp ∖ {[key]} else exp) exp gotList in
  let got := foldl (λ (got : gset string) key, if decide (key ∈ got) then got ∖ {[key]} else got) got expList in
  let* _ := mforeach (λ key _, toAdd key) (sortStrings (elements exp)) tt in
  mforeach (λ key _, toDel key) (sortStrings (elements got)) tt.

Definition reconcileClusterInfo (req : NamespacedName) : M W Result :=
  let* info := getOrAbsent (paGetClusterInfo req) in
  match info with
  | None => mret done_
  | Some info =>
      if om_Deleting (ci_Meta info) then mret done_
      else
        let '(ipv4, ipv6) := clusterAddrs (ci_Status info) in
        let* _ := ensureClusterInfoIPSet in
        let* gotIPv4 := ListEntries EgressClusterCIDRIPv4 in
        let* gotIPv6 := ListEntries EgressClusterCIDRIPv6 in
        let ipSet4 := mkIPSet EgressClusterCIDRIPv4 HashNet "inet" 0 0 "" "" in
        let ipSet6 := mkIPSet EgressClusterCIDRIPv6 HashNet "inet6" 0 0 "" "" in
        let* _ := process gotIPv4 ipv4 (λ item, AddEntry item ipSet4 true) (λ item, DelEntry item (is_Name ipSet4)) in
        let* _ := process gotIPv6 ipv6 (λ item, AddEntry item ipSet6 true) (λ item, DelEntry item (is_Name ipSet6)) in
        mret done_
  end.

(** *** All policies *)

Record PolicyCommon := mkCommon {
  pc_NodeName : string;
  pc_DestSubnet : list string;
  pc_IP : EIP;
  pc_UseNodeIP : bool
}.
Definition set_DestSubnet (v : PolicyCommon) (l : list string) : PolicyCommon := mkCommon (pc_NodeName v) l (pc_IP v) (pc_UseNodeIP v).

Record assigned := mkAssigned { unSnatPolicies : gmap Policy PolicyCommon; snatPolicies : gmap Policy PolicyCommon; isEgressNode : bool }.

(** The policies of a gateway's node; a later entry of a policy replaces an earlier one. *)
Definition assignNode (a : assigned) (node : EgressIPStatus) : assigned :=
  if decide (n_Name node = cfg_NodeName cfg) then
    mkAssigned (unSnatPolicies a)
      (foldl (λ m eip, foldl (λ m policy,
         <[policy := mkCommon (n_Name node) [] (mkEIP (e_IPv4 eip) (e_IPv6 eip)) (bool_decide (e_IPv4 eip = "" ∧ e_IPv6 eip = ""))]> m)
         m (e_Policies eip)) (snatPolicies a) (n_Eips node))
      true
  else
    mkAssigned (foldl (λ m eip, foldl (λ m policy, <[policy := mkCommon (n_Name node) [] (mkEIP "" "") false]> m) m (e_Policies eip))
                  (unSnatPolicies a) (n_Eips node))
      (snatPolicies a) (isEgressNode a).
Definition assignAll (gateways : list EgressGateway) : assigned :=
  foldl (λ a item, foldl assignNode a (NodeList item)) (mkAssigned ∅ ∅ false) gateways.

Definition rangePolicies (k : nat) (m : gmap Policy PolicyCommon) : list Policy := @key_order _ (po k) (elements (dom m)).

(** The sets of the policies; their destinations are remembered. *)
Definition updateSets (k : nat) (isEipNodeSet : bool) (m : gmap Policy PolicyCommon) : PM (gmap Policy PolicyCommon) :=
  mforeach (λ policy m,
    match m !! policy with
    | None => mret m
    | Some val =>
        let* subnet := call (getPolicySubnet (p_Namespace policy) (p_Name policy)) in
        let* _ := updatePolicyIPSet (p_Namespace policy) (p_Name policy) isEipNodeSet subnet in
        mret (<[policy := set_DestSubnet val subnet]> m)
    end) (rangePolicies k m) m.

(** [for chain, rules := range chainMapRules]. *)
Definition insertStatic (k : tableKind) (i : nat) (m : chainRulesMap) : PM unit :=
  mforeach (λ chain _, modTable k i (InsertOrAppendRules chain (default [] (m !! chain)))) (@map_order (to k i 7) (elements (dom m))) tt.

(** Destinations that are not given are the addresses outside of the cluster. *)
Definition ignoreInternal (val : PolicyCommon) : bool := bool_decide (pc_DestSubnet val = []).

(** The rules that mark the packets of the policies of other nodes. *)
Definition markRules (k : nat) (version : nat) (m : gmap Policy PolicyCommon) : M W (list Rule) :=
  mforeach (λ policy rules,
    match m !! policy with
    | None => mret rules
    | Some val =>
        let* res := attempt (paGetTunnel (pc_NodeName val)) in
        match res with
        | inr _ => mret rules
        | inl node =>
            let* mark := lift (parseMark (ts_Mark (t_Status node))) in
            let* rule := lift (buildPolicyRule (policyKey (p_Namespace policy) (p_Name policy)) mark version (ignoreInternal val)) in
            mret (rules ++ [rule])
        end
    end) (rangePolicies k m) [].

Definition replyRules (baseMark : Z) (tunnels : list EgressTunnel) : outcome (list Rule) :=
  oforeach (λ tunnel rules,
    if decide (om_Name (t_Meta tunnel) = cfg_NodeName cfg) then Ret rules
    else if decide (ts_Mark (t_Status tunnel) = "" ∨ tun_MAC (ts_Tunnel (t_Status tunnel)) = "") then Ret rules
    else
      let! rule := buildPreroutingReplyRouting (cfg_VXLANName cfg) baseMark (ts_Mark (t_Status tunnel)) (tun_MAC (ts_Tunnel (t_Status tunnel))) in
      Ret (rules ++ rule)) tunnels [].
Definition restoreRule : Rule :=
  mkRule (CTDirectionOriginal [] DirectionReply) (Some (RestoreConnMarkAction Mask)) ["label for restoring connections, rule is from the EgressGateway"].

(** The rules that give the packets of the policies of this node their address. *)
Definition snatRules (k : nat) (version : nat) (m : gmap Policy PolicyCommon) : outcome (list Rule) :=
  oforeach (λ policy rules,
    match m !! policy with
    | None => Ret rules
    | Some val =>
        if decide ((version = 4 ∧ pc_UseNodeIP val = false ∧ V4 (pc_IP val) = "") ∨ (version = 6 ∧ pc_UseNodeIP val = false ∧ V6 (pc_IP val) = "")) then Ret rules
        else
          let! rule := buildEipRule (policyKey (p_Namespace policy) (p_Name policy)) (pc_IP val) version (ignoreInternal val) (pc_UseNodeIP val) in
          Ret (rules ++ [rule])
    end) (rangePolicies k m) [].

Definition replyChain : string := "EGRESSGATEWAY-REPLY-ROUTING".
Definition markChain : string := "EGRESSGATEWAY-MARK-REQUEST".
Definition snatChain : string := "EGRESSGATEWAY-SNAT-EIP".

Definition programFilter (baseMark : Z) : PM unit :=
  forTables KFilter (λ i _, let* m := lift (buildFilterStaticRule baseMark) in insertStatic KFilter i m).
Definition programMangle (baseMark : Z) (a : assigned) : PM unit :=
  let* _ := forTables KMangle (λ i _,
    let* _ := modTable KMangle i (UpdateChain (mkChain replyChain [])) in
    let* _ := modTable KMangle i (UpdateChain (mkChain markChain [])) in
    let* m := lift (buildMangleStaticRule baseMark (isEgressNode a) (cfg_EnableGatewayReplyRoute cfg) (cfg_GatewayReplyRouteMark cfg mod 2 ^ 32)%Z) in
    insertStatic KMangle i m) in
  forTables KMangle (λ i version,
    let* rules := call (markRules (2 + 2 * i) version (unSnatPolicies a)) in
    let* _ := modTable KMangle i (UpdateChain (mkChain markChain rules)) in
    let* tunnels := call paListTunnels in
    let* rules := lift (replyRules baseMark tunnels) in
    modTable KMangle i (UpdateChain (mkChain replyChain (rules ++ [restoreRule])))).
Definition programNat (baseMark : Z) (a : assigned) : PM unit :=
  forTables KNat (λ i version,
    let* rules := lift (snatRules (3 + 2 * i) version (snatPolicies a)) in
    let* _ := modTable KNat i (UpdateChain (mkChain snatChain rules)) in
    let* m := lift (buildNatStaticRule baseMark) in
    insertStatic KNat i m).
Definition applyTables (fuel : nat) : PM unit :=
  let* _ := forTables KNat (λ i _, applyTable fuel KNat i) in
  let* _ := forTables KFilter (λ i _, applyTable fuel KFilter i) in
  forTables KMangle (λ i _, applyTable fuel KMangle i).

(** Sets with the prefix of the agent that it does not know are destroyed. *)
Definition cleanSets : PM unit :=
  let* setList := call ListSets in
  mforeach (λ name _,
    if HasPrefix name "egress-" then
      if decide (name = EgressClusterCIDRIPv6 ∨ name = EgressClusterCIDRIPv4) then mret tt
      else
        let* r := getP in
        match ipsetMap r !! name with
        | Some _ => mret tt
        | None => let* _ := attempt (call (DestroySet name)) in mret tt
        end
    else mret tt) setList tt.

Definition initApplyPolicy (fuel : nat) : PM unit :=
  let* gateways := call paListGateways in
  match gateways with
  | [] => mret tt
  | _ =>
      let* _ := call ensureClusterInfoIPSet in
      let a := assignAll gateways in
      let* unSnat := updateSets 0 false (unSnatPolicies a) in
      let* snat := updateSets 1 true (snatPolicies a) in
      let a := mkAssigned unSnat snat (isEgressNode a) in
      let* baseMark := lift (parseMark (cfg_Mark cfg)) in
      let* _ := programFilter baseMark in
      let* _ := programMangle baseMark a in
      let* _ := programNat baseMark a in
      let* _ := applyTables fuel in
      cleanSets
  end.

(** *** Handlers *)

(** The last node of the gateway that has the policy. *)
Definition assignedNode (gateway : EgressGateway) (p : Policy) : string :=
  foldl (λ nodeName node, if decide (Exists (λ eip, p ∈ e_Policies eip) (n_Eips node)) then n_Name node else nodeName) "" (NodeList gateway).

(** The update of the sets of a policy that is stored. *)
Definition updatePolicy (meta : ObjectMeta) (gatewayName : string) (destSubnet : list string) : PM Result :=
  let* gateway := call (getOrAbsent (paGetGateway gatewayName)) in
  match gateway with
  | None => mret done_
  | Some gateway =>
      let nodeName := assignedNode gateway (mkPolicy (om_Name meta) (om_Namespace meta)) in
      let* _ := updatePolicyIPSet (om_Namespace meta) (om_Name meta) (bool_decide (nodeName = cfg_NodeName cfg)) destSubnet in
      mret done_
  end.
Definition reconcilePolicy (req : NamespacedName) : PM Result :=
  let* policy := call (getOrAbsent (paGetPolicy req)) in
  match policy with
  | None => mret done_
  | Some p =>
      if om_Deleting (ep_Meta p) then mret done_
      else updatePolicy (ep_Meta p) (pol_EgressGatewayName (ep_Spec p)) (pol_DestSubnet (ep_Spec p))
  end.
Definition reconcileClusterPolicy (req : NamespacedName) : PM Result :=
  let* policy := call (getOrAbsent (paGetClusterPolicy req)) in
  match policy with
  | None => mret done_
  | Some p =>
      if om_Deleting (cp_Meta p) then mret done_
      else updatePolicy (cp_Meta p) (cpol_EgressGatewayName (cp_Spec p)) (cpol_DestSubnet (cp_Spec p))
  end.

Definition reconcileGateway (fuel : nat) (req : NamespacedName) : PM Result :=
  let* _ := initApplyPolicy fuel in mret done_.
Definition reconcileTunnel (fuel : nat) (req : NamespacedName) : PM Result :=
  let* _ := initApplyPolicy fuel in mret done_.

(** [redo], with fuel. *)
Fixpoint redo (times fuel : nat) : PM unit :=
  match times with
  | O => lift Timeout
  | S times' =>
      let* res := attempt (initApplyPolicy fuel) in
      match res with inl _ => mret tt | inr _ => redo times' fuel end
  end.

Definition Reconcile (times fuel : nat) (req : NamespacedName) : PM Result :=
  let* r := getP in
  let* _ := (if doOnce r then mret tt else let* _ := redo times fuel in modP set_doOnce) in
  let* (kind, newReq) := lift (ParseKindWithReq req) in
  if decide (kind = "EgressGateway") then reconcileGateway fuel newReq
  else if decide (kind = "EgressClusterPolicy") then reconcileClusterPolicy newReq
  else if decide (kind = "EgressPolicy") then reconcilePolicy newReq
  else if decide (kind = "EgressClusterInfo") then call (reconcileClusterInfo newReq)
  else if decide (kind = "EgressTunnel") then reconcileTunnel fuel newReq
  else mret done_.
End police.

(** ** Start and events *)

Definition policyOptions (cfg : AgentConfig) : Options :=
  mkOptions ["egw"] "insert" (cfg_RefreshInterval cfg) (cfg_InitialPostWriteInterval cfg) false false (cfg_nft cfg).
(** The part of [newPolicyController] that makes the reconciler. *)
Definition newPolicyController (cfg : AgentConfig) (now : Z) : outcome policeReconciler :=
  let table name v := NewTable name v "egw:" (policyOptions cfg) now in
  let! v4 := (if cfg_EnableIPv4 cfg then
      let! mangle := table "mangle" 4 in
      let! nat := table "nat" 4 in
      let! filter := table "filter" 4 in
      Ret ([mangle], [filter], [nat])
    else Ret ([], [], [])) in
  let! v6 := (if cfg_EnableIPv6 cfg then
      let! mangle := table "mangle" 6 in
      let! nat := table "nat" 6 in
      let! filter := table "filter" 6 in
      Ret ([mangle], [filter], [nat])
    else Ret ([], [], [])) in
  Ret (mkPolice ∅ false (v4.1.1 ++ v6.1.1) (v4.1.2 ++ v6.1.2) (v4.2 ++ v6.2)).

(** A change of a slice is a change of its policy. *)
Definition enqueueEndpointSlice (obj : ObjectMeta) : list NamespacedName :=
  match om_Labels obj !! LabelPolicyName with
  | None => []
  | Some policyName =>
      if decide (om_Namespace obj = "") then [mkNN "EgressClusterPolicy/" policyName]
      else [mkNN (pathJoin "EgressPolicy" (om_Namespace obj)) policyName]
  end.
