(* ===== verification/PoliceSets.v ===== *)
(** * The sets of the policies

    What the sets hold when the handlers of [Police] return, and what they leave alone
    whatever fails. *)

From S2P Require Import Prelude GoStd GoNet GoFmt Types Utils ApiServer Sha1 IPUtil EndpointSlice Triple IptablesRule IptablesTable IPSet IPSetLaws Police.
Open Scope nat_scope.

(** ** Names *)

Lemma hexdigit_name d : (0 <= d < 16)%Z → nameChar (hexdigit d) = true.
Proof. revert d. apply digit_ind; done. Qed.

Lemma length_hex l : length (l ≫= hex2) = 2 * length l.
Proof. induction l as [|b l IH]; [done|]. cbn [mbind list_bind]. rewrite length_app, IH. cbn. lia. Qed.
Lemma sha1Hex_chars name : Forall (λ c, nameChar c = true) (sha1Hex name) ∧ length (sha1Hex name) = 40.
Proof.
  unfold sha1Hex. destruct (sha1_bytes (bytesOf name)) as [Hl Hb]. split; [|by rewrite length_hex, Hl].
  apply Forall_bind. eapply Forall_impl; [exact Hb|]. intros b [? ?]. unfold hex2. repeat apply Forall_cons_2; [..|done]; apply hexdigit_name.
  - split; [apply Z.div_pos; lia|apply Z.div_lt_upper_bound; lia].
  - apply Z.mod_pos_bound. lia.
Qed.

(** A name with a prefix of 14 characters has 31 in all, the most a set may have. *)
Definition setName (prefix name : string) : string := prefix +:+ unchars (take 17 (sha1Hex name)).
Lemma formatIPSetName_eq prefix name : length (chars prefix) = 14 → formatIPSetName prefix name = Ret (setName prefix name).
Proof. intros H. unfold formatIPSetName. destruct (sha1Hex_chars name) as [_ ->]. rewrite H. done. Qed.
Lemma setName_chars prefix name : chars (setName prefix name) = chars prefix ++ take 17 (sha1Hex name).
Proof. unfold setName. by rewrite chars_app, chars_unchars. Qed.
Lemma setName_length prefix name : length (chars prefix) = 14 → length (chars (setName prefix name)) = 31.
Proof. intros H. rewrite setName_chars, length_app, length_take, H. destruct (sha1Hex_chars name) as [_ ->]. done. Qed.
Lemma setName_nameChars prefix name : Forall (λ c, nameChar c = true) (chars prefix) → Forall (λ c, nameChar c = true) (chars (setName prefix name)).
Proof. intros H. rewrite setName_chars. apply Forall_app_2; [done|]. apply Forall_take. by destruct (sha1Hex_chars name). Qed.
Lemma setName_lower prefix name : lowerName prefix → lowerName (setName prefix name).
Proof. intros [(c & l & E & Hc) H]. split; [|by apply setName_nameChars]. rewrite setName_chars, E. by eexists _, _. Qed.
Lemma setName_prefix_inj p q name1 name2 : length (chars p) = length (chars q) → setName p name1 = setName q name2 → p = q.
Proof. intros Hl E. apply (f_equal chars) in E. rewrite !setName_chars in E. by apply chars_inj, (app_inj_1 _ _ _ _ Hl E). Qed.

(** The four sets that a policy may have. *)
Definition setsOf (ns name : string) (en4 en6 : bool) : list SetName :=
  let key := policyKey ns name in
  (if en4 then [mkSetName (setName "egress-src-v4-" key) IPv4 IPSrc; mkSetName (setName "egress-dst-v4-" key) IPv4 IPDst] else []) ++
  (if en6 then [mkSetName (setName "egress-src-v6-" key) IPv6 IPSrc; mkSetName (setName "egress-dst-v6-" key) IPv6 IPDst] else []).
Lemma buildIPSetNames_eq ns name en4 en6 : buildIPSetNamesByPolicy ns name en4 en6 = Ret (setsOf ns name en4 en6).
Proof. unfold buildIPSetNamesByPolicy, setsOf. destruct en4, en6; by rewrite ?formatIPSetName_eq by done. Qed.

Definition agentName (n : string) : Prop := lowerName n ∧ HasPrefix n "egress-" = true.
Lemma setName_agent rest name : Forall (λ c, nameChar c = true) (chars rest) → agentName (setName ("egress-" +:+ rest) name).
Proof.
  intros H. split; [|unfold HasPrefix; rewrite setName_chars, chars_app, <- app_assoc, take_app_length; by apply bool_decide_eq_true]. apply setName_lower. split; [by eexists _, _|]. rewrite chars_app. apply Forall_app_2; [|done].
  apply (bool_decide_unpack _). vm_compute. exact I.
Qed.

Lemma setsOf_spec ns name en4 en6 : NoDup (sn_Name <$> setsOf ns name en4 en6) ∧
  ∀ set, set ∈ setsOf ns name en4 en6 →
    agentName (sn_Name set) ∧ length (chars (sn_Name set)) = 31 ∧ sn_Name set ≠ EgressClusterCIDRIPv4 ∧ sn_Name set ≠ EgressClusterCIDRIPv6 ∧
    match sn_Stack set with IPv4 => en4 = true | IPv6 => en6 = true end.
Proof.
  unfold setsOf. split.
  - destruct en4, en6; cbn; repeat first [apply NoDup_nil_2|apply NoDup_cons; split]; intros H;
      repeat (apply elem_of_cons in H as [H|H]; [by apply setName_prefix_inj in H|]); by apply elem_of_nil in H.
  - intros set Hset.
    assert (∃ rest stack kind, set = mkSetName (setName ("egress-" +:+ rest) (policyKey ns name)) stack kind ∧ rest ∈ ["src-v4-"; "dst-v4-"; "src-v6-"; "dst-v6-"] ∧
      match stack with IPv4 => en4 = true | IPv6 => en6 = true end) as (rest & stack & kind & -> & Hr & Hst).
    { destruct en4, en6; cbn in Hset.
      all: repeat (apply elem_of_cons in Hset as [Hset|Hset]; [first [exists "src-v4-", IPv4, IPSrc; split_and!; [exact Hset|set_solver|done]
        |exists "dst-v4-", IPv4, IPDst; split_and!; [exact Hset|set_solver|done]|exists "src-v6-", IPv6, IPSrc; split_and!; [exact Hset|set_solver|done]
        |exists "dst-v6-", IPv6, IPDst; split_and!; [exact Hset|set_solver|done]]|]).
      all: by apply elem_of_nil in Hset. }
    assert (length (chars ("egress-" +:+ rest)) = 14 ∧ Forall (λ c, nameChar c = true) (chars rest)) as [Hl Hc].
    { repeat (apply elem_of_cons in Hr as [->|Hr]; [split; [done|apply (bool_decide_unpack _); vm_compute; exact I]|]). by apply elem_of_nil in Hr. }
    cbn [sn_Name sn_Stack]. split_and!; [by apply setName_agent|by apply setName_length| | |done].
    all: intros E; apply (f_equal (λ s, length (chars s))) in E; rewrite setName_length in E by done; done.
Qed.

(** ** What leaves the sets alone *)

Create HintDb frames.

Definition keepsSets {W} `{IL : InterfaceLaws W} {A} (c : M W A) : Prop := ∀ w, sets (c w).1 = sets w.

Class SetFrames (W : Type) `{LS : LabelSelectors} `{PA : !PoliceApi W} `{IF : !Interface W} `{IL : !InterfaceLaws W} := {
  fr_ListGateways : keepsSets paListGateways;
  fr_GetGateway n : keepsSets (paGetGateway n);
  fr_GetPolicy n : keepsSets (paGetPolicy n);
  fr_GetClusterPolicy n : keepsSets (paGetClusterPolicy n);
  fr_GetTunnel n : keepsSets (paGetTunnel n);
  fr_ListTunnels : keepsSets paListTunnels;
  fr_GetClusterInfo n : keepsSets (paGetClusterInfo n);
  fr_ListSlices n s : keepsSets (paListSlices n s);
  fr_ListClusterSlices s : keepsSets (paListClusterSlices s)
}.
#[export] Hint Resolve fr_ListGateways fr_GetGateway fr_GetPolicy fr_GetClusterPolicy fr_GetTunnel fr_ListTunnels fr_GetClusterInfo
  fr_ListSlices fr_ListClusterSlices : frames.

Section frames.
Context {W : Type} `{IF : !Interface W} `{IL : !InterfaceLaws W}.

Lemma keeps_bind {A B} (c : M W A) (k : A → M W B) : keepsSets c → (∀ a, keepsSets (k a)) → keepsSets (mbind_ c k).
Proof. intros Hc Hk w. unfold mbind_. specialize (Hc w). destruct (c w) as [w' [a|e|p|]]; cbn in *; [by rewrite Hk|done..]. Qed.
Lemma keeps_ret {A} (a : A) : keepsSets (W := W) (mret a).
Proof. done. Qed.
Lemma keeps_err {A} e : keepsSets (W := W) (A := A) (merr e).
Proof. done. Qed.
Lemma keeps_lift {A} (c : outcome A) : keepsSets (W := W) (lift c).
Proof. done. Qed.
Lemma keeps_attempt {A} (c : M W A) : keepsSets c → keepsSets (attempt c).
Proof. intros Hc w. unfold attempt. specialize (Hc w). by destruct (c w) as [w' [a|e|p|]]. Qed.
Lemma keeps_getOrAbsent {A} (c : M W A) : keepsSets c → keepsSets (getOrAbsent c).
Proof. intros Hc. apply keeps_bind; [by apply keeps_attempt|]. intros [a|e]; [done|]. by case_match. Qed.
Lemma keeps_foreach {A B} (f : A → B → M W B) l b : (∀ x b, keepsSets (f x b)) → keepsSets (mforeach f l b).
Proof. intros Hf. revert b. induction l as [|x l IH]; intros b; cbn [mforeach]; [done|]. by apply keeps_bind. Qed.
End frames.
#[export] Hint Resolve keeps_bind keeps_ret keeps_err keeps_lift keeps_attempt keeps_getOrAbsent keeps_foreach : frames.

(** ** Rules of the reconciler's monad *)

Section rules.
Context {W : Type}.
Abbreviation Props := (policeReconciler * W → Prop).

Lemma tri_call {A} (P : Props) (c : M W A) (Q : A → Props) (E : Props) :
  (∀ r w, P (r, w) → match (c w).2 with Ret a => Q a (r, (c w).1) | _ => E (r, (c w).1) end) → tri P (call c) Q E.
Proof. intros H [r w] HP. specialize (H r w HP). unfold call. cbn [fst snd]. by destruct (c w) as [w' [a|e|p|]]. Qed.
Lemma tri_getP {A} (P : Props) (k : policeReconciler → M (policeReconciler * W) A) Q E :
  (∀ r, tri (λ s, P s ∧ s.1 = r) (k r) Q E) → tri P (mbind_ getP k) Q E.
Proof. intros H [r w] HP. by apply (H r (r, w)). Qed.
Lemma tri_modP (P : Props) f (Q : unit → Props) E : (∀ r w, P (r, w) → Q tt (f r, w)) → tri P (modP f) Q E.
Proof. intros H [r w] HP. by apply H. Qed.

Context (P : Props).
Lemma inv_call {A} (c : M W A) : (∀ r w, P (r, w) → P (r, (c w).1)) → keepsInv P (call c).
Proof. intros H. apply tri_call. intros r w Hs. specialize (H r w Hs). by destruct (c w).2. Qed.
Lemma inv_modP f : (∀ r w, P (r, w) → P (f r, w)) → keepsInv P (modP f).
Proof. intros H. by apply tri_modP. Qed.
Lemma inv_getP {A} (k : policeReconciler → M (policeReconciler * W) A) : (∀ r, keepsInv P (k r)) → keepsInv P (mbind_ getP k).
Proof. intros H. apply tri_getP. intros r. eapply tri_pre; [|apply H]. by intros s [? _]. Qed.
Lemma inv_forTables k f : (∀ i v, keepsInv P (f i v)) → keepsInv P (forTables k f).
Proof. intros Hf. apply inv_getP. intros r. apply inv_foreach. intros [i t] [] _. apply Hf. Qed.
End rules.

(** ** Edits of sets *)

Section edits.
Context {S : Type} (view : S → gmap string (gset string)) (R : S → Prop).
Context (step : string → gset string → gset string).
Definition edits (es : list string) (m : gset string) : gset string := foldl (λ m e, step e m) m es.

(** Entries of one set. *)
Lemma tri_edits n (op : string → M S unit) :
  (∀ e k, tri (λ s, R s ∧ view s = k) (op e) (λ _ s, R s ∧ ∃ m, k !! n = Some m ∧ view s = <[n := step e m]> k) (λ s, R s ∧ view s = k)) →
  ∀ es k m, k !! n = Some m →
  tri (λ s, R s ∧ view s = k) (mforeach (λ e _, op e) es tt)
    (λ _ s, R s ∧ view s = <[n := edits es m]> k) (λ s, R s ∧ ∃ m', view s = <[n := m']> k).
Proof.
  intros Hop es k m Hm. eapply tri_pre; [|apply (tri_foreach (λ done _ s, R s ∧ view s = <[n := edits done m]> k))].
  - intros s [? ->]. split; [done|]. cbn. by rewrite insert_id.
  - intros done e _ _. eapply tri_post; [apply Hop|..].
    + intros _ s [HR (m' & Hm' & ->)]. rewrite lookup_insert_eq in Hm'. injection Hm' as <-. split; [done|].
      rewrite insert_insert_eq. unfold edits. by rewrite foldl_app.
    + intros s [HR ->]. split; [done|]. by eexists.
Qed.

(** Entries of several sets. *)
Context (body : string → M S unit) (es : string → list string).
Definition editAll (keys : list string) (k : gmap string (gset string)) : gmap string (gset string) :=
  foldl (λ k n, alter (edits (es n)) n k) k keys.
Definition onlyIn (keys : list string) (k k' : gmap string (gset string)) : Prop :=
  dom k' = dom k ∧ ∀ n, n ∉ keys → k' !! n = k !! n.

Lemma editAll_cons n keys k : editAll (n :: keys) k = editAll keys (alter (edits (es n)) n k).
Proof. done. Qed.
Lemma dom_editAll keys k : dom (editAll keys k) = dom k.
Proof. revert k. induction keys as [|n keys IH]; intros k; [done|]. by rewrite editAll_cons, IH, dom_alter_L. Qed.
Lemma editAll_out keys k n : n ∉ keys → editAll keys k !! n = k !! n.
Proof.
  revert k. induction keys as [|n' keys IH]; intros k; [done|]. intros [? ?]%not_elem_of_cons. rewrite editAll_cons, IH by done.
  by rewrite lookup_alter_ne.
Qed.
Lemma editAll_in keys k n : NoDup keys → n ∈ keys → editAll keys k !! n = edits (es n) <$> k !! n.
Proof.
  revert k. induction keys as [|n' keys IH]; intros k; [by intros _ ?%elem_of_nil|].
  intros [Hn' Hnd]%NoDup_cons [->|Hn]%elem_of_cons; rewrite editAll_cons.
  - rewrite editAll_out by done. by rewrite lookup_alter_eq.
  - rewrite IH by done. rewrite lookup_alter_ne; [done|]. by intros ->.
Qed.

Lemma onlyIn_editAll keys keys' k n m : n ∈ keys → keys' ⊆ keys → is_Some (k !! n) → onlyIn keys k (<[n := m]> (editAll keys' k)).
Proof.
  intros Hn Hs Hk. split.
  - rewrite dom_insert_L, dom_editAll. apply elem_of_dom in Hk. set_solver.
  - intros n' Hn'. rewrite lookup_insert_ne by congruence. apply editAll_out. set_solver.
Qed.

Lemma tri_editAll keys k :
  (∀ n k m, n ∈ keys → k !! n = Some m → tri (λ s, R s ∧ view s = k) (body n)
     (λ _ s, R s ∧ view s = <[n := edits (es n) m]> k) (λ s, R s ∧ ∃ m', view s = <[n := m']> k)) →
  (∀ n, n ∈ keys → is_Some (k !! n)) →
  tri (λ s, R s ∧ view s = k) (mforeach (λ n _, body n) keys tt) (λ _ s, R s ∧ view s = editAll keys k) (λ s, R s ∧ onlyIn keys k (view s)).
Proof.
  intros Hbody Hk. apply (tri_post _ _ (λ _ s, R s ∧ view s = editAll keys k ∧ keys ⊆ keys) _ (λ s, R s ∧ onlyIn keys k (view s))); [|naive_solver|done].
  eapply tri_pre; [|apply (tri_foreach (λ done _ s, R s ∧ view s = editAll done k ∧ done ⊆ keys))].
  - intros s [? ->]. split_and!; [done|done|]. by intros ? ?%elem_of_nil.
  - intros done n _ Hn. assert (is_Some (editAll done k !! n)) as [m Hm] by (apply elem_of_dom; rewrite dom_editAll; apply elem_of_dom; auto).
    intros s (HR & Hv & Hs). pose proof (Hbody n _ m Hn Hm s (conj HR Hv)) as H. destruct (body n s) as [s' [u|e|p|]]; cbn [fst snd] in *.
    + destruct H as [HR' ->]. split_and!; [done| |set_solver]. unfold editAll at 2. rewrite foldl_app. cbn. fold (editAll done k).
      apply map_eq. intros n'. destruct (decide (n' = n)) as [->|]; [by rewrite lookup_insert_eq, lookup_alter_eq, Hm|].
      by rewrite lookup_insert_ne, lookup_alter_ne by done.
    + destruct H as (HR' & m' & ->). split; [done|]. apply onlyIn_editAll; auto.
    + destruct H as (HR' & m' & ->). split; [done|]. apply onlyIn_editAll; auto.
    + destruct H as (HR' & m' & ->). split; [done|]. apply onlyIn_editAll; auto.
Qed.
End edits.

(** ** The sets of a policy *)

Section sets.
Context {W : Type} `{LS : LabelSelectors} `{PA : !PoliceApi W} `{IF : !Interface W} `{IL : !InterfaceLaws W} `{SF : !SetFrames W}.
Context (so : nat → MapOrder) (cfg : AgentConfig).
Abbreviation Props := (policeReconciler * W → Prop).

(** The sets that the agent knows exist. *)
Definition known (s : policeReconciler * W) : Prop :=
  ∀ n set, ipsetMap s.1 !! n = Some set → is_Name set = n ∧ agentName n ∧ is_Some (sets s.2 !! n).

Definition sameTables (r r' : policeReconciler) : Prop :=
  doOnce r' = doOnce r ∧ ∀ k, tablesOf k r' = tablesOf k r.

Lemma sameTables_ipsetMap r r' m : sameTables r r' → sameTables r (set_ipsetMap m r').
Proof. intros [H1 H2]. split; [done|]. intros []; [apply (H2 KMangle)|apply (H2 KFilter)|apply (H2 KNat)]. Qed.

Lemma getPolicySrcIPs_keeps ns name f : keepsSets (getPolicySrcIPs ns name f).
Proof. unfold getPolicySrcIPs. apply keeps_bind; [done|]. intros sel. case_decide; eauto with frames. Qed.
Lemma getPolicySubnet_keeps ns name : keepsSets (getPolicySubnet so ns name).
Proof. unfold getPolicySubnet. case_decide; eauto with frames. Qed.

(** From the sets [k0], only the sets named change. *)
Context (r0 : policeReconciler) (k0 : gmap string (gset string)).
Definition within (names : list string) (s : policeReconciler * W) : Prop :=
  known s ∧ sameTables r0 s.1 ∧ (∀ n, n ∉ names → sets s.2 !! n = k0 !! n).

Lemma known_sets r w w' : sets w' = sets w → known (r, w) → known (r, w').
Proof. intros E H n set. cbn. rewrite E. apply H. Qed.
Lemma within_sets names r w w' : sets w' = sets w → within names (r, w) → within names (r, w').
Proof. intros E (H1 & H2 & H3). split_and!; [by eapply known_sets|done|]. cbn in *. by rewrite E. Qed.
Definition names_of (setNames : list SetName) : list string := sn_Name <$> setNames.

(** A set that exists afterwards. *)
Lemma known_created r w w' set : agentName (is_Name set) → sets w' = created (is_Name set) (sets w) →
  known (r, w) → known (set_ipsetMap (<[is_Name set := set]> (ipsetMap r)) r, w').
Proof.
  intros Ha E H n x. cbn. intros [[<- <-]|[Hne Hx]]%lookup_insert_Some.
  - split_and!; [done|done|]. rewrite E. unfold created. destruct (sets w !! is_Name set) eqn:El; [by rewrite El|]. by rewrite lookup_insert_eq.
  - destruct (H _ _ Hx) as (? & ? & [m Hm]). split_and!; [done|done|]. cbn in Hm. rewrite E. unfold created. destruct (sets w !! is_Name set) eqn:El; [by eexists|].
    rewrite lookup_insert_ne by done. by eexists.
Qed.

Lemma tri_createIPSet names set : sn_Name set ∈ names → agentName (sn_Name set) →
  match sn_Stack set with IPv4 => cfg_EnableIPv4 cfg = true | IPv6 => cfg_EnableIPv6 cfg = true end → ∀ have : list string,
  tri (λ s, within names s ∧ ∀ n, n ∈ have → is_Some (ipsetMap s.1 !! n)) (createIPSet cfg set)
    (λ _ s, within names s ∧ ∀ n, n ∈ have ++ [sn_Name set] → is_Some (ipsetMap s.1 !! n)) (within names).
Proof.
  intros Hin Ha Hen have. unfold createIPSet. apply tri_getP. intros r. destruct (ipsetMap r !! sn_Name set) as [x|] eqn:Ex.
  { apply tri_ret. intros s [[Hw Hh] <-]. split; [done|]. intros n [?|Hn]%elem_of_app; [auto|]. apply list_elem_of_singleton in Hn as ->. by rewrite Ex. }
  rewrite decide_False by (destruct (sn_Stack set); naive_solver congruence). rewrite decide_False by (destruct (sn_Stack set); naive_solver congruence).
  set (new := mkIPSet _ _ _ _ _ _ _).
  eapply (tri_bind _ _ _ (λ x s, is_Name x = sn_Name set ∧ sameTables r0 s.1 ∧ (∀ n, n ∈ have → is_Some (ipsetMap s.1 !! n)) ∧
    (∀ n, n ∉ names → sets s.2 !! n = k0 !! n) ∧ known (set_ipsetMap (<[sn_Name set := x]> (ipsetMap s.1)) s.1, s.2))).
  - apply tri_call. intros r' w [[(Hk & Ht & Ho) Hh] _]. pose proof (create_law new w (proj1 Ha)) as Hlaw.
    destruct (CreateSet new true w) as [w' [x|e|p|]]; cbn in *; [|by apply (within_sets _ _ w)..].
    destruct Hlaw as [Hx Hs]. split_and!; [done|done|done| |].
    + intros n Hn. rewrite Hs. unfold created. destruct (sets w !! sn_Name set); [auto|]. rewrite lookup_insert_ne by congruence. auto.
    + rewrite <- Hx. apply (known_created r' w w'); [by rewrite Hx|by rewrite Hx|done].
  - intros x. apply tri_modP. intros r' w (Hx & Ht & Hh & Ho & Hk). cbn in *. split; [by split_and!; [|apply sameTables_ipsetMap|]|].
    intros n [Hn|Hn]%elem_of_app; cbn; [|apply list_elem_of_singleton in Hn as ->; by rewrite lookup_insert_eq].
    destruct (decide (n = sn_Name set)) as [->|]; [by rewrite lookup_insert_eq|]. rewrite lookup_insert_ne by done. auto.
Qed.

(** *** Differences *)

Definition wanted (src dst : list string * list string) (set : SetName) : list string :=
  let l := match sn_Kind set with IPSrc => src | IPDst => dst end in
  match sn_Stack set with IPv4 => l.1 | IPv6 => l.2 end.

(** The difference that is stored for a set of [k]. *)
Definition diffOf (k : gmap string (gset string)) (src dst : list string * list string) (d : diffs) (set : SetName) : Prop :=
  ∃ m l, k !! sn_Name set = Some m ∧ l ≡ₚ elements m ∧
    d.1 !! sn_Name set = Some (findDiff l (wanted src dst set)).1 ∧ d.2 !! sn_Name set = Some (findDiff l (wanted src dst set)).2.

Definition enabled (set : SetName) : Prop :=
  match sn_Stack set with IPv4 => cfg_EnableIPv4 cfg = true | IPv6 => cfg_EnableIPv6 cfg = true end.

Lemma tri_diffSet k src dst set d (R : Props) : lowerName (sn_Name set) → is_Some (k !! sn_Name set) → enabled set → (∀ r w w', sets w' = sets w → R (r, w) → R (r, w')) →
  tri (λ s, R s ∧ sets s.2 = k) (diffSet cfg src dst set d)
    (λ d' s, (R s ∧ sets s.2 = k) ∧ diffOf k src dst d' set ∧
       ∃ x y, d' = (<[sn_Name set := x]> d.1, <[sn_Name set := y]> d.2)) (λ s, R s ∧ sets s.2 = k).
Proof.
  intros Hn [m Hm] Hen HR [r w] [Hr Hk]. cbn in Hk. unfold diffSet, mbind_, attempt, call, mret, merr. cbn [fst snd].
  pose proof (entries_law (sn_Name set) w Hn) as Hlaw. destruct (ListEntries (sn_Name set) w) as [w' [l|e|p|]]; destruct Hlaw as [Hs Hl]; cbn [fst snd].
  2: destruct (Contains (errText e) missingSet) eqn:Hc; [apply Hl in Hc; congruence|].
  2,3,4: split; [by apply (HR _ w)|by cbn; congruence].
  destruct Hl as (m' & Hm' & Hl). assert (m' = m) as -> by congruence.
  assert (∀ T (x y z : T), (if decide (sn_Stack set = IPv4 ∧ cfg_EnableIPv4 cfg = true) then x else if cfg_EnableIPv6 cfg then y else z) =
    match sn_Stack set with IPv4 => x | IPv6 => y end) as Hif.
  { intros T x y z. unfold enabled in Hen. destruct (sn_Stack set); rewrite Hen; [by rewrite decide_True|by rewrite decide_False by naive_solver]. }
  unfold diffOf, wanted. destruct (match sn_Kind set with IPSrc => src | IPDst => dst end) as [v4 v6].
  cbn [fst snd]. rewrite Hif. split; [split; [by apply (HR _ w)|by cbn; congruence]|]. split.
  - exists m, l. rewrite <- Hk. split_and!; [done|done|..]; destruct (sn_Stack set); destruct (findDiff l _); cbn; by rewrite lookup_insert_eq.
  - destruct (sn_Stack set); destruct (findDiff l _) as [x y]; by exists x, y.
Qed.

(** *** Entries *)

(** The reconciler does not change while entries are added and deleted. *)
Lemma tri_addEntry r n set : ipsetMap r !! n = Some set → is_Name set = n → lowerName n → ∀ e k,
  tri (λ s, s.1 = r ∧ sets s.2 = k)
    (let* res := attempt (call (AddEntry e set true)) in
     match res with inr err => if decide (err = ErrAlreadyAddedEntry) then mret tt else merr err | inl _ => mret tt end)
    (λ _ s, s.1 = r ∧ ∃ m, k !! n = Some m ∧ sets s.2 = <[n := {[member e]} ∪ m]> k) (λ s, s.1 = r ∧ sets s.2 = k).
Proof.
  intros Hx Hn Hl e k [r' w] [Hr Hk]. cbn in Hr, Hk. subst r'. unfold mbind_, attempt, call, mret, merr. cbn [fst snd].
  pose proof (add_law e set w) as Hlaw. rewrite Hn in Hlaw. specialize (Hlaw Hl).
  destruct (AddEntry e set true w) as [w' [[]|err|p|]]; cbn [fst snd]; [|destruct Hlaw as [Hne ?]; rewrite decide_False by done|..]; rewrite <- Hk; split; done.
Qed.
Lemma tri_delEntry r n : lowerName n → ∀ e k,
  tri (λ s, s.1 = r ∧ sets s.2 = k) (call (DelEntry e n))
    (λ _ s, s.1 = r ∧ ∃ m, k !! n = Some m ∧ sets s.2 = <[n := m ∖ {[member e]}]> k) (λ s, s.1 = r ∧ sets s.2 = k).
Proof.
  intros Hl e k. apply tri_call. intros r' w [Hr Hk]. cbn in Hr, Hk. subst r'. pose proof (del_law e n w Hl) as Hlaw. rewrite <- Hk.
  by destruct (DelEntry e n w) as [w' [[]|err|p|]].
Qed.

Definition addStep (e : string) (m : gset string) : gset string := {[member e]} ∪ m.
Definition delStep (e : string) (m : gset string) : gset string := m ∖ {[member e]}.
Lemma edits_add es m : edits addStep es m = list_to_set (member <$> es) ∪ m.
Proof. unfold edits. revert m. induction es as [|e es IH]; intros m; cbn; [set_solver|]. rewrite IH. unfold addStep. set_solver. Qed.
Lemma edits_del es m : edits delStep es m = m ∖ list_to_set (member <$> es).
Proof. unfold edits. revert m. induction es as [|e es IH]; intros m; cbn; [set_solver|]. rewrite IH. unfold delStep. set_solver. Qed.

Definition listed (d : gmap string (list string)) (n : string) : list string := default [] (d !! n).
Lemma order_dom (o : MapOrder) (d : gmap string (list string)) : NoDup (@map_order o (elements (dom d))) ∧ ∀ n, n ∈ @map_order o (elements (dom d)) ↔ n ∈ dom d.
Proof. split; [rewrite map_order_perm; apply NoDup_elements|]. intros n. by rewrite map_order_perm, elem_of_elements. Qed.

Lemma tri_addEntries r k d : (∀ n, n ∈ dom d → lowerName n ∧ is_Some (k !! n) ∧ ∃ set, ipsetMap r !! n = Some set ∧ is_Name set = n) →
  tri (λ s, s.1 = r ∧ sets s.2 = k) (addEntries so d)
    (λ _ s, s.1 = r ∧ sets s.2 = editAll addStep (listed d) (@map_order (so 1) (elements (dom d))) k)
    (λ s, s.1 = r ∧ onlyIn (@map_order (so 1) (elements (dom d))) k (sets s.2)).
Proof.
  intros H. destruct (order_dom (so 1) d) as [_ Hord]. apply (tri_editAll (λ s, sets s.2) (λ s, s.1 = r)); [|intros n Hn%Hord; by apply H].
  intros n k' m Hn%Hord Hm. destruct (H n Hn) as (Hl & _ & set & Hx & Hname). apply tri_getP. intros r'.
  intros s [Hs Hr']. assert (r' = r) as -> by (destruct Hs; congruence). rewrite Hx. revert s Hs Hr'.
  intros s Hs _. revert s Hs. apply (tri_edits (λ s, sets s.2) (λ s, s.1 = r) addStep n); [|done]. by apply tri_addEntry.
Qed.
Lemma tri_delEntries r k d : (∀ n, n ∈ dom d → lowerName n ∧ is_Some (k !! n)) →
  tri (λ s, s.1 = r ∧ sets s.2 = k) (delEntries so d)
    (λ _ s, s.1 = r ∧ sets s.2 = editAll delStep (listed d) (@map_order (so 2) (elements (dom d))) k)
    (λ s, s.1 = r ∧ onlyIn (@map_order (so 2) (elements (dom d))) k (sets s.2)).
Proof.
  intros H. destruct (order_dom (so 2) d) as [_ Hord]. apply (tri_editAll (λ s, sets s.2) (λ s, s.1 = r)); [|intros n Hn%Hord; by apply H].
  intros n k' m Hn%Hord Hm. apply (tri_edits (λ s, sets s.2) (λ s, s.1 = r) delStep n); [|done]. apply tri_delEntry. by apply H.
Qed.

Lemma member_fixed (l : list string) : (∀ e, e ∈ l → member e = e) → member <$> l = l.
Proof. intros Hl. rewrite <- (list_fmap_id l) at 2. apply list_fmap_ext. intros i e He%list_elem_of_lookup_2. by apply Hl. Qed.

(** What both edits leave of a set. *)
Lemma diff_applied l m new : l ≡ₚ elements m → (∀ e, e ∈ m → member e = e) → (∀ e, e ∈ normalEntry <$> new → member e = e) →
  edits delStep (findDiff l new).2 (edits addStep (findDiff l new).1 m) = list_to_set (normalEntry <$> new).
Proof.
  intros Hl Hm Hn. rewrite edits_del, edits_add. unfold findDiff. cbn [fst snd]. set (news := normalEntry <$> new) in *.
  assert (∀ e, e ∈ l ↔ e ∈ m) as Hlm by (intros e; by rewrite Hl, elem_of_elements).
  rewrite !member_fixed; [|intros e [_ ?]%list_elem_of_filter; first [by apply Hn|by apply Hm, Hlm]..].
  apply set_eq. intros e. rewrite elem_of_difference, elem_of_union, !elem_of_list_to_set, !list_elem_of_filter, !elem_of_list_to_set, Hlm.
  destruct (decide (e ∈ m)), (decide (e ∈ news)); tauto.
Qed.

(** *** The whole update *)

Lemma within_onlyIn names keys k s : within names s → sets s.2 = k → ∀ s', s'.1 = s.1 → onlyIn keys k (sets s'.2) → (∀ n, n ∈ keys → n ∈ names) → within names s'.
Proof.
  intros (Hk & Ht & Ho) E s' Er [Hd Hout] Hin. split_and!.
  - intros n set Hx. rewrite Er in Hx. destruct (Hk n set Hx) as (? & ? & Hs). split_and!; [done|done|]. apply elem_of_dom. rewrite Hd, <- E. by apply elem_of_dom.
  - by rewrite Er.
  - intros n Hn. rewrite Hout by auto. rewrite <- E. by apply Ho.
Qed.
Lemma onlyIn_all step es keys k : onlyIn keys k (editAll step es keys k).
Proof. split; [apply dom_editAll|]. intros n Hn. by apply editAll_out. Qed.

Section update.
Context (src dst : list string * list string) (setNames : list SetName).
Abbreviation names := (names_of setNames).
Context (Hnd : NoDup names) (Hset : ∀ set, set ∈ setNames → agentName (sn_Name set) ∧ enabled set).

(** All sets of the policy exist and are known. *)
Definition present (s : policeReconciler * W) : Prop := within names s ∧ ∀ n, n ∈ names → is_Some (ipsetMap s.1 !! n).
Definition right (k : gmap string (gset string)) : Prop := ∀ set, set ∈ setNames →
  (∀ e, e ∈ normalEntry <$> wanted src dst set → member e = e) → k !! sn_Name set = Some (list_to_set (normalEntry <$> wanted src dst set)).

Lemma tri_create : tri (within names) (mforeach (λ set _, createIPSet cfg set) setNames tt) (λ _, present) (within names).
Proof.
  eapply tri_pre; [|apply (tri_foreach (λ done _ s, within names s ∧ ∀ n, n ∈ names_of done → is_Some (ipsetMap s.1 !! n)))].
  - intros s Hs. split; [done|]. by intros n ?%elem_of_nil.
  - intros done set [] Hin. destruct (Hset set Hin) as [Ha He]. eapply tri_post; [apply (tri_createIPSet names set); [by apply list_elem_of_fmap_2|done|done]| |done].
    intros ? s. unfold names_of. by rewrite fmap_app.
Qed.

Lemma tri_diffs k r : (∀ set, set ∈ setNames → is_Some (k !! sn_Name set)) →
  tri (λ s, s.1 = r ∧ sets s.2 = k) (mforeach (diffSet cfg src dst) setNames (∅, ∅))
    (λ d s, (s.1 = r ∧ sets s.2 = k) ∧ (∀ set, set ∈ setNames → diffOf k src dst d set) ∧ dom d.1 = list_to_set names ∧ dom d.2 = list_to_set names)
    (λ s, s.1 = r ∧ sets s.2 = k).
Proof.
  intros Hk. eapply (tri_post _ _ _ _ (λ s, s.1 = r ∧ sets s.2 = k)); [eapply tri_pre; [|apply (tri_foreach (λ done d s, (s.1 = r ∧ sets s.2 = k) ∧ (∀ set, set ∈ done → set ∈ setNames ∧ diffOf k src dst d set) ∧
    dom d.1 = list_to_set (names_of done) ∧ dom d.2 = list_to_set (names_of done)))]|..].
  - intros s Hs. split_and!; [apply Hs|apply Hs| |by cbn; rewrite dom_empty_L..]. by intros set ?%elem_of_nil.
  - intros done set d Hin [r' w] (Hs & Hd & Hd1 & Hd2). destruct (Hset set Hin) as [Ha He].
    pose proof (tri_diffSet k src dst set d (λ s, s.1 = r) (proj1 Ha) (Hk set Hin) He ltac:(done) (r', w) Hs) as H.
    destruct (diffSet cfg src dst set d (r', w)) as [s' [d'|e|p|]]; cbn [fst snd] in *; [|done..].
    destruct H as (Hs' & Hnew & x & y & ->). split_and!; [apply Hs'|apply Hs'| | |].
    + intros set' [Hx|Hx]%elem_of_app; [|by apply list_elem_of_singleton in Hx as ->]. destruct (Hd set' Hx) as [Hin' (m & l & Hm & Hl & H1 & H2)]. split; [done|].
      destruct (decide (sn_Name set' = sn_Name set)) as [E|Hne].
      { assert (set' = set) as ->; [|done]. apply list_elem_of_lookup in Hin as [i Hi], Hin' as [j Hj]. assert (i = j) as <-; [|congruence].
        apply (NoDup_lookup _ _ _ (sn_Name set) Hnd); unfold names_of; rewrite list_lookup_fmap; [by rewrite Hi|by rewrite Hj, <- E]. }
      exists m, l. cbn. by rewrite !lookup_insert_ne by done.
    + cbn. rewrite dom_insert_L, Hd1. unfold names_of. rewrite fmap_app, list_to_set_app_L. cbn. set_solver.
    + cbn. rewrite dom_insert_L, Hd2. unfold names_of. rewrite fmap_app, list_to_set_app_L. cbn. set_solver.
  - intros d s (Hs & Hd & ? & ?). split; [done|]. split; [|done]. intros set Hin. by apply Hd.
  - done.
Qed.

(** The entries come and go. *)
Lemma tri_entries r k w d : (∀ set, set ∈ setNames → diffOf k src dst d set) → dom d.1 = list_to_set names → dom d.2 = list_to_set names →
  present (r, w) → sets w = k →
  tri (λ s, s.1 = r ∧ sets s.2 = k) (let* _ := addEntries so d.1 in delEntries so d.2) (λ _ s, within names s ∧ right (sets s.2)) (within names).
Proof.
  intros Hd Hd1 Hd2 [Hw Hhave] Hk.
  assert (∀ n, n ∈ names → lowerName n ∧ is_Some (k !! n)) as Hn.
  { intros n Hn. destruct (Hhave n Hn) as [set Hx]. destruct Hw as [Hkn _]. destruct (Hkn n set Hx) as (_ & [? _] & ?). split; [done|by rewrite <- Hk]. }
  set (keys1 := @map_order (so 1) (elements (dom d.1))). set (keys2 := @map_order (so 2) (elements (dom d.2))).
  destruct (order_dom (so 1) d.1) as [Hnd1 Ho1], (order_dom (so 2) d.2) as [Hnd2 Ho2]. fold keys1 in Hnd1, Ho1. fold keys2 in Hnd2, Ho2.
  rewrite Hd1 in Ho1. rewrite Hd2 in Ho2. setoid_rewrite elem_of_list_to_set in Ho1. setoid_rewrite elem_of_list_to_set in Ho2.
  set (k1 := editAll addStep (listed d.1) keys1 k). set (k2 := editAll delStep (listed d.2) keys2 k1).
  assert (∀ s, s.1 = r → onlyIn keys1 k (sets s.2) → within names s) as Hfail1.
  { intros s Hs Ho. apply (within_onlyIn names keys1 k (r, w)); [done..|]. intros n. by apply Ho1. }
  assert (∀ s, s.1 = r → onlyIn keys2 k1 (sets s.2) → within names s) as Hfail2.
  { intros s Hs [Hdom Hout]. apply Hfail1; [done|]. split; [by rewrite Hdom; apply dom_editAll|]. intros n Hx. rewrite Hout by (rewrite Ho2, <- Ho1; done). by apply editAll_out. }
  eapply (tri_bind _ _ _ (λ _ s, s.1 = r ∧ sets s.2 = k1)).
  { eapply tri_post; [apply (tri_addEntries r k d.1)|done|intros s [? ?]; by apply Hfail1]. intros n. rewrite Hd1, elem_of_list_to_set. intros Hx.
    destruct (Hn n Hx), (Hhave n Hx) as [set Hs]. split_and!; [done|done|]. exists set. split; [done|]. by apply (proj1 Hw). }
  intros _. eapply tri_post; [apply (tri_delEntries r k1 d.2)|..|intros s [? ?]; by apply Hfail2].
  { intros n. rewrite Hd2, elem_of_list_to_set. intros Hx. destruct (Hn n Hx). split; [done|]. apply elem_of_dom. unfold k1. rewrite dom_editAll. by apply elem_of_dom. }
  intros _ s [Hs E]. fold keys2 k2 in E. split; [apply Hfail2; [done|]; rewrite E; apply onlyIn_all|]. rewrite E. intros set Hin Hcan.
  destruct (Hd set Hin) as (m & l & Hm & Hl & H1 & H2). assert (sn_Name set ∈ names) as Hname by by apply list_elem_of_fmap_2.
  unfold k2. rewrite editAll_in by (by try apply Ho2). unfold k1. rewrite editAll_in by (by try apply Ho1). rewrite Hm. cbn. unfold listed. rewrite H1, H2. cbn. f_equal.
  apply diff_applied; [done| |done]. intros e He. apply (member_printed w (sn_Name set) m); [by rewrite Hk|done].
Qed.
End update.

Lemma setsOf_ok ns name : let l := setsOf ns name (cfg_EnableIPv4 cfg) (cfg_EnableIPv6 cfg) in
  NoDup (names_of l) ∧ ∀ set, set ∈ l → agentName (sn_Name set) ∧ enabled set.
Proof. destruct (setsOf_spec ns name (cfg_EnableIPv4 cfg) (cfg_EnableIPv6 cfg)) as [Hnd H]. split; [done|]. intros set Hs. by destruct (H set Hs) as (? & _ & _ & _ & ?). Qed.

(** The endpoints that count on this node. *)
Definition local (isEipNodeSet : bool) (e : EgressEndpoint) : bool := bool_decide (ept_Node e = cfg_NodeName cfg) || isEipNodeSet.
Definition policySets (ns name : string) : list SetName := setsOf ns name (cfg_EnableIPv4 cfg) (cfg_EnableIPv6 cfg).

Lemma tri_updatePolicyIPSet w0 ns name flag dest : known (r0, w0) → sets w0 = k0 →
  tri (λ s, s = (r0, w0)) (updatePolicyIPSet so cfg ns name flag dest)
    (λ _ s, within (names_of (policySets ns name)) s ∧
       ∃ src dst, (getPolicySrcIPs ns name (local flag) w0).2 = Ret src ∧ getDstCIDR dest = Ret dst ∧ right src dst (policySets ns name) (sets s.2))
    (within (names_of (policySets ns name))).
Proof.
  intros Hkn Hk0. unfold updatePolicyIPSet. set (names := names_of (policySets ns name)). destruct (setsOf_ok ns name) as [Hnd Hset].
  assert (within names (r0, w0)) as Hw0 by (split_and!; [done|split; done|intros n _; cbn; by rewrite Hk0]).
  eapply (tri_bind _ _ _ (λ src s, within names s ∧ (getPolicySrcIPs ns name (local flag) w0).2 = Ret src)).
  { apply tri_call. intros r w [= -> ->]. pose proof (getPolicySrcIPs_keeps ns name (local flag) w0) as Hq. fold (local flag).
    destruct (getPolicySrcIPs ns name (local flag) w0) as [w' [src|e|p|]]; cbn in Hq |- *; [split; [|done]|..]; by apply (within_sets _ _ w0). }
  intros src. eapply (tri_bind _ _ _ (λ dst s, within names s ∧ (getPolicySrcIPs ns name (local flag) w0).2 = Ret src ∧ getDstCIDR dest = Ret dst)).
  { apply tri_lift. intros s [Hs Hsrc]. destruct (getDstCIDR dest); [split; [done|]; split; done|done..]. }
  intros dst. eapply (tri_bind _ _ _ (λ l s, (within names s ∧ (getPolicySrcIPs ns name (local flag) w0).2 = Ret src ∧ getDstCIDR dest = Ret dst) ∧ l = policySets ns name)).
  { apply tri_lift. intros s Hs. by rewrite buildIPSetNames_eq. }
  intros l. eapply (tri_pre _ (λ s, within names s ∧ (getPolicySrcIPs ns name (local flag) w0).2 = Ret src ∧ getDstCIDR dest = Ret dst ∧ l = policySets ns name));
    [by intros s [(? & ? & ?) ?]|].
  apply tri_extract. intros (Hsrc & Hdst & ->). eapply tri_bind; [apply (tri_create (policySets ns name) Hset)|]. intros []. apply tri_here. intros [r1 w1] Hc.
  pose proof Hc as [Hw1 Hhave]. assert (∀ set, set ∈ policySets ns name → is_Some (sets w1 !! sn_Name set)) as Hex.
  { intros set Hin. destruct (Hhave (sn_Name set)) as [x Hx]; [by apply list_elem_of_fmap_2|]. by apply (proj1 Hw1) in Hx as (_ & _ & ?). }
  eapply tri_bind; [eapply tri_pre; [|eapply tri_post; [apply (tri_diffs src dst (policySets ns name) Hnd Hset (sets w1) r1 Hex)|done|]]|].
  - by intros s ->.
  - intros [r2 w2] [Hr2 Hs2]. cbn in Hr2, Hs2. subst r2. by apply (within_sets _ _ w1).
  - intros [toAdd toDel]. apply tri_extract. intros (Hd & Hd1 & Hd2).
    eapply tri_post; [apply (tri_entries src dst (policySets ns name) r1 (sets w1) w1 (toAdd, toDel) Hd Hd1 Hd2 Hc eq_refl)| |done].
    intros _ s [? ?]. split; [done|]. by exists src, dst.
Qed.
End sets.

(** C13. An update of the sets of a policy that returns leaves in each of them exactly the
    entries wanted, in normal form: the addresses of the endpoints of the policy that count on
    this node, or the destinations, of the IP version of the set; sets of other names, and the
    tables, are as before.  Whatever fails, sets of other names and the tables are as before,
    and the sets that the agent knows exist. *)
Theorem policy_sets_match {W} `{LS : LabelSelectors} `{PA : !PoliceApi W} `{IF : !Interface W} `{IL : !InterfaceLaws W} `{SF : !SetFrames W}
    (so : nat → MapOrder) (cfg : AgentConfig) r w ns name flag dest : known (r, w) →
  let '((r', w'), o) := updatePolicyIPSet so cfg ns name flag dest (r, w) in
  let setNames := policySets cfg ns name in
  known (r', w') ∧ sameTables r r' ∧ (∀ n, n ∉ names_of setNames → sets w' !! n = sets w !! n) ∧
  match o with
  | Ret _ => ∃ src dst, (getPolicySrcIPs ns name (local cfg flag) w).2 = Ret src ∧ getDstCIDR dest = Ret dst ∧
      ∀ set, set ∈ setNames → Forall (λ e, canonicalEntry (normalEntry e)) (wanted src dst set) →
        sets w' !! sn_Name set = Some (list_to_set (normalEntry <$> wanted src dst set))
  | _ => True
  end.
Proof.
  intros Hk. pose proof (tri_updatePolicyIPSet so cfg r (sets w) w ns name flag dest Hk eq_refl (r, w) eq_refl) as H.
  destruct (updatePolicyIPSet so cfg ns name flag dest (r, w)) as [[r' w'] [u|e|p|]]; cbn [fst snd] in H |- *; [|by destruct H as (? & ? & ?)..].
  destruct H as [(? & ? & ?) (src & dst & Hsrc & Hdst & Hr)]. split_and!; [done..|]. exists src, dst. split_and!; [done..|].
  intros set Hs Hc. apply Hr; [done|]. intros e (x & -> & Hx)%list_elem_of_fmap. apply member_canonical. by apply (proj1 (Forall_forall _ _) Hc).
Qed.
