(* ===== verification/PoliceInfo.v ===== *)
(** * The set of the addresses inside the cluster

    What [reconcileClusterInfo] leaves in the sets [egress-cluster-cidr-ipv4] and
    [egress-cluster-cidr-ipv6]. *)

From S2P Require Import Prelude GoStd GoNet GoFmt Types Utils ApiServer Sha1 IPUtil EndpointSlice Triple IptablesRule IptablesTable IPSet IPSetLaws Police PoliceSets.
Open Scope nat_scope.

(** ** The wanted texts *)

(** An address or a block of one IP version, and its text. *)
Definition addrText (v4 : bool) (item x : string) : Prop :=
  let ip := ParseIP item in
  x = IPString ip ∧ if v4 then To4 ip ≠ [] else To4 ip = [] ∧ To16 ip ≠ [].
Definition netText (v4 : bool) (item x : string) : Prop :=
  ∃ ip cidr, ParseCIDR item = Some (ip, cidr) ∧ x = IPNetString cidr ∧ if v4 then To4 ip ≠ [] else To4 ip = [] ∧ To16 ip ≠ [].

Definition ipsOf (p : IPListPair) : list string := il_IPv4 p ++ il_IPv6 p.
(** What counts as inside: the addresses of the nodes, and the blocks of pods, of
    services and of the user. *)
Definition inside (v4 : bool) (status : EgressClusterInfoStatus) (x : string) : Prop :=
  (∃ node p item, ci_NodeIP status !! node = Some p ∧ item ∈ ipsOf p ∧ addrText v4 item x) ∨
  (∃ node p item, ci_PodCIDR status !! node = Some p ∧ item ∈ ipsOf p ∧ netText v4 item x) ∨
  (∃ p item, ci_ClusterIP status = Some p ∧ item ∈ ipsOf p ∧ netText v4 item x) ∨
  (∃ item, item ∈ ci_ExtraCidr status ∧ netText v4 item x).

Definition side (v4 : bool) (acc : list string * list string) : list string := if v4 then acc.1 else acc.2.

Lemma foldl_side v4 (step : list string * list string → string → list string * list string) (P : string → Prop) x :
  (∀ acc item, x ∈ side v4 (step acc item) ↔ x ∈ side v4 acc ∨ P item) →
  ∀ items acc, x ∈ side v4 (foldl step acc items) ↔ x ∈ side v4 acc ∨ ∃ item, item ∈ items ∧ P item.
Proof.
  intros Hstep. induction items as [|item items IH]; intros acc; cbn [foldl]; [set_solver|]. rewrite IH, Hstep. set_solver.
Qed.
Lemma addIP_elem v4 acc items x : x ∈ side v4 (addIP acc items) ↔ x ∈ side v4 acc ∨ ∃ item, item ∈ items ∧ addrText v4 item x.
Proof.
  apply (foldl_side v4 _ (λ item, addrText v4 item x)). intros [a4 a6] item. unfold addrText, side.
  destruct v4; repeat case_decide; cbn; rewrite ?elem_of_app, ?list_elem_of_singleton; naive_solver.
Qed.
Lemma addCIDR_elem v4 acc items x : x ∈ side v4 (addCIDR acc items) ↔ x ∈ side v4 acc ∨ ∃ item, item ∈ items ∧ netText v4 item x.
Proof.
  apply (foldl_side v4 _ (λ item, netText v4 item x)). intros [a4 a6] item. unfold netText, side. destruct (ParseCIDR item) as [[ip cidr]|]; [|destruct v4; naive_solver].
  destruct v4; repeat case_decide; cbn; rewrite ?elem_of_app, ?list_elem_of_singleton; naive_solver.
Qed.

Section info.
Context (so : nat → MapOrder).

Lemma rangePairs_elem k m p : p ∈ rangePairs so k m ↔ ∃ key, m !! key = Some p.
Proof.
  unfold rangePairs. rewrite list_elem_of_omap. split; [naive_solver|]. intros [key Hk]. exists key. split; [|done].
  rewrite map_order_perm, elem_of_elements. apply elem_of_dom. by eexists.
Qed.
Lemma rangePairs_bind k m (f : IPListPair → list string) item : item ∈ rangePairs so k m ≫= f ↔ ∃ key p, m !! key = Some p ∧ item ∈ f p.
Proof. rewrite list_elem_of_bind. setoid_rewrite rangePairs_elem. naive_solver. Qed.

Lemma clusterAddrs_elem v4 status x : x ∈ side v4 (clusterAddrs so status) ↔ inside v4 status x.
Proof.
  unfold clusterAddrs, inside, ipsOf. rewrite addCIDR_elem.
  assert (∀ acc, x ∈ side v4 (match ci_ClusterIP status with Some ips => addCIDR (addCIDR acc (il_IPv4 ips)) (il_IPv6 ips) | None => acc end) ↔
    x ∈ side v4 acc ∨ ∃ p item, ci_ClusterIP status = Some p ∧ item ∈ il_IPv4 p ++ il_IPv6 p ∧ netText v4 item x) as ->.
  { intros acc. destruct (ci_ClusterIP status) as [p|]; [|naive_solver]. rewrite !addCIDR_elem. setoid_rewrite elem_of_app. naive_solver. }
  rewrite !addCIDR_elem, !addIP_elem. setoid_rewrite rangePairs_bind. setoid_rewrite elem_of_app.
  assert (x ∉ side v4 ([], [])) by (destruct v4; by intros ?%elem_of_nil). naive_solver.
Qed.
End info.

(** ** Adding and deleting *)

Section process.
Context {W : Type} `{LS : LabelSelectors} `{PA : !PoliceApi W} `{IF : !Interface W} `{IL : !InterfaceLaws W} `{SF : !SetFrames W}.

Lemma foldl_remove (s : gset string) l : foldl (λ (s : gset string) key, if decide (key ∈ s) then s ∖ {[key]} else s) s l = s ∖ list_to_set l.
Proof. revert s. induction l as [|x l IH]; intros s; cbn; [set_solver|]. rewrite IH. case_decide; set_solver. Qed.

Lemma tri_process set gotList expList k m : lowerName (is_Name set) → k !! is_Name set = Some m → gotList ≡ₚ elements m →
  (∀ e, e ∈ m → member e = e) → (∀ e, e ∈ expList → member e = e) →
  tri (λ w, sets w = k) (process gotList expList (λ item, AddEntry item set true) (λ item, DelEntry item (is_Name set)))
    (λ _ w, sets w = <[is_Name set := list_to_set expList]> k) (λ _, True).
Proof.
  intros Hn Hm Hg Hmem Hexp. unfold process. rewrite !foldl_remove. set (n := is_Name set).
  set (add := sortStrings _). set (del := sortStrings _).
  assert (∀ e, e ∈ gotList ↔ e ∈ m) as Hgm by (intros e; by rewrite Hg, elem_of_elements).
  assert (member <$> add = add) as Ha.
  { apply member_fixed. intros e. unfold add. rewrite sortStrings_perm, elem_of_elements, elem_of_difference, elem_of_list_to_set. intros [? _]. auto. }
  assert (member <$> del = del) as Hd.
  { apply member_fixed. intros e. unfold del. rewrite sortStrings_perm, elem_of_elements, elem_of_difference, elem_of_list_to_set, Hgm. intros [? _]. auto. }
  eapply (tri_bind _ _ _ (λ _ w, True ∧ sets w = <[n := edits addStep add m]> k)).
  - eapply tri_pre; [|eapply tri_post; [apply (tri_edits sets (λ _, True) addStep n); [|done]|done|done]]; [done|].
    intros e k' w [_ Hk']. cbn in Hk'. pose proof (add_law e set w Hn) as Hlaw. rewrite <- Hk'. by destruct (AddEntry e set true w) as [w' [[]|err|p|]]; [|destruct Hlaw| |].
  - intros _. eapply tri_post; [apply (tri_edits sets (λ _, True) delStep n _)|..|done].
    + intros e k' w [_ Hk']. cbn in Hk'. pose proof (del_law e n w Hn) as Hlaw. rewrite <- Hk'. by destruct (DelEntry e n w) as [w' [[]|err|p|]].
    + by rewrite lookup_insert_eq.
    + intros _ w [_ ->]. rewrite insert_insert_eq. f_equal. rewrite edits_del, edits_add, Ha, Hd.
      apply set_eq. intros e. rewrite elem_of_difference, elem_of_union, !elem_of_list_to_set. unfold add, del.
      rewrite !sortStrings_perm, !elem_of_elements, !elem_of_difference, !elem_of_list_to_set, Hgm. destruct (decide (e ∈ m)), (decide (e ∈ expList)); tauto.
Qed.

(** ** The handler *)

Abbreviation n4 := EgressClusterCIDRIPv4.
Abbreviation n6 := EgressClusterCIDRIPv6.
Lemma cluster_names : lowerName n4 ∧ lowerName n6.
Proof. split; (split; [by eexists _, _|apply (bool_decide_unpack _); vm_compute; exact I]). Qed.

Lemma tri_createSet set k : lowerName (is_Name set) → tri (λ w, sets w = k) (CreateSet set true) (λ _ w, sets w = created (is_Name set) k) (λ w, sets w = k).
Proof. intros Hn w Hk. cbn in Hk. pose proof (create_law set w Hn) as H. rewrite <- Hk. by destruct (CreateSet set true w) as [w' [x|e|p|]]; [destruct H| | |]. Qed.

Lemma tri_ensure k : tri (λ w, sets w = k) ensureClusterInfoIPSet (λ _ w, sets w = created n6 (created n4 k)) (λ w, sets w = k ∨ sets w = created n4 k).
Proof.
  destruct cluster_names. unfold ensureClusterInfoIPSet. eapply tri_bind; [eapply tri_post; [by apply (tri_createSet _ k)|done|by left]|]. intros ?.
  eapply tri_bind; [eapply tri_post; [by apply (tri_createSet _ (created n4 k))|done|by right]|]. intros ?. by apply tri_ret.
Qed.

Lemma tri_listEntries n k : lowerName n → tri (λ w, sets w = k) (ListEntries n)
  (λ l w, sets w = k ∧ ∃ m, k !! n = Some m ∧ l ≡ₚ elements m ∧ ∀ e, e ∈ m → member e = e) (λ w, sets w = k).
Proof.
  intros Hn w Hk. cbn in Hk. pose proof (entries_law n w Hn) as H. destruct (ListEntries n w) as [w' [l|e|p|]]; cbn; [|by destruct H; congruence..].
  destruct H as (E & m & Hm & Hl). split; [congruence|]. exists m. split_and!; [congruence|done|]. intros e He. by apply (member_printed w n m).
Qed.

Lemma created_lookup n n' (k : gmap string (gset string)) : n' ≠ n → created n k !! n' = k !! n'.
Proof. intros Hne. unfold created. destruct (k !! n); [done|]. by rewrite lookup_insert_ne. Qed.

Lemma tri_reconcileClusterInfo so req w info : (paGetClusterInfo req w).2 = Ret info → om_Deleting (ci_Meta info) = false →
  (∀ v4 x, inside v4 (ci_Status info) x → member x = x) →
  tri (λ s, s = w) (reconcileClusterInfo so req)
    (λ _ w', sets w' = <[n6 := list_to_set (clusterAddrs so (ci_Status info)).2]> (<[n4 := list_to_set (clusterAddrs so (ci_Status info)).1]> (sets w))) (λ _, True).
Proof.
  intros Hget Hdel Hmem. destruct cluster_names as [Hn4 Hn6]. assert (n4 ≠ n6) as Hne by done. unfold reconcileClusterInfo.
  eapply (tri_bind _ _ _ (λ o s, sets s = sets w ∧ o = Some info)).
  { intros s ->. unfold getOrAbsent, attempt, mbind_, mret. pose proof (fr_GetClusterInfo req w). destruct (paGetClusterInfo req w) as [w1 o]. cbn in Hget. by subst o. }
  intros o. apply tri_extract. intros ->. rewrite Hdel.
  pose proof (λ x, clusterAddrs_elem so true (ci_Status info) x) as H4. pose proof (λ x, clusterAddrs_elem so false (ci_Status info) x) as H6. unfold side in H4, H6.
  destruct (clusterAddrs so (ci_Status info)) as [v4 v6]. cbn [fst snd] in *. set (k := created n6 (created n4 (sets w))).
  eapply tri_bind; [eapply tri_post; [apply (tri_ensure (sets w))|done|done]|]. intros []. fold k.
  eapply tri_bind; [eapply tri_post; [apply (tri_listEntries n4 k Hn4)|done|done]|]. intros got4. apply tri_extract. intros (m4 & Hm4 & Hg4 & Hk4).
  eapply tri_bind; [eapply tri_post; [apply (tri_listEntries n6 k Hn6)|done|done]|]. intros got6. apply tri_extract. intros (m6 & Hm6 & Hg6 & Hk6).
  eapply tri_bind; [apply (tri_process (mkIPSet n4 HashNet "inet" 0 0 "" "") got4 v4 k m4 Hn4 Hm4 Hg4 Hk4)|].
  { intros e He. apply (Hmem true). by apply H4. }
  intros []. cbn [is_Name]. eapply tri_bind; [apply (tri_process (mkIPSet n6 HashNet "inet6" 0 0 "" "") got6 v6 (<[n4 := list_to_set v4]> k) m6 Hn6)|].
  { cbn. by rewrite lookup_insert_ne. }
  { done. }
  { done. }
  { intros e He. apply (Hmem false). by apply H6. }
  intros []. apply tri_ret. intros s ->. cbn [is_Name]. apply map_eq. intros n.
  destruct (decide (n = n6)) as [->|]; [by rewrite !lookup_insert_eq|]. rewrite !(lookup_insert_ne _ n6) by done.
  destruct (decide (n = n4)) as [->|]; [by rewrite !lookup_insert_eq|]. rewrite !lookup_insert_ne by done. unfold k. by rewrite !created_lookup.
Qed.
End process.

(** When [reconcileClusterInfo] returns for a cluster info that is not being deleted, the two
    sets of addresses inside the cluster hold exactly the addresses of the nodes and the
    blocks of pods, services and user of their IP version, and no other set has
    changed.  The texts must be such that the kernel prints them as they are, which excludes
    blocks of a single address. *)
Theorem cluster_sets_match {W} `{LS : LabelSelectors} `{PA : !PoliceApi W} `{IF : !Interface W} `{IL : !InterfaceLaws W} `{SF : !SetFrames W}
    (so : nat → MapOrder) req w w' res info :
  (paGetClusterInfo req w).2 = Ret info → om_Deleting (ci_Meta info) = false → (∀ v4 x, inside v4 (ci_Status info) x → canonicalEntry x) →
  reconcileClusterInfo so req w = (w', Ret res) →
  ∃ m4 m6, sets w' = <[EgressClusterCIDRIPv6 := m6]> (<[EgressClusterCIDRIPv4 := m4]> (sets w)) ∧
    (∀ x, x ∈ m4 ↔ inside true (ci_Status info) x) ∧ (∀ x, x ∈ m6 ↔ inside false (ci_Status info) x).
Proof.
  intros Hget Hdel Hc E. pose proof (tri_reconcileClusterInfo so req w info Hget Hdel) as H.
  specialize (H ltac:(intros v4 x ?; by eapply member_canonical, Hc) w eq_refl). rewrite E in H. cbn in H.
  eexists _, _. split_and!; [exact H|..]; intros x; rewrite elem_of_list_to_set; [apply (clusterAddrs_elem so true)|apply (clusterAddrs_elem so false)].
Qed.
