(* ===== verification/PoliceSafety.v ===== *)
(** * What the handlers of the agent leave alone

    Whatever fails and whatever is stored, the handlers of [Police] touch no set without the
    prefix [egress-], and the sets that the agent knows exist. *)

From S2P Require Import Prelude GoStd GoNet GoFmt Types Utils ApiServer Sha1 IPUtil EndpointSlice Triple IptablesRule IptablesTable IptablesKernel IptablesFrame IPSet IPSetLaws Police PoliceSets PoliceInfo.
Open Scope nat_scope.

(** The iptables programs leave the sets alone. *)
Class TableSets (W : Type) `{IL : InterfaceLaws W} (IT : nat → Iptables W) := {
  ts_save v n : keepsSets (@ipSave W (IT v) n);
  ts_restore v input : keepsSets (@ipRestore W (IT v) input);
  ts_now v : keepsSets (@ipNow W (IT v))
}.

Section safety.
Context {W : Type} `{LS : LabelSelectors} `{PA : !PoliceApi W} `{IF : !Interface W} `{IL : !InterfaceLaws W} `{SF : !SetFrames W}.
Context (IT : nat → Iptables W) `{TS : !TableSets W IT}.
Context (so : nat → MapOrder) (to : tableKind → nat → nat → MapOrder) (po : nat → KeyOrder Policy) (cfg : AgentConfig).
Context (k0 : gmap string (gset string)).
Abbreviation Props := (policeReconciler * W → Prop).

Definition foreignSets (k : gmap string (gset string)) : Prop := ∀ n, HasPrefix n "egress-" = false → k !! n = k0 !! n.
Definition safe : Props := λ s, known s ∧ foreignSets (sets s.2).

(** Sets come or change, under the prefix. *)
Definition evolved (k k' : gmap string (gset string)) : Prop := dom k ⊆ dom k' ∧ ∀ n, HasPrefix n "egress-" = false → k' !! n = k !! n.
Lemma evolved_refl k : evolved k k.
Proof. by split. Qed.
Lemma evolved_insert n m k : HasPrefix n "egress-" = true → evolved k (<[n := m]> k).
Proof. intros Hn. split; [rewrite dom_insert_L; set_solver|]. intros n' Hn'. rewrite lookup_insert_ne by congruence. done. Qed.
Lemma evolved_created n k : HasPrefix n "egress-" = true → evolved k (created n k).
Proof. intros Hn. unfold created. destruct (k !! n); [apply evolved_refl|by apply evolved_insert]. Qed.
Lemma safe_evolved r w w' : safe (r, w) → evolved (sets w) (sets w') → safe (r, w').
Proof.
  intros [Hk Hf] [Hd Ho]. split.
  - intros n set Hx. destruct (Hk n set Hx) as (? & ? & Hs). split_and!; [done|done|]. apply elem_of_dom. apply Hd. by apply elem_of_dom.
  - intros n Hn. cbn. rewrite Ho by done. by apply Hf.
Qed.

Lemma tri_evolves {A} (c : M W A) : (∀ w, evolved (sets w) (sets (c w).1)) → keepsInv safe (call c).
Proof. intros Hc. apply inv_call. intros r w Hs. by eapply safe_evolved. Qed.
Lemma tri_keepsSets {A} (c : M W A) : keepsSets c → keepsInv safe (call c).
Proof. intros Hc. apply tri_evolves. intros w. rewrite Hc. apply evolved_refl. Qed.
Lemma safe_modP f : (∀ r, ipsetMap (f r) = ipsetMap r) → keepsInv safe (modP f).
Proof. intros Hf. apply inv_modP. intros r w [Hk Ho]. split; [|done]. intros n set. cbn. rewrite Hf. apply Hk. Qed.
Lemma safe_modTable k i f : keepsInv safe (modTable k i f).
Proof. apply safe_modP. by intros r; destruct k. Qed.

Lemma safe_update ns name flag dest : keepsInv safe (updatePolicyIPSet so cfg ns name flag dest).
Proof.
  apply tri_here. intros [r w] Hs. destruct (setsOf_ok cfg ns name) as [_ Hset].
  assert (∀ s, within r (sets w) (names_of (policySets cfg ns name)) s → safe s) as Hw.
  { intros s (Hk & _ & Ho). split; [done|]. intros n Hn. rewrite Ho; [by apply Hs|]. intros (set & -> & Hin)%list_elem_of_fmap. apply Hset in Hin as [[_ ?] _]. congruence. }
  eapply tri_post; [apply (tri_updatePolicyIPSet so cfg r (sets w) w); [apply Hs|done]|intros ? s [? _]; by apply Hw|done].
Qed.

(** ** Calls that change sets under the prefix *)

Lemma cluster_prefix : HasPrefix EgressClusterCIDRIPv4 "egress-" = true ∧ HasPrefix EgressClusterCIDRIPv6 "egress-" = true.
Proof. done. Qed.

Definition evolves {A} (c : M W A) : Prop := ∀ w, evolved (sets w) (sets (c w).1).
Lemma evolved_trans k k' k'' : evolved k k' → evolved k' k'' → evolved k k''.
Proof. intros [H1 H2] [H3 H4]. split; [set_solver|]. intros n Hn. by rewrite H4, H2. Qed.
Lemma evolves_bind {A B} (c : M W A) (k : A → M W B) : evolves c → (∀ a, evolves (k a)) → evolves (mbind_ c k).
Proof.
  intros Hc Hk w. unfold mbind_. specialize (Hc w). destruct (c w) as [w' [a|e|p|]]; cbn in *; [|done..]. eapply evolved_trans; [done|apply Hk].
Qed.
Lemma evolves_keeps {A} (c : M W A) : keepsSets c → evolves c.
Proof. intros Hc w. rewrite Hc. apply evolved_refl. Qed.
Lemma evolves_foreach {A B} (f : A → B → M W B) l b : (∀ x b, evolves (f x b)) → evolves (mforeach f l b).
Proof. intros Hf. revert b. induction l as [|x l IH]; intros b; cbn [mforeach]; [by apply evolves_keeps|]. by apply evolves_bind. Qed.

Lemma evolves_create set : agentName (is_Name set) → evolves (CreateSet set true).
Proof.
  intros [Hl Hp] w. pose proof (create_law set w Hl) as H. destruct (CreateSet set true w) as [w' [x|e|p|]]; cbn; [destruct H as [_ ->]; by apply evolved_created|..]; rewrite H; apply evolved_refl.
Qed.
Lemma evolves_add e set : agentName (is_Name set) → evolves (AddEntry e set true).
Proof.
  intros [Hl Hp] w. pose proof (add_law e set w Hl) as H.
  destruct (AddEntry e set true w) as [w' [x|err|p|]]; cbn; [destruct H as (m & _ & ->); by apply evolved_insert|destruct H as [_ ->]|rewrite H..]; apply evolved_refl.
Qed.
Lemma evolves_del e n : agentName n → evolves (DelEntry e n).
Proof.
  intros [Hl Hp] w. pose proof (del_law e n w Hl) as H. destruct (DelEntry e n w) as [w' [x|err|p|]]; cbn; [destruct H as (m & _ & ->); by apply evolved_insert|rewrite H; apply evolved_refl..].
Qed.
Lemma keeps_entries n : lowerName n → keepsSets (ListEntries n).
Proof. intros Hn w. pose proof (entries_law n w Hn) as H. by destruct (ListEntries n w) as [w' o]; destruct H. Qed.
Lemma keeps_names : keepsSets ListSets.
Proof. intros w. pose proof (names_law w) as H. by destruct (ListSets w) as [w' o]; destruct H. Qed.

Lemma cluster_agent : agentName EgressClusterCIDRIPv4 ∧ agentName EgressClusterCIDRIPv6.
Proof. destruct (@cluster_names), cluster_prefix. by split. Qed.
Lemma evolves_ensure : evolves ensureClusterInfoIPSet.
Proof.
  destruct cluster_agent as [H4 H6]. unfold ensureClusterInfoIPSet. apply evolves_bind; [by apply evolves_create|]. intros ?.
  apply evolves_bind; [by apply evolves_create|]. intros ?. by apply evolves_keeps.
Qed.
Lemma evolves_reconcileClusterInfo req : evolves (reconcileClusterInfo so req).
Proof.
  destruct cluster_agent as [H4 H6]. unfold reconcileClusterInfo, process. apply evolves_bind; [apply evolves_keeps; auto with frames|]. intros [info|]; [|by apply evolves_keeps].
  destruct (om_Deleting (ci_Meta info)); [by apply evolves_keeps|]. destruct (clusterAddrs so (ci_Status info)) as [v4 v6].
  apply evolves_bind; [apply evolves_ensure|]. intros ?. apply evolves_bind; [apply evolves_keeps, keeps_entries, H4|]. intros ?.
  apply evolves_bind; [apply evolves_keeps, keeps_entries, H6|]. intros ?.
  repeat first [apply evolves_bind; [|intros ?]|apply evolves_foreach; intros ? ?|by apply evolves_add|by apply evolves_del|by apply evolves_keeps].
Qed.

(** ** The handlers *)

Lemma safe_applyTable fuel k i : keepsInv safe (applyTable IT to fuel k i).
Proof.
  intros [r w] Hs. unfold applyTable. cbn [fst snd]. destruct (tablesOf k r !! i) as [t|] eqn:Et; [|done].
  pose proof (tri_Apply_frame (IT := IT (tb_IPVersion t)) (to k i) (tb_Name t) (tb_IPVersion t) (λ w', sets w' = sets w)
    (λ w' H, eq_trans (ts_save _ _ w') H) (λ input w' _ H, eq_trans (ts_restore _ input w') H) (λ w' H, eq_trans (ts_now _ w') H) fuel (t, w) (conj (conj eq_refl eq_refl) eq_refl)) as H.
  destruct (Apply (to k i) fuel (t, w)) as [[t' w'] o]. cbn [fst snd] in *.
  assert (sets w' = sets w) as E by (destruct o; apply H). assert (safe (r, w')) as Hsafe by (apply (safe_evolved r w); [done|]; rewrite E; apply evolved_refl).
  assert (safe (set_tables k (<[i := t']> (tablesOf k r)) r, w')) as Hdone by (destruct k; exact Hsafe). by destruct o.
Qed.

Lemma safe_cleanSets : keepsInv safe cleanSets.
Proof.
  unfold cleanSets. apply inv_bind; [apply tri_keepsSets, keeps_names|]. intros names. apply inv_foreach. intros n [] _.
  destruct (HasPrefix n "egress-") eqn:Hp; [|apply inv_ret]. case_decide; [apply inv_ret|]. apply tri_getP. intros r.
  destruct (ipsetMap r !! n) as [x|] eqn:Ex; [eapply tri_pre; [|apply inv_ret]; by intros s [? _]|].
  assert (n ≠ "") as Hne by (by intros ->). eapply (tri_bind _ _ _ (λ _, safe)); [|intros ?; apply inv_ret].
  eapply tri_post; [eapply tri_attempt, (tri_call _ _ (λ _, safe) safe)|by intros []|done]. intros r' w [[Hk Hf] Hr]. cbn in Hr. subst r'.
  pose proof (destroy_law n w Hne) as Hlaw. destruct (DestroySet n w) as [w' [[]|e|p|]]; cbn in *; try (apply (safe_evolved r w); [done|]; rewrite Hlaw; apply evolved_refl).
  split.
  - intros n' set Hx. destruct (Hk n' set Hx) as (? & ? & Hs). split_and!; [done|done|]. cbn in *. rewrite Hlaw, lookup_delete_ne by congruence. done.
  - intros n' Hn'. cbn. rewrite Hlaw, lookup_delete_ne by congruence. by apply Hf.
Qed.

Lemma safe_updateSets k flag m : keepsInv safe (updateSets so po cfg k flag m).
Proof.
  unfold updateSets. apply inv_foreach. intros p m' _. destruct (m' !! p); [|apply inv_ret]. apply inv_bind; [apply tri_keepsSets, getPolicySubnet_keeps|].
  intros ?. apply inv_bind; [apply safe_update|]. intros ?. apply inv_ret.
Qed.
Lemma safe_insertStatic k i m : keepsInv safe (insertStatic to k i m).
Proof. apply inv_foreach. intros c [] _. apply safe_modTable. Qed.
Lemma markRules_keeps k v m : keepsSets (markRules po k v m).
Proof. apply keeps_foreach. intros p rules. destruct (m !! p); [|done]. apply keeps_bind; [apply keeps_attempt, fr_GetTunnel|]. intros [node|]; [|done]. auto with frames. Qed.

Lemma safe_init fuel : keepsInv safe (initApplyPolicy IT so to po cfg fuel).
Proof.
  unfold initApplyPolicy, programFilter, programMangle, programNat, applyTables.
  apply inv_bind; [apply tri_keepsSets; auto with frames|]. intros [|g gs]; [apply inv_ret|].
  apply inv_bind; [apply tri_evolves, evolves_ensure|]. intros ?.
  repeat first [apply safe_updateSets|apply safe_insertStatic|apply safe_applyTable|apply safe_cleanSets|apply inv_lift|apply safe_modTable
    |apply tri_keepsSets, markRules_keeps|apply tri_keepsSets, fr_ListTunnels|apply inv_forTables; intros ? ?|apply inv_bind; [|intros ?]].
Qed.

Lemma safe_redo times fuel : keepsInv safe (redo IT so to po cfg times fuel).
Proof.
  induction times as [|times IH]; cbn [redo]; [apply inv_lift|]. apply inv_bind; [apply inv_attempt, safe_init|]. intros []; [apply inv_ret|done].
Qed.
Lemma safe_updatePolicy meta gw dest : keepsInv safe (updatePolicy so cfg meta gw dest).
Proof.
  unfold updatePolicy. apply inv_bind; [apply tri_keepsSets; auto with frames|]. intros [g|]; [|apply inv_ret].
  apply inv_bind; [apply safe_update|]. intros ?. apply inv_ret.
Qed.
Lemma safe_police_Reconcile times fuel req : keepsInv safe (Reconcile IT so to po cfg times fuel req).
Proof.
  unfold Reconcile. apply inv_getP. intros r. apply inv_bind.
  { destruct (doOnce r); [apply inv_ret|]. apply inv_bind; [apply safe_redo|]. intros ?. by apply safe_modP. }
  intros ?. apply inv_bind; [apply inv_lift|]. intros [kind newReq].
  unfold reconcileGateway, reconcileTunnel, reconcilePolicy, reconcileClusterPolicy.
  repeat case_decide; try apply inv_ret.
  - apply inv_bind; [apply safe_init|]. intros ?. apply inv_ret.
  - apply inv_bind; [apply tri_keepsSets; auto with frames|]. intros [p|]; [|apply inv_ret]. case_match; [apply inv_ret|apply safe_updatePolicy].
  - apply inv_bind; [apply tri_keepsSets; auto with frames|]. intros [p|]; [|apply inv_ret]. case_match; [apply inv_ret|apply safe_updatePolicy].
  - apply tri_evolves, evolves_reconcileClusterInfo.
  - apply inv_bind; [apply safe_init|]. intros ?. apply inv_ret.
Qed.
End safety.

(** C15. Whatever the request, whatever is stored and however the calls fail, a reconcile of
    the agent's policies changes no set whose name lacks the prefix [egress-], and
    afterwards every set in [ipsetMap] still exists in the kernel. *)
Theorem foreign_sets_untouched {W} `{LS : LabelSelectors} `{PA : !PoliceApi W} `{IF : !Interface W} `{IL : !InterfaceLaws W} `{SF : !SetFrames W}
    (IT : nat → Iptables W) `{TS : !TableSets W IT} so to po cfg times fuel req r w : known (r, w) →
  let '((r', w'), _) := Reconcile IT so to po cfg times fuel req (r, w) in
  known (r', w') ∧ ∀ n, HasPrefix n "egress-" = false → sets w' !! n = sets w !! n.
Proof.
  intros Hk. pose proof (safe_police_Reconcile IT so to po cfg (sets w) times fuel req (r, w)) as H.
  specialize (H (conj Hk (λ n _, eq_refl))). destruct (Reconcile IT so to po cfg times fuel req (r, w)) as [[r' w'] o]. cbn [fst snd] in H.
  by destruct o; destruct H.
Qed.
