(* ===== verification/PoliceRules.v ===== *)
(** * The rules of the policies

    What the operations of a table do to what the agent tracks of it, the texts of the rules
    that [Police] builds, and the rules as a function of the policies. *)

From S2P Require Import Prelude GoStd GoNet GoFmt Types Utils ApiServer Sha1 Sha224 IPUtil EndpointSlice Triple IptablesRule IptablesTable IptablesKernel IptablesText IptablesWrite IptablesRead IptablesUpdate IptablesLoad IptablesApply IptablesRefs IptablesTheorems IPSet IPSetLaws Police PoliceSets.
Open Scope nat_scope.

(** ** The chains of the agent *)

Definition agentChain (c : string) : bool := bool_decide (c ∈ [replyChain; markChain; snatChain]).
Abbreviation tinv := (table_inv agentChain).

(** A chain that is referred to will be written. *)
Definition tracked (c : string) (t : Table) : Prop := c ∈ dirtyChains t ∨ refCount t c = 0%Z.
Definition sameKind (t t' : Table) : Prop :=
  tb_opt t' = tb_opt t ∧ tb_Name t' = tb_Name t ∧ tb_IPVersion t' = tb_IPVersion t ∧ hashCommentPrefix t' = hashCommentPrefix t.

Lemma tracked_touched names t t' c : touched names t t' → tracked c t → tracked c t'.
Proof.
  intros [G _ Z] [H|H]; [left; set_solver|]. destruct (decide (c ∈ dirtyChains t')) as [|Hn]; [by left|]. right. by apply (Z c Hn).
Qed.

Lemma insert_facts c rules t : tinv t → let t' := InsertOrAppendRules c rules t in
  sameKind t t' ∧ inSyncWithDataPlane t' = false ∧ chainToInsertedRules t' = <[c := rules]> (chainToInsertedRules t) ∧
  chainToAppendedRules t' = chainToAppendedRules t ∧ chainNameToChain t' = chainNameToChain t ∧ ∀ x, tracked x t → tracked x t'.
Proof.
  intros Hinv. unfold InsertOrAppendRules. set (t1 := set_Rules _ _ _ _). fold (rulesIn (chainToInsertedRules t) c). set (old := rulesIn _ c).
  destruct (swap_rules t1 rules old) as (E1 & E2 & E3 & _). cbv zeta.
  assert (refsChanged t1 (decrefReferredChains old (increfReferredChains rules t1))) as Hch by (eapply refsChanged_trans; [apply increfs_changed|apply decrefs_changed]).
  split_and!; [|done|by rewrite E1|by rewrite E2|by rewrite E3|].
  - unfold refsChanged in Hch. unfold sameKind. cbn. by rewrite Hch.
  - intros x Hx. assert (touched (referred rules ++ referred old) t (decrefReferredChains old (increfReferredChains rules t1))) as Ht.
    { apply touched_swap; [intros y; apply refs_nonneg, Hinv|intros y; apply refs_ins_le, Hinv|done|done]. }
    exact (tracked_touched _ _ _ _ Ht Hx).
Qed.

Lemma update_facts chain t : tinv t → let t' := UpdateChain chain t in
  sameKind t t' ∧ inSyncWithDataPlane t' = false ∧ chainToInsertedRules t' = chainToInsertedRules t ∧ chainToAppendedRules t' = chainToAppendedRules t ∧
  chainNameToChain t' = <[ch_Name chain := chain]> (chainNameToChain t) ∧ (∀ x, tracked x t → tracked x t') ∧ tracked (ch_Name chain) t'.
Proof.
  intros Hinv. destruct (UpdateChain_parts agentChain chain t Hinv) as (Ht & Hc & Hd & E). cbv zeta in *. set (t' := UpdateChain chain t) in *.
  split_and!; [by rewrite E|by rewrite E|by rewrite E|by rewrite E|by rewrite E| |].
  - intros x Hx%(tracked_touched _ _ _ _ Ht). destruct Hx as [Hx|Hx]; [left; apply Hd; by left|right; by rewrite Hc].
  - pose proof (refs_nonneg t' (ch_Name chain) (UpdateChain_refs chain t (ti_refs _ _ Hinv))) as Hpos. destruct (decide (0 < refCount t' (ch_Name chain))%Z).
    + left. apply Hd. right. by rewrite <- Hc.
    + right. lia.
Qed.

(** Rules are put into several chains. *)
Definition insertAll (m : chainRulesMap) (keys : list string) (t : Table) : Table :=
  foldl (λ t c, InsertOrAppendRules c (default [] (m !! c)) t) t keys.

(** What rules must be to be put into a table. *)
Definition hookOf (t : Table) (c : string) : Prop := hook_name agentChain t c.
Definition fineMap (t : Table) (m : chainRulesMap) : Prop :=
  ∀ c rules, m !! c = Some rules → hookOf t c ∧ Forall (rule_fine agentChain (tb_opt t)) rules ∧ rules ≠ [].

Lemma fineMap_same t t' m : sameKind t t' → fineMap t m → fineMap t' m.
Proof. intros (Eo & _) H c rules Hm. unfold hookOf, hook_name, isOurChain. rewrite Eo. exact (H c rules Hm). Qed.

Lemma insertAll_facts m keys t : tinv t → fineMap t m → (∀ c, c ∈ keys → is_Some (m !! c)) → let t' := insertAll m keys t in
  tinv t' ∧ sameKind t t' ∧ (keys ≠ [] ∨ inSyncWithDataPlane t = false → inSyncWithDataPlane t' = false) ∧
  (∀ c rules, c ∈ keys → m !! c = Some rules → rulesIn (chainToInsertedRules t') c = rules) ∧
  (∀ c, c ∉ keys → rulesIn (chainToInsertedRules t') c = rulesIn (chainToInsertedRules t) c) ∧
  chainNameToChain t' = chainNameToChain t ∧ ∀ x, tracked x t → tracked x t'.
Proof.
  revert t. induction keys as [|c keys IH]; intros t Hinv Hm Hk; cbn [insertAll foldl].
  { split_and!; try done; [by intros [?|?]|by intros ? ? ?%elem_of_nil]. }
  destruct (Hk c) as [rules Hc]; [by left|]. rewrite Hc. change (default [] (Some rules)) with rules. destruct (Hm c rules Hc) as (Hh & Hf & Hne).
  destruct (insert_facts c rules t Hinv) as (Hs & Hsync & Hins & Happ & Hch & Htr). cbv zeta in *. set (t1 := InsertOrAppendRules c rules t) in *.
  assert (tinv t1) as Hinv1 by (apply InsertOrAppendRules_inv; [done|]; split_and!; done).
  destruct (IH t1 Hinv1 (fineMap_same t t1 m Hs Hm) ltac:(intros x Hx; apply Hk; by right)) as (H1 & H2 & H3 & H4 & H5 & H6 & H7).
  fold (insertAll m keys t1). cbv zeta in *. set (t2 := insertAll m keys t1) in *.
  assert (∀ x, rulesIn (chainToInsertedRules t1) x = if decide (x = c) then rules else rulesIn (chainToInsertedRules t) x) as Hr1.
  { intros x. rewrite Hins. apply rulesIn_insert. }
  split_and!; [done| |auto| | |congruence|auto].
  - destruct Hs as (? & ? & ? & ?), H2 as (? & ? & ? & ?). unfold sameKind. split_and!; congruence.
  - intros x xs Hx Hxs. destruct (decide (x ∈ keys)) as [|Hn]; [auto|]. rewrite H5, Hr1 by done. apply elem_of_cons in Hx as [->|?]; [|done].
    rewrite decide_True by done. congruence.
  - intros x [Hx Hn]%not_elem_of_cons. rewrite H5, Hr1 by done. by rewrite decide_False.
Qed.

(** ** Texts *)

Definition plainText (s : string) : Prop := newline ∉ chars s.

Lemma plain_app x y : plainText x → plainText y → plainText (x +:+ y).
Proof. unfold plainText. rewrite chars_app, not_elem_of_app. done. Qed.
Lemma plain_chars (P : ascii → Prop) l : Forall P l → ¬ P newline → newline ∉ l.
Proof. intros H Hn Hin. rewrite Forall_forall in H. auto. Qed.
Lemma plain_hex n : (0 <= n)%Z → plainText (hexOf n).
Proof.
  intros Hn. unfold hexOf. apply plain_app; [apply (bool_decide_unpack _); vm_compute; exact I|]. unfold plainText. rewrite chars_unchars.
  apply (plain_chars (λ c, hexval c ≠ None)); [|by intros []; vm_compute]. unfold FormatUint16. revert n Hn. generalize 64.
  induction n as [|fuel IH]; intros n Hn; cbn [formatHex]; [done|].
  assert (∀ d, (0 <= d < 16)%Z → hexval (hexdigit d) ≠ None) as Hd by (intros d ?; by rewrite hexval_hexdigit).
  case_match.
  - constructor; [|done]. apply Hd. lia.
  - apply Forall_app_2; [apply IH; apply Z.div_pos; lia|]. constructor; [|done]. apply Hd. apply Z.mod_pos_bound. lia.
Qed.
Lemma plain_setName p key : Forall (λ c, nameChar c = true) (chars p) → plainText (setName p key).
Proof. intros H. by apply (plain_chars (λ c, nameChar c = true)); [apply setName_nameChars|]. Qed.

Ltac plain := repeat first [assumption|lazymatch goal with
  | |- plainText (_ +:+ _) => apply plain_app
  | |- plainText (hexOf _) => apply plain_hex; first [assumption|done|lia]
  | |- _ => apply (bool_decide_unpack _); vm_compute; exact I
  end].

Lemma rule_fine_intro opt r : Forall plainText (ru_Match r) →
  match ru_Action r with Some a => plainText (ToFragment opt a) ∧ match ReferencedChain a with Some c => own_name agentChain c | None => True end | None => True end →
  rule_fine agentChain opt r.
Proof.
  intros Hm Ha. split; [split; [by apply joinWords_newline|by destruct (ru_Action r); [destruct Ha|]]|].
  intros c (r' & Hr & Hc)%list_elem_of_omap. apply list_elem_of_singleton in Hr as ->. destruct (ru_Action r) as [a|]; [|done]. destruct Ha as [_ Ha]. by rewrite Hc in Ha.
Qed.
Lemma agentChains_named : own_name agentChain replyChain ∧ own_name agentChain markChain ∧ own_name agentChain snatChain.
Proof. repeat split; try done; apply (bool_decide_unpack _); vm_compute; exact I. Qed.

Lemma parseMark_range s m : parseMark s = Ret m → (0 <= m < 2 ^ 32)%Z.
Proof. unfold parseMark. intros H. inv_ret. by apply Z.mod_pos_bound. Qed.
Lemma markMatch_plain base mask m : (0 <= base)%Z → (0 <= mask)%Z → MarkMatchesWithMask [] base mask = Ret m → Forall plainText m.
Proof. intros Hb Hm. unfold MarkMatchesWithMask. repeat case_decide; try done. intros [= <-]. constructor; [|done]. plain. Qed.

(** *** Static rules *)

Ltac fine_rule :=
  apply rule_fine_intro; cbn [ru_Match ru_Action ReferencedChain];
    [first [assumption|by apply Forall_nil_2|repeat (apply Forall_cons_2; [plain|]); by apply Forall_nil_2]
    |split; [cbn [ToFragment markFragment]; plain|first [done|apply agentChains_named]]].

Lemma fineMap_empty t : fineMap t ∅.
Proof. by intros c rules ?%lookup_empty_Some. Qed.
Lemma fineMap_insert t c rules m : HistoricChainPrefixes (tb_opt t) = ["egw"] → c ∈ ["FORWARD"; "OUTPUT"; "POSTROUTING"; "PREROUTING"] →
  rules ≠ [] → Forall (rule_fine agentChain (tb_opt t)) rules → fineMap t m → fineMap t (<[c := rules]> m).
Proof.
  intros Hp Hin Hne Hf Hm c' rules' [[<- <-]|[_ Hc]]%lookup_insert_Some; [|by apply Hm]. split_and!; [|done|done].
  unfold hookOf, hook_name, isOurChain. rewrite Hp. rewrite !elem_of_cons, elem_of_nil in Hin.
  destruct Hin as [->|[->|[->|[->|[]]]]]; (split_and!; [split; [done|]|done|done]); apply (bool_decide_unpack _); vm_compute; exact I.
Qed.
Ltac fine_map := repeat (apply fineMap_insert; [assumption|set_solver|done|repeat (apply Forall_cons_2; [fine_rule|]); by apply Forall_nil_2|]); apply fineMap_empty.

Section static.
Context (t : Table) (Hp : HistoricChainPrefixes (tb_opt t) = ["egw"]) (base : Z) (Hb : (0 <= base)%Z).

Lemma nat_fine m : buildNatStaticRule base = Ret m → fineMap t m.
Proof.
  unfold buildNatStaticRule. intros H. inv_ret. apply markMatch_plain in Hret, Hret0; try done. fine_map.
Qed.
Lemma filter_fine m : buildFilterStaticRule base = Ret m → fineMap t m.
Proof.
  unfold buildFilterStaticRule. intros H. inv_ret. apply markMatch_plain in Hret; try done. fine_map.
Qed.
Lemma mangle_fine egress reply replyMark m : (0 <= replyMark)%Z → buildMangleStaticRule base egress reply replyMark = Ret m → fineMap t m.
Proof.
  intros Hr. unfold buildMangleStaticRule. intros H. inv_ret. apply markMatch_plain in Hret, Hret0; try done.
  destruct egress; inv_ret; [match goal with H : MarkMatchesWithMask [] replyMark _ = _ |- _ => apply markMatch_plain in H; try done end|]; cbn [fst snd app]; fine_map.
Qed.
End static.

(** ** The rules of a policy *)

Definition keyOf (p : Policy) : string := policyKey (p_Namespace p) (p_Name p).

(** From the sources of the policy, to its destinations or to whatever is outside. *)
Definition polMatch (key : string) (version : nat) (outside : bool) : MatchCriteria :=
  let v := if decide (version = 6) then "v6-" else "v4-" in
  let srcName := setName ("egress-src-" +:+ v) key in
  let cluster := if decide (version = 6) then EgressClusterCIDRIPv6 else EgressClusterCIDRIPv4 in
  CTDirectionOriginal (if outside then NotDestIPSet (SourceIPSet [] srcName) cluster else DestIPSet (SourceIPSet [] srcName) (setName ("egress-dst-" +:+ v) key))
    DirectionOriginal.
Lemma policyMatch_eq key version outside : policyMatch key version outside = Ret (polMatch key version outside).
Proof. unfold policyMatch, polMatch. case_decide; rewrite !formatIPSetName_eq by done; by destruct outside. Qed.
Lemma polMatch_plain key version outside : Forall plainText (polMatch key version outside).
Proof.
  assert (∀ p, p ∈ ["egress-src-v4-"; "egress-src-v6-"; "egress-dst-v4-"; "egress-dst-v6-"] → plainText (setName p key)) as Hs.
  { intros p Hp. apply plain_setName. repeat (apply elem_of_cons in Hp as [->|Hp]; [apply (bool_decide_unpack _); vm_compute; exact I|]). by apply elem_of_nil in Hp. }
  unfold polMatch, CTDirectionOriginal, NotDestIPSet, DestIPSet, SourceIPSet. destruct (decide (version = 6)), outside; cbn [app];
    repeat (apply Forall_cons_2; [repeat lazymatch goal with |- plainText (setName _ _) => apply Hs; set_solver | |- plainText (_ +:+ _) => apply plain_app | |- _ => plain end|]); by apply Forall_nil_2.
Qed.

Definition eipRule (p : Policy) (val : PolicyCommon) (version : nat) : Rule :=
  mkRule (polMatch (keyOf p) version (ignoreInternal val))
    (Some (if pc_UseNodeIP val then MasqAction "" else SNATAction (if decide (version = 6) then V6 (pc_IP val) else V4 (pc_IP val))))
    ["snat policy " +:+ keyOf p].
Definition markRule (p : Policy) (val : PolicyCommon) (version : nat) (mark : Z) : Rule :=
  mkRule (polMatch (keyOf p) version (ignoreInternal val)) (Some (SetMaskedMarkAction mark Mask)) ["Set mark for EgressPolicy " +:+ keyOf p].

(** A policy has no address of the IP version. *)
Definition noAddress (version : nat) (val : PolicyCommon) : Prop :=
  (version = 4 ∧ pc_UseNodeIP val = false ∧ V4 (pc_IP val) = "") ∨ (version = 6 ∧ pc_UseNodeIP val = false ∧ V6 (pc_IP val) = "").
#[export] Instance noAddress_dec version val : Decision (noAddress version val).
Proof. unfold noAddress. apply _. Defined.

(** The rules of the policies of this node, one for each that has an address. *)
Definition snatSpec (version : nat) (m : gmap Policy PolicyCommon) : list Rule :=
  omap (λ '(p, val), if decide (noAddress version val) then None else Some (eipRule p val version)) (map_to_list m).
(** The rules of the policies of other nodes, one for each whose mark is known. *)
Definition markSpec (version : nat) (ans : Policy → option Z) (m : gmap Policy PolicyCommon) : list Rule :=
  omap (λ '(p, val), markRule p val version <$> ans p) (map_to_list m).

Lemma omap_keys {K A B} `{Countable K} (m : gmap K A) (g : K → A → option B) keys :
  keys ≡ₚ elements (dom m) → omap (λ k, m !! k ≫= g k) keys ≡ₚ omap (λ '(k, a), g k a) (map_to_list m).
Proof.
  intros ->. assert (elements (dom m) ≡ₚ (map_to_list m).*1) as ->.
  { apply NoDup_Permutation; [apply NoDup_elements|apply NoDup_fst_map_to_list|]. intros k. rewrite elem_of_elements, elem_of_dom, list_elem_of_fmap. split.
    - intros [a Ha]. exists (k, a). split; [done|]. by apply elem_of_map_to_list.
    - intros ([k' a] & -> & Hin%elem_of_map_to_list). by eexists. }
  assert (Forall (λ x, m !! x.1 = Some x.2) (map_to_list m)) as Hl by (rewrite Forall_forall; intros [k a] Hin%elem_of_map_to_list; done).
  induction Hl as [|[k a] l Hk _ IH]; [done|]. cbn in *. rewrite Hk. cbn. by destruct (g k a); [f_equiv|].
Qed.

Lemma oforeach_snoc {K B} (f : K → option B) (step : K → list B → outcome (list B)) keys acc :
  (∀ k acc, step k acc = Ret (acc ++ match f k with Some b => [b] | None => [] end)) → oforeach step keys acc = Ret (acc ++ omap f keys).
Proof.
  intros Hs. revert acc. induction keys as [|k keys IH]; intros acc; cbn [oforeach]; [by rewrite app_nil_r|]. rewrite Hs. cbn. rewrite IH, <- app_assoc.
  by destruct (f k).
Qed.

Section policies.
Context (po : nat → KeyOrder Policy).

Lemma rangePolicies_perm k m : rangePolicies po k m ≡ₚ elements (dom m).
Proof. apply key_order_perm. Qed.

Lemma snatRules_spec k version m : ∃ rules, snatRules po k version m = Ret rules ∧ rules ≡ₚ snatSpec version m.
Proof.
  eexists. split; [|apply omap_keys, (rangePolicies_perm k)]. unfold snatRules. rewrite (oforeach_snoc (λ p, m !! p ≫= λ val, if decide (noAddress version val) then None else Some (eipRule p val version))); [done|].
  intros p acc. destruct (m !! p) as [val|]; cbn; [|by rewrite app_nil_r]. fold (noAddress version val). unfold buildEipRule. rewrite policyMatch_eq.
  destruct (decide (noAddress version val)); [by rewrite app_nil_r|done].
Qed.
End policies.

(** The marks that the agent was told: a tunnel that cannot be read has none. *)
Definition answered {W} `{LS : LabelSelectors} `{PA : !PoliceApi W} (node : string) (o : option Z) : Prop :=
  ∃ w, match o with
    | Some mark => ∃ tunnel, (paGetTunnel node w).2 = Ret tunnel ∧ parseMark (ts_Mark (t_Status tunnel)) = Ret mark
    | None => ∃ e, (paGetTunnel node w).2 = Err e
    end.
Definition answers {W} `{LS : LabelSelectors} `{PA : !PoliceApi W} (m : gmap Policy PolicyCommon) (ans : Policy → option Z) : Prop :=
  ∀ p val, m !! p = Some val → answered (pc_NodeName val) (ans p).

Section marks.
Context {W : Type} `{LS : LabelSelectors} `{PA : !PoliceApi W} (po : nat → KeyOrder Policy).
Lemma tri_markRules (P : W → Prop) k version m : (∀ n w, P w → P (paGetTunnel n w).1) →
  tri P (markRules po k version m) (λ rules w, P w ∧ ∃ ans, answers m ans ∧ rules ≡ₚ markSpec version ans m) (λ _, True).
Proof.
  intros HP. set (f := λ (ans : Policy → option Z) p, m !! p ≫= λ val, markRule p val version <$> ans p).
  eapply tri_post; [eapply tri_pre; [|apply (tri_foreach_pos (λ done rules w, P w ∧ ∃ ans, (∀ p val, p ∈ done → m !! p = Some val → answered (pc_NodeName val) (ans p)) ∧ (∀ p, p ∉ done → ans p = None) ∧ rules = omap (f ans) done))]|..].
  - intros w Hw. split; [done|]. exists (λ _, None). split_and!; [by intros p val ?%elem_of_nil|done|done].
  - intros done p rest rules Hl w (Hw & ans & Ha & Hn & ->).
    assert (NoDup (done ++ p :: rest)) as Hnd by (rewrite <- Hl, rangePolicies_perm; apply NoDup_elements).
    assert (p ∉ done) as Hp by (apply NoDup_app in Hnd as (_ & Hd & _); intros Hin; apply (Hd p Hin); by left).
    assert (∀ ans', (∀ q, q ≠ p → ans' q = ans q) → omap (f ans') (done ++ [p]) = omap (f ans) done ++ match f ans' p with Some r => [r] | None => [] end) as Homap.
    { intros ans' Hans. rewrite omap_app. assert (omap (f ans') done = omap (f ans) done) as ->; [|by cbn; destruct (f ans' p)].
      clear -Hans Hp. induction done as [|q done IH]; [done|]. apply not_elem_of_cons in Hp as [? ?]. cbn. rewrite IH by done.
      assert (f ans' q = f ans q) as -> by (unfold f; by rewrite Hans). done. }
    unfold mbind_, attempt, mret, lift. destruct (m !! p) as [val|] eqn:Em; cbn.
    + pose proof (HP (pc_NodeName val) w Hw) as Hw'. destruct (paGetTunnel (pc_NodeName val) w) as [w' [tn|e|pp|]] eqn:Eg; cbn in *; try done.
      * destruct (parseMark (ts_Mark (t_Status tn))) as [mark|e|pp|] eqn:Epm; cbn; try done. unfold buildPolicyRule. rewrite policyMatch_eq. cbn. split; [done|].
        exists (λ q, if decide (q = p) then Some mark else ans q). split_and!.
        -- intros q v0 Hq Hv. case_decide as Hqp; [|apply Ha; [set_solver|done]]. subst q. assert (v0 = val) as -> by congruence. exists w, tn. by rewrite Eg.
        -- intros q [Hq Hne]%not_elem_of_app. rewrite decide_False by set_solver. by apply Hn.
        -- rewrite Homap by (intros q ?; by rewrite decide_False). f_equal. unfold f. rewrite Em. cbn. by rewrite decide_True.
      * split; [done|]. exists ans. split_and!; [|intros q [? _]%not_elem_of_app; by apply Hn|].
        { intros q v0 [Hq|Hq%list_elem_of_singleton]%elem_of_app Hv; [by apply Ha|]. subst q. rewrite Hn by done. exists w, e. assert (v0 = val) as -> by congruence. by rewrite Eg. }
        rewrite Homap by done. rewrite <- (app_nil_r (omap (f ans) done)) at 1. f_equal. unfold f. rewrite Em. cbn. by rewrite Hn.
    + split; [done|]. exists ans. split_and!; [intros q v0 [Hq|Hq%list_elem_of_singleton]%elem_of_app Hv; [by apply Ha|congruence]|intros q [? _]%not_elem_of_app; by apply Hn|]. rewrite Homap by done. rewrite <- (app_nil_r (omap (f ans) done)) at 1. f_equal. unfold f. by rewrite Em.
  - intros rules w (Hw & ans & Ha & _ & ->). split; [done|]. exists ans. split; [intros p val Hv; apply Ha; [|done]; rewrite rangePolicies_perm, elem_of_elements; by apply elem_of_dom_2 in Hv|]. apply (omap_keys m (λ p val, markRule p val version <$> ans p)), rangePolicies_perm.
  - done.
Qed.
End marks.

(** *** They are fine *)

Lemma eipRule_fine opt p val version : plainText (V4 (pc_IP val)) → plainText (V6 (pc_IP val)) → rule_fine agentChain opt (eipRule p val version).
Proof.
  intros H4 H6. apply rule_fine_intro; [apply polMatch_plain|]. cbn [ru_Action eipRule]. split; [|by destruct (pc_UseNodeIP val)].
  destruct (pc_UseNodeIP val); cbn [ToFragment]; [|destruct (decide (version = 6))]; first [destruct (MASQFullyRandom opt), (SNATFullyRandom opt)]; plain.
Qed.
Lemma markRule_fine opt p val version mark : (0 <= mark)%Z → rule_fine agentChain opt (markRule p val version mark).
Proof. intros Hm. apply rule_fine_intro; [apply polMatch_plain|]. cbn [ru_Action markRule]. split; [|done]. cbn [ToFragment markFragment]. plain. Qed.
Lemma restoreRule_fine opt : rule_fine agentChain opt restoreRule.
Proof. unfold restoreRule, CTDirectionOriginal. cbn [app]. fine_rule. Qed.
Lemma replyRules_fine opt cfg base tunnels rules : (0 <= base)%Z → plainText (cfg_VXLANName cfg) → Forall (λ t, plainText (tun_MAC (ts_Tunnel (t_Status t)))) tunnels →
  replyRules cfg base tunnels = Ret rules → Forall (rule_fine agentChain opt) rules.
Proof.
  intros Hb Hx Hm. unfold replyRules. assert (Forall (rule_fine agentChain opt) []) as Hacc by done. revert Hacc. generalize (@nil Rule) as acc.
  induction Hm as [|t ts Ht _ IH]; intros acc Hacc; cbn [oforeach]; [by intros [= <-]|]. intros H. inv_ret. revert H. apply IH.
  repeat case_decide; inv_ret; try done. apply Forall_app_2; [done|]. unfold buildPreroutingReplyRouting in *. inv_ret.
  match goal with H : parseMark _ = Ret _ |- _ => apply parseMark_range in H as [? _] end.
  match goal with H : MarkMatchesWithMask _ _ _ = Ret _ |- _ => apply markMatch_plain in H; try done end.
  unfold CTDirectionOriginal, SrcMacSource, InInterface. cbn [app]. repeat (apply Forall_cons_2; [fine_rule|]). by apply Forall_nil_2.
Qed.

(** ** Which policies there are *)

Lemma foldl_put (f : Eips → PolicyCommon) eips (m : gmap Policy PolicyCommon) p : let m' := foldl (λ m eip, foldl (λ m q, <[q := f eip]> m) m (e_Policies eip)) m eips in
  (∀ val, m' !! p = Some val → m !! p = Some val ∨ ∃ eip, eip ∈ eips ∧ p ∈ e_Policies eip ∧ val = f eip) ∧
  (is_Some (m !! p) ∨ (∃ eip, eip ∈ eips ∧ p ∈ e_Policies eip) → is_Some (m' !! p)).
Proof.
  assert (∀ x qs (m : gmap Policy PolicyCommon), let m' := foldl (λ m q, <[q := x]> m) m qs in
    (∀ val, m' !! p = Some val → m !! p = Some val ∨ p ∈ qs ∧ val = x) ∧ (is_Some (m !! p) ∨ p ∈ qs → is_Some (m' !! p))) as Hin.
  { intros x qs. induction qs as [|q qs IH]; intros m0; cbn [foldl]; [split; [by left|by intros [?|?%elem_of_nil]]|].
    destruct (IH (<[q := x]> m0)) as [H1 H2]. cbv zeta in *. split.
    - intros val [[[-> ->]|[_ ?]]%lookup_insert_Some|[? ?]]%H1; [right; split; [by left|done]|by left|right; split; [by right|done]].
    - intros H. apply H2. destruct (decide (p = q)) as [->|]; [left; rewrite lookup_insert_eq; by eexists|]. rewrite lookup_insert_ne by done. set_solver. }
  revert m. induction eips as [|e eips IH]; intros m; cbn [foldl]; [split; [by left|by intros [?|(? & ?%elem_of_nil & _)]]|].
  destruct (Hin (f e) (e_Policies e) m) as [H1 H2]. destruct (IH (foldl (λ m q, <[q := f e]> m) m (e_Policies e))) as [H3 H4]. cbv zeta in *. split.
  - intros val [[?|[? ->]]%H1|(eip & ? & ? & ->)]%H3; [by left|right; exists e; split_and!; [by left|done|done]|right; exists eip; split_and!; [by right|done|done]].
  - intros [H|(eip & [->|Hin']%elem_of_cons & Hp)]; apply H4; [left; apply H2; by left|left; apply H2; by right|right; by exists eip].
Qed.

(** What is remembered of a placed policy. *)
Definition localValue (node : EgressIPStatus) (eip : Eips) : PolicyCommon :=
  mkCommon (n_Name node) [] (mkEIP (e_IPv4 eip) (e_IPv6 eip)) (bool_decide (e_IPv4 eip = "" ∧ e_IPv6 eip = "")).
Definition remoteValue (node : EgressIPStatus) : PolicyCommon := mkCommon (n_Name node) [] (mkEIP "" "") false.

Section assigned.
Context (cfg : AgentConfig).

Record assigns (nodes : list EgressIPStatus) (a : assigned) : Prop := {
  as_snat : ∀ p val, snatPolicies a !! p = Some val → ∃ node eip, node ∈ nodes ∧ n_Name node = cfg_NodeName cfg ∧ eip ∈ n_Eips node ∧ p ∈ e_Policies eip ∧ val = localValue node eip;
  as_snat_all : ∀ p node eip, node ∈ nodes → n_Name node = cfg_NodeName cfg → eip ∈ n_Eips node → p ∈ e_Policies eip → is_Some (snatPolicies a !! p);
  as_other : ∀ p val, unSnatPolicies a !! p = Some val → ∃ node eip, node ∈ nodes ∧ n_Name node ≠ cfg_NodeName cfg ∧ eip ∈ n_Eips node ∧ p ∈ e_Policies eip ∧ val = remoteValue node;
  as_other_all : ∀ p node eip, node ∈ nodes → n_Name node ≠ cfg_NodeName cfg → eip ∈ n_Eips node → p ∈ e_Policies eip → is_Some (unSnatPolicies a !! p);
  as_egress : isEgressNode a = true ↔ ∃ node, node ∈ nodes ∧ n_Name node = cfg_NodeName cfg
}.

Lemma assigns_step nodes a node : assigns nodes a → assigns (nodes ++ [node]) (assignNode cfg a node).
Proof.
  intros [H1 H2 H3 H4 H5]. unfold assignNode. assert (∀ x, x ∈ nodes ++ [node] ↔ x ∈ nodes ∨ x = node) as Hin by (intros; by rewrite elem_of_app, list_elem_of_singleton).
  destruct (decide (n_Name node = cfg_NodeName cfg)) as [Hn|Hn]; split; cbn [snatPolicies unSnatPolicies isEgressNode]; setoid_rewrite Hin.
  - intros p val [Hv|(eip & ? & ? & ->)]%(proj1 (foldl_put (localValue node) (n_Eips node) (snatPolicies a) p)); [|exists node, eip; by auto 10].
    destruct (H1 p val Hv) as (nd & eip & ? & ? & ? & ? & ->). exists nd, eip. by auto 10.
  - intros p nd eip [Hnd| ->] Hname He Hp; apply (proj2 (foldl_put (localValue node) (n_Eips node) (snatPolicies a) p)); [left; by eapply H2|right; by exists eip].
  - intros p val Hv. destruct (H3 p val Hv) as (nd & eip & ? & ? & ? & ? & ->). exists nd, eip. by auto 10.
  - intros p nd eip [Hnd| ->] Hname He Hp; [by eapply H4|done].
  - split; [intros _; exists node; by auto|done].
  - intros p val Hv. destruct (H1 p val Hv) as (nd & eip & ? & ? & ? & ? & ->). exists nd, eip. by auto 10.
  - intros p nd eip [Hnd| ->] Hname He Hp; [by eapply H2|done].
  - intros p val [Hv|(eip & ? & ? & ->)]%(proj1 (foldl_put (λ _, remoteValue node) (n_Eips node) (unSnatPolicies a) p)); [|exists node, eip; by auto 10].
    destruct (H3 p val Hv) as (nd & eip & ? & ? & ? & ? & ->). exists nd, eip. by auto 10.
  - intros p nd eip [Hnd| ->] Hname He Hp; apply (proj2 (foldl_put (λ _, remoteValue node) (n_Eips node) (unSnatPolicies a) p)); [left; by eapply H4|right; by exists eip].
  - rewrite H5. split; [intros (nd & ? & ?); exists nd; by auto|]. intros (nd & [?| ->] & ?); [by exists nd|done].
Qed.

Lemma assignAll_assigns gateways : assigns (gateways ≫= NodeList) (assignAll cfg gateways).
Proof.
  assert (∀ nodes l a, assigns nodes a → assigns (nodes ++ l) (foldl (assignNode cfg) a l)) as Hnodes.
  { intros nodes l. revert nodes. induction l as [|nd l IH]; intros nodes a Ha; cbn [foldl]; [by rewrite app_nil_r|].
    replace (nodes ++ nd :: l) with ((nodes ++ [nd]) ++ l) by by rewrite <- app_assoc. by apply IH, assigns_step. }
  assert (∀ gs nodes a, assigns nodes a → assigns (nodes ++ (gs ≫= NodeList)) (foldl (λ a item, foldl (assignNode cfg) a (NodeList item)) a gs)) as Hall.
  { induction gs as [|g gs IH]; intros nodes a Ha; cbn [foldl mbind list_bind]; [by rewrite app_nil_r|]. rewrite app_assoc. by apply IH, Hnodes. }
  apply (Hall gateways []). split; cbn [snatPolicies unSnatPolicies isEgressNode]; try done.
  - by intros p nd eip ?%elem_of_nil.
  - by intros p nd eip ?%elem_of_nil.
  - split; [done|]. by intros (nd & ?%elem_of_nil & _).
Qed.
End assigned.
