(* ===== verification/PoliceTables.v ===== *)
(** * The agent and the kernel's tables

    What the kernel's tables hold when [initApplyPolicy] returns. *)

From S2P Require Import Prelude GoStd GoNet GoFmt Types Utils ApiServer Sha1 Sha224 IPUtil EndpointSlice Triple IptablesRule IptablesTable IptablesKernel IptablesText IptablesWrite IptablesRead IptablesUpdate IptablesLoad IptablesApply IptablesRefs IptablesTheorems IptablesFrame IPSet IPSetLaws Police PoliceSets PoliceRules.
Open Scope nat_scope.

Definition kindName (k : tableKind) : string := match k with KMangle => "mangle" | KFilter => "filter" | KNat => "nat" end.

Section views.
Context {W : Type} (IT : nat → Iptables W) `{KT : !KernelText} (TL : ∀ v n, @IptablesLaws W n (IT v) KT).

(** The kernel's table of an IP version. *)
Definition kview (v : nat) (n : string) (w : W) : gmap string (list string) := @kt W n (IT v) KT (TL v n) w.
Definition keepsKernels {A} (c : M W A) : Prop := ∀ w v n, kview v n (c w).1 = kview v n w.

Definition sameKernels (κ : nat → string → gmap string (list string)) (w : W) : Prop := ∀ v n, kview v n w = κ v n.
Lemma kernels_inv {A} (c : M W A) : keepsKernels c → ∀ κ, keepsInv (sameKernels κ) c.
Proof. intros Hc κ w Hw. assert (sameKernels κ (c w).1) by (intros v n; by rewrite Hc). by destruct (c w).2. Qed.
Lemma kernels_intro {A} (c : M W A) : (∀ κ, keepsInv (sameKernels κ) c) → keepsKernels c.
Proof. intros H w v n. specialize (H (λ v n, kview v n w) w ltac:(by intros ? ?)). destruct (c w) as [w' [a|e|p|]]; apply H. Qed.
End views.

(** The programs work on one table at a time, and nothing else touches tables. *)
Class TableFrames (W : Type) `{LS : LabelSelectors} `{PA : !PoliceApi W} `{IF : !Interface W} (IT : nat → Iptables W) `{KT : !KernelText}
    (TL : ∀ v n, @IptablesLaws W n (IT v) KT) := {
  tf_save v n v' n' w : (v, n) ≠ (v', n') → kview IT TL v' n' (@ipSave W (IT v) n w).1 = kview IT TL v' n' w;
  tf_restore v n input v' n' w : head (linesOf input) = Some ("*" +:+ n) → (v, n) ≠ (v', n') → kview IT TL v' n' (@ipRestore W (IT v) input w).1 = kview IT TL v' n' w;
  tf_now v : keepsKernels IT TL (@ipNow W (IT v));
  tf_ListGateways : keepsKernels IT TL paListGateways;
  tf_GetPolicy n : keepsKernels IT TL (paGetPolicy n);
  tf_GetClusterPolicy n : keepsKernels IT TL (paGetClusterPolicy n);
  tf_GetTunnel n : keepsKernels IT TL (paGetTunnel n);
  tf_ListTunnels : keepsKernels IT TL paListTunnels;
  tf_ListSlices n s : keepsKernels IT TL (paListSlices n s);
  tf_ListClusterSlices s : keepsKernels IT TL (paListClusterSlices s);
  tf_CreateSet s b : keepsKernels IT TL (CreateSet s b);
  tf_AddEntry e s b : keepsKernels IT TL (AddEntry e s b);
  tf_DelEntry e n : keepsKernels IT TL (DelEntry e n);
  tf_DestroySet n : keepsKernels IT TL (DestroySet n);
  tf_ListEntries n : keepsKernels IT TL (ListEntries n);
  tf_ListSets : keepsKernels IT TL ListSets
}.

Section tables.
Context {W : Type} `{LS : LabelSelectors} `{PA : !PoliceApi W} `{IF : !Interface W} (IT : nat → Iptables W) `{KT : !KernelText}
  (TL : ∀ v n, @IptablesLaws W n (IT v) KT) `{TF : !TableFrames W IT TL}.
Context (so : nat → MapOrder) (to : tableKind → nat → nat → MapOrder) (po : nat → KeyOrder Policy) (cfg : AgentConfig).
Abbreviation Props := (policeReconciler * W → Prop).
Abbreviation kv := (kview IT TL).

(** ** Tables that can be trusted *)

Definition kreach (k : tableKind) (t : Table) (w : W) : Prop :=
  @reach W (IT (tb_IPVersion t)) KT (kindName k) (TL (tb_IPVersion t) (kindName k)) agentChain (t, w).
Record tableOK (k : tableKind) (w : W) (t : Table) : Prop := {
  tk_prefixes : HistoricChainPrefixes (tb_opt t) = ["egw"];
  tk_insert : InsertMode (tb_opt t) = "insert";
  tk_legacy : nftablesMode (tb_opt t) = false;
  tk_reach : kreach k t w
}.

Lemma tableOK_facts k w t : tableOK k w t → tinv t ∧ kernel_wf (kv (tb_IPVersion t) (kindName k) w) ∧ tb_Name t = kindName k.
Proof. intros [_ _ _ H]. exact (reach_inv (kindName k) agentChain (t, w) H). Qed.

Lemma tableOK_world k w w' t : tableOK k w t → kv (tb_IPVersion t) (kindName k) w' = kv (tb_IPVersion t) (kindName k) w → tableOK k w' t.
Proof.
  intros H E. destruct (tableOK_facts k w t H) as (_ & Hwf & _). destruct H as [Hp Hi Hl Hr]. split; [done..|]. eapply reach_others; [exact Hr|].
  unfold kview in *. by rewrite E.
Qed.
Lemma tableOK_wf k w w' t : tableOK k w t → kernel_wf (kv (tb_IPVersion t) (kindName k) w') → tableOK k w' t.
Proof. intros [Hp Hi Hl Hr] Hwf. split; [done..|]. by eapply reach_others. Qed.
Lemma tableOK_op k w t op : tableOK k w t → op_ok agentChain t op → sameKind t (runOp t op) → tableOK k w (runOp t op).
Proof.
  intros [Hp Hi Hl Hr] Hop (Eo & _ & Ev & _). split; [by rewrite Eo..|]. unfold kreach in *. rewrite Ev. by apply reach_op.
Qed.

(** The tables of the reconciler, of the IP versions [vs]. *)
Context (vs : list nat) (Hvs : NoDup vs).
Definition allOK (s : policeReconciler * W) : Prop :=
  ∀ k, tb_IPVersion <$> tablesOf k s.1 = vs ∧ ∀ i t, tablesOf k s.1 !! i = Some t → tableOK k s.2 t.

(** The tables of kind [k] are [T], those of other kinds are [O]. *)
Definition focus (k : tableKind) (O : tableKind → list Table) (T : list Table) : Props := λ s,
  allOK s ∧ tablesOf k s.1 = T ∧ ∀ k', k' ≠ k → tablesOf k' s.1 = O k'.

Lemma tablesOf_set k k' l r : tablesOf k' (set_tables k l r) = if decide (k' = k) then l else tablesOf k' r.
Proof. by destruct k, k'. Qed.

Lemma allOK_world r w w' : allOK (r, w) → (∀ v n, kv v n w' = kv v n w) → allOK (r, w').
Proof. intros H E k. destruct (H k) as [Hv Ht]. split; [done|]. intros i t Hi. eapply tableOK_world; [by eapply Ht|apply E]. Qed.
Lemma allOK_table r w k i t : allOK (r, w) → sameKind (default t (tablesOf k r !! i)) t → tableOK k w t → allOK (set_tables k (<[i := t]> (tablesOf k r)) r, w).
Proof.
  intros H Hs Hok k'. cbn [fst snd]. rewrite tablesOf_set. destruct (decide (k' = k)) as [->|]; [|apply H]. destruct (H k) as [Hv Ht]. cbn [fst snd] in Hv, Ht. split.
  - rewrite list_fmap_insert, Hv. apply list_insert_id'. intros Hi. rewrite <- Hv, length_fmap in Hi. apply lookup_lt_is_Some in Hi as [t0 Hi].
    rewrite Hi in Hs. destruct Hs as (_ & _ & Ev & _). cbn in Ev. rewrite <- Hv, list_lookup_fmap, Hi. cbn. by rewrite Ev.
  - intros j t' Hj. destruct (decide (j = i)) as [->|].
    + assert (i < length (tablesOf k r)) by (apply lookup_lt_Some in Hj; by rewrite length_insert in Hj). rewrite list_lookup_insert_eq in Hj by done. by injection Hj as <-.
    + rewrite list_lookup_insert_ne in Hj by done. by eapply Ht.
Qed.

Lemma focus_modTable k O T i t f : T !! i = Some t → (∀ w, tableOK k w t → tableOK k w (f t) ∧ sameKind t (f t)) →
  tri (focus k O T) (modTable k i f) (λ _, focus k O (<[i := f t]> T)) (λ _, True).
Proof.
  intros Hi Hf. apply tri_modP. intros r w (Hok & HT & HO). cbn in HT. cbn [fst snd]. rewrite HT.
  assert (alter f i T = <[i := f t]> T) as -> by (apply list_eq; intros j; destruct (decide (j = i)) as [->|];
    [rewrite list_lookup_alter_eq, Hi, list_lookup_insert_eq by (by apply lookup_lt_Some in Hi); done|by rewrite list_lookup_alter_ne, list_lookup_insert_ne]).
  assert (tablesOf k r !! i = Some t) as Hi' by by rewrite HT. destruct (Hok k) as [_ Ht]. specialize (Ht i t Hi'). cbn in Ht. destruct (Hf w Ht) as [Hok' Hs].
  split_and!.
  - rewrite <- HT. apply allOK_table; [done| |done]. by rewrite Hi'.
  - cbn. by rewrite tablesOf_set, decide_True.
  - intros k' Hk. cbn. rewrite tablesOf_set, decide_False by done. by apply HO.
Qed.
Lemma focus_call {A} k O T (c : M W A) : keepsKernels IT TL c → tri (focus k O T) (call c) (λ _, focus k O T) (λ _, True).
Proof.
  intros Hc. apply tri_call. intros r w (Hok & HT & HO). destruct (c w).2; try done. split_and!; [|done|done]. eapply allOK_world; [done|]. apply Hc.
Qed.
Lemma focus_kv {A} k O T (c : M W A) (Q : A → Prop) : tri (λ _, True) c (λ a _, Q a) (λ _, True) → keepsKernels IT TL c → tri (focus k O T) (call c) (λ a s, focus k O T s ∧ Q a) (λ _, True).
Proof.
  intros HQ Hc [r w] Hs. pose proof (focus_call k O T c Hc (r, w) Hs) as H. specialize (HQ w I). unfold call in *. cbn [fst snd] in *. by destruct (c w) as [w' [a|e|p|]].
Qed.

(** ** Programming the tables *)

Lemma focus_fact {A} k O T i t (c : M _ A) Q E : T !! i = Some t → (tinv t → HistoricChainPrefixes (tb_opt t) = ["egw"] → tri (focus k O T) c Q E) → tri (focus k O T) c Q E.
Proof.
  intros Hi H s Hs. pose proof Hs as (Hok & HT & _). destruct (Hok k) as [_ Ht]. rewrite HT in Ht. destruct (tableOK_facts _ _ _ (Ht i t Hi)) as (Hinv & _).
  apply H; [done|apply (tk_prefixes _ _ _ (Ht i t Hi))|done].
Qed.

Lemma focus_forTables k O (G F : nat → Table → Prop) f T0 : (∀ i t, T0 !! i = Some t → G i t) →
  (∀ i t T, T !! i = Some t → G i t → tri (focus k O T) (f i (tb_IPVersion t)) (λ _ s, ∃ t', focus k O (<[i := t']> T) s ∧ F i t') (λ _, True)) →
  tri (focus k O T0) (forTables k f) (λ _ s, ∃ T, focus k O T s ∧ ∀ i t, T !! i = Some t → F i t) (λ _, True).
Proof.
  intros HG Hf. apply tri_getP. intros r. eapply (tri_pre _ (λ s, focus k O T0 s ∧ (tablesOf k r = T0 ∧ tb_IPVersion <$> T0 = vs))).
  { intros s [(Hok & HT & HO) <-]. split; [done|]. split; [done|]. destruct (Hok k) as [Hv _]. by rewrite <- HT. }
  apply tri_extract. intros [-> Hv0].
  eapply (tri_post _ _ _ _ (λ _, True)); [eapply tri_pre; [|apply (tri_foreach_pos (λ done _ s, ∃ T, focus k O T s ∧ ∀ j t, T !! j = Some t → (j < length done → F j t) ∧ (length done ≤ j → G j t)))]|..].
  - intros s Hs. exists T0. split; [done|]. intros j t Hj. split; [cbn; lia|auto].
  - intros done [i t0] rest [] Hl s (T & Hs & HT).
    assert (i = length done ∧ T0 !! i = Some t0) as [-> Hi0].
    { assert (zip (seq 0 (length T0)) T0 !! length done = Some (i, t0)) as Hz by by rewrite Hl, list_lookup_middle.
      apply lookup_zip_with_Some in Hz as (x & y & [= -> ->] & Hx & Hy). apply lookup_seq in Hx as [-> _]. cbn. done. }
    set (i := length done) in *. pose proof Hs as (Hok & HTs & _). destruct (Hok k) as [Hv _]. rewrite HTs in Hv.
    assert (vs !! i = Some (tb_IPVersion t0)) as Hvi by by rewrite <- Hv0, list_lookup_fmap, Hi0.
    assert (∃ t, T !! i = Some t ∧ tb_IPVersion t = tb_IPVersion t0) as (t & Ht & Ev).
    { rewrite <- Hv, list_lookup_fmap in Hvi. destruct (T !! i) as [t|]; [|done]. injection Hvi as Hvi. by exists t. }
    rewrite <- Ev. pose proof (Hf i t T Ht (proj2 (HT i t Ht) (le_n _)) s Hs) as Hpost. destruct (f i (tb_IPVersion t) s) as [s' [[]|e|p|]]; cbn [fst snd] in *; try done.
    destruct Hpost as (t' & Hs' & HF). exists (<[i := t']> T). split; [done|]. intros j tj Hj. rewrite length_app. cbn [length]. fold i. destruct (decide (j = i)) as [->|].
    + rewrite list_lookup_insert_eq in Hj by (by apply lookup_lt_Some in Ht). injection Hj as <-. split; [done|lia].
    + rewrite list_lookup_insert_ne in Hj by done. destruct (HT j tj Hj) as [H1 H2]. split; intros; [apply H1|apply H2]; lia.
  - intros ? s (T & Hs & HT). exists T. split; [done|]. intros j t Hj. apply (HT j t Hj). rewrite length_zip_with, length_seq, Nat.min_id.
    destruct Hs as (Hok & HTs & _). destruct (Hok k) as [Hv _]. rewrite HTs in Hv. apply (f_equal length) in Hv, Hv0. rewrite !length_fmap in Hv, Hv0.
    apply lookup_lt_Some in Hj. lia.
  - done.
Qed.

(** One operation on a table. *)
Lemma focus_op k O T i t op : T !! i = Some t → op_ok agentChain t op → sameKind t (runOp t op) →
  tri (focus k O T) (modTable k i (λ t, runOp t op)) (λ _, focus k O (<[i := runOp t op]> T)) (λ _, True).
Proof. intros Hi Hop Hs. apply (focus_modTable k O T i t (λ t, runOp t op)); [done|]. intros w Hok. split; [by apply tableOK_op|done]. Qed.

Lemma focus_update k O T i t chain : T !! i = Some t → chain_fine agentChain (tb_opt t) chain →
  tri (focus k O T) (modTable k i (UpdateChain chain)) (λ _, focus k O (<[i := UpdateChain chain t]> T)) (λ _, True).
Proof. intros Hi Hc. apply (focus_fact k O T i t); [done|]. intros Hinv _. apply (focus_op k O T i t (OpUpdate chain)); [done|done|]. apply (update_facts chain t Hinv). Qed.

Lemma focus_insertStatic k O T i t m : T !! i = Some t → fineMap t m →
  tri (focus k O T) (insertStatic to k i m) (λ _ s, focus k O (<[i := insertAll m (@map_order (to k i 7) (elements (dom m))) t]> T) s) (λ _, True).
Proof.
  intros Hi Hm. apply (focus_fact k O T i t); [done|]. intros Hinv _. unfold insertStatic. set (keys := @map_order (to k i 7) (elements (dom m))).
  assert (∀ c, c ∈ keys → is_Some (m !! c)) as Hk by (intros c; unfold keys; rewrite map_order_perm, elem_of_elements, elem_of_dom; done).
  eapply tri_pre; [|apply (tri_foreach_pos (λ done _ s, focus k O (<[i := insertAll m done t]> T) s))].
  - intros s Hs. cbn. by rewrite list_insert_id.
  - intros done c rest [] Hl. assert (∀ x, x ∈ done → is_Some (m !! x)) as Hd by (intros x Hx; apply Hk; rewrite Hl; apply elem_of_app; by left).
    destruct (insertAll_facts m done t Hinv Hm Hd) as (Hinv1 & Hs1 & _). set (t1 := insertAll m done t) in *.
    destruct (Hk c) as [rules Hc]; [rewrite Hl; apply elem_of_app; right; by left|]. rewrite Hc. change (default [] (Some rules)) with rules.
    destruct (fineMap_same t t1 m Hs1 Hm c rules Hc) as (Hh & Hf & Hne).
    eapply tri_post; [apply (focus_op k O (<[i := t1]> T) i t1 (OpInsert c rules))|..|done].
    + apply list_lookup_insert_eq. by apply lookup_lt_Some in Hi.
    + by split_and!.
    + apply (insert_facts c rules t1 Hinv1).
    + intros ? s. rewrite list_insert_insert_eq. unfold insertAll. rewrite foldl_app. cbn [foldl]. rewrite Hc. done.
Qed.

(** *** What a table is to hold *)

Definition hasStatic (m : chainRulesMap) (t : Table) : Prop := ∀ c rules, m !! c = Some rules → rulesIn (chainToInsertedRules t) c = rules.
Definition hasChain (name : string) (rules : list Rule) (t : Table) : Prop := chainNameToChain t !! name = Some (mkChain name rules) ∧ tracked name t.
Definition stale (t : Table) : Prop := inSyncWithDataPlane t = false.

Lemma insertAll_static m t (o : MapOrder) : tinv t → fineMap t m → m ≠ ∅ → let t' := insertAll m (@map_order o (elements (dom m))) t in
  tinv t' ∧ sameKind t t' ∧ stale t' ∧ hasStatic m t' ∧ chainNameToChain t' = chainNameToChain t ∧ ∀ x, tracked x t → tracked x t'.
Proof.
  intros Hinv Hm Hne. set (keys := @map_order o (elements (dom m))). assert (∀ c, c ∈ keys ↔ is_Some (m !! c)) as Hk by (intros c; unfold keys; by rewrite map_order_perm, elem_of_elements, elem_of_dom).
  destruct (insertAll_facts m keys t Hinv Hm (λ c Hc, proj1 (Hk c) Hc)) as (H1 & H2 & H3 & H4 & _ & H5 & H6). cbv zeta in *. split_and!; try done.
  - apply H3. left. intros E. apply map_choose in Hne as (c & rules & Hc). assert (c ∈ keys) as Hin by (apply Hk; by eexists). rewrite E in Hin. by apply elem_of_nil in Hin.
  - intros c rules Hc. apply H4; [|done]. apply Hk. by eexists.
Qed.

Lemma focus_static k O T i t m (F : Table → Prop) : T !! i = Some t → (HistoricChainPrefixes (tb_opt t) = ["egw"] → fineMap t m) → m ≠ ∅ →
  (∀ t', tinv t' → sameKind t t' → stale t' → hasStatic m t' → chainNameToChain t' = chainNameToChain t → (∀ x, tracked x t → tracked x t') → F t') →
  tri (focus k O T) (insertStatic to k i m) (λ _ s, ∃ t', focus k O (<[i := t']> T) s ∧ F t') (λ _, True).
Proof.
  intros Hi Hm Hne HF. apply (focus_fact k O T i t); [done|]. intros Hinv Hp. specialize (Hm Hp).
  eapply tri_post; [by apply focus_insertStatic| |done]. intros ? s Hs. eexists. split; [exact Hs|].
  destruct (insertAll_static m t (to k i 7) Hinv Hm Hne) as (? & ? & ? & ? & ? & ?). by apply HF.
Qed.

Lemma static_nonempty base egress reply mark m :
  buildNatStaticRule base = Ret m ∨ buildFilterStaticRule base = Ret m ∨ buildMangleStaticRule base egress reply mark = Ret m → m ≠ ∅.
Proof.
  unfold buildNatStaticRule, buildFilterStaticRule, buildMangleStaticRule. intros [H|[H|H]]; inv_ret; cbn; apply insert_non_empty.
Qed.

Section program.
Context (base : Z) (Hbase : (0 <= base)%Z) (Hvx : plainText (cfg_VXLANName cfg)).
Context (Htun : ∀ w l, (paListTunnels w).2 = Ret l → Forall (λ t, plainText (tun_MAC (ts_Tunnel (t_Status t)))) l).

Definition filterDone (t : Table) : Prop := stale t ∧ ∃ m, buildFilterStaticRule base = Ret m ∧ hasStatic m t.
Lemma focus_programFilter O T0 : tri (focus KFilter O T0) (programFilter to base) (λ _ s, ∃ T, focus KFilter O T s ∧ ∀ i t, T !! i = Some t → filterDone t) (λ _, True).
Proof.
  apply (focus_forTables KFilter O (λ _ _, True) (λ _, filterDone)); [done|]. intros i t T Hi _.
  eapply (tri_bind _ _ _ (λ m s, focus KFilter O T s ∧ buildFilterStaticRule base = Ret m)); [apply tri_lift; intros s Hs; by destruct (buildFilterStaticRule base)|].
  intros m. apply tri_extract. intros Em. apply (focus_static KFilter O T i t m filterDone Hi); [intros Hp; by apply (filter_fine t Hp base)|by eapply (static_nonempty base false false 0); auto|].
  intros t' _ _ Hst Hs _ _. split; [done|]. by exists m.
Qed.

(** The rules of this node's policies. *)
Definition natDone (snat : gmap Policy PolicyCommon) (t : Table) : Prop := stale t ∧
  (∃ m, buildNatStaticRule base = Ret m ∧ hasStatic m t) ∧ ∃ rules, rules ≡ₚ snatSpec (tb_IPVersion t) snat ∧ hasChain snatChain rules t.
Definition plainValues (m : gmap Policy PolicyCommon) : Prop := ∀ p val, m !! p = Some val → plainText (V4 (pc_IP val)) ∧ plainText (V6 (pc_IP val)).

Lemma snatSpec_fine opt version m : plainValues m → Forall (rule_fine agentChain opt) (snatSpec version m).
Proof.
  intros Hm. rewrite Forall_forall. intros r ([p val] & Hin%elem_of_map_to_list & Hr)%list_elem_of_omap. destruct (Hm p val Hin). case_decide; [done|]. injection Hr as <-. by apply eipRule_fine.
Qed.
Lemma focus_programNat O T0 a : plainValues (snatPolicies a) →
  tri (focus KNat O T0) (programNat to po base a) (λ _ s, ∃ T, focus KNat O T s ∧ ∀ i t, T !! i = Some t → natDone (snatPolicies a) t) (λ _, True).
Proof.
  intros Hpl. apply (focus_forTables KNat O (λ _ _, True) (λ _, natDone (snatPolicies a))); [done|]. intros i t T Hi _.
  destruct (snatRules_spec po (3 + 2 * i) (tb_IPVersion t) (snatPolicies a)) as (rules & Er & Hr).
  eapply (tri_bind _ _ _ (λ x s, focus KNat O T s ∧ x = rules)); [apply tri_lift; intros s Hs; by rewrite Er|]. intros x. apply tri_extract. intros ->.
  apply (focus_fact KNat O T i t); [done|]. intros Hinv Hp. set (t1 := UpdateChain (mkChain snatChain rules) t).
  assert (chain_fine agentChain (tb_opt t) (mkChain snatChain rules)) as Hfine by (split; [apply agentChains_named|cbn; rewrite Hr; by apply snatSpec_fine]).
  destruct (update_facts (mkChain snatChain rules) t Hinv) as ((Eo & _ & Ev & _) & _ & _ & _ & Hc1 & _ & Ht1). fold t1 in Eo, Ev, Hc1, Ht1.
  eapply tri_bind; [by apply focus_update|]. intros []. fold t1.
  eapply (tri_bind _ _ _ (λ m s, focus KNat O (<[i := t1]> T) s ∧ buildNatStaticRule base = Ret m)); [apply tri_lift; intros s Hs; by destruct (buildNatStaticRule base)|].
  intros m. apply tri_extract. intros Em. eapply tri_post; [apply (focus_static KNat O (<[i := t1]> T) i t1 m (natDone (snatPolicies a)))|..|done].
  - apply list_lookup_insert_eq. by apply lookup_lt_Some in Hi.
  - intros Hp1. by apply (nat_fine t1 Hp1 base).
  - by eapply (static_nonempty base false false 0); auto.
  - intros t' _ (_ & _ & Ev' & _) Hst Hs Hc Ht. split; [done|]. split; [by exists m|]. exists rules. rewrite Ev', Ev. split; [done|]. split; [|by apply Ht].
    rewrite Hc, Hc1. apply lookup_insert_eq.
  - intros ? s (t' & Hs & HF). exists t'. split; [|done]. by rewrite list_insert_insert_eq in Hs.
Qed.

(** The marks of the other nodes' policies, and the ways back. *)
Definition mangleStatic (egress : bool) (t : Table) : Prop := stale t ∧
  ∃ m, buildMangleStaticRule base egress (cfg_EnableGatewayReplyRoute cfg) (cfg_GatewayReplyRouteMark cfg mod 2 ^ 32)%Z = Ret m ∧ hasStatic m t.
Definition mangleDone (a : assigned) (t : Table) : Prop := mangleStatic (isEgressNode a) t ∧
  (∃ rules ans, answers (unSnatPolicies a) ans ∧ rules ≡ₚ markSpec (tb_IPVersion t) ans (unSnatPolicies a) ∧ hasChain markChain rules t) ∧
  ∃ w tunnels replies, (paListTunnels w).2 = Ret tunnels ∧ replyRules cfg base tunnels = Ret replies ∧ hasChain replyChain (replies ++ [restoreRule]) t.

Lemma markSpec_fine opt version ans m : answers m ans → Forall (rule_fine agentChain opt) (markSpec version ans m).
Proof.
  intros Ha. rewrite Forall_forall. intros r ([p val] & Hin%elem_of_map_to_list & Hr)%list_elem_of_omap. destruct (ans p) as [mark|] eqn:E; [|done]. injection Hr as <-.
  destruct (Ha p val Hin) as (w & Hw). rewrite E in Hw. destruct Hw as (tn & _ & Hm). apply markRule_fine. by apply parseMark_range in Hm as [? _].
Qed.
Lemma markRules_kernels k version m : keepsKernels IT TL (markRules po k version m).
Proof.
  apply kernels_intro. intros κ. apply inv_foreach. intros p rules _. destruct (m !! p) as [val|]; [|apply inv_ret].
  apply inv_bind; [apply inv_attempt, kernels_inv, tf_GetTunnel|]. intros [tn|e]; [|apply inv_ret].
  apply inv_bind; [apply inv_lift|]. intros mark. apply inv_bind; [apply inv_lift|]. intros rule. apply inv_ret.
Qed.

Lemma focus_programMangle O T0 a :
  tri (focus KMangle O T0) (programMangle to po cfg base a) (λ _ s, ∃ T, focus KMangle O T s ∧ ∀ i t, T !! i = Some t → mangleDone a t) (λ _, True).
Proof.
  unfold programMangle. eapply (tri_bind _ _ _ (λ _ s, ∃ T, focus KMangle O T s ∧ ∀ i t, T !! i = Some t → mangleStatic (isEgressNode a) t)).
  - apply (focus_forTables KMangle O (λ _ _, True) (λ _, mangleStatic (isEgressNode a))); [done|]. intros i t T Hi _.
    assert (i < length T) as Hlt by by apply lookup_lt_Some in Hi.
    assert (∀ opt name, name ∈ [replyChain; markChain] → chain_fine agentChain opt (mkChain name [])) as Hempty.
    { intros opt name Hn. split; [|by apply Forall_nil_2]. rewrite !elem_of_cons, elem_of_nil in Hn. destruct Hn as [->|[->|[]]]; apply agentChains_named. }
    eapply tri_bind; [apply (focus_update KMangle O T i t); [done|]; apply Hempty; set_solver|]. intros []. set (t1 := UpdateChain _ t).
    eapply tri_bind; [apply (focus_update KMangle O _ i t1); [by apply list_lookup_insert_eq|]; apply Hempty; set_solver|]. intros []. set (t2 := UpdateChain _ t1).
    rewrite list_insert_insert_eq.
    eapply (tri_bind _ _ _ (λ m s, focus KMangle O (<[i := t2]> T) s ∧ buildMangleStaticRule base (isEgressNode a) (cfg_EnableGatewayReplyRoute cfg) (cfg_GatewayReplyRouteMark cfg mod 2 ^ 32)%Z = Ret m)).
    { apply tri_lift. intros s Hs. by destruct (buildMangleStaticRule _ _ _ _). }
    intros m. apply tri_extract. intros Em. eapply tri_post; [apply (focus_static KMangle O _ i t2 m (mangleStatic (isEgressNode a)))|..|done].
    + by apply list_lookup_insert_eq.
    + intros Hp. eapply (mangle_fine t2 Hp base); [done| |done]. by apply Z.mod_pos_bound.
    + by eapply static_nonempty; eauto.
    + intros t' _ _ Hst Hs _ _. split; [done|]. by exists m.
    + intros ? s (t' & Hs & HF). exists t'. split; [|done]. by rewrite list_insert_insert_eq in Hs.
  - intros []. apply tri_here. intros s0 (T1 & Hs0 & HT1). eapply (tri_pre _ (focus KMangle O T1)); [by intros s ->|].
    apply (focus_forTables KMangle O (λ _, mangleStatic (isEgressNode a)) (λ _, mangleDone a)); [done|]. intros i t T Hi [Hst (m & Em & Hm)].
    assert (i < length T) as Hlt by by apply lookup_lt_Some in Hi.
    eapply tri_bind; [eapply focus_kv; [|apply markRules_kernels]; eapply tri_post; [apply (tri_markRules po (λ _, True)); done|by intros rules w [_ H]; exact H|done]|].
    intros rules. apply tri_extract. intros (ans & Ha & Hr). apply (focus_fact KMangle O T i t); [done|]. intros Hinv Hp. set (c1 := mkChain markChain rules).
    assert (chain_fine agentChain (tb_opt t) c1) as Hf1 by (split; [apply agentChains_named|cbn; rewrite Hr; by apply markSpec_fine]).
    destruct (update_facts c1 t Hinv) as ((Eo1 & _ & Ev1 & _) & Hst1 & Hi1 & _ & Hc1 & _ & Ht1). eapply tri_bind; [by apply focus_update|]. intros []. set (t1 := UpdateChain c1 t) in *.
    eapply (tri_bind _ _ _ (λ tunnels s, focus KMangle O (<[i := t1]> T) s ∧ ∃ w, (paListTunnels w).2 = Ret tunnels)).
    { eapply focus_kv; [|apply tf_ListTunnels]. intros w _. destruct (paListTunnels w) as [w' [l|e|p|]] eqn:El; cbn; try done. exists w. by rewrite El. }
    intros tunnels. apply tri_extract. intros [w Hw].
    eapply (tri_bind _ _ _ (λ rs s, focus KMangle O (<[i := t1]> T) s ∧ replyRules cfg base tunnels = Ret rs)); [apply tri_lift; intros s Hs; by destruct (replyRules cfg base tunnels)|].
    intros replies. apply tri_extract. intros Er. set (c2 := mkChain replyChain (replies ++ [restoreRule])).
    assert (T !! i = Some t → <[i := t1]> T !! i = Some t1) as Hi' by (intros _; by apply list_lookup_insert_eq). specialize (Hi' Hi).
    apply (focus_fact KMangle O _ i t1); [done|]. intros Hinv1 Hp1.
    assert (chain_fine agentChain (tb_opt t1) c2) as Hf2.
    { split; [apply agentChains_named|]. cbn. apply Forall_app_2; [by eapply replyRules_fine, Er; eauto|]. apply Forall_cons_2; [apply restoreRule_fine|done]. }
    destruct (update_facts c2 t1 Hinv1) as ((Eo2 & _ & Ev2 & _) & Hst2 & Hi2 & _ & Hc2 & Htr2 & Ht2).
    eapply tri_post; [by apply (focus_update KMangle O _ i t1)| |done]. intros ? s Hs. set (t2 := UpdateChain c2 t1) in *. exists t2.
    rewrite list_insert_insert_eq in Hs. split; [done|]. split_and!.
    + split; [done|]. exists m. split; [done|]. intros c rs Hc. rewrite Hi2, Hi1. by apply Hm.
    + exists rules, ans. rewrite Ev2, Ev1. split_and!; [done|done|]. split; [|by apply Htr2]. rewrite Hc2, Hc1. cbn. rewrite lookup_insert_ne by done. apply lookup_insert_eq.
    + exists w, tunnels, replies. split_and!; [done|done|]. split; [|done]. rewrite Hc2. apply lookup_insert_eq.
Qed.
End program.

(** ** Applying the tables *)

Definition chainsOf (k : tableKind) : list string := match k with KMangle => [markChain; replyChain] | KFilter => [] | KNat => [snatChain] end.

(** The kernel's table has the agent's chains that are referred to, and its rules in the chains
    of the kernel. *)
Definition inLine (k : tableKind) (t : Table) (w : W) : Prop :=
  let κ := kv (tb_IPVersion t) (kindName k) w in
  (∀ c, c ∈ chainsOf k → refCount t c ≠ 0%Z → hashesIn (hashCommentPrefix t) c <$> κ !! c = desiredHashes t c) ∧
  (∀ c, agentChain c = false → isOurChain t c = false → hookRight t c (κ !! c)).

Definition awaits (k : tableKind) (t : Table) : Prop := stale t ∧ ∀ c, c ∈ chainsOf k → tracked c t.

(** Facts that applying keeps. *)
Definition lasting (C : tableKind → Table → Prop) : Prop := ∀ k t t', wants t' = wants t → tb_IPVersion t' = tb_IPVersion t → C k t → C k t'.
Context (C : tableKind → Table → Prop) (HC : lasting C).

Definition phase (ap : list (tableKind * nat)) : Props := λ s, allOK s ∧
  ∀ k i t, tablesOf k s.1 !! i = Some t → C k t ∧ if decide ((k, i) ∈ ap) then inLine k t s.2 else awaits k t.

Lemma kindName_inj k k' : kindName k = kindName k' → k = k'.
Proof. by destruct k, k'. Qed.
Lemma tables_apart s k i t k' i' t' : allOK s → tablesOf k s.1 !! i = Some t → tablesOf k' s.1 !! i' = Some t' → (k, i) ≠ (k', i') →
  (tb_IPVersion t, kindName k) ≠ (tb_IPVersion t', kindName k').
Proof.
  intros Hok Hi Hi' Hne [= Ev En%kindName_inj]. subst k'. apply Hne. f_equal. destruct (Hok k) as [Hv _].
  apply (NoDup_lookup vs i i' (tb_IPVersion t) Hvs); rewrite <- Hv, list_lookup_fmap; [by rewrite Hi|rewrite Hi'; cbn; by rewrite Ev].
Qed.

(** What [Apply] does to the other tables of the kernel. *)
Lemma Apply_apart t w ords fuel v n : (tb_IPVersion t, tb_Name t) ≠ (v, n) → newline ∉ chars (tb_Name t) →
  let s := (@Apply W (IT (tb_IPVersion t)) ords fuel (t, w)).1 in tb_IPVersion s.1 = tb_IPVersion t ∧ kv v n s.2 = kv v n w.
Proof.
  intros Hne Hn. pose proof (tri_Apply_frame (IT := IT (tb_IPVersion t)) ords (tb_Name t) (tb_IPVersion t) (λ w', kv v n w' = kv v n w)) as H.
  specialize (H (λ w' E, eq_trans (tf_save (TL := TL) (tb_IPVersion t) (tb_Name t) v n w' Hne) E)).
  specialize (H (λ input w' Hh E, eq_trans (tf_restore (TL := TL) (tb_IPVersion t) (tb_Name t) input v n w' (Hh Hn) Hne) E)).
  specialize (H (λ w' E, eq_trans (tf_now (TL := TL) (tb_IPVersion t) w' v n) E) fuel (t, w) (conj (conj eq_refl eq_refl) eq_refl)).
  destruct (Apply ords fuel (t, w)) as [s' o]. cbn [fst snd] in *. by destruct o; destruct H as [[_ ?] ?].
Qed.

Lemma Apply_inLine k t w ords fuel t' w' d : tableOK k w t → awaits k t → applyFuel <= fuel →
  @Apply W (IT (tb_IPVersion t)) ords fuel (t, w) = ((t', w'), Ret d) → tb_IPVersion t' = tb_IPVersion t →
  tableOK k w' t' ∧ inLine k t' w' ∧ wants t' = wants t.
Proof.
  intros Hok [Hst Htr] Hf E Ev. destruct (tableOK_facts _ _ _ Hok) as (Hinv & Hwf & Hname). destruct Hok as [Hp Hi Hl Hr].
  pose proof (Apply_outcome (kindName k) (IL := TL (tb_IPVersion t) (kindName k)) ords fuel t w (ti_ok _ _ Hinv) Hname Hwf Hst Hf) as Ho. rewrite E in Ho. cbn [fst snd] in Ho.
  destruct Ho as (_ & _ & Hw & _ & _ & [Hours Hhooks] & _). cbn [fst snd] in Hw, Hours, Hhooks. destruct (wants_facts _ _ Hw) as (Eo & _ & Ep & Eour & Ed & Eh).
  unfold inLine. rewrite Ev. unfold kview. split_and!; [| | |done].
  - split; [by rewrite Eo..|]. unfold kreach in *. rewrite Ev.
    pose proof (reach_apply (kindName k) (IL := TL (tb_IPVersion t) (kindName k)) agentChain ords fuel t w Hr Hst Hf) as Hra. rewrite E in Hra. apply Hra. by left.
  - intros c Hc Hrc. rewrite Ep, Ed. apply Hours. right. assert (refCount t' c = refCount t c) as Erc by (unfold refCount, wants in *; congruence).
    rewrite Erc in Hrc. destruct (Htr c Hc); [|done]. auto.
  - intros c Hown Hour. rewrite Eh. rewrite Eour in Hour. apply Hhooks; [done|]. intros Hd. destruct (ti_dirty _ _ Hinv c Hd); congruence.
Qed.

Lemma kindName_plain k : newline ∉ chars (kindName k).
Proof. destruct k; apply (bool_decide_unpack _); vm_compute; exact I. Qed.

Lemma phase_applyTable fuel k i ap : applyFuel <= fuel → (k, i) ∉ ap → tri (phase ap) (applyTable IT to fuel k i) (λ _, phase (ap ++ [(k, i)])) (λ _, True).
Proof.
  intros Hf Hn [r w] [Hok Hph]. cbn [fst snd] in *. unfold applyTable. cbn [fst snd].
  assert (∀ k' i', (k', i') ≠ (k, i) → (k', i') ∈ ap ++ [(k, i)] ↔ (k', i') ∈ ap) as Hap by (intros; rewrite elem_of_app, list_elem_of_singleton; tauto).
  destruct (tablesOf k r !! i) as [t|] eqn:Hi; cbn [fst snd].
  2: { split; [done|]. intros k' i' t' Hi'. cbn in Hi'. destruct (Hph k' i' t' Hi') as [? H]. split; [done|]. assert ((k', i') ≠ (k, i)) as Hne by congruence.
       destruct (decide ((k', i') ∈ ap)) as [Ha|Ha]; [rewrite decide_True by (by apply Hap)|rewrite decide_False by (by rewrite Hap)]; done. }
  destruct (Hok k) as [Hv Htab]. specialize (Htab i t Hi). cbn [fst snd] in *. destruct (tableOK_facts _ _ _ Htab) as (_ & _ & Hname).
  destruct (Hph k i t Hi) as [HCt Hawait]. rewrite decide_False in Hawait by done.
  assert (newline ∉ chars (tb_Name t)) as Hnl by (rewrite Hname; apply kindName_plain).
  pose proof (λ v n H, Apply_apart t w (to k i) fuel v n H Hnl) as Hapart. cbv zeta in Hapart.
  destruct (Apply (to k i) fuel (t, w)) as [[t' w'] [d|e|p|]] eqn:E; cbn [fst snd] in *; try done.
  assert (tb_IPVersion t' = tb_IPVersion t) as Ev by (apply (Hapart 0 (tb_Name t +:+ "x")); intros [= _ E']; apply (f_equal (λ s, length (chars s))) in E'; rewrite chars_app, length_app in E'; cbn in E'; lia).
  destruct (Apply_inLine k t w (to k i) fuel t' w' d Htab Hawait Hf E Ev) as (Hok' & Hline & Hw).
  assert (∀ k' i' t2, tablesOf k' r !! i' = Some t2 → (k', i') ≠ (k, i) → kv (tb_IPVersion t2) (kindName k') w' = kv (tb_IPVersion t2) (kindName k') w) as Hother.
  { intros k' i' t2 Hi' Hne. apply Hapart. rewrite Hname. by eapply (tables_apart (r, w)). }
  assert (sameKind t t') as Hsame by (destruct (wants_facts _ _ Hw) as (? & ? & ? & _); by split_and!).
  destruct (tableOK_facts _ _ _ Hok') as (_ & Hwf' & _). rewrite Ev in Hwf'. split.
  - apply allOK_table; [|by rewrite Hi|done]. intros k'. destruct (Hok k') as [Hv' Ht']. split; [done|]. intros i' t2 Hi'. cbn [fst snd] in *.
    destruct (decide ((k', i') = (k, i))) as [[= -> ->]|Hne].
    + assert (t2 = t) as -> by congruence. by apply (tableOK_wf k w).
    + apply (tableOK_world k' w); [by eapply Ht'|by eapply Hother].
  - cbn [fst snd]. intros k' i' t2. rewrite tablesOf_set. destruct (decide ((k', i') = (k, i))) as [[= -> ->]|Hne].
    + rewrite decide_True by done. rewrite list_lookup_insert_eq by (by apply lookup_lt_Some in Hi). intros [= <-]. split; [by apply (HC k t)|].
      rewrite decide_True by (apply elem_of_app; right; by apply list_elem_of_singleton). done.
    + intros Hi'. assert (tablesOf k' r !! i' = Some t2) as Hi2.
      { revert Hi'. case_decide; [|done]. subst k'. rewrite list_lookup_insert_ne; [done|]. congruence. }
      destruct (Hph k' i' t2 Hi2) as [? H]. split; [done|].
      destruct (decide ((k', i') ∈ ap)) as [Ha|Ha]; [rewrite decide_True by (by apply Hap)|rewrite decide_False by (by rewrite Hap)]; [|done].
      unfold inLine. rewrite (Hother k' i' t2 Hi2 Hne). exact H.
Qed.

Lemma phase_forTables fuel k ap : applyFuel <= fuel → (∀ i, (k, i) ∉ ap) →
  tri (phase ap) (forTables k (λ i _, applyTable IT to fuel k i)) (λ _ s, phase (ap ++ ((λ i, (k, i)) <$> seq 0 (length vs))) s) (λ _, True).
Proof.
  intros Hf Hn. apply tri_getP. intros r. eapply (tri_pre _ (λ s, phase ap s ∧ length (tablesOf k r) = length vs)).
  { intros s [Hs <-]. split; [done|]. destruct Hs as [Hok _]. destruct (Hok k) as [Hv _]. by rewrite <- Hv, length_fmap. }
  apply tri_extract. intros Hlen. set (l := zip (seq 0 (length (tablesOf k r))) (tablesOf k r)).
  assert (l.*1 = seq 0 (length vs)) as Hl by (unfold l; rewrite fst_zip, Hlen; [done|rewrite length_seq; lia]). rewrite <- Hl.
  eapply tri_pre; [|apply (tri_foreach_pos (λ done _ s, phase (ap ++ ((λ i, (k, i)) <$> done.*1)) s))].
  - intros s Hs. cbn. by rewrite app_nil_r.
  - intros done [i t] rest [] Hd. eapply tri_post; [apply (phase_applyTable fuel k i); [done|]|..|done].
    + rewrite not_elem_of_app. split; [apply Hn|]. intros (j & [= <-] & Hj)%list_elem_of_fmap.
      assert (NoDup l.*1) as Hnd by (rewrite Hl; apply NoDup_seq). rewrite Hd, fmap_app in Hnd. apply NoDup_app in Hnd as (_ & Hx & _).
      apply (Hx i Hj). cbn. by left.
    + intros ? s. rewrite !fmap_app, app_assoc. done.
Qed.

Lemma phase_applyTables fuel : applyFuel <= fuel →
  tri (phase []) (applyTables IT to fuel) (λ _ s, allOK s ∧ ∀ k i t, tablesOf k s.1 !! i = Some t → C k t ∧ inLine k t s.2) (λ _, True).
Proof.
  intros Hf. unfold applyTables.
  assert (∀ (k k' : tableKind) (i : nat) n, k ≠ k' → (k, i) ∉ ((λ j : nat, (k', j)) <$> seq 0 n)) as Hne by (intros k k' i n ? (j & [= -> ->] & _)%list_elem_of_fmap; done).
  eapply tri_bind; [apply phase_forTables; [done|]; by intros i ?%elem_of_nil|]. intros [].
  eapply tri_bind; [apply phase_forTables; [done|]; intros i; cbn [app]; by apply Hne|]. intros [].
  eapply tri_post; [apply phase_forTables; [done|]; intros i; cbn [app]; rewrite not_elem_of_app; split; by apply Hne| |done].
  intros ? s [Hok H]. split; [done|]. intros k i t Hi. destruct (H k i t Hi) as [? Hl]. split; [done|]. rewrite decide_True in Hl; [done|].
  assert (i < length vs) as Hlt by (destruct (Hok k) as [Hv _]; apply lookup_lt_Some in Hi; by rewrite <- Hv, length_fmap).
  assert ((k, i) ∈ ((λ j : nat, (k, j)) <$> seq 0 (length vs))) as Hin by (apply list_elem_of_fmap_2, elem_of_seq; lia).
  rewrite !elem_of_app. destruct k; auto.
Qed.
End tables.
