(* ===== verification/PoliceInit.v ===== *)
(** * Programming all policies

    [initApplyPolicy] from the list of the gateways to the kernel's tables. *)

From S2P Require Import Prelude GoStd GoNet GoFmt Types Utils ApiServer Sha1 Sha224 IPUtil EndpointSlice Triple IptablesRule IptablesTable IptablesKernel IptablesText IptablesWrite IptablesRead IptablesUpdate IptablesLoad IptablesApply IptablesRefs IptablesTheorems IptablesFrame IPSet IPSetLaws Police PoliceSets PoliceRules PoliceTables.
Open Scope nat_scope.

Section init.
Context {W : Type} `{LS : LabelSelectors} `{PA : !PoliceApi W} `{IF : !Interface W} (IT : nat → Iptables W) `{KT : !KernelText}
  (TL : ∀ v n, @IptablesLaws W n (IT v) KT) `{TF : !TableFrames W IT TL}.
Context (so : nat → MapOrder) (to : tableKind → nat → nat → MapOrder) (po : nat → KeyOrder Policy) (cfg : AgentConfig).
Context (vs : list nat) (Hvs : NoDup vs).
Abbreviation Props := (policeReconciler * W → Prop).
Abbreviation kv := (kview IT TL).
Abbreviation ok := (allOK IT TL vs).

(** ** Sets do not disturb tables *)

(** Facts about tables, and about tables with the kernel. *)
Definition got (Φ : tableKind → Table → Prop) : Props := λ s, ok s ∧ ∀ k i t, tablesOf k s.1 !! i = Some t → Φ k t.

Lemma got_tables Φ r r' w : (∀ k, tablesOf k r' = tablesOf k r) → got Φ (r, w) → got Φ (r', w).
Proof. intros E [Hok H]. split; [intros k; destruct (Hok k) as [Hv Ht]; cbn [fst snd] in *; by rewrite E|]. intros k i t. cbn in *. rewrite E. apply H. Qed.
Lemma got_call {A} Φ (c : M W A) : keepsKernels IT TL c → keepsInv (got Φ) (call c).
Proof. intros Hc. apply inv_call. intros r w [Hok H]. split; [|done]. eapply allOK_world; [done|]. apply Hc. Qed.
Lemma got_modP Φ f : (∀ r k, tablesOf k (f r) = tablesOf k r) → keepsInv (got Φ) (modP f).
Proof. intros Hf. apply inv_modP. intros r w. apply got_tables. intros k. apply Hf. Qed.

Lemma got_createIPSet Φ set : keepsInv (got Φ) (createIPSet cfg set).
Proof.
  unfold createIPSet. apply inv_getP. intros r. destruct (ipsetMap r !! sn_Name set); [apply inv_ret|]. repeat (case_decide; [apply inv_ret|]).
  apply inv_bind; [apply got_call, tf_CreateSet|]. intros x. apply got_modP. by intros r' [].
Qed.
Lemma got_updatePolicyIPSet Φ ns name flag dest : keepsInv (got Φ) (updatePolicyIPSet so cfg ns name flag dest).
Proof.
  unfold updatePolicyIPSet. apply inv_bind.
  { apply got_call, kernels_intro. intros κ. unfold getPolicySrcIPs. apply inv_bind; [apply inv_lift|]. intros sel.
    case_decide; (apply inv_bind; [apply kernels_inv; first [apply tf_ListClusterSlices|apply tf_ListSlices]|]; intros ?; apply inv_ret). }
  intros src. apply inv_bind; [apply inv_lift|]. intros dst. apply inv_bind; [apply inv_lift|]. intros names.
  apply inv_bind; [apply inv_foreach; intros set [] _; apply got_createIPSet|]. intros []. apply inv_bind.
  { apply inv_foreach. intros set d _. unfold diffSet. apply inv_bind; [apply inv_attempt, got_call, tf_ListEntries|]. intros res.
    apply inv_bind; [destruct res; [apply inv_ret|]; case_match; [apply inv_ret|apply inv_err]|]. intros old. case_match. apply inv_ret. }
  intros [toAdd toDel]. apply inv_bind.
  - apply inv_foreach. intros set [] _. apply inv_getP. intros r. destruct (ipsetMap r !! set); [|apply inv_ret]. apply inv_foreach. intros e [] _.
    apply inv_bind; [apply inv_attempt, got_call, tf_AddEntry|]. intros []; [apply inv_ret|]. case_decide; [apply inv_ret|apply inv_err].
  - intros []. apply inv_foreach. intros set [] _. apply inv_foreach. intros e [] _. apply got_call, tf_DelEntry.
Qed.

Lemma getPolicySubnet_kernels ns name : keepsKernels IT TL (getPolicySubnet so ns name).
Proof.
  apply kernels_intro. intros κ. unfold getPolicySubnet, getOrAbsent.
  case_decide; (apply inv_bind; [apply inv_bind; [apply inv_attempt, kernels_inv; first [apply tf_GetClusterPolicy|apply tf_GetPolicy]|]; intros []; [apply inv_ret|case_match; [apply inv_ret|apply inv_err]]|];
    intros ?; apply inv_ret).
Qed.

(** The destinations of the policies are filled in. *)
Definition filled (m m' : gmap Policy PolicyCommon) : Prop := dom m' = dom m ∧ ∀ p val', m' !! p = Some val' → ∃ val w, m !! p = Some val ∧
  val' = set_DestSubnet val (pc_DestSubnet val') ∧ (getPolicySubnet so (p_Namespace p) (p_Name p) w).2 = Ret (pc_DestSubnet val').

Lemma got_updateSets Φ k flag m : tri (got Φ) (updateSets so po cfg k flag m) (λ m' s, got Φ s ∧ filled m m') (λ _, True).
Proof.
  set (I := λ (done : list Policy) (m' : gmap Policy PolicyCommon) (s : policeReconciler * W), got Φ s ∧ dom m' = dom m ∧ (∀ p, p ∉ done → m' !! p = m !! p) ∧
    ∀ p val', p ∈ done → m' !! p = Some val' → ∃ val w, m !! p = Some val ∧ val' = set_DestSubnet val (pc_DestSubnet val') ∧
      (getPolicySubnet so (p_Namespace p) (p_Name p) w).2 = Ret (pc_DestSubnet val')).
  assert (NoDup (rangePolicies po k m)) as Hnd by (rewrite rangePolicies_perm; apply NoDup_elements).
  eapply (tri_post _ _ _ _ (λ _, True)); [eapply tri_pre; [|apply (tri_foreach_pos I)]|..].
  - intros s Hs. split; [done|]. split_and!; [done|done|]. by intros p val' ?%elem_of_nil.
  - intros done p rest m' Hl. assert (p ∉ done) as Hp by (rewrite Hl in Hnd; apply NoDup_app in Hnd as (_ & Hd & _); intros Hin; apply (Hd p Hin); by left).
    apply tri_here. intros s (Hg & Hdom & Hout & Hin). destruct (m' !! p) as [val|] eqn:Em.
    2: { apply tri_ret. intros ? ->. split; [done|]. split_and!; [done|intros q [? _]%not_elem_of_app; by apply Hout|].
         intros q val' [Hq|Hq]%elem_of_app; [by apply Hin|]. apply list_elem_of_singleton in Hq as ->. congruence. }
    eapply (tri_bind _ _ _ (λ subnet s', got Φ s' ∧ ∃ w, (getPolicySubnet so (p_Namespace p) (p_Name p) w).2 = Ret subnet)).
    { intros s' ->. pose proof (got_call Φ _ (getPolicySubnet_kernels (p_Namespace p) (p_Name p)) s Hg) as H. unfold call in *. destruct s as [r w]. cbn [fst snd] in *.
      destruct (getPolicySubnet so (p_Namespace p) (p_Name p) w) as [w' [l|e|q|]] eqn:El; cbn [fst snd] in *; try done. split; [done|]. exists w. by rewrite El. }
    intros subnet. apply tri_extract. intros [w Hw]. eapply tri_bind; [eapply tri_post; [apply got_updatePolicyIPSet|done|done]|]. intros []. apply tri_ret. intros s' Hs'.
    assert (m !! p = Some val) as Hmp by (rewrite <- Hout by done; done). split; [done|]. split_and!.
    + rewrite dom_insert_L, Hdom. apply elem_of_dom_2 in Hmp. set_solver.
    + intros q [? Hq]%not_elem_of_app. rewrite lookup_insert_ne by set_solver. by apply Hout.
    + intros q val' Hq. destruct (decide (q = p)) as [->|Hne].
      * rewrite lookup_insert_eq. intros [= <-]. by exists val, w.
      * rewrite lookup_insert_ne by done. apply Hin. set_solver.
  - intros m' s (Hg & Hdom & Hout & Hin). split; [done|]. split; [done|]. intros p val' Hv. apply Hin; [|done].
    rewrite rangePolicies_perm, elem_of_elements, <- Hdom. by apply elem_of_dom_2 in Hv.
  - done.
Qed.

(** ** From the rules to the kernel *)

Lemma got_focus Φ k (F : Table → Prop) (c : M (policeReconciler * W) unit) :
  (∀ O T0, tri (focus IT TL vs k O T0) c (λ _ s, ∃ T, focus IT TL vs k O T s ∧ ∀ i t, T !! i = Some t → F t) (λ _, True)) →
  tri (got Φ) c (λ _, got (λ k' t, if decide (k' = k) then F t else Φ k' t)) (λ _, True).
Proof.
  intros Hc s [Hok H]. specialize (Hc (λ k', tablesOf k' s.1) (tablesOf k s.1) s ltac:(by split_and!)). destruct (c s) as [s' [[]|e|p|]]; cbn [fst snd] in *; try done.
  destruct Hc as (T & (Hok' & HT & HO) & HF). split; [done|]. intros k' i t Hi. destruct (decide (k' = k)) as [->|Hne]; [rewrite HT in Hi; by eapply HF|]. rewrite HO in Hi by done. by eapply H.
Qed.

(** What is wanted of the tables, without what is pending. *)
Definition mangleHas (base : Z) (a : assigned) (t : Table) : Prop :=
  (∃ m, buildMangleStaticRule base (isEgressNode a) (cfg_EnableGatewayReplyRoute cfg) (cfg_GatewayReplyRouteMark cfg mod 2 ^ 32)%Z = Ret m ∧ hasStatic m t) ∧
  (∃ rules ans, answers (unSnatPolicies a) ans ∧ rules ≡ₚ markSpec (tb_IPVersion t) ans (unSnatPolicies a) ∧ chainNameToChain t !! markChain = Some (mkChain markChain rules)) ∧
  ∃ w tunnels replies, (paListTunnels w).2 = Ret tunnels ∧ replyRules cfg base tunnels = Ret replies ∧
    chainNameToChain t !! replyChain = Some (mkChain replyChain (replies ++ [restoreRule])).
Definition natHas (base : Z) (a : assigned) (t : Table) : Prop :=
  (∃ m, buildNatStaticRule base = Ret m ∧ hasStatic m t) ∧
  ∃ rules, rules ≡ₚ snatSpec (tb_IPVersion t) (snatPolicies a) ∧ chainNameToChain t !! snatChain = Some (mkChain snatChain rules).
Definition filterHas (base : Z) (t : Table) : Prop := ∃ m, buildFilterStaticRule base = Ret m ∧ hasStatic m t.
Definition has (base : Z) (a : assigned) (k : tableKind) (t : Table) : Prop :=
  match k with KMangle => mangleHas base a t | KFilter => filterHas base t | KNat => natHas base a t end.

Lemma has_lasting base a : lasting (has base a).
Proof.
  intros k t t' Hw Ev H. assert (chainToInsertedRules t' = chainToInsertedRules t ∧ chainNameToChain t' = chainNameToChain t) as [E1 E2] by (unfold wants in Hw; split; congruence).
  destruct k; unfold has, mangleHas, natHas, filterHas, hasStatic in *; by rewrite ?E1, ?E2, ?Ev.
Qed.

Definition doneAll (base : Z) (a : assigned) (k : tableKind) (t : Table) : Prop :=
  match k with KMangle => mangleDone cfg base a t | KFilter => filterDone base t | KNat => natDone base (snatPolicies a) t end.
Lemma done_has base a k t : doneAll base a k t → has base a k t ∧ awaits k t.
Proof.
  destruct k; cbn.
  - intros ([Hst Hm] & (rules & ans & Ha & Hr & Hc & Ht) & (w & tn & rs & Hw & Hrs & Hc2 & Ht2)). split.
    + split_and!; [done|by exists rules, ans|by exists w, tn, rs].
    + split; [done|]. intros c [->|[->|?%elem_of_nil]%elem_of_cons]%elem_of_cons; done.
  - intros [Hst Hm]. split; [done|]. split; [done|]. by intros c ?%elem_of_nil.
  - intros (Hst & Hm & rules & Hr & Hc & Ht). split; [split; [done|by exists rules]|]. split; [done|]. intros c [->|?%elem_of_nil]%elem_of_cons; done.
Qed.

(** The kernel's tables are right. *)
Definition final (base : Z) (a : assigned) : Props := λ s, ok s ∧ ∀ k i t, tablesOf k s.1 !! i = Some t → has base a k t ∧ inLine IT TL k t s.2.

Lemma final_call {A} base a (c : M W A) : keepsKernels IT TL c → keepsInv (final base a) (call c).
Proof.
  intros Hc. apply inv_call. intros r w [Hok H]. split; [eapply allOK_world; [done|apply Hc]|]. intros k i t Hi. destruct (H k i t Hi) as [? Hl]. split; [done|].
  unfold inLine in *. cbn [fst snd] in *. rewrite (Hc w (tb_IPVersion t) (kindName k)). done.
Qed.
Lemma final_cleanSets base a : keepsInv (final base a) cleanSets.
Proof.
  unfold cleanSets. apply inv_bind; [apply final_call, tf_ListSets|]. intros names. apply inv_foreach. intros n [] _. case_match; [|apply inv_ret]. case_decide; [apply inv_ret|].
  apply inv_getP. intros r. case_match; [apply inv_ret|]. apply inv_bind; [apply inv_attempt, final_call, tf_DestroySet|]. intros ?. apply inv_ret.
Qed.

Context (Hvx : plainText (cfg_VXLANName cfg)).
Context (Htun : ∀ w l, (paListTunnels w).2 = Ret l → Forall (λ t, plainText (tun_MAC (ts_Tunnel (t_Status t)))) l).

Lemma tri_program base a fuel : (0 <= base)%Z → plainValues (snatPolicies a) → applyFuel <= fuel →
  tri ok (let* _ := programFilter to base in let* _ := programMangle to po cfg base a in let* _ := programNat to po base a in let* _ := applyTables IT to fuel in cleanSets)
    (λ _, final base a) (λ _, True).
Proof.
  intros Hb Hpl Hf. eapply tri_bind; [eapply tri_pre; [|eapply (got_focus (λ _ _, True) KFilter)]; [by intros s Hs|]|].
  { intros O T0. apply focus_programFilter; done. }
  intros []. eapply tri_bind; [eapply (got_focus _ KMangle); intros O T0; by apply focus_programMangle|]. intros [].
  eapply tri_bind; [eapply (got_focus _ KNat); intros O T0; by apply focus_programNat|]. intros [].
  eapply tri_bind; [eapply tri_pre; [|apply (phase_applyTables IT TL so to po vs Hvs (has base a) (has_lasting base a) fuel Hf)]|].
  - intros s [Hok H]. split; [done|]. intros k i t Hi. rewrite decide_False by apply not_elem_of_nil. apply done_has. specialize (H k i t Hi). by destruct k.
  - intros []. eapply tri_post; [apply final_cleanSets|done|done].
Qed.

(** Policies whose values are plain stay so. *)
Lemma filled_plain m m' : filled m m' → plainValues m → plainValues m'.
Proof. intros [_ H] Hm p val' Hv. destruct (H p val' Hv) as (val & w & Hval & -> & _). by apply (Hm p val). Qed.
Lemma assigned_plain gateways : Forall (λ g, ∀ node eip, node ∈ NodeList g → eip ∈ n_Eips node → plainText (e_IPv4 eip) ∧ plainText (e_IPv6 eip)) gateways →
  plainValues (snatPolicies (assignAll cfg gateways)).
Proof.
  intros Hg p val Hv. destruct (as_snat _ _ _ (assignAll_assigns cfg gateways) p val Hv) as (node & eip & Hn & _ & He & _ & ->).
  apply list_elem_of_bind in Hn as (g & Hn & Hin). rewrite Forall_forall in Hg. by apply (Hg g Hin node eip).
Qed.

Lemma tri_init fuel w gateways : applyFuel <= fuel → (paListGateways w).2 = Ret gateways → gateways ≠ [] →
  Forall (λ g, ∀ node eip, node ∈ NodeList g → eip ∈ n_Eips node → plainText (e_IPv4 eip) ∧ plainText (e_IPv6 eip)) gateways →
  tri (λ s, ok s ∧ s.2 = w) (initApplyPolicy IT so to po cfg fuel)
    (λ _ s, ∃ base a, parseMark (cfg_Mark cfg) = Ret base ∧ isEgressNode a = isEgressNode (assignAll cfg gateways) ∧
       filled (unSnatPolicies (assignAll cfg gateways)) (unSnatPolicies a) ∧ filled (snatPolicies (assignAll cfg gateways)) (snatPolicies a) ∧ final base a s) (λ _, True).
Proof.
  intros Hf Hl Hne Hpl. unfold initApplyPolicy. eapply (tri_bind _ _ _ (λ l s, got (λ _ _, True) s ∧ l = gateways)).
  { intros [r w0] [Hok Hw]. cbn in Hw. subst w0. pose proof (got_call (λ _ _, True) _ tf_ListGateways (r, w) ltac:(by split)) as H. unfold call in *. cbn [fst snd] in *.
    destruct (paListGateways w) as [w' o]. cbn in Hl. by subst o. }
  intros l. apply tri_extract. intros ->. destruct gateways as [|g gs]; [done|]. set (gateways := g :: gs) in *.
  eapply tri_bind; [eapply tri_post; [apply (got_call (λ _ _, True))|done|done]|].
  { apply kernels_intro. intros κ. unfold ensureClusterInfoIPSet. apply inv_bind; [apply kernels_inv, tf_CreateSet|]. intros ?. apply inv_bind; [apply kernels_inv, tf_CreateSet|]. intros ?. apply inv_ret. }
  intros []. eapply tri_bind; [apply got_updateSets|]. intros unSnat. apply tri_extract. intros Hun.
  eapply tri_bind; [apply got_updateSets|]. intros snat. apply tri_extract. intros Hsn.
  eapply (tri_bind _ _ _ (λ base s, got (λ _ _, True) s ∧ parseMark (cfg_Mark cfg) = Ret base)); [apply tri_lift; intros s Hs; by destruct (parseMark (cfg_Mark cfg))|].
  intros base. apply tri_extract. intros Hbase. set (a := mkAssigned unSnat snat _).
  eapply tri_pre; [|eapply tri_post; [apply (tri_program base a fuel)|..|done]].
  - by intros s [? _].
  - by apply parseMark_range in Hbase as [? _].
  - by eapply filled_plain, assigned_plain.
  - done.
  - intros ? s Hs. by exists base, a.
Qed.

(** ** What is in the kernel *)

Definition kernelOf (k : tableKind) (t : Table) (w : W) : gmap string (list string) := kv (tb_IPVersion t) (kindName k) w.
(** The chain has these rules and no others. *)
Definition chainIs (k : tableKind) (t : Table) (w : W) (c : string) (rules : list Rule) : Prop :=
  hashesIn (hashCommentPrefix t) c <$> kernelOf k t w !! c = Some (RuleHashes (tb_opt t) (mkChain c rules)).
(** The chains of the kernel start with these rules, before the rules of other programs. *)
Definition hooksAre (k : tableKind) (t : Table) (w : W) (m : chainRulesMap) : Prop := ∀ c rules, m !! c = Some rules →
  ∃ xs, kernelOf k t w !! c = Some xs ∧ ∃ appended, hashesIn (hashCommentPrefix t) c xs =
    calculateRuleHashes (tb_opt t) c rules ++ replicate (length (foreign t c xs)) ""%string ++ appended.

Definition inKernel (base : Z) (a : assigned) (k : tableKind) (t : Table) (w : W) : Prop :=
  match k with
  | KMangle =>
      (∃ m, buildMangleStaticRule base (isEgressNode a) (cfg_EnableGatewayReplyRoute cfg) (cfg_GatewayReplyRouteMark cfg mod 2 ^ 32)%Z = Ret m ∧ hooksAre k t w m) ∧
      (∃ rules ans, answers (unSnatPolicies a) ans ∧ rules ≡ₚ markSpec (tb_IPVersion t) ans (unSnatPolicies a) ∧ chainIs k t w markChain rules) ∧
      (isEgressNode a = true → ∃ w0 tunnels replies, (paListTunnels w0).2 = Ret tunnels ∧ replyRules cfg base tunnels = Ret replies ∧
         chainIs k t w replyChain (replies ++ [restoreRule]))
  | KFilter => ∃ m, buildFilterStaticRule base = Ret m ∧ hooksAre k t w m
  | KNat =>
      (∃ m, buildNatStaticRule base = Ret m ∧ hooksAre k t w m) ∧
      ∃ rules, rules ≡ₚ snatSpec (tb_IPVersion t) (snatPolicies a) ∧ chainIs k t w snatChain rules
  end.

Lemma occurrences_pos c cs : c ∈ cs → (0 < occurrences c cs)%Z.
Proof.
  intros H. unfold occurrences. assert (c ∈ filter (λ c', c' = c) cs) as Hin by by apply list_elem_of_filter.
  destruct (filter (λ c', c' = c) cs); [by apply elem_of_nil in Hin|]. cbn. lia.
Qed.
(** A chain to which an inserted rule jumps is referred to. *)
Lemma jump_counted t h c m rules : tinv t → hasStatic m t → m !! h = Some rules → c ∈ referred rules → refCount t c ≠ 0%Z.
Proof.
  intros Hinv Hs Hm Hc. pose proof (refs_ins_le t c h (ti_refs _ _ Hinv)) as H. rewrite (Hs h rules Hm) in H.
  pose proof (occurrences_pos c _ Hc). unfold refsOf in H. lia.
Qed.

Lemma inLine_chain k t w c rules : inLine IT TL k t w → c ∈ chainsOf k → refCount t c ≠ 0%Z → chainNameToChain t !! c = Some (mkChain c rules) → chainIs k t w c rules.
Proof.
  intros [Hl _] Hc Hr Hm. unfold chainIs, kernelOf. rewrite Hl by done. unfold desiredHashes, desiredStateOfChain. rewrite decide_False by done. by rewrite Hm.
Qed.
Lemma inLine_hooks k t w m : inLine IT TL k t w → fineMap t m → hasStatic m t → InsertMode (tb_opt t) = "insert" → hooksAre k t w m.
Proof.
  intros [_ Hh] Hf Hs Hi c rules Hm. destruct (Hf c rules Hm) as ((_ & Hag & Hour) & _ & Hne). specialize (Hh c Hag Hour). specialize (Hs c rules Hm). cbv zeta in Hh.
  unfold kernelOf. destruct (kv (tb_IPVersion t) (kindName k) w !! c) as [xs|]; cbn [hookRight] in Hh; [|destruct Hh; congruence].
  exists xs. split; [done|]. unfold expectedOf, expectedHashesForInsertAppendChain in Hh. unfold rulesIn in Hs. rewrite Hs, Hi in Hh. cbn [fst] in Hh.
  rewrite decide_False in Hh by done. rewrite <- app_assoc in Hh. by eexists.
Qed.

Lemma final_kernel base a s : (0 <= base)%Z → final base a s → ∀ k i t, tablesOf k s.1 !! i = Some t → inKernel base a k t s.2.
Proof.
  intros Hb [Hok H] k i t Hi. destruct (H k i t Hi) as [Hhas Hl]. destruct (Hok k) as [_ Ht]. specialize (Ht i t Hi). destruct (tableOK_facts IT TL k s.2 t Ht) as (Hinv & _).
  destruct Ht as [Hp Hins _ _]. destruct k; cbn [has inKernel] in *.
  - destruct Hhas as ((m & Em & Hm) & (rules & ans & Ha & Hr & Hc) & (w0 & tn & rs & Hw0 & Hrs & Hc2)). split_and!.
    + exists m. split; [done|]. apply inLine_hooks; [done| |done|done]. eapply (mangle_fine t Hp base); [done| |done]. by apply Z.mod_pos_bound.
    + exists rules, ans. split_and!; [done|done|]. apply inLine_chain; [done|by left| |done].
      unfold buildMangleStaticRule in Em. inv_ret. eapply (jump_counted t "PREROUTING"); [done|done|by apply lookup_insert_eq || by vm_compute|]. by left.
    + intros He. exists w0, tn, rs. split_and!; [done|done|]. apply inLine_chain; [done|by right; left| |done].
      unfold buildMangleStaticRule in Em. rewrite He in Em. inv_ret. eapply (jump_counted t "PREROUTING"); [done|done|reflexivity|]. by right; left.
  - destruct Hhas as (m & Em & Hm). exists m. split; [done|]. apply inLine_hooks; [done| |done|done]. by apply (filter_fine t Hp base).
  - destruct Hhas as ((m & Em & Hm) & (rules & Hr & Hc)). split.
    + exists m. split; [done|]. apply inLine_hooks; [done| |done|done]. by apply (nat_fine t Hp base).
    + exists rules. split; [done|]. apply inLine_chain; [done|by left| |done].
      unfold buildNatStaticRule in Em. inv_ret. eapply (jump_counted t "POSTROUTING"); [done|done|reflexivity|]. by left.
Qed.

End init.

(** ** The start *)

Section start.
Context {W : Type} (IT : nat → Iptables W) `{KT : !KernelText} (TL : ∀ v n, @IptablesLaws W n (IT v) KT) (cfg : AgentConfig).
Abbreviation kv := (kview IT TL).

Definition versions : list nat := (if cfg_EnableIPv4 cfg then [4] else []) ++ (if cfg_EnableIPv6 cfg then [6] else []).
Lemma versions_nodup : NoDup versions.
Proof. unfold versions. destruct (cfg_EnableIPv4 cfg), (cfg_EnableIPv6 cfg); apply (bool_decide_unpack _); vm_compute; exact I. Qed.

Lemma newTable_ok k v now t w : cfg_nft cfg = false → kernel_wf (kv v (kindName k) w) → NewTable (kindName k) v "egw:" (policyOptions cfg) now = Ret t →
  tb_IPVersion t = v ∧ tableOK IT TL k w t.
Proof.
  intros Hnft Hwf HN. pose proof HN as HN'. unfold NewTable in HN'. cbn in HN'. injection HN' as <-. split; [done|]. split; [done|done|exact Hnft|].
  unfold kreach. cbn [tb_IPVersion]. eapply reach_new; [exact HN| |exact Hwf].
  split_and!; [by destruct k|apply kindName_plain|split; [by eexists _, _|apply (bool_decide_unpack _); vm_compute; exact I]|]. cbn [tb_Name].
  intros c Hc. assert (c ∈ ["INPUT"; "FORWARD"; "OUTPUT"; "PREROUTING"; "POSTROUTING"]) as Hin by (destruct k; cbn in Hc; set_solver).
  rewrite !elem_of_cons, elem_of_nil in Hin. destruct Hin as [->|[->|[->|[->|[->|[]]]]]]; done.
Qed.
(** The tables of one kind, from those of the IP versions. *)
Lemma versions_ok k w l (v4 v6 : list Table) : l = v4 ++ v6 →
  (∀ t, t ∈ v4 → tb_IPVersion t = 4 ∧ tableOK IT TL k w t) → (∀ t, t ∈ v6 → tb_IPVersion t = 6 ∧ tableOK IT TL k w t) →
  length v4 = (if cfg_EnableIPv4 cfg then 1 else 0) → length v6 = (if cfg_EnableIPv6 cfg then 1 else 0) →
  tb_IPVersion <$> l = versions ∧ ∀ i t, l !! i = Some t → tableOK IT TL k w t.
Proof.
  intros -> H4 H6 L4 L6. split; [|intros i t Hi; apply list_elem_of_lookup_2 in Hi; apply elem_of_app in Hi as [?%H4|?%H6]; naive_solver].
  rewrite fmap_app. unfold versions. assert (∀ (x : list Table) n (b : bool), length x = (if b then 1 else 0) → (∀ t, t ∈ x → tb_IPVersion t = n) → tb_IPVersion <$> x = if b then [n] else []) as Hx.
  { intros x n [] Hl Hn; destruct x as [|t [|]]; try done. cbn. by rewrite Hn by by left. }
  f_equal; apply Hx; naive_solver.
Qed.

Lemma newPolicyController_ok now r w : cfg_nft cfg = false → (∀ k v, kernel_wf (kv v (kindName k) w)) → newPolicyController cfg now = Ret r →
  allOK IT TL versions (r, w).
Proof.
  intros Hnft Hwf H k. pose proof (λ v t, newTable_ok k v now t w Hnft (Hwf k v)) as Hk. unfold newPolicyController in H. inv_ret.
  destruct k; (eapply versions_ok; [reflexivity|..]); destruct (cfg_EnableIPv4 cfg), (cfg_EnableIPv6 cfg); inv_ret; cbn; try done;
    try (by intros t ?%elem_of_nil); intros t ->%list_elem_of_singleton; by apply Hk.
Qed.
End start.

(** C10. When [initApplyPolicy] returns for a list of gateways that is not empty, from tables that
    [newPolicyController] made and that earlier runs without a failed [Apply] kept, and texts that need no quoting, the kernel's tables hold the rules of the policies that the gateways
    place, for every IP version: the chain for SNAT has one rule for each policy of this
    node that has an address, with the policy's egress address or the node's own; the chain
    for marks has one rule for each policy of another node whose tunnel can be read, with
    that node's mark; on an egress node the chain for replies has the rules of the tunnels;
    and the kernel's own chains start with the agent's rules that lead there, before the
    rules of other programs.  The tables can be trusted again.  [allOK] asks for tables of
    the agent in legacy mode, in a state that operations on them can reach. *)
Theorem policies_programmed {W : Type} `{LS : LabelSelectors} `{PA : !PoliceApi W} `{IF : !Interface W} (IT : nat → Iptables W) `{KT : !KernelText}
    (TL : ∀ v n, @IptablesLaws W n (IT v) KT) `{TF : !TableFrames W IT TL} so to po cfg fuel s s' gateways :
  plainText (cfg_VXLANName cfg) → (∀ w l, (paListTunnels w).2 = Ret l → Forall (λ t, plainText (tun_MAC (ts_Tunnel (t_Status t)))) l) →
  Forall (λ g, ∀ node eip, node ∈ NodeList g → eip ∈ n_Eips node → plainText (e_IPv4 eip) ∧ plainText (e_IPv6 eip)) gateways →
  applyFuel <= fuel → allOK IT TL (versions cfg) s → (paListGateways s.2).2 = Ret gateways → gateways ≠ [] →
  initApplyPolicy IT so to po cfg fuel s = (s', Ret tt) →
  allOK IT TL (versions cfg) s' ∧
  ∃ base a, parseMark (cfg_Mark cfg) = Ret base ∧ isEgressNode a = isEgressNode (assignAll cfg gateways) ∧
    filled so (unSnatPolicies (assignAll cfg gateways)) (unSnatPolicies a) ∧ filled so (snatPolicies (assignAll cfg gateways)) (snatPolicies a) ∧
    ∀ k i t, tablesOf k s'.1 !! i = Some t → inKernel IT TL cfg base a k t s'.2.
Proof.
  intros Hvx Htun Hpl Hf Hok Hl Hne E.
  pose proof (tri_init IT TL so to po cfg (versions cfg) (versions_nodup cfg) Hvx Htun fuel s.2 gateways Hf Hl Hne Hpl s (conj Hok eq_refl)) as H.
  rewrite E in H. destruct H as (base & a & Hb & He & Hu & Hs & Hfin). split; [apply Hfin|]. exists base, a. split_and!; [done..|].
  eapply final_kernel; [by apply parseMark_range in Hb as [? _]|done].
Qed.
