(* ===== verification/PoliceStore.v ===== *)
(** * A node to run the agent on

    Objects of the API, the kernel's sets behind the commands of [ipset] and the
    kernel's tables behind [iptables-save] and [iptables-restore], with a script of
    failing commands.  It meets the laws that the theorems about the agent assume, and
    their witnesses evaluate on it. *)

From S2P Require Import Prelude GoStd GoNet GoFmt Types Utils ApiServer Store Sha1 Sha224 IPUtil EndpointSlice Triple IptablesRule IptablesTable IptablesKernel IptablesText IptablesWrite IptablesRead IptablesUpdate IptablesLoad IptablesApply IptablesRefs IptablesTheorems IptablesStore IptablesFrame IPSet IPSetLaws Police PoliceSets PoliceInfo PoliceSafety PoliceRules PoliceTables PoliceInit.
Open Scope nat_scope.

Record AgentWorld := mkAgentWorld {
  aw_gateways : list EgressGateway;
  aw_policies : list EgressPolicy;
  aw_clusterPolicies : list EgressClusterPolicy;
  aw_tunnels : list EgressTunnel;
  aw_infos : list EgressClusterInfo;
  aw_slices : list EgressEndpointSlice;
  aw_clusterSlices : list EgressClusterEndpointSlice;
  aw_sets : gmap string (gset string);
  aw_tables : gmap (nat * string) (gmap string (list string));
  aw_script : list bool
}.
Definition with_sets (w : AgentWorld) (m : gmap string (gset string)) : AgentWorld :=
  mkAgentWorld (aw_gateways w) (aw_policies w) (aw_clusterPolicies w) (aw_tunnels w) (aw_infos w) (aw_slices w) (aw_clusterSlices w) m (aw_tables w) (aw_script w).
Definition with_tables (w : AgentWorld) (m : gmap (nat * string) (gmap string (list string))) : AgentWorld :=
  mkAgentWorld (aw_gateways w) (aw_policies w) (aw_clusterPolicies w) (aw_tunnels w) (aw_infos w) (aw_slices w) (aw_clusterSlices w) (aw_sets w) m (aw_script w).
Definition with_failures (w : AgentWorld) (l : list bool) : AgentWorld :=
  mkAgentWorld (aw_gateways w) (aw_policies w) (aw_clusterPolicies w) (aw_tunnels w) (aw_infos w) (aw_slices w) (aw_clusterSlices w) (aw_sets w) (aw_tables w) l.

(** A command fails when the script says so. *)
Definition command {A} (bad ok : AgentWorld → A) (w : AgentWorld) : A :=
  match aw_script w with
  | true :: l => bad (with_failures w l)
  | false :: l => ok (with_failures w l)
  | [] => ok w
  end.
Lemma command_ind {A} (bad ok : AgentWorld → A) (R : AgentWorld → A → Prop) w :
  (∀ w l, R (with_failures w l) (bad (with_failures w l)) → R w (bad (with_failures w l))) → (∀ w l, R (with_failures w l) (ok (with_failures w l)) → R w (ok (with_failures w l))) →
  (∀ w, R w (bad w)) → (∀ w, R w (ok w)) → R w (command bad ok w).
Proof. intros H1 H2 Hb Hk. unfold command. destruct (aw_script w) as [|[] l]; auto. Qed.

(** ** Objects *)

Definition named (m : ObjectMeta) (n : NamespacedName) : bool := bool_decide (om_Name m = nn_Name n ∧ om_Namespace m = nn_Namespace n).
Definition lookupObj {A} (meta : A → ObjectMeta) (n : NamespacedName) (l : list A) : outcome A :=
  match filter (λ a, named (meta a) n = true) l with a :: _ => Ret a | [] => Err (ErrApi NotFound) end.

(** MAC addresses are written by the agents, as texts of [net.HardwareAddr]. *)
#[export] Instance plainText_dec s : Decision (plainText s).
Proof. unfold plainText. apply _. Defined.
Definition ownMAC (t : EgressTunnel) : Prop := plainText (tun_MAC (ts_Tunnel (t_Status t))).

#[export] Instance world_api : PoliceApi AgentWorld := {
  paListGateways := λ w, (w, Ret (aw_gateways w));
  paGetGateway := λ n w, (w, lookupObj g_Meta (mkNN "" n) (aw_gateways w));
  paGetPolicy := λ n w, (w, lookupObj ep_Meta n (aw_policies w));
  paGetClusterPolicy := λ n w, (w, lookupObj cp_Meta n (aw_clusterPolicies w));
  paGetTunnel := λ n w, (w, lookupObj t_Meta (mkNN "" n) (aw_tunnels w));
  paListTunnels := λ w, (w, Ret (filter (λ t, ownMAC t) (aw_tunnels w)));
  paGetClusterInfo := λ n w, (w, lookupObj ci_Meta n (aw_infos w));
  paListSlices := λ ns sel w, (w, Ret (filter (λ s, bool_decide (om_Namespace (sl_Meta s) = ns) && matchSelector sel (om_Labels (sl_Meta s)) = true) (aw_slices w)));
  paListClusterSlices := λ sel w, (w, Ret (filter (λ s, matchSelector sel (om_Labels (csl_Meta s)) = true) (aw_clusterSlices w)))
}.
Lemma world_tunnels w l : (paListTunnels w).2 = Ret l → Forall (λ t, plainText (tun_MAC (ts_Tunnel (t_Status t)))) l.
Proof. cbn. intros [= <-]. rewrite Forall_forall. by intros t [? _]%list_elem_of_filter. Qed.

(** ** Sets *)

(** Names and members are words in lines of their own. *)
Definition printable (s : string) : Prop := oneLine s ∧ s ≠ "" ∧ s ≠ "Members:".
#[export] Instance printable_dec s : Decision (printable s).
Proof. unfold printable, oneLine. apply _. Defined.
Definition clean (k : gmap string (gset string)) : Prop := ∀ n m, k !! n = Some m → printable n ∧ ∀ e, e ∈ m → printable e.
Definition printed (w : AgentWorld) : gmap string (gset string) := filter (λ e, printable e) <$> filter (λ p, printable p.1) (aw_sets w).

Lemma printed_clean w : clean (printed w).
Proof.
  intros n m. unfold printed. rewrite lookup_fmap, fmap_Some. intros (m0 & [_ ?]%map_lookup_filter_Some & ->). split; [done|]. by intros e [? _]%elem_of_filter.
Qed.
Lemma printed_with w k : clean k → printed (with_sets w k) = k.
Proof.
  intros Hk. unfold printed. apply map_eq. intros n. rewrite lookup_fmap. cbn. destruct (k !! n) as [m|] eqn:E.
  - destruct (Hk n m E) as [Hn Hm]. rewrite (map_lookup_filter_Some_2 _ k n m E) by done. cbn. f_equal. set_unfold. naive_solver.
  - by rewrite map_lookup_filter_None_2 by by left.
Qed.

Definition ipsetCmd (args : list string) (w : AgentWorld) : AgentWorld * (string * option string) :=
  let fail out := (w, (out, Some "exit status 1")) in
  let done k := (with_sets w k, ("", None)) in
  match args with
  | c :: n :: rest =>
      let found := printed w !! n in
      if decide (c = "list") then
        if decide (n = "-n") then (w, (outputOf (elements (dom (printed w))), None))
        else match found with
          | Some m => (w, (outputOf (["Name: " +:+ unchars (filter (λ a, a ≠ newlineChar) (chars n))] ++ "Members:" :: elements m), None))
          | None => fail "ipset v7.11: The set with the given name does not exist"
          end
      else if decide (c = "create") then if decide (printable n) then done (created n (printed w)) else fail ""
      else match found with
        | None => fail "ipset v7.11: The set with the given name does not exist"
        | Some m =>
            if decide (c = "destroy") then done (delete n (printed w))
            else match rest with
              | e :: _ =>
                  if decide (c = "add") then if decide (printable e) then done (<[n := {[e]} ∪ m]> (printed w)) else fail ""
                  else if decide (c = "del") then if decide (e ∈ m) then done (<[n := m ∖ {[e]}]> (printed w)) else fail ""
                  else fail ""
              | [] => fail ""
              end
        end
  | _ => fail ""
  end.
#[export] Instance world_exec : Exec AgentWorld := {
  CombinedOutput args := command (λ w, (w, (""%string, Some "exit status 1"))) (ipsetCmd args)
}.

(** *** They meet the laws *)

Lemma lower_printable n : lowerName n → printable n ∧ n ≠ "-n".
Proof.
  intros Hl. pose proof (lowerName_nonempty n Hl) as Hne. destruct Hl as [(c & l & E & Hc) H]. split; [split_and!|].
  - intros Hin. rewrite Forall_forall in H. by apply H in Hin.
  - done.
  - intros ->. rewrite Forall_forall in H. assert ("M"%char ∈ chars "Members:") as Hin%H by (by left). done.
  - intros ->. cbn in E. congruence.
Qed.
Lemma contains_elem c p l : containsChars (c :: p) l = true → c ∈ l.
Proof.
  induction l as [|a l IH]; [done|]. cbn [containsChars]. rewrite orb_true_iff, bool_decide_eq_true. intros [E|H]; [|right; by apply IH].
  cbn in E. injection E as -> _. by left.
Qed.
Lemma script_text n : lowerName n → Contains (listError n "" "exit status 1") missingText = false.
Proof.
  intros [_ Hl]. apply not_true_is_false. unfold Contains. change (chars missingText) with ("T"%char :: chars "he set with the given name does not exist").
  intros Hin%contains_elem. unfold listError in Hin. rewrite !chars_app in Hin. rewrite Forall_forall in Hl.
  apply elem_of_app in Hin as [Hin|[Hin%Hl|Hin]%elem_of_app]; [|done|]; apply (bool_decide_pack _) in Hin; by vm_compute in Hin.
Qed.

Lemma clean_insert n m k : clean k → printable n → (∀ e, e ∈ m → printable e) → clean (<[n := m]> k).
Proof. intros Hk Hn Hm n' m' [[<- <-]|[_ ?]]%lookup_insert_Some; [done|by apply Hk]. Qed.
Lemma clean_created n k : clean k → printable n → clean (created n k).
Proof. intros Hk Hn. unfold created. destruct (k !! n); [done|]. apply clean_insert; [done|done|set_solver]. Qed.
Lemma clean_delete n k : clean k → clean (delete n k).
Proof. intros Hk n' m [_ ?]%lookup_delete_Some. by apply Hk. Qed.

#[export] Program Instance world_exec_laws : ExecLaws AgentWorld := {| ksets := printed; kmember e := e |}.
Next Obligation. done. Qed.
Next Obligation. done. Qed.
Next Obligation.
  intros n type args w [Hn _]%lower_printable. cbn [CombinedOutput world_exec]. unfold command. destruct (aw_script w) as [|[] l]; [|done|].
  all: cbn [ipsetCmd]; rewrite decide_False, decide_True, decide_True by done; apply printed_with, clean_created; [apply (printed_clean w)|done].
Qed.
Next Obligation.
  intros e n w [Hn _]%lower_printable. cbn [CombinedOutput world_exec]. unfold command. assert (∀ w, let '(w', (_, err)) := ipsetCmd ["add"; n; e; "-exist"] w in
    match err with None => ∃ m, printed w !! n = Some m ∧ printed w' = <[n := {[e]} ∪ m]> (printed w) | Some _ => printed w' = printed w end) as H.
  { intros w1. cbn [ipsetCmd]. rewrite !decide_False by done. destruct (printed w1 !! n) as [m|] eqn:E; [|done]. rewrite decide_False, decide_True by done.
    case_decide; [|done]. exists m. split; [done|]. apply printed_with, clean_insert; [apply printed_clean|done|]. destruct (printed_clean w1 n m E). set_solver. }
  destruct (aw_script w) as [|[] l]; [apply H|done|]. apply (H (with_failures w l)).
Qed.
Next Obligation.
  intros e n w [Hn _]%lower_printable. cbn [CombinedOutput world_exec]. unfold command. assert (∀ w, let '(w', (_, err)) := ipsetCmd ["del"; n; e] w in
    match err with None => ∃ m, printed w !! n = Some m ∧ printed w' = <[n := m ∖ {[e]}]> (printed w) | Some _ => printed w' = printed w end) as H.
  { intros w1. cbn [ipsetCmd]. rewrite !decide_False by done. destruct (printed w1 !! n) as [m|] eqn:E; [|done]. rewrite !decide_False, decide_True by done.
    case_decide; [|done]. exists m. split; [done|]. apply printed_with, clean_insert; [apply printed_clean|done|]. destruct (printed_clean w1 n m E). set_solver. }
  destruct (aw_script w) as [|[] l]; [apply H|done|]. apply (H (with_failures w l)).
Qed.
Next Obligation.
  intros n w Hn. cbn [CombinedOutput world_exec]. unfold command. assert (∀ w, let '(w', (_, err)) := ipsetCmd ["destroy"; n] w in
    printed w' = match err with None => delete n (printed w) | Some _ => printed w end) as H.
  { intros w1. cbn [ipsetCmd]. rewrite !decide_False by done. destruct (printed w1 !! n) as [m|] eqn:E; [|done]. rewrite decide_True by done.
    apply printed_with, clean_delete, printed_clean. }
  destruct (aw_script w) as [|[] l]; [apply H|done|]. apply (H (with_failures w l)).
Qed.
Next Obligation.
  intros n w Hn. cbn [CombinedOutput world_exec]. unfold command. assert (∀ w, let '(w', (out, err)) := ipsetCmd ["list"; n] w in
    printed w' = printed w ∧ match err with
    | None => ∃ m header members, printed w !! n = Some m ∧ members ≡ₚ elements m ∧ Forall oneLine header ∧ Forall (λ s, oneLine s ∧ s ≠ "" ∧ s ≠ "Members:") members ∧
        out = outputOf (header ++ "Members:" :: members)
    | Some text => Contains (listError n out text) missingText = true → printed w !! n = None end) as H.
  { intros w1. cbn [ipsetCmd]. apply lower_printable in Hn as [Hn Hne]. rewrite decide_True, decide_False by done. destruct (printed w1 !! n) as [m|] eqn:E; [|done]. split; [done|].
    eexists m, _, (elements m). split_and!; [done|done|..|reflexivity].
    - constructor; [|done]. unfold oneLine. rewrite chars_app, chars_unchars, not_elem_of_app. split; [apply (bool_decide_unpack _); vm_compute; exact I|].
      by intros [? _]%list_elem_of_filter.
    - rewrite Forall_forall. intros e He%elem_of_elements. by apply (printed_clean w1 n m E). }
  destruct (aw_script w) as [|[] l]; [apply H| |apply (H (with_failures w l))]. split; [done|]. by rewrite script_text.
Qed.
Next Obligation.
  intros w. cbn [CombinedOutput world_exec]. unfold command. destruct (aw_script w) as [|[] l]; [|done|].
  all: cbn [ipsetCmd]; rewrite !decide_True by done; split; [done|]; eexists; split_and!; [reflexivity| |reflexivity];
    rewrite Forall_forall; intros n [m Hm]%elem_of_elements%elem_of_dom; by apply (printed_clean w) in Hm as [(? & ? & _) _].
Qed.

(** ** Tables *)

Definition tableAt (v : nat) (n : string) (w : AgentWorld) : gmap string (list string) := default ∅ (aw_tables w !! (v, n)).
(** The table that a restore input opens. *)
Definition opened (input : list ascii) : string := match head (linesOf input) with Some l => unchars (drop 1 (chars l)) | None => "" end.
Definition restoreCmd (v : nat) (input : list ascii) (w : AgentWorld) : AgentWorld * outcome unit :=
  match execInput (opened input) (linesOf input) false (tableAt v (opened input) w) with
  | Some k => (with_tables w (<[(v, opened input) := k]> (aw_tables w)), Ret tt)
  | None => (w, Err (ErrNew "iptables-restore: line failed"))
  end.
Definition world_iptables (v : nat) : Iptables AgentWorld := {|
  ipSave n := command (λ w, (w, Err (ErrNew "exit status 1"))) (λ w, (w, Ret (saveLines n (tableAt v n w))));
  ipRestore input := command (λ w, (w, Err (ErrNew "exit status 1"))) (restoreCmd v input);
  ipNow := λ w, (w, Ret 100%Z)
|}.

Lemma opened_star input n : head (linesOf input) = Some ("*" +:+ n) → opened input = n.
Proof. intros H. unfold opened. rewrite H, chars_app. apply unchars_chars. Qed.

#[export] Program Instance world_tables_laws v n : @IptablesLaws AgentWorld n (world_iptables v) plain_text := @Build_IptablesLaws _ _ (world_iptables v) _ (tableAt v n) _ _ _.
Next Obligation.
  intros v n w Hwf. cbn [ipSave world_iptables]. unfold command. destruct (aw_script w) as [|[] l]; (split; [exact Hwf|]); [|done|]; (split; [done|apply saveLines_listing]).
Qed.
Next Obligation.
  intros v n input w Hwf Ho%opened_star. cbn [ipRestore world_iptables]. unfold command, restoreCmd. rewrite Ho.
  assert (∀ w m, tableAt v n (with_tables w (<[(v, n) := m]> (aw_tables w))) = m) as Hset by (intros; unfold tableAt; cbn; by rewrite lookup_insert_eq).
  destruct (aw_script w) as [|[] l]; [|exact Hwf|].
  - destruct (execInput n (linesOf input) false (tableAt v n w)) as [k|] eqn:E; [|exact Hwf]. by rewrite Hset.
  - change (tableAt v n (with_failures w l)) with (tableAt v n w). destruct (execInput n (linesOf input) false (tableAt v n w)) as [k|] eqn:E; [|exact Hwf]. by rewrite Hset.
Qed.
Next Obligation. done. Qed.

(** ** Nothing disturbs what it should not *)

#[export] Instance world_setFrames : SetFrames AgentWorld.
Proof. by split. Qed.
#[export] Instance world_tableSets : TableSets AgentWorld world_iptables.
Proof.
  split.
  - intros v n w. cbn. unfold command. by destruct (aw_script w) as [|[] l].
  - intros v input w. cbn. unfold command, restoreCmd. destruct (aw_script w) as [|[] l]; [|done|]; by destruct (execInput _ _ _ _).
  - done.
Qed.

Lemma ipset_tables args w : aw_tables (CombinedOutput args w).1 = aw_tables w.
Proof.
  cbn. unfold command. assert (∀ w, aw_tables (ipsetCmd args w).1 = aw_tables w) as H.
  { intros w1. unfold ipsetCmd. repeat case_match; done. }
  destruct (aw_script w) as [|[] l]; [apply H|done|apply (H (with_failures w l))].
Qed.
Abbreviation worldLaws := (λ v n, world_tables_laws v n).
Lemma run_tables args wrap : keepsKernels world_iptables worldLaws (run args wrap).
Proof.
  intros w v n. unfold run, kview. pose proof (ipset_tables args w) as H. destruct (CombinedOutput args w) as [w' [out [err|]]]; cbn in *; unfold tableAt; by rewrite H.
Qed.
Lemma bind_tables {A B} (c : M AgentWorld A) (f : A → M AgentWorld B) : keepsKernels world_iptables worldLaws c → (∀ a, keepsKernels world_iptables worldLaws (f a)) →
  keepsKernels world_iptables worldLaws (mbind_ c f).
Proof. intros Hc Hf. apply kernels_intro. intros κ. apply inv_bind; [by apply kernels_inv|]. intros a. by apply kernels_inv. Qed.

#[export] Instance world_tableFrames : TableFrames AgentWorld world_iptables worldLaws.
Proof.
  assert (∀ args wrap, keepsKernels world_iptables worldLaws (run_ args wrap)) as Hrun by (intros; apply bind_tables; [apply run_tables|done]).
  split; try (intros; by apply Hrun); try done.
  - intros v n v' n' w _. cbn. unfold command. by destruct (aw_script w) as [|[] l].
  - intros v n input v' n' w Ho%opened_star Hne. cbn. unfold command, restoreCmd, kview. rewrite Ho.
    destruct (aw_script w) as [|[] l]; [|done|]; (destruct (execInput _ _ _ _); [|done]); unfold tableAt; cbn; by rewrite lookup_insert_ne.
  - intros s b. cbn. unfold runner_CreateSet. destruct (IPSet_Validate _); [|done..]. apply bind_tables; [apply Hrun|done].
  - intros n. cbn. unfold runner_ListEntries. case_decide; [done|]. apply bind_tables; [apply run_tables|done].
  - cbn. apply bind_tables; [apply run_tables|done].
Qed.

(** ** A cluster *)

Definition meta (ns name : string) : ObjectMeta := mkMeta name ns ∅ [] false 1.
Definition ownSlice (policy pod : string) (v4 v6 : list string) (node : string) : EgressEndpointSlice :=
  mkSlice (mkMeta (policy +:+ "-s") "ns1" {[LabelPolicyName := policy]} [] false 1) [mkEndpoint "ns1" pod v4 v6 node].
Definition pol (name : string) (dest : list string) : EgressPolicy :=
  mkEgressPolicy (meta "ns1" name) (mkPolicySpec "gw1" zeroEgressIP (mkAppliedTo None []) dest 0) zeroPolicyStatus.
Definition gateway1 : EgressGateway :=
  mkGateway (meta "" "gw1") (g_Spec zeroGateway) (mkGatewayStatus
    [mkEgressIPStatus "worker1" [mkEips "10.6.1.21" "fd00::21" [mkPolicy "pol1" "ns1"]] "Ready";
     mkEgressIPStatus "worker2" [mkEips "10.6.1.22" "" [mkPolicy "pol2" "ns1"]] "Ready"] zeroUsage).
Definition tunnel (name mac mark : string) : EgressTunnel :=
  mkEgressTunnel (meta "" name) (mkTunnelStatus (mkTunnel "" "" mac (mkParent "" "" "")) "Ready" mark 0).
Definition info1 : EgressClusterInfo :=
  mkClusterInfo (meta "" "default") (mkClusterInfoSpec (mkAutoDetect "" true true) [])
    (mkClusterInfoStatus "k8s" {["worker1" := mkIPListPair ["10.6.0.1"] ["fd00::1"]]} (Some (mkIPListPair ["10.96.0.0/16"] [])) {["k8s" := mkIPListPair ["10.244.0.0/16"] ["fd10::/64"]]} []).
Definition chains (names : list string) : gmap string (list string) := list_to_map ((λ c, (c, if decide (c = "PREROUTING") then ["-j KUBE"] else [])) <$> names).
Definition tables1 : gmap (nat * string) (gmap string (list string)) :=
  list_to_map (v ← [4; 6]; n ← ["mangle"; "filter"; "nat"]; [((v, n), chains (tableToKernelChains n))]).
Definition cluster1 : AgentWorld :=
  mkAgentWorld [gateway1] [pol "pol1" ["1.1.1.0/24"; "2001:db8::/48"]; pol "pol2" []] []
    [tunnel "worker1" "66:50:85:cb:b2:01" "0x26000001"; tunnel "worker2" "66:50:85:cb:b2:02" "0x26000002"] [info1]
    [ownSlice "pol1" "a" ["10.244.1.5"] ["fd10::5"] "worker2"; ownSlice "pol2" "b" ["10.244.0.7"] ["fd10::7"] "worker1"] []
    {["KUBE-SET" := {["10.0.0.1"]}]} tables1 [].
Definition cfg1 : AgentConfig := mkAgentConfig "worker1" true false "0x26000000" true 39 "egress.vxlan" 0 0 false.

Definition listed : KeyOrder Policy := {| key_order l := l; key_order_perm l := reflexivity l |}.
Abbreviation so1 := (λ _ : nat, listedOrder).
Abbreviation to1 := (λ (_ : tableKind) (_ _ : nat), listedOrder).
Abbreviation po1 := (λ _ : nat, listed).

Definition agent1 : policeReconciler := match newPolicyController cfg1 0 with Ret r => r | _ => mkPolice ∅ false [] [] [] end.
Definition init1 := initApplyPolicy world_iptables so1 to1 po1 cfg1 42 (agent1, cluster1).

Lemma agent1_known w : known (agent1, w).
Proof. intros n set H. by vm_compute in H. Qed.
Lemma chains_wf names : Forall plainName names → kernel_wf (chains names).
Proof.
  induction 1 as [|c names Hc _ IH]; [split; intros c xs; [by intros ?|by intros x ?]|].
  unfold chains. cbn. apply kernel_wf_insert; [exact IH|done|]. case_decide; [|by intros x ?%elem_of_nil].
  intros x [->|[]%elem_of_nil]%elem_of_cons. split; [done|by apply likeb_sound].
Qed.
Lemma cluster1_wf v n : kernel_wf (tableAt v n cluster1).
Proof.
  unfold tableAt. change (aw_tables cluster1) with tables1. destruct (tables1 !! (v, n)) as [m|] eqn:E; [|apply (chains_wf []); done].
  assert (∃ n, m = chains (tableToKernelChains n)) as [n0 ->].
  { apply elem_of_list_to_map_2 in E. repeat (apply elem_of_cons in E as [[= _ _ ->]|E]; [by eexists|]). by apply elem_of_nil in E. }
  apply chains_wf. rewrite Forall_forall. intros c. by apply (kernelChains_plain agentChain).
Qed.
Lemma agent1_ok : allOK world_iptables worldLaws (versions cfg1) (agent1, cluster1).
Proof. eapply (newPolicyController_ok world_iptables worldLaws cfg1 0); [done| |reflexivity]. intros k v. apply cluster1_wf. Qed.

(** *** The theorems at work *)

Lemma init1_returns : initApplyPolicy world_iptables so1 to1 po1 cfg1 42 (agent1, cluster1) = (init1.1, Ret tt).
Proof.
  change (init1 = (init1.1, Ret tt)). assert (init1.2 = Ret tt) as <- by (vm_compute; reflexivity). apply surjective_pairing.
Qed.

(** The agent's first run on this cluster: the policy of this node is in the chain for SNAT. *)
Lemma policies_programmed_witness : ∃ base a t rules, natTables init1.1.1 !! 0 = Some t ∧ parseMark (cfg_Mark cfg1) = Ret base ∧
  filled so1 (snatPolicies (assignAll cfg1 [gateway1])) (snatPolicies a) ∧
  rules ≡ₚ snatSpec (tb_IPVersion t) (snatPolicies a) ∧ chainIs world_iptables worldLaws KNat t init1.1.2 snatChain rules.
Proof.
  destruct (policies_programmed world_iptables worldLaws so1 to1 po1 cfg1 42 (agent1, cluster1) init1.1 [gateway1]) as (Hok & base & a & Hb & _ & _ & Hs & H).
  - apply (bool_decide_unpack _). vm_compute. exact I.
  - exact world_tunnels.
  - constructor; [|done]. intros node eip Hn He. cbn in Hn. repeat (apply elem_of_cons in Hn as [->|Hn]; [cbn in He; apply list_elem_of_singleton in He as ->;
      split; apply (bool_decide_unpack _); vm_compute; exact I|]). by apply elem_of_nil in Hn.
  - done.
  - exact agent1_ok.
  - done.
  - done.
  - exact init1_returns.
  - destruct (Hok KNat) as [Hv _]. cbn [tablesOf] in Hv. destruct (natTables init1.1.1) as [|t l] eqn:El; [done|].
    assert (natTables init1.1.1 !! 0 = Some t) as E by by rewrite El.
    destruct (H KNat 0 t E) as (_ & rules & Hr & Hc). exists base, a, t, rules. exact (conj eq_refl (conj Hb (conj Hs (conj Hr Hc)))).
Defined.

Lemma canonical_addr e ip : bool_decide (Forall is_byte ip ∧ (length ip = 4 ∨ length ip = 16 ∧ take 10 ip ≠ replicate 10 0%Z) ∧ e = IPString ip) = true → canonicalEntry e.
Proof. rewrite bool_decide_eq_true. intros (? & ? & ?). left. by exists ip. Qed.
Definition netAt (s : string) : IP * IPNet := default ([], mkIPNet [] []) (ParseCIDR s).
Lemma canonical_net e s : let n := (netAt s).2 in bool_decide (is_Some (ParseCIDR s) ∧ Forall is_byte (net_IP n) ∧ (length (net_IP n) = 4 ∨ length (net_IP n) = 16 ∧ take 10 (net_IP n) ≠ replicate 10 0%Z) ∧
  e = IPNetString n ∧ (0 < maskOnes (net_Mask n) < 8 * Z.of_nat (length (net_IP n)))%Z) = true → canonicalEntry e.
Proof.
  cbv zeta. rewrite bool_decide_eq_true. unfold netAt. intros ([[ip n] E] & ? & ? & ? & ?). rewrite E in *. right. by exists s, ip, n.
Qed.

(** The sets of the policy of this node. *)
Lemma policy_sets_match_witness : let '((_, w'), o) := updatePolicyIPSet so1 cfg1 "ns1" "pol1" true ["1.1.1.0/24"] (agent1, cluster1) in
  o = Ret tt ∧ sets w' !! setName "egress-src-v4-" "ns1-pol1" = Some {["10.244.1.5"]} ∧ sets w' !! "KUBE-SET" = Some {["10.0.0.1"]}.
Proof.
  pose proof (policy_sets_match so1 cfg1 agent1 cluster1 "ns1" "pol1" true ["1.1.1.0/24"] (agent1_known _)) as H.
  assert ((updatePolicyIPSet so1 cfg1 "ns1" "pol1" true ["1.1.1.0/24"] (agent1, cluster1)).2 = Ret tt) as E by (vm_compute; reflexivity).
  destruct (updatePolicyIPSet so1 cfg1 "ns1" "pol1" true ["1.1.1.0/24"] (agent1, cluster1)) as [[r' w'] o]. cbn [snd] in E. subst o.
  destruct H as (_ & _ & Hother & src & dst & Hsrc & Hdst & H). split; [done|]. split.
  - vm_compute in Hsrc. injection Hsrc as <-. specialize (H (mkSetName (setName "egress-src-v4-" "ns1-pol1") IPv4 IPSrc)). cbn [sn_Name] in H.
    rewrite H; [apply f_equal; vm_compute; reflexivity|by left|]. constructor; [|done]. by apply (canonical_addr _ [10; 244; 1; 5]%Z).
  - rewrite Hother by (apply (bool_decide_unpack _); vm_compute; exact I). vm_compute. reflexivity.
Defined.

(** The sets of the addresses inside the cluster. *)
Definition infoRun := reconcileClusterInfo so1 (mkNN "" "default") cluster1.
Lemma infoRun_returns : reconcileClusterInfo so1 (mkNN "" "default") cluster1 = (infoRun.1, Ret done_).
Proof.
  change (infoRun = (infoRun.1, Ret done_)). assert (infoRun.2 = Ret done_) as <- by (vm_compute; reflexivity). apply surjective_pairing.
Qed.
Lemma cluster_sets_match_witness : ∃ m4, sets infoRun.1 !! EgressClusterCIDRIPv4 = Some m4 ∧ "10.244.0.0/16" ∈ m4 ∧ ("10.0.0.1" ∉ m4).
Proof.
  destruct (cluster_sets_match (PA := world_api) so1 (mkNN "" "default") cluster1 infoRun.1 done_ info1 eq_refl eq_refl) as (m4 & m6 & Hs & H4 & _); [|exact infoRun_returns|].
  - intros v4 x Hx%(clusterAddrs_elem so1). destruct v4; vm_compute in Hx; repeat (apply elem_of_cons in Hx as [->|Hx]; [|]); try by apply elem_of_nil in Hx.
    all: first [by apply (canonical_addr _ [10; 6; 0; 1]%Z)|by apply (canonical_addr _ (ParseIP "fd00::1"))
      |by apply (canonical_net _ "10.244.0.0/16")|by apply (canonical_net _ "10.96.0.0/16")|by apply (canonical_net _ "fd10::/64")].
  - exists m4. rewrite Hs, lookup_insert_ne, lookup_insert_eq by done. split; [done|]. rewrite !H4, <- !(clusterAddrs_elem so1).
    split; apply (bool_decide_unpack _); vm_compute; exact I.
Defined.

(** A reconcile during which commands fail. *)
Definition troubled : AgentWorld := with_failures cluster1 [false; false; true; false; true].
Lemma foreign_sets_untouched_witness :
  let '((_, w'), _) := Reconcile world_iptables so1 to1 po1 cfg1 3 42 (mkNN "EgressGateway/" "gw1") (agent1, troubled) in
  sets w' !! "KUBE-SET" = Some {["10.0.0.1"]}.
Proof.
  pose proof (foreign_sets_untouched world_iptables so1 to1 po1 cfg1 3 42 (mkNN "EgressGateway/" "gw1") agent1 troubled (agent1_known _)) as H.
  destruct (Reconcile world_iptables so1 to1 po1 cfg1 3 42 (mkNN "EgressGateway/" "gw1") (agent1, troubled)) as [[r' w'] o]. destruct H as [_ H].
  rewrite H by done. vm_compute. reflexivity.
Defined.

(** ** Corner cases *)

(** A destination of 32 bits in IPv6 is compared as if it were one address. *)
Example ipv6_block_of_32_bits : normalEntry "2001:db8::/32" = "2001:db8::" ∧ findDiff [] ["2001:db8::/32"] = (["2001:db8::"], []).
Proof. vm_compute. done. Qed.

(** Sets print a block of one address without its length: the block is added, which
    changes nothing, and then deleted. *)
Example single_address_block_deleted :
  process (W := list string) ["10.1.2.3"] ["10.1.2.3/32"] (λ x log, (log ++ ["add " +:+ x], Ret tt)) (λ x log, (log ++ ["del " +:+ x], Ret tt)) [] =
  (["add 10.1.2.3/32"; "del 10.1.2.3"], Ret tt).
Proof. vm_compute. done. Qed.

(** Different policies share their sets. *)
Example policies_share_sets : let names ns name := buildIPSetNamesByPolicy ns name true true in
  names "a" "b-c" = names "a-b" "c" ∧ names "a" "b-c" = names "" "a-b-c".
Proof. vm_compute. done. Qed.

(** Marks with the highest bit are refused, and marks with bits below the highest byte panic. *)
Example marks_refused : parseMark "0x80000000" = Err ErrRange ∧ (∃ base p, parseMark "0x26000001" = Ret base ∧ buildNatStaticRule base = Panic p).
Proof. split; [vm_compute; done|]. exists 0x26000001%Z. eexists. split; vm_compute; reflexivity. Qed.

(** Only the IPv4 block of all addresses is split in two. *)
Example any_block_ipv6 : @expandAnyCIDR listedOrder ["::/0"] = ["::/0"] ∧ @expandAnyCIDR listedOrder ["0.0.0.0/0"] ≡ₚ ["0.0.0.0/1"; "128.0.0.0/1"].
Proof. split; [vm_compute; done|]. apply (bool_decide_unpack _). vm_compute. exact I. Qed.
