(* ===== verification/Announce.v ===== *)
(** * Announcing egress addresses ([pkg/layer2], [pkg/agent/eip.go])

    The node that holds an egress address answers ARP and NDP requests for it and
    sends gratuitous messages when it takes the address over.  [Announce] is the
    bookkeeping of the addresses: who asked for them, and how often.  The sockets and
    the files under [/sys] are the calls [Layer2Net]. *)

From S2P Require Import Prelude GoStd GoNet GoFmt Types Utils ApiServer Triple StateM.
Open Scope nat_scope.

(** ** Advertisements *)

Record IPAdvertisement := mkAdv { adv_ip : IP; adv_interfaces : gset string; adv_allInterfaces : bool }.
#[export] Instance IPAdvertisement_eq_dec : EqDecision IPAdvertisement.
Proof. solve_decision. Defined.
Definition NewIPAdvertisement (ip : IP) (allInterfaces : bool) (interfaces : gset string) : IPAdvertisement := mkAdv ip interfaces allInterfaces.

(** A nil pointer is [None]. *)
Definition adv_Equal (i other : option IPAdvertisement) : bool :=
  match i, other with
  | None, None => true
  | Some i, Some other =>
      if negb (IPEqual (adv_ip i) (adv_ip other)) then false
      else if decide (adv_allInterfaces i ≠ adv_allInterfaces other) then false
      else if adv_allInterfaces i then true
      else bool_decide (adv_interfaces i = adv_interfaces other)
  | _, _ => false
  end.
Definition matchInterface (i : IPAdvertisement) (intf : string) : bool :=
  adv_allInterfaces i || bool_decide (intf ∈ adv_interfaces i).
Definition MatchInterfaces (i : IPAdvertisement) (intfs : list string) : bool :=
  adv_allInterfaces i || existsb (matchInterface i) intfs.

(** ** Interfaces and sockets *)

(** [net.Interface]; of the flags, [FlagUp] and [FlagBroadcast]. *)
Record netInterface := mkInterface { if_Index : Z; if_Name : string; if_HardwareAddr : list Z; if_FlagUp : bool; if_FlagBroadcast : bool }.
Record arpResponder := mkArpResponder { arp_intf : string; arp_hardwareAddr : list Z }.
Record ndpResponder := mkNdpResponder { ndp_intf : string; ndp_hardwareAddr : list Z; solicitedNodeGroups : gmap string Z }.

(** What is read from an ARP socket: whether it is a request, for which address, and the
    Ethernet destination of the frame. *)
Record arpPacket := mkArpPacket { pkt_request : bool; pkt_TargetIP : IP; eth_Destination : list Z }.
(** A neighbour solicitation with its link-layer address options (whether the direction is
    [Source], and the address), or another message. *)
Inductive ndpMessage := NeighborSolicitation (TargetAddress : IP) (options : list (bool * list Z)) | OtherMessage.

Inductive dropReason :=
| dropReasonNone | dropReasonClosed | dropReasonError | dropReasonARPReply | dropReasonMessageType | dropReasonNoSourceLL
| dropReasonEthernetDestination | dropReasonAnnounceIP | dropReasonNotMatchInterface.
#[export] Instance dropReason_eq_dec : EqDecision dropReason.
Proof. solve_decision. Defined.

Class Layer2Net (W : Type) := {
  l2Interfaces : M W (list netInterface);
  (** The addresses of an interface; those that are no [*net.IPNet] are [None]. *)
  l2Addrs : netInterface → M W (list (option IPNet));
  (** [!os.IsNotExist(err)] of a [Stat] of the file [master]. *)
  l2HasMaster : string → M W bool;
  l2ReadFlags : string → M W (list ascii);
  l2DialARP : netInterface → M W unit;
  l2DialNDP : netInterface → M W unit;
  l2CloseARP : string → M W unit;
  l2CloseNDP : string → M W unit;
  l2JoinGroup : string → IP → M W unit;
  l2LeaveGroup : string → IP → M W unit;
  (** A gratuitous request or reply. *)
  l2WriteARP : string → bool → IP → M W unit;
  (** An advertisement to a destination for a target; whether it is gratuitous. *)
  l2Advertise : string → IP → IP → bool → M W unit;
  (** The next packet, with the source of an NDP message. *)
  l2ReadARP : string → M W arpPacket;
  l2ReadNDP : string → M W (ndpMessage * IP);
  (** Whether the responder was closed. *)
  l2Closed : string → M W bool;
  l2ReplyARP : string → arpPacket → M W unit
}.

(** ** The state *)

Record Announce := mkAnnounce {
  nodeInterfaces : list string;
  arps : gmap Z arpResponder;
  ndps : gmap Z ndpResponder;
  ips : gmap string (list IPAdvertisement);
  ipRefcnt : gmap string Z;
  spamCh : list IPAdvertisement
}.
Definition newAnnounce : Announce := mkAnnounce [] ∅ ∅ ∅ ∅ [].
Definition set_nodeInterfaces (l : list string) (a : Announce) : Announce := mkAnnounce l (arps a) (ndps a) (ips a) (ipRefcnt a) (spamCh a).
Definition set_arps (m : gmap Z arpResponder) (a : Announce) : Announce := mkAnnounce (nodeInterfaces a) m (ndps a) (ips a) (ipRefcnt a) (spamCh a).
Definition set_ndps (m : gmap Z ndpResponder) (a : Announce) : Announce := mkAnnounce (nodeInterfaces a) (arps a) m (ips a) (ipRefcnt a) (spamCh a).
Definition set_ips (m : gmap string (list IPAdvertisement)) (a : Announce) : Announce := mkAnnounce (nodeInterfaces a) (arps a) (ndps a) m (ipRefcnt a) (spamCh a).
Definition set_ipRefcnt (m : gmap string Z) (a : Announce) : Announce := mkAnnounce (nodeInterfaces a) (arps a) (ndps a) (ips a) m (spamCh a).
Definition set_spamCh (l : list IPAdvertisement) (a : Announce) : Announce := mkAnnounce (nodeInterfaces a) (arps a) (ndps a) (ips a) (ipRefcnt a) l.
Definition refcnt (a : Announce) (ip : string) : Z := default 0%Z (ipRefcnt a !! ip).

(** ** Groups ([ndp.go]) *)

(** [ndp.SolicitedNodeMulticast]. *)
Definition SolicitedNodeMulticast (ip : IP) : outcome IP :=
  if decide (To16 ip = [] ∨ To4 ip ≠ []) then Err (ErrNew "ndp: invalid IPv6 address")
  else Ret (take 13 (ParseIP "ff02::1:ff00:0") ++ drop 13 ip).
Definition groupCount (n : ndpResponder) (group : string) : Z := default 0%Z (solicitedNodeGroups n !! group).
Definition set_group (n : ndpResponder) (group : string) (c : Z) : ndpResponder :=
  mkNdpResponder (ndp_intf n) (ndp_hardwareAddr n) (<[group := c]> (solicitedNodeGroups n)).

Section announce.
Context {W : Type} `{LN : !Layer2Net W}.
(** The orders of ranging: over responders, and over names and addresses. *)
Context (ro : nat → KeyOrder Z) (so : nat → MapOrder).
(** [excludeRegexp.MatchString]. *)
Context (excludeRegexp : option (string → bool)).
Abbreviation AM := (M (Announce * W)).

(** The responder [i] is changed in place. *)
Definition modNdp (i : Z) (f : ndpResponder → ndpResponder) : AM unit := smod (λ a, set_ndps (alter f i (ndps a)) a).

Definition Watch (i : Z) (ip : IP) : AM unit :=
  let* a := sget in
  match ndps a !! i with
  | None => mret tt
  | Some n =>
      if decide (To4 ip ≠ []) then mret tt
      else
        let* group := lift (SolicitedNodeMulticast ip) in
        let* _ := (if decide (groupCount n (IPString group) = 0%Z) then scall (l2JoinGroup (ndp_intf n) group) else mret tt) in
        modNdp i (λ n, set_group n (IPString group) (groupCount n (IPString group) + 1))
  end.
Definition Unwatch (i : Z) (ip : IP) : AM unit :=
  let* a := sget in
  match ndps a !! i with
  | None => mret tt
  | Some n =>
      if decide (To4 ip ≠ []) then mret tt
      else
        let* group := lift (SolicitedNodeMulticast ip) in
        let* _ := modNdp i (λ n, set_group n (IPString group) (groupCount n (IPString group) - 1)) in
        if decide (groupCount n (IPString group) - 1 = 0)%Z then scall (l2LeaveGroup (ndp_intf n) group) else mret tt
  end.

(** [for _, client := range a.ndps]. *)
Definition forNdps (k : nat) (f : Z → AM unit) : AM unit :=
  let* a := sget in
  mforeach (λ i _, f i) (@key_order _ (ro k) (elements (dom (ndps a)))) tt.

(** ** Balancers *)

(** The channel has room for 1024 advertisements; a full one blocks the caller. *)
Definition doSpam (adv : IPAdvertisement) : AM unit := smod (λ a, set_spamCh (spamCh a ++ [adv]) a).

Definition SetBalancer (name : string) (adv : IPAdvertisement) : AM unit :=
  let* a := sget in
  let advs := default [] (ips a !! name) in
  let* _ := (match list_find (λ i, IPEqual (adv_ip adv) (adv_ip i) = true) advs with
    | Some (i, _) => smod (set_ips (<[name := <[i := adv]> advs]> (ips a)))
    | None =>
        let key := IPString (adv_ip adv) in
        let* _ := smod (set_ips (<[name := advs ++ [adv]]> (ips a))) in
        let* _ := smod (λ a, set_ipRefcnt (<[key := (refcnt a key + 1)%Z]> (ipRefcnt a)) a) in
        let* a := sget in
        if decide (1 < refcnt a key)%Z then mret tt
        else forNdps 0 (λ i, logged (Watch i (adv_ip adv)))
    end) in
  doSpam adv.

Definition DeleteBalancer (name : string) : AM unit :=
  let* a := sget in
  match ips a !! name with
  | None => mret tt
  | Some advs =>
      let* _ := smod (set_ips (delete name (ips a))) in
      mforeach (λ cur _,
        let key := IPString (adv_ip cur) in
        let* _ := smod (λ a, set_ipRefcnt (<[key := (refcnt a key - 1)%Z]> (ipRefcnt a)) a) in
        let* a := sget in
        if decide (0 < refcnt a key)%Z then mret tt
        else forNdps 1 (λ i, logged (Unwatch i (adv_ip cur)))) advs tt
  end.

Definition AnnounceName (a : Announce) (name : string) : bool := bool_decide (is_Some (ips a !! name)).
Definition GetInterfaces (a : Announce) : list string := nodeInterfaces a.

(** All advertisements, in the order of ranging over the names. *)
Definition advertised (a : Announce) : list IPAdvertisement :=
  @map_order (so 0) (elements (dom (ips a))) ≫= λ name, default [] (ips a !! name).
Definition shouldAnnounce (a : Announce) (ip : IP) (intf : string) : dropReason :=
  let same := filter (λ i, IPEqual (adv_ip i) ip = true) (advertised a) in
  if existsb (λ i, matchInterface i intf) same then dropReasonNone
  else if decide (same ≠ []) then dropReasonNotMatchInterface
  else dropReasonAnnounceIP.

(** ** Gratuitous messages *)

Definition arpGratuitous (r : arpResponder) (ip : IP) : AM unit :=
  mforeach (λ op _, scall (l2WriteARP (arp_intf r) op ip)) [true; false] tt.
Definition ndpGratuitous (n : ndpResponder) (ip : IP) : AM unit :=
  scall (l2Advertise (ndp_intf n) (ParseIP "ff02::1") ip true).

Definition gratuitous (adv : IPAdvertisement) : AM unit :=
  let* a := sget in
  let ip := adv_ip adv in
  if decide (refcnt a (IPString ip) <= 0)%Z then mret tt
  else if decide (To4 ip ≠ []) then
    mforeach (λ i _,
      match arps a !! i with
      | Some client => if matchInterface adv (arp_intf client) then logged (arpGratuitous client ip) else mret tt
      | None => mret tt
      end) (@key_order _ (ro 2) (elements (dom (arps a)))) tt
  else
    mforeach (λ i _,
      match ndps a !! i with
      | Some client => if matchInterface adv (ndp_intf client) then logged (ndpGratuitous client ip) else mret tt
      | None => mret tt
      end) (@key_order _ (ro 3) (elements (dom (ndps a)))) tt.

(** The state of [spamLoop]: when to stop for an address, and whether the ticker runs. *)
Record spamState := mkSpamState { sp_m : gmap string (Z * IPAdvertisement); sp_ticking : bool }.
Definition fiveSeconds : Z := 5000000000.

(** [case s := <-a.spamCh], at a time; an empty channel blocks. *)
Definition spamReceive (now : Z) (st : spamState) : AM spamState :=
  let* a := sget in
  match spamCh a with
  | [] => mret st
  | s :: rest =>
      let* _ := smod (set_spamCh rest) in
      let ipStr := IPString (adv_ip s) in
      let st' := mkSpamState (<[ipStr := ((now + fiveSeconds)%Z, s)]> (sp_m st)) (sp_ticking st || bool_decide (sp_m st = ∅)) in
      match sp_m st !! ipStr with
      | Some _ => mret st'
      | None => let* _ := gratuitous s in mret st'
      end
  end.
(** [case now := <-ticker.C]. *)
Definition spamTick (now : Z) (st : spamState) : AM spamState :=
  if sp_ticking st then
    let* m := mforeach (λ ipStr m,
      match m !! ipStr with
      | None => mret m
      | Some (until, adv) => if decide (until < now)%Z then mret (delete ipStr m) else let* _ := gratuitous adv in mret m
      end) (@map_order (so 1) (elements (dom (sp_m st)))) (sp_m st) in
    mret (mkSpamState m (negb (bool_decide (m = ∅))))
  else mret st.

(** ** Requests *)

Definition ErrEOF : error := ErrNew "EOF".
Definition readFailed (intf : string) (e : error) : AM dropReason :=
  let* closed := scall (l2Closed intf) in
  mret (if closed then dropReasonClosed else if decide (e = ErrEOF) then dropReasonClosed else dropReasonError).
Definition Broadcast : list Z := replicate 6 255%Z.

Definition arp_processRequest (r : arpResponder) : AM dropReason :=
  let* res := attempt (scall (l2ReadARP (arp_intf r))) in
  match res with
  | inr e => readFailed (arp_intf r) e
  | inl pkt =>
      if negb (pkt_request pkt) then mret dropReasonARPReply
      else if decide (eth_Destination pkt ≠ Broadcast ∧ eth_Destination pkt ≠ arp_hardwareAddr r) then mret dropReasonEthernetDestination
      else
        let* a := sget in
        let reason := shouldAnnounce a (pkt_TargetIP pkt) (arp_intf r) in
        if decide (reason ≠ dropReasonNone) then mret reason
        else let* _ := logged (scall (l2ReplyARP (arp_intf r) pkt)) in mret dropReasonNone
  end.

Definition ndp_processRequest (n : ndpResponder) : AM dropReason :=
  let* res := attempt (scall (l2ReadNDP (ndp_intf n))) in
  match res with
  | inr e => readFailed (ndp_intf n) e
  | inl (OtherMessage, _) => mret dropReasonMessageType
  | inl (NeighborSolicitation target options, src) =>
      (** A source link-layer address that is nil counts as none. *)
      match list_find (λ o, o.1 = true) options with
      | Some (_, (_, _ :: _)) =>
          let* a := sget in
          let reason := shouldAnnounce a target (ndp_intf n) in
          if decide (reason ≠ dropReasonNone) then mret reason
          else let* _ := logged (scall (l2Advertise (ndp_intf n) src target false)) in mret dropReasonNone
      | _ => mret dropReasonNoSourceLL
      end
  end.

(** ** Interfaces *)

(** [strconv.ParseUint(string(f)[:len(string(f))-1], 0, 32)], the error dropped. *)
Definition parseFlags (f : list ascii) : outcome Z :=
  match f with [] => Panic "slice bounds out of range" | _ => Ret (ParseUint0_32 (removelast f)) end.
Record scanState := mkScan { keepARP : gset Z; keepNDP : gset Z; curIfs : list string }.

(** The rest of a turn of the loop, after the addresses were read. *)
Definition scanUp (ifi : netInterface) (addrs : list (option IPNet)) (st : scanState) : AM scanState :=
  if negb (if_FlagUp ifi) then mret st
  else
    let* master := scall (l2HasMaster (if_Name ifi)) in
    if master : bool then mret st
    else
      let* f := attempt (scall (l2ReadFlags (if_Name ifi))) in
      let* noARP := (match f with inl f => let* flags := lift (parseFlags f) in mret (bool_decide (Z.land flags 0x80 ≠ 0%Z)) | inr _ => mret false end) in
      if noARP : bool then mret st
      else
        let idx := if_Index ifi in
        let arp := if if_FlagBroadcast ifi then {[idx]} ∪ keepARP st else keepARP st in
        let ndp := if existsb (λ a, match a with Some n => bool_decide (To4 (net_IP n) = []) && IsLinkLocalUnicast (net_IP n) | None => false end) addrs
                   then {[idx]} ∪ keepNDP st else keepNDP st in
        let st := mkScan arp ndp (curIfs st) in
        let* a := sget in
        let* ok := (if decide (idx ∈ arp ∧ arps a !! idx = None) then
            let* r := attempt (scall (l2DialARP ifi)) in
            match r with
            | inl _ => let* _ := smod (λ a, set_arps (<[idx := mkArpResponder (if_Name ifi) (if_HardwareAddr ifi)]> (arps a)) a) in mret true
            | inr _ => mret false
            end
          else mret true) in
        if negb ok then mret st
        else if decide (idx ∈ ndp ∧ ndps a !! idx = None) then
          let* r := attempt (scall (l2DialNDP ifi)) in
          match r with
          | inl _ => let* _ := smod (λ a, set_ndps (<[idx := mkNdpResponder (if_Name ifi) (if_HardwareAddr ifi) ∅]> (ndps a)) a) in mret st
          | inr _ => mret st
          end
        else mret st.

(** The loop over the interfaces; [None] when it returns early. *)
Fixpoint scanInterfaces (ifs : list netInterface) (st : scanState) : AM (option scanState) :=
  match ifs with
  | [] => mret (Some st)
  | ifi :: rest =>
      if match excludeRegexp with Some m => m (if_Name ifi) | None => false end then scanInterfaces rest st
      else
        let st := mkScan (keepARP st) (keepNDP st) (curIfs st ++ [if_Name ifi]) in
        let* addrs := attempt (scall (l2Addrs ifi)) in
        match addrs with
        | inr _ => mret None
        | inl addrs => let* st := scanUp ifi addrs st in scanInterfaces rest st
        end
  end.

Definition updateInterfaces : AM unit :=
  let* ifs := attempt (scall l2Interfaces) in
  match ifs with
  | inr _ => mret tt
  | inl ifs =>
      let* res := scanInterfaces ifs (mkScan ∅ ∅ []) in
      match res with
      | None => mret tt
      | Some st =>
          let* _ := smod (set_nodeInterfaces (curIfs st)) in
          let* a := sget in
          let* _ := mforeach (λ i _,
            match arps a !! i with
            | Some client =>
                if decide (i ∈ keepARP st) then mret tt
                else let* _ := logged (scall (l2CloseARP (arp_intf client))) in smod (λ a, set_arps (delete i (arps a)) a)
            | None => mret tt
            end) (@key_order _ (ro 4) (elements (dom (arps a)))) tt in
          mforeach (λ i _,
            match ndps a !! i with
            | Some client =>
                if decide (i ∈ keepNDP st) then mret tt
                else let* _ := logged (scall (l2CloseNDP (ndp_intf client))) in smod (λ a, set_ndps (delete i (ndps a)) a)
            | None => mret tt
            end) (@key_order _ (ro 5) (elements (dom (ndps a)))) tt
      end
  end.

(** ** The reconciler ([eip.go]) *)

Class EipApi := {
  eaGetPolicy : NamespacedName → M W EgressPolicy;
  eaGetClusterPolicy : NamespacedName → M W EgressClusterPolicy
}.
Context `{EA : !EipApi} (nodeName : string).

(** [NamespacedName.String]. *)
Definition nnString (n : NamespacedName) : string := nn_Namespace n +:+ "/" +:+ nn_Name n.

(** The part of the handlers that both kinds of policy share, from the metadata and the status of
    the policy that was found. *)
Definition announcePolicy (key : string) (policy : option (ObjectMeta * EgressPolicyStatus)) : AM Result :=
  match policy with
  | None => let* _ := DeleteBalancer key in mret done_
  | Some (meta, status) =>
      if om_Deleting meta then let* _ := DeleteBalancer key in mret done_
      else if decide (ps_Node status ≠ nodeName) then let* _ := DeleteBalancer key in mret done_
      else
        let ip := ParseIP (st_Ipv4 (ps_Eip status)) in
        let* _ := (if decide (To4 ip ≠ []) then SetBalancer key (NewIPAdvertisement ip true ∅) else mret tt) in
        let ip := ParseIP (st_Ipv6 (ps_Eip status)) in
        let* _ := (if decide (To16 ip ≠ []) then SetBalancer key (NewIPAdvertisement ip true ∅) else mret tt) in
        mret done_
  end.
Definition eip_reconcilePolicy (req : NamespacedName) : AM Result :=
  let* policy := scall (getOrAbsent (eaGetPolicy req)) in
  announcePolicy (nnString req) ((λ p, (ep_Meta p, ep_Status p)) <$> policy).
Definition eip_reconcileClusterPolicy (req : NamespacedName) : AM Result :=
  let* policy := scall (getOrAbsent (eaGetClusterPolicy req)) in
  announcePolicy (nnString req) ((λ p, (cp_Meta p, cp_Status p)) <$> policy).

Definition eip_Reconcile (req : NamespacedName) : AM Result :=
  let* (kind, newReq) := lift (ParseKindWithReq req) in
  if decide (kind = "EgressClusterPolicy") then eip_reconcileClusterPolicy newReq
  else if decide (kind = "EgressPolicy") then eip_reconcilePolicy newReq
  else mret done_.
End announce.
