(* ===== verification/AnnounceTheorems.v ===== *)
(** * What the announcer answers for

    The bookkeeping of [Announce] over any run of the agent: the count of an
    address is the number of policies that hold it, and what is announced was
    given to this node by a policy. *)

From S2P Require Import Prelude GoStd GoNet GoFmt Types Utils ApiServer Triple StateM Announce.
Open Scope nat_scope.

(** ** Counting *)

(** How often an address stands in a list, and in the lists of all names. *)
Definition advKey (i : IPAdvertisement) : string := IPString (adv_ip i).
Definition countIn (s : string) (l : list IPAdvertisement) : Z := Z.of_nat (length (filter (λ i, advKey i = s) l)).
Definition holders (m : gmap string (list IPAdvertisement)) (s : string) : Z := map_fold (λ _ l n, (countIn s l + n)%Z) 0%Z m.

Lemma countIn_app s l1 l2 : countIn s (l1 ++ l2) = (countIn s l1 + countIn s l2)%Z.
Proof. unfold countIn. rewrite filter_app, length_app. lia. Qed.
Lemma countIn_nonneg s l : (0 <= countIn s l)%Z.
Proof. unfold countIn. lia. Qed.
Lemma countIn_cons s i l : countIn s (i :: l) = ((if decide (advKey i = s) then 1 else 0) + countIn s l)%Z.
Proof. unfold countIn. rewrite filter_cons. case_decide; cbn [length]; lia. Qed.
Lemma countIn_insert s l k i j : l !! k = Some j → advKey j = advKey i → countIn s (<[k := i]> l) = countIn s l.
Proof.
  intros Hk Hij. rewrite <- (take_drop_middle l k j Hk) at 2. rewrite insert_take_drop by (by apply lookup_lt_Some in Hk).
  rewrite !countIn_app, !countIn_cons, Hij. done.
Qed.
Lemma countIn_pos s l : (0 < countIn s l)%Z ↔ ∃ i, i ∈ l ∧ advKey i = s.
Proof.
  unfold countIn. split.
  - intros H. destruct (filter _ l) as [|i r] eqn:E; [simpl in H; lia|]. exists i.
    assert (i ∈ filter (λ i, advKey i = s) l) as [? ?]%list_elem_of_filter by (rewrite E; apply list_elem_of_here). done.
  - intros (i & Hi & Hs). destruct (filter _ l) as [|j r] eqn:E; [|simpl; lia].
    assert (i ∈ filter (λ i, advKey i = s) l) as Hin by (by apply list_elem_of_filter). rewrite E in Hin. by apply elem_of_nil in Hin.
Qed.

Lemma countIn_none s l : (s ∉ advKey <$> l) → countIn s l = 0%Z.
Proof.
  intros Hs. destruct (decide (0 < countIn s l)%Z) as [(i & Hi & <-)%countIn_pos|]; [|pose proof (countIn_nonneg s l); lia].
  destruct Hs. by apply list_elem_of_fmap_2.
Qed.
Lemma countIn_nodup s l : NoDup (advKey <$> l) → s ∈ advKey <$> l → countIn s l = 1%Z.
Proof.
  induction l as [|i l IH]; simpl; [by intros _ ?%elem_of_nil|]. intros [Hi Hd]%NoDup_cons Hs. rewrite countIn_cons.
  apply elem_of_cons in Hs as [->|Hs].
  - rewrite decide_True, countIn_none by done. done.
  - rewrite decide_False by (by intros <-). by rewrite IH.
Qed.

Lemma holders_insert m name l s : holders (<[name := l]> m) s = (countIn s l + holders (delete name m) s)%Z.
Proof.
  unfold holders. rewrite <- insert_delete_eq. rewrite map_fold_insert_L; [done|intros; lia|apply lookup_delete_eq].
Qed.
Lemma holders_lookup m name l s : m !! name = Some l → holders m s = (countIn s l + holders (delete name m) s)%Z.
Proof. intros H. rewrite <- (insert_delete_id m name l H) at 1. rewrite holders_insert, delete_delete_eq. done. Qed.
Lemma holders_nonneg m s : (0 <= holders m s)%Z.
Proof.
  induction m as [|k l m Hk IH] using map_ind; [done|]. rewrite holders_insert, delete_id by done. pose proof (countIn_nonneg s l). lia.
Qed.
Lemma holders_pos m s : (0 < holders m s)%Z ↔ ∃ name l i, m !! name = Some l ∧ i ∈ l ∧ advKey i = s.
Proof.
  induction m as [|k l m Hk IH] using map_ind.
  - split; [done|]. intros (? & ? & ? & H & _). by rewrite lookup_empty in H.
  - rewrite holders_insert, delete_id by done. pose proof (countIn_nonneg s l). pose proof (holders_nonneg m s). split.
    + intros Hp. destruct (decide (0 < countIn s l)%Z) as [(i & Hi & Hs)%countIn_pos|].
      * exists k, l, i. by rewrite lookup_insert_eq.
      * destruct (proj1 IH) as (name & l' & i & Hm & Hi); [lia|]. exists name, l', i.
        rewrite lookup_insert_ne; [done|]. intros ->. congruence.
    + intros (name & l' & i & Hm & Hi). destruct (decide (k = name)) as [->|Hn].
      * rewrite lookup_insert_eq in Hm. injection Hm as ->. enough (0 < countIn s l')%Z by lia. apply countIn_pos. eauto.
      * rewrite lookup_insert_ne in Hm by done. enough (0 < holders m s)%Z by lia. apply IH. eauto.
Qed.

Lemma IPEqual_To16 x y : valid_ip x → valid_ip y → IPEqual x y = true ↔ To16 x = To16 y.
Proof.
  intros [[Hx|Hx] _] [[Hy|Hy] _]; unfold IPEqual, To16; rewrite Hx, Hy;
    repeat first [rewrite decide_True by (done || lia)|rewrite decide_False by (done || lia)].
  - rewrite bool_decide_eq_true. split; [by intros ->|by intros ?%app_inv_head].
  - rewrite bool_decide_eq_true. split; [|by intros <-]. intros [<- ->]. apply take_drop.
  - rewrite bool_decide_eq_true. split; [|by intros ->]. intros [<- <-]. by rewrite take_drop.
  - apply bool_decide_eq_true.
Qed.
Lemma IPEqual_string x y : valid_ip x → valid_ip y → IPEqual x y = true ↔ IPString x = IPString y.
Proof. intros Hx Hy. rewrite IPEqual_To16, IPString_inj by done. done. Qed.

(** ** The invariant *)

(** The lists of a name hold distinct addresses, and the counts are right. *)
Definition listOk (l : list IPAdvertisement) : Prop := l ≠ [] ∧ Forall (λ i, valid_ip (adv_ip i)) l ∧ NoDup (advKey <$> l).
Definition bookOk (m : gmap string (list IPAdvertisement)) (r : gmap string Z) : Prop :=
  map_Forall (λ _, listOk) m ∧ ∀ s, default 0%Z (r !! s) = holders m s.
Definition announceOk (a : Announce) : Prop := bookOk (ips a) (ipRefcnt a).

(** What [SetBalancer] makes of the addresses of a name. *)
Definition withAdv (adv : IPAdvertisement) (advs : list IPAdvertisement) : list IPAdvertisement :=
  match list_find (λ i, IPEqual (adv_ip adv) (adv_ip i) = true) advs with
  | Some (i, _) => <[i := adv]> advs
  | None => advs ++ [adv]
  end.
Definition isNew (adv : IPAdvertisement) (advs : list IPAdvertisement) : bool :=
  bool_decide (list_find (λ i, IPEqual (adv_ip adv) (adv_ip i) = true) advs = None).

Definition advsOf (m : gmap string (list IPAdvertisement)) (name : string) : list IPAdvertisement := default [] (m !! name).
Definition bump (d : Z) (r : gmap string Z) (s : string) : gmap string Z := <[s := (default 0 (r !! s) + d)%Z]> r.

Lemma advKey_equal i j : valid_ip (adv_ip i) → valid_ip (adv_ip j) → IPEqual (adv_ip i) (adv_ip j) = true ↔ advKey i = advKey j.
Proof. apply IPEqual_string. Qed.

Lemma withAdv_ok adv advs : valid_ip (adv_ip adv) → Forall (λ i, valid_ip (adv_ip i)) advs → NoDup (advKey <$> advs) → listOk (withAdv adv advs).
Proof.
  intros Hv Hl Hd. unfold withAdv, listOk. destruct (list_find _ advs) as [[k j]|] eqn:E.
  - apply list_find_Some in E as (Hk & He & _). apply advKey_equal in He; [|done|by eapply Forall_lookup_1 in Hl].
    split_and!.
    + destruct advs; [done|]. by destruct k.
    + by apply Forall_insert.
    + replace (advKey <$> <[k := adv]> advs) with (advKey <$> advs); [done|].
      rewrite list_fmap_insert, He. symmetry. apply list_insert_id. by rewrite list_lookup_fmap, Hk.
  - apply list_find_None in E. split_and!.
    + by destruct advs.
    + apply Forall_app_2; [done|]. by apply Forall_singleton.
    + rewrite fmap_app. apply NoDup_app. split_and!; [done| |apply NoDup_singleton].
      intros s Hs ->%list_elem_of_singleton. apply list_elem_of_fmap in Hs as (j & Hj & Hin).
      rewrite Forall_forall in E. apply (E _ Hin). apply advKey_equal; [done| |done]. by eapply Forall_forall in Hl.
Qed.

Lemma withAdv_count s adv advs : valid_ip (adv_ip adv) → Forall (λ i, valid_ip (adv_ip i)) advs →
  countIn s (withAdv adv advs) = (countIn s advs + (if isNew adv advs then if decide (advKey adv = s) then 1 else 0 else 0))%Z.
Proof.
  intros Hv Hl. unfold withAdv, isNew. destruct (list_find _ advs) as [[k j]|] eqn:E.
  - apply list_find_Some in E as (Hk & He & _). apply advKey_equal in He; [|done|by eapply Forall_lookup_1 in Hl].
    rewrite (countIn_insert _ _ _ _ j) by done. simpl. lia.
  - rewrite countIn_app, countIn_cons. simpl. unfold countIn at 2. simpl. lia.
Qed.

Lemma bookOk_set m r name adv : bookOk m r → valid_ip (adv_ip adv) →
  bookOk (<[name := withAdv adv (advsOf m name)]> m) (if isNew adv (advsOf m name) then bump 1 r (advKey adv) else r).
Proof.
  intros [Hm Hr] Hv.
  assert (Forall (λ i, valid_ip (adv_ip i)) (advsOf m name) ∧ NoDup (advKey <$> advsOf m name)) as [Hf Hd].
  { unfold advsOf. destruct (m !! name) as [l|] eqn:E; simpl; [|by split; constructor]. by destruct (Hm _ _ E) as (_ & ? & ?). }
  split; [apply map_Forall_insert_2; [by apply withAdv_ok|done]|]. intros s.
  rewrite holders_insert, withAdv_count by done.
  assert (holders m s = countIn s (advsOf m name) + holders (delete name m) s)%Z as Hh.
  { unfold advsOf. destruct (m !! name) as [l|] eqn:E; simpl; [by apply holders_lookup|]. by rewrite delete_id. }
  specialize (Hr s). destruct (isNew adv (advsOf m name)); [|lia]. unfold bump. case_decide as Hs.
  - rewrite Hs, lookup_insert_eq. simpl. lia.
  - rewrite lookup_insert_ne by done. lia.
Qed.

Definition dropAll (r : gmap string Z) (l : list IPAdvertisement) : gmap string Z := foldl (λ r i, bump (-1) r (advKey i)) r l.
Lemma dropAll_lookup r l s : default 0%Z (dropAll r l !! s) = (default 0 (r !! s) - countIn s l)%Z.
Proof.
  revert r. induction l as [|i l IH]; intros r; cbn [dropAll foldl]; [unfold countIn; simpl; lia|]. fold (dropAll (bump (-1) r (advKey i)) l).
  rewrite IH, countIn_cons. unfold bump. case_decide as Hs.
  - rewrite Hs, lookup_insert_eq. simpl. lia.
  - rewrite lookup_insert_ne by done. lia.
Qed.
Lemma bookOk_delete m r name : bookOk m r → bookOk (delete name m) (dropAll r (advsOf m name)).
Proof.
  intros [Hm Hr]. split; [by apply map_Forall_delete|]. intros s. rewrite dropAll_lookup, Hr. unfold advsOf.
  destruct (m !! name) as [l|] eqn:E; simpl.
  - rewrite (holders_lookup _ _ _ s E). lia.
  - rewrite delete_id by done. unfold countIn. simpl. lia.
Qed.

(** ** Calls that leave the book alone *)

Section run.
Context {W : Type} `{LN : !Layer2Net W} (ro : nat → KeyOrder Z) (so : nat → MapOrder) (excludeRegexp : option (string → bool)).
Abbreviation AM := (M (Announce * W)).

Definition book (m : gmap string (list IPAdvertisement)) (r : gmap string Z) (x : Announce * W) : Prop := ips x.1 = m ∧ ipRefcnt x.1 = r.

Ltac keep_book_with tac :=
  repeat first
    [ tac | apply inv_sget; intros ?
    | apply inv_bind; [|intros ?]
    | apply inv_ret | apply inv_lift | apply inv_attempt | apply inv_logged
    | apply inv_scall; by intros ? ? []
    | apply inv_smod; by intros ? ? []
    | apply inv_foreach; intros ? ? ?
    | case_match ].
Ltac keep_book := keep_book_with fail.

Lemma book_Watch m r i ip : keepsInv (book m r) (Watch (LN := LN) i ip).
Proof. unfold Watch, modNdp. keep_book. Qed.
Lemma book_Unwatch m r i ip : keepsInv (book m r) (Unwatch (LN := LN) i ip).
Proof. unfold Unwatch, modNdp. keep_book. Qed.
Lemma book_forNdps m r k (f : Z → AM unit) : (∀ i, keepsInv (book m r) (f i)) → keepsInv (book m r) (forNdps ro k f).
Proof. intros Hf. unfold forNdps. keep_book_with ltac:(apply Hf). Qed.
Lemma book_gratuitous m r adv : keepsInv (book m r) (gratuitous (LN := LN) ro adv).
Proof. unfold gratuitous, arpGratuitous, ndpGratuitous. keep_book. Qed.
Lemma book_spamReceive m r now st : keepsInv (book m r) (spamReceive (LN := LN) ro now st).
Proof. unfold spamReceive. keep_book_with ltac:(apply book_gratuitous). Qed.
Lemma book_spamTick m r now st : keepsInv (book m r) (spamTick (LN := LN) ro so now st).
Proof. unfold spamTick. keep_book_with ltac:(apply book_gratuitous). Qed.
Lemma book_arp m r c : keepsInv (book m r) (arp_processRequest (LN := LN) so c).
Proof. unfold arp_processRequest, readFailed. keep_book. Qed.
Lemma book_ndp m r c : keepsInv (book m r) (ndp_processRequest (LN := LN) so c).
Proof. unfold ndp_processRequest, readFailed. keep_book. Qed.
Lemma book_scan m r ifs st : keepsInv (book m r) (scanInterfaces (LN := LN) excludeRegexp ifs st).
Proof.
  revert st. induction ifs as [|ifi ifs IH]; intros st; cbn [scanInterfaces]; [apply inv_ret|].
  unfold scanUp. keep_book_with ltac:(apply IH).
Qed.
Lemma book_updateInterfaces m r : keepsInv (book m r) (updateInterfaces (LN := LN) ro excludeRegexp).
Proof. unfold updateInterfaces. keep_book_with ltac:(apply book_scan). Qed.
(** ** The abstract book

    What the operations do to the lists and the counts, as functions. *)

Definition theBook : Type := gmap string (list IPAdvertisement) * gmap string Z.
Definition setBook (name : string) (adv : IPAdvertisement) (b : theBook) : theBook :=
  (<[name := withAdv adv (advsOf b.1 name)]> b.1, if isNew adv (advsOf b.1 name) then bump 1 b.2 (advKey adv) else b.2).
Definition deleteBook (name : string) (b : theBook) : theBook := (delete name b.1, dropAll b.2 (advsOf b.1 name)).
Definition isBook (b : theBook) : Announce * W → Prop := book b.1 b.2.

Lemma tri_SetBalancer b name adv : tri (isBook b) (SetBalancer (LN := LN) ro name adv) (λ _, isBook (setBook name adv b)) (λ _, True).
Proof.
  unfold SetBalancer. apply tri_sget. intros a. apply tri_here. intros x [[Hi Hr] <-].
  eapply (tri_bind _ _ _ (λ _, isBook (setBook name adv b))); [|intros _; apply tri_smod; by intros ? ? []].
  unfold setBook, isBook, withAdv, isNew, advsOf. rewrite <- Hi.
  destruct (list_find _ _) as [[k j]|]; simpl.
  - apply tri_smod. intros ? ? <-. by split.
  - eapply (tri_bind _ _ _ (λ _, book (<[name := default [] (ips x.1 !! name) ++ [adv]]> (ips x.1)) b.2)).
    { apply tri_smod. intros ? ? <-. by split. }
    intros _. eapply (tri_bind _ _ _ (λ _, book (<[name := default [] (ips x.1 !! name) ++ [adv]]> (ips x.1)) (bump 1 b.2 (advKey adv)))).
    { apply tri_smod. intros a w [? Ha]. split; [done|]. simpl in *. unfold bump, refcnt. by rewrite Ha. }
    intros _. apply tri_sget. intros a. eapply (tri_pre _ (book _ _)); [intros ? [H _]; exact H|].
    case_decide; [by apply tri_ret|]. eapply tri_post; [|by intros ? ? H'; apply H'|done].
    apply book_forNdps. intros i. apply inv_logged, book_Watch.
Qed.

Lemma tri_DeleteBalancer b name : tri (isBook b) (DeleteBalancer (LN := LN) ro name) (λ _, isBook (deleteBook name b)) (λ _, True).
Proof.
  unfold DeleteBalancer. apply tri_sget. intros a. apply tri_here. intros x [[Hi Hr] <-].
  unfold isBook, deleteBook, advsOf. rewrite <- Hi. destruct (ips x.1 !! name) as [l|] eqn:E; simpl.
  - eapply (tri_bind _ _ _ (λ _, book (delete name (ips x.1)) (dropAll b.2 []))).
    { apply tri_smod. intros ? ? <-. by split. }
    intros _. apply (tri_foreach (λ done (_ : unit), book (delete name (ips x.1)) (dropAll b.2 done))). intros done i [] _.
    eapply (tri_bind _ _ _ (λ _, book (delete name (ips x.1)) (dropAll b.2 (done ++ [i])))).
    { apply tri_smod. intros a w [? Ha]. split; [by trivial|]. simpl in *. unfold dropAll, refcnt. by rewrite foldl_app, Ha. }
    intros _. apply tri_sget. intros a. eapply (tri_pre _ (book _ _)); [intros ? [H _]; exact H|].
    case_decide; [by apply tri_ret|]. eapply tri_post; [|by intros ? ? H'; apply H'|by trivial].
    apply book_forNdps. intros j. apply inv_logged, book_Unwatch.
  - apply tri_ret. intros ? ->. rewrite delete_id by done. by split.
Qed.
(** *** The handlers *)

(** The addresses a policy asks this node to announce; [None] when it asks for nothing. *)
Definition addressesOf (nodeName : string) (policy : option (ObjectMeta * EgressPolicyStatus)) : option (list IP) :=
  match policy with
  | None => None
  | Some (meta, status) =>
      if om_Deleting meta || negb (bool_decide (ps_Node status = nodeName)) then None
      else
        let v4 := ParseIP (st_Ipv4 (ps_Eip status)) in
        let v6 := ParseIP (st_Ipv6 (ps_Eip status)) in
        Some ((if decide (To4 v4 ≠ []) then [v4] else []) ++ (if decide (To16 v6 ≠ []) then [v6] else []))
  end.
Definition setAll (key : string) (l : list IP) (b : theBook) : theBook := foldl (λ b ip, setBook key (NewIPAdvertisement ip true ∅) b) b l.
Lemma setAll_app key l1 l2 b : setAll key (l1 ++ l2) b = setAll key l2 (setAll key l1 b).
Proof. apply foldl_app. Qed.
Definition handlerBook (key : string) (addresses : option (list IP)) (b : theBook) : theBook :=
  match addresses with None => deleteBook key b | Some l => setAll key l b end.

Lemma addressesOf_valid nodeName policy l : addressesOf nodeName policy = Some l → Forall valid_ip l.
Proof.
  intros H. assert (∀ t, ParseIP t ≠ [] → valid_ip (ParseIP t)) as Hv.
  { intros t Ht. destruct (ParseIP_valid t) as [?|[? ?]]; [done|]. split; [by right|done]. }
  destruct policy as [[meta status]|]; [|done]. simpl in H. destruct (_ || _); [done|]. injection H as <-.
  apply Forall_app_2; case_decide as Hd; try apply Forall_nil_2; apply Forall_singleton, Hv; intros He; by rewrite He in Hd.
Qed.

Context {EA : EipApi (W := W)} (nodeName : string).

Lemma tri_announcePolicy b key policy :
  tri (isBook b) (announcePolicy (LN := LN) ro nodeName key policy) (λ _, isBook (handlerBook key (addressesOf nodeName policy) b)) (λ _, True).
Proof.
  destruct policy as [[meta status]|]; simpl.
  2:{ eapply tri_seq; [apply tri_DeleteBalancer|by apply tri_ret]. }
  destruct (om_Deleting meta); simpl.
  { eapply tri_seq; [apply tri_DeleteBalancer|by apply tri_ret]. }
  case_decide as Hn.
  { rewrite bool_decide_eq_false_2 by done. simpl. eapply tri_seq; [apply tri_DeleteBalancer|by apply tri_ret]. }
  rewrite bool_decide_eq_true_2 by (by destruct (decide (ps_Node status = nodeName))). cbn [negb orb handlerBook]. rewrite setAll_app.
  eapply (tri_seq _ _ _ (isBook (setAll key (if decide (To4 (ParseIP (st_Ipv4 (ps_Eip status))) ≠ []) then [ParseIP (st_Ipv4 (ps_Eip status))] else []) b))).
  { case_decide; [apply tri_SetBalancer|by apply tri_ret]. }
  eapply tri_seq; [|apply tri_ret; intros ? H; exact H].
  destruct (decide (To16 _ ≠ [])); [apply tri_SetBalancer|by apply tri_ret].
Qed.

(** A call that returns no error. *)
Definition quiet {A} (c : AM A) : Prop := ∀ x e, (c x).2 ≠ Err e.
Lemma quiet_bind {A B} (c : AM A) (k : A → AM B) : quiet c → (∀ a, quiet (k a)) → quiet (mbind_ c k).
Proof. intros Hc Hk x e. unfold mbind_. specialize (Hc x). destruct (c x) as [y [a|e'|p|]]; simpl; [apply Hk|by destruct (Hc e')|done|done]. Qed.
Lemma quiet_logged {A} (c : AM A) : quiet (logged c).
Proof. intros x e. unfold logged, attempt, mbind_. by destruct (c x) as [y [a|e'|p|]]. Qed.
Lemma quiet_foreach {A B} (f : A → B → AM B) l b : (∀ x b, quiet (f x b)) → quiet (mforeach f l b).
Proof. intros Hf. revert b. induction l as [|x l IH]; intros b; [by intros ? ?|]. apply quiet_bind; [apply Hf|apply IH]. Qed.
Ltac quiet_tac :=
  repeat first [apply quiet_logged|apply quiet_foreach; intros ? ?|apply quiet_bind; [|intros ?]|by intros ? ?|case_match].
Lemma quiet_announcePolicy key policy : quiet (announcePolicy (LN := LN) ro nodeName key policy).
Proof. unfold announcePolicy, DeleteBalancer, SetBalancer, forNdps, doSpam. quiet_tac. Qed.
(** The name a request is for, and what the read asks this node to announce. *)
Definition readOf (req : NamespacedName) (w : W) : option (string * option (list IP)) :=
  match ParseKindWithReq req with
  | Ret (kind, nn) =>
      if decide (kind = "EgressClusterPolicy") then
        match (getOrAbsent (eaGetClusterPolicy nn) w).2 with
        | Ret p => Some (nnString nn, addressesOf nodeName ((λ p, (cp_Meta p, cp_Status p)) <$> p))
        | _ => None
        end
      else if decide (kind = "EgressPolicy") then
        match (getOrAbsent (eaGetPolicy nn) w).2 with
        | Ret p => Some (nnString nn, addressesOf nodeName ((λ p, (ep_Meta p, ep_Status p)) <$> p))
        | _ => None
        end
      else None
  | _ => None
  end.
Definition readBook (r : option (string * option (list IP))) (b : theBook) : theBook :=
  match r with Some (key, l) => handlerBook key l b | None => b end.

Lemma eip_handler {P} (get : M W P) (f : P → ObjectMeta * EgressPolicyStatus) key b x y o : isBook b x →
  (let* p := scall (getOrAbsent get) in announcePolicy (LN := LN) ro nodeName key (f <$> p)) x = (y, o) →
  match o with
  | Ret _ => ∃ p, (getOrAbsent get x.2).2 = Ret p ∧ isBook (handlerBook key (addressesOf nodeName (f <$> p)) b) y
  | Err _ => isBook b y ∧ ∀ p, (getOrAbsent get x.2).2 ≠ Ret p
  | _ => True
  end.
Proof.
  intros Hb. unfold mbind_, scall. destruct (getOrAbsent get x.2) as [w [p|e|s|]] eqn:E; [|by intros [= <- <-]..].
  pose proof (tri_announcePolicy b key (f <$> p) (x.1, w) Hb) as Ht. pose proof (quiet_announcePolicy key (f <$> p) (x.1, w)) as Hq.
  destruct (announcePolicy _ _ _ _ (x.1, w)) as [y' [a|e|s|]]; simpl in *; intros [= <- <-]; [by eauto|by destruct (Hq e)|done|done].
Qed.

Lemma eip_Reconcile_book req b x y o : isBook b x → eip_Reconcile (LN := LN) ro nodeName req x = (y, o) →
  match o with
  | Ret _ => isBook (readBook (readOf req x.2) b) y
  | Err _ => isBook b y ∧ readOf req x.2 = None
  | _ => True
  end.
Proof.
  intros Hb. unfold eip_Reconcile, readOf. unfold mbind_ at 1. unfold lift. destruct (ParseKindWithReq req) as [[kind nn]|e|s|]; [|by intros [= <- <-]..].
  case_decide; [|case_decide; [|by intros [= <- <-]]].
  all: intros Hh; eapply (eip_handler _ _ (nnString nn) b) in Hh; [|done]; destruct o; [destruct Hh as (p & -> & ?); done|destruct Hh as [? Hh]|done|done].
  all: split; [done|]; by destruct (getOrAbsent _ _).2 as [p| | |]; [destruct (Hh p)|..].
Qed.

(** ** Runs of the agent *)

(** What the agent does: a reconcile, a look at the interfaces, a turn of the
    announcing goroutine, a packet on a socket. *)
Inductive event :=
| EvReconcile (req : NamespacedName) | EvInterfaces | EvReceive (now : Z) (st : spamState) | EvTick (now : Z) (st : spamState)
| EvARP (r : arpResponder) | EvNDP (n : ndpResponder).
Definition handle (e : event) : AM unit :=
  match e with
  | EvReconcile req => let* _ := eip_Reconcile (LN := LN) ro nodeName req in mret tt
  | EvInterfaces => updateInterfaces (LN := LN) ro excludeRegexp
  | EvReceive now st => let* _ := spamReceive (LN := LN) ro now st in mret tt
  | EvTick now st => let* _ := spamTick (LN := LN) ro so now st in mret tt
  | EvARP r => let* _ := arp_processRequest (LN := LN) so r in mret tt
  | EvNDP n => let* _ := ndp_processRequest (LN := LN) so n in mret tt
  end.

(** What the announcer keeps: the pairs of a policy and an address that were taken over for it since the policy came
    to this node.  An address that a policy replaced stays among them. *)
Definition taken : Type := gset (string * string).
Definition readTaken (r : option (string * option (list IP))) (h : taken) : taken :=
  match r with
  | Some (key, Some l) => h ∪ list_to_set ((λ ip, (key, IPString ip)) <$> l)
  | Some (key, None) => filter (λ p, p.1 ≠ key) h
  | None => h
  end.
Definition spec (e : event) (w : W) (h : taken) : taken := match e with EvReconcile req => readTaken (readOf req w) h | _ => h end.

(** A call that panics ends the agent: it starts again with nothing announced. *)
Definition finishes {A} (o : outcome A) : Prop := match o with Ret _ | Err _ => True | _ => False end.
Inductive agentRun : taken → Announce * W → Prop :=
| run_start w : agentRun ∅ (newAnnounce, w)
| run_event h x e y o : agentRun h x → handle e x = (y, o) → finishes o → agentRun (spec e x.2 h) y
| run_world h a w w' : agentRun h (a, w) → agentRun h (a, w').

(** *** The specification

    [held] is what the policies hold by the last reading of each: a reading of a policy of this node replaces its
    addresses.  [replaced] is what a policy held before and got another address for without leaving the node. *)
Record policies := mkPolicies { held : taken; replaced : taken }.
Definition readPolicy (r : option (string * option (list IP))) (h : policies) : policies :=
  match r with
  | Some (key, Some l) =>
      let new : taken := list_to_set ((λ ip, (key, IPString ip)) <$> l) in
      mkPolicies (filter (λ p, p.1 ≠ key) (held h) ∪ new) ((replaced h ∪ filter (λ p, p.1 = key) (held h)) ∖ new)
  | Some (key, None) => mkPolicies (filter (λ p, p.1 ≠ key) (held h)) (filter (λ p, p.1 ≠ key) (replaced h))
  | None => h
  end.
Inductive policyRun : policies → Announce * W → Prop :=
| prun_start w : policyRun (mkPolicies ∅ ∅) (newAnnounce, w)
| prun_event h x e y o : policyRun h x → handle e x = (y, o) → finishes o →
    policyRun (match e with EvReconcile req => readPolicy (readOf req x.2) h | _ => h end) y
| prun_world h a w w' : policyRun h (a, w) → policyRun h (a, w').

Lemma readPolicy_taken r h : held (readPolicy r h) ∪ replaced (readPolicy r h) = readTaken r (held h ∪ replaced h).
Proof using.
  destruct r as [[key [l|]]|]; [|by apply set_eq; intros p; simpl; rewrite elem_of_union, !elem_of_filter, elem_of_union; tauto|done].
  simpl. set (new := list_to_set _ : taken). apply set_eq. intros p. rewrite !elem_of_union, elem_of_difference, elem_of_union, !elem_of_filter.
  destruct (decide (p ∈ new)), (decide (p.1 = key)); tauto.
Qed.
Lemma policyRun_agentRun h x : policyRun h x → agentRun (held h ∪ replaced h) x.
Proof.
  induction 1 as [w|h x e y o _ IH Hh Ho|h a w w' _ IH]; [apply run_start| |by eapply run_world].
  pose proof (run_event _ _ e _ _ IH Hh Ho) as Hr. destruct e; simpl in *; [by rewrite readPolicy_taken|exact Hr..].
Qed.

(** ** The book represents what was taken over *)

Definition represents (h : taken) (b : theBook) : Prop :=
  bookOk b.1 b.2 ∧ (∀ name s, (name, s) ∈ h ↔ s ∈ advKey <$> advsOf b.1 name) ∧
  map_Forall (λ _ l, Forall (λ i, adv_allInterfaces i = true) l) b.1.

Lemma bookOk_valid m r name : bookOk m r → Forall (λ i, valid_ip (adv_ip i)) (advsOf m name).
Proof. intros [Hm _]. unfold advsOf. destruct (m !! name) as [l|] eqn:E; simpl; [|by constructor]. by destruct (Hm _ _ E) as (_ & ? & _). Qed.

Lemma withAdv_keys s adv advs : valid_ip (adv_ip adv) → Forall (λ i, valid_ip (adv_ip i)) advs →
  s ∈ advKey <$> withAdv adv advs ↔ s ∈ advKey <$> advs ∨ s = advKey adv.
Proof.
  intros Hv Hl. unfold withAdv. destruct (list_find _ advs) as [[k j]|] eqn:E.
  - apply list_find_Some in E as (Hk & He & _). apply advKey_equal in He; [|done|by eapply Forall_lookup_1 in Hl].
    rewrite list_fmap_insert, list_insert_id by (by rewrite list_lookup_fmap, Hk, He).
    split; [by left|]. intros [?| ->]; [done|]. rewrite He. apply list_elem_of_fmap. exists j. split; [done|]. by eapply list_elem_of_lookup_2.
  - rewrite fmap_app, elem_of_app. change (advKey <$> [adv]) with [advKey adv]. rewrite list_elem_of_singleton. done.
Qed.
Lemma withAdv_all adv advs : adv_allInterfaces adv = true → Forall (λ i, adv_allInterfaces i = true) advs → Forall (λ i, adv_allInterfaces i = true) (withAdv adv advs).
Proof.
  intros Ha Hl. unfold withAdv. destruct (list_find _ advs) as [[k j]|]; [by apply Forall_insert|]. apply Forall_app_2; [done|by apply Forall_singleton].
Qed.

Lemma represents_set h b key ip : represents h b → valid_ip ip → represents (h ∪ {[(key, IPString ip)]}) (setBook key (NewIPAdvertisement ip true ∅) b).
Proof.
  intros (Hb & Hh & Ha) Hv. set (adv := NewIPAdvertisement ip true ∅). assert (valid_ip (adv_ip adv)) as Hadv by done.
  split_and!; [by apply bookOk_set| |].
  - intros name s. cbn [setBook fst]. unfold advsOf at 1. destruct (decide (name = key)) as [->|Hn].
    + rewrite lookup_insert_eq. cbn [from_option id]. rewrite withAdv_keys, <- Hh by (done || by eapply bookOk_valid).
      rewrite elem_of_union, elem_of_singleton. split; (intros [?|?]; [by left|right]); [by simplify_eq|by subst].
    + rewrite lookup_insert_ne by done. fold (advsOf b.1 name). rewrite <- Hh. set_solver.
  - apply map_Forall_insert_2; [|done]. apply withAdv_all; [done|]. unfold advsOf.
    destruct (b.1 !! key) as [l|] eqn:E; simpl; [by eapply Ha|by constructor].
Qed.
Lemma represents_setAll h b key l : represents h b → Forall valid_ip l →
  represents (h ∪ list_to_set ((λ ip, (key, IPString ip)) <$> l)) (setAll key l b).
Proof.
  revert h b. induction l as [|ip l IH]; intros h b Hr Hv; cbn [fmap list_fmap list_to_set setAll foldl]; [by rewrite right_id_L by apply _|].
  apply Forall_cons in Hv as [Hip Hv]. rewrite (assoc_L (∪)). apply IH; [by apply represents_set|done].
Qed.
Lemma represents_delete h b key : represents h b → represents (filter (λ p, p.1 ≠ key) h) (deleteBook key b).
Proof.
  intros (Hb & Hh & Ha). split_and!; [by apply bookOk_delete| |by apply map_Forall_delete].
  intros name s. rewrite elem_of_filter. unfold advsOf. cbn [deleteBook fst]. destruct (decide (name = key)) as [->|Hn].
  - rewrite lookup_delete_eq. simpl. rewrite elem_of_nil. split; [by intros [? _]|done].
  - rewrite lookup_delete_ne by done. fold (advsOf b.1 name). rewrite <- Hh. split; [by intros [_ ?]|done].
Qed.
Lemma represents_read h b r : represents h b → match r with Some (_, Some l) => Forall valid_ip l | _ => True end → represents (readTaken r h) (readBook r b).
Proof. destruct r as [[key [l|]]|]; [by apply represents_setAll|intros ? _; by apply represents_delete|done]. Qed.

Lemma readOf_valid req w : match readOf req w with Some (_, Some l) => Forall valid_ip l | _ => True end.
Proof.
  unfold readOf. repeat case_match; simplify_eq; try done; by eapply addressesOf_valid.
Qed.
Lemma keeps_book b e x : match e with EvReconcile _ => False | _ => True end → isBook b x → isBook b (handle e x).1.
Proof.
  intros He Hb. assert (keepsInv (isBook b) (handle e)) as Hk.
  { unfold isBook. destruct e; [done|..]; simpl; try (apply inv_bind; [|intros; apply inv_ret]);
      first [apply book_updateInterfaces|apply book_spamReceive|apply book_spamTick|apply book_arp|apply book_ndp]. }
  specialize (Hk x Hb). by destruct (handle e x).2.
Qed.

Lemma run_represents h x : agentRun h x → represents h (ips x.1, ipRefcnt x.1).
Proof.
  induction 1 as [w|h x e y o _ IH He Ho|h a w w' _ IH].
  - split_and!; [|intros name s; unfold advsOf; simpl; rewrite lookup_empty; set_solver|by apply map_Forall_empty].
    split; [by apply map_Forall_empty|]. done.
  - assert (match e with EvReconcile _ => False | _ => True end → isBook (ips x.1, ipRefcnt x.1) y) as Hpass.
    { intros Hp. replace y with (handle e x).1 by (by rewrite He). by apply keeps_book. }
    destruct e as [req| | | | |]; [clear Hpass|by destruct (Hpass I) as [-> ->]..].
    cbn [handle] in He. unfold mbind_ in He. destruct (eip_Reconcile ro nodeName req x) as [y' o'] eqn:E.
    apply (eip_Reconcile_book req (ips x.1, ipRefcnt x.1)) in E; [|by split]. cbn [spec].
    destruct o' as [a|e|s|]; injection He as <- <-; try done.
    + destruct E as [-> ->]. rewrite <- surjective_pairing. apply represents_read; [done|apply readOf_valid].
    + destruct E as [[-> ->] ->]. done.
  - done.
Qed.

(** The holders of an address, counted in the specification. *)
Lemma holders_size h b s : represents h b → holders b.1 s = Z.of_nat (size (filter (λ p, p.2 = s) h)).
Proof.
  destruct b as [m r]. intros ([Hm _] & Hh & _). simpl in *. clear r. revert h Hh. induction m as [|k l m Hk IH] using map_ind; intros h Hh.
  - replace (filter (λ p, p.2 = s) h) with (∅ : taken); [done|]. symmetry. apply set_eq. intros [name t].
    rewrite elem_of_filter, Hh. unfold advsOf. rewrite lookup_empty. simpl. set_solver.
  - rewrite holders_insert, delete_id by done. apply map_Forall_insert in Hm as [(_ & _ & Hd) Hm]; [|done].
    rewrite (IH Hm (filter (λ p, p.1 ≠ k) h)).
    2:{ intros name t. rewrite elem_of_filter, Hh. unfold advsOf. simpl. destruct (decide (name = k)) as [->|Hn].
        - rewrite Hk. simpl. rewrite elem_of_nil. split; [by intros []|done].
        - rewrite lookup_insert_ne by done. split; [by intros []|by auto]. }
    assert (∀ t, (k, t) ∈ h ↔ t ∈ advKey <$> l) as Hl by (intros t; rewrite Hh; unfold advsOf; by rewrite lookup_insert_eq).
    assert (countIn s l = Z.of_nat (size (filter (λ p, p.1 = k ∧ p.2 = s) h))) as ->.
    { destruct (decide (s ∈ advKey <$> l)) as [Hs|Hs].
      - replace (filter (λ p, p.1 = k ∧ p.2 = s) h) with ({[(k, s)]} : taken); [rewrite size_singleton|].
        + by apply countIn_nodup.
        + apply set_eq. intros [n t]. rewrite elem_of_singleton, elem_of_filter. simpl. split; [|naive_solver].
          intros [= -> ->]. split; [done|]. by apply Hl.
      - replace (filter (λ p, p.1 = k ∧ p.2 = s) h) with (∅ : taken); [by apply countIn_none|].
        symmetry. apply set_eq. intros [n t]. rewrite elem_of_filter, elem_of_empty. simpl. split; [|done].
        intros [[-> ->] Hin]. by apply Hs, Hl. }
    rewrite <- Nat2Z.inj_add, <- size_union by set_solver. do 2 f_equal. apply set_eq. intros [n t].
    rewrite elem_of_union, !elem_of_filter. simpl. destruct (decide (n = k)); naive_solver.
Qed.
(** ** What is answered *)

Lemma advertised_elem a i : i ∈ advertised so a ↔ ∃ name, i ∈ advsOf (ips a) name.
Proof.
  unfold advertised, advsOf. rewrite list_elem_of_bind. split.
  - intros (name & Hi & _). by exists name.
  - intros [name Hi]. exists name. split; [done|]. rewrite map_order_perm. apply elem_of_elements, elem_of_dom.
    destruct (ips a !! name); [done|]. by apply elem_of_nil in Hi.
Qed.
Lemma advsOf_facts h b name i : represents h b → i ∈ advsOf b.1 name → valid_ip (adv_ip i) ∧ adv_allInterfaces i = true ∧ (name, advKey i) ∈ h.
Proof.
  intros (Hb & Hh & Ha) Hi. split_and!.
  - pose proof (bookOk_valid _ _ name Hb) as Hv. by eapply Forall_forall in Hv.
  - unfold advsOf in Hi. destruct (b.1 !! name) as [l|] eqn:E; [|by apply elem_of_nil in Hi].
    pose proof (Ha _ _ E) as Hl. by eapply Forall_forall in Hl.
  - apply Hh. by apply list_elem_of_fmap_2.
Qed.
Lemma taken_iff h a ip : represents h (ips a, ipRefcnt a) → valid_ip ip →
  (∃ name, (name, IPString ip) ∈ h) ↔ existsb (λ i, IPEqual (adv_ip i) ip) (advertised so a) = true.
Proof.
  intros Hr Hv. rewrite existsb_exists. setoid_rewrite <- list_elem_of_In. split.
  - intros [name Hn]. destruct (proj1 (proj2 Hr)) with (name := name) (s := IPString ip) as [Hi _]. specialize (Hi Hn).
    apply list_elem_of_fmap in Hi as (i & He & Hi). exists i. split; [apply advertised_elem; by exists name|].
    destruct (advsOf_facts _ _ name i Hr Hi) as (? & _). by apply IPEqual_string.
  - intros (i & [name Hi]%advertised_elem & He). exists name. destruct (advsOf_facts _ _ name i Hr Hi) as (? & _ & Hin).
    apply IPEqual_string in He; [|done|done]. by rewrite <- He.
Qed.
Lemma shouldAnnounce_taken h a ip intf : represents h (ips a, ipRefcnt a) → valid_ip ip →
  shouldAnnounce so a ip intf = if existsb (λ i, IPEqual (adv_ip i) ip) (advertised so a) then dropReasonNone else dropReasonAnnounceIP.
Proof.
  intros Hr Hv. unfold shouldAnnounce. destruct (existsb (λ i, IPEqual _ _) _) eqn:Hd.
  - apply existsb_exists in Hd as (i & Hi%list_elem_of_In & He). rewrite (proj2 (existsb_exists _ _)); [done|]. exists i. split.
    + apply list_elem_of_In, list_elem_of_filter. done.
    + apply advertised_elem in Hi as [name Hi]. destruct (advsOf_facts _ _ name i Hr Hi) as (_ & Ha & _). unfold matchInterface. by rewrite Ha.
  - assert (filter (λ i, IPEqual (adv_ip i) ip = true) (advertised so a) = []) as ->; [|done].
    destruct (filter _ _) as [|i l] eqn:E; [done|]. exfalso. apply not_true_iff_false in Hd. apply Hd, existsb_exists. exists i. rewrite <- list_elem_of_In.
    assert (i ∈ filter (λ i, IPEqual (adv_ip i) ip = true) (advertised so a)) as [? ?]%list_elem_of_filter; [|done].
    rewrite E. apply list_elem_of_here.
Qed.

(** Nothing is announced under a name nothing was taken over for. *)
Lemma represents_unnamed h a name : represents h (ips a, ipRefcnt a) → (∀ s, (name, s) ∉ h) → AnnounceName a name = false.
Proof.
  intros ([Hm _] & Hh & _) Hn. apply bool_decide_eq_false. intros [l Hl]. destruct (Hm _ _ Hl) as [Hnil _].
  destruct l as [|i l]; [done|]. apply (Hn (advKey i)), Hh. unfold advsOf. simpl. rewrite Hl. apply list_elem_of_here.
Qed.

(** C18. The announcer implements its specification over every run of the agent, whatever calls fail.  A request for an
    address that a socket receives is answered, on every interface, exactly when some policy holds the address by what was last
    read of the policy, or held it and got another address without leaving this node since; the reference count of the address is
    the number of such policies; and no gratuitous message is sent for an address without one. *)
Theorem announcer_refines h x ip intf : policyRun h x → valid_ip ip →
  let holds name := (name, IPString ip) ∈ held h ∨ (name, IPString ip) ∈ replaced h in
  (shouldAnnounce so x.1 ip intf = dropReasonNone ↔ ∃ name, holds name) ∧
  refcnt x.1 (IPString ip) = Z.of_nat (size (filter (λ p, p.2 = IPString ip) (held h ∪ replaced h))) ∧
  ((∀ name, ¬ holds name) → ∀ adv, adv_ip adv = ip → gratuitous (LN := LN) ro adv x = (x, Ret tt)).
Proof.
  intros Hrun%policyRun_agentRun Hv holds. pose proof (run_represents _ x Hrun) as Hr. set (u := held h ∪ replaced h) in *.
  assert (∀ name, holds name ↔ (name, IPString ip) ∈ u) as Hu by (intros name; unfold u; by rewrite elem_of_union).
  assert (refcnt x.1 (IPString ip) = Z.of_nat (size (filter (λ p, p.2 = IPString ip) u))) as Hc.
  { rewrite <- (holders_size u _ _ Hr). destruct Hr as ([_ Hcount] & _). apply Hcount. }
  split_and!; [|done|].
  - rewrite (shouldAnnounce_taken u) by done. setoid_rewrite Hu. rewrite (taken_iff u) by done. by destruct (existsb _ _).
  - intros Hn adv <-. unfold gratuitous, mbind_, sget. rewrite decide_True; [done|]. rewrite Hc.
    replace (filter _ u) with (∅ : taken); [done|]. symmetry. apply set_eq. intros [name t].
    rewrite elem_of_filter, elem_of_empty. simpl. split; [|done]. intros [-> Hin]. by apply (Hn name), Hu.
Qed.

(** C19. After a reconcile of a policy returns without an error: of a policy that is gone, is being deleted or lives on another
    node, the node announces nothing under its name any more, and does not answer for an address that no other policy had; for a policy on
    this node it answers requests for the policy's IPv4 and IPv6 address on every interface. *)
Theorem policy_announced h x req nn w policy y res : agentRun h x →
  ParseKindWithReq req = Ret ("EgressPolicy", nn) → getOrAbsent (eaGetPolicy nn) x.2 = (w, Ret policy) →
  eip_Reconcile (LN := LN) ro nodeName req x = (y, Ret res) →
  (match policy with Some p => negb (om_Deleting (ep_Meta p)) && bool_decide (ps_Node (ep_Status p) = nodeName) | None => false end = false →
    AnnounceName y.1 (nnString nn) = false ∧
    ∀ ip intf, valid_ip ip → (∀ name, name ≠ nnString nn → (name, IPString ip) ∉ h) → shouldAnnounce so y.1 ip intf = dropReasonAnnounceIP) ∧
  (∀ p, policy = Some p → om_Deleting (ep_Meta p) = false → ps_Node (ep_Status p) = nodeName →
    ∀ t intf, (t = st_Ipv4 (ps_Eip (ep_Status p)) ∧ To4 (ParseIP t) ≠ []) ∨ (t = st_Ipv6 (ps_Eip (ep_Status p)) ∧ To16 (ParseIP t) ≠ []) →
    shouldAnnounce so y.1 (ParseIP t) intf = dropReasonNone).
Proof.
  intros Hrun Hk Hg Hrec.
  assert (agentRun (spec (EvReconcile req) x.2 h) y) as Hrun'.
  { eapply (run_event _ _ _ y (Ret tt)); [done| |done]. cbn [handle]. unfold mbind_. by rewrite Hrec. }
  apply run_represents in Hrun'. cbn [spec] in Hrun'. unfold readOf in Hrun'. rewrite Hk, Hg in Hrun'. simpl in Hrun'. split.
  - intros Hgone. replace (addressesOf _ _) with (@None (list IP)) in Hrun'.
    2:{ destruct policy as [p|]; [|done]. simpl. destruct (om_Deleting _), (bool_decide _); done. }
    simpl in Hrun'. split; [by eapply represents_unnamed in Hrun'; [|intros s [? _]%elem_of_filter]|].
    intros ip intf Hv Hn. rewrite (shouldAnnounce_taken _ _ _ _ Hrun') by done. destruct (existsb _ _) eqn:E; [|done].
    apply (taken_iff _ _ _ Hrun') in E as [name [Hname Hin]%elem_of_filter]; [|done]. by destruct (Hn name).
  - intros p -> Hdel Hnode t intf Ht. simpl in Hrun'. rewrite Hdel, bool_decide_eq_true_2 in Hrun' by done. simpl in Hrun'.
    assert (valid_ip (ParseIP t)) as Hv.
    { destruct (ParseIP_valid t) as [Hnil|[? ?]]; [|split; [by right|done]]. rewrite Hnil in Ht. by destruct Ht as [[_ []]|[_ []]]. }
    rewrite (shouldAnnounce_taken _ _ _ _ Hrun') by done. rewrite (proj1 (taken_iff _ _ _ Hrun' Hv)); [done|].
    exists (nnString nn). apply elem_of_union. right. apply elem_of_list_to_set, list_elem_of_fmap. exists (ParseIP t). split; [done|].
    apply elem_of_app. destruct Ht as [[-> Ht]|[-> Ht]]; [left|right]; rewrite decide_True by done; apply list_elem_of_here.
Qed.
End run.
