(* ===== verification/AnnounceStore.v ===== *)
(** * A node with interfaces

    A world for the announcer: interfaces, the groups they joined, the packets that
    arrived and the messages that were sent. *)

From S2P Require Import Prelude GoStd GoNet GoFmt Types Utils ApiServer Triple StateM Announce AnnounceTheorems.
Open Scope nat_scope.

Record l2world := mkL2World {
  lw_interfaces : list (netInterface * list (option IPNet));
  lw_policies : gmap string EgressPolicy;
  lw_clusterPolicies : gmap string EgressClusterPolicy;
  (** Interface and group. *)
  lw_groups : gset (string * string);
  (** Packets that were not read yet. *)
  lw_packets : list arpPacket;
  (** Interface, address and whether the message is gratuitous. *)
  lw_sent : list (string * string * bool)
}.
Definition lw_send (m : string * string * bool) (w : l2world) : l2world :=
  mkL2World (lw_interfaces w) (lw_policies w) (lw_clusterPolicies w) (lw_groups w) (lw_packets w) (lw_sent w ++ [m]).
Definition lw_regroup (f : gset (string * string) → gset (string * string)) (w : l2world) : l2world :=
  mkL2World (lw_interfaces w) (lw_policies w) (lw_clusterPolicies w) (f (lw_groups w)) (lw_packets w) (lw_sent w).
Definition lw_take (l : list arpPacket) (w : l2world) : l2world :=
  mkL2World (lw_interfaces w) (lw_policies w) (lw_clusterPolicies w) (lw_groups w) l (lw_sent w).
Definition lw_store (m : gmap string EgressPolicy) (w : l2world) : l2world :=
  mkL2World (lw_interfaces w) m (lw_clusterPolicies w) (lw_groups w) (lw_packets w) (lw_sent w).
Definition noFile : error := ErrNew "no such file".

#[export] Instance l2world_net : Layer2Net l2world := {|
  l2Interfaces w := (w, Ret (map fst (lw_interfaces w)));
  l2Addrs i w := (w, Ret (match list_find (λ p, if_Index p.1 = if_Index i) (lw_interfaces w) with Some (_, (_, l)) => l | None => [] end));
  l2HasMaster _ w := (w, Ret false);
  l2ReadFlags _ w := (w, Err noFile);
  l2DialARP _ w := (w, Ret tt);
  l2DialNDP _ w := (w, Ret tt);
  l2CloseARP _ w := (w, Ret tt);
  l2CloseNDP _ w := (w, Ret tt);
  l2JoinGroup intf g w := (lw_regroup (λ s, s ∪ {[(intf, IPString g)]}) w, Ret tt);
  l2LeaveGroup intf g w := (lw_regroup (λ s, s ∖ {[(intf, IPString g)]}) w, Ret tt);
  l2WriteARP intf _ ip w := (lw_send (intf, IPString ip, true) w, Ret tt);
  l2Advertise intf _ ip g w := (lw_send (intf, IPString ip, g) w, Ret tt);
  l2ReadARP _ w := match lw_packets w with p :: l => (lw_take l w, Ret p) | [] => (w, Err ErrEOF) end;
  l2ReadNDP _ w := (w, Err ErrEOF);
  l2Closed _ w := (w, Ret false);
  l2ReplyARP intf p w := (lw_send (intf, IPString (pkt_TargetIP p), false) w, Ret tt)
|}.
#[export] Instance l2world_api : EipApi (W := l2world) := {|
  eaGetPolicy n w := (w, match lw_policies w !! nnString n with Some p => Ret p | None => Err (ErrApi NotFound) end);
  eaGetClusterPolicy n w := (w, match lw_clusterPolicies w !! nnString n with Some p => Ret p | None => Err (ErrApi NotFound) end)
|}.

(** ** A run *)

Definition sorted_ro (_ : nat) : KeyOrder Z := {| key_order l := l; key_order_perm l := reflexivity l |}.
Definition sorted_so (_ : nat) : MapOrder := {| map_order l := l; map_order_perm l := reflexivity l |}.
Definition statusOf (v4 v6 node : string) : EgressPolicy :=
  mkEgressPolicy (mkMeta "web" "ns1" ∅ [] false 1) (mkPolicySpec "gw1" zeroEgressIP (mkAppliedTo None []) [] 0) (mkPolicyStatus (mkEip v4 v6) node).
Definition eth0 : netInterface * list (option IPNet) :=
  (mkInterface 2 "eth0" [0; 1; 2; 3; 4; 5]%Z true true, [Some (mkIPNet (ParseIP "fe80::1") (CIDRMask 64 16))]).
Definition world0 : l2world := mkL2World [eth0] {[ "ns1/web" := statusOf "10.6.1.21" "fd00::21" "node1" ]} ∅ ∅
  [mkArpPacket true [10; 6; 1; 21]%Z Broadcast; mkArpPacket true [10; 6; 1; 22]%Z Broadcast] [].
Definition webReq : NamespacedName := mkNN "EgressPolicy/ns1" "web".
Definition step (e : event) (x : Announce * l2world) : Announce * l2world := (handle sorted_ro sorted_so None "node1" e x).1.
Definition steps (l : list event) (x : Announce * l2world) : Announce * l2world := foldl (λ x e, step e x) x l.
Definition quietSpam : spamState := mkSpamState ∅ false.

(** The addresses are announced on the wire, a request for one of them is answered, one for another address is not. *)
Example announced_and_answered :
  lw_sent (steps [EvInterfaces; EvReconcile webReq; EvReceive 0 quietSpam; EvReceive 0 quietSpam;
                  EvARP (mkArpResponder "eth0" []); EvARP (mkArpResponder "eth0" [])] (newAnnounce, world0)).2 =
  [("eth0", "10.6.1.21", true); ("eth0", "10.6.1.21", true); ("eth0", "fd00::21", true); ("eth0", "10.6.1.21", false)].
Proof. vm_compute. reflexivity. Qed.

(** ** The claims at a run *)

Definition taken0 : taken := {[("ns1/web", "10.6.1.21"); ("ns1/web", "fd00::21")]}.
Lemma run1 : agentRun sorted_ro sorted_so None "node1" taken0 (steps [EvReconcile webReq] (newAnnounce, world0)).
Proof.
  assert (spec "node1" (EvReconcile webReq) world0 ∅ = taken0) as <- by (apply (bool_decide_unpack _); vm_compute; exact I).
  eapply (run_event _ _ _ _ _ (newAnnounce, world0) (EvReconcile webReq) _ (Ret tt)); [apply run_start|vm_compute; reflexivity|exact I].
Qed.
Definition addr21 : IP := [10; 6; 1; 21]%Z.
Lemma addr21_valid : valid_ip addr21.
Proof. split; [by left|]. repeat constructor; unfold is_byte; lia. Qed.

(** The policy got another IPv4 address and stayed on its node. *)
Definition world99 : l2world := lw_store {[ "ns1/web" := statusOf "10.6.1.99" "fd00::21" "node1" ]} world0.
Definition announced99 : Announce * l2world := step (EvReconcile webReq) ((steps [EvReconcile webReq] (newAnnounce, world0)).1, world99).
Definition policies99 : policies := readPolicy (readOf "node1" webReq world99) (readPolicy (readOf "node1" webReq world0) (mkPolicies ∅ ∅)).
Lemma prun1 : policyRun sorted_ro sorted_so None "node1" (readPolicy (readOf "node1" webReq world0) (mkPolicies ∅ ∅)) (steps [EvReconcile webReq] (newAnnounce, world0)).
Proof.
  eapply (prun_event _ _ _ _ _ (newAnnounce, world0) (EvReconcile webReq) _ (Ret tt)); [apply prun_start|vm_compute; reflexivity|exact I].
Qed.
Lemma run99 : policyRun sorted_ro sorted_so None "node1" policies99 announced99.
Proof.
  pose proof prun1 as H. rewrite (surjective_pairing (steps _ _)) in H. apply (prun_world _ _ _ _ _ _ _ world99) in H.
  eapply (prun_event _ _ _ _ _ _ (EvReconcile webReq) _ (Ret tt) H); [vm_compute; reflexivity|exact I].
Qed.

Lemma announcer_refines_witness :
  shouldAnnounce sorted_so announced99.1 addr21 "eth0" = dropReasonNone ∧ refcnt announced99.1 "10.6.1.21" = 1%Z ∧
  replaced policies99 = {[("ns1/web", "10.6.1.21")]}.
Proof.
  destruct (announcer_refines sorted_ro sorted_so None "node1" policies99 announced99 addr21 "eth0" run99 addr21_valid) as (Ha & Hc & _).
  split_and!; [|exact Hc|apply (bool_decide_unpack _); vm_compute; exact I].
  apply Ha. exists "ns1/web". right. apply (bool_decide_unpack _). vm_compute. exact I.
Defined.

(** A reconcile after the policy moved to another node. *)
Definition moved : l2world := lw_store {[ "ns1/web" := statusOf "10.6.1.21" "fd00::21" "node2" ]} world0.
Definition announced1 : Announce := (steps [EvReconcile webReq] (newAnnounce, world0)).1.
Lemma world_kept : (steps [EvReconcile webReq] (newAnnounce, world0)).2 = world0.
Proof. vm_compute. reflexivity. Qed.
Lemma run2 : agentRun sorted_ro sorted_so None "node1" taken0 (announced1, moved).
Proof. apply (run_world _ _ _ _ _ _ world0). pose proof run1 as H. rewrite (surjective_pairing (steps _ _)), world_kept in H. exact H. Qed.
Lemma policy_announced_witness : AnnounceName (step (EvReconcile webReq) (announced1, moved)).1 "ns1/web" = false ∧
  shouldAnnounce sorted_so (step (EvReconcile webReq) (announced1, moved)).1 addr21 "eth0" = dropReasonAnnounceIP.
Proof.
  destruct (policy_announced sorted_ro sorted_so None "node1" taken0 (announced1, moved) webReq (mkNN "ns1" "web") moved
    (Some (statusOf "10.6.1.21" "fd00::21" "node2")) (step (EvReconcile webReq) (announced1, moved)) done_ run2 eq_refl eq_refl) as [Hgone _].
  - vm_compute. reflexivity.
  - destruct (Hgone eq_refl) as [Hn Ha]. split; [exact Hn|]. apply Ha; [apply addr21_valid|].
    intros name Hname Hin. apply elem_of_union in Hin as [Hin|Hin]; apply elem_of_singleton, (f_equal fst) in Hin; exact (Hname Hin).
Defined.

(** ** Where the code falls short *)

(** When the address of a policy changes and the policy stays on its node, the old address is announced for ever after. *)
Example old_address_still_announced :
  let x := steps [EvReconcile webReq] (newAnnounce, world0) in
  let w := lw_store {[ "ns1/web" := statusOf "10.6.1.99" "fd00::21" "node1" ]} x.2 in
  shouldAnnounce sorted_so (step (EvReconcile webReq) (x.1, w)).1 addr21 "eth0" = dropReasonNone.
Proof. vm_compute. reflexivity. Qed.

(** An interface that is found after an address was set does not join the address's group; when the address is given up its count
    of the group becomes negative, and the group is not joined for the next address of the group either. *)
Example late_interface_never_joins :
  let x := steps [EvReconcile webReq; EvInterfaces] (newAnnounce, world0) in
  let gone := step (EvReconcile webReq) (x.1, lw_store ∅ x.2) in
  let back := step (EvReconcile webReq) (gone.1, lw_store (lw_policies world0) gone.2) in
  lw_groups x.2 = ∅ ∧ lw_groups back.2 = ∅ ∧ lw_groups (steps [EvInterfaces; EvReconcile webReq] (newAnnounce, world0)).2 = {[("eth0", "ff02::1:ff00:21")]}.
Proof. intros x gone back. apply (bool_decide_unpack _). vm_compute. exact I. Qed.
