(* ===== verification/Netlink.v ===== *)
(** * The kernel's network configuration

    The calls of [netlink] the agent makes, as an interface: policy rules, routes,
    links, addresses and neighbours.  [NetlinkLaws] is what the agent relies on: each
    call that succeeds has its effect on the configuration [kern], each call that
    fails has none. *)

From S2P Require Import Prelude GoStd GoNet Types ApiServer Triple.
Open Scope Z_scope.

(** ** Data *)

Definition FAMILY_V4 : Z := 2.
Definition FAMILY_V6 : Z := 10.
Definition AF_BRIDGE : Z := 7.
(** [nl.GetIPFamily]. *)
Definition GetIPFamily (ip : IP) : Z :=
  if decide (length ip <= 4)%nat then FAMILY_V4 else if decide (To4 ip ≠ []) then FAMILY_V4 else FAMILY_V6.

(** A policy rule; [rl_Rest] stands for the selectors the agent does not look at.  A rule
    that was listed has no family. *)
Record Rule := mkRule { rl_Priority : Z; rl_Family : Z; rl_Table : Z; rl_Mark : Z; rl_Rest : string }.
#[export] Instance Rule_eq_dec : EqDecision Rule.
Proof. solve_decision. Defined.
Definition NewRule : Rule := mkRule (-1) 0 0 (-1) "".
Definition set_rl_Family (f : Z) (r : Rule) : Rule := mkRule (rl_Priority r) f (rl_Table r) (rl_Mark r) (rl_Rest r).

(** A route; [rt_Rest] stands for the fields the agent does not look at. *)
Record Route := mkRoute { rt_LinkIndex : Z; rt_Gw : IP; rt_Table : Z; rt_Family : Z; rt_Rest : string }.
#[export] Instance Route_eq_dec : EqDecision Route.
Proof. solve_decision. Defined.

(** [netlink.Vxlan], with the attributes of the link the agent uses. *)
Record Vxlan := mkVxlan {
  vx_Name : string; vx_Index : Z; vx_HardwareAddr : list Z;
  vx_VxlanId : Z; vx_VtepDevIndex : Z; vx_SrcAddr : IP; vx_Group : IP; vx_L2miss : bool; vx_Port : Z
}.
(** A link is a vxlan device or has another type. *)
Inductive Link := LinkVxlan (v : Vxlan) | LinkOther (name : string) (index : Z) (typ : string).
Definition link_Name (l : Link) : string := match l with LinkVxlan v => vx_Name v | LinkOther n _ _ => n end.
Definition link_Index (l : Link) : Z := match l with LinkVxlan v => vx_Index v | LinkOther _ i _ => i end.
Definition link_Type (l : Link) : string := match l with LinkVxlan _ => "vxlan" | LinkOther _ _ t => t end.

(** [netlink.Addr]. *)
Record Addr := mkAddr { ad_IPNet : IPNet; ad_Rest : string }.
#[export] Instance IPNet_eq_dec : EqDecision IPNet.
Proof. solve_decision. Defined.
#[export] Instance Addr_eq_dec : EqDecision Addr.
Proof. solve_decision. Defined.

(** [netlink.Neigh]. *)
Record Neigh := mkNeigh { ng_LinkIndex : Z; ng_Family : Z; ng_IP : IP; ng_HardwareAddr : list Z }.

Definition EEXIST : error := ErrNew "file exists".

(** ** The calls *)

Class Netlink (W : Type) := {
  (** All rules of a family, and all its routes. *)
  nlRules : Z → M W (list Rule);
  RuleDel : Rule → M W unit;
  RuleAdd : Rule → M W unit;
  nlRoutes : Z → M W (list Route);
  RouteDel : Route → M W unit;
  RouteAdd : Route → M W unit;
  LinkByName : string → M W Link;
  LinkByIndex : Z → M W Link;
  (** The index of the new link is written into the argument. *)
  LinkAdd : Vxlan → M W Z;
  LinkDel : Link → M W unit;
  LinkSetUp : Vxlan → M W unit;
  (** A link is found by its name when its index is not known. *)
  AddrList : string → Z → M W (list Addr);
  AddrDel : string → Addr → M W unit;
  AddrAdd : string → IPNet → M W unit;
  NeighList : Z → Z → M W (list Neigh);
  NeighSet : Neigh → M W unit;
  NeighDel : Neigh → M W unit;
  (** Files under [/proc/sys]: opening, and writing with the number of bytes written. *)
  procOpen : string → M W unit;
  procWrite : string → string → M W Z;
  EthtoolTXOff : string → M W unit
}.

(** [netlink.RuleListFiltered] with the mask [RT_FILTER_MARK], [netlink.RouteListFiltered]
    with the mask [RT_FILTER_TABLE]. *)
Definition RuleListFiltered {W} `{!Netlink W} (family : Z) (f : option Rule) : M W (list Rule) :=
  let* rules := nlRules family in
  mret (match f with Some f => filter (λ r, rl_Mark r = rl_Mark f) rules | None => rules end).
Definition RouteListFiltered {W} `{!Netlink W} (family table : Z) : M W (list Route) :=
  let* routes := nlRoutes family in
  mret (filter (λ r, table = 0 ∨ rt_Table r = table) routes).

(** ** The configuration *)

Record kernel := mkKernel {
  k_rules : gmap Z (list Rule);
  k_routes : gmap Z (list Route);
  k_links : gmap string Link;
  k_addrs : gmap (string * Z) (list Addr);
  (** Addresses by link index and text of the IP address. *)
  k_arp : gmap (Z * string) (list Z);
  (** Destinations by link index and hardware address. *)
  k_fdb : gmap (Z * list Z) IP
}.
Definition set_rules (f : Z) (l : list Rule) (k : kernel) : kernel :=
  mkKernel (<[f := l]> (k_rules k)) (k_routes k) (k_links k) (k_addrs k) (k_arp k) (k_fdb k).
Definition set_routes (f : Z) (l : list Route) (k : kernel) : kernel :=
  mkKernel (k_rules k) (<[f := l]> (k_routes k)) (k_links k) (k_addrs k) (k_arp k) (k_fdb k).
Definition set_addrs (n : string) (f : Z) (l : list Addr) (k : kernel) : kernel :=
  mkKernel (k_rules k) (k_routes k) (k_links k) (<[(n, f) := l]> (k_addrs k)) (k_arp k) (k_fdb k).
Definition set_arp (m : gmap (Z * string) (list Z)) (k : kernel) : kernel :=
  mkKernel (k_rules k) (k_routes k) (k_links k) (k_addrs k) m (k_fdb k).
Definition set_fdb (m : gmap (Z * list Z) IP) (k : kernel) : kernel :=
  mkKernel (k_rules k) (k_routes k) (k_links k) (k_addrs k) (k_arp k) m.
Definition rulesOf (k : kernel) (f : Z) : list Rule := default [] (k_rules k !! f).
Definition routesOf (k : kernel) (f : Z) : list Route := default [] (k_routes k !! f).
Definition addrsOf (k : kernel) (n : string) (f : Z) : list Addr := default [] (k_addrs k !! (n, f)).

(** ** What the calls do *)

Definition with_Index (i : Z) (v : Vxlan) : Vxlan :=
  mkVxlan (vx_Name v) i (vx_HardwareAddr v) (vx_VxlanId v) (vx_VtepDevIndex v) (vx_SrcAddr v) (vx_Group v) (vx_L2miss v) (vx_Port v).

(** A call that returns a value changes the configuration as [R] says; one that ends otherwise leaves it alone. *)
Definition effect {W A} (kern : W → kernel) (c : M W A) (R : kernel → A → kernel → Prop) : Prop :=
  ∀ w, match (c w).2 with Ret a => R (kern w) a (kern (c w).1) | _ => kern (c w).1 = kern w end.
(** A call that changes nothing and returns what [P] says. *)
Definition reads {W A} (kern : W → kernel) (c : M W A) (P : kernel → A → Prop) : Prop := effect kern c (λ k a k', P k a ∧ k' = k).

(** An address in the form in which the kernel lists it. *)
Definition canonicalIP (ip : IP) : Prop := if decide (GetIPFamily ip = FAMILY_V4) then length ip = 4%nat else length ip = 16%nat.

Class NetlinkLaws (W : Type) `{NL : !Netlink W} (kern : W → kernel) := {
  law_rules f : reads kern (nlRules f) (λ k l, l = rulesOf k f ∧ Forall (λ r, rl_Family r = 0) l);
  law_RuleDel r : effect kern (RuleDel r) (λ k _ k', ∃ l, rulesOf k (rl_Family r) ≡ₚ set_rl_Family 0 r :: l ∧ k' = set_rules (rl_Family r) l k);
  law_RuleAdd r : effect kern (RuleAdd r) (λ k _ k', ∃ r', rl_Priority r' = rl_Priority r ∧ rl_Table r' = rl_Table r ∧ rl_Mark r' = rl_Mark r ∧
    k' = set_rules (rl_Family r) (r' :: rulesOf k (rl_Family r)) k);
  law_routes f : reads kern (nlRoutes f) (λ k l, l = routesOf k f ∧ Forall (λ r, rt_Family r = f) l);
  law_RouteDel r : effect kern (RouteDel r) (λ k _ k', ∃ l, routesOf k (rt_Family r) ≡ₚ r :: l ∧ k' = set_routes (rt_Family r) l k);
  law_RouteAdd r : effect kern (RouteAdd r) (λ k _ k', ∃ r', IPString (rt_Gw r') = IPString (rt_Gw r) ∧ rt_Table r' = rt_Table r ∧ rt_LinkIndex r' = rt_LinkIndex r ∧
    k' = set_routes (GetIPFamily (rt_Gw r)) (r' :: routesOf k (GetIPFamily (rt_Gw r))) k);
  law_LinkByName n : reads kern (LinkByName n) (λ k l, k_links k !! n = Some l ∧ link_Name l = n);
  law_LinkByIndex i : reads kern (LinkByIndex i) (λ k l, k_links k !! link_Name l = Some l ∧ link_Index l = i);
  (** Making and removing a link may take routes, addresses and neighbours with it, but no rules. *)
  law_LinkAdd v : effect kern (LinkAdd v) (λ k i k', k_rules k' = k_rules k ∧ k_links k' = <[vx_Name v := LinkVxlan (with_Index i v)]> (k_links k) ∧
    ∀ n l, n ≠ vx_Name v → k_links k !! n = Some l → link_Index l ≠ i);
  law_LinkDel l : effect kern (LinkDel l) (λ k _ k', k_rules k' = k_rules k ∧ k_links k' = delete (link_Name l) (k_links k));
  law_LinkSetUp v : reads kern (LinkSetUp v) (λ _ _, True);
  law_AddrList n f : reads kern (AddrList n f) (λ k l, l = addrsOf k n f ∧ Forall (λ a, GetIPFamily (net_IP (ad_IPNet a)) = f) l);
  law_AddrDel n a : effect kern (AddrDel n a) (λ k _ k', ∃ l, addrsOf k n (GetIPFamily (net_IP (ad_IPNet a))) ≡ₚ a :: l ∧
    k' = set_addrs n (GetIPFamily (net_IP (ad_IPNet a))) l k);
  law_AddrAdd n ipn : canonicalIP (net_IP ipn) → effect kern (AddrAdd n ipn) (λ k _ k', ∃ rest,
    k' = set_addrs n (GetIPFamily (net_IP ipn)) (mkAddr ipn rest :: addrsOf k n (GetIPFamily (net_IP ipn))) k);
  law_NeighList i f : reads kern (NeighList i f) (λ k l,
    (∀ nb, nb ∈ l → ng_LinkIndex nb = i ∧ ng_Family nb = f ∧ k_arp k !! (i, IPString (ng_IP nb)) = Some (ng_HardwareAddr nb)) ∧
    (∀ ip mac, valid_ip ip → GetIPFamily ip = f → k_arp k !! (i, IPString ip) = Some mac →
      ∃ nb, nb ∈ l ∧ IPString (ng_IP nb) = IPString ip ∧ ng_HardwareAddr nb = mac));
  law_NeighSet nb : effect kern (NeighSet nb) (λ k _ k',
    k' = if decide (ng_Family nb = AF_BRIDGE) then set_fdb (<[(ng_LinkIndex nb, ng_HardwareAddr nb) := ng_IP nb]> (k_fdb k)) k
         else set_arp (<[(ng_LinkIndex nb, IPString (ng_IP nb)) := ng_HardwareAddr nb]> (k_arp k)) k);
  law_NeighDel nb : effect kern (NeighDel nb) (λ k _ k',
    k' = if decide (ng_Family nb = AF_BRIDGE) then set_fdb (delete (ng_LinkIndex nb, ng_HardwareAddr nb) (k_fdb k)) k
         else set_arp (delete (ng_LinkIndex nb, IPString (ng_IP nb)) (k_arp k)) k);
  law_procOpen p : reads kern (procOpen p) (λ _ _, True);
  law_procWrite p v : reads kern (procWrite p v) (λ _ _, True);
  law_EthtoolTXOff n : reads kern (EthtoolTXOff n) (λ _ _, True)
}.

(** ** Triples over the configuration *)

Section triples.
Context {W : Type} (kern : W → kernel).
(** What holds of the configuration. *)
Definition onK (P : kernel → Prop) : W → Prop := λ w, P (kern w).
Lemma tri_effect {A} (c : M W A) R (P E : kernel → Prop) (Q : A → kernel → Prop) : effect kern c R →
  (∀ k a k', P k → R k a k' → Q a k') → (∀ k, P k → E k) → tri (onK P) c (λ a, onK (Q a)) (onK E).
Proof.
  intros Hc HQ HE w Hw. specialize (Hc w). unfold onK in *. destruct (c w) as [w' [a|e|p|]]; simpl in *.
  - by eapply HQ.
  - rewrite Hc. auto.
  - rewrite Hc. auto.
  - rewrite Hc. auto.
Qed.
Lemma tri_reads {A} (c : M W A) R (P E : kernel → Prop) : reads kern c R → (∀ k, P k → E k) → tri (onK P) c (λ a, onK (λ k, P k ∧ R k a)) (onK E).
Proof. intros Hc HE. eapply tri_effect; [exact Hc| |done]. by intros k a k' HP [HR ->]. Qed.
(** A call whose result does not matter for what follows. *)
Lemma tri_skip {A B} (c : M W A) R (P E : kernel → Prop) (k : A → M W B) Q : reads kern c R → (∀ k, P k → E k) →
  (∀ a, tri (onK P) (k a) Q (onK E)) → tri (onK P) (mbind_ c k) Q (onK E).
Proof.
  intros Hc HE Hk. eapply tri_bind; [by eapply tri_reads|]. intros a. eapply tri_pre; [|apply Hk]. by intros w [? _].
Qed.
End triples.

(** ** Loops that delete from a list of the kernel *)

Lemma filter_none {A} (P : A → Prop) `{!∀ x, Decision (P x)} l : Forall (λ x, ¬ P x) l → filter P l = [].
Proof.
  induction l as [|x l IH]; [done|]. intros [Hx Hl]%Forall_cons. rewrite filter_cons_False by done. auto.
Qed.
Lemma filter_all {A} (P : A → Prop) `{!∀ x, Decision (P x)} l : Forall P l → filter P l = l.
Proof. induction l as [|x l IH]; [done|]. intros [Hx Hl]%Forall_cons. rewrite filter_cons_True, IH by done. done. Qed.
Lemma Forall_filter_in {A} (P : A → Prop) `{!∀ x, Decision (P x)} (l : list A) : Forall P (filter P l).
Proof. apply Forall_forall. by intros x [? _]%list_elem_of_filter. Qed.
Lemma Forall_filter_keep {A} (P Q : A → Prop) `{!∀ x, Decision (P x)} (l : list A) : Forall Q l → Forall Q (filter P l).
Proof. rewrite !Forall_forall. intros HQ x [_ ?]%list_elem_of_filter. auto. Qed.
Lemma filter_split {A} (P : A → Prop) `{!∀ x, Decision (P x)} (l : list A) : l ≡ₚ filter P l ++ filter (λ x, ¬ P x) l.
Proof.
  induction l as [|x l IH]; [done|]. destruct (decide (P x)).
  - rewrite filter_cons_True, (filter_cons_False (λ x, ¬ P x)) by auto. simpl. by constructor.
  - rewrite filter_cons_False, (filter_cons_True (λ x, ¬ P x)) by auto. rewrite <- Permutation_middle. by constructor.
Qed.
Lemma Permutation_remove {A} (x : A) l a b : a ++ x :: b ≡ₚ x :: l → l ≡ₚ a ++ b.
Proof. intros H. symmetry. apply (Permutation_cons_inv (a := x)). by rewrite Permutation_middle. Qed.

(** What is left of a list when the elements that are [bad], in the light of those before them, are taken away. *)
Section sweep.
Context {A B : Type} (bad : A → B → bool) (upd : A → B → B).
Fixpoint sweep (l : list A) (b : B) : list A * B :=
  match l with
  | [] => ([], b)
  | x :: l' => if bad x b then sweep l' b else let '(ks, b') := sweep l' (upd x b) in (x :: ks, b')
  end.

(** What is left when some bad elements are gone. *)
Definition left_of (l ks : list A) : Prop := ∃ gone, l ≡ₚ ks ++ gone ∧ Forall (λ x, ∃ b, bad x b = true) gone.
Lemma left_of_all l : left_of l l.
Proof. exists []. by rewrite app_nil_r. Qed.
Lemma left_of_bad x b l ks : bad x b = true → left_of l ks → left_of (x :: l) ks.
Proof. intros Hx (gone & Hl & Hg). exists (x :: gone). split; [by rewrite Hl, <- Permutation_middle|]. apply Forall_cons. eauto. Qed.
Lemma left_of_keep x l ks : left_of l ks → left_of (x :: l) (x :: ks).
Proof. intros (gone & Hl & Hg). exists gone. split; [by rewrite Hl|done]. Qed.
Lemma left_of_elem l ks x : left_of l ks → x ∈ ks → x ∈ l.
Proof. intros (gone & -> & _) Hx. apply elem_of_app. by left. Qed.

Context {W : Type} (kern : W → kernel) (cur : kernel → list A) (F : kernel → Prop) (f : A → B → M W B).
(** A loop that lists the elements and deletes the bad ones one by one. *)
Lemma tri_sweep l b others :
  (∀ x b, x ∈ l → if bad x b
    then ∀ X, tri (onK kern (λ k, cur k ≡ₚ x :: X ∧ F k)) (f x b) (λ b', onK kern (λ k, b' = b ∧ cur k ≡ₚ X ∧ F k)) (onK kern (λ k, cur k ≡ₚ x :: X ∧ F k))
    else f x b = mret (upd x b)) →
  tri (onK kern (λ k, cur k ≡ₚ l ++ others ∧ F k)) (mforeach f l b)
    (λ b', onK kern (λ k, b' = (sweep l b).2 ∧ cur k ≡ₚ (sweep l b).1 ++ others ∧ F k))
    (onK kern (λ k, (∃ ks, left_of l ks ∧ cur k ≡ₚ ks ++ others) ∧ F k)).
Proof.
  revert b others. induction l as [|x l IH]; intros b others Hf; cbn [mforeach sweep].
  { apply tri_ret. intros w [? ?]. done. }
  assert (∀ b others, tri (onK kern (λ k, cur k ≡ₚ l ++ others ∧ F k)) (mforeach f l b)
    (λ b', onK kern (λ k, b' = (sweep l b).2 ∧ cur k ≡ₚ (sweep l b).1 ++ others ∧ F k))
    (onK kern (λ k, (∃ ks, left_of l ks ∧ cur k ≡ₚ ks ++ others) ∧ F k))) as IHl.
  { intros b' others'. apply IH. intros y b'' Hy. apply Hf. by apply list_elem_of_further. }
  pose proof (Hf x b (list_elem_of_here _ _)) as Hx. destruct (bad x b) eqn:Ebad.
  - eapply (tri_bind _ _ _ (λ b', onK kern (λ k, b' = b ∧ cur k ≡ₚ l ++ others ∧ F k))).
    + eapply tri_post; [apply (Hx (l ++ others))|by auto|]. intros w [Hc HF]. split; [|done]. exists (x :: l). split; [apply left_of_all|done].
    + intros b'. apply tri_here. intros w (-> & Hc & HF). eapply tri_pre; [|eapply tri_post; [apply (IHl b others)|by auto|]].
      * by intros ? ->.
      * intros w' [(ks & Hks & Hc') HF']. split; [|done]. exists ks. split; [by eapply left_of_bad|done].
  - rewrite Hx. destruct (sweep l (upd x b)) as [ks b'] eqn:E. simpl.
    change (mbind_ (mret (upd x b)) ?k) with (k (upd x b)). cbv beta.
    eapply tri_pre; [|eapply tri_post; [apply (IHl (upd x b) (x :: others))| |]].
    + intros w [Hc HF]. split; [|done]. by rewrite Hc, <- Permutation_middle.
    + intros b'' w (-> & Hc & HF). rewrite E in *. simpl in *. split_and!; [done| |done]. by rewrite Hc, <- Permutation_middle.
    + intros w [(ks' & Hks & Hc) HF]. split; [|done]. exists (x :: ks'). split; [by apply left_of_keep|]. by rewrite Hc, <- Permutation_middle.
Qed.
End sweep.
