(* ===== verification/Route.v ===== *)
(** * Rules and routes of a peer ([pkg/agent/route/route.go])

    A packet with the mark of a node is sent to that node through its own routing
    table.  The calls bring the kernel's rules and routes in line, whatever they were. *)

From S2P Require Import Prelude GoStd GoNet Types MarkAllocator ApiServer Triple StateM Netlink.
Open Scope Z_scope.

Record RuleRoute := mkRuleRoute { rr_priority : Z }.
Definition NewRuleRoute (options : list (RuleRoute → RuleRoute)) : RuleRoute := foldl (λ r o, o r) (mkRuleRoute 99) options.
Definition WithPriority (priority : Z) (r : RuleRoute) : RuleRoute := mkRuleRoute priority.

Section route.
Context {W : Type} `{NL : !Netlink W} (r : RuleRoute).

(** The closure [clean]. *)
Definition cleanRules (marks : gset Z) (start end_ : Z) (rules : list Rule) (family : Z) : M W unit :=
  mforeach (λ rule _,
    let rule := set_rl_Family family rule in
    if decide (rl_Mark rule ∈ marks) then mret tt
    else if decide (start <= rl_Mark rule ∧ end_ >= rl_Mark rule) then RuleDel rule
    else mret tt) rules tt.
Definition PurgeStaleRules (marks : gset Z) (baseMark : string) : M W unit :=
  let* (start, end_) := lift (RangeSize baseMark) in
  let* rules := RuleListFiltered FAMILY_V4 None in
  let* _ := cleanRules marks start end_ rules FAMILY_V4 in
  let* rules := RuleListFiltered FAMILY_V6 None in
  cleanRules marks start end_ rules FAMILY_V6.

(** A nil address is [None]. *)
Definition EnsureRoute (link : Link) (ip : option IP) (family table : Z) : M W unit :=
  let* routes := RouteListFiltered family table in
  let* find := mforeach (λ route find,
    if decide (rt_Table route = table) then
      if match ip with None => true | Some ip => bool_decide (IPString (rt_Gw route) ≠ IPString ip) end then
        let* _ := RouteDel route in mret find
      else mret true
    else mret find) routes false in
  match ip with
  | None => mret tt
  | Some ip =>
      if find : bool then mret tt
      else RouteAdd (mkRoute (link_Index link) ip table 0 "")
  end.

Definition EnsureRule (family table mark : Z) : M W unit :=
  let t := mkRule (rl_Priority NewRule) family (rl_Table NewRule) mark (rl_Rest NewRule) in
  let* rules := RuleListFiltered family (Some t) in
  let* found := mforeach (λ rule found,
    let del := bool_decide (rl_Table rule ≠ table) || bool_decide (rl_Priority rule ≠ rr_priority r) || found in
    if del : bool then let* _ := RuleDel (set_rl_Family family rule) in mret found
    else mret true) rules false in
  if found : bool then mret tt
  else RuleAdd (mkRule (rr_priority r) family table mark (rl_Rest NewRule)).

Definition Ensure (linkName : string) (ipv4 ipv6 : option IP) (table mark : Z) : M W unit :=
  if decide (mark = 0) then mret tt
  else
    let* _ := (match ipv4 with Some _ => EnsureRule FAMILY_V4 table mark | None => mret tt end) in
    let* _ := (match ipv6 with Some _ => EnsureRule FAMILY_V6 table mark | None => mret tt end) in
    let* link := LinkByName linkName in
    let* _ := EnsureRoute link ipv4 FAMILY_V4 table in
    EnsureRoute link ipv6 FAMILY_V6 table.
End route.

(** ** What the kernel has afterwards *)

(** The rules of a mark are one rule to the table, with the priority. *)
Definition ruleIs (priority table mark : Z) (k : kernel) (family : Z) : Prop :=
  ∃ rule, filter (λ r, rl_Mark r = mark) (rulesOf k family) = [rule] ∧ rl_Table rule = table ∧ rl_Priority rule = priority.
(** The routes of a table lead to the address. *)
Definition routeIs (ip : option IP) (table : Z) (k : kernel) (family : Z) : Prop :=
  match ip with
  | None => filter (λ r, rt_Table r = table) (routesOf k family) = []
  | Some ip => (∃ r, r ∈ filter (λ r, rt_Table r = table) (routesOf k family)) ∧
               Forall (λ r, IPString (rt_Gw r) = IPString ip) (filter (λ r, rt_Table r = table) (routesOf k family))
  end.
(** The configurations differ at most in the rules of a mark, in the routes of a table. *)
Definition sameRulesBut (mark : Z) (k k' : kernel) (family : Z) : Prop :=
  filter (λ r, rl_Mark r ≠ mark) (rulesOf k' family) ≡ₚ filter (λ r, rl_Mark r ≠ mark) (rulesOf k family).
Definition sameRoutesBut (table : Z) (k k' : kernel) (family : Z) : Prop :=
  filter (λ r, rt_Table r ≠ table) (routesOf k' family) ≡ₚ filter (λ r, rt_Table r ≠ table) (routesOf k family).

(** All but the rules, all but the routes. *)
Definition sameButRules (k k' : kernel) : Prop :=
  k_routes k' = k_routes k ∧ k_links k' = k_links k ∧ k_addrs k' = k_addrs k ∧ k_arp k' = k_arp k ∧ k_fdb k' = k_fdb k.
Definition sameButRoutes (k k' : kernel) : Prop :=
  k_rules k' = k_rules k ∧ k_links k' = k_links k ∧ k_addrs k' = k_addrs k ∧ k_arp k' = k_arp k ∧ k_fdb k' = k_fdb k.
Definition rulesFrame (family mark : Z) (k k' : kernel) : Prop :=
  sameRulesBut mark k k' family ∧ (∀ f, f ≠ family → rulesOf k' f = rulesOf k f) ∧ sameButRules k k'.
Definition routesFrame (family table : Z) (k k' : kernel) : Prop :=
  sameRoutesBut table k k' family ∧ (∀ f, f ≠ family → routesOf k' f = routesOf k f) ∧ sameButRoutes k k'.

Lemma rulesOf_set k f l f' : rulesOf (set_rules f l k) f' = if decide (f' = f) then l else rulesOf k f'.
Proof. unfold rulesOf. cbn [set_rules k_rules]. case_decide as H; [by rewrite H, lookup_insert_eq|by rewrite lookup_insert_ne]. Qed.
Lemma routesOf_set k f l f' : routesOf (set_routes f l k) f' = if decide (f' = f) then l else routesOf k f'.
Proof. unfold routesOf. cbn [set_routes k_routes]. case_decide as H; [by rewrite H, lookup_insert_eq|by rewrite lookup_insert_ne]. Qed.
Lemma rulesOf_set_eq k f l : rulesOf (set_rules f l k) f = l.
Proof. by rewrite rulesOf_set, decide_True. Qed.
Lemma rulesOf_set_ne k f l f' : f' ≠ f → rulesOf (set_rules f l k) f' = rulesOf k f'.
Proof. intros. by rewrite rulesOf_set, decide_False. Qed.
Lemma routesOf_set_eq k f l : routesOf (set_routes f l k) f = l.
Proof. by rewrite routesOf_set, decide_True. Qed.
Lemma routesOf_set_ne k f l f' : f' ≠ f → routesOf (set_routes f l k) f' = routesOf k f'.
Proof. intros. by rewrite routesOf_set, decide_False. Qed.
Lemma set_rl_Family_0 f rule : rl_Family rule = 0 → set_rl_Family 0 (set_rl_Family f rule) = rule.
Proof. intros H. destruct rule. simpl in *. by subst. Qed.


Lemma rulesFrame_refl family mark k : rulesFrame family mark k k.
Proof. split_and!; [unfold sameRulesBut|..]; done. Qed.
Lemma routesFrame_refl family table k : routesFrame family table k k.
Proof. split_and!; [unfold sameRoutesBut|..]; done. Qed.

Section theorems.
Context {W : Type} `{NL : !Netlink W} (kern : W → kernel) `{HL : !NetlinkLaws W kern} (r : RuleRoute).

(** *** Rules *)

(** Deleting a rule that was listed. *)
Lemma tri_RuleDel family rule X (F : kernel → Prop) : rl_Family rule = 0 → (∀ k l, F k → F (set_rules family l k)) →
  tri (onK kern (λ k, rulesOf k family ≡ₚ rule :: X ∧ F k)) (RuleDel (set_rl_Family family rule))
    (λ _, onK kern (λ k, rulesOf k family ≡ₚ X ∧ F k)) (onK kern (λ k, rulesOf k family ≡ₚ rule :: X ∧ F k)).
Proof.
  intros H0 HF. eapply tri_effect; [apply law_RuleDel| |done]. cbn [rl_Family set_rl_Family]. intros k [] k' [Hk Hf] (l & Hl & ->).
  change (set_rl_Family 0 (set_rl_Family family rule) :: l) with ([set_rl_Family 0 (set_rl_Family family rule)] ++ l) in Hl.
  rewrite set_rl_Family_0 in Hl by done. rewrite rulesOf_set_eq. split; [|by apply HF]. symmetry. apply (Permutation_remove rule X [] l). by rewrite <- Hl.
Qed.

Definition badRule (table : Z) (rule : Rule) (found : bool) : bool :=
  bool_decide (rl_Table rule ≠ table) || bool_decide (rl_Priority rule ≠ rr_priority r) || found.
Definition goodRule (table : Z) (rule : Rule) : Prop := rl_Table rule = table ∧ rl_Priority rule = rr_priority r.
Lemma sweep_found table l : sweep (badRule table) (λ _ _, true) l true = ([], true).
Proof. induction l as [|x l IH]; [done|]. simpl. unfold badRule at 1. by rewrite orb_true_r. Qed.
Lemma sweep_rules table l ks b : sweep (badRule table) (λ _ _, true) l false = (ks, b) →
  if b then ∃ rule, ks = [rule] ∧ rule ∈ l ∧ goodRule table rule else ks = [].
Proof.
  induction l as [|x l IH]; simpl; [by intros [= <- <-]|]. destruct (badRule table x false) eqn:E.
  - intros H%IH. destruct b; [|done]. destruct H as (rule & -> & ? & ?). exists rule. split_and!; [done|by apply list_elem_of_further|done].
  - rewrite sweep_found. intros [= <- <-]. exists x. split_and!; [done|apply list_elem_of_here|].
    unfold badRule in E. rewrite orb_false_r in E. apply orb_false_iff in E as [E1%bool_decide_eq_false E2%bool_decide_eq_false].
    split; by apply dec_stable.
Qed.

(** The rules of other marks, and everything that is no rule of the family, stay. *)
Definition ruleRest (family mark : Z) (k0 k : kernel) : Prop := (∀ f, f ≠ family → rulesOf k f = rulesOf k0 f) ∧ sameButRules k0 k.
Lemma ruleRest_set family mark k0 k l : ruleRest family mark k0 k → ruleRest family mark k0 (set_rules family l k).
Proof. intros [Hf Hs]. split; [|done]. intros f Hne. rewrite rulesOf_set_ne by done. auto. Qed.
Lemma others_frame family mark k0 k ks : Forall (λ x, rl_Mark x = mark) ks →
  rulesOf k family ≡ₚ ks ++ filter (λ x, ¬ rl_Mark x = mark) (rulesOf k0 family) → ruleRest family mark k0 k → rulesFrame family mark k0 k.
Proof.
  intros Hks Hk [Hf Hs]. split_and!; [|done|done]. unfold sameRulesBut. rewrite Hk, filter_app, filter_none.
  - rewrite app_nil_l. rewrite filter_all; [done|]. apply Forall_filter_in.
  - eapply Forall_impl; [exact Hks|]. intros x ->. by intros [].
Qed.
Lemma others_rule family table mark k0 k rule : rl_Mark rule = mark → goodRule table rule →
  rulesOf k family ≡ₚ [rule] ++ filter (λ x, ¬ rl_Mark x = mark) (rulesOf k0 family) → ruleIs (rr_priority r) table mark k family.
Proof.
  intros Hm [Ht Hp] Hk. exists rule. split_and!; [|done|done]. apply Permutation_singleton_r.
  rewrite Hk, filter_app, filter_cons_True, filter_nil by done. rewrite (filter_none _ (filter _ _)); [done|].
  apply Forall_forall. by intros x [? _]%list_elem_of_filter.
Qed.

Lemma tri_EnsureRule family table mark k0 :
  tri (onK kern (λ k, k = k0)) (EnsureRule r family table mark)
    (λ _, onK kern (λ k, ruleIs (rr_priority r) table mark k family ∧ rulesFrame family mark k0 k)) (onK kern (rulesFrame family mark k0)).
Proof.
  unfold EnsureRule, RuleListFiltered. cbn [rl_Mark].
  set (l := filter (λ x, rl_Mark x = mark) (rulesOf k0 family)). set (others := filter (λ x, ¬ rl_Mark x = mark) (rulesOf k0 family)).
  assert (Forall (λ x, rl_Mark x = mark) l) as Hm by apply Forall_filter_in.
  pose proof (rulesFrame_refl family mark k0) as Hrefl.
  eapply (tri_bind _ _ _ (λ rules, onK kern (λ k, k = k0 ∧ rules = l ∧ Forall (λ x, rl_Family x = 0) l))).
  { eapply (tri_bind _ _ _ (λ rules, onK kern (λ k, k = k0 ∧ rules = rulesOf k0 family ∧ Forall (λ x, rl_Family x = 0) rules))).
    - eapply tri_post; [eapply (tri_reads kern _ _ (λ k, k = k0) (rulesFrame family mark k0)); [apply law_rules|by intros ? ->]| |done]; unfold onK.
      intros a w (-> & -> & ?). done.
    - intros rules. apply tri_ret. unfold onK. intros w (-> & -> & Hz). split_and!; [done|done|]. by apply Forall_filter_keep. }
  intros rules. apply tri_here. intros w (Hw & -> & Hz). destruct (sweep (badRule table) (λ _ _, true) l false) as [ks b] eqn:E.
  eapply (tri_bind _ _ _ (λ b', onK kern (λ k, b' = b ∧ rulesOf k family ≡ₚ ks ++ others ∧ ruleRest family mark k0 k))).
  - eapply tri_pre; [|eapply tri_post; [apply (tri_sweep (badRule table) (λ _ _, true) kern (λ k, rulesOf k family) (ruleRest family mark k0) _ l false others)| |]].
    + intros w' ->. unfold onK. rewrite Hw. split; [apply filter_split|done].
    + intros x b' Hx. rewrite Forall_forall in Hz. destruct (badRule table x b') eqn:Eb.
      * intros X. unfold badRule in Eb. rewrite Eb. eapply tri_seq; [apply tri_RuleDel; [by apply Hz|intros; by apply ruleRest_set]|].
        apply tri_ret. by intros ? [? ?].
      * unfold badRule in Eb. by rewrite Eb.
    + rewrite E. by intros.
    + intros w' [(ks' & Hks & Hc) HF]. eapply others_frame; [|exact Hc|exact HF]. apply Forall_forall. intros x Hx. eapply left_of_elem in Hx; [|exact Hks]. by eapply Forall_forall in Hm.
  - intros b'. apply tri_here. intros w' (-> & Hc & HF). eapply (tri_pre _ (onK kern (λ k, rulesOf k family ≡ₚ ks ++ others ∧ ruleRest family mark k0 k))); [by intros ? ->|].
    apply sweep_rules in E. destruct b.
    + destruct E as (rule & -> & Hin & Hg). eapply Forall_forall in Hm as Hrm; [|exact Hin]. apply tri_ret. intros w'' [Hc' HF'].
      split; [by eapply others_rule|]. eapply others_frame; [|exact Hc'|done]. by apply Forall_singleton.
    + subst ks. eapply tri_effect; [apply law_RuleAdd| |].
      * cbn [rl_Family rl_Priority rl_Table rl_Mark]. intros k [] k' [Hc' HF'] (rule & Hp & Ht & Hrm & ->).
        split; [eapply (others_rule _ _ _ k0)|eapply (others_frame _ _ k0 _ [rule])]; try done.
        -- rewrite rulesOf_set_eq. simpl. by constructor.
        -- by apply Forall_singleton.
        -- rewrite rulesOf_set_eq. simpl. by constructor.
        -- by apply ruleRest_set.
      * intros k [Hc' HF']. by eapply (others_frame _ _ k0 _ []).
Qed.

(** *** Routes *)

Definition badRoute (ip : option IP) (route : Route) (_ : bool) : bool :=
  match ip with None => true | Some ip => bool_decide (IPString (rt_Gw route) ≠ IPString ip) end.
Lemma sweep_routes ip l b ks b' : sweep (badRoute ip) (λ _ _, true) l b = (ks, b') →
  Forall (λ x, x ∈ l ∧ badRoute ip x true = false) ks ∧ (b' = true ↔ b = true ∨ ks ≠ []).
Proof.
  revert b ks. induction l as [|x l IH]; intros b ks; simpl.
  { intros [= <- <-]. split; [by constructor|]. naive_solver. }
  destruct (badRoute ip x b) eqn:E.
  - intros [Hks Hb]%IH. split; [|done]. eapply Forall_impl; [exact Hks|]. intros y [? ?]. split; [by apply list_elem_of_further|done].
  - destruct (sweep _ _ l true) as [ks1 b1] eqn:E1. intros [= <- <-]. apply IH in E1 as [Hks Hb]. split; [|naive_solver].
    apply Forall_cons. split; [split; [apply list_elem_of_here|exact E]|].
    eapply Forall_impl; [exact Hks|]. intros y [? ?]. split; [by apply list_elem_of_further|done].
Qed.

Definition routeRest (family : Z) (k0 k : kernel) : Prop := (∀ f, f ≠ family → routesOf k f = routesOf k0 f) ∧ sameButRoutes k0 k.
Lemma routeRest_set family k0 k l : routeRest family k0 k → routeRest family k0 (set_routes family l k).
Proof. intros [Hf Hs]. split; [|done]. intros f Hne. rewrite routesOf_set_ne by done. auto. Qed.
Lemma others_routes family table k0 k ks : Forall (λ x, rt_Table x = table) ks →
  routesOf k family ≡ₚ ks ++ filter (λ x, ¬ rt_Table x = table) (routesOf k0 family) → routeRest family k0 k →
  routesFrame family table k0 k ∧ filter (λ x, rt_Table x = table) (routesOf k family) ≡ₚ ks.
Proof.
  intros Hks Hk [Hf Hs]. split; [split_and!; [|done|done]|].
  - unfold sameRoutesBut. rewrite Hk, filter_app, filter_none.
    + rewrite app_nil_l. rewrite filter_all; [done|]. apply Forall_filter_in.
    + eapply Forall_impl; [exact Hks|]. intros x Hx Hn. by apply Hn.
  - rewrite Hk, filter_app, (filter_all _ ks) by done. rewrite filter_none, app_nil_r; [done|].
    apply Forall_forall. by intros x [? _]%list_elem_of_filter.
Qed.
Lemma routeIs_perm ip table k family ks : filter (λ x, rt_Table x = table) (routesOf k family) ≡ₚ ks →
  match ip with None => ks = [] | Some ip => ks ≠ [] ∧ Forall (λ r, IPString (rt_Gw r) = IPString ip) ks end → routeIs ip table k family.
Proof.
  intros Hk. unfold routeIs. destruct ip as [ip|].
  - intros [Hne Hall]. split; [|by rewrite Hk]. destruct ks as [|x ks]; [done|]. exists x. rewrite Hk. apply list_elem_of_here.
  - intros ->. by apply Permutation_nil_r in Hk.
Qed.

Lemma tri_RouteDel family route X (F : kernel → Prop) : rt_Family route = family → (∀ k l, F k → F (set_routes family l k)) →
  tri (onK kern (λ k, routesOf k family ≡ₚ route :: X ∧ F k)) (RouteDel route)
    (λ _, onK kern (λ k, routesOf k family ≡ₚ X ∧ F k)) (onK kern (λ k, routesOf k family ≡ₚ route :: X ∧ F k)).
Proof.
  intros <- HF. eapply tri_effect; [apply law_RouteDel| |done]. intros k [] k' [Hk Hf] (l & Hl & ->).
  rewrite routesOf_set_eq. split; [|by apply HF]. symmetry. apply (Permutation_remove route X [] l). by rewrite <- Hl.
Qed.

(** Listing the routes of a table. *)
Lemma tri_listRoutes family table k0 (E : kernel → Prop) : table ≠ 0 → E k0 →
  tri (onK kern (λ k, k = k0)) (RouteListFiltered family table)
    (λ routes, onK kern (λ k, k = k0 ∧ routes = filter (λ x, rt_Table x = table) (routesOf k0 family) ∧ Forall (λ x, rt_Family x = family) routes)) (onK kern E).
Proof.
  intros Ht HE. eapply (tri_bind _ _ _ (λ routes, onK kern (λ k, k = k0 ∧ routes = routesOf k0 family ∧ Forall (λ x, rt_Family x = family) routes))).
  - eapply tri_post; [eapply (tri_reads kern _ _ (λ k, k = k0) E); [apply law_routes|by intros ? ->]| |done]. unfold onK. intros a w (-> & -> & ?). done.
  - intros routes. apply tri_ret. unfold onK. intros w (-> & -> & Hz).
    assert (filter (λ x, table = 0 ∨ rt_Table x = table) (routesOf k0 family) = filter (λ x, rt_Table x = table) (routesOf k0 family)) as ->.
    { apply list_filter_iff. naive_solver. }
    split_and!; [done|done|by apply Forall_filter_keep].
Qed.

(** The end of [EnsureRoute]: [ks] are the routes of the table that were kept. *)
Lemma tri_addRoute link ip family table k0 ks (b : bool) : Forall (λ x, rt_Table x = table) ks → Forall (λ x, badRoute ip x true = false) ks →
  (b = true ↔ ks ≠ []) → (∀ a, ip = Some a → GetIPFamily a = family) →
  tri (onK kern (λ k, routesOf k family ≡ₚ ks ++ filter (λ x, ¬ rt_Table x = table) (routesOf k0 family) ∧ routeRest family k0 k))
    (match ip with None => mret tt | Some ip => if b then mret tt else RouteAdd (mkRoute (link_Index link) ip table 0 "") end)
    (λ _, onK kern (λ k, routeIs ip table k family ∧ routesFrame family table k0 k)) (onK kern (routesFrame family table k0)).
Proof.
  intros Hks Hgood Hb Hip. destruct ip as [ip|].
  - assert (Forall (λ x, IPString (rt_Gw x) = IPString ip) ks) as Hall.
    { eapply Forall_impl; [exact Hgood|]. intros x Hx%bool_decide_eq_false. by apply dec_stable. }
    destruct b.
    + apply tri_ret. intros w [Hc HF]. destruct (others_routes _ _ _ _ _ Hks Hc HF) as [Hfr Hp]. split; [|done].
      eapply routeIs_perm; [exact Hp|]. split; [by apply Hb|done].
    + eapply tri_effect; [apply law_RouteAdd| |].
      * cbn [rt_Gw rt_Table]. intros k [] k' [Hc HF] (x & Hg & Hxt & _ & ->). rewrite (Hip ip) by done.
        destruct (others_routes family table k0 (set_routes family (x :: routesOf k family) k) (x :: ks)) as [Hfr Hp].
        -- by apply Forall_cons.
        -- rewrite routesOf_set_eq. simpl. by constructor.
        -- by apply routeRest_set.
        -- split; [|done]. eapply routeIs_perm; [exact Hp|]. split; [done|by apply Forall_cons].
      * intros k [Hc HF]. by destruct (others_routes _ _ _ _ _ Hks Hc HF).
  - assert (ks = []) as -> by (destruct ks; [done|]; by apply Forall_cons in Hgood as [? _]).
    apply tri_ret. intros w [Hc HF]. destruct (others_routes _ _ _ _ _ Hks Hc HF) as [Hfr Hp]. split; [|done].
    by eapply routeIs_perm.
Qed.

Lemma tri_EnsureRoute link ip family table k0 : table ≠ 0 → (∀ a, ip = Some a → GetIPFamily a = family) →
  tri (onK kern (λ k, k = k0)) (EnsureRoute link ip family table)
    (λ _, onK kern (λ k, routeIs ip table k family ∧ routesFrame family table k0 k)) (onK kern (routesFrame family table k0)).
Proof.
  intros Ht Hip. unfold EnsureRoute.
  set (l := filter (λ x, rt_Table x = table) (routesOf k0 family)). set (others := filter (λ x, ¬ rt_Table x = table) (routesOf k0 family)).
  assert (Forall (λ x, rt_Table x = table) l) as Hm by apply Forall_filter_in.
  eapply tri_bind; [apply (tri_listRoutes _ _ k0 (routesFrame family table k0)); [done|apply routesFrame_refl]|].
  intros routes. apply tri_here. intros w (Hw & -> & Hz). destruct (sweep (badRoute ip) (λ _ _, true) l false) as [ks b] eqn:E.
  eapply (tri_bind _ _ _ (λ b', onK kern (λ k, b' = b ∧ routesOf k family ≡ₚ ks ++ others ∧ routeRest family k0 k))).
  - eapply tri_pre; [|eapply tri_post; [apply (tri_sweep (badRoute ip) (λ _ _, true) kern (λ k, routesOf k family) (routeRest family k0) _ l false others)| |]].
    + intros w' ->. unfold onK. rewrite Hw. split; [apply filter_split|done].
    + intros x b' Hx. pose proof (proj1 (Forall_forall _ _) Hm x Hx) as Hxt. pose proof (proj1 (Forall_forall _ _) Hz x Hx) as Hxf. cbv beta in Hxf.
      rewrite (decide_True (P := rt_Table x = table)) by done. fold (badRoute ip x b'). destruct (badRoute ip x b'); [|done].
      intros X. eapply tri_seq; [apply tri_RouteDel; [done|intros; by apply routeRest_set]|]. apply tri_ret. by intros ? [? ?].
    + rewrite E. by intros.
    + intros w' [(ks' & Hks & Hc) HF]. eapply others_routes; [|exact Hc|exact HF]. apply Forall_forall. intros x Hx. eapply left_of_elem in Hx; [|exact Hks]. by eapply Forall_forall in Hm.
  - intros b'. apply tri_here. intros w' (-> & Hc & HF). eapply (tri_pre _ (onK kern (λ k, routesOf k family ≡ₚ ks ++ others ∧ routeRest family k0 k))); [by intros ? ->|].
    apply sweep_routes in E as [Hks Hb]. apply tri_addRoute; [|by eapply Forall_impl; [exact Hks|intros x [_ ?]]|naive_solver|done].
    eapply Forall_impl; [exact Hks|]. intros x [Hx _]. by eapply Forall_forall in Hm.
Qed.

(** *** A peer *)

(** Nothing but rules of the mark and routes of the table differs. *)
Definition peerFrame (mark table : Z) (k k' : kernel) : Prop :=
  (∀ f, sameRulesBut mark k k' f) ∧ (∀ f, sameRoutesBut table k k' f) ∧
  k_links k' = k_links k ∧ k_addrs k' = k_addrs k ∧ k_arp k' = k_arp k ∧ k_fdb k' = k_fdb k.
#[export] Instance peerFrame_preorder mark table : PreOrder (peerFrame mark table).
Proof.
  split.
  - intros k. unfold peerFrame, sameRulesBut, sameRoutesBut. split_and!; done.
  - intros k1 k2 k3 (Hr1 & Ht1 & Hl1 & Ha1 & Hp1 & Hf1) (Hr2 & Ht2 & Hl2 & Ha2 & Hp2 & Hf2). unfold peerFrame, sameRulesBut, sameRoutesBut in *.
    split_and!; [intros f; by rewrite Hr2, Hr1|intros f; by rewrite Ht2, Ht1|congruence..].
Qed.
Lemma rulesFrame_peer family mark table k k' : rulesFrame family mark k k' → peerFrame mark table k k'.
Proof.
  intros (Hm & Hf & Hr & Hl & Ha & Hp & Hd). split_and!; [|intros f; unfold sameRoutesBut, routesOf; by rewrite Hr|done..].
  intros f. destruct (decide (f = family)) as [->|Hne]; [done|]. unfold sameRulesBut. by rewrite Hf.
Qed.
Lemma routesFrame_peer family mark table k k' : routesFrame family table k k' → peerFrame mark table k k'.
Proof.
  intros (Hm & Hf & Hr & Hl & Ha & Hp & Hd). split_and!; [intros f; unfold sameRulesBut, rulesOf; by rewrite Hr| |done..].
  intros f. destruct (decide (f = family)) as [->|Hne]; [done|]. unfold sameRoutesBut. by rewrite Hf.
Qed.

(** Packets with the mark go to the table, whose routes lead to the peer. *)
Definition peerRouted (ipv4 ipv6 : option IP) (table mark : Z) (k : kernel) : Prop :=
  (is_Some ipv4 → ruleIs (rr_priority r) table mark k FAMILY_V4) ∧ (is_Some ipv6 → ruleIs (rr_priority r) table mark k FAMILY_V6) ∧
  routeIs ipv4 table k FAMILY_V4 ∧ routeIs ipv6 table k FAMILY_V6.

(** A step that starts in a state given by [P] and adds [Q], inside a frame. *)
Lemma tri_step {A} (c : M W A) (F : kernel → kernel → Prop) `{!PreOrder F} k0 (P : kernel → Prop) (Q : kernel → kernel → Prop) :
  (∀ k, tri (onK kern (λ k', k' = k)) c (λ _, onK kern (λ k', Q k k' ∧ F k k')) (onK kern (F k))) →
  tri (onK kern (λ k, P k ∧ F k0 k)) c (λ _, onK kern (λ k', (∃ k, P k ∧ Q k k') ∧ F k0 k')) (onK kern (F k0)).
Proof.
  intros Hc. apply tri_here. intros w [HP HF]. eapply tri_pre; [|eapply tri_post; [apply (Hc (kern w))| |]].
  - by intros ? ->.
  - intros a w' [HQ HF']. split; [by exists (kern w)|]. by etrans.
  - intros w' HF'. unfold onK in *. by etrans.
Qed.

Lemma tri_EnsureRule_opt (ip : option IP) family table mark k :
  tri (onK kern (λ k', k' = k)) (match ip with Some _ => EnsureRule r family table mark | None => mret tt end)
    (λ _, onK kern (λ k', ((is_Some ip → ruleIs (rr_priority r) table mark k' family) ∧ rulesFrame family mark k k') ∧ peerFrame mark table k k'))
    (onK kern (peerFrame mark table k)).
Proof.
  destruct ip as [ip|].
  - eapply tri_post; [apply tri_EnsureRule| |intros w' H; by eapply rulesFrame_peer]. intros _ w' [Hr Hf].
    split_and!; [done|done|by eapply rulesFrame_peer].
  - apply tri_ret. unfold onK. intros w' ->. split_and!; [by intros [? ?]|apply rulesFrame_refl|done].
Qed.

Lemma ruleIs_other p t m k k' f f' : rulesFrame f m k k' → f' ≠ f → ruleIs p t m k f' → ruleIs p t m k' f'.
Proof. intros (_ & Hf & _) Hne. unfold ruleIs. by rewrite Hf. Qed.
Lemma ruleIs_routes p t m k k' f f' t' : routesFrame f t' k k' → ruleIs p t m k f' → ruleIs p t m k' f'.
Proof. intros (_ & _ & Hr & _). unfold ruleIs, rulesOf. by rewrite Hr. Qed.
Lemma routeIs_other ip t k k' f f' t' : routesFrame f t' k k' → f' ≠ f → routeIs ip t k f' → routeIs ip t k' f'.
Proof. intros (_ & Hf & _) Hne. unfold routeIs. by rewrite Hf. Qed.

Lemma tri_Ensure linkName ipv4 ipv6 table mark k0 : mark ≠ 0 → table ≠ 0 →
  (∀ a, ipv4 = Some a → GetIPFamily a = FAMILY_V4) → (∀ a, ipv6 = Some a → GetIPFamily a = FAMILY_V6) →
  tri (onK kern (λ k, k = k0)) (Ensure r linkName ipv4 ipv6 table mark)
    (λ _, onK kern (λ k, peerRouted ipv4 ipv6 table mark k ∧ peerFrame mark table k0 k)) (onK kern (peerFrame mark table k0)).
Proof.
  intros Hmark Htable H4 H6. unfold Ensure. rewrite decide_False by done.
  eapply (tri_pre _ (onK kern (λ k, True ∧ peerFrame mark table k0 k))); [unfold onK; by intros w ->|].
  eapply tri_seq; [apply (tri_step _ (peerFrame mark table)), tri_EnsureRule_opt|]. eapply tri_seq; [apply (tri_step _ (peerFrame mark table)), tri_EnsureRule_opt|].
  eapply tri_skip; [apply law_LinkByName|by intros k [_ ?]|]. intros link.
  assert (∀ ip f k, (∀ a, ip = Some a → GetIPFamily a = f) → tri (onK kern (λ k', k' = k)) (EnsureRoute link ip f table)
    (λ _, onK kern (λ k', (routeIs ip table k' f ∧ routesFrame f table k k') ∧ peerFrame mark table k k')) (onK kern (peerFrame mark table k))) as Hroute.
  { intros ip f k Hf. eapply tri_post; [by apply tri_EnsureRoute| |intros w' H; by eapply routesFrame_peer].
    intros _ w' [? ?]. split_and!; [done|done|by eapply routesFrame_peer]. }
  eapply tri_seq; [apply (tri_step _ (peerFrame mark table)); intros k; by apply Hroute|].
  eapply tri_post; [apply (tri_step _ (peerFrame mark table)); intros k; by apply Hroute| |done].
  intros _ w [(k3 & (k2 & (k1 & (k & _ & Hr4 & _) & Hr6 & Hf6) & Ht4 & Hg4) & Ht6 & Hg6) Hfr]. split; [|done].
  split_and!; [| |by eapply routeIs_other|done].
  - intros Hs. eapply ruleIs_routes; [done|]. eapply ruleIs_routes; [done|]. eapply ruleIs_other; [done|done|auto].
  - intros Hs. eapply ruleIs_routes; [done|]. eapply ruleIs_routes; [done|auto].
Qed.

(** *** Stale rules *)

Definition staleRule (marks : gset Z) (start end_ : Z) (rule : Rule) : Prop := (rl_Mark rule ∉ marks) ∧ start <= rl_Mark rule <= end_.
#[local] Instance staleRule_dec marks start end_ rule : Decision (staleRule marks start end_ rule) := _.
Lemma sweep_stale marks start end_ l : (sweep (λ x (_ : unit), bool_decide (staleRule marks start end_ x)) (λ _ _, tt) l tt).1 = filter (λ x, ¬ staleRule marks start end_ x) l.
Proof.
  induction l as [|x l IH]; [done|]. cbn [sweep]. case_bool_decide as Hs.
  - rewrite filter_cons_False by auto. done.
  - rewrite filter_cons_True by done. rewrite <- IH. by destruct (sweep _ _ l tt).
Qed.

Section purge.
Context (marks : gset Z) (start end_ : Z).
(** The rules that are not stale stay. *)
Definition purgeFrame (k k' : kernel) : Prop :=
  (∀ f, filter (λ x, ¬ staleRule marks start end_ x) (rulesOf k' f) ≡ₚ filter (λ x, ¬ staleRule marks start end_ x) (rulesOf k f)) ∧ sameButRules k k'.
#[export] Instance purgeFrame_preorder : PreOrder purgeFrame.
Proof.
  split; [done|]. intros k1 k2 k3 [H1 (Hr1 & Hl1 & Ha1 & Hp1 & Hf1)] [H2 (Hr2 & Hl2 & Ha2 & Hp2 & Hf2)].
  split; [intros f; by rewrite H2, H1|]. split_and!; congruence.
Qed.
Lemma purge_family family k0 k : filter (λ x, ¬ staleRule marks start end_ x) (rulesOf k family) ≡ₚ filter (λ x, ¬ staleRule marks start end_ x) (rulesOf k0 family) →
  ruleRest family 0 k0 k → purgeFrame k0 k.
Proof. intros Hks [Hf Hs]. split; [|done]. intros f. destruct (decide (f = family)) as [->|Hne]; [done|by rewrite Hf]. Qed.

(** No stale rule of the family is left. *)
Definition purged (family : Z) (k : kernel) : Prop := Forall (λ x, ¬ staleRule marks start end_ x) (rulesOf k family).
Lemma tri_cleanRules family k0 : Forall (λ x, rl_Family x = 0) (rulesOf k0 family) →
  tri (onK kern (λ k, k = k0)) (cleanRules marks start end_ (rulesOf k0 family) family)
    (λ _, onK kern (λ k, (purged family k ∧ ∀ f, f ≠ family → rulesOf k f = rulesOf k0 f) ∧ purgeFrame k0 k)) (onK kern (purgeFrame k0)).
Proof.
  intros Hz. set (l := rulesOf k0 family).
  eapply tri_pre; [|eapply tri_post; [apply (tri_sweep (λ x (_ : unit), bool_decide (staleRule marks start end_ x)) (λ _ _, tt) kern
    (λ k, rulesOf k family) (ruleRest family 0 k0) _ l tt [])| |]].
  - unfold onK. intros w ->. rewrite app_nil_r. done.
  - intros x [] Hx. rewrite Forall_forall in Hz. cbn [set_rl_Family rl_Mark]. case_bool_decide as Hs.
    + intros X. destruct Hs as [Hm [H1 H2]]. rewrite decide_False, decide_True by (done || split; lia).
      eapply tri_post; [apply tri_RuleDel; [by apply Hz|intros; by apply ruleRest_set]| |done]. intros [] w [? ?]. done.
    + case_decide as Hm; [done|]. rewrite decide_False; [done|]. intros [H1 H2]. apply Hs. split; [done|lia].
  - rewrite sweep_stale, app_nil_r. intros a w (_ & Hc & HF). split.
    + split; [|by destruct HF]. unfold purged. rewrite Hc. apply Forall_filter_in.
    + eapply purge_family; [|exact HF]. rewrite Hc. rewrite filter_all; [done|]. apply Forall_filter_in.
  - intros w [(ks & (gone & Hl & Hg) & Hc) HF]. eapply purge_family; [|exact HF]. fold l. rewrite Hc, Hl, app_nil_r, filter_app, (filter_none _ gone), app_nil_r; [done|].
    eapply Forall_impl; [exact Hg|]. intros x [b Hb%bool_decide_eq_true]. auto.
Qed.

Lemma tri_listRules family k0 (E : kernel → Prop) : E k0 →
  tri (onK kern (λ k, k = k0)) (RuleListFiltered family None)
    (λ rules, onK kern (λ k, k = k0 ∧ rules = rulesOf k0 family ∧ Forall (λ x, rl_Family x = 0) (rulesOf k0 family))) (onK kern E).
Proof.
  intros HE. eapply (tri_bind _ _ _ (λ rules, onK kern (λ k, k = k0 ∧ rules = rulesOf k0 family ∧ Forall (λ x, rl_Family x = 0) (rulesOf k0 family)))).
  - eapply tri_post; [eapply (tri_reads kern _ _ (λ k, k = k0) E); [apply law_rules|by intros ? ->]| |done]. unfold onK. intros a w (-> & -> & ?). done.
  - intros rules. apply tri_ret. by unfold onK.
Qed.
Lemma tri_purgeFamily family k : 
  tri (onK kern (λ k', k' = k)) (let* rules := RuleListFiltered family None in cleanRules marks start end_ rules family)
    (λ _, onK kern (λ k', (purged family k' ∧ ∀ f, f ≠ family → rulesOf k' f = rulesOf k f) ∧ purgeFrame k k')) (onK kern (purgeFrame k)).
Proof.
  eapply tri_bind; [by apply (tri_listRules family k (purgeFrame k))|]. intros rules. apply tri_here. intros w (Hw & -> & Hz).
  eapply tri_pre; [|by apply tri_cleanRules]. by intros ? ->.
Qed.
End purge.

Lemma tri_PurgeStaleRules marks baseMark start end_ k0 : RangeSize baseMark = Ret (start, end_) →
  tri (onK kern (λ k, k = k0)) (PurgeStaleRules marks baseMark)
    (λ _, onK kern (λ k, (purged marks start end_ FAMILY_V4 k ∧ purged marks start end_ FAMILY_V6 k) ∧ purgeFrame marks start end_ k0 k))
    (onK kern (purgeFrame marks start end_ k0)).
Proof.
  intros HR. unfold PurgeStaleRules. rewrite HR. change (mbind_ (lift (Ret (start, end_))) ?k) with (k (start, end_)). cbv beta iota.
  apply tri_assoc. eapply (tri_pre _ (onK kern (λ k, True ∧ purgeFrame marks start end_ k0 k))); [unfold onK; by intros w ->|].
  eapply tri_seq; [apply (tri_step _ (purgeFrame marks start end_)), tri_purgeFamily|].
  eapply tri_post; [apply (tri_step _ (purgeFrame marks start end_)), tri_purgeFamily| |done].
  intros _ w [(k & (k1 & _ & Hp4 & _) & Hp6 & Hf) Hfr]. split; [|done]. split; [|done]. unfold purged. by rewrite Hf.
Qed.
End theorems.
