(* ===== verification/VxlanDevice.v ===== *)
(** * The vxlan device ([pkg/agent/vxlan/vxlan.go], [parent.go])

    The device of the tunnels: made with the wanted attributes or replaced when it
    differs, with the wanted addresses and no others, and the neighbour entries of the
    peers. *)

From S2P Require Import Prelude GoStd GoNet Types ApiServer Triple StateM Netlink.
Open Scope Z_scope.

(** ** The parent interface *)

Record ParentLink := mkParentLink { pl_Name : string; pl_IP : IP; pl_Index : Z }.
(** [config.TunnelDetectCustomInterface]. *)
Record TunnelDetectCustomInterface := mkCustomInterface { tc_NodeSelector : labelSet; tc_InterfaceName : string }.

(** [ones == 32 && bits == 32 || ones == 128 && bits == 128] of [Mask.Size()]. *)
Definition hostMask (mask : list Z) : bool := bool_decide (mask = replicate 4 255 ∨ mask = replicate 16 255).
Definition versionFamily (version : Z) : Z := if decide (version = 6) then FAMILY_V6 else FAMILY_V4.

Definition matchesNodeSelector (nodeLabels : labelSet) (nodeSelector : labelSet) : bool :=
  forallb (λ kv, bool_decide (default "" (nodeLabels !! kv.1) = kv.2)) (map_to_list nodeSelector).

Section parent.
Context {W : Type} `{NL : !Netlink W}.
Definition failed {A} (msg : string) : M W A := merr (ErrNew msg).
(** A call whose error is wrapped. *)
Definition wrapped {A} (msg : string) (c : M W A) : M W A :=
  let* r := attempt c in match r with inl a => mret a | inr _ => failed msg end.

Definition parentOf (link : Link) (addrs : list Addr) (skip : Addr → bool) : M W ParentLink :=
  match list_find (λ a, IsGlobalUnicast (net_IP (ad_IPNet a)) && negb (skip a) = true) addrs with
  | Some (_, a) => mret (mkParentLink (link_Name link) (net_IP (ad_IPNet a)) (link_Index link))
  | None => failed "failed to find parent interface"
  end.

Definition GetParentByDefaultRoute (version : Z) : M W ParentLink :=
  let family := versionFamily version in
  let* routes := wrapped "failed to list routes" (RouteListFiltered family 254) in
  match list_find (λ route, rt_Family route = family) routes with
  | None => failed "not found default route link"
  | Some (_, route) =>
      (** An index of -1 counts as not found. *)
      if decide (rt_LinkIndex route = -1) then failed "not found default route link"
      else
        let* link := wrapped "failed to get parent link by index" (LinkByIndex (rt_LinkIndex route)) in
        let* addrs := wrapped "failed to list parent link addrs" (AddrList (link_Name link) family) in
        parentOf link addrs (λ a, hostMask (net_Mask (ad_IPNet a)))
  end.
Definition GetParentByName (name : string) (version : Z) : M W ParentLink :=
  let* link := wrapped "failed to get parent link by name" (LinkByName name) in
  let* addrs := wrapped "failed to list parent link addrs" (AddrList (link_Name link) (versionFamily version)) in
  parentOf link addrs (λ _, false).
(** The labels of the node [NODE_NAME] are read from the API server. *)
Definition GetParentByCustomName (nodeName name : string) (override : list TunnelDetectCustomInterface) (getLabels : string → M W labelSet) (version : Z) : M W ParentLink :=
  if decide (nodeName = "") then failed "NODE_NAME environment variable is not set"
  else
    let* labels := wrapped "can not get current node" (getLabels nodeName) in
    match list_find (λ o, matchesNodeSelector labels (tc_NodeSelector o) = true) override with
    | Some (_, o) => GetParentByName (tc_InterfaceName o) version
    | None => GetParentByName name version
    end.
End parent.

(** ** The device *)

Record Peer := mkPeer { pr_IPv4 : option IP; pr_IPv6 : option IP; pr_Parent : IP; pr_MAC : list Z; pr_Mark : Z }.

(** The name of the first attribute that differs. *)
Definition diffLink (l1 l2 : Link) : option string :=
  if decide (link_Type l1 ≠ link_Type l2) then Some "link type"
  else match l1, l2 with
       | LinkVxlan v1, LinkVxlan v2 =>
           if decide (vx_VxlanId v1 ≠ vx_VxlanId v2) then Some "vni"
           else if decide (vx_VtepDevIndex v1 > 0 ∧ vx_VtepDevIndex v2 > 0 ∧ vx_VtepDevIndex v1 ≠ vx_VtepDevIndex v2) then Some "parent interface"
           else if decide ((0 < length (vx_SrcAddr v1))%nat ∧ (0 < length (vx_SrcAddr v2))%nat ∧ IPEqual (vx_SrcAddr v1) (vx_SrcAddr v2) = false) then Some "src addr"
           else if decide ((0 < length (vx_Group v1))%nat ∧ (0 < length (vx_Group v2))%nat ∧ IPEqual (vx_Group v1) (vx_Group v2) = false) then Some "group address"
           else if decide (vx_L2miss v1 ≠ vx_L2miss v2) then Some "l2miss"
           else if decide (vx_Port v1 > 0 ∧ vx_Port v2 > 0 ∧ vx_Port v1 ≠ vx_Port v2) then Some "port"
           else None
       | _, _ => None
       end.

Section device.
Context {W : Type} `{NL : !Netlink W}.

Definition writeProcSys (path value : string) : M W unit :=
  let* _ := wrapped "failed to open file" (procOpen path) in
  let* n := wrapped "failed to write value" (procWrite path value) in
  if decide (n < Z.of_nat (String.length value)) then failed "short write" else mret tt.
Definition ensureFilter (ifname : string) (ipv4 : option IPNet) : M W unit :=
  match ipv4 with
  | Some _ => writeProcSys ("/proc/sys/net/ipv4/conf/" +:+ ifname +:+ "/rp_filter") "2"
  | None => mret tt
  end.

(** The link made with [index], read back. *)
Definition readBack (index : Z) : M W Vxlan :=
  let* link := wrapped "can't locate created vxlan device" (LinkByIndex index) in
  match link with LinkVxlan v => mret v | LinkOther _ _ _ => failed "created vxlan device is not vxlan" end.
Definition ensureLink (vxlan : Vxlan) : M W Vxlan :=
  let* r := attempt (LinkAdd vxlan) in
  match r with
  | inl index => readBack index
  | inr e =>
      if decide (e = EEXIST) then
        let* existing := LinkByName (vx_Name vxlan) in
        match diffLink (LinkVxlan vxlan) existing, existing with
        | None, LinkVxlan v => mret v
        | None, LinkOther _ _ _ => lift (Panic "interface conversion")
        | Some _, _ =>
            let* _ := wrapped "delete vxlan with error" (LinkDel existing) in
            let* index := wrapped "create vxlan with error" (LinkAdd vxlan) in
            readBack index
        end
      else merr e
  end.

(** [reflect.DeepEqual] of two [net.IPNet]. *)
Definition ensureAddr (ipn : option IPNet) (link : string) (family : Z) : M W unit :=
  match ipn with
  | None => mret tt
  | Some ipn =>
      let* gotAddrs := AddrList link family in
      let* needAdd := mforeach (λ item needAdd,
        if decide (ad_IPNet item ≠ ipn) then let* _ := wrapped "del addr with error" (AddrDel link item) in mret needAdd
        else mret false) gotAddrs true in
      if needAdd : bool then wrapped "add addr with error" (AddrAdd link ipn) else mret tt
  end.

(** [dev.link], nil at first. *)
Abbreviation Device := (option Vxlan).
Context (getParent : Z → M W ParentLink).

Definition EnsureLink (name : string) (vni port : Z) (mac : list Z) (ipv4 ipv6 : option IPNet) (disableChecksumOffload : bool) : M (Device * W) unit :=
  let v := if decide (ipv4 = None ∧ ipv6 ≠ None) then 6 else 4 in
  let* parent := scall (wrapped "failed to get parent" (getParent v)) in
  let link := mkVxlan name 0 mac vni (pl_Index parent) (pl_IP parent) [] false port in
  let* r := attempt (scall (ensureLink link)) in
  match r with
  | inr e => let* _ := smod (λ _, None) in merr e
  | inl l =>
      let* _ := smod (λ _, Some l) in
      let* _ := scall (ensureAddr ipv4 name FAMILY_V4) in
      let* _ := scall (ensureAddr ipv6 name FAMILY_V6) in
      let* _ := scall (ensureFilter name ipv4) in
      let* _ := (if disableChecksumOffload then scall (EthtoolTXOff name) else mret tt) in
      scall (wrapped "set interface to UP with error" (LinkSetUp l))
  end.

Definition ListNeigh : M (Device * W) (list Neigh) :=
  let* dev := sget in
  match dev with None => mret [] | Some l => scall (NeighList (vx_Index l) FAMILY_V4) end.

Definition addNeigh (link : Vxlan) (mac : list Z) (ip : IP) : M W unit := NeighSet (mkNeigh (vx_Index link) 0 ip mac).
Definition Add (peer : Peer) : M (Device * W) unit :=
  let* dev := sget in
  match dev with
  | None => mret tt
  | Some l =>
      let* _ := (match pr_IPv6 peer with Some ip => scall (addNeigh l (pr_MAC peer) ip) | None => mret tt end) in
      let* _ := (match pr_IPv4 peer with Some ip => scall (addNeigh l (pr_MAC peer) ip) | None => mret tt end) in
      scall (NeighSet (mkNeigh (vx_Index l) AF_BRIDGE (pr_Parent peer) (pr_MAC peer)))
  end.
Definition Del (neigh : Neigh) : M (Device * W) unit :=
  let* dev := sget in
  match dev with
  | None => mret tt
  | Some _ =>
      let* e1 := attempt (scall (NeighDel (mkNeigh (ng_LinkIndex neigh) AF_BRIDGE (ng_IP neigh) (ng_HardwareAddr neigh)))) in
      let* e2 := attempt (scall (NeighDel neigh)) in
      match e1, e2 with
      | inl _, inl _ => mret tt
      | _, _ => merr (ErrNew "delete neigh")
      end
  end.
End device.
