(* ===== verification/Vxlan.v ===== *)
(** * The agent's tunnels ([pkg/agent/vxlan.go])

    Every node keeps a map of its peers.  Events of tunnels and gateways change it and
    program the kernel for one peer; a loop brings device, neighbours, rules and routes in line
    with the whole map again and again. *)

From S2P Require Import Prelude GoStd GoNet GoFmt Types Utils ApiServer Triple StateM Tunnel Netlink Route VxlanDevice.
Open Scope Z_scope.

(** ** [net.ParseMAC] *)

(** Two hexadecimal digits. *)
Definition xtoi2 (a b : ascii) : option Z :=
  match hexval a, hexval b with Some x, Some y => Some (x * 16 + y) | _, _ => None end.
(** Groups of two digits with a separator between them; pairs of groups when it is a dot. *)
Fixpoint macColons (sep : ascii) (l : list ascii) : option (list Z) :=
  match l with
  | [a; b] => match xtoi2 a b with Some x => Some [x] | None => None end
  | a :: b :: c :: l' =>
      if decide (c ≠ sep) then None
      else match xtoi2 a b, macColons sep l' with Some x, Some r => Some (x :: r) | _, _ => None end
  | _ => None
  end.
Fixpoint macDots (l : list ascii) : option (list Z) :=
  match l with
  | [a; b; c; d] => match xtoi2 a b, xtoi2 c d with Some x, Some y => Some [x; y] | _, _ => None end
  | a :: b :: c :: d :: e :: l' =>
      if decide (e ≠ "."%char) then None
      else match xtoi2 a b, xtoi2 c d, macDots l' with Some x, Some y, Some r => Some (x :: y :: r) | _, _, _ => None end
  | _ => None
  end.
Definition ParseMAC (s : string) : option (list Z) :=
  let l := chars s in
  let hw := if decide (length l < 14)%nat then None
    else match l with
         | _ :: _ :: c :: _ :: d :: _ =>
             if decide (c = ":"%char ∨ c = "-"%char) then macColons c l
             else if decide (d = "."%char) then macDots l else None
         | _ => None
         end in
  match hw with
  | Some hw => if decide (length hw = 6%nat ∨ length hw = 8%nat ∨ length hw = 20%nat) then Some hw else None
  | None => None
  end.
Example ParseMAC_forms : ParseMAC "66:1e:0b:00:ff:7a" = Some [102; 30; 11; 0; 255; 122] ∧ ParseMAC "661e.0b00.FF7A" = Some [102; 30; 11; 0; 255; 122] ∧
  ParseMAC "66:1e:0b:00:ff" = None ∧ ParseMAC "66:1e-0b:00:ff:7a" = None ∧ ParseMAC "" = None.
Proof. by vm_compute. Qed.

Definition parseMarkToInt (mark : string) : outcome Z := ParseInt16_32 (drop0x (chars mark)).

(** ** The state *)

Record vxlanConfig := mkVxlanConfig {
  cf_NodeName : string; cf_EnableIPv4 : bool; cf_EnableIPv6 : bool;
  cf_Name : string; cf_ID : Z; cf_Port : Z; cf_DisableChecksumOffload : bool;
  cf_TunnelIPv4Net : IPNet; cf_TunnelIPv6Net : IPNet; cf_Mark : string; cf_TunnelUpdatePeriod : Z
}.
(** [vxlanReconciler]: the map of peers, the device, whether [doOnce] is done, the seconds the
    timer was set to, and the messages of [log.Error]. *)
Record vxlanReconciler := mkVxlanReconciler {
  peerMap : gmap string Peer; vx_device : option Vxlan; doneOnce : bool; updateTimer : option Z; errorLog : list string
}.
Definition set_peerMap (m : gmap string Peer) (r : vxlanReconciler) := mkVxlanReconciler m (vx_device r) (doneOnce r) (updateTimer r) (errorLog r).
Definition set_device (d : option Vxlan) (r : vxlanReconciler) := mkVxlanReconciler (peerMap r) d (doneOnce r) (updateTimer r) (errorLog r).
Definition set_doneOnce (r : vxlanReconciler) := mkVxlanReconciler (peerMap r) (vx_device r) true (updateTimer r) (errorLog r).
Definition set_timer (t : option Z) (r : vxlanReconciler) := mkVxlanReconciler (peerMap r) (vx_device r) (doneOnce r) t (errorLog r).
Definition add_error (m : string) (r : vxlanReconciler) := mkVxlanReconciler (peerMap r) (vx_device r) (doneOnce r) (updateTimer r) (errorLog r ++ [m]).

Class VxlanApi (W : Type) := {
  vaGetTunnel : NamespacedName → M W EgressTunnel;
  vaGetGateway : string → M W EgressGateway;
  vaListTunnels : M W (list EgressTunnel);
  vaListGateways : M W (list EgressGateway);
  (** The object is replaced by the answer. *)
  vaUpdateTunnelStatus : EgressTunnel → M W EgressTunnel;
  vaNow : M W Z
}.

Section vxlan.
Context {W : Type} `{NL : !Netlink W} `{VA : !VxlanApi W} (cfg : vxlanConfig) (rr : RuleRoute).
(** The orders in which [SyncMap.Range] and the local maps are visited. *)
Context (order : nat → MapOrder).
Context (getParent : Z → M W ParentLink).
(** [err.Error()]. *)
Context (errText : error → string).
Abbreviation VM := (M (vxlanReconciler * W)).

(** A call of the device. *)
Definition onDevice {A} (c : M (option Vxlan * W) A) : VM A := λ s,
  let '((d, w), o) := c (vx_device s.1, s.2) in ((set_device d s.1, w), o).
Definition logError (msg : string) : VM unit := smod (add_error msg).
(** A call whose error is logged and forgotten. *)
Definition loggedAs {A} (msg : string) (c : VM A) : VM unit :=
  let* r := attempt c in match r with inl _ => mret tt | inr _ => logError msg end.

Definition version : Z := if decide (cf_EnableIPv4 cfg = false ∧ cf_EnableIPv6 cfg = true) then 6 else 4.

(** The pairs of a map in the order of a visit. *)
Definition rangeMap (k : nat) (m : gmap string Peer) : list (string * Peer) :=
  omap (λ key, match m !! key with Some p => Some (key, p) | None => None end) (@map_order (order k) (elements (dom m))).

Definition ensureRoute : VM unit :=
  let* neighList := onDevice ListNeigh in
  let* s := sget in
  let peers := filter (λ kp, kp.1 ≠ cf_NodeName cfg) (rangeMap 0 (peerMap s)) in
  let expected : gset string := list_to_set ((λ kp, macString (pr_MAC kp.2)) <$> peers) in
  let* _ := mforeach (λ item _,
    if decide (macString (ng_HardwareAddr item) ∈ expected) then mret tt
    else loggedAs "delete link layer neighbor" (onDevice (Del item))) neighList tt in
  mforeach (λ kp _, loggedAs "add peer route" (onDevice (Add kp.2)))
    (filter (λ kp, kp.1 ≠ cf_NodeName cfg) (rangeMap 1 (peerMap s))) tt.

Definition parseVTEP (status : EgressTunnelStatus) : option Peer :=
  let t := ts_Tunnel status in
  let '(ready4, ipv4) := if cf_EnableIPv4 cfg then
      if decide (tun_IPv4 t = "") then (false, None) else let ip := ParseIP (tun_IPv4 t) in (bool_decide (To4 ip ≠ []), Some ip)
    else (true, None) in
  let '(ready6, ipv6) := if cf_EnableIPv6 cfg then
      if decide (tun_IPv6 t = "") then (false, None) else let ip := ParseIP (tun_IPv6 t) in (bool_decide (To16 ip ≠ []), Some ip)
    else (true, None) in
  match ParseMAC (tun_MAC t) with
  | Some mac => if ready4 && ready6 then Some (mkPeer ipv4 ipv6 [] mac 0) else None
  | None => None
  end.

Definition updateTunnelStatus (tunnel : EgressTunnel) : VM EgressTunnel :=
  let* now := scall vaNow in
  let s := t_Status tunnel in
  let* tunnel := scall (vaUpdateTunnelStatus (set_tunnelStatus tunnel (mkTunnelStatus (ts_Tunnel s) (ts_Phase s) (ts_Mark s) now))) in
  let* _ := smod (set_timer (Some (cf_TunnelUpdatePeriod cfg))) in
  mret tunnel.

(** The parent a tunnel should have: its name, and its address in the field of the version. *)
Definition wantedParent (parent : ParentLink) (v : Z) : Parent :=
  if decide (v = 4) then mkParent (pl_Name parent) (IPString (pl_IP parent)) "" else mkParent (pl_Name parent) "" (IPString (pl_IP parent)).
#[local] Instance Parent_eq_dec : EqDecision Parent.
Proof. solve_decision. Defined.
(** The tunnel with its parent and phase, and whether something changed. *)
Definition refreshTunnel (parent : ParentLink) (v : Z) (tunnel : EgressTunnel) : EgressTunnel * bool :=
  let s := t_Status tunnel in
  let u := ts_Tunnel s in
  let p := wantedParent parent v in
  let needUpdate := bool_decide (tun_Parent u ≠ p) in
  let tunnel := set_Tunnel tunnel (mkTunnel (tun_IPv4 u) (tun_IPv6 u) (tun_MAC u) p) in
  match parseVTEP (t_Status tunnel) with
  | Some _ =>
      if decide (ts_Phase s ≠ EgressTunnelReady ∧ ts_Phase s ≠ EgressTunnelNodeNotReady) then (set_Phase tunnel EgressTunnelReady, true)
      else (tunnel, needUpdate)
  | None => (tunnel, needUpdate)
  end.
Definition updateEgressTunnelStatus (tunnel : option EgressTunnel) (v : Z) : VM (option EgressTunnel) :=
  let* parent := scall (getParent v) in
  let* tunnel := (match tunnel with
    | Some t => mret (Some t)
    | None => scall (getOrAbsent (vaGetTunnel (mkNN "" (cf_NodeName cfg))))
    end) in
  match tunnel with
  | None => mret None
  | Some t =>
      let '(t, needUpdate) := refreshTunnel parent v t in
      if needUpdate : bool then let* t := updateTunnelStatus t in mret (Some t) else mret (Some t)
  end.

Definition ensureEgressTunnelStatus (node : EgressTunnel) : VM unit :=
  let p := tun_Parent (ts_Tunnel (t_Status node)) in
  let needUpdate := bool_decide ((version = 4 ∧ par_IPv4 p = "") ∨ (version = 6 ∧ par_IPv6 p = "")) in
  let* node := (if needUpdate then let* t := updateEgressTunnelStatus (Some node) version in mret (default node t) else mret node) in
  match parseVTEP (t_Status node) with
  | Some vtep => smod (λ s, set_peerMap (<[cf_NodeName cfg := vtep]> (peerMap s)) s)
  | None => mret tt
  end.

(** ** Events *)

Definition ensurePeer (peer : Peer) : VM unit :=
  scall (Ensure rr (cf_Name cfg) (pr_IPv4 peer) (pr_IPv6 peer) (pr_Mark peer) (pr_Mark peer)).

(** A slice that is nil is no address. *)
Definition nonNil (ip : IP) : option IP := match ip with [] => None | _ => Some ip end.
Definition peerOf (parentIP : IP) (mac : list Z) (status : EgressTunnelStatus) : Peer :=
  let t := ts_Tunnel status in
  mkPeer (nonNil (To4 (ParseIP (tun_IPv4 t)))) (nonNil (To16 (ParseIP (tun_IPv6 t)))) parentIP mac
    (match parseMarkToInt (ts_Mark status) with Ret m => m | _ => 0 end).

Definition reconcileEgressTunnel (req : NamespacedName) : VM Result :=
  let* node := scall (getOrAbsent (vaGetTunnel req)) in
  let isPeer := bool_decide (nn_Name req ≠ cf_NodeName cfg) in
  (** A tunnel that is being deleted counts as gone. *)
  match (match node with Some n => if om_Deleting (t_Meta n) then None else Some n | None => None end) with
  | None =>
      if isPeer then
        let* _ := smod (λ s, set_peerMap (delete (nn_Name req) (peerMap s)) s) in
        let* _ := loggedAs "delete egress tunnel, ensure route with error" ensureRoute in mret done_
      else mret done_
  | Some node =>
      if isPeer then
        let p := tun_Parent (ts_Tunnel (t_Status node)) in
        let ip := if decide (version = 4) then par_IPv4 p else par_IPv6 p in
        if decide (ip = "") then mret done_
        else
          match ParseMAC (tun_MAC (ts_Tunnel (t_Status node))) with
          | None => mret done_
          | Some mac =>
              let peer := peerOf (ParseIP ip) mac (t_Status node) in
              let* _ := smod (λ s, set_peerMap (<[om_Name (t_Meta node) := peer]> (peerMap s)) s) in
              let* _ := loggedAs "add egress tunnel, ensure route with error" ensureRoute in
              let* _ := loggedAs "ensure vxlan link" (ensurePeer peer) in
              mret done_
          end
      else let* _ := ensureEgressTunnelStatus node in mret done_
  end.

Definition getEgressTunnelByEgressGateway (name : string) : VM (gset string) :=
  let* egw := scall (getOrAbsent (vaGetGateway name)) in
  mret (match egw with Some g => list_to_set (n_Name <$> s_NodeList (g_Status g)) | None => ∅ end).
Definition listEgressTunnel : VM (gset string) :=
  let* list := scall vaListGateways in
  mret (list_to_set (list ≫= λ g, n_Name <$> s_NodeList (g_Status g))).
Definition reconcileEgressGateway (req : NamespacedName) : VM Result :=
  let* r := attempt (getEgressTunnelByEgressGateway (nn_Name req)) in
  match r with
  | inr e => let* _ := logError "vxlan reconcile egress gateway" in merr e
  | inl tunnels =>
      let* s := sget in
      let* _ := mforeach (λ kp _,
        if decide (kp.1 ∈ tunnels) then loggedAs "vxlan reconcile EgressGateway with error" (ensurePeer kp.2) else mret tt)
        (rangeMap 2 (peerMap s)) tt in
      mret done_
  end.

(** Only the entry of this node is ever written. *)
Definition initTunnelPeerMap : VM unit :=
  let* list := scall vaListTunnels in
  mforeach (λ item _,
    if decide (ts_Phase (t_Status item) = EgressTunnelReady) then
      match parseVTEP (t_Status item) with
      | Some vtep => smod (λ s, set_peerMap (<[cf_NodeName cfg := vtep]> (peerMap s)) s)
      | None => mret tt
      end
    else mret tt) list tt.
(** [goto redo], at most [fuel] times. *)
Fixpoint initRedo (fuel : nat) : VM unit :=
  match fuel with
  | O => lift Timeout
  | S fuel' =>
      let* r := attempt initTunnelPeerMap in
      match r with inl _ => mret tt | inr _ => let* _ := logError "init TunnelPeerMap with error" in initRedo fuel' end
  end.

Definition vxlan_Reconcile (fuel : nat) (req : NamespacedName) : VM Result :=
  let* (kind, newReq) := lift (ParseKindWithReq req) in
  let* s := sget in
  let* _ := (if doneOnce s then mret tt else let* _ := initRedo fuel in smod set_doneOnce) in
  if decide (kind = "EgressTunnel") then reconcileEgressTunnel newReq
  else if decide (kind = "EgressGateway") then reconcileEgressGateway newReq
  else mret done_.

(** ** Loops *)

Definition withMask (ip : IP) (net : IPNet) : IPNet := mkIPNet ip (net_Mask net).
(** The addresses of the device; a nil pointer is read when a family is enabled without an address. *)
Definition vtepNets (vtep : Peer) : outcome (option IPNet * option IPNet) :=
  let family (on : bool) (ip : option IP) (to : IP → IP) (net : IPNet) : outcome (option IPNet) :=
    if on then match ip with
               | None => Panic "nil pointer dereference"
               | Some ip => Ret (if decide (to ip ≠ []) then Some (withMask (to ip) net) else None)
               end
    else Ret None in
  let! v4 := family (cf_EnableIPv4 cfg) (pr_IPv4 vtep) To4 (cf_TunnelIPv4Net cfg) in
  let! v6 := family (cf_EnableIPv6 cfg) (pr_IPv6 vtep) To16 (cf_TunnelIPv6Net cfg) in
  Ret (v4, v6).

(** A turn of [keepVXLAN], with the seconds to sleep before the next one; the flag [reduce] only
    silences a message. *)
Definition keepVXLAN : VM Z :=
  let* s := sget in
  match peerMap s !! cf_NodeName cfg with
  | None => mret 1
  | Some vtep =>
      let* (ipv4, ipv6) := lift (vtepNets vtep) in
      let* r := attempt (updateEgressTunnelStatus None version) in
      match r with
      | inr _ => let* _ := logError "update EgressTunnel status" in mret 1
      | inl _ =>
          let* r := attempt (onDevice (EnsureLink getParent (cf_Name cfg) (cf_ID cfg) (cf_Port cfg) (pr_MAC vtep) ipv4 ipv6 (cf_DisableChecksumOffload cfg))) in
          match r with
          | inr _ => let* _ := logError "ensure vxlan link" in mret 1
          | inl _ =>
              let* r := attempt ensureRoute in
              match r with
              | inr _ => let* _ := logError "ensure route" in mret 1
              | inl _ =>
                  let* s := sget in
                  let* markMap := mforeach (λ kp (markMap : gset Z),
                    if decide (pr_Mark kp.2 ≠ 0) then
                      let* _ := loggedAs "ensure vxlan link with error" (ensurePeer kp.2) in mret ({[pr_Mark kp.2]} ∪ markMap)
                    else mret markMap) (rangeMap 3 (peerMap s)) ∅ in
                  let* _ := loggedAs "purge stale rules error" (scall (PurgeStaleRules markMap (cf_Mark cfg))) in
                  mret 10
              end
          end
      end
  end.

Definition ErrHeartbeatTime : error := ErrNew "heartbeat time".
Definition deadlineText : list ascii := chars "context deadline exceeded".
(** [case <-r.updateTimer.C]: the timer has fired; the error ends the loop. *)
Definition syncLastHeartbeatTime : VM unit :=
  let* _ := smod (set_timer None) in
  let* r := attempt (scall (getOrAbsent (vaGetTunnel (mkNN "" (cf_NodeName cfg))))) in
  match r with
  | inr _ => let* _ := logError "update tunnel status" in smod (set_timer (Some 1))
  | inl None => mret tt
  | inl (Some tunnel) =>
      let* r := attempt (updateTunnelStatus tunnel) in
      match r with
      | inl _ => mret tt
      | inr e =>
          if containsChars deadlineText (chars (errText e)) then merr ErrHeartbeatTime
          else let* _ := logError "update tunnel status" in smod (set_timer (Some 1))
      end
  end.

(** [Start]: heartbeats are only sent when failover is enabled; a turn of the loop. *)
Definition vxlan_Start (failoverEnable : bool) : VM unit := if failoverEnable then syncLastHeartbeatTime else mret tt.

(** The part of the constructor that finds the parent interface. *)
Definition TunnelInterfaceSpecific : string := "interface=".
Definition chooseGetParent (method : string) (custom : list TunnelDetectCustomInterface) (getLabels : string → M W labelSet) : Z → M W ParentLink :=
  if HasPrefix method TunnelInterfaceSpecific then
    let name := unchars (drop (String.length TunnelInterfaceSpecific) (chars method)) in
    if decide (length custom = 0%nat) then GetParentByName name else GetParentByCustomName (cf_NodeName cfg) name custom getLabels
  else GetParentByDefaultRoute.
Definition newVxlanReconciler : vxlanReconciler := mkVxlanReconciler ∅ None false (Some (cf_TunnelUpdatePeriod cfg)) [].

(** [egressTunnelPredicate] of the agent. *)
#[local] Instance Tunnel_eq_dec : EqDecision Tunnel.
Proof. solve_decision. Defined.
Definition vxlanTunnelPredicate_Update (old new : EgressTunnel) : bool :=
  if decide (ts_Tunnel (t_Status old) ≠ ts_Tunnel (t_Status new)) then true
  else if decide (ts_Phase (t_Status old) ≠ ts_Phase (t_Status new)) then true
  else bool_decide (ts_Mark (t_Status old) ≠ ts_Mark (t_Status new)).
End vxlan.
