(* ===== verification/VxlanTheorems.v ===== *)
(** * The kernel after a turn of the tunnel loop

    A turn of [keepVXLAN] that logs no error leaves device, neighbours, rules and
    routes as the map of peers wants them, whatever they were before. *)

From S2P Require Import Prelude GoStd GoNet GoFmt Types Utils MarkAllocator ApiServer Triple StateM Sha1 Tunnel Netlink Route VxlanDevice Vxlan.
Open Scope Z_scope.

(** ** The device *)

Section device.
Context {W : Type} `{NL : !Netlink W} (kern : W → kernel) `{HL : !NetlinkLaws W kern}.
Abbreviation any := (λ _ : kernel, True).

(** Partial correctness over the configuration. *)
Definition ktri {A} (P : kernel → Prop) (c : M W A) (Q : A → kernel → Prop) : Prop := tri (onK kern P) c (λ a, onK kern (Q a)) (λ _, True).
Lemma ktri_weaken {A} P (c : M W A) Q (E : W → Prop) : tri (onK kern P) c (λ a, onK kern (Q a)) E → ktri P c Q.
Proof. intros H. eapply tri_post; [exact H|done|done]. Qed.
Lemma ktri_bind {A B} P (c : M W A) (k : A → M W B) Q R : ktri P c Q → (∀ a, ktri (Q a) (k a) R) → ktri P (mbind_ c k) R.
Proof. intros Hc Hk. eapply tri_bind; [exact Hc|exact Hk]. Qed.
Lemma ktri_ret {A} (P : kernel → Prop) (a : A) (Q : A → kernel → Prop) : (∀ k, P k → Q a k) → ktri P (mret a) Q.
Proof. intros H. apply tri_ret. intros w. apply H. Qed.
Lemma ktri_post {A} P (c : M W A) (Q Q' : A → kernel → Prop) : ktri P c Q → (∀ a k, Q a k → Q' a k) → ktri P c Q'.
Proof. intros Hc HQ. eapply tri_post; [exact Hc|intros a w; apply HQ|done]. Qed.
Lemma ktri_pre {A} (P P' : kernel → Prop) (c : M W A) Q : (∀ k, P k → P' k) → ktri P' c Q → ktri P c Q.
Proof. intros HP. apply tri_pre. intros w. apply HP. Qed.
Lemma ktri_effect {A} (c : M W A) R (P : kernel → Prop) (Q : A → kernel → Prop) : effect kern c R → (∀ k a k', P k → R k a k' → Q a k') → ktri P c Q.
Proof. intros Hc HQ. eapply ktri_weaken. eapply (tri_effect kern _ _ _ any); [exact Hc|exact HQ|done]. Qed.
Lemma ktri_reads {A} (c : M W A) R (P : kernel → Prop) : reads kern c R → ktri P c (λ a k, P k ∧ R k a).
Proof. intros Hc. eapply ktri_effect; [exact Hc|]. by intros k a k' HP [HR ->]. Qed.
Lemma ktri_skip {A B} (c : M W A) R P (k : A → M W B) Q : reads kern c R → (∀ a, ktri P (k a) Q) → ktri P (mbind_ c k) Q.
Proof. intros Hc Hk. eapply ktri_bind; [by eapply ktri_reads|]. intros a. eapply ktri_pre; [|apply Hk]. by intros k0 [? _]. Qed.
Lemma ktri_wrapped {A} P msg (c : M W A) Q : ktri P c Q → ktri P (wrapped msg c) Q.
Proof.
  intros Hc. eapply tri_bind; [apply tri_attempt, Hc|]. intros [a|e]; [by apply tri_ret|by apply tri_err].
Qed.
Lemma ktri_fail {A} P msg Q : ktri P (failed (A := A) msg) Q.
Proof. by apply tri_err. Qed.
(** State by state. *)
Lemma ktri_here {A} P (c : M W A) Q : (∀ k, P k → ktri (λ k', k' = k) c Q) → ktri P c Q.
Proof. intros H w Hw. by apply (H (kern w) Hw w). Qed.

(** The addresses of a link in a family are the wanted one. *)
Definition addrIs (ipn : option IPNet) (link : string) (k : kernel) (family : Z) : Prop :=
  match ipn with
  | None => True
  | Some ipn => addrsOf k link family ≠ [] ∧ Forall (λ a, ad_IPNet a = ipn) (addrsOf k link family)
  end.
Lemma addrsOf_set_eq k n f l : addrsOf (set_addrs n f l k) n f = l.
Proof. unfold addrsOf. cbn [set_addrs k_addrs]. by rewrite lookup_insert_eq. Qed.
Lemma addrsOf_set_ne k n f l f' : f' ≠ f → addrsOf (set_addrs n f l k) n f' = addrsOf k n f'.
Proof. intros Hne. unfold addrsOf. cbn [set_addrs k_addrs]. rewrite lookup_insert_ne; [done|]. by intros [= ->]. Qed.

(** Only addresses of the link in the family differ. *)
Definition addrFrame (link : string) (family : Z) (k k' : kernel) : Prop :=
  (∀ f, f ≠ family → addrsOf k' link f = addrsOf k link f) ∧ k_links k' = k_links k ∧ k_rules k' = k_rules k.
Lemma addrFrame_set link family k0 k l : addrFrame link family k0 k → addrFrame link family k0 (set_addrs link family l k).
Proof. intros (Hf & ? & ?). split_and!; [|done|done]. intros f Hne. rewrite addrsOf_set_ne by done. auto. Qed.

Lemma tri_wrapped {A} P msg (c : M W A) Q E : tri P c Q E → tri P (wrapped msg c) Q E.
Proof. intros Hc. eapply tri_bind; [apply tri_attempt, Hc|]. intros [a|e]; [by apply tri_ret|by apply tri_err]. Qed.
Lemma tri_AddrDel link family item X (F : kernel → Prop) : GetIPFamily (net_IP (ad_IPNet item)) = family → (∀ k l, F k → F (set_addrs link family l k)) →
  tri (onK kern (λ k, addrsOf k link family ≡ₚ item :: X ∧ F k)) (AddrDel link item)
    (λ _, onK kern (λ k, addrsOf k link family ≡ₚ X ∧ F k)) (onK kern (λ k, addrsOf k link family ≡ₚ item :: X ∧ F k)).
Proof.
  intros <- HF. eapply tri_effect; [apply law_AddrDel| |done]. intros k [] k' [Hk Hf] (l & Hl & ->).
  rewrite addrsOf_set_eq. split; [|by apply HF]. symmetry. apply (Permutation_remove item X [] l). by rewrite <- Hl.
Qed.

Definition badAddr (ipn : IPNet) (item : Addr) (_ : bool) : bool := bool_decide (ad_IPNet item ≠ ipn).
Lemma sweep_addrs ipn l b ks b' : sweep (badAddr ipn) (λ _ _, false) l b = (ks, b') →
  Forall (λ a, ad_IPNet a = ipn) ks ∧ (b' = false ↔ b = false ∨ ks ≠ []).
Proof.
  revert b ks. induction l as [|x l IH]; intros b ks; simpl.
  { intros [= <- <-]. split; [by constructor|]. naive_solver. }
  destruct (badAddr ipn x b) eqn:E; [by apply IH|]. destruct (sweep _ _ l false) as [ks1 b1] eqn:E1. intros [= <- <-].
  apply IH in E1 as [Hks Hb]. split; [|naive_solver]. apply Forall_cons. split; [|done].
  apply bool_decide_eq_false in E. by apply dec_stable.
Qed.

Lemma ktri_ensureAddr ipn link family k0 : (∀ n, ipn = Some n → GetIPFamily (net_IP n) = family ∧ canonicalIP (net_IP n)) →
  ktri (λ k, k = k0) (ensureAddr ipn link family) (λ _ k, addrIs ipn link k family ∧ addrFrame link family k0 k).
Proof.
  intros Hn. destruct ipn as [ipn|]; [|apply ktri_ret; by intros k ->]. destruct (Hn ipn eq_refl) as [Hfam Hcan]. simpl.
  eapply ktri_bind; [eapply ktri_reads, law_AddrList|]. intros l. apply ktri_here. intros k (-> & -> & Hl).
  destruct (sweep (badAddr ipn) (λ _ _, false) (addrsOf k0 link family) true) as [ks b] eqn:E.
  eapply (ktri_bind _ _ _ (λ b' k, b' = b ∧ addrsOf k link family ≡ₚ ks ∧ addrFrame link family k0 k)).
  - eapply ktri_weaken. eapply tri_pre; [|eapply tri_post; [apply (tri_sweep (badAddr ipn) (λ _ _, false) kern (λ k, addrsOf k link family) (addrFrame link family k0) _ _ true [])| |by intros w H; exact H]].
    + unfold onK. intros w ->. by rewrite app_nil_r.
    + intros x b' Hx. rewrite Forall_forall in Hl. unfold badAddr. destruct (decide (ad_IPNet x ≠ ipn)) as [Hb|Hb].
      * rewrite bool_decide_eq_true_2 by done. intros X. eapply tri_seq; [apply tri_wrapped, tri_AddrDel; [by apply Hl|intros; by apply addrFrame_set]|].
        apply tri_ret. by intros ? [? ?].
      * by rewrite bool_decide_eq_false_2.
    + rewrite E, app_nil_r. by intros.
  - intros b'. apply ktri_here. intros k (-> & Hc & HF). apply sweep_addrs in E as [Hks Hb].
    eapply (ktri_pre _ (λ k', addrsOf k' link family ≡ₚ ks ∧ addrFrame link family k0 k')); [by intros ? ->|].
    destruct b; [apply ktri_wrapped|].
    + eapply ktri_effect; [by apply law_AddrAdd|]. rewrite Hfam. intros k1 [] k2 [Hc1 HF1] [rest ->].
      split; [|by apply addrFrame_set]. simpl. rewrite addrsOf_set_eq. split; [done|]. apply Forall_cons. split; [done|]. by rewrite Hc1.
    + apply ktri_ret. intros k1 [Hc1 HF1]. split; [|done]. simpl. split; [|by rewrite Hc1].
      intros Hnil. rewrite Hnil in Hc1. apply Permutation_nil_l in Hc1. naive_solver.
Qed.

(** *** The link *)

Lemma diffLink_index i v : diffLink (LinkVxlan v) (LinkVxlan (with_Index i v)) = None.
Proof.
  assert (∀ ip, IPEqual ip ip = true) as Hrefl by (intros ip; unfold IPEqual; rewrite decide_True by done; by apply bool_decide_eq_true).
  unfold diffLink. cbn [with_Index link_Type vx_VxlanId vx_VtepDevIndex vx_SrcAddr vx_Group vx_L2miss vx_Port].
  repeat (rewrite decide_False; [|naive_solver congruence]). done.
Qed.
(** The link with the wanted name is [l], which has the wanted attributes. *)
Definition linkIs (v l : Vxlan) (k : kernel) : Prop := k_links k !! vx_Name v = Some (LinkVxlan l) ∧ diffLink (LinkVxlan v) (LinkVxlan l) = None.

Lemma ktri_makeLink v : ktri any (LinkAdd v) (λ i k, k_links k !! vx_Name v = Some (LinkVxlan (with_Index i v)) ∧
  ∀ n l, k_links k !! n = Some l → link_Index l = i → n = vx_Name v).
Proof.
  eapply ktri_effect; [apply law_LinkAdd|]. intros k i k' _ (_ & Hl & Hfresh). rewrite Hl, lookup_insert_eq. split; [done|].
  intros n l Hn Hi. destruct (decide (n = vx_Name v)) as [|Hne]; [done|]. rewrite lookup_insert_ne in Hn by done. by destruct (Hfresh n l Hne Hn).
Qed.
Lemma ktri_readBack v i : ktri (λ k, k_links k !! vx_Name v = Some (LinkVxlan (with_Index i v)) ∧ ∀ n l, k_links k !! n = Some l → link_Index l = i → n = vx_Name v)
  (readBack i) (linkIs v).
Proof.
  eapply ktri_bind; [apply ktri_wrapped; eapply ktri_reads, law_LinkByIndex|]. intros link. apply ktri_here. intros k [[Hv Hu] [Hk Hi]].
  pose proof (Hu _ _ Hk Hi) as Hn. rewrite Hn, Hv in Hk. injection Hk as <-. apply ktri_ret. intros ? ->. split; [done|apply diffLink_index].
Qed.
Lemma ktri_ensureLink v : ktri any (ensureLink v) (linkIs v).
Proof.
  unfold ensureLink. eapply tri_bind; [apply tri_attempt, ktri_makeLink|]. intros [i|e]; [apply ktri_readBack|].
  case_decide; [|by apply tri_err]. eapply (tri_pre _ (onK kern any)); [done|].
  eapply ktri_bind; [eapply ktri_reads, law_LinkByName|]. intros existing.
  destruct (diffLink (LinkVxlan v) existing) eqn:Ed.
  - eapply (ktri_bind _ _ _ (λ _, any)); [apply ktri_wrapped; by eapply ktri_effect; [apply law_LinkDel|]|]. intros _.
    eapply ktri_bind; [apply ktri_wrapped, ktri_makeLink|]. intros i. apply ktri_readBack.
  - destruct existing as [l|]; [|by apply tri_lift]. apply ktri_ret. intros k [_ [Hk _]]. done.
Qed.

(** *** Components with a state *)

Definition stri {S A} (P : S → kernel → Prop) (c : M (S * W) A) (Q : A → S → kernel → Prop) : Prop :=
  tri (λ x, P x.1 (kern x.2)) c (λ a x, Q a x.1 (kern x.2)) (λ _, True).
Lemma stri_scall {S A} (P : S → kernel → Prop) (c : M W A) Q : (∀ s, ktri (P s) c (λ a, Q a s)) → stri P (scall c) Q.
Proof. intros Hc. apply tri_scall. intros s w Hs. specialize (Hc s w Hs). by destruct (c w) as [w' [a|e|p|]]. Qed.
Lemma stri_seq {S A B} P (c : M (S * W) A) (k : M (S * W) B) Q R : stri P c (λ _, Q) → stri Q k R → stri P (mbind_ c (λ _, k)) R.
Proof. intros Hc Hk. eapply tri_bind; [exact Hc|intros ?; exact Hk]. Qed.
Lemma stri_bind {S A B} P (c : M (S * W) A) (k : A → M (S * W) B) Q R : stri P c Q → (∀ a, stri (Q a) (k a) R) → stri P (mbind_ c k) R.
Proof. intros Hc Hk. eapply tri_bind; [exact Hc|exact Hk]. Qed.
Lemma stri_ret {S A} (P : S → kernel → Prop) (a : A) (Q : A → S → kernel → Prop) : (∀ s k, P s k → Q a s k) → stri P (mret a) Q.
Proof. intros H. apply tri_ret. intros x. apply H. Qed.
Lemma stri_smod {S} (P : S → kernel → Prop) f (Q : unit → S → kernel → Prop) : (∀ s k, P s k → Q tt (f s) k) → stri P (smod f) Q.
Proof. intros H. apply tri_smod. intros s w. apply H. Qed.
Lemma stri_sget {S A} (P : S → kernel → Prop) (k : S → M (S * W) A) Q : (∀ s, stri (λ s' kr, P s' kr ∧ s' = s) (k s) Q) → stri P (mbind_ sget k) Q.
Proof. intros Hk. apply tri_sget. exact Hk. Qed.
Lemma stri_pre {S A} (P P' : S → kernel → Prop) (c : M (S * W) A) Q : (∀ s k, P s k → P' s k) → stri P' c Q → stri P c Q.
Proof. intros H. apply tri_pre. intros x. apply H. Qed.
Lemma stri_post {S A} P (c : M (S * W) A) (Q Q' : A → S → kernel → Prop) : stri P c Q → (∀ a s k, Q a s k → Q' a s k) → stri P c Q'.
Proof. intros Hc H. eapply tri_post; [exact Hc|intros a x; apply H|done]. Qed.
Lemma stri_extract {S A} (F : Prop) (P : S → kernel → Prop) (c : M (S * W) A) Q : (F → stri P c Q) → stri (λ s k, P s k ∧ F) c Q.
Proof. intros H x [HP HF]. by apply (H HF). Qed.
(** A call whose error leads elsewhere. *)
Lemma stri_try {S A B} P (c : M (S * W) A) (k : A + error → M (S * W) B) Q R :
  stri P c Q → (∀ a, stri (Q a) (k (inl a)) R) → (∀ e, stri (λ _ _, True) (k (inr e)) R) → stri P (mbind_ (attempt c) k) R.
Proof. intros Hc Hk He. eapply tri_bind; [apply tri_attempt, Hc|]. intros [a|e]; [apply Hk|apply He]. Qed.

Lemma ktri_true {A} P (c : M W A) : ktri P c (λ _ _, True).
Proof. intros w _. by destruct (c w).2. Qed.
Context (getParent : Z → M W ParentLink).

(** The device exists with its attributes, and its addresses are the wanted ones. *)
Definition deviceIs (name : string) (vni port : Z) (ipv4 ipv6 : option IPNet) (d : option Vxlan) (k : kernel) : Prop :=
  (∃ v l, d = Some l ∧ vx_Name v = name ∧ vx_VxlanId v = vni ∧ vx_Port v = port ∧ linkIs v l k) ∧
  addrIs ipv4 name k FAMILY_V4 ∧ addrIs ipv6 name k FAMILY_V6.
Lemma stri_EnsureLink name vni port mac ipv4 ipv6 off :
  (∀ n, ipv4 = Some n → GetIPFamily (net_IP n) = FAMILY_V4 ∧ canonicalIP (net_IP n)) →
  (∀ n, ipv6 = Some n → GetIPFamily (net_IP n) = FAMILY_V6 ∧ canonicalIP (net_IP n)) →
  stri (λ _ _, True) (EnsureLink getParent name vni port mac ipv4 ipv6 off) (λ _, deviceIs name vni port ipv4 ipv6).
Proof.
  intros H4 H6. unfold EnsureLink.
  eapply (stri_bind _ _ _ (λ _ _ _, True)); [apply stri_scall; intros d; apply ktri_true|].
  intros parent. set (v := mkVxlan name 0 mac vni (pl_Index parent) (pl_IP parent) [] false port).
  eapply (stri_try _ _ _ (λ l _ k, linkIs v l k)); [apply stri_scall; intros d; apply ktri_ensureLink| |].
  2:{ intros e. eapply (stri_seq _ _ _ (λ _ _, True)); [by apply stri_smod|by apply tri_err]. }
  intros l. set (Dev (d : option Vxlan) (k : kernel) := d = Some l ∧ linkIs v l k).
  eapply (stri_seq _ _ _ Dev); [by apply stri_smod|].
  eapply (stri_seq _ _ _ (λ d k, Dev d k ∧ addrIs ipv4 name k FAMILY_V4)).
  { apply stri_scall. intros d. apply ktri_here. intros k [-> Hl]. eapply ktri_post; [by apply ktri_ensureAddr|].
    intros _ k' (Ha & _ & Hlinks & _). split; [|done]. split; [done|]. unfold linkIs. by rewrite Hlinks. }
  eapply (stri_seq _ _ _ (λ d k, deviceIs name vni port ipv4 ipv6 d k)).
  { apply stri_scall. intros d. apply ktri_here. intros k [[-> Hl] Ha4]. eapply ktri_post; [by apply ktri_ensureAddr|].
    intros _ k' (Ha & Hf & Hlinks & _). split_and!; [|unfold addrIs; by rewrite Hf|done].
    exists v, l. split_and!; try done; unfold linkIs; by rewrite Hlinks. }
  assert (∀ {A} (c : M W A) R, reads kern c R → stri (deviceIs name vni port ipv4 ipv6) (scall c) (λ _, deviceIs name vni port ipv4 ipv6)) as Hskip.
  { intros A c R Hc. apply stri_scall. intros d. eapply ktri_post; [by eapply ktri_reads|]. by intros a k [? _]. }
  eapply stri_seq; [|eapply stri_seq; [destruct off; [eapply Hskip, law_EthtoolTXOff|by apply stri_ret]|]].
  - apply stri_scall. intros d. destruct ipv4; [|by apply ktri_ret]. unfold writeProcSys, ensureFilter.
    eapply ktri_bind; [apply ktri_wrapped; eapply ktri_reads, law_procOpen|]. intros ?.
    eapply ktri_bind; [apply ktri_wrapped; eapply ktri_reads, law_procWrite|]. intros n. case_decide; [by apply tri_err|]. apply ktri_ret. by intros k [[? _] _].
  - apply stri_scall. intros d. apply ktri_wrapped. eapply ktri_post; [eapply ktri_reads, law_LinkSetUp|]. by intros a k [? _].
Qed.
End device.

(** ** Turns that log nothing *)

Section quiet.
Context {W : Type} `{NL : !Netlink W} (kern : W → kernel).

(** The map of peers is [m]; while the log has [n] entries, [P] holds. *)
Context (n : nat) (m : gmap string Peer).
Definition logKept (x : vxlanReconciler * W) : Prop := peerMap x.1 = m ∧ (n <= length (errorLog x.1))%nat.
Definition quietly (P : vxlanReconciler → kernel → Prop) (x : vxlanReconciler * W) : Prop :=
  logKept x ∧ (length (errorLog x.1) = n → P x.1 (kern x.2)).
Definition qtri {A} (P : vxlanReconciler → kernel → Prop) (c : M (vxlanReconciler * W) A) (Q : A → vxlanReconciler → kernel → Prop) : Prop :=
  tri (quietly P) c (λ a, quietly (Q a)) logKept.
Lemma q_bind {A B} P (c : M (vxlanReconciler * W) A) (k : A → M (vxlanReconciler * W) B) Q R : qtri P c Q → (∀ a, qtri (Q a) (k a) R) → qtri P (mbind_ c k) R.
Proof. intros Hc Hk. eapply tri_bind; [exact Hc|exact Hk]. Qed.
Lemma q_seq {A B} P (c : M (vxlanReconciler * W) A) (k : M (vxlanReconciler * W) B) Q R : qtri P c (λ _, Q) → qtri Q k R → qtri P (mbind_ c (λ _, k)) R.
Proof. intros Hc Hk. eapply tri_bind; [exact Hc|intros ?; exact Hk]. Qed.
Lemma q_ret {A} P (a : A) (Q : A → vxlanReconciler → kernel → Prop) : (∀ s k, P s k → Q a s k) → qtri P (mret a) Q.
Proof. intros H. apply tri_ret. intros x [Hn HP]. split; [done|auto]. Qed.
Lemma q_post {A} P (c : M (vxlanReconciler * W) A) (Q Q' : A → vxlanReconciler → kernel → Prop) : qtri P c Q → (∀ a s k, Q a s k → Q' a s k) → qtri P c Q'.
Proof. intros Hc H. eapply tri_post; [exact Hc| |done]. intros a x [Hn HQ]. split; [done|auto]. Qed.
Lemma q_pre {A} (P P' : vxlanReconciler → kernel → Prop) (c : M (vxlanReconciler * W) A) Q : (∀ s k, P s k → P' s k) → qtri P' c Q → qtri P c Q.
Proof. intros H. apply tri_pre. intros x [Hn HP]. split; [done|auto]. Qed.
Lemma q_smod P f (Q : vxlanReconciler → kernel → Prop) : (∀ s, errorLog (f s) = errorLog s ∧ peerMap (f s) = peerMap s) → (∀ s k, P s k → Q (f s) k) → qtri P (smod f) (λ _, Q).
Proof.
  intros Hf H. apply tri_smod. intros s w [[Hm Hn] HP]. destruct (Hf s) as [Hl Hp]. unfold quietly, logKept in *. simpl in *. rewrite Hl, Hp. split; [done|auto].
Qed.
Lemma q_err {A} P e (Q : A → vxlanReconciler → kernel → Prop) : qtri P (merr e) Q.
Proof. apply tri_err. by intros x [? _]. Qed.
Lemma q_sget {A} (P : vxlanReconciler → kernel → Prop) (k : vxlanReconciler → M (vxlanReconciler * W) A) Q : (∀ s, peerMap s = m → qtri P (k s) Q) → qtri P (mbind_ sget k) Q.
Proof. intros Hk. apply tri_sget. intros s x [Hx <-]. by apply (Hk x.1 (proj1 (proj1 Hx))). Qed.
Lemma q_exists {T A} (t0 : T) (P : T → vxlanReconciler → kernel → Prop) (c : M (vxlanReconciler * W) A) Q : (∀ t, qtri (P t) c Q) → qtri (λ s k, ∃ t, P t s k) c Q.
Proof.
  intros Hc x [Hk HP]. destruct (decide (length (errorLog x.1) = n)) as [He|He].
  - destruct (HP He) as [t Ht]. by apply (Hc t x).
  - by apply (Hc t0 x).
Qed.
Lemma q_foreach {A B} (I : list A → B → vxlanReconciler → kernel → Prop) (f : A → B → M (vxlanReconciler * W) B) l b :
  (∀ done x rest b, l = done ++ x :: rest → qtri (I done b) (f x b) (I (done ++ [x]))) → qtri (I [] b) (mforeach f l b) (I l).
Proof. intros Hf. apply (tri_foreach_pos (λ done b, quietly (I done b))). intros done x rest b' Hl. by eapply Hf. Qed.
Lemma q_scall {A} P (c : M W A) (Q : A → vxlanReconciler → kernel → Prop) : (∀ s, ktri kern (P s) c (λ a, Q a s)) → qtri P (scall c) Q.
Proof.
  intros Hc. apply tri_scall. intros s w [Hn HP]. unfold quietly, logKept in *. simpl in *. destruct (decide (length (errorLog s) = n)) as [He|He].
  - specialize (Hc s w (HP He)). destruct (c w) as [w' [a|e|p|]]; simpl in *; [by split|done..].
  - destruct (c w) as [w' [a|e|p|]]; simpl in *; [by split|done..].
Qed.
Lemma q_onDevice {A} P (c : M (option Vxlan * W) A) (Q : A → vxlanReconciler → kernel → Prop) :
  (∀ s, stri kern (λ d k, P (set_device d s) k) c (λ a d k, Q a (set_device d s) k)) → qtri P (onDevice c) Q.
Proof.
  intros Hc [s w] [Hn HP]. unfold quietly, logKept, onDevice in *. simpl in *. destruct (decide (length (errorLog s) = n)) as [He|He].
  - assert (set_device (vx_device s) s = s) as Hs by (by destruct s). specialize (Hc s (vx_device s, w)). simpl in Hc. rewrite Hs in Hc. specialize (Hc (HP He)).
    destruct (c (vx_device s, w)) as [[d w'] [a|e|p|]]; simpl in *; [by split|done..].
  - destruct (c (vx_device s, w)) as [[d w'] [a|e|p|]]; simpl in *; [by split|done..].
Qed.
(** A message makes the log longer. *)
Lemma q_logError msg (Q : vxlanReconciler → kernel → Prop) : tri logKept (logError (W := W) msg) (λ _, quietly Q) logKept.
Proof. apply tri_smod. intros s w [Hm Hn]. unfold quietly, logKept in *. simpl in *. rewrite length_app. simpl. split; [split; [done|lia]|intros; lia]. Qed.
Lemma q_loggedAs {A} msg P (c : M (vxlanReconciler * W) A) Q : qtri P c (λ _, Q) → qtri P (loggedAs msg c) (λ _, Q).
Proof. intros Hc. eapply tri_bind; [apply tri_attempt, Hc|]. intros [a|e]; [by apply tri_ret|apply q_logError]. Qed.
(** After an error the turn ends early. *)
Lemma q_try {A B} P (c : M (vxlanReconciler * W) A) (k : A + error → M (vxlanReconciler * W) B) Q R :
  qtri P c Q → (∀ a, qtri (Q a) (k (inl a)) R) → (∀ e, tri logKept (k (inr e)) (λ b, quietly (R b)) logKept) → qtri P (mbind_ (attempt c) k) R.
Proof. intros Hc Hk He. eapply tri_bind; [apply tri_attempt, Hc|]. intros [a|e]; [apply Hk|apply He]. Qed.
End quiet.

(** ** Neighbours *)

Section turn.
Context {W : Type} `{NL : !Netlink W} (kern : W → kernel) `{HL : !NetlinkLaws W kern} `{VA : !VxlanApi W}.
Context (cfg : vxlanConfig) (rr : RuleRoute) (order : nat → MapOrder).

(** The entries of a peer at the device. *)
Definition peerLinked (i : Z) (p : Peer) (k : kernel) : Prop :=
  (∀ ip, pr_IPv4 p = Some ip ∨ pr_IPv6 p = Some ip → k_arp k !! (i, IPString ip) = Some (pr_MAC p)) ∧
  k_fdb k !! (i, pr_MAC p) = Some (pr_Parent p).
(** Peers that share no address. *)
Definition apart (p q : Peer) : Prop :=
  pr_MAC p ≠ pr_MAC q ∧
  ∀ ip ip', (pr_IPv4 p = Some ip ∨ pr_IPv6 p = Some ip) → (pr_IPv4 q = Some ip' ∨ pr_IPv6 q = Some ip') → IPString ip ≠ IPString ip'.

(** What the neighbours do not touch. *)
Definition restOf (k : kernel) := (k_rules k, k_routes k, k_links k, k_addrs k).

Definition addedArp (i : Z) (mac : list Z) (l : list IP) (m : gmap (Z * string) (list Z)) : gmap (Z * string) (list Z) :=
  foldl (λ m ip, <[(i, IPString ip) := mac]> m) m l.
Definition peerIPs (p : Peer) : list IP := option_list (pr_IPv6 p) ++ option_list (pr_IPv4 p).
(** The kernel after [Add]. *)
Definition withPeer (i : Z) (p : Peer) (k : kernel) : kernel :=
  set_fdb (<[(i, pr_MAC p) := pr_Parent p]> (k_fdb k)) (set_arp (addedArp i (pr_MAC p) (peerIPs p) (k_arp k)) k).
Lemma ktri_addNeigh l mac ip k0 : ktri kern (λ k, k = k0) (addNeigh l mac ip) (λ _ k, k = set_arp (<[(vx_Index l, IPString ip) := mac]> (k_arp k0)) k0).
Proof. eapply ktri_effect; [apply law_NeighSet|]. intros k [] k' -> ->. by rewrite decide_False. Qed.

Lemma stri_Add l p k0 : stri kern (λ d k, d = Some l ∧ k = k0) (Add p) (λ _ d k, d = Some l ∧ k = withPeer (vx_Index l) p k0).
Proof.
  unfold Add. apply stri_sget. intros d. eapply (stri_pre _ _ (λ d' k, (d' = Some l ∧ k = k0) ∧ d = Some l)); [by intros ? ? [[-> ->] ->]|].
  apply stri_extract. intros ->.
  set (k1 := match pr_IPv6 p with Some ip => set_arp (<[(vx_Index l, IPString ip) := pr_MAC p]> (k_arp k0)) k0 | None => k0 end).
  set (k2 := match pr_IPv4 p with Some ip => set_arp (<[(vx_Index l, IPString ip) := pr_MAC p]> (k_arp k1)) k1 | None => k1 end).
  assert (withPeer (vx_Index l) p k0 = set_fdb (<[(vx_Index l, pr_MAC p) := pr_Parent p]> (k_fdb k2)) k2) as ->.
  { unfold withPeer, peerIPs, k2, k1. destruct k0, (pr_IPv4 p), (pr_IPv6 p); done. }
  eapply (stri_seq kern (λ d k, d = Some l ∧ k = k0) _ _ (λ d k, d = Some l ∧ k = k1)).
  { unfold k1. destruct (pr_IPv6 p); [|by apply stri_ret]. apply stri_scall. intros d. apply ktri_here. intros k [-> ->].
    eapply ktri_post; [apply ktri_addNeigh|]. done. }
  eapply (stri_seq kern _ _ _ (λ d k, d = Some l ∧ k = k2)).
  { unfold k2. destruct (pr_IPv4 p); [|by apply stri_ret]. apply stri_scall. intros d. apply ktri_here. intros k [-> ->].
    eapply ktri_post; [apply ktri_addNeigh|]. done. }
  apply stri_scall. intros d. eapply ktri_effect; [apply law_NeighSet|]. intros k [] k' [-> ->] ->. done.
Qed.

Lemma addedArp_in i mac l m ip : ip ∈ l → addedArp i mac l m !! (i, IPString ip) = Some mac.
Proof.
  assert (∀ l m ip, m !! (i, IPString ip) = Some mac → addedArp i mac l m !! (i, IPString ip) = Some mac) as Hkeep.
  { clear. induction l as [|a l IH]; intros m ip Hm; [done|]. cbn [addedArp foldl]. apply IH. destruct (decide (IPString a = IPString ip)) as [->|Hne].
    - by rewrite lookup_insert_eq.
    - rewrite lookup_insert_ne; [done|]. intros Heq. injection Heq as ?. done. }
  revert m. induction l as [|a l IH]; intros m; [by intros ?%elem_of_nil|]. intros [->|Hin]%elem_of_cons; cbn [addedArp foldl].
  - apply Hkeep. by rewrite lookup_insert_eq.
  - by apply IH.
Qed.
Lemma addedArp_out i mac l m key : (∀ ip, ip ∈ l → key ≠ (i, IPString ip)) → addedArp i mac l m !! key = m !! key.
Proof.
  revert m. induction l as [|a l IH]; intros m H; [done|]. cbn [addedArp foldl]. fold (addedArp i mac l (<[(i, IPString a) := mac]> m)). rewrite IH.
  - rewrite lookup_insert_ne; [done|]. intros Heq. by destruct (H a (list_elem_of_here _ _)).
  - intros ip Hip. apply H. by apply list_elem_of_further.
Qed.
Lemma peerIPs_elem p ip : ip ∈ peerIPs p ↔ pr_IPv4 p = Some ip ∨ pr_IPv6 p = Some ip.
Proof.
  unfold peerIPs. destruct (pr_IPv4 p), (pr_IPv6 p); simpl; rewrite ?elem_of_cons, ?elem_of_nil; naive_solver.
Qed.
Lemma withPeer_linked i p k : peerLinked i p (withPeer i p k).
Proof.
  split; [|by cbn; rewrite lookup_insert_eq]. intros ip Hip%peerIPs_elem. cbn [withPeer set_fdb set_arp k_arp]. by apply addedArp_in.
Qed.
Lemma withPeer_other i p q k : apart p q → peerLinked i p k → peerLinked i p (withPeer i q k).
Proof.
  intros [Hmac Hips] [Harp Hfdb]. split.
  - intros ip Hip. cbn [withPeer set_fdb set_arp k_arp]. rewrite addedArp_out; [by apply Harp|].
    intros ip' Hip'%peerIPs_elem Heq. injection Heq as Heq. by apply (Hips ip ip').
  - cbn [withPeer set_fdb k_fdb]. rewrite lookup_insert_ne; [done|]. intros Heq. injection Heq as Heq. congruence.
Qed.
Lemma rangeMap_elem j m key p : (key, p) ∈ rangeMap order j m ↔ m !! key = Some p.
Proof.
  unfold rangeMap. rewrite list_elem_of_omap. split.
  - intros (key' & _ & H). destruct (m !! key') eqn:E; [|done]. by injection H as <- <-.
  - intros H. exists key. rewrite H. split; [|done]. rewrite map_order_perm. apply elem_of_elements, elem_of_dom. by exists p.
Qed.
Lemma rangeMap_keys j m : NoDup (rangeMap order j m).*1.
Proof.
  assert (∀ l : list string, NoDup l → NoDup (omap (λ key, match m !! key with Some p => Some (key, p) | None => None end) l).*1) as H.
  { induction l as [|key l IH]; [by constructor|]. intros [Hk Hl]%NoDup_cons. simpl. destruct (m !! key) as [p|]; [|auto].
    simpl. apply NoDup_cons. split; [|auto]. intros ([key' q] & Heq & (key2 & Hin & Hq)%list_elem_of_omap)%list_elem_of_fmap. simpl in Heq. subst key'.
    destruct (m !! key2); [|done]. injection Hq as -> _. done. }
  apply H. rewrite map_order_perm. apply NoDup_elements.
Qed.
(** Two entries at different places of a visit have different keys. *)
Lemma NoDup_split {A B} (f : A → B) l l1 x l2 y : NoDup (f <$> l) → l = l1 ++ x :: l2 → y ∈ l1 → f y ≠ f x.
Proof.
  intros Hn -> Hin Heq. rewrite fmap_app in Hn. apply NoDup_app in Hn as (_ & Hn & _).
  apply (Hn (f y)); [by apply list_elem_of_fmap_2|]. rewrite Heq. apply list_elem_of_here.
Qed.
Lemma NoDup_fmap_filter {A B} (f : A → B) (P : A → Prop) `{!∀ x, Decision (P x)} l : NoDup (f <$> l) → NoDup (f <$> filter P l).
Proof.
  induction l as [|x l IH]; [done|]. simpl. intros [Hx Hl]%NoDup_cons. rewrite filter_cons. case_decide; [|auto].
  simpl. apply NoDup_cons. split; [|auto]. intros (y & Hy & [_ Hin]%list_elem_of_filter)%list_elem_of_fmap. apply Hx. rewrite Hy. by apply list_elem_of_fmap_2.
Qed.
(** A predicate that does not look at neighbours. *)
Definition noNeigh (G : kernel → Prop) : Prop := ∀ k a f, G k → G (set_fdb f (set_arp a k)).
Lemma set_neigh_id k : set_fdb (k_fdb k) (set_arp (k_arp k) k) = k.
Proof. by destruct k. Qed.
Lemma noNeigh_arp G k a : noNeigh G → G k → G (set_arp a k).
Proof. intros HG Hk. pose proof (HG k a (k_fdb k) Hk) as H. by destruct k. Qed.
Lemma noNeigh_fdb G k f : noNeigh G → G k → G (set_fdb f k).
Proof. intros HG Hk. pose proof (HG k (k_arp k) f Hk) as H. by destruct k. Qed.
Lemma stri_Del l item G : noNeigh G → stri kern (λ d k, d = Some l ∧ G k) (Del item) (λ _ d k, d = Some l ∧ G k).
Proof.
  intros HG. unfold Del. apply stri_sget. intros d. eapply (stri_pre _ _ (λ d' k, (d' = Some l ∧ G k) ∧ d = Some l)); [by intros ? ? [[-> ?] ->]|].
  apply stri_extract. intros ->.
  assert (∀ nb, tri (λ x, x.1 = Some l ∧ G (kern x.2)) (attempt (scall (NeighDel nb))) (λ _ x, x.1 = Some l ∧ G (kern x.2)) (λ _, True)) as Hdel.
  { intros nb. eapply tri_post; [apply (tri_attempt _ _ (λ _ x, x.1 = Some l ∧ G (kern x.2)) (λ x, x.1 = Some l ∧ G (kern x.2)))|by intros []|done].
    apply tri_scall. intros s w [Hs Hk]. simpl in Hs, Hk. subst s. pose proof (law_NeighDel nb w) as H. destruct (NeighDel nb w) as [w' [a|e|p|]]; simpl in *; [|by rewrite H..].
    rewrite H. case_decide; [split; [done|by apply noNeigh_fdb]|split; [done|by apply noNeigh_arp]]. }
  eapply tri_bind; [apply Hdel|]. intros e1. eapply tri_bind; [apply Hdel|]. intros e2. destruct e1, e2; first [by apply tri_ret|by apply tri_err].
Qed.

Definition allLinked (m : gmap string Peer) (i : Z) (k : kernel) : Prop := ∀ key p, m !! key = Some p → key ≠ cf_NodeName cfg → peerLinked i p k.
Context (n : nat) (m : gmap string Peer).
Context (Hapart : ∀ key key' p q, m !! key = Some p → m !! key' = Some q → key ≠ cf_NodeName cfg → key' ≠ cf_NodeName cfg → key ≠ key' → apart p q).

Lemma q_ensureRoute l G : noNeigh G →
  qtri kern n m (λ s k, vx_device s = Some l ∧ G k) (ensureRoute cfg order) (λ _ s k, vx_device s = Some l ∧ G k ∧ allLinked m (vx_Index l) k).
Proof.
  intros HG. unfold ensureRoute. eapply (q_bind _ _ _ _ _ _ (λ _ s k, vx_device s = Some l ∧ G k)).
  { apply q_onDevice. intros s. simpl. unfold ListNeigh. apply stri_sget. intros d.
    eapply (stri_pre _ _ (λ d' k, (d' = Some l ∧ G k) ∧ d = Some l)); [by intros ? ? [[-> ?] ->]|]. apply stri_extract. intros ->.
    apply stri_scall. intros d. eapply ktri_post; [eapply ktri_reads, law_NeighList|]. by intros a k [? _]. }
  intros neighs. apply q_sget. intros s0 ->.
  eapply (q_seq _ _ _ _ _ _ (λ s k, vx_device s = Some l ∧ G k)).
  { apply (q_foreach _ _ _ (λ _ _ s k, vx_device s = Some l ∧ G k)). intros done_ item rest [] _. case_decide; [by apply q_ret|].
    apply q_loggedAs, q_onDevice. intros s. by apply stri_Del. }
  set (own := cf_NodeName cfg). set (L := filter (λ kp, kp.1 ≠ own) (rangeMap order 1 m)).
  set (I (done_ : list (string * Peer)) (_ : unit) (s : vxlanReconciler) (k : kernel) := vx_device s = Some l ∧ G k ∧ ∀ kp, kp ∈ done_ → peerLinked (vx_Index l) kp.2 k).
  eapply q_post; [eapply (q_pre kern n m _ (I [] tt))|].
  - intros s k [? ?]. split_and!; [done|done|by intros kp ?%elem_of_nil].
  - apply (q_foreach kern n m I).
    intros done_ kp rest [] Hsplit. apply q_loggedAs, q_onDevice. intros s. intros x (Hd & Hk & Hall). cbn [vx_device set_device] in Hd.
    assert (stri kern (λ d k, d = Some l ∧ k = kern x.2) (Add kp.2) (λ _ d k, d = Some l ∧ k = withPeer (vx_Index l) kp.2 (kern x.2))) as Hadd by apply stri_Add.
    specialize (Hadd x (conj Hd eq_refl)). destruct (Add kp.2 x) as [x' [a|e|p|]]; simpl in *; [|done..]. destruct Hadd as [-> ->].
    split_and!; [done|by apply HG|]. intros kp' [Hin| ->%list_elem_of_singleton]%elem_of_app; [|apply withPeer_linked].
    apply withPeer_other; [|by apply Hall].
    assert (kp ∈ L) as Hkp by (rewrite Hsplit; apply elem_of_app; right; apply list_elem_of_here).
    assert (kp' ∈ L) as Hkp' by (rewrite Hsplit; apply elem_of_app; by left).
    destruct kp as [key q], kp' as [key' p]. apply list_elem_of_filter in Hkp as [? Hq%rangeMap_elem], Hkp' as [? Hp%rangeMap_elem].
    apply (Hapart key' key); try done. apply (NoDup_split fst L done_ (key, q) rest (key', p)); [apply NoDup_fmap_filter, rangeMap_keys|done|done].
  - intros a s k (Hd & Hk & Hall). split_and!; [done|done|]. intros key p Hp Hne. apply (Hall (key, p)). apply list_elem_of_filter. split; [done|by apply rangeMap_elem].
Qed.
(** ** Rules and routes *)

Lemma filter_via {A} (P Q : A → Prop) `{!∀ x, Decision (P x), !∀ x, Decision (Q x)} (l l' : list A) :
  (∀ x, P x → Q x) → filter Q l' ≡ₚ filter Q l → filter P l' ≡ₚ filter P l.
Proof.
  intros HPQ HQ. assert (∀ l : list A, filter P l = filter P (filter Q l)) as Hf.
  { intros l1. rewrite list_filter_filter. apply list_filter_iff. naive_solver. }
  by rewrite (Hf l'), (Hf l), HQ.
Qed.
Lemma ruleIs_via p t mk (k k' : kernel) f (Q : Rule → Prop) `{!∀ x, Decision (Q x)} : (∀ x, rl_Mark x = mk → Q x) →
  filter Q (rulesOf k' f) ≡ₚ filter Q (rulesOf k f) → ruleIs p t mk k f → ruleIs p t mk k' f.
Proof.
  intros HQ Hp (rule & Hr & Hg). exists rule. split; [|done]. apply Permutation_singleton_r. rewrite <- Hr. by eapply filter_via.
Qed.
Lemma routeIs_via ip t (k k' : kernel) f t' : t ≠ t' → sameRoutesBut t' k k' f → routeIs ip t k f → routeIs ip t k' f.
Proof.
  intros Hne Hs. assert (filter (λ x, rt_Table x = t) (routesOf k' f) ≡ₚ filter (λ x, rt_Table x = t) (routesOf k f)) as Hp.
  { eapply (filter_via _ (λ x, rt_Table x ≠ t')); [by intros x ->|exact Hs]. }
  unfold routeIs. destruct ip as [ip|].
  - intros [[x Hx] Hall]. split; [exists x; by rewrite Hp|by rewrite Hp].
  - intros Hnil. apply Permutation_nil_r. by rewrite <- Hnil.
Qed.
Definition routed (p : Peer) (k : kernel) : Prop := peerRouted rr (pr_IPv4 p) (pr_IPv6 p) (pr_Mark p) (pr_Mark p) k.
Lemma routed_frame p q k k' : pr_Mark p ≠ pr_Mark q → peerFrame (pr_Mark q) (pr_Mark q) k k' → routed p k → routed p k'.
Proof.
  intros Hne (Hrules & Hroutes & _) (H4 & H6 & Hr4 & Hr6).
  split_and!; [intros Hs; eapply ruleIs_via; [|apply Hrules|auto]|intros Hs; eapply ruleIs_via; [|apply Hrules|auto]|by eapply routeIs_via|by eapply routeIs_via];
    cbv beta; by intros x ->.
Qed.
Lemma routed_purge p marks start end_ k k' : pr_Mark p ∈ marks → purgeFrame marks start end_ k k' → routed p k → routed p k'.
Proof.
  intros Hin [Hrules (Hroutes & _)] (H4 & H6 & Hr4 & Hr6). unfold routed, peerRouted, routeIs, routesOf in *. rewrite Hroutes.
  split_and!; [intros Hs; eapply ruleIs_via; [|apply Hrules|auto]|intros Hs; eapply ruleIs_via; [|apply Hrules|auto]|done|done];
    cbv beta; intros x Hx [Hn _]; by rewrite Hx in Hn.
Qed.

(** A predicate that looks neither at rules nor at routes. *)
Definition lower (k : kernel) := (k_links k, k_addrs k, k_arp k, k_fdb k).
Definition noRouting (G : kernel → Prop) : Prop := ∀ k k', lower k' = lower k → G k → G k'.

Context (Hmarks : ∀ key key' p q, m !! key = Some p → m !! key' = Some q → key ≠ key' → pr_Mark p ≠ 0 → pr_Mark p ≠ pr_Mark q).
Context (Hfamily : ∀ key p, m !! key = Some p → (∀ a, pr_IPv4 p = Some a → GetIPFamily a = FAMILY_V4) ∧ (∀ a, pr_IPv6 p = Some a → GetIPFamily a = FAMILY_V6)).

Definition marksOf (l : list (string * Peer)) (marks : gset Z) : Prop := ∀ z, z ∈ marks ↔ ∃ kp, kp ∈ l ∧ pr_Mark kp.2 = z ∧ z ≠ 0.
Lemma q_ensurePeers (H : vxlanReconciler → kernel → Prop) : (∀ s, noRouting (H s)) →
  qtri kern n m H (mforeach (λ kp (markMap : gset Z),
      if decide (pr_Mark kp.2 ≠ 0) then
        let* _ := loggedAs "ensure vxlan link with error" (ensurePeer cfg rr kp.2) in mret ({[pr_Mark kp.2]} ∪ markMap)
      else mret markMap) (rangeMap order 3 m) ∅)
    (λ marks s k, H s k ∧ marksOf (rangeMap order 3 m) marks ∧ ∀ key p, m !! key = Some p → pr_Mark p ≠ 0 → routed p k).
Proof.
  intros HH. set (L := rangeMap order 3 m).
  set (I (done_ : list (string * Peer)) (marks : gset Z) (s : vxlanReconciler) (k : kernel) :=
    H s k ∧ marksOf done_ marks ∧ ∀ kp, kp ∈ done_ → pr_Mark kp.2 ≠ 0 → routed kp.2 k).
  eapply q_post; [eapply (q_pre kern n m _ (I [] ∅))|].
  - intros s k Hk. split_and!; [done| |by intros kp ?%elem_of_nil]. intros z. split; [by intros ?%elem_of_empty|by intros (kp & ?%elem_of_nil & _)].
  - apply (q_foreach kern n m I). intros done_ kp rest marks Hsplit.
    assert (marksOf done_ marks → marksOf (done_ ++ [kp]) (if decide (pr_Mark kp.2 ≠ 0) then {[pr_Mark kp.2]} ∪ marks else marks)) as Hm.
    { intros Hm z. setoid_rewrite elem_of_app. setoid_rewrite list_elem_of_singleton. case_decide; [rewrite elem_of_union, elem_of_singleton|]; rewrite (Hm z); naive_solver. }
    case_decide as Hne; [|apply q_ret; intros s k (? & ? & Hr); split_and!; [done|auto|intros kp' [?| ->%list_elem_of_singleton]%elem_of_app; [auto|done]]].
    eapply (q_seq kern n m _ _ _ (λ s k, H s k ∧ marksOf done_ marks ∧ ∀ kp', kp' ∈ done_ ++ [kp] → pr_Mark kp'.2 ≠ 0 → routed kp'.2 k)).
    2:{ apply q_ret. intros s k (? & ? & ?). split_and!; [done|auto|done]. }
    apply q_loggedAs. unfold ensurePeer. apply q_scall. intros s. apply ktri_here. intros k (Hk & Hmk & Hr).
    assert (kp ∈ L) as Hin by (rewrite Hsplit; apply elem_of_app; right; apply list_elem_of_here).
    destruct kp as [key q]. simpl in *. apply rangeMap_elem in Hin as Hq. destruct (Hfamily key q Hq) as [Hf4 Hf6].
    eapply ktri_weaken. eapply tri_post; [by apply (tri_Ensure kern rr (cf_Name cfg) _ _ _ _ k)| |intros w Hw; exact Hw]. intros _ w [Hrt Hfr]. split_and!; [|done|].
    + destruct Hfr as (_ & _ & Hl & Ha & Hp & Hf). eapply HH; [|exact Hk]. unfold lower. by rewrite Hl, Ha, Hp, Hf.
    + intros [key' p] [Hin'| ->%list_elem_of_singleton]%elem_of_app Hne'; [|done]. eapply routed_frame; [|exact Hfr|by apply (Hr (key', p))].
      assert ((key', p) ∈ L) as Hp%rangeMap_elem by (rewrite Hsplit; apply elem_of_app; by left). apply (Hmarks key' key); try done.
      apply (NoDup_split fst L done_ (key, q) rest (key', p)); [apply rangeMap_keys|done|done].
  - intros marks s k (Hk & Hmk & Hr). split_and!; [done|done|]. intros key p Hp Hne. apply (Hr (key, p)); [by apply rangeMap_elem|done].
Qed.
(** ** A turn *)

Lemma GetIPFamily_V6 ip : GetIPFamily ip = FAMILY_V6 → To4 ip = [].
Proof. unfold GetIPFamily. case_decide; [done|]. case_decide as H4; [done|]. done. Qed.
Lemma To4_canonical ip : To4 ip ≠ [] → GetIPFamily (To4 ip) = FAMILY_V4 ∧ canonicalIP (To4 ip).
Proof.
  intros H. assert (length (To4 ip) = 4%nat) as Hl.
  { unfold To4 in *. case_decide; [done|]. case_decide as Hp; [|done]. destruct Hp. rewrite length_drop. lia. }
  assert (GetIPFamily (To4 ip) = FAMILY_V4) as Hf by (unfold GetIPFamily; rewrite decide_True by lia; done).
  split; [done|]. unfold canonicalIP. by rewrite decide_True.
Qed.
Lemma To16_canonical ip : To4 ip = [] → To16 ip ≠ [] → GetIPFamily (To16 ip) = FAMILY_V6 ∧ canonicalIP (To16 ip).
Proof.
  intros H4 H16. assert (length ip = 16%nat) as Hl.
  { unfold To16, To4 in *. case_decide as H; [by rewrite H4 in H|]. by case_decide. }
  rewrite To16_16 by done. assert (GetIPFamily ip = FAMILY_V6) as Hf by (unfold GetIPFamily; rewrite decide_False by lia; rewrite decide_False by auto; done).
  split; [done|]. unfold canonicalIP. by rewrite Hf.
Qed.
Lemma vtepNets_families vtep ipv4 ipv6 : vtepNets cfg vtep = Ret (ipv4, ipv6) → (∀ a, pr_IPv6 vtep = Some a → GetIPFamily a = FAMILY_V6) →
  (∀ i, ipv4 = Some i → GetIPFamily (net_IP i) = FAMILY_V4 ∧ canonicalIP (net_IP i)) ∧ (∀ i, ipv6 = Some i → GetIPFamily (net_IP i) = FAMILY_V6 ∧ canonicalIP (net_IP i)).
Proof.
  unfold vtepNets. intros Hv H6.
  destruct (cf_EnableIPv4 cfg), (pr_IPv4 vtep) as [a4|], (cf_EnableIPv6 cfg), (pr_IPv6 vtep) as [a6|]; simpl in Hv; try done; injection Hv as <- <-.
  all: split; intros i Hi; try done; case_decide; try done; injection Hi as <-; simpl; first [by apply To4_canonical|apply To16_canonical; [by apply GetIPFamily_V6, H6|done]].
Qed.

Definition linkedDevice (ipv4 ipv6 : option IPNet) (l : Vxlan) (k : kernel) : Prop := deviceIs (cf_Name cfg) (cf_ID cfg) (cf_Port cfg) ipv4 ipv6 (Some l) k.
Lemma linkedDevice_neigh ipv4 ipv6 l : noNeigh (linkedDevice ipv4 ipv6 l).
Proof. by intros k a f H. Qed.
Lemma linkedDevice_routing ipv4 ipv6 l : noRouting (λ k, linkedDevice ipv4 ipv6 l k ∧ allLinked m (vx_Index l) k).
Proof.
  intros k k' Heq. unfold lower in Heq. injection Heq as Hl Ha Hp Hf.
  unfold linkedDevice, deviceIs, linkIs, addrIs, addrsOf, allLinked, peerLinked. by rewrite Hl, Ha, Hp, Hf.
Qed.

(** Device, neighbours, rules and routes are as the map of peers wants them. *)
Definition programmed (ipv4 ipv6 : option IPNet) (start end_ : Z) (k : kernel) : Prop :=
  (∃ l, linkedDevice ipv4 ipv6 l k ∧ allLinked m (vx_Index l) k) ∧
  (∀ key p, m !! key = Some p → pr_Mark p ≠ 0 → routed p k) ∧
  (∀ f rule, f = FAMILY_V4 ∨ f = FAMILY_V6 → rule ∈ rulesOf k f → start <= rl_Mark rule <= end_ → ∃ key p, m !! key = Some p ∧ pr_Mark p = rl_Mark rule).

Context (getParent : Z → M W ParentLink).
Lemma q_updateStatus tunnel v : qtri kern n m (λ _ _, True) (updateEgressTunnelStatus cfg getParent tunnel v) (λ _ _ _, True).
Proof.
  assert (∀ {A} (c : M W A), qtri kern n m (λ _ _, True) (scall c) (λ _ _ _, True)) as Hcall by (intros A c; apply q_scall; intros s; apply ktri_true).
  unfold updateEgressTunnelStatus. eapply q_bind; [apply Hcall|]. intros parent.
  eapply (q_bind _ _ _ _ _ _ (λ _ _ _, True)); [destruct tunnel; [by apply q_ret|apply Hcall]|]. intros [t|]; [|by apply q_ret].
  destruct (refreshTunnel cfg parent v t) as [t' []]; [|by apply q_ret]. unfold updateTunnelStatus.
  eapply (q_bind _ _ _ _ _ _ (λ _ _ _, True)); [|intros ?; by apply q_ret].
  eapply q_bind; [apply Hcall|]. intros now. eapply q_bind; [apply Hcall|]. intros t''.
  eapply (q_seq _ _ _ _ _ _ (λ _ _, True)); [by apply q_smod|by apply q_ret].
Qed.
Lemma stop_early msg (R : Z → vxlanReconciler → kernel → Prop) : (∀ s k, R 1 s k) →
  tri (logKept (W := W) n m) (let* _ := logError msg in mret 1) (λ b, quietly kern n m (R b)) (logKept n m).
Proof.
  intros HR. eapply tri_seq; [apply (q_logError kern n m msg (R 1))|]. by apply tri_ret.
Qed.

Lemma q_keepVXLAN vtep ipv4 ipv6 start end_ : m !! cf_NodeName cfg = Some vtep → vtepNets cfg vtep = Ret (ipv4, ipv6) → RangeSize (cf_Mark cfg) = Ret (start, end_) →
  qtri kern n m (λ _ _, True) (keepVXLAN cfg rr order getParent) (λ d s k, d = 10 → programmed ipv4 ipv6 start end_ k).
Proof.
  intros Hown Hnets Hrange. destruct (vtepNets_families vtep ipv4 ipv6 Hnets (proj2 (Hfamily _ _ Hown))) as [H4 H6].
  unfold keepVXLAN. apply q_sget. intros s1 ->. rewrite Hown. rewrite Hnets. change (mbind_ (lift (Ret (ipv4, ipv6))) ?k) with (k (ipv4, ipv6)). cbv beta iota.
  eapply q_try; [apply q_updateStatus| |intros e; by apply stop_early]. intros ?.
  eapply (q_try _ _ _ _ _ _ (λ _ s k, ∃ l, vx_device s = Some l ∧ linkedDevice ipv4 ipv6 l k)); [| |intros e; by apply stop_early].
  { apply q_onDevice. intros s. eapply stri_post; [by apply stri_EnsureLink|]. intros ? d k Hd. destruct (proj1 Hd) as (v & l & Hdl & _). exists l. rewrite Hdl in *. done. }
  intros ?. apply (q_exists _ _ _ (mkVxlan "" 0 [] 0 0 [] [] false 0)). intros l.
  eapply q_try; [apply q_ensureRoute, linkedDevice_neigh| |intros e; by apply stop_early]. intros ?. apply q_sget. intros s0 ->.
  eapply q_bind.
  { apply (q_ensurePeers (λ s k, vx_device s = Some l ∧ linkedDevice ipv4 ipv6 l k ∧ allLinked m (vx_Index l) k)).
    intros s k k' Heq [Hd Hk]. split; [done|]. by eapply linkedDevice_routing. }
  intros marks. eapply (q_seq _ _ _ _ _ _ (λ _, programmed ipv4 ipv6 start end_)); [|by apply q_ret].
  apply q_loggedAs, q_scall. intros s. apply ktri_here. intros k ((Hd & Hk) & Hm & Hr).
  eapply ktri_weaken. eapply tri_post; [by apply (tri_PurgeStaleRules kern marks _ start end_ k)| |intros w Hw; exact Hw].
  intros _ w [[Hp4 Hp6] Hfr]. split_and!.
  - exists l. destruct Hfr as [_ (_ & Hl & Ha & Hp & Hf)]. eapply linkedDevice_routing; [|exact Hk]. unfold lower. by rewrite Hl, Ha, Hp, Hf.
  - intros key p Hp Hne. eapply routed_purge; [|exact Hfr|by eapply Hr]. apply Hm. exists (key, p). split_and!; [by apply rangeMap_elem|done|done].
  - intros f rule Hf Hin Hrng. assert (¬ staleRule marks start end_ rule) as Hns by (destruct Hf as [-> | ->]; [by eapply Forall_forall in Hp4|by eapply Forall_forall in Hp6]).
    destruct (decide (rl_Mark rule ∈ marks)) as [Hmk|Hmk]; [|by destruct Hns]. apply Hm in Hmk as ([key p] & Hkp%rangeMap_elem & Heq & _). by exists key, p.
Qed.
End turn.

(** ** The claims *)

(** No two peers share an address, a hardware address or a mark, and the addresses are of their families. *)
Definition peersApart (own : string) (m : gmap string Peer) : Prop :=
  (∀ key key' p q, m !! key = Some p → m !! key' = Some q → key ≠ own → key' ≠ own → key ≠ key' → apart p q) ∧
  (∀ key key' p q, m !! key = Some p → m !! key' = Some q → key ≠ key' → pr_Mark p ≠ 0 → pr_Mark p ≠ pr_Mark q) ∧
  (∀ key p, m !! key = Some p → (∀ a, pr_IPv4 p = Some a → GetIPFamily a = FAMILY_V4) ∧ (∀ a, pr_IPv6 p = Some a → GetIPFamily a = FAMILY_V6)).

Section claims.
Context {W : Type} `{NL : !Netlink W} (kern : W → kernel) `{HL : !NetlinkLaws W kern} `{VA : !VxlanApi W}.
Context (cfg : vxlanConfig) (rr : RuleRoute) (order : nat → MapOrder) (getParent : Z → M W ParentLink).

(** C17. The tunnel loop heals the kernel: a turn of keepVXLAN that comes to its end and logs no error leaves, whatever device,
    addresses, neighbours, rules and routes there were before, the device with its vni and port and exactly the node's own
    addresses, an ARP and an FDB entry for every peer, for every peer with a mark exactly one rule from the mark to the peer's table in each
    family it has, whose routes all lead to the peer, and in the range of the marks no rule of a mark that no peer has. *)
Theorem turn_programs_tunnels x y vtep ipv4 ipv6 start end_ :
  peersApart (cf_NodeName cfg) (peerMap x.1) →
  peerMap x.1 !! cf_NodeName cfg = Some vtep → vtepNets cfg vtep = Ret (ipv4, ipv6) → RangeSize (cf_Mark cfg) = Ret (start, end_) →
  keepVXLAN cfg rr order getParent x = (y, Ret 10) → errorLog y.1 = errorLog x.1 →
  programmed cfg rr (peerMap x.1) ipv4 ipv6 start end_ (kern y.2).
Proof.
  intros (Ha & Hm & Hf) Hown Hnets Hrange Hrun Hlog.
  pose proof (q_keepVXLAN kern cfg rr order (length (errorLog x.1)) (peerMap x.1) Ha Hm Hf getParent vtep ipv4 ipv6 start end_ Hown Hnets Hrange) as Hq.
  specialize (Hq x). rewrite Hrun in Hq. destruct Hq as [_ HP]; [by split|]. apply HP; [|done]. simpl. by rewrite Hlog.
Qed.

(** What the first reconcile leaves under the name of this node. *)
Definition lastReady (l : list EgressTunnel) : option Peer :=
  foldl (λ a t, if decide (ts_Phase (t_Status t) = EgressTunnelReady) then match parseVTEP cfg (t_Status t) with Some v => Some v | None => a end else a) None l.

(** What the first reconcile does to the map of peers: it enters no peer at all, and stores under the name of this node the
    tunnel end of the last Ready tunnel of the list, whichever node that tunnel belongs to. *)
Theorem init_takes_last_ready_tunnel x y w l : vaListTunnels x.2 = (w, Ret l) → initTunnelPeerMap cfg x = (y, Ret tt) →
  peerMap y.1 = match lastReady l with Some v => <[cf_NodeName cfg := v]> (peerMap x.1) | None => peerMap x.1 end.
Proof.
  intros Hl Hrun. set (after (a : option Peer) := match a with Some v => <[cf_NodeName cfg := v]> (peerMap x.1) | None => peerMap x.1 end).
  assert (tri (λ x', x' = x) (initTunnelPeerMap cfg) (λ _ x', peerMap x'.1 = after (lastReady l)) (λ _, True)) as Ht.
  { unfold initTunnelPeerMap. eapply (tri_bind _ _ _ (λ l' x', l' = l ∧ peerMap x'.1 = after None)).
    - apply tri_scall. intros s w' <-. simpl in Hl. rewrite Hl. done.
    - intros l'. apply tri_here. intros x1 [-> Hx1].
      eapply tri_pre; [|apply (tri_foreach (λ done (_ : unit) x', peerMap x'.1 = after (lastReady done)))]; [by intros ? ->|].
      intros done t [] _. unfold lastReady. rewrite foldl_app. cbn [foldl]. fold (lastReady done).
      case_decide; [|by apply tri_ret]. destruct (parseVTEP cfg (t_Status t)) as [v|]; [|by apply tri_ret].
      apply tri_smod. intros s w'. cbn [fst peerMap set_peerMap]. intros ->. unfold after. destruct (lastReady done); [|reflexivity]. by rewrite insert_insert_eq. }
  specialize (Ht x eq_refl). by rewrite Hrun in Ht.
Qed.
End claims.

(** *** Hardware addresses *)

Lemma xtoi2_hex2 b : is_byte b → xtoi2 (hexdigit (b / 16)) (hexdigit (b mod 16)) = Some b.
Proof.
  unfold is_byte. intros H. unfold xtoi2. pose proof (Z.mod_pos_bound b 16). pose proof (Z.div_mod b 16).
  rewrite !hexval_hexdigit by (lia || (split; [apply Z.div_pos; lia|apply Z.div_lt_upper_bound; lia])). f_equal. lia.
Qed.
Lemma macColons_hex hw : hw ≠ [] → Forall is_byte hw → macColons ":"%char (joinChar ":"%char (hex2 <$> hw)) = Some hw.
Proof.
  induction hw as [|b hw IH]; [done|]. intros _ [Hb Hhw]%Forall_cons. destruct hw as [|b' hw].
  - simpl. by rewrite xtoi2_hex2.
  - change (joinChar ":"%char (hex2 <$> b :: b' :: hw)) with (hex2 b ++ ":"%char :: joinChar ":"%char (hex2 <$> b' :: hw)).
    cbn [hex2 app macColons]. rewrite decide_False by auto. rewrite xtoi2_hex2 by done. rewrite IH by done.
    destruct (joinChar ":"%char (hex2 <$> b' :: hw)); done.
Qed.
Lemma length_macString hw : hw ≠ [] → length (joinChar ":"%char (hex2 <$> hw)) = (3 * length hw - 1)%nat.
Proof.
  induction hw as [|b hw IH]; [done|]. intros _. destruct hw as [|b' hw]; [done|].
  change (joinChar ":"%char (hex2 <$> b :: b' :: hw)) with (hex2 b ++ ":"%char :: joinChar ":"%char (hex2 <$> b' :: hw)).
  rewrite length_app. cbn [length hex2]. rewrite IH by done. cbn [length]. lia.
Qed.
Lemma ParseMAC_macString hw : Forall is_byte hw → length hw = 6%nat ∨ length hw = 8%nat ∨ length hw = 20%nat → ParseMAC (macString hw) = Some hw.
Proof.
  intros Hb Hl. assert (hw ≠ []) as Hne by (intros ->; simpl in Hl; lia). unfold ParseMAC, macString. rewrite chars_unchars.
  rewrite decide_False by (rewrite length_macString by done; lia). pose proof (macColons_hex hw Hne Hb) as Hm.
  destruct hw as [|b1 [|b2 hw]]; [done|simpl in Hl; lia|].
  change (joinChar ":"%char (hex2 <$> b1 :: b2 :: hw)) with (hex2 b1 ++ ":"%char :: joinChar ":"%char (hex2 <$> b2 :: hw)) in *.
  assert (∃ c d l, joinChar ":"%char (hex2 <$> b2 :: hw) = c :: d :: l) as (c & d & l & Hj) by (destruct hw; simpl; eauto).
  rewrite Hj in *. cbn [hex2 app] in *. rewrite decide_True by auto. rewrite Hm. by rewrite decide_True.
Qed.

(** The hardware addresses survive the way from the controller to the agents: the agent's ParseMAC of the text that
    HardwareAddr.String gives for an address of 6, 8 or 20 bytes is that address, and of the text that the controller generates
    for a node is the six bytes made from the hash of the node's name. *)
Theorem controller_mac_is_read hw nodeName : Forall is_byte hw → length hw = 6%nat ∨ length hw = 8%nat ∨ length hw = 20%nat →
  ParseMAC (macString hw) = Some hw ∧
  ParseMAC (generateMACAddress nodeName) = Some (102 :: take 5 (sha1 (bytesOf (nodeName +:+ "egress")))).
Proof.
  intros Hb Hl. split; [by apply ParseMAC_macString|]. apply (ParseMAC_macString (bytesOf "f" ++ _)).
  - apply Forall_cons. split; [by unfold is_byte|]. apply Forall_take. by destruct (sha1_bytes (bytesOf (nodeName +:+ "egress"))).
  - left. simpl. rewrite length_take. destruct (sha1_bytes (bytesOf (nodeName +:+ "egress"))) as [-> _]. done.
Qed.
