(* ===== verification/VxlanStore.v ===== *)
(** * A node with a kernel

    A world for the tunnels: the kernel's configuration and the objects of the API server.  The calls do
    what [NetlinkLaws] says, and fail when they cannot. *)

From S2P Require Import Prelude GoStd GoNet GoFmt Types Utils MarkAllocator ApiServer Triple StateM Sha1 Tunnel Netlink Route VxlanDevice Vxlan VxlanTheorems.
Open Scope Z_scope.

Record netWorld := mkNetWorld { nw_kernel : kernel; nw_tunnels : list EgressTunnel; nw_gateways : list EgressGateway; nw_now : Z }.
Definition set_kernel (k : kernel) (w : netWorld) : netWorld := mkNetWorld k (nw_tunnels w) (nw_gateways w) (nw_now w).
Definition set_links (f : gmap string Link → gmap string Link) (k : kernel) : kernel :=
  mkKernel (k_rules k) (k_routes k) (f (k_links k)) (k_addrs k) (k_arp k) (k_fdb k).
Definition ENOENT : error := ErrNew "no such file or directory".

(** A call that reads, and one that changes the configuration or fails. *)
Definition reading {A} (f : kernel → option A) : M netWorld A := λ w, match f (nw_kernel w) with Some a => (w, Ret a) | None => (w, Err ENOENT) end.
Definition changing {A} (e : error) (f : kernel → option (kernel * A)) : M netWorld A := λ w,
  match f (nw_kernel w) with Some (k, a) => (set_kernel k w, Ret a) | None => (w, Err e) end.
Definition guarded {A} (P : Prop) `{!Decision P} (a : A) : option A := if decide P then Some a else None.

(** One occurrence is taken out. *)
Definition removeOne {A} `{!EqDecision A} (x : A) (l : list A) : option (list A) :=
  match list_find (λ y, y = x) l with Some (i, _) => Some (delete i l) | None => None end.

(** The neighbours of a link in a family: the entries whose text is an address of the family. *)
Definition neighs (i f : Z) (k : kernel) : list Neigh :=
  omap (λ e : (Z * string) * list Z,
    let '((j, t), mac) := e in
    if decide (j = i ∧ IPString (ParseIP t) = t ∧ GetIPFamily (ParseIP t) = f) then Some (mkNeigh i f (ParseIP t) mac) else None) (map_to_list (k_arp k)).
(** The index of a new link. *)
Definition newIndex (k : kernel) : Z := map_fold (λ _ l i, Z.max (link_Index l + 1) i) 1 (k_links k).

#[export] Instance netWorld_netlink : Netlink netWorld := {|
  nlRules f := reading (λ k, guarded (Forall (λ r, rl_Family r = 0) (rulesOf k f)) (rulesOf k f));
  RuleDel r := changing ENOENT (λ k, match removeOne (set_rl_Family 0 r) (rulesOf k (rl_Family r)) with Some l => Some (set_rules (rl_Family r) l k, tt) | None => None end);
  RuleAdd r := changing EEXIST (λ k, Some (set_rules (rl_Family r) (set_rl_Family 0 r :: rulesOf k (rl_Family r)) k, tt));
  nlRoutes f := reading (λ k, guarded (Forall (λ r, rt_Family r = f) (routesOf k f)) (routesOf k f));
  RouteDel r := changing ENOENT (λ k, match removeOne r (routesOf k (rt_Family r)) with Some l => Some (set_routes (rt_Family r) l k, tt) | None => None end);
  RouteAdd r := changing EEXIST (λ k, let f := GetIPFamily (rt_Gw r) in
    Some (set_routes f (mkRoute (rt_LinkIndex r) (rt_Gw r) (rt_Table r) f (rt_Rest r) :: routesOf k f) k, tt));
  LinkByName n := reading (λ k, match k_links k !! n with Some l => guarded (link_Name l = n) l | None => None end);
  LinkByIndex i := reading (λ k, match list_find (λ p, link_Index p.2 = i ∧ link_Name p.2 = p.1) (map_to_list (k_links k)) with Some (_, (_, l)) => Some l | None => None end);
  LinkAdd v := changing EEXIST (λ k, guarded (k_links k !! vx_Name v = None) (set_links (<[vx_Name v := LinkVxlan (with_Index (newIndex k) v)]>) k, newIndex k));
  LinkDel l := changing ENOENT (λ k, guarded (is_Some (k_links k !! link_Name l)) (set_links (delete (link_Name l)) k, tt));
  LinkSetUp v := reading (λ _, Some tt);
  AddrList n f := reading (λ k, guarded (Forall (λ a, GetIPFamily (net_IP (ad_IPNet a)) = f) (addrsOf k n f)) (addrsOf k n f));
  AddrDel n a := let f := GetIPFamily (net_IP (ad_IPNet a)) in
    changing ENOENT (λ k, match removeOne a (addrsOf k n f) with Some l => Some (set_addrs n f l k, tt) | None => None end);
  AddrAdd n ipn := let f := GetIPFamily (net_IP ipn) in changing EEXIST (λ k, Some (set_addrs n f (mkAddr ipn "" :: addrsOf k n f) k, tt));
  NeighList i f := reading (λ k, Some (neighs i f k));
  NeighSet nb := changing EEXIST (λ k, Some (if decide (ng_Family nb = AF_BRIDGE)
    then set_fdb (<[(ng_LinkIndex nb, ng_HardwareAddr nb) := ng_IP nb]> (k_fdb k)) k
    else set_arp (<[(ng_LinkIndex nb, IPString (ng_IP nb)) := ng_HardwareAddr nb]> (k_arp k)) k, tt));
  (** An entry of the FDB is only removed when its destination is named. *)
  NeighDel nb := changing ENOENT (λ k, if decide (ng_Family nb = AF_BRIDGE)
    then guarded (k_fdb k !! (ng_LinkIndex nb, ng_HardwareAddr nb) = Some (ng_IP nb)) (set_fdb (delete (ng_LinkIndex nb, ng_HardwareAddr nb) (k_fdb k)) k, tt)
    else guarded (is_Some (k_arp k !! (ng_LinkIndex nb, IPString (ng_IP nb)))) (set_arp (delete (ng_LinkIndex nb, IPString (ng_IP nb)) (k_arp k)) k, tt));
  procOpen _ := reading (λ _, Some tt);
  procWrite _ v := reading (λ _, Some (Z.of_nat (String.length v)));
  EthtoolTXOff _ := reading (λ _, Some tt)
|}.

Lemma reading_law {A} (f : kernel → option A) (P : kernel → A → Prop) : (∀ k a, f k = Some a → P k a) → reads nw_kernel (reading f) P.
Proof. intros H w. unfold reading. destruct (f (nw_kernel w)) eqn:E; simpl; [|done]. auto. Qed.
Lemma changing_law {A} e (f : kernel → option (kernel * A)) R : (∀ k k' a, f k = Some (k', a) → R k a k') → effect nw_kernel (changing e f) R.
Proof. intros H w. unfold changing. destruct (f (nw_kernel w)) as [[k a]|] eqn:E; simpl; [|done]. auto. Qed.
Lemma guarded_Some {A} (P : Prop) `{!Decision P} (a b : A) : guarded P a = Some b → P ∧ b = a.
Proof. unfold guarded. case_decide; [by intros [= ->]|done]. Qed.
Lemma removeOne_perm {A} `{!EqDecision A} (x : A) l l' : removeOne x l = Some l' → l ≡ₚ x :: l'.
Proof.
  unfold removeOne. destruct (list_find _ l) as [[i y]|] eqn:E; [|done]. intros [= <-]. apply list_find_Some in E as (Hi & -> & _). by apply delete_Permutation.
Qed.
Lemma newIndex_fresh k n l : k_links k !! n = Some l → link_Index l < newIndex k.
Proof.
  unfold newIndex. intros H. generalize dependent n. induction (k_links k) as [|n' l' m Hn IH] using map_ind; intros n H; [by rewrite lookup_empty in H|].
  rewrite map_fold_insert_L; [|intros; lia|done]. destruct (decide (n = n')) as [->|Hne].
  - rewrite lookup_insert_eq in H. injection H as ->. lia.
  - rewrite lookup_insert_ne in H by done. specialize (IH n H). lia.
Qed.

Lemma family_To16 ip : valid_ip ip → GetIPFamily (To16 ip) = GetIPFamily ip.
Proof.
  intros Hv. destruct (valid_To16 ip Hv) as [Hl _]. pose proof (To4_To16 ip Hv) as H4. unfold GetIPFamily. rewrite (decide_False (P := (length (To16 ip) <= 4)%nat)) by lia. rewrite H4.
  destruct Hv as [[Hlen|Hlen] _]; [rewrite (decide_True (P := (length ip <= 4)%nat)) by lia|by rewrite (decide_False (P := (length ip <= 4)%nat)) by lia].
  rewrite decide_True; [done|]. unfold To4. rewrite decide_True by done. intros ->. done.
Qed.
Lemma neighs_laws i f k :
  (∀ nb, nb ∈ neighs i f k → ng_LinkIndex nb = i ∧ ng_Family nb = f ∧ k_arp k !! (i, IPString (ng_IP nb)) = Some (ng_HardwareAddr nb)) ∧
  (∀ ip mac, valid_ip ip → GetIPFamily ip = f → k_arp k !! (i, IPString ip) = Some mac → ∃ nb, nb ∈ neighs i f k ∧ IPString (ng_IP nb) = IPString ip ∧ ng_HardwareAddr nb = mac).
Proof.
  unfold neighs. split.
  - intros nb ([[j t] mac] & Hin%elem_of_map_to_list & H)%list_elem_of_omap. case_decide as Hc; [|done]. destruct Hc as (-> & Ht & _). injection H as <-. simpl. by rewrite Ht.
  - intros ip mac Hv Hf Hip. pose proof (ParseIP_IPString ip Hv) as Hp. pose proof (IPString_To16 ip Hv) as Hs.
    exists (mkNeigh i f (To16 ip) mac). split_and!; [|done|done]. apply list_elem_of_omap. exists ((i, IPString ip), mac). split; [by apply elem_of_map_to_list|].
    rewrite Hp, decide_True; [done|]. split_and!; [done|done|by rewrite family_To16].
Qed.
#[export] Instance netWorld_laws : NetlinkLaws netWorld nw_kernel.
Proof.
  split; intros; try (apply reading_law; intros k a H); try (apply changing_law; intros k k' a H); cbv zeta in *.
  - by apply guarded_Some in H as [? ->].
  - destruct (removeOne _ _) eqn:E; [|done]. injection H as <- <-. eexists. split; [by apply removeOne_perm|done].
  - injection H as <- <-. by exists (set_rl_Family 0 r).
  - by apply guarded_Some in H as [? ->].
  - destruct (removeOne _ _) eqn:E; [|done]. injection H as <- <-. eexists. split; [by apply removeOne_perm|done].
  - injection H as <- <-. by exists (mkRoute (rt_LinkIndex r) (rt_Gw r) (rt_Table r) (GetIPFamily (rt_Gw r)) (rt_Rest r)).
  - destruct (k_links k !! n) eqn:E; [|done]. by apply guarded_Some in H as [? ->].
  - destruct (list_find _ _) as [[j [n l]]|] eqn:E; [|done]. injection H as <-. apply list_find_Some in E as (Hj & [? Hn] & _). simpl in *.
    split; [|done]. rewrite Hn. apply elem_of_map_to_list. by eapply list_elem_of_lookup_2.
  - apply guarded_Some in H as [Hn [= -> ->]]. split_and!; [done|done|]. intros n l Hne Hl. pose proof (newIndex_fresh _ _ _ Hl). lia.
  - by apply guarded_Some in H as [? [= -> ->]].
  - done.
  - by apply guarded_Some in H as [? ->].
  - apply changing_law. intros k k' u H. destruct (removeOne _ _) eqn:E; [|done]. injection H as <- <-. eexists. split; [by apply removeOne_perm|done].
  - apply changing_law. intros k k' u H'. injection H' as <- <-. by exists "".
  - injection H as <-. apply neighs_laws.
  - by injection H as <- <-.
  - case_decide; by apply guarded_Some in H as [? [= -> ->]].
  - done.
  - done.
  - done.
Qed.

#[export] Instance netWorld_api : VxlanApi netWorld := {|
  vaGetTunnel n w := (w, match list_find (λ t, om_Name (t_Meta t) = nn_Name n) (nw_tunnels w) with Some (_, t) => Ret t | None => Err (ErrApi NotFound) end);
  vaGetGateway n w := (w, match list_find (λ g, om_Name (g_Meta g) = n) (nw_gateways w) with Some (_, g) => Ret g | None => Err (ErrApi NotFound) end);
  vaListTunnels w := (w, Ret (nw_tunnels w));
  vaListGateways w := (w, Ret (nw_gateways w));
  vaUpdateTunnelStatus t w :=
    (mkNetWorld (nw_kernel w) ((λ t', if decide (om_Name (t_Meta t') = om_Name (t_Meta t)) then t else t') <$> nw_tunnels w) (nw_gateways w) (nw_now w), Ret t);
  vaNow w := (w, Ret (nw_now w))
|}.

(** ** Two nodes *)

Definition cfg1 : vxlanConfig :=
  mkVxlanConfig "node1" true true "egress.vxlan" 100 7789 false (mkIPNet (ParseIP "10.6.0.0") (CIDRMask 16 4)) (mkIPNet (ParseIP "fd00::") (CIDRMask 64 16)) "0x26000000" 5.
Definition inOrder (_ : nat) : MapOrder := {| map_order l := l; map_order_perm l := reflexivity l |}.
Definition tunnelOf (name v4 v6 parent mark : string) : EgressTunnel :=
  mkEgressTunnel (mkMeta name "" ∅ [] false 1)
    (mkTunnelStatus (mkTunnel v4 v6 (generateMACAddress name) (mkParent "eth0" parent "")) EgressTunnelReady mark 0).
Definition tunnel1 : EgressTunnel := tunnelOf "node1" "10.6.0.1" "fd00::1" "192.168.0.1" "0x26000001".
Definition tunnel2 : EgressTunnel := tunnelOf "node2" "10.6.0.2" "fd00::2" "192.168.0.2" "0x26000002".
(** The kernel has an interface, and rules and routes that are not wanted any more. *)
Definition kernel0 : kernel := mkKernel
  {[ FAMILY_V4 := [mkRule 99 0 638 0x26000009 ""; mkRule 32766 0 254 (-1) ""; mkRule 50 0 7 0x26000002 ""] ]}
  {[ FAMILY_V4 := [mkRoute 2 [] 254 FAMILY_V4 "192.168.0.0/24"; mkRoute 2 [10; 6; 0; 9] 0x26000002 FAMILY_V4 ""] ]}
  {[ "eth0" := LinkOther "eth0" 2 "device" ]} {[ ("eth0", FAMILY_V4) := [mkAddr (mkIPNet [192; 168; 0; 1] (CIDRMask 24 4)) ""] ]} ∅ ∅.
Definition netWorld0 : netWorld := mkNetWorld kernel0 [tunnel1; tunnel2] [] 7.
Definition parent1 : Z → M netWorld ParentLink := GetParentByName "eth0".
Definition rr1 : RuleRoute := NewRuleRoute [].
Definition start1 : vxlanReconciler * netWorld := (mkVxlanReconciler ∅ None true None [], netWorld0).
Definition event1 (name : string) (x : vxlanReconciler * netWorld) : vxlanReconciler * netWorld :=
  (reconcileEgressTunnel cfg1 rr1 inOrder parent1 (mkNN "" name) x).1.
Definition turn1 (x : vxlanReconciler * netWorld) : vxlanReconciler * netWorld := (keepVXLAN cfg1 rr1 inOrder parent1 x).1.
Definition known1 : vxlanReconciler * netWorld := event1 "node1" (event1 "node2" start1).

(** The errors of the events, which come before the device, and the kernel after the first turn. *)
Example first_turn :
  errorLog known1.1 = ["ensure vxlan link"] ∧ errorLog (turn1 known1).1 = errorLog known1.1 ∧
  rulesOf (nw_kernel (turn1 known1).2) FAMILY_V4 = [mkRule 99 0 0x26000002 0x26000002 ""; mkRule 32766 0 254 (-1) ""] ∧
  (rt_Gw <$> filter (λ r, rt_Table r = 0x26000002) (routesOf (nw_kernel (turn1 known1).2) FAMILY_V4)) = [[10; 6; 0; 2]] ∧
  (ad_IPNet <$> addrsOf (nw_kernel (turn1 known1).2) "egress.vxlan" FAMILY_V4) = [mkIPNet [10; 6; 0; 1] (CIDRMask 16 4)].
Proof. vm_compute. done. Qed.

(** ** The claims at these nodes *)

Definition peer1 : Peer := mkPeer (Some (ParseIP "10.6.0.1")) (Some (ParseIP "fd00::1")) [] (102 :: take 5 (sha1 (bytesOf "node1egress"))) 0.
Definition peer2 : Peer := mkPeer (Some [10; 6; 0; 2]) (Some (ParseIP "fd00::2")) (ParseIP "192.168.0.2") (102 :: take 5 (sha1 (bytesOf "node2egress"))) 0x26000002.
Lemma peers1 : peerMap known1.1 = {[ "node1" := peer1; "node2" := peer2 ]}.
Proof. apply map_eq. intros key. vm_compute. reflexivity. Qed.
Lemma peers1_lookup key p : peerMap known1.1 !! key = Some p → (key = "node1" ∧ p = peer1) ∨ (key = "node2" ∧ p = peer2).
Proof.
  rewrite peers1, lookup_insert_Some, lookup_singleton_Some. intros [[<- <-]|[_ [<- <-]]]; [by left|by right].
Qed.
Lemma peers1_apart : peersApart (cf_NodeName cfg1) (peerMap known1.1).
Proof.
  split_and!.
  - intros key key' p q [[-> _]|[-> _]]%peers1_lookup [[-> _]|[-> _]]%peers1_lookup H1 H2 Hne; exfalso; first [by apply H1|by apply H2|by apply Hne].
  - intros key key' p q [[-> ->]|[-> ->]]%peers1_lookup [[-> ->]|[-> ->]]%peers1_lookup Hne Hz; done.
  - intros key p [[-> ->]|[-> ->]]%peers1_lookup; split; intros a [= <-]; vm_compute; reflexivity.
Qed.

Definition nets1 : option IPNet * option IPNet := (Some (mkIPNet [10; 6; 0; 1] (CIDRMask 16 4)), Some (mkIPNet (ParseIP "fd00::1") (CIDRMask 64 16))).
Lemma turn_programs_tunnels_witness : programmed cfg1 rr1 (peerMap known1.1) nets1.1 nets1.2 0x26000000 0x26ffffff (nw_kernel (turn1 known1).2).
Proof.
  apply (turn_programs_tunnels nw_kernel cfg1 rr1 inOrder parent1 known1 (turn1 known1) peer1).
  - exact peers1_apart.
  - vm_compute. reflexivity.
  - vm_compute. reflexivity.
  - vm_compute. reflexivity.
  - vm_compute. reflexivity.
  - vm_compute. reflexivity.
Defined.

Lemma init_takes_last_ready_tunnel_witness :
  peerMap (initTunnelPeerMap cfg1 start1).1.1 = {[ "node1" := mkPeer (Some (ParseIP "10.6.0.2")) (Some (ParseIP "fd00::2")) [] (pr_MAC peer2) 0 ]}.
Proof.
  rewrite (init_takes_last_ready_tunnel cfg1 start1 (initTunnelPeerMap cfg1 start1).1 netWorld0 [tunnel1; tunnel2]).
  - apply map_eq. intros key. vm_compute. reflexivity.
  - vm_compute. reflexivity.
  - vm_compute. reflexivity.
Defined.
Lemma controller_mac_is_read_witness : ParseMAC "66:1e:0b:00:ff:7a" = Some [102; 30; 11; 0; 255; 122].
Proof.
  apply (proj1 (controller_mac_is_read [102; 30; 11; 0; 255; 122] "node1" ltac:(repeat constructor; unfold is_byte; lia) (or_introl eq_refl))).
Defined.

(** ** Where the code falls short *)

(** After a restart the device of this node gets the address of another node, until its own tunnel is reconciled. *)
Example device_of_another_node :
  let fresh := (mkVxlanReconciler ∅ None false None [], netWorld0) in
  let x := (vxlan_Reconcile cfg1 rr1 inOrder parent1 1 (mkNN "EgressTunnel/" "node2") fresh).1 in
  (ad_IPNet <$> addrsOf (nw_kernel (turn1 x).2) "egress.vxlan" FAMILY_V4) = [mkIPNet [10; 6; 0; 2] (CIDRMask 16 4)].
Proof. vm_compute. reflexivity. Qed.

(** When a peer goes, its entry in the FDB stays: it is looked for with the tunnel's address and was made with the parent's. *)
Definition gone2 : vxlanReconciler * netWorld :=
  let x := turn1 known1 in event1 "node2" (x.1, mkNetWorld (nw_kernel x.2) [tunnel1] [] 7).
Example fdb_entry_stays :
  errorLog gone2.1 = ["ensure vxlan link"; "delete link layer neighbor"] ∧ k_fdb (nw_kernel gone2.2) !! (3, pr_MAC peer2) = Some (ParseIP "192.168.0.2") ∧
  k_fdb (nw_kernel (turn1 gone2).2) !! (3, pr_MAC peer2) = Some (ParseIP "192.168.0.2") ∧
  (** So does its IPv6 neighbour, since only those of IPv4 are listed. *)
  k_arp (nw_kernel (turn1 gone2).2) !! (3, "10.6.0.2") = None ∧ k_arp (nw_kernel (turn1 gone2).2) !! (3, "fd00::2") = Some (pr_MAC peer2).
Proof. vm_compute. done. Qed.

(** Without a default route the first route of the main table decides. *)
Example parent_without_default_route : (GetParentByDefaultRoute 4 netWorld0).2 = Ret (mkParentLink "eth0" [192; 168; 0; 1] 2).
Proof. vm_compute. reflexivity. Qed.

(** A mark with the highest bit cannot be read; the peer gets no rules. *)
Example high_mark_is_dropped : parseMarkToInt "0x80000001" = Err ErrRange ∧ parseMarkToInt "0x26000002" = Ret 0x26000002.
Proof. by vm_compute. Qed.
