(* ===== verification/ClusterInfo.v ===== *)
(** * The cluster-info controller ([pkg/controller/clusterinfo])

    The addresses inside the cluster (of nodes, pods and services, and extra blocks) are collected in the
    status of the object [default] of kind EgressClusterInfo, from which the agents take them. *)

From S2P Require Import Prelude GoStd GoNet GoFmt IPUtil Types Utils ApiServer Triple StateM.
Open Scope nat_scope.

(** ** Objects *)

(** [corev1.Node]: its metadata, and the types and texts of its addresses. *)
Record CNode := mkCNode { cn_Meta : ObjectMeta; cn_Addresses : list (string * string) }.
(** [calicov1.IPPool]. *)
Record IPPool := mkIPPool { ip_Meta : ObjectMeta; ip_CIDR : string }.
(** The containers of a pod: command and arguments. *)
Abbreviation Containers := (list (list string * list string)).

Definition defaultName : string := "default".
Definition NodeInternalIP : string := "InternalIP".
Definition CniTypeCalico : string := "calico".
Definition CniTypeAuto : string := "auto".

Definition getNodeIPList (node : CNode) : list string * list string :=
  foldl (λ '(v4, v6) '(typ, address),
    if decide (typ = NodeInternalIP) then
      (if orFalse (IsIPv4 address) then v4 ++ [address] else v4, if orFalse (IsIPv6 address) then v6 ++ [address] else v6)
    else (v4, v6)) ([], []) (cn_Addresses node).
Definition getCalicoIPPoolList (pool : IPPool) : list string * list string :=
  (if orFalse (IsIPv4Cidr (ip_CIDR pool)) then [ip_CIDR pool] else [], if orFalse (IsIPv6Cidr (ip_CIDR pool)) then [ip_CIDR pool] else []).
(** [pkg/utils/node.go]: the last address of each family. *)
Definition GetNodeIP (node : CNode) : string * string :=
  foldl (λ '(v4, v6) '(typ, address),
    if decide (typ = NodeInternalIP) then (if orFalse (IsIPv4 address) then address else v4, if orFalse (IsIPv6 address) then address else v6)
    else (v4, v6)) ("", "") (cn_Addresses node).

Definition parseCIDRFromControllerManager (containers : Containers) (param : string) : outcome (list string * list string) :=
  match containers with
  | [] => Err (ErrNew "failed to found containers")
  | (command, args) :: _ =>
      let! ipRange := match list_find (λ c, containsChars (chars param) (chars c) = true) (command ++ args) with
        | None => Ret ""
        | Some (_, c) => match Split c "="%char with _ :: x :: _ => Ret x | _ => Panic "index out of range" end
        end in
      if decide (ipRange = "") then Err (ErrNew "failed to found parameter")
      else
        match Split ipRange ","%char with
        | [x] =>
            let '(v4, v6) := if orFalse (IsIPv4Cidr x) then ([x], []) else ([], []) in
            Ret (if orFalse (IsIPv6Cidr x) then ([], [x]) else (v4, v6))
        | [x; y] => Ret ([x], [y])
        | _ => Ret ([], [])
        end
  end.

(** ** The controller *)

(** [doOnce] and [watchOnce]. *)
Record clusterInfo := mkClusterInfoCtrl { servicesDone : bool; watchDone : bool }.
Definition set_servicesDone (r : clusterInfo) : clusterInfo := mkClusterInfoCtrl true (watchDone r).
Definition set_watchDone (r : clusterInfo) : clusterInfo := mkClusterInfoCtrl (servicesDone r) true.

Class InfoApi (W : Type) := {
  iaGetInfo : string → M W EgressClusterInfo;
  iaUpdateStatus : EgressClusterInfo → M W unit;
  iaGetNode : string → M W CNode;
  iaGetPool : string → M W IPPool;
  (** The containers of the pods with the labels. *)
  iaListPods : labelSet → M W (list Containers);
  iaListPools : M W unit;
  iaWatchPools : M W unit
}.

Section controller.
Context {W : Type} `{IA : !InfoApi W}.
Abbreviation CM := (M (clusterInfo * W)).

Definition kubeControllerManagerPodLabelList : list labelSet :=
  [ {[ "component" := "kube-controller-manager" ]}; {[ "k8s-app" := "kube-controller-manager" ]} ].
Fixpoint clusterCIDRFrom (labels : list labelSet) : M W (list string * list string) :=
  match labels with
  | [] => mret ([], [])
  | item :: rest =>
      let* pods := iaListPods item in
      match pods with
      | [] => clusterCIDRFrom rest
      | pod :: _ => lift (parseCIDRFromControllerManager pod "--service-cluster-ip-range=")
      end
  end.
Definition GetClusterCIDR : M W (list string * list string) := clusterCIDRFrom kubeControllerManagerPodLabelList.

Definition set_infoStatus (info : EgressClusterInfo) (s : EgressClusterInfoStatus) : EgressClusterInfo := mkClusterInfo (ci_Meta info) (ci_Spec info) s.
Definition set_NodeIP (m : gmap string IPListPair) (s : EgressClusterInfoStatus) : EgressClusterInfoStatus :=
  mkClusterInfoStatus (ci_PodCidrMode s) m (ci_ClusterIP s) (ci_PodCIDR s) (ci_ExtraCidr s).
Definition set_PodCIDR (m : gmap string IPListPair) (s : EgressClusterInfoStatus) : EgressClusterInfoStatus :=
  mkClusterInfoStatus (ci_PodCidrMode s) (ci_NodeIP s) (ci_ClusterIP s) m (ci_ExtraCidr s).
Definition set_ClusterIP (p : IPListPair) (s : EgressClusterInfoStatus) : EgressClusterInfoStatus :=
  mkClusterInfoStatus (ci_PodCidrMode s) (ci_NodeIP s) (Some p) (ci_PodCIDR s) (ci_ExtraCidr s).
Definition set_ExtraCidr (l : list string) (s : EgressClusterInfoStatus) : EgressClusterInfoStatus :=
  mkClusterInfoStatus (ci_PodCidrMode s) (ci_NodeIP s) (ci_ClusterIP s) (ci_PodCIDR s) l.

(** A failing update is wrapped. *)
Definition updateInfo (info : EgressClusterInfo) : M W unit :=
  let* r := attempt (iaUpdateStatus info) in
  match r with inl _ => mret tt | inr _ => merr (ErrNew "failed to update EgressClusterInfo") end.

(** The entry of a name in a map of the status is brought in line; [None] for an object that is gone. *)
Definition syncEntry (info : EgressClusterInfo) (get : EgressClusterInfoStatus → gmap string IPListPair)
    (set : gmap string IPListPair → EgressClusterInfoStatus → EgressClusterInfoStatus) (name : string) (want : option (list string * list string)) : M W unit :=
  let s := ci_Status info in
  match want with
  | None =>
      if decide (is_Some (get s !! name)) then updateInfo (set_infoStatus info (set (delete name (get s)) s)) else mret tt
  | Some (ipv4, ipv6) =>
      let new := set_infoStatus info (set (<[name := mkIPListPair ipv4 ipv6]> (get s)) s) in
      match get s !! name with
      | Some val => if negb (EqualStringSlice (il_IPv4 val) ipv4) || negb (EqualStringSlice (il_IPv6 val) ipv6) then updateInfo new else mret tt
      | None => updateInfo new
      end
  end.

Definition info_reconcileNode (name : string) : M W unit :=
  let* info := getOrAbsent (iaGetInfo defaultName) in
  match info with
  | None => mret tt
  | Some info =>
      if negb (ad_NodeIP (cis_AutoDetect (ci_Spec info))) then mret tt
      else
        let* node := getOrAbsent (iaGetNode name) in
        syncEntry info ci_NodeIP set_NodeIP name
          (match node with Some n => if om_Deleting (cn_Meta n) then None else Some (getNodeIPList n) | None => None end)
  end.
Definition podMode (info : EgressClusterInfo) : bool :=
  let mode := ad_PodCidrMode (cis_AutoDetect (ci_Spec info)) in bool_decide (mode = CniTypeCalico ∨ mode = CniTypeAuto).
Definition reconcileCalicoIPPool (name : string) : M W unit :=
  let* info := getOrAbsent (iaGetInfo defaultName) in
  match info with
  | None => mret tt
  | Some info =>
      if negb (podMode info) then mret tt
      else
        let* pool := getOrAbsent (iaGetPool name) in
        syncEntry info ci_PodCIDR set_PodCIDR name
          (match pool with Some p => if om_Deleting (ip_Meta p) then None else Some (getCalicoIPPoolList p) | None => None end)
  end.

(** The closure [watchCalico], with at most [fuel] attempts to watch. *)
Fixpoint watchCalico (fuel : nat) : M W unit :=
  match fuel with
  | O => lift Timeout
  | S fuel' =>
      let* r := attempt iaListPools in
      match r with
      | inr _ => mret tt
      | inl _ => let* r := attempt iaWatchPools in match r with inl _ => mret tt | inr _ => watchCalico fuel' end
      end
  end.
Definition reconcileInfo (fuel : nat) (name : string) : CM unit :=
  let* info := scall (getOrAbsent (iaGetInfo name)) in
  match info with
  | None => mret tt
  | Some info =>
      if om_Deleting (ci_Meta info) then mret tt
      else
        let* r := sget in
        let* _ := (if podMode info && negb (watchDone r) then let* _ := scall (watchCalico fuel) in smod set_watchDone else mret tt) in
        let extra := cis_ExtraCidr (ci_Spec info) in
        if negb (EqualStringSlice extra (ci_ExtraCidr (ci_Status info)))
        then scall (updateInfo (set_infoStatus info (set_ExtraCidr extra (ci_Status info)))) else mret tt
  end.

Definition updateK8sServiceCIDR : M W unit :=
  let* info := iaGetInfo defaultName in
  if negb (ad_ClusterIP (cis_AutoDetect (ci_Spec info))) then mret tt
  else
    let* (v4, v6) := GetClusterCIDR in
    let new := set_infoStatus info (set_ClusterIP (mkIPListPair v4 v6) (ci_Status info)) in
    match ci_ClusterIP (ci_Status info) with
    | Some old => if negb (EqualStringSlice (il_IPv4 old) v4) || negb (EqualStringSlice (il_IPv6 old) v6) then updateInfo new else mret tt
    | None => updateInfo new
    end.
(** The endless loop of [doOnce], at most [fuel] times. *)
Fixpoint servicesLoop (fuel : nat) : M W unit :=
  match fuel with
  | O => lift Timeout
  | S fuel' => let* r := attempt updateK8sServiceCIDR in match r with inl _ => mret tt | inr _ => servicesLoop fuel' end
  end.

(** An error asks for the request again. *)
Definition info_Reconcile (fuel : nat) (req : NamespacedName) : CM unit :=
  let* r := sget in
  let* _ := (if servicesDone r then mret tt else let* _ := scall (servicesLoop fuel) in smod set_servicesDone) in
  let* (kind, newReq) := lift (ParseKindWithReq req) in
  if decide (kind = "Node") then scall (info_reconcileNode (nn_Name newReq))
  else if decide (kind = "CalicoIPPool") then scall (reconcileCalicoIPPool (nn_Name newReq))
  else if decide (kind = "EgressClusterInfo") then reconcileInfo fuel (nn_Name newReq)
  else mret tt.

Definition infoNodePredicate_Update (old new : CNode) : bool :=
  negb (EqualStringSlice (getNodeIPList old).1 (getNodeIPList new).1 && EqualStringSlice (getNodeIPList old).2 (getNodeIPList new).2).
#[local] Instance AutoDetect_eq_dec : EqDecision AutoDetect.
Proof. solve_decision. Defined.
Definition infoPredicate_Update (old new : EgressClusterInfo) : bool :=
  if decide (cis_AutoDetect (ci_Spec old) ≠ cis_AutoDetect (ci_Spec new)) then true
  else negb (EqualStringSlice (cis_ExtraCidr (ci_Spec old)) (cis_ExtraCidr (ci_Spec new))).
End controller.
