(* ===== verification/ClusterInfoTheorems.v ===== *)
(** * What the cluster info reports

    After the requests of a run were handled without an error, the status of the cluster info has, for every
    object that was requested, exactly the addresses of that object. *)

From S2P Require Import Prelude GoStd GoNet GoFmt IPUtil Types Utils ApiServer Triple StateM ClusterInfo.
Open Scope nat_scope.

(** ** The API server *)

Record infoView := mkInfoView { iv_infos : gmap string EgressClusterInfo; iv_nodes : gmap string CNode; iv_pools : gmap string IPPool }.
Definition set_infos (m : gmap string EgressClusterInfo) (v : infoView) : infoView := mkInfoView m (iv_nodes v) (iv_pools v).

Section view.
Context {W : Type} (view : W → infoView).
(** A read returns the object, or says that there is none, and changes nothing. *)
Definition getsFrom {A} (c : M W A) (look : infoView → option A) : Prop := ∀ w, view (c w).1 = view w ∧
  match (c w).2 with Ret a => look (view w) = Some a | Err e => e = ErrApi NotFound → look (view w) = None | _ => True end.
Definition leavesAlone {A} (c : M W A) : Prop := ∀ w, view (c w).1 = view w.

Class InfoLaws `{IA : !InfoApi W} := {
  il_GetInfo n : getsFrom (iaGetInfo n) (λ v, iv_infos v !! n);
  il_GetInfo_name n w w' i : iaGetInfo n w = (w', Ret i) → om_Name (ci_Meta i) = n;
  il_GetNode n : getsFrom (iaGetNode n) (λ v, iv_nodes v !! n);
  il_GetPool n : getsFrom (iaGetPool n) (λ v, iv_pools v !! n);
  il_ListPods l : leavesAlone (iaListPods l);
  il_ListPools : leavesAlone iaListPools;
  il_WatchPools : leavesAlone iaWatchPools;
  (** An update writes the status of an object that is there, and nothing else of it but its version. *)
  il_Update i w : match (iaUpdateStatus i w).2 with
    | Ret _ => ∃ old m, iv_infos (view w) !! om_Name (ci_Meta i) = Some old ∧ om_Deleting m = om_Deleting (ci_Meta old) ∧
        view (iaUpdateStatus i w).1 = set_infos (<[om_Name (ci_Meta i) := mkClusterInfo m (ci_Spec old) (ci_Status i)]> (iv_infos (view w))) (view w)
    | _ => view (iaUpdateStatus i w).1 = view w
    end
}.
End view.

(** ** What is synchronised *)

Inductive target := TNode (n : string) | TPool (n : string) | TInfo (n : string).
#[export] Instance target_eq_dec : EqDecision target.
Proof. solve_decision. Defined.

(** The addresses an object has; [None] when it is gone. *)
Definition wantNode (v : infoView) (n : string) : option (list string * list string) :=
  match iv_nodes v !! n with Some x => if om_Deleting (cn_Meta x) then None else Some (getNodeIPList x) | None => None end.
Definition wantPool (v : infoView) (n : string) : option (list string * list string) :=
  match iv_pools v !! n with Some x => if om_Deleting (ip_Meta x) then None else Some (getCalicoIPPoolList x) | None => None end.
(** An entry with these addresses, in any order. *)
Definition entryIs (e : option IPListPair) (want : option (list string * list string)) : Prop :=
  match e, want with
  | None, None => True
  | Some p, Some (v4, v6) => il_IPv4 p ≡ₚ v4 ∧ il_IPv6 p ≡ₚ v6
  | _, _ => False
  end.
Definition synced (v : infoView) (t : target) : Prop :=
  match t with
  | TNode n => ∀ i, iv_infos v !! defaultName = Some i → ad_NodeIP (cis_AutoDetect (ci_Spec i)) = true → entryIs (ci_NodeIP (ci_Status i) !! n) (wantNode v n)
  | TPool n => ∀ i, iv_infos v !! defaultName = Some i → podMode i = true → entryIs (ci_PodCIDR (ci_Status i) !! n) (wantPool v n)
  | TInfo n => ∀ i, iv_infos v !! n = Some i → om_Deleting (ci_Meta i) = false → cis_ExtraCidr (ci_Spec i) ≡ₚ ci_ExtraCidr (ci_Status i)
  end.

(** Objects and what is synchronised stay, but for one target. *)
Definition keepsOthers (t : option target) (v v' : infoView) : Prop :=
  iv_nodes v' = iv_nodes v ∧ iv_pools v' = iv_pools v ∧ ∀ t', Some t' ≠ t → synced v t' → synced v' t'.
#[export] Instance keepsOthers_refl t : Reflexive (keepsOthers t).
Proof. by intros v. Qed.

(** Statuses that differ at most where a target is. *)
Definition statusBut (t : option target) (s s' : EgressClusterInfoStatus) : Prop :=
  (∀ n, Some (TNode n) ≠ t → ci_NodeIP s' !! n = ci_NodeIP s !! n) ∧ (∀ n, Some (TPool n) ≠ t → ci_PodCIDR s' !! n = ci_PodCIDR s !! n) ∧
  ((∀ n, Some (TInfo n) ≠ t) → ci_ExtraCidr s' = ci_ExtraCidr s).
Lemma written_keepsOthers t v name old m s' : iv_infos v !! name = Some old → om_Deleting m = om_Deleting (ci_Meta old) → statusBut t (ci_Status old) s' →
  (∀ n, t = Some (TInfo n) → n = name) →
  keepsOthers t v (set_infos (<[name := mkClusterInfo m (ci_Spec old) s']> (iv_infos v)) v).
Proof.
  intros Hold Hdel (Hn & Hp & He) Ht. split_and!; [done|done|]. intros t' Ht' Hs.
  assert (∀ n i, <[name := mkClusterInfo m (ci_Spec old) s']> (iv_infos v) !! n = Some i →
    ∃ o, iv_infos v !! n = Some o ∧ ci_Spec i = ci_Spec o ∧ om_Deleting (ci_Meta i) = om_Deleting (ci_Meta o) ∧ (o = old ∧ n = name ∧ ci_Status i = s' ∨ ci_Status i = ci_Status o)) as Hlook.
  { intros n i. destruct (decide (n = name)) as [->|Hne]; [rewrite lookup_insert_eq|rewrite lookup_insert_ne by done].
    - intros [= <-]. exists old. split_and!; [done|done|done|by left].
    - intros Hi. exists i. split_and!; [done|done|done|by right]. }
  destruct t' as [n|n|n]; simpl in *; intros i (o & Ho & Hspec & Hd & Hst)%Hlook; rewrite ?Hspec, ?Hd; unfold podMode; rewrite ?Hspec; intros Hon; specialize (Hs o Ho Hon).
  - destruct Hst as [(-> & _ & ->)| ->]; [|done]. by rewrite Hn.
  - destruct Hst as [(-> & _ & ->)| ->]; [|done]. by rewrite Hp.
  - destruct Hst as [(-> & -> & ->)| ->]; [|done]. rewrite He; [done|]. intros n' Heq. apply Ht' . rewrite <- Heq. by rewrite (Ht n').
Qed.

(** ** The handlers *)

Section handlers.
Context {W : Type} `{IA : !InfoApi W} (view : W → infoView) `{HL : !InfoLaws view}.

Lemma tri_getOrAbsent {A} (c : M W A) look v0 : getsFrom view c look →
  tri (λ w, view w = v0) (getOrAbsent c) (λ o w, view w = v0 ∧ look v0 = o) (λ w, view w = v0).
Proof.
  intros Hc w Hw. destruct (Hc w) as [Hv Hr]. unfold getOrAbsent, attempt, mbind_. destruct (c w) as [w' [a|e|s|]]; simpl in *; rewrite ?Hv; try done.
  - by rewrite <- Hw.
  - unfold IsNotFound. case_bool_decide as He; simpl; [|by rewrite Hv]. rewrite Hv, <- Hw. auto.
Qed.

(** The object [name] of the view has the status [s'] now. *)
Definition wrote (v0 : infoView) (name : string) (info : EgressClusterInfo) (s' : EgressClusterInfoStatus) (v : infoView) : Prop :=
  (v = v0 ∧ s' = ci_Status info) ∨
  ∃ m, om_Deleting m = om_Deleting (ci_Meta info) ∧ v = set_infos (<[name := mkClusterInfo m (ci_Spec info) s']> (iv_infos v0)) v0.
Lemma tri_updateInfo v0 name info s' : iv_infos v0 !! name = Some info → om_Name (ci_Meta info) = name →
  tri (λ w, view w = v0) (updateInfo (set_infoStatus info s')) (λ _ w, wrote v0 name info s' (view w)) (λ w, view w = v0).
Proof.
  intros Hi Hn w Hw. unfold updateInfo, attempt, mbind_. pose proof (il_Update view (set_infoStatus info s') w) as Hu.
  destruct (iaUpdateStatus _ w) as [w' [a|e|p|]]; simpl in *; [|congruence..]. destruct Hu as (old & m & Ho & Hd & Hv).
  rewrite Hw, Hn, Hi in Ho. injection Ho as <-. right. exists m. split; [done|]. by rewrite Hv, Hw, Hn.
Qed.
Lemma wrote_keeps t v0 name info s' v : wrote v0 name info s' v → iv_infos v0 !! name = Some info → statusBut t (ci_Status info) s' →
  (∀ n, t = Some (TInfo n) → n = name) → keepsOthers t v0 v.
Proof. intros [[-> _]|(m & Hm & ->)] Hi Hs Ht; [done|]. by eapply written_keepsOthers. Qed.
Lemma wrote_status v0 name info s' v : wrote v0 name info s' v → iv_infos v0 !! name = Some info →
  ∃ i, iv_infos v !! name = Some i ∧ ci_Spec i = ci_Spec info ∧ ci_Status i = s' ∧ om_Deleting (ci_Meta i) = om_Deleting (ci_Meta info).
Proof.
  intros [[-> ->]|(m & Hm & ->)] Hi; [by exists info|]. eexists. cbn [set_infos iv_infos]. rewrite lookup_insert_eq. split; [done|]. done.
Qed.

Lemma same_lists p v4 v6 : negb (EqualStringSlice (il_IPv4 p) v4) || negb (EqualStringSlice (il_IPv6 p) v6) = false → il_IPv4 p ≡ₚ v4 ∧ il_IPv6 p ≡ₚ v6.
Proof. intros [H4%negb_false_iff H6%negb_false_iff]%orb_false_iff. by rewrite <- !EqualStringSlice_permutation. Qed.

Lemma tri_syncEntry v0 info get set name want : iv_infos v0 !! defaultName = Some info → om_Name (ci_Meta info) = defaultName → (∀ m s, get (set m s) = m) →
  tri (λ w, view w = v0) (syncEntry info get set name want)
    (λ _ w, ∃ s', wrote v0 defaultName info s' (view w) ∧ entryIs (get s' !! name) want ∧
      (s' = ci_Status info ∨ ∃ m, s' = set m (ci_Status info) ∧ ∀ n, n ≠ name → m !! n = get (ci_Status info) !! n)) (λ w, view w = v0).
Proof.
  intros Hi Hn Hgs. unfold syncEntry. set (s := ci_Status info).
  assert (∀ m, entryIs (m !! name) want → (∀ n, n ≠ name → m !! n = get s !! n) → tri (λ w, view w = v0) (updateInfo (set_infoStatus info (set m s)))
    (λ _ w, ∃ s', wrote v0 defaultName info s' (view w) ∧ entryIs (get s' !! name) want ∧ (s' = s ∨ ∃ m, s' = set m s ∧ ∀ n, n ≠ name → m !! n = get s !! n)) (λ w, view w = v0)) as Hup.
  { intros m He Ho. eapply tri_post; [by apply tri_updateInfo| |done]. intros ? w Hw. exists (set m s). split_and!; [done|by rewrite Hgs|right; by exists m]. }
  assert (entryIs (get s !! name) want → tri (λ w, view w = v0) (mret tt)
    (λ _ w, ∃ s', wrote v0 defaultName info s' (view w) ∧ entryIs (get s' !! name) want ∧ (s' = s ∨ ∃ m, s' = set m s ∧ ∀ n, n ≠ name → m !! n = get s !! n)) (λ w, view w = v0)) as Hkeep.
  { intros He. apply tri_ret. intros w Hw. exists s. split_and!; [left; done|done|by left]. }
  destruct want as [[v4 v6]|].
  - destruct (get s !! name) as [val|] eqn:Ev.
    + destruct (_ || _) eqn:Eq; [|by apply Hkeep, same_lists]. apply Hup; [by rewrite lookup_insert_eq|]. intros n Hne. by rewrite lookup_insert_ne.
    + apply Hup; [by rewrite lookup_insert_eq|]. intros n Hne. by rewrite lookup_insert_ne.
  - case_decide as Hs; [|apply Hkeep; by destruct (get s !! name); [destruct Hs|]].
    apply Hup; [by rewrite lookup_delete_eq|]. intros n Hne. by rewrite lookup_delete_ne.
Qed.

(** A handler synchronises its target and keeps the others. *)
Definition syncs {A} (t : target) (c : M W A) : Prop := ∀ v0,
  tri (λ w, view w = v0) c (λ _ w, keepsOthers (Some t) v0 (view w) ∧ synced (view w) t) (λ w, keepsOthers (Some t) v0 (view w)).

Lemma tri_GetInfo n v0 : tri (λ w, view w = v0) (getOrAbsent (iaGetInfo n))
  (λ o w, view w = v0 ∧ iv_infos v0 !! n = o ∧ ∀ i, o = Some i → om_Name (ci_Meta i) = n) (λ w, view w = v0).
Proof.
  intros w Hw. pose proof (tri_getOrAbsent (iaGetInfo n) _ v0 (il_GetInfo view n) w Hw) as H.
  pose proof (il_GetInfo_name view n w) as Hname. unfold getOrAbsent, attempt, mbind_ in *. destruct (iaGetInfo n w) as [w' [a|e|s|]]; simpl in *; try done.
  - destruct H as [? ?]. split_and!; [done|done|]. intros i [= <-]. by eapply Hname.
  - destruct (IsNotFound e); simpl in *; [|done]. destruct H as [? ?]. by split_and!.
Qed.

(** Nodes and pools are handled alike: an entry of the status of [default] follows an object. *)
Section entry.
Context {A : Type} (t : target) (n : string) (get : EgressClusterInfoStatus → gmap string IPListPair)
  (set : gmap string IPListPair → EgressClusterInfoStatus → EgressClusterInfoStatus) (on : EgressClusterInfo → bool)
  (getObj : M W A) (look : infoView → option A) (wantOf : option A → option (list string * list string)).
Context (Hgs : ∀ m s, get (set m s) = m) (Hget : getsFrom view getObj look)
  (Hbut : ∀ m s, (∀ n', n' ≠ n → m !! n' = get s !! n') → statusBut (Some t) s (set m s)) (Hnot : ∀ n', t ≠ TInfo n')
  (Hlook : ∀ v v', iv_nodes v' = iv_nodes v → iv_pools v' = iv_pools v → look v' = look v)
  (Hsynced : ∀ v, synced v t ↔ ∀ i, iv_infos v !! defaultName = Some i → on i = true → entryIs (get (ci_Status i) !! n) (wantOf (look v))).
Lemma entry_syncs : syncs t (
  let* info := getOrAbsent (iaGetInfo defaultName) in
  match info with
  | None => mret tt
  | Some info => if negb (on info) then mret tt else let* o := getOrAbsent getObj in syncEntry info get set n (wantOf o)
  end).
Proof.
  intros v0. eapply tri_bind; [eapply tri_post; [apply tri_GetInfo|intros a w H; exact H|by intros w ->]|].
  intros [info|]; apply tri_here; intros w0 (Hv0 & Hi & Hname).
  2:{ apply tri_ret. intros w ->. rewrite Hv0. split; [done|]. apply Hsynced. intros i Hi'. congruence. }
  destruct (on info) eqn:Ea; simpl.
  2:{ apply tri_ret. intros w ->. rewrite Hv0. split; [done|]. apply Hsynced. intros i Hi'. rewrite Hi in Hi'. injection Hi' as <-. congruence. }
  eapply tri_bind; [eapply tri_pre; [|eapply tri_post; [apply (tri_getOrAbsent _ _ v0 Hget)|intros a w H; exact H|by intros w ->]]; by intros w ->|].
  intros o. apply tri_here. intros w1 [Hv1 Ho]. eapply tri_pre; [|eapply tri_post; [apply (tri_syncEntry v0 info get set n (wantOf o) Hi); [by apply Hname|done]| |by intros w ->]]; [by intros w ->|].
  intros ? w (s' & Hw & He & Hs). assert (statusBut (Some t) (ci_Status info) s') as Hb by (destruct Hs as [->|(m & -> & Hm)]; [by split_and!|by apply Hbut]).
  assert (keepsOthers (Some t) v0 (view w)) as Hk by (eapply wrote_keeps; [done|done|done|]; intros n' Heq; by destruct (Hnot n'); injection Heq).
  split; [done|]. destruct (wrote_status _ _ _ _ _ Hw Hi) as (i & Hi2 & _ & Hst & _).
  apply Hsynced. intros i' Hi' _. rewrite Hi2 in Hi'. injection Hi' as <-. rewrite Hst. destruct Hk as (Hnodes & Hpools & _). by rewrite (Hlook v0), Ho.
Qed.
End entry.

Lemma reconcileNode_syncs n : syncs (TNode n) (info_reconcileNode n).
Proof.
  apply (entry_syncs (TNode n) n ci_NodeIP set_NodeIP (λ i, ad_NodeIP (cis_AutoDetect (ci_Spec i))) (iaGetNode n) (λ v, iv_nodes v !! n)
    (λ o, match o with Some x => if om_Deleting (cn_Meta x) then None else Some (getNodeIPList x) | None => None end)).
  - done.
  - apply il_GetNode, HL.
  - intros m s Hm. split_and!; [|done|done]. intros n' Hne. apply Hm. congruence.
  - done.
  - intros v v' -> _. done.
  - done.
Qed.
Lemma reconcileCalicoIPPool_syncs n : syncs (TPool n) (reconcileCalicoIPPool n).
Proof.
  apply (entry_syncs (TPool n) n ci_PodCIDR set_PodCIDR podMode (iaGetPool n) (λ v, iv_pools v !! n)
    (λ o, match o with Some x => if om_Deleting (ip_Meta x) then None else Some (getCalicoIPPoolList x) | None => None end)).
  - done.
  - apply il_GetPool, HL.
  - intros m s Hm. split_and!; [done| |done]. intros n' Hne. apply Hm. congruence.
  - done.
  - intros v v' _ ->. done.
  - done.
Qed.

(** *** The info object and the services *)

(** A call that leaves the view as it is. *)
Lemma tri_alone {A} (c : M W A) v0 : leavesAlone view c → tri (λ w, view w = v0) c (λ _ w, view w = v0) (λ w, view w = v0).
Proof. intros Hc w Hw. specialize (Hc w). destruct (c w).2; by rewrite Hc. Qed.
Lemma alone_bind {A B} (c : M W A) (k : A → M W B) : leavesAlone view c → (∀ a, leavesAlone view (k a)) → leavesAlone view (mbind_ c k).
Proof. intros Hc Hk w. specialize (Hc w). unfold mbind_. destruct (c w) as [w' [a|e|s|]]; simpl in *; [|done..]. by rewrite Hk. Qed.
Lemma alone_attempt {A} (c : M W A) : leavesAlone view c → leavesAlone view (attempt c).
Proof. intros Hc w. specialize (Hc w). unfold attempt. by destruct (c w) as [w' [a|e|s|]]. Qed.
Lemma watchCalico_alone fuel : leavesAlone view (watchCalico fuel).
Proof.
  induction fuel as [|fuel IH]; [done|]. apply alone_bind; [apply alone_attempt, il_ListPools, HL|]. intros [?|?]; [|done].
  apply alone_bind; [apply alone_attempt, il_WatchPools, HL|]. by intros [?|?].
Qed.
Lemma GetClusterCIDR_alone : leavesAlone view GetClusterCIDR.
Proof.
  unfold GetClusterCIDR. generalize kubeControllerManagerPodLabelList. intros labels. induction labels as [|l labels IH]; [done|].
  apply alone_bind; [apply il_ListPods, HL|]. by intros [|pod pods].
Qed.

Lemma updateK8sServiceCIDR_keeps v0 : tri (λ w, view w = v0) updateK8sServiceCIDR (λ _ w, keepsOthers None v0 (view w)) (λ w, view w = v0).
Proof.
  unfold updateK8sServiceCIDR. eapply (tri_bind _ _ _ (λ i w, view w = v0 ∧ iv_infos v0 !! defaultName = Some i ∧ om_Name (ci_Meta i) = defaultName)).
  { intros w Hw. destruct (il_GetInfo view defaultName w) as [Hv Hr]. pose proof (il_GetInfo_name view defaultName w) as Hn.
    destruct (iaGetInfo defaultName w) as [w' [a|e|s|]]; simpl in *; rewrite Hv; [|done..]. rewrite <- Hw. split_and!; [done|done|by eapply Hn]. }
  intros info. apply tri_here. intros w0 (Hv0 & Hi & Hn). eapply (tri_pre _ (λ w, view w = v0)); [by intros w ->|].
  destruct (ad_ClusterIP _); simpl; [|apply tri_ret; by intros w ->].
  eapply tri_bind; [apply tri_alone, GetClusterCIDR_alone|]. intros [v4 v6].
  assert (tri (λ w, view w = v0) (updateInfo (set_infoStatus info (set_ClusterIP (mkIPListPair v4 v6) (ci_Status info)))) (λ _ w, keepsOthers None v0 (view w)) (λ w, view w = v0)) as Hup.
  { eapply tri_post; [by apply tri_updateInfo| |done]. intros ? w Hw. eapply wrote_keeps; [exact Hw|done|by split_and!|done]. }
  destruct (ci_ClusterIP _); [|done]. destruct (_ || _); [done|]. apply tri_ret. by intros w ->.
Qed.
Lemma servicesLoop_keeps fuel v0 : tri (λ w, view w = v0) (servicesLoop fuel) (λ _ w, keepsOthers None v0 (view w)) (λ w, view w = v0).
Proof.
  induction fuel as [|fuel IH]; [by apply tri_lift|]. eapply tri_bind; [apply tri_attempt, updateK8sServiceCIDR_keeps|]. intros [?|?]; [by apply tri_ret|exact IH].
Qed.

(** *** Requests *)

(** The same over the controller and the world. *)
Abbreviation cview := (λ x : clusterInfo * W, view x.2).
Definition csyncs {A} (t : target) (c : M (clusterInfo * W) A) : Prop := ∀ v0,
  tri (λ x, view x.2 = v0) c (λ _ x, keepsOthers (Some t) v0 (view x.2) ∧ synced (view x.2) t) (λ x, keepsOthers (Some t) v0 (view x.2)).
Lemma tri_infoCall {A} (c : M W A) (P : W → Prop) (Q : A → W → Prop) (E : W → Prop) : tri P c Q E → tri (λ x : clusterInfo * W, P x.2) (scall c) (λ a x, Q a x.2) (λ x, E x.2).
Proof. intros Hc. apply tri_scall. intros s w Hw. specialize (Hc w Hw). by destruct (c w) as [w' [a|e|p|]]. Qed.
Lemma csyncs_call {A} t (c : M W A) : syncs t c → csyncs t (scall c).
Proof. intros Hc v0. apply (tri_infoCall _ _ _ _ (Hc v0)). Qed.

Lemma reconcileInfo_syncs fuel n : csyncs (TInfo n) (reconcileInfo fuel n).
Proof.
  intros v0. eapply tri_bind; [eapply tri_post; [apply (tri_infoCall _ _ _ _ (tri_GetInfo n v0))|intros a x H; exact H|by intros x ->]|].
  intros [info|]; apply tri_here; intros x0 (Hv0 & Hi & Hname); eapply (tri_pre _ (λ x, view x.2 = v0)); [by intros x ->| |by intros x ->|].
  2:{ apply tri_ret. intros x ->. split; [done|]. intros i Hi'. simpl in Hi'. congruence. }
  specialize (Hname _ eq_refl). destruct (om_Deleting (ci_Meta info)) eqn:Ed.
  { apply tri_ret. intros x ->. split; [done|]. intros i Hi' Hd. rewrite Hi in Hi'. injection Hi' as <-. congruence. }
  apply tri_sget. intros r. eapply (tri_pre _ (λ x, view x.2 = v0)); [by intros x [? _]|].
  apply (tri_seq _ _ _ (λ x, view x.2 = v0)).
  { destruct (_ && _); [|by apply tri_ret]. apply (tri_seq _ _ _ (λ x, view x.2 = v0)); [|by apply tri_smod].
    eapply tri_post; [apply (tri_infoCall _ _ _ _ (tri_alone _ v0 (watchCalico_alone fuel)))|by intros ? ? H|by intros x ->]. }
  cbv zeta. destruct (EqualStringSlice (cis_ExtraCidr (ci_Spec info)) (ci_ExtraCidr (ci_Status info))) eqn:Ee; simpl.
  { apply tri_ret. intros x ->. split; [done|]. intros i Hi' _. rewrite Hi in Hi'. injection Hi' as <-. by apply EqualStringSlice_permutation. }
  eapply tri_post; [apply (tri_infoCall _ _ _ _ (tri_updateInfo v0 n info _ Hi Hname))| |by intros x ->].
  intros ? x Hw. split.
  - eapply wrote_keeps; [exact Hw|done| |by intros n' [= ->]]. split_and!; [done|done|]. intros Hne. by destruct (Hne n).
  - destruct (wrote_status _ _ _ _ _ Hw Hi) as (i & Hi2 & Hsp & Hst & _). intros i' Hi' _. rewrite Hi2 in Hi'. injection Hi' as <-. by rewrite Hsp, Hst.
Qed.

(** What a request is about; requests of another kind are for nobody. *)
Definition targetOf (req : NamespacedName) : option target :=
  match ParseKindWithReq req with
  | Ret (kind, newReq) =>
      if decide (kind = "Node") then Some (TNode (nn_Name newReq)) else if decide (kind = "CalicoIPPool") then Some (TPool (nn_Name newReq))
      else if decide (kind = "EgressClusterInfo") then Some (TInfo (nn_Name newReq)) else None
  | _ => None
  end.
Lemma keepsOthers_weaken t v v' : keepsOthers None v v' → keepsOthers t v v'.
Proof. intros (? & ? & H). split_and!; [done|done|]. intros t' _. by apply H. Qed.
Lemma keepsOthers_trans t v1 v2 v3 : keepsOthers t v1 v2 → keepsOthers t v2 v3 → keepsOthers t v1 v3.
Proof. intros (Hn1 & Hp1 & H1) (Hn2 & Hp2 & H2). split_and!; [congruence|congruence|]. intros t' Ht' Hs. by apply H2, H1. Qed.

Lemma Reconcile_syncs fuel req v0 : tri (λ x, view x.2 = v0) (info_Reconcile fuel req)
  (λ _ x, keepsOthers (targetOf req) v0 (view x.2) ∧ ∀ t, targetOf req = Some t → synced (view x.2) t) (λ _, True).
Proof.
  apply tri_sget. intros r. eapply (tri_pre _ (λ x, view x.2 = v0)); [by intros x [? _]|].
  apply (tri_seq _ _ _ (λ x, keepsOthers None v0 (view x.2))).
  { destruct (servicesDone r); [by apply tri_ret; intros x ->|]. apply (tri_seq _ _ _ (λ x, keepsOthers None v0 (view x.2))); [|by apply tri_smod].
    eapply tri_post; [apply (tri_infoCall _ _ _ _ (servicesLoop_keeps fuel v0))|by intros ? ? H|done]. }
  apply tri_here. intros x0 Hk. unfold targetOf. set (v1 := view x0.2) in *. eapply (tri_pre _ (λ x, view x.2 = v1)); [by intros x ->|].
  assert (∀ t (c : M (clusterInfo * W) unit), csyncs t c → tri (λ x, view x.2 = v1) c
    (λ _ x, keepsOthers (Some t) v0 (view x.2) ∧ ∀ t', Some t = Some t' → synced (view x.2) t') (λ _, True)) as Hone.
  { intros t c Hc. eapply tri_post; [apply Hc| |done]. intros ? x [Hk1 Hs]. split; [|by intros t' [= <-]]. eapply keepsOthers_trans; [by apply keepsOthers_weaken|done]. }
  destruct (ParseKindWithReq req) as [[kind newReq]|e|p|]; [|by apply tri_lift..].
  match goal with |- tri ?P _ ?Q ?E => change (tri P (if decide (kind = "Node") then scall (info_reconcileNode (nn_Name newReq))
    else if decide (kind = "CalicoIPPool") then scall (reconcileCalicoIPPool (nn_Name newReq))
    else if decide (kind = "EgressClusterInfo") then reconcileInfo fuel (nn_Name newReq) else mret tt) Q E) end.
  repeat case_decide.
  - apply Hone, csyncs_call, reconcileNode_syncs.
  - apply Hone, csyncs_call, reconcileCalicoIPPool_syncs.
  - apply Hone, reconcileInfo_syncs.
  - apply tri_ret. intros x ->. by split.
Qed.

Lemma run_syncs fuel reqs v0 : tri (λ x, view x.2 = v0) (mforeach (λ req _, info_Reconcile fuel req) reqs tt)
  (λ _ x, (iv_nodes (view x.2) = iv_nodes v0 ∧ iv_pools (view x.2) = iv_pools v0) ∧
    ∀ t, t ∈ omap targetOf reqs ∨ synced v0 t → synced (view x.2) t) (λ _, True).
Proof.
  set (I := λ (reqs : list NamespacedName) (x : clusterInfo * W), (iv_nodes (view x.2) = iv_nodes v0 ∧ iv_pools (view x.2) = iv_pools v0) ∧
    ∀ t, t ∈ omap targetOf reqs ∨ synced v0 t → synced (view x.2) t).
  apply (tri_pre _ (I [])); [|apply (tri_foreach (λ done _, I done))].
  - intros x Hx. unfold I. rewrite Hx. split; [done|]. intros t [Ht|Ht]; [by apply list_elem_of_In in Ht|done].
  - intros done req ? Hreq. apply tri_here. intros x0 [[Hn Hp] Hd]. eapply tri_post; [eapply tri_pre; [|apply (Reconcile_syncs fuel req (view x0.2))]| |intros x H; exact H]; [by intros x ->|].
    intros ? x [(Hn1 & Hp1 & Hk) Hs]. split; [split; congruence|]. intros t Ht. destruct (decide (targetOf req = Some t)) as [He|He]; [by apply Hs|].
    apply Hk; [congruence|]. apply Hd. destruct Ht as [Ht|Ht]; [left|by right]. rewrite omap_app, elem_of_app in Ht. destruct Ht as [Ht|Ht]; [done|].
    simpl in Ht. destruct (targetOf req) as [t'|]; [|by apply list_elem_of_In in Ht]. apply list_elem_of_singleton in Ht. congruence.
Qed.

(** C20. A run of the cluster-info controller over any requests (of nodes, Calico pools or info objects, in any
    order, the detection of the service ranges before the first), each handled without an error, leaves the
    status of the cluster info in line with every object requested: where detection is on, the entry of a node
    or a pool has exactly the addresses of its object, and there is no entry for one that is gone; the extra
    blocks are those of the specification. What an earlier request, or an earlier run, brought in line stays in
    line, and no node or pool is touched. *)
Theorem requested_objects_synced fuel reqs x x' : mforeach (λ req _, info_Reconcile fuel req) reqs tt x = (x', Ret tt) →
  (iv_nodes (view x'.2) = iv_nodes (view x.2) ∧ iv_pools (view x'.2) = iv_pools (view x.2)) ∧
  ∀ t, t ∈ omap targetOf reqs ∨ synced (view x.2) t → synced (view x'.2) t.
Proof. intros Hrun. pose proof (run_syncs fuel reqs (view x.2) x eq_refl) as H. rewrite Hrun in H. exact H. Qed.
End handlers.
