(* ===== verification/ClusterInfoStore.v ===== *)
(** * A cluster for the cluster-info controller

    An API server with versions, as an instance of the interface; the run of a small cluster on it, and where
    the code falls short. *)

From S2P Require Import Prelude GoStd GoNet GoFmt IPUtil Types Utils ApiServer Triple StateM ClusterInfo ClusterInfoTheorems.
Open Scope nat_scope.

(** The objects, and the pods of the controller manager. *)
Record infoWorld := mkInfoWorld { iw_view : infoView; iw_pods : list (labelSet * Containers) }.

Definition nextVersion (m : ObjectMeta) : ObjectMeta :=
  mkMeta (om_Name m) (om_Namespace m) (om_Labels m) (om_Finalizers m) (om_Deleting m) (S (om_ResourceVersion m)).
Definition found {A} (o : option A) : M infoWorld A := match o with Some a => mret a | None => merr (ErrApi NotFound) end.
#[export] Instance infoApi : InfoApi infoWorld := {
  iaGetInfo n := λ w, match iv_infos (iw_view w) !! n with
    | Some i => if decide (om_Name (ci_Meta i) = n) then (w, Ret i) else (w, Err (ErrNew "misnamed"))
    | None => (w, Err (ErrApi NotFound))
    end;
  iaUpdateStatus i := λ w, let n := om_Name (ci_Meta i) in
    match iv_infos (iw_view w) !! n with
    | None => (w, Err (ErrApi NotFound))
    | Some old =>
        if decide (om_ResourceVersion (ci_Meta i) = om_ResourceVersion (ci_Meta old)) then
          (mkInfoWorld (set_infos (<[n := mkClusterInfo (nextVersion (ci_Meta old)) (ci_Spec old) (ci_Status i)]> (iv_infos (iw_view w))) (iw_view w)) (iw_pods w), Ret tt)
        else (w, Err (ErrApi Conflict))
    end;
  iaGetNode n := λ w, found (iv_nodes (iw_view w) !! n) w;
  iaGetPool n := λ w, found (iv_pools (iw_view w) !! n) w;
  iaListPods l := λ w, (w, Ret (snd <$> filter (λ p, map_Forall (λ k x, fst p !! k = Some x) l) (iw_pods w)));
  iaListPools := mret tt;
  iaWatchPools := mret tt
}.

Lemma found_gets {A} (look : infoView → option A) : getsFrom iw_view (λ w, found (look (iw_view w)) w) look.
Proof. intros w. unfold found. by destruct (look (iw_view w)). Qed.
#[export] Instance infoLaws : InfoLaws iw_view.
Proof.
  split; try by intros.
  - intros n w. simpl. destruct (iv_infos _ !! n) as [i|] eqn:E; [case_decide|]; done.
  - intros n w w' i. simpl. destruct (iv_infos _ !! n) as [i'|]; [|done]. case_decide; [|done]. by intros [= <- <-].
  - intros n. apply (found_gets (λ v, iv_nodes v !! n)).
  - intros n. apply (found_gets (λ v, iv_pools v !! n)).
  - intros i w. simpl. destruct (iv_infos _ !! _) as [old|] eqn:E; [|done]. case_decide; simpl; [|done].
    by exists old, (nextVersion (ci_Meta old)).
Qed.

(** ** A run *)

Definition named (n : string) : ObjectMeta := mkMeta n "" ∅ [] false 1.
Definition info1 (nodeIP : bool) : EgressClusterInfo := mkClusterInfo (named "default") (mkClusterInfoSpec (mkAutoDetect "auto" true nodeIP) ["10.50.0.0/16"])
  (mkClusterInfoStatus "" {[ "gone" := mkIPListPair ["192.168.0.9"] [] ]} None ∅ []).
Definition node1 : CNode := mkCNode (named "node1") [("Hostname", "node1"); ("InternalIP", "192.168.0.1"); ("InternalIP", "fd00::1")].
Definition pool1 : IPPool := mkIPPool (named "pool1") "10.244.0.0/16".
Definition manager (range : string) : Containers := [(["kube-controller-manager"], ["--bind-address=127.0.0.1"; "--service-cluster-ip-range=" +:+ range])].
Definition infoWorld1 (nodeIP : bool) (range : string) : infoWorld :=
  mkInfoWorld (mkInfoView {[ "default" := info1 nodeIP ]} {[ "node1" := node1 ]} {[ "pool1" := pool1 ]}) [({[ "k8s-app" := "kube-controller-manager" ]}, manager range)].
Definition infoReqs1 : list NamespacedName := [mkNN "EgressClusterInfo/" "default"; mkNN "Node/" "node1"; mkNN "Node/" "gone"; mkNN "CalicoIPPool/" "pool1"].
Definition infoRun1 (reqs : list NamespacedName) (x : clusterInfo * infoWorld) : clusterInfo * infoWorld := (mforeach (λ req _, info_Reconcile 3 req) reqs tt x).1.
Definition infoStart1 : clusterInfo * infoWorld := (mkClusterInfoCtrl false false, infoWorld1 true "10.233.0.0/18,fd00:10::/112").
Definition infoStatus (x : clusterInfo * infoWorld) : option EgressClusterInfoStatus := ci_Status <$> iv_infos (iw_view x.2) !! "default".

(** Services, extra blocks, the node and the pool are reported, and the entry of the node that is gone is removed. *)
Example cluster_reported : infoStatus (infoRun1 infoReqs1 infoStart1) =
  Some (mkClusterInfoStatus "" {[ "node1" := mkIPListPair ["192.168.0.1"] ["fd00::1"] ]} (Some (mkIPListPair ["10.233.0.0/18"] ["fd00:10::/112"]))
    {[ "pool1" := mkIPListPair ["10.244.0.0/16"] [] ]} ["10.50.0.0/16"]).
Proof. vm_compute. reflexivity. Qed.

Lemma requested_objects_synced_witness :
  synced (iw_view (infoRun1 infoReqs1 infoStart1).2) (TNode "node1") ∧
  synced (iw_view (infoRun1 infoReqs1 infoStart1).2) (TNode "gone").
Proof.
  assert (∀ t, t ∈ omap targetOf infoReqs1 ∨ synced (iw_view infoStart1.2) t → synced (iw_view (infoRun1 infoReqs1 infoStart1).2) t) as Hall.
  { apply (requested_objects_synced iw_view 3 infoReqs1 infoStart1 (infoRun1 infoReqs1 infoStart1)). vm_compute. reflexivity. }
  split; apply Hall; left; apply list_elem_of_In; [right; by left|right; right; by left].
Defined.

(** ** Where the code falls short *)

(** Two service ranges are taken to be IPv4 first; with IPv6 first each is reported in the family of the other. *)
Example service_ranges_swapped : parseCIDRFromControllerManager (manager "fd00:10::/112,10.233.0.0/18") "--service-cluster-ip-range=" = Ret (["fd00:10::/112"], ["10.233.0.0/18"]).
Proof. vm_compute. reflexivity. Qed.

(** The watch sees that detection of nodes was turned on, but the handler of the info object does not look at the nodes. *)
Example detection_turned_on_late :
  infoPredicate_Update (info1 false) (info1 true) = true ∧
  let off := infoRun1 infoReqs1 (mkClusterInfoCtrl false false, infoWorld1 false "10.233.0.0/18") in
  let on := (off.1, mkInfoWorld (set_infos (alter (λ i, mkClusterInfo (ci_Meta i) (ci_Spec (info1 true)) (ci_Status i)) "default" (iv_infos (iw_view off.2))) (iw_view off.2)) (iw_pods off.2)) in
  (ci_NodeIP <$> infoStatus (infoRun1 [mkNN "EgressClusterInfo/" "default"] on)) = Some {[ "gone" := mkIPListPair ["192.168.0.9"] [] ]}.
Proof. split; vm_compute; reflexivity. Qed.

(** While there is no object [default], no request is handled: however long it waits, the first one does not return. *)
Lemma no_info_no_return fuel req w : iv_infos (iw_view w) = ∅ → (info_Reconcile fuel req (mkClusterInfoCtrl false false, w)).2 = Timeout.
Proof.
  intros Hw. assert (servicesLoop fuel w = (w, Timeout)) as Hl.
  { induction fuel as [|fuel IH]; [done|]. cbn [servicesLoop]. unfold updateK8sServiceCIDR, attempt, mbind_. simpl. by rewrite Hw, lookup_empty. }
  unfold info_Reconcile, sget, scall, mbind_. simpl. by rewrite Hl.
Qed.
