(* ===== verification/Sets.v ===== *)
(** * Sets ([pkg/utils/set])

    The generic set that the tables and the reconcilers use, a Go map from items to empty structs, here a finite
    set: every method, and that the methods which loop over the map agree with the operations on sets, in
    whatever order Go visits the items. *)

From S2P Require Import Prelude GoStd GoNet IPUtil.
Open Scope nat_scope.

(** What a visitor returns: [nil], [StopIteration], [RemoveItem], or another error. *)
Inductive verdict := Continue | StopIteration | RemoveItem | OtherError.

Section set.
Context {T : Type} `{Countable T} `{KO : !KeyOrder T}.
Abbreviation Typed := (gset T).

Definition set_Len (s : Typed) : nat := size s.
Definition set_Add (s : Typed) (item : T) : Typed := {[item]} ∪ s.
Definition set_AddAll (s : Typed) (items : list T) : Typed := foldl set_Add s items.
Definition set_Discard (s : Typed) (item : T) : Typed := s ∖ {[item]}.
Definition set_Contains (s : Typed) (item : T) : bool := bool_decide (item ∈ s).

(** The loop of [Iter] over the items in the order of the map; the visitor has a state of its own. *)
Fixpoint iterLoop {S} (visitor : T → S → S * verdict) (items : list T) (s : Typed) (x : S) : outcome (Typed * S) :=
  match items with
  | [] => Ret (s, x)
  | item :: items' =>
      let '(x', v) := visitor item x in
      match v with
      | StopIteration => Ret (s, x')
      | RemoveItem => iterLoop visitor items' (set_Discard s item) x'
      | Continue => iterLoop visitor items' s x'
      | OtherError => Panic "Unexpected iteration error"
      end
  end.
Definition set_Iter {S} (visitor : T → S → S * verdict) (s : Typed) (x : S) : outcome (Typed * S) := iterLoop visitor (key_order (elements s)) s x.

Definition set_AddSet (s other : Typed) : outcome Typed := let! (_, s') := set_Iter (λ item x, (set_Add x item, Continue)) other s in Ret s'.
Definition set_Clear (s : Typed) : Typed := foldl set_Discard s (key_order (elements s)).
Definition set_Copy (s : Typed) : Typed := foldl set_Add ∅ (key_order (elements s)).
Definition set_Slice (s : Typed) : list T := key_order (elements s).
Definition set_Equals (s other : Typed) : bool :=
  if decide (set_Len s ≠ set_Len other) then false else forallb (set_Contains other) (key_order (elements s)).
Definition set_ContainsAll (s other : Typed) : outcome bool :=
  let! (_, result) := set_Iter (λ item x, if set_Contains s item then (x, Continue) else (false, StopIteration)) other true in Ret result.
Definition set_FromArray (items : list T) : Typed := set_AddAll ∅ items.

(** ** Agreement with sets *)

Lemma elem_of_AddAll items s x : x ∈ set_AddAll s items ↔ x ∈ items ∨ x ∈ s.
Proof using. revert s. induction items as [|i items IH]; intros s; simpl; [set_solver|]. rewrite IH. unfold set_Add. set_solver. Qed.
Lemma elem_of_order (s : Typed) x : x ∈ key_order (elements s) ↔ x ∈ s.
Proof using. by rewrite key_order_perm, elem_of_elements. Qed.
Lemma Copy_same s : set_Copy s = s.
Proof using. apply set_eq. intros x. change (x ∈ set_AddAll ∅ (key_order (elements s)) ↔ x ∈ s). rewrite elem_of_AddAll, elem_of_order. set_solver. Qed.
Lemma Clear_empty s : set_Clear s = ∅.
Proof using.
  assert (∀ items s', foldl set_Discard s' items = s' ∖ list_to_set items) as Hd.
  { induction items as [|i items IH]; intros s'; simpl; [set_solver|]. rewrite IH. unfold set_Discard. set_solver. }
  unfold set_Clear. rewrite Hd. apply set_eq. intros x. rewrite elem_of_difference, elem_of_list_to_set, elem_of_order. set_solver.
Qed.
Lemma Slice_elements s : set_Slice s ≡ₚ elements s.
Proof using. apply key_order_perm. Qed.
Lemma AddSet_union s other : set_AddSet s other = Ret (s ∪ other).
Proof using.
  unfold set_AddSet, set_Iter. assert (∀ items x s', iterLoop (λ item x, (set_Add x item, Continue)) items s' x = Ret (s', set_AddAll x items)) as Hl.
  { induction items as [|i items IH]; intros x s'; simpl; [done|]. by rewrite IH. }
  rewrite Hl. simpl. f_equal. apply set_eq. intros x. rewrite elem_of_AddAll, elem_of_order. set_solver.
Qed.
(** Equal sizes and one inclusion are enough. *)
Lemma Equals_spec s other : set_Equals s other = true ↔ s = other.
Proof using.
  unfold set_Equals, set_Len. case_decide as Hs.
  - split; [done|]. by intros ->.
  - rewrite forallb_forall. setoid_rewrite <- list_elem_of_In. setoid_rewrite elem_of_order. unfold set_Contains. setoid_rewrite bool_decide_eq_true. split.
    + intros Hin. apply leibniz_equiv, set_subseteq_size_equiv; [done|lia].
    + by intros ->.
Qed.
Lemma ContainsAll_spec s other : set_ContainsAll s other = Ret (bool_decide (other ⊆ s)).
Proof using.
  unfold set_ContainsAll, set_Iter.
  assert (∀ items s', ∃ s'', iterLoop (λ item x, if set_Contains s item then (x, Continue) else (false, StopIteration)) items s' true = Ret (s'', bool_decide (Forall (.∈ s) items))) as Hl.
  { induction items as [|i items IH]; intros s'; simpl; [by exists s'|]. destruct (set_Contains s i) eqn:Hi.
    - apply bool_decide_eq_true in Hi. destruct (IH s') as [s'' ->]. exists s''. do 2 f_equal. apply bool_decide_ext. rewrite Forall_cons. tauto.
    - apply bool_decide_eq_false in Hi. exists s'. rewrite bool_decide_false; [done|]. by intros [? _]%Forall_cons. }
  destruct (Hl (key_order (elements other)) other) as [s'' ->]. simpl. f_equal. apply bool_decide_ext. rewrite Forall_forall. setoid_rewrite elem_of_order. done.
Qed.
(** The items that the visitor wants removed go, the others stay. *)
Lemma Iter_removes (f : T → bool) s : set_Iter (λ item (_ : unit), (tt, if f item then RemoveItem else Continue)) s tt = Ret (filter (λ x, f x = false) s, tt).
Proof using.
  unfold set_Iter. assert (∀ items s', iterLoop (λ item (_ : unit), (tt, if f item then RemoveItem else Continue)) items s' tt = Ret (s' ∖ list_to_set (filter (λ x, f x = true) items), tt)) as Hl.
  { induction items as [|i items IH]; intros s'; simpl; [by rewrite difference_empty_L|]. rewrite filter_cons. destruct (f i) eqn:E; rewrite IH.
    - rewrite decide_True by done. do 2 f_equal. unfold set_Discard. simpl. set_solver.
    - by rewrite decide_False. }
  rewrite Hl. do 2 f_equal. apply set_eq. intros x. rewrite elem_of_difference, elem_of_list_to_set, list_elem_of_filter, elem_of_order, elem_of_filter. destruct (f x); naive_solver.
Qed.
End set.
