(* ===== verification/Coalescing.v ===== *)
(** * Coalescing of requests ([pkg/coalescing])

    The endpoint-slice controllers run behind a reconciler that delays a request when the same request was
    handled with success a moment ago.  The moments are kept in a cache of bounded size whose entries expire
    ([ttllru.Cache] of the Azure provider on top of the LRU cache of golang-lru, both vendored); the clock is
    an interface, read as often as the code reads it. *)

From S2P Require Import Prelude GoStd GoNet IPUtil Types ApiServer Triple StateM.
Open Scope nat_scope.

(** ** The cache *)

(** Keys with the time they were added, the one used last at the front. *)
Abbreviation lruEntries := (list (string * Z)).
Definition lruFind (key : string) (l : lruEntries) : option Z := snd <$> (snd <$> list_find (λ e, e.1 = key) l).
Definition lruDrop (key : string) (l : lruEntries) : lruEntries := filter (λ e, e.1 ≠ key) l.
Definition lruGet (key : string) (l : lruEntries) : lruEntries * option Z :=
  match lruFind key l with Some t => ((key, t) :: lruDrop key l, Some t) | None => (l, None) end.
Definition lruAdd (size : nat) (key : string) (t : Z) (l : lruEntries) : lruEntries :=
  match lruFind key l with
  | Some _ => (key, t) :: lruDrop key l
  | None => let l' := (key, t) :: l in if size <? length l' then take (length l) l' else l'
  end.

Record Cache := mkCache { cacheSize : nat; TimeToLive : Z; entries : lruEntries }.
Definition set_entries (l : lruEntries) (c : Cache) : Cache := mkCache (cacheSize c) (TimeToLive c) l.

Definition NewRequestCache (window : Z) : outcome Cache :=
  let size := 1024 in if decide (size <= 0) then Err (ErrNew "failed to build ttllru cache") else Ret (mkCache size window []).

(** ** The reconciler *)

(** [time.Second] in nanoseconds. *)
Definition Second : Z := 1000000000.
Record Result := mkResult { Requeue : bool; RequeueAfter : Z }.
(** [NamespacedName.String]. *)
Definition requestString (r : NamespacedName) : string := nn_Namespace r +:+ "/" +:+ nn_Name r.


Section coalescing.
Context {W : Type} `{C : !Clock W} (upstream : NamespacedName → M W Result).

Definition peekItem (key : string) : M (Cache * W) (option Z) :=
  let* c := sget in
  let '(l, item) := lruGet key (entries c) in
  let* _ := smod (set_entries l) in
  match item with
  | None => mret None
  | Some lastTouch =>
      let* now := scall Now in
      if decide (now - lastTouch > TimeToLive c)%Z then let* _ := smod (set_entries (lruDrop key l)) in mret None
      else mret (Some lastTouch)
  end.
Definition Peek (key : string) : M (Cache * W) (option Z) :=
  let* item := peekItem key in
  match item with
  | None => mret None
  | Some lastTouch =>
      let* c := sget in
      let* now := scall Now in
      let* now' := scall Now in
      mret (Some (now + (TimeToLive c - (now' - lastTouch)))%Z)
  end.
Definition cacheAdd (key : string) : M (Cache * W) unit :=
  let* now := scall Now in smod (λ c, set_entries (lruAdd (cacheSize c) key now (entries c)) c).

(** [None] when the request should be processed, otherwise the expiration. *)
Definition ShouldProcess (key : string) : M (Cache * W) (option Z) := Peek key.
Definition Reconciled (key : string) : M (Cache * W) unit := cacheAdd key.

(** The request is passed on, and remembered when it succeeds. *)
Definition processRequest (r : NamespacedName) : M (Cache * W) Result :=
  let* result := scall (upstream r) in
  let* _ := Reconciled (requestString r) in
  mret result.
(** The first reading after the cache is for the log. *)
Definition coalescing_Reconcile (r : NamespacedName) : M (Cache * W) Result :=
  let* e := ShouldProcess (requestString r) in
  match e with
  | Some expiration =>
      let* _ := scall Now in
      let* now := scall Now in
      let requeueAfter := (expiration - now)%Z in
      mret (mkResult false (if decide (requeueAfter < 1 * Second)%Z then 1 * Second else requeueAfter)%Z)
  | None => processRequest r
  end.

(** ** What it is meant to do *)

(** A debouncer that remembers every success: a request is passed on when there was no success of the same
    request, or it was more than [window] ago, and only a success is remembered.  A request that is not passed
    on is asked for again when the window ends, and a second later at the earliest. *)
Definition passOn (r : NamespacedName) : M (gmap string Z * W) Result :=
  let* result := scall (upstream r) in
  let* now := scall Now in
  let* _ := smod <[requestString r := now]> in
  mret result.
Definition debounce (window : Z) (r : NamespacedName) : M (gmap string Z * W) Result :=
  let key := requestString r in
  let* m := sget in
  match m !! key with
  | None => passOn r
  | Some last =>
      let* now := scall Now in
      if decide (now - last > window)%Z then let* _ := smod (delete key) in passOn r
      else
        let* now1 := scall Now in
        let* now2 := scall Now in
        let* _ := scall Now in
        let* now3 := scall Now in
        mret (mkResult false (Z.max Second (last + window - (now2 - now1) - now3)))
  end.

(** Requests are handled one after another, whatever becomes of each. *)
Fixpoint handleAll {S} (step : NamespacedName → M S Result) (reqs : list NamespacedName) (s : S) : S * list (outcome Result) :=
  match reqs with
  | [] => (s, [])
  | r :: reqs' => let '(s', o) := step r s in let '(s'', os) := handleAll step reqs' s' in (s'', o :: os)
  end.
End coalescing.

(** ** The cache against the debouncer *)

Lemma lruFind_None key l : lruFind key l = None ↔ key ∉ l.*1.
Proof.
  unfold lruFind. destruct (list_find _ l) as [[i e]|] eqn:E; simpl.
  - split; [done|]. intros Hn. apply list_find_Some in E as (Hi & <- & _). destruct Hn. apply list_elem_of_fmap. exists e. split; [done|by eapply list_elem_of_lookup_2].
  - apply list_find_None in E. split; [|done]. intros _ Hin. apply list_elem_of_fmap in Hin as (e & -> & He). rewrite Forall_forall in E. by apply (E e).
Qed.
Lemma lruFind_Some key l t : lruFind key l = Some t → (key, t) ∈ l.
Proof.
  unfold lruFind. destruct (list_find _ l) as [[i [k u]]|] eqn:E; simpl; [|done]. intros [= <-]. apply list_find_Some in E as (Hi & <- & _).
  by eapply list_elem_of_lookup_2.
Qed.
Lemma lruDrop_keys key l : (lruDrop key l).*1 = filter (λ k, k ≠ key) l.*1.
Proof.
  unfold lruDrop. induction l as [|[k t] l IH]; [done|]. rewrite fmap_cons, !filter_cons. cbn [fst]. destruct (decide (k ≠ key)); [|exact IH]. by rewrite fmap_cons, IH.
Qed.
Lemma elem_of_lruDrop key l e : e ∈ lruDrop key l ↔ e.1 ≠ key ∧ e ∈ l.
Proof. unfold lruDrop. by rewrite list_elem_of_filter. Qed.
Lemma touched_nodup key t l : NoDup l.*1 → NoDup ((key, t) :: lruDrop key l).*1.
Proof.
  intros Hl. rewrite fmap_cons, lruDrop_keys. simpl. apply NoDup_cons. split; [|by apply NoDup_filter]. rewrite list_elem_of_filter. by intros [? _].
Qed.

(** The entries are those of the debouncer's map, whose keys are of [K]. *)
Record tracks (K : gset string) (l : lruEntries) (m : gmap string Z) : Prop := {
  tr_nodup : NoDup l.*1;
  tr_entries k t : (k, t) ∈ l ↔ m !! k = Some t;
  tr_keys : dom m ⊆ K
}.
Section tracks.
Context (K : gset string).

Lemma tracks_nil : tracks K [] ∅.
Proof. split; [constructor|intros k t; rewrite lookup_empty; set_solver|set_solver]. Qed.
Lemma tracks_find l m key : tracks K l m → lruFind key l = m !! key.
Proof.
  intros [Hnd He _]. destruct (lruFind key l) as [t|] eqn:E; [symmetry; by apply He, lruFind_Some|]. destruct (m !! key) as [t|] eqn:Et; [|done].
  apply He in Et. apply lruFind_None in E. destruct E. apply list_elem_of_fmap. by exists (key, t).
Qed.
Lemma tracks_touch l m key t : tracks K l m → m !! key = Some t → tracks K ((key, t) :: lruDrop key l) m.
Proof.
  intros [Hnd He Hk] Ht. split; [by apply touched_nodup| |done]. intros k u. rewrite elem_of_cons, elem_of_lruDrop, He. simpl.
  destruct (decide (k = key)) as [->|]; naive_solver congruence.
Qed.
Lemma tracks_drop l m key : tracks K l m → tracks K (lruDrop key l) (delete key m).
Proof.
  intros [Hnd He Hk]. split; [rewrite lruDrop_keys; by apply NoDup_filter| |set_solver]. intros k u. rewrite elem_of_lruDrop, He, lookup_delete_Some. simpl. naive_solver.
Qed.
Lemma lruDrop_idem key t l : lruDrop key ((key, t) :: lruDrop key l) = lruDrop key l.
Proof. unfold lruDrop. rewrite filter_cons_False by (simpl; naive_solver). rewrite list_filter_filter. apply list_filter_iff. tauto. Qed.
Lemma lruDrop_absent key l : lruFind key l = None → lruDrop key l = l.
Proof. intros Hf%lruFind_None. apply list_filter_all. intros e He Heq. destruct Hf. apply list_elem_of_fmap. by exists e. Qed.
(** With at most as many keys as there is room for, nothing is evicted. *)
Lemma tracks_room l m key : tracks K l m → key ∈ K → lruFind key l = None → length l < size K.
Proof.
  intros [Hnd He Hk] Hin Hf%lruFind_None. rewrite <- (length_fmap fst l). assert (list_to_set l.*1 ⊂ K) as Hs%subset_size.
  { split; [|set_solver]. intros k Hk'%elem_of_list_to_set. apply Hk. apply list_elem_of_fmap in Hk' as ([k' t] & -> & Hk'). apply elem_of_dom. exists t. by apply He. }
  rewrite size_list_to_set in Hs; done.
Qed.
Lemma tracks_add capacity l m key t : tracks K l m → key ∈ K → size K <= capacity → tracks K (lruAdd capacity key t l) (<[key := t]> m).
Proof.
  intros Ht Hin Hcap. assert (tracks K ((key, t) :: lruDrop key l) (<[key := t]> m)) as Hadd.
  { destruct Ht as [Hnd He Hk]. split; [by apply touched_nodup| |set_solver]. intros k u. rewrite elem_of_cons, elem_of_lruDrop, He, lookup_insert_Some. simpl. naive_solver. }
  unfold lruAdd. destruct (lruFind key l) as [t'|] eqn:E; [done|]. pose proof (tracks_room _ _ _ Ht Hin E). rewrite lruDrop_absent in Hadd by done.
  cbn [length]. destruct (Nat.ltb_spec capacity (S (length l))); [lia|done].
Qed.
End tracks.

Section agree.
Context {W : Type} `{C : !Clock W} (upstream : NamespacedName → M W Result) (K : gset string) (capacity : nat) (window : Z) (Hcap : size K <= capacity).

(** The same outcome in the same world, and states that still agree. *)
Definition agree (x : Cache * W * outcome Result) (y : gmap string Z * W * outcome Result) : Prop :=
  ∃ l, x.1.1 = mkCache capacity window l ∧ x.1.2 = y.1.2 ∧ x.2 = y.2 ∧ tracks K l y.1.1.

Lemma processed_agree l m w r : tracks K l m → requestString r ∈ K →
  agree (processRequest upstream r (mkCache capacity window l, w)) (passOn upstream r (m, w)).
Proof using Hcap.
  intros Ht Hin. unfold processRequest, passOn, Reconciled, cacheAdd, mbind_, scall, smod, mret. simpl.
  destruct (upstream r w) as [w1 [res|e|p|]]; simpl; [|by exists l..].
  destruct (Now w1) as [w2 [t|e|p|]]; simpl; [|by exists l..]. eexists. split_and!; [done|done|done|]. by apply tracks_add.
Qed.
Lemma step_agrees l m w r : tracks K l m → requestString r ∈ K →
  agree (coalescing_Reconcile upstream r (mkCache capacity window l, w)) (debounce upstream window r (m, w)).
Proof using Hcap.
  intros Ht Hin. set (key := requestString r) in *. pose proof (tracks_find _ _ _ key Ht) as Hf.
  pose proof (λ l' m' w' Ht', processed_agree l' m' w' r Ht' Hin) as Hproc.
  unfold coalescing_Reconcile, debounce, ShouldProcess, Peek, peekItem, lruGet. fold key. revert Hproc. generalize (processRequest upstream r), (passOn upstream r).
  intros concrete reference Hproc. unfold sget, smod, scall, mbind_, mret. cbn [fst snd entries]. rewrite Hf. destruct (m !! key) as [last|] eqn:Em; simpl; [|by apply Hproc].
  assert (tracks K ((key, last) :: lruDrop key l) m) as Ht1 by by apply tracks_touch.
  destruct (Now w) as [w1 [now|e|p|]]; simpl; [|by eexists..].
  case_decide; simpl.
  { unfold set_entries. simpl. apply Hproc. change (filter (λ e, e.1 ≠ key) ((key, last) :: lruDrop key l)) with (lruDrop key ((key, last) :: lruDrop key l)).
    rewrite lruDrop_idem. by apply tracks_drop. }
  destruct (Now w1) as [w2 [now1|e|p|]]; simpl; [|by eexists..].
  destruct (Now w2) as [w3 [now2|e|p|]]; simpl; [|by eexists..].
  destruct (Now w3) as [w4 [now'|e|p|]]; simpl; [|by eexists..].
  destruct (Now w4) as [w5 [now3|e|p|]]; simpl; [|by eexists..].
  eexists. split_and!; [done|done| |exact Ht1]. simpl. do 2 f_equal. case_decide; lia.
Qed.
End agree.

Section run.
Context {W : Type} `{C : !Clock W} (upstream : NamespacedName → M W Result).

Lemma run_agrees K capacity window reqs l m w : size K <= capacity → tracks K l m → (∀ r, r ∈ reqs → requestString r ∈ K) →
  let x := handleAll (coalescing_Reconcile upstream) reqs (mkCache capacity window l, w) in
  let y := handleAll (debounce upstream window) reqs (m, w) in
  x.1.2 = y.1.2 ∧ x.2 = y.2.
Proof using.
  intros Hcap. revert l m w. induction reqs as [|r reqs IH]; intros l m w Ht Hin; [done|]. cbn [handleAll].
  destruct (step_agrees upstream K capacity window Hcap l m w r Ht) as (l' & Hc & Hw & Ho & Ht'); [apply Hin; by left|].
  destruct (coalescing_Reconcile upstream r _) as [[c1 w1] o1], (debounce upstream window r _) as [[m2 w2] o2]. simpl in *. subst c1 w1 o1.
  specialize (IH l' m2 w2 Ht' ltac:(intros r' Hr'; apply Hin; by right)). cbv zeta in IH.
  destruct (handleAll (coalescing_Reconcile upstream) reqs _) as [[c3 w3] o3], (handleAll (debounce upstream window) reqs _) as [[m4 w4] o4]. simpl in *. naive_solver.
Qed.

(** C22. While there are at most 1024 different requests, the reconciler with the cache behaves exactly as the
    debouncer that remembers every success: over any sequence of requests, whatever the reconciler behind it
    returns or does and whatever the clock says, each request has the same outcome and the world is the same
    (in particular, the reconciler behind is called for the same requests at the same readings of the clock). *)
Theorem coalescing_is_debouncing window c reqs w : NewRequestCache window = Ret c → size (list_to_set (requestString <$> reqs) : gset string) <= 1024 →
  let x := handleAll (coalescing_Reconcile upstream) reqs (c, w) in
  let y := handleAll (debounce upstream window) reqs (∅, w) in
  x.1.2 = y.1.2 ∧ x.2 = y.2.
Proof using.
  intros [= <-] Hk. apply (run_agrees (list_to_set (requestString <$> reqs))); [done|apply tracks_nil|].
  intros r Hr. apply elem_of_list_to_set, list_elem_of_fmap. by exists r.
Qed.

(** A clock that does not go back. *)
Class ClockLaws (time : W → Z) := Now_reads w : match (Now w).2 with Ret t => (time w ≤ t)%Z ∧ time (Now w).1 = t | _ => True end.

(** A request that is held back comes again, after a second at the earliest and after the window at the latest. *)
Lemma held_back_comes_again `{CL : !ClockLaws time} window m w w1 t m' w' r res last : m !! requestString r = Some last → (last ≤ time w)%Z →
  Now w = (w1, Ret t) → (t - last ≤ window)%Z → debounce upstream window r (m, w) = ((m', w'), Ret res) →
  m' = m ∧ (Second ≤ RequeueAfter res ≤ Z.max Second window)%Z.
Proof using.
  intros Hm Hlast Hnow Hw. unfold debounce, sget, scall, mbind_, mret. simpl. rewrite Hm. simpl. rewrite Hnow. rewrite decide_False by lia.
  pose proof (CL w) as H0. pose proof (CL w1) as H1. rewrite Hnow in H0. simpl in *.
  destruct (Now w1) as [w2 [t1|e|p|]]; simpl in *; [|done..]. pose proof (CL w2) as H2. destruct (Now w2) as [w3 [t2|e|p|]]; simpl in *; [|done..].
  pose proof (CL w3) as H3. destruct (Now w3) as [w4 [t3|e|p|]]; simpl in *; [|done..]. pose proof (CL w4) as H4. destruct (Now w4) as [w5 [t4|e|p|]]; simpl in *; [|done..].
  intros [= <- <- <-]. split; [done|]. simpl. lia.
Qed.
End run.

(** ** A run *)

(** The readings to come, and the requests that were passed on. *)
Record tickWorld := mkTickWorld { readings : list Z; passedOn : list string }.
#[export] Instance tickClock : Clock tickWorld := λ w, match readings w with t :: l => (mkTickWorld l (passedOn w), Ret t) | [] => (w, Timeout) end.
(** It fails the first time. *)
Definition logUpstream (r : NamespacedName) : M tickWorld Result := λ w,
  let w' := mkTickWorld (readings w) (passedOn w ++ [requestString r]) in
  if decide (passedOn w = []) then (w', Err (ErrNew "busy")) else (w', Ret (mkResult false 0)).
Definition reqA : NamespacedName := mkNN "ns" "a".
Definition reqB : NamespacedName := mkNN "ns" "b".
(** A failure, a success at 5, a request held back, another request, and the first one again after the window. *)
Definition tickStart : tickWorld := mkTickWorld [5; 100; 100; 100; 100; 100; 200; 1000000006; 1000000007]%Z [].
Definition tickReqs : list NamespacedName := [reqA; reqA; reqA; reqB; reqA].
Definition tickRun : tickWorld * list (outcome Result) :=
  match NewRequestCache Second with Ret c => let r := handleAll (coalescing_Reconcile logUpstream) tickReqs (c, tickStart) in (r.1.2, r.2) | _ => (tickStart, []) end.
Example tick_run : tickRun =
  (mkTickWorld [] ["ns/a"; "ns/a"; "ns/b"; "ns/a"], [Err (ErrNew "busy"); Ret (mkResult false 0); Ret (mkResult false Second); Ret (mkResult false 0); Ret (mkResult false 0)]).
Proof. vm_compute. reflexivity. Qed.
Lemma coalescing_is_debouncing_witness :
  (handleAll (coalescing_Reconcile logUpstream) tickReqs (mkCache 1024 Second [], tickStart)).2 = (handleAll (debounce logUpstream Second) tickReqs (∅, tickStart)).2 ∧
  (handleAll (debounce logUpstream Second) tickReqs (∅, tickStart)).1.2 = mkTickWorld [] ["ns/a"; "ns/a"; "ns/b"; "ns/a"].
Proof.
  split; [|vm_compute; reflexivity]. apply (coalescing_is_debouncing logUpstream Second (mkCache 1024 Second []) tickReqs tickStart); [reflexivity|].
  apply (bool_decide_unpack _). vm_compute. exact I.
Defined.

(** Beyond the capacity the bound shows: the oldest success is forgotten, and its request is passed on too early. *)
Example evicted_request_is_passed_on : let r := handleAll (coalescing_Reconcile logUpstream) [reqA; reqB; reqA] (mkCache 1 Second [], mkTickWorld [5; 6; 7]%Z ["ns/z"]) in
  passedOn r.1.2 = ["ns/z"; "ns/a"; "ns/b"; "ns/a"].
Proof. vm_compute. reflexivity. Qed.
