(* ===== verification/IptablesSystem.v ===== *)
(** * Commands and locks of iptables ([pkg/iptables/version.go], [binary.go], [lock.go])

    The version of iptables and its mode, the choice of a command, and the lock that the tables share when
    [iptables-restore] cannot take it itself. *)

From S2P Require Import Prelude GoStd GoNet GoFmt Types ApiServer Triple StateM.
Open Scope Z_scope.

(** ** Version *)

Record Version := mkVersion { Major : Z; Minor : Z; Patch : Z; BackendMode : string }.
#[export] Instance Version_eq_dec : EqDecision Version.
Proof. solve_decision. Defined.
Definition Version_String (v : Version) : string := Itoa (Major v) +:+ "." +:+ Itoa (Minor v) +:+ "." +:+ Itoa (Patch v).
(** The difference of two [int]s. *)
Definition Compare (v other : Version) : Z :=
  if decide (Major v ≠ Major other) then toInt64 (Major v - Major other)
  else if decide (Minor v ≠ Minor other) then toInt64 (Minor v - Minor other)
  else toInt64 (Patch v - Patch other).

(** [[0-9]+] takes all the digits there are. *)
Fixpoint spanDigits (l : list ascii) : list ascii * list ascii :=
  match l with
  | c :: l' => match decval c with Some _ => let '(d, r) := spanDigits l' in (c :: d, r) | None => ([], l) end
  | [] => ([], [])
  end.
Definition digits1 (l : list ascii) : option (list ascii * list ascii) :=
  match spanDigits l with ([], _) => None | r => Some r end.
(** The expression [v([0-9]+)\.([0-9]+)\.([0-9]+)] at the head of a text. *)
Definition versionHere (l : list ascii) : option (list ascii * list ascii * list ascii) :=
  match l with
  | "v"%char :: l =>
      match digits1 l with
      | Some (a, "."%char :: l) =>
          match digits1 l with
          | Some (b, "."%char :: l) => match digits1 l with Some (c, _) => Some (a, b, c) | None => None end
          | _ => None
          end
      | _ => None
      end
  | _ => None
  end.
Fixpoint findVersion (l : list ascii) : option (list ascii * list ascii * list ascii) :=
  match versionHere l with
  | Some m => Some m
  | None => match l with [] => None | _ :: l' => findVersion l' end
  end.
(** The value that [strconv.Atoi] returns for digits, beside its error: the nearest [int]. *)
Definition atoiValue (l : list ascii) : Z := match decNumber l 0 with Some n => Z.min n (2 ^ 63 - 1) | None => 0 end.
Definition ParseVersion (versionString : string) : outcome Version :=
  match findVersion (chars versionString) with
  | Some (a, b, c) => Ret (mkVersion (atoiValue a) (atoiValue b) (atoiValue c) "")
  | None => Err (ErrNew "invalid version string")
  end.

(** [strings.Count] of line ends. *)
Definition countLines (s : string) : nat := length (filter (λ c, c = "010"%char) (chars s)).
(** [run] gives the output of a command, or its error; the error of the four [save] commands is ignored. *)
Definition GetVersion (run : list string → outcome string) (output : list string → string) : outcome Version :=
  match run ["iptables"; "--version"] with
  | Ret out =>
      let! ver := ParseVersion out in
      let nft4 := output ["iptables-nft-save"] in
      let legacy4 := output ["iptables-legacy-save"] in
      let nft6 := output ["ip6tables-nft-save"] in
      let legacy6 := output ["ip6tables-legacy-save"] in
      let mode :=
        if Contains nft4 "KUBE-IPTABLES" || Contains nft6 "KUBE-IPTABLES" || Contains nft4 "KUBE-KUBELET" || Contains nft6 "KUBE-KUBELET" then "nft"
        else if Contains legacy4 "KUBE-IPTABLES" || Contains legacy6 "KUBE-IPTABLES" || Contains legacy4 "KUBE-KUBELET" || Contains legacy6 "KUBE-KUBELET" then "legacy"
        else if (countLines legacy4 + countLines legacy6 <? countLines nft4 + countLines nft6)%nat then "nft"
        else "legacy" in
      Ret (mkVersion (Major ver) (Minor ver) (Patch ver) mode)
  | Err _ => Err (ErrNew "run cmd 'iptables --version' wtith error")
  | Panic s => Panic s
  | Timeout => Timeout
  end.

Definition FindBestBinary (lookPath : string → bool) (ipVersion : Z) (backendMode saveOrRestore : string) : outcome string :=
  let verInfix := if decide (ipVersion = 6) then "6" else "" in
  let candidates := ["ip" +:+ verInfix +:+ "tables-" +:+ backendMode +:+ "-" +:+ saveOrRestore; "ip" +:+ verInfix +:+ "tables-" +:+ saveOrRestore] in
  match list_find (λ c, lookPath c = true) candidates with
  | Some (_, c) => Ret c
  | None => Err (ErrNew "failed to find iptables command")
  end.

(** ** Locks *)

(** The file of [iptables] 1.6, the abstract socket of 1.4, and waiting. *)
Class LockSys (W : Type) := {
  LockFile : Type;
  LockSocket : Type;
  OpenFile : string → M W LockFile;
  Flock : LockFile → M W unit;
  CloseFile : LockFile → M W unit;
  ListenUnix : string → M W LockSocket;
  CloseSocket : LockSocket → M W unit;
  Sleep : Z → M W unit
}.

Section locks.
Context {W : Type} `{LS : !LockSys W} `{C : !Clock W}.

(** [None] is a lock that was not opened. *)
Record Locker := mkLocker { Lock16 : option LockFile; Lock14 : option LockSocket }.
(** The error of the first lock is lost when the second one is closed without an error. *)
Definition Locker_Close (l : Locker) : M W unit :=
  let* err16 := (match Lock16 l with Some f => attempt (CloseFile f) | None => mret (inl tt) end) in
  match Lock14 l with
  | None => mret tt
  | Some s =>
      let* err14 := attempt (CloseSocket s) in
      match err14, err16 with
      | inl _, _ => mret tt
      | inr e, inl _ => merr e
      | inr _, inr _ => merr (ErrNew "lock16 error; lock14 error")
      end
  end.

Definition Err14LockTimeout : error := ErrNew "timed out waiting for iptables 1.4 lock".
Definition Err16LockTimeout : error := ErrNew "timed out waiting for iptables 1.6 lock".
(** A lock is tried until it is free or the time is up, at most [fuel] times. *)
Fixpoint grabLoop {A} (fuel : nat) (grab : M W A) (startTime timeout probeInterval : Z) (late : error) : M W A :=
  match fuel with
  | O => lift Timeout
  | S fuel' =>
      let* r := attempt grab in
      match r with
      | inl a => mret a
      | inr _ =>
          let* now := Now in
          if decide (now - startTime > timeout) then merr late
          else let* _ := Sleep probeInterval in grabLoop fuel' grab startTime timeout probeInterval late
      end
  end.
(** What was opened is closed again on a failure. *)
Definition orClose {A} (l : Locker) (c : M W A) : M W A :=
  let* r := attempt c in
  match r with inl a => mret a | inr e => let* _ := attempt (Locker_Close l) in merr e end.
Definition GrabIptablesLocks (fuel : nat) (lockFilePath socketName : string) (timeout probeInterval : Z) : M W Locker :=
  let* f := orClose (mkLocker None None)
    (let* r := attempt (OpenFile lockFilePath) in match r with inl f => mret f | inr _ => merr (ErrNew "failed to open iptables lock") end) in
  let* startTime := Now in
  let* _ := orClose (mkLocker (Some f) None) (grabLoop fuel (Flock f) startTime timeout probeInterval Err16LockTimeout) in
  let* startTime14 := Now in
  let* s := orClose (mkLocker (Some f) None) (grabLoop fuel (ListenUnix socketName) startTime14 timeout probeInterval Err14LockTimeout) in
  mret (mkLocker (Some f) (Some s)).

(** The fields that change, and the ones given at the start. *)
Record SharedLock := mkSharedLock { referenceCount : Z; lockHandle : option Locker; lockFilePath : string; lockTimeout : Z; lockProbeInterval : Z }.
Definition NewSharedLock (path : string) (timeout interval : Z) : SharedLock := mkSharedLock 0 None path timeout interval.
Definition set_count (n : Z) (l : SharedLock) : SharedLock := mkSharedLock n (lockHandle l) (lockFilePath l) (lockTimeout l) (lockProbeInterval l).
Definition set_handle (h : option Locker) (l : SharedLock) : SharedLock := mkSharedLock (referenceCount l) h (lockFilePath l) (lockTimeout l) (lockProbeInterval l).

Definition SharedLock_Lock (fuel : nat) : M (SharedLock * W) unit :=
  let* l := sget in
  let* _ := (if decide (referenceCount l = 0) then
    let* r := attempt (scall (GrabIptablesLocks fuel (lockFilePath l) "@xtables" (lockTimeout l) (lockProbeInterval l))) in
    match r with inl h => smod (set_handle (Some h)) | inr _ => lift (Panic "failed to acquire iptables lock") end
    else mret tt) in
  smod (λ l, set_count (referenceCount l + 1) l).
Definition SharedLock_Unlock : M (SharedLock * W) unit :=
  let* _ := smod (λ l, set_count (referenceCount l - 1) l) in
  let* l := sget in
  if decide (referenceCount l < 0) then lift (Panic "Unmatched Unlock()")
  else if decide (referenceCount l = 0) then
    match lockHandle l with
    | None => lift (Panic "nil pointer dereference")
    | Some h =>
        let* r := attempt (scall (Locker_Close h)) in
        match r with inl _ => smod (set_handle None) | inr _ => lift (Panic "error while closing iptables lock") end
    end
  else mret tt.
End locks.

(** ** The version that is read *)

Definition headNoDigit (l : list ascii) : Prop := match l with c :: _ => decval c = None | [] => True end.
Lemma spanDigits_app l r : Forall (λ c, is_Some (decval c)) l → headNoDigit r → spanDigits (l ++ r) = (l, r).
Proof.
  intros Hl Hr. induction Hl as [|c l [d Hc] _ IH]; simpl.
  - destruct r as [|c r]; [done|]. simpl in *. by rewrite Hr.
  - by rewrite Hc, IH.
Qed.
Lemma decDigits_ne fuel n : fuel ≠ O → decDigits fuel n ≠ [].
Proof. destruct fuel as [|fuel]; [done|]. intros _. cbn [decDigits]. destruct (n <? 10); [done|]. intros [_ ?]%app_eq_nil. done. Qed.
Lemma Itoa_digits n : 0 <= n → chars (Itoa n) ≠ [] ∧ Forall (λ c, is_Some (decval c)) (chars (Itoa n)).
Proof.
  intros Hn. unfold Itoa. destruct (Z.ltb_spec n 0); [lia|]. rewrite chars_unchars. split; [by apply decDigits_ne|].
  apply decDigits_Forall; [|done]. intros d Hd. rewrite decval_digit by done. by eexists.
Qed.
Lemma digits1_Itoa n r : 0 <= n → headNoDigit r → digits1 (chars (Itoa n) ++ r) = Some (chars (Itoa n), r).
Proof.
  intros Hn Hr. destruct (Itoa_digits n Hn) as [Hne Hd]. unfold digits1. rewrite spanDigits_app by done. by destruct (chars (Itoa n)).
Qed.
Lemma atoiValue_Itoa n : 0 <= n < 2 ^ 63 → atoiValue (chars (Itoa n)) = n.
Proof. intros Hn. unfold atoiValue. rewrite decNumber_Itoa by lia. lia. Qed.

(** The version is found wherever it stands, unless a [v] comes before it. *)
Lemma ParseVersion_printed v before after : 0 <= Major v < 2 ^ 63 → 0 <= Minor v < 2 ^ 63 → 0 <= Patch v < 2 ^ 63 → BackendMode v = "" →
  ("v"%char ∉ chars before) → headNoDigit (chars after) → ParseVersion (before +:+ "v" +:+ Version_String v +:+ after) = Ret v.
Proof.
  intros Ha Hb Hc Hm Hv Hr. unfold ParseVersion, Version_String. rewrite !chars_app. revert Hv. generalize (chars before). intros pre Hv.
  assert (∀ r, headNoDigit r → versionHere ("v"%char :: chars (Itoa (Major v)) ++ "."%char :: chars (Itoa (Minor v)) ++ "."%char :: chars (Itoa (Patch v)) ++ r) =
    Some (chars (Itoa (Major v)), chars (Itoa (Minor v)), chars (Itoa (Patch v)))) as Hh.
  { intros r Hr'. cbn [versionHere]. rewrite digits1_Itoa by (lia || done). rewrite digits1_Itoa by (lia || done). by rewrite digits1_Itoa by (lia || done). }
  assert (findVersion (pre ++ chars "v" ++ ((chars (Itoa (Major v)) ++ chars "." ++ chars (Itoa (Minor v)) ++ chars "." ++ chars (Itoa (Patch v))) ++ chars after)) =
    Some (chars (Itoa (Major v)), chars (Itoa (Minor v)), chars (Itoa (Patch v)))) as ->.
  { induction pre as [|c pre IH].
    - rewrite <- !app_assoc. cbn [app]. change (chars "v") with ["v"%char]. change (chars ".") with ["."%char]. cbn [app findVersion]. by rewrite Hh.
    - apply not_elem_of_cons in Hv as [Hc' Hv]. cbn [app findVersion]. assert (versionHere (c :: pre ++ chars "v" ++ ((chars (Itoa (Major v)) ++ chars "." ++ chars (Itoa (Minor v)) ++ chars "." ++ chars (Itoa (Patch v))) ++ chars after)) = None) as ->.
      { unfold versionHere. repeat case_match; simplify_eq; try done. }
      by apply IH. }
  rewrite !atoiValue_Itoa by done. destruct v. simpl in *. by subst.
Qed.

(** Comparing is comparing the numbers from the left. *)
Definition inInt (z : Z) : Prop := 0 <= z < 2 ^ 63.
Lemma Compare_order v w : inInt (Major v) → inInt (Minor v) → inInt (Patch v) → inInt (Major w) → inInt (Minor w) → inInt (Patch w) →
  (0 <= Compare v w ↔ Major w < Major v ∨ Major v = Major w ∧ (Minor w < Minor v ∨ Minor v = Minor w ∧ Patch w <= Patch v)).
Proof. unfold inInt, Compare. intros. repeat case_decide; rewrite toInt64_small by lia; lia. Qed.

(** ** The lock is held while somebody is inside *)

(** Whether this process holds the lock of the file, and that of the socket. *)
Class LockLaws (W : Type) `{LS : LockSys W} `{C : Clock W} (held : W → bool * bool) := {
  ll_OpenFile p w : held (OpenFile p w).1 = held w;
  ll_Now w : held (Now w).1 = held w ∧ ∀ e, (Now w).2 ≠ Err e;
  ll_Sleep d w : held (Sleep d w).1 = held w;
  ll_Flock f w : held (Flock f w).1 = match (Flock f w).2 with Ret _ => (true, (held w).2) | _ => held w end;
  ll_ListenUnix n w : held (ListenUnix n w).1 = match (ListenUnix n w).2 with Ret _ => ((held w).1, true) | _ => held w end;
  (** A descriptor is given up even when closing it says that something failed. *)
  ll_CloseFile f w : held (CloseFile f w).1 = (false, (held w).2);
  ll_CloseSocket s w : held (CloseSocket s w).1 = ((held w).1, false)
}.

(** Triples in which a panic says nothing: a value or an error is returned. *)
Definition etri {W A} (P : W → Prop) (c : M W A) (Q : A → W → Prop) (E : W → Prop) : Prop :=
  ∀ w, P w → match (c w).2 with Ret a => Q a (c w).1 | Err _ => E (c w).1 | _ => True end.
Lemma etri_bind {W A B} P (c : M W A) (k : A → M W B) Q Q' E : etri P c Q E → (∀ a, etri (Q a) (k a) Q' E) → etri P (mbind_ c k) Q' E.
Proof. intros Hc Hk w Hw. specialize (Hc w Hw). unfold mbind_. destruct (c w) as [w1 [a|e|p|]]; simpl in *; try done. by apply (Hk a w1). Qed.
Lemma etri_attempt {W A} P (c : M W A) Q E : etri P c Q E → etri P (attempt c) (λ r, match r with inl a => Q a | inr _ => E end) E.
Proof. intros Hc w Hw. specialize (Hc w Hw). unfold attempt. by destruct (c w) as [w1 [a|e|p|]]. Qed.
Lemma etri_attempt' {W A} P (c : M W A) (Q : W → Prop) E : etri P c (λ _, Q) Q → etri P (attempt c) (λ _, Q) E.
Proof. intros Hc w Hw. specialize (Hc w Hw). unfold attempt. by destruct (c w) as [w1 [a|e|p|]]. Qed.
Lemma etri_ret {W A} (P : W → Prop) (a : A) (Q : A → W → Prop) E : (∀ w, P w → Q a w) → etri P (mret a) Q E.
Proof. intros HQ w Hw. by apply HQ. Qed.
Lemma etri_err {W A} (P : W → Prop) e (Q : A → W → Prop) (E : W → Prop) : (∀ w, P w → E w) → etri P (merr e) Q E.
Proof. intros HE w Hw. by apply HE. Qed.

Lemma inside_pos (inside : gset nat) g : g ∈ inside → (0 < size inside)%nat.
Proof. intros Hg. assert (size inside ≠ 0)%nat; [apply size_non_empty_iff; set_solver|lia]. Qed.

Section held.
Context {W : Type} `{LS : !LockSys W} `{C : !Clock W} (held : W → bool * bool) `{LL : !LockLaws W held}.
Abbreviation holds h := (λ w, held w = h).

Lemma etri_quiet {A} (c : M W A) h : (∀ w, held (c w).1 = held w) → etri (holds h) c (λ _, holds h) (holds h).
Proof using. intros Hc w Hw. specialize (Hc w). destruct (c w).2; rewrite ?Hc; done. Qed.
Lemma etri_Now h E : etri (holds h) Now (λ _, holds h) E.
Proof using LL. intros w Hw. destruct (ll_Now (held := held) w) as [H He]. destruct (Now w).2; rewrite ?H; try done. by destruct (He e). Qed.
Lemma etri_Flock f b : etri (holds (false, b)) (Flock f) (λ _, holds (true, b)) (holds (false, b)).
Proof using LL. intros w Hw. pose proof (ll_Flock (held := held) f w) as H. rewrite Hw in H. by destruct (Flock f w).2. Qed.
Lemma etri_ListenUnix n a : etri (holds (a, false)) (ListenUnix n) (λ _, holds (a, true)) (holds (a, false)).
Proof using LL. intros w Hw. pose proof (ll_ListenUnix (held := held) n w) as H. rewrite Hw in H. by destruct (ListenUnix n w).2. Qed.
Lemma etri_CloseFile f a b : etri (holds (a, b)) (CloseFile f) (λ _, holds (false, b)) (holds (false, b)).
Proof using LL. intros w Hw. pose proof (ll_CloseFile (held := held) f w) as H. rewrite Hw in H. by destruct (CloseFile f w).2. Qed.
Lemma etri_CloseSocket n a b : etri (holds (a, b)) (CloseSocket n) (λ _, holds (a, false)) (holds (a, false)).
Proof using LL. intros w Hw. pose proof (ll_CloseSocket (held := held) n w) as H. rewrite Hw in H. by destruct (CloseSocket n w).2. Qed.

(** A lock that is tried in a loop: when the time is up, things are as before. *)
Lemma etri_grabLoop {A} fuel (c : M W A) start timeout probe late h h' : etri (holds h) c (λ _, holds h') (holds h) →
  etri (holds h) (grabLoop fuel c start timeout probe late) (λ _, holds h') (holds h).
Proof using LL.
  intros Hc. induction fuel as [|fuel IH]; [by intros w Hw|]. eapply etri_bind; [by apply etri_attempt|]. intros [a|e]; [by apply etri_ret|].
  eapply etri_bind; [apply etri_Now|]. intros now. case_decide; [by apply etri_err|].
  eapply etri_bind; [apply etri_quiet; intros w; apply (ll_Sleep (held := held))|]. intros ?. exact IH.
Qed.
Lemma etri_Close l a b : (Lock16 l = None → a = false) → (Lock14 l = None → b = false) →
  etri (holds (a, b)) (Locker_Close l) (λ _, holds (false, false)) (holds (false, false)).
Proof using LL.
  intros Ha Hb. eapply (etri_bind _ _ _ (λ _, holds (false, b))).
  - destruct (Lock16 l) as [f|]; [|rewrite Ha by done; by apply etri_ret]. apply etri_attempt', etri_CloseFile.
  - intros err16. destruct (Lock14 l) as [s|]; [|rewrite Hb by done; by apply etri_ret].
    eapply (etri_bind _ _ _ (λ _, holds (false, false))).
    + apply etri_attempt', etri_CloseSocket.
    + intros [?|e]; [by apply etri_ret|]. destruct err16; by apply etri_err.
Qed.
Lemma etri_orClose {A} l (c : M W A) a b (Q : A → W → Prop) : (Lock16 l = None → a = false) → (Lock14 l = None → b = false) → etri (holds (a, b)) c Q (holds (a, b)) →
  etri (holds (a, b)) (orClose l c) Q (holds (false, false)).
Proof using LL.
  intros Ha Hb Hc. intros w Hw. unfold orClose, attempt, mbind_. specialize (Hc w Hw). destruct (c w) as [w1 [x|e|p|]]; simpl in *; try done.
  pose proof (etri_Close l a b Ha Hb w1 Hc) as H. by destruct (Locker_Close l w1) as [w2 [?|?|?|]].
Qed.
(** Both locks, or neither and nothing left open. *)
Lemma etri_GrabIptablesLocks fuel path name timeout probe :
  etri (holds (false, false)) (GrabIptablesLocks fuel path name timeout probe) (λ l w, held w = (true, true) ∧ is_Some (Lock16 l) ∧ is_Some (Lock14 l)) (holds (false, false)).
Proof using LL.
  eapply (etri_bind _ _ _ (λ _, holds (false, false))); [apply etri_orClose; [done|done|]|intros f].
  { eapply (etri_bind _ _ _ (λ _, holds (false, false))); [|intros [?|?]; [by apply etri_ret|by apply etri_err]].
    eapply etri_attempt' ; [apply etri_quiet; intros w; apply (ll_OpenFile (held := held))|done..]. }
  eapply etri_bind; [apply etri_Now|]. intros start.
  eapply etri_bind; [apply etri_orClose; [done|done|]; apply etri_grabLoop, etri_Flock|]. intros ?.
  eapply etri_bind; [apply etri_Now|]. intros start14.
  eapply etri_bind; [apply etri_orClose; [done|done|]; apply etri_grabLoop, etri_ListenUnix|]. intros s.
  apply etri_ret. intros w Hw. split; [done|]. split; by eexists.
Qed.

(** *** The tables inside *)

(** Tables of this process take the lock, leave it, and other processes act. *)
Inductive lock_step (fuel : nat) : gset nat * (SharedLock * W) → gset nat * (SharedLock * W) → Prop :=
| step_lock g inside x x' : (g ∉ inside) → SharedLock_Lock fuel x = (x', Ret tt) → lock_step fuel (inside, x) ({[g]} ∪ inside, x')
| step_unlock g inside x x' : g ∈ inside → SharedLock_Unlock x = (x', Ret tt) → lock_step fuel (inside, x) (inside ∖ {[g]}, x')
| step_outside inside l w w' : held w' = held w → lock_step fuel (inside, (l, w)) (inside, (l, w')).

(** The count is the number of tables inside; the locks are held while it is positive. *)
Record lock_ok (s : gset nat * (SharedLock * W)) : Prop := {
  lk_count : referenceCount s.2.1 = Z.of_nat (size s.1);
  lk_in : s.1 ≠ ∅ → held s.2.2 = (true, true) ∧ ∃ l, lockHandle s.2.1 = Some l ∧ is_Some (Lock16 l) ∧ is_Some (Lock14 l);
  lk_out : s.1 = ∅ → held s.2.2 = (false, false)
}.
Lemma lock_step_ok fuel s s' : lock_step fuel s s' → lock_ok s → lock_ok s'.
Proof using LL.
  intros [g inside [l w] x' Hg Hl|g inside [l w] x' Hg Hl|inside l w w' Hw] [Hc Hi Ho]; simpl in *.
  - unfold SharedLock_Lock, sget, smod, scall, attempt, mbind_ in Hl. simpl in Hl. rewrite Hc in Hl. case_decide as Hz.
    + assert (referenceCount l = 0) as Hc0 by lia. assert (inside = ∅) as -> by (apply leibniz_equiv, size_empty_iff; lia). specialize (Ho eq_refl).
      pose proof (etri_GrabIptablesLocks fuel (lockFilePath l) "@xtables" (lockTimeout l) (lockProbeInterval l) w Ho) as Hgrab.
      simpl in Hl. revert Hgrab. destruct (GrabIptablesLocks _ _ _ _ _ w) as [w1 [h|e|p|]]; simpl in *; try done; intros Hgrab. injection Hl as <-. destruct Hgrab as (Hh & H16 & H14). split; cbn [fst snd set_count set_handle referenceCount lockHandle].
      * rewrite Hc0, size_union, size_singleton, size_empty by set_solver. lia.
      * intros _. split; [done|]. by exists h.
      * intros Hn. exfalso. set_solver.
    + injection Hl as <-. split; cbn [fst snd set_count referenceCount lockHandle]; [rewrite Hc, size_union, size_singleton by set_solver; lia| |intros Hn; exfalso; set_solver].
      intros _. apply Hi. intros ->. rewrite size_empty in Hz. done.
  - unfold SharedLock_Unlock, sget, smod, scall, attempt, mbind_ in Hl. simpl in Hl. rewrite Hc in Hl.
    assert (size (inside ∖ {[g]}) = size inside - 1)%nat as Hs by (rewrite size_difference, size_singleton by set_solver; lia).
    assert (0 < size inside)%nat as Hpos by (apply (inside_pos _ g Hg)). assert (inside ≠ ∅) as Hne by set_solver. destruct (Hi Hne) as (Hh & h & Hhl & H16 & H14).
    case_decide; [done|]. case_decide as Hz.
    + rewrite Hhl in Hl. assert (inside ∖ {[g]} = ∅) as He by (apply leibniz_equiv, size_empty_iff; lia).
      pose proof (etri_Close h true true) as Hcl. specialize (Hcl ltac:(intros E; rewrite E in H16; by destruct H16) ltac:(intros E; rewrite E in H14; by destruct H14) w Hh).
      simpl in Hl. destruct (Locker_Close h w) as [w1 [?|e|p|]]; simpl in *; try done. injection Hl as <-. rewrite He. split; cbn [fst snd set_count set_handle referenceCount lockHandle]; [rewrite size_empty; lia|done|done].
    + injection Hl as <-. split; cbn [fst snd set_count referenceCount lockHandle]; [lia|by intros _; split; [|exists h]|]. intros He. exfalso. rewrite He, size_empty in Hs. lia.
  - split; simpl; [done|intros Hn; rewrite Hw; by apply Hi|intros Hn; rewrite Hw; by apply Ho].
Qed.

(** C23. The lock that the tables share: over any interleaving of tables taking and leaving it, with other
    processes acting in between, the reference count is the number of tables inside, and this process holds the
    file lock and the socket of iptables exactly while some table is inside; and a table that leaves never
    meets an unmatched unlock: it ends without a panic, unless closing the locks fails. *)
Theorem lock_held_while_inside fuel path timeout probe w0 inside l w : held w0 = (false, false) →
  rtc (lock_step fuel) (∅, (NewSharedLock path timeout probe, w0)) (inside, (l, w)) →
  referenceCount l = Z.of_nat (size inside) ∧ held w = (if decide (inside = ∅) then (false, false) else (true, true)) ∧
  ∀ g, g ∈ inside → (∀ h w', (Locker_Close h w').2 = Ret tt) → (SharedLock_Unlock (l, w)).2 = Ret tt.
Proof using LL.
  intros H0 Hrun. assert (lock_ok (inside, (l, w))) as [Hc Hi Ho].
  { remember (∅, (NewSharedLock path timeout probe, w0)) as s0 eqn:Es. assert (lock_ok s0) as Hok by (rewrite Es; by split).
    clear Es. induction Hrun as [|s s' s'' Hstep _ IH]; [done|]. apply IH. by eapply lock_step_ok. }
  simpl in *. split_and!; [done|case_decide; [by apply Ho|by apply Hi]|].
  intros g Hg Hclose. destruct (Hi ltac:(set_solver)) as (_ & h & Hh & _). assert (0 < size inside)%nat by (apply (inside_pos _ g Hg)).
  unfold SharedLock_Unlock, sget, smod, scall, attempt, mbind_. simpl. rewrite Hc, Hh. case_decide; [lia|]. case_decide; [|done]. simpl.
  specialize (Hclose h w). destruct (Locker_Close h w) as [w1 [[]|e|p|]]; simpl in *; done.
Qed.
End held.

(** The loops end: a turn takes the probe interval at least. *)
Section terminates.
Context {W : Type} `{LS : !LockSys W} `{C : !Clock W} (time : W → Z).
Context (Hnow : ∀ w, Now w = (w, Ret (time w))) (Hsleep : ∀ d w, ∃ w', Sleep d w = (w', Ret tt) ∧ time w + d <= time w').
Lemma grabLoop_ends {A} fuel (c : M W A) start timeout probe late w : (∀ w, time w <= time (c w).1 ∧ (c w).2 ≠ Timeout) →
  0 < probe → start + timeout - time w < Z.of_nat fuel * probe → (grabLoop (S fuel) c start timeout probe late w).2 ≠ Timeout.
Proof using Hnow Hsleep.
  intros Hc Hp. revert w. induction fuel as [|fuel IH]; intros w Hf; remember (S _) as k eqn:Ek in |- *; rewrite Ek; cbn [grabLoop]; unfold mbind_, attempt;
    destruct (Hc w) as [Ht Hn]; destruct (c w) as [w1 [a|e|p|]]; simpl in Ht, Hn; try done; rewrite Hnow; case_decide; try done; [lia|].
  destruct (Hsleep probe w1) as (w2 & -> & Hw2). apply IH. lia.
Qed.
End terminates.

(** ** A host *)

(** How often the file is still found locked, the time, and what this process holds. *)
Record lockWorld := mkLockWorld { lw_busy : nat; lw_time : Z; lw_held : bool * bool; lw_closeFails : bool }.
#[export] Instance lockClock : Clock lockWorld := λ w, (w, Ret (lw_time w)).
#[export] Instance lockSys : LockSys lockWorld := {
  LockFile := unit;
  LockSocket := unit;
  OpenFile p := mret tt;
  Flock f := λ w, match lw_busy w with
    | O => (mkLockWorld 0 (lw_time w) (true, (lw_held w).2) (lw_closeFails w), Ret tt)
    | S n => (mkLockWorld n (lw_time w + 1) (lw_held w) (lw_closeFails w), Err (ErrNew "resource temporarily unavailable"))
    end;
  CloseFile f := λ w, (mkLockWorld (lw_busy w) (lw_time w) (false, (lw_held w).2) (lw_closeFails w), if lw_closeFails w then Err (ErrNew "close") else Ret tt);
  ListenUnix n := λ w, (mkLockWorld (lw_busy w) (lw_time w) ((lw_held w).1, true) (lw_closeFails w), Ret tt);
  CloseSocket f := λ w, (mkLockWorld (lw_busy w) (lw_time w) ((lw_held w).1, false) (lw_closeFails w), Ret tt);
  Sleep d := λ w, (mkLockWorld (lw_busy w) (lw_time w + d) (lw_held w) (lw_closeFails w), Ret tt)
}.
#[export] Instance lockLaws : LockLaws lockWorld lw_held.
Proof. split; try done. intros f w. simpl. by destruct (lw_busy w). Qed.

Definition host1 : lockWorld := mkLockWorld 2 0 (false, false) false.
Definition lock1 : SharedLock := NewSharedLock "/run/xtables.lock" 1000 50.
Definition after1 : SharedLock * lockWorld := (SharedLock_Lock 3 (SharedLock_Lock 3 (lock1, host1)).1).1.
Lemma lock_held_while_inside_witness : referenceCount after1.1 = 2 ∧ lw_held after1.2 = (true, true).
Proof.
  destruct (lock_held_while_inside lw_held 3 "/run/xtables.lock" 1000 50 host1 {[1; 2]}%nat after1.1 after1.2) as (H1 & H2 & _).
  - reflexivity.
  - eapply rtc_l; [apply (step_lock lw_held 3 2%nat ∅ (lock1, host1)); [set_solver|vm_compute; reflexivity]|].
    eapply rtc_l; [apply (step_lock lw_held 3 1%nat); [set_solver|vm_compute; reflexivity]|].
    assert (({[1]} ∪ ({[2]} ∪ ∅) : gset nat) = {[1; 2]})%nat as -> by set_solver. apply rtc_refl.
  - split; [exact H1|]. rewrite H2. reflexivity.
Defined.

(** With the timeout of the default configuration (0) a lock that another process holds for a moment ends the agent. *)
Example default_timeout_panics : (SharedLock_Lock 5 (NewSharedLock "/run/xtables.lock" 0 50, host1)).2 = Panic "failed to acquire iptables lock".
Proof. vm_compute. reflexivity. Qed.
(** The error of closing the file is lost. *)
Example close_error_is_lost : (Locker_Close (W := lockWorld) (mkLocker (Some tt) (Some tt)) (mkLockWorld 0 0 (true, true) true)).2 = Ret tt.
Proof. vm_compute. reflexivity. Qed.

Example version_of_output : ParseVersion "iptables v1.8.7 (legacy)" = Ret (mkVersion 1 8 7 "") ∧ 0 <= Compare (mkVersion 1 8 7 "") (mkVersion 1 6 2 "").
Proof. by vm_compute. Qed.
Example binary_falls_back : FindBestBinary (λ c, bool_decide (c = "ip6tables-save")) 6 "nft" "save" = Ret "ip6tables-save".
Proof. vm_compute. reflexivity. Qed.
