(* ===== verification/Config.v ===== *)
(** * The configuration ([pkg/config/config.go])

    [LoadConfig] of agent and controller: defaults, the environment, the file of the config map, and what is
    checked of them.  The decoders of the environment and of YAML, the levels of the log library, regular
    expressions and the Kubernetes configuration are other packages, and parameters here; so are the outputs of
    the commands that tell the version of iptables ([IptablesSystem.GetVersion]). *)

From S2P Require Import Prelude GoStd Allocator GoNet GoFmt IPUtil Pool Types IPAllocator MarkAllocator Tunnel TunnelTheorems IptablesSystem.
Open Scope Z_scope.

(** ** Data *)

Record EnvConfig := mkEnvConfig {
  NodeName : string; LeaderElection : bool; LeaderElectionNamespace : string; LeaderElectionID : string; LeaderElectionLostRestart : bool;
  MetricsBindAddress : string; HealthProbeBindAddress : string; GopsPort : Z; WebhookPort : Z; PyroscopeServerAddr : string;
  PodName : string; PodNamespace : string; GolangMaxProcs : Z; TLSCertDir : string; ConfigMapPath : string;
  UseDevMode : bool; Level : string; WithCaller : bool; Encoder : string
}.
Record VXLAN := mkVXLAN { vx_Name : string; vx_ID : Z; vx_Port : Z; vx_DisableChecksumOffload : bool }.
Record IPTables := mkIPTables {
  it_BackendMode : string; it_RefreshIntervalSecond : Z; it_PostWriteIntervalSecond : Z; it_LockTimeoutSecond : Z; it_LockProbeIntervalMillis : Z;
  it_InitialPostWriteIntervalSecond : Z; it_RestoreSupportsLock : bool; it_LockFilePath : string
}.
Record GatewayFailover := mkGatewayFailover { gf_Enable : bool; gf_TunnelMonitorPeriod : Z; gf_TunnelUpdatePeriod : Z; gf_EipEvictionTimeout : Z }.
Record CustomInterface := mkCustomInterface { ti_NodeSelector : labelSet; ti_InterfaceName : string }.
(** A regular expression is kept as its text. *)
Record FileConfig := mkFileConfig {
  fl_EnableIPv4 : bool; fl_EnableIPv6 : bool; fl_IPTables : IPTables; fl_DatapathMode : string; fl_TunnelIpv4Subnet : string; fl_TunnelIpv6Subnet : string;
  fl_TunnelIPv4Net : option IPNet; fl_TunnelIPv6Net : option IPNet; fl_TunnelDetectMethod : string; fl_VXLAN : VXLAN; fl_MaxNumberEndpointPerSlice : Z; fl_Mark : string;
  fl_AnnouncedInterfacesToExclude : list string; fl_AnnounceExcludeRegexp : option string; fl_EnableGatewayReplyRoute : bool; fl_GatewayReplyRouteTable : Z;
  fl_GatewayReplyRouteMark : Z; fl_GatewayFailover : GatewayFailover; fl_TunnelDetectCustomInterface : list CustomInterface; fl_CacheSyncSyncPeriodSecond : Z
}.
(** The environment, the file, and the level of the log that was worked out. *)
Record Config := mkConfig { c_Env : EnvConfig; c_File : FileConfig; c_LogLevel : Z }.

Definition set_nets (n4 n6 : option IPNet) (f : FileConfig) : FileConfig :=
  mkFileConfig (fl_EnableIPv4 f) (fl_EnableIPv6 f) (fl_IPTables f) (fl_DatapathMode f) (fl_TunnelIpv4Subnet f) (fl_TunnelIpv6Subnet f) n4 n6 (fl_TunnelDetectMethod f) (fl_VXLAN f)
    (fl_MaxNumberEndpointPerSlice f) (fl_Mark f) (fl_AnnouncedInterfacesToExclude f) (fl_AnnounceExcludeRegexp f) (fl_EnableGatewayReplyRoute f) (fl_GatewayReplyRouteTable f)
    (fl_GatewayReplyRouteMark f) (fl_GatewayFailover f) (fl_TunnelDetectCustomInterface f) (fl_CacheSyncSyncPeriodSecond f).
Definition set_IPTables (t : IPTables) (r : option string) (f : FileConfig) : FileConfig :=
  mkFileConfig (fl_EnableIPv4 f) (fl_EnableIPv6 f) t (fl_DatapathMode f) (fl_TunnelIpv4Subnet f) (fl_TunnelIpv6Subnet f) (fl_TunnelIPv4Net f) (fl_TunnelIPv6Net f) (fl_TunnelDetectMethod f) (fl_VXLAN f)
    (fl_MaxNumberEndpointPerSlice f) (fl_Mark f) (fl_AnnouncedInterfacesToExclude f) r (fl_EnableGatewayReplyRoute f) (fl_GatewayReplyRouteTable f)
    (fl_GatewayReplyRouteMark f) (fl_GatewayFailover f) (fl_TunnelDetectCustomInterface f) (fl_CacheSyncSyncPeriodSecond f).
Definition set_BackendMode (m : string) (t : IPTables) : IPTables :=
  mkIPTables m (it_RefreshIntervalSecond t) (it_PostWriteIntervalSecond t) (it_LockTimeoutSecond t) (it_LockProbeIntervalMillis t) (it_InitialPostWriteIntervalSecond t)
    (it_RestoreSupportsLock t) (it_LockFilePath t).

(** ** Loading *)

Definition defaultEnv : EnvConfig := mkEnvConfig "" true "" "egressgateway" false "0" ":8788" 0 8881 "" "" "" (-1) "/etc/tls" "" false "" false "".
Definition defaultFile (restoreSupportsLock : bool) : FileConfig :=
  mkFileConfig false false (mkIPTables "" 90 1 0 50 0 restoreSupportsLock "/run/xtables.lock") "" "" "" None None "" (mkVXLAN "" 0 0 false) 100 "0x26000000" [] None false 0 0
    (mkGatewayFailover true 5 5 15) [] 1800.

(** [strconv.ParseInt] with base 10 and 8 bits. *)
Definition ParseInt10_8 (s : string) : outcome Z := let! v := Atoi s in if decide (- 128 <= v < 128) then Ret v else Err ErrRange.
(** [strings.Join]. *)
Fixpoint Join (l : list string) (sep : string) : string :=
  match l with [] => "" | [x] => x | x :: l' => x +:+ sep +:+ Join l' sep end.

Section load.
Context (run : list string → outcome string) (output : list string → string) (unmarshalEnv : EnvConfig → outcome EnvConfig) (readFile : string → outcome string)
  (unmarshalYaml : string → FileConfig → outcome FileConfig) (ParseAtomicLevel : string → outcome Z) (compiles : string → bool) (kubeConfig : bool).

(** An enabled family needs a block; the network of the other one is left as it is. *)
Definition tunnelNet (enable : bool) (subnet : string) (old : option IPNet) (msg : string) : outcome (option IPNet) :=
  if enable then match ParseCIDR subnet with Some (_, ipn) => Ret (Some ipn) | None => Err (ErrNew msg) end else Ret old.
Definition loadFile (env : EnvConfig) (file : FileConfig) : outcome FileConfig :=
  if decide (ConfigMapPath env = "") then Ret file
  else
    let! bytes := match readFile (ConfigMapPath env) with Ret b => Ret b | _ => Err (ErrNew "failed to read ConfigMap file") end in
    let! file := match unmarshalYaml bytes file with Ret f => Ret f | _ => Err (ErrNew "failed to parse ConfigMap data") end in
    let! n4 := tunnelNet (fl_EnableIPv4 file) (fl_TunnelIpv4Subnet file) (fl_TunnelIPv4Net file) "failed to parse TunnelIpv4Subnet" in
    let! n6 := tunnelNet (fl_EnableIPv6 file) (fl_TunnelIpv6Subnet file) (fl_TunnelIPv6Net file) "failed to parse TunnelIpv6Subnet" in
    Ret (set_nets n4 n6 file).
(** A number is a level of verbosity, with either sign; other texts are names of levels. *)
Definition logLevel (text : string) : outcome Z :=
  match ParseInt10_8 text with Ret level => Ret (if decide (level > 0) then 0 - level else level) | _ => ParseAtomicLevel text end.
(** The sum is one of 64-bit integers. *)
Definition validFailover (g : GatewayFailover) : bool :=
  negb (gf_Enable g) || negb (bool_decide (gf_EipEvictionTimeout g < toInt64 (gf_TunnelUpdatePeriod g + gf_TunnelMonitorPeriod g))).

Definition LoadConfig (isAgent : bool) : outcome Config :=
  let! ver := if isAgent then GetVersion run output else Ret (mkVersion 0 0 0 "") in
  let restoreSupportsLock := isAgent && bool_decide (0 <= Compare ver (mkVersion 1 6 2 "")) in
  let! env := unmarshalEnv defaultEnv in
  let! file := loadFile env (defaultFile restoreSupportsLock) in
  let tables := if decide (it_BackendMode (fl_IPTables file) = "auto") then set_BackendMode (BackendMode ver) (fl_IPTables file) else fl_IPTables file in
  let! level := logLevel (Level env) in
  let list := fl_AnnouncedInterfacesToExclude file in
  let! reg := match list with
    | [] => Ret (fl_AnnounceExcludeRegexp file)
    | _ => let text := "(" +:+ Join list ")|(" +:+ ")" in if compiles text then Ret (Some text) else Err (ErrNew "error parsing regexp")
    end in
  let file := set_IPTables tables reg file in
  if negb kubeConfig then Err (ErrNew "failed to load kubeconfig")
  else if negb (validFailover (fl_GatewayFailover file)) then Err (ErrNew "eipEvictionTimeout should be greater than the sum of tunnelUpdatePeriod and tunnelMonitorPeriod")
  else Ret (mkConfig env file level).
End load.

(** ** What a loaded configuration is like *)

(** Kubernetes left one of its chains in what one of the commands printed. *)
Definition kubeIn (output : list string → string) (cmds : list string) : Prop :=
  ∃ cmd chain, cmd ∈ cmds ∧ chain ∈ ["KUBE-IPTABLES"; "KUBE-KUBELET"] ∧ Contains (output [cmd]) chain = true.
Definition lines (output : list string → string) (cmds : list string) : nat := sum_list_with (λ cmd, countLines (output [cmd])) cmds.
Definition nftSaves : list string := ["iptables-nft-save"; "ip6tables-nft-save"].
Definition legacySaves : list string := ["iptables-legacy-save"; "ip6tables-legacy-save"].
(** The host uses nft: Kubernetes does, or it uses neither and there are more rules of nft. *)
Definition prefersNft (output : list string → string) : Prop :=
  kubeIn output nftSaves ∨ ¬ kubeIn output legacySaves ∧ (lines output legacySaves < lines output nftSaves)%nat.

Lemma kubeIn_two output c1 c2 : kubeIn output [c1; c2] ↔
  Contains (output [c1]) "KUBE-IPTABLES" || Contains (output [c2]) "KUBE-IPTABLES" || Contains (output [c1]) "KUBE-KUBELET" || Contains (output [c2]) "KUBE-KUBELET" = true.
Proof.
  rewrite !orb_true_iff. unfold kubeIn. split.
  - intros (cmd & chain & Hc & Hn & Hin). apply elem_of_cons in Hc as [->|Hc%list_elem_of_singleton]; [|subst cmd];
      (apply elem_of_cons in Hn as [->|Hn%list_elem_of_singleton]; [|subst chain]); auto.
  - intros [[[H|H]|H]|H]; repeat eexists; try exact H; set_solver.
Qed.
Lemma GetVersion_mode run output v : GetVersion run output = Ret v →
  BackendMode v = "nft" ∧ prefersNft output ∨ BackendMode v = "legacy" ∧ ¬ prefersNft output.
Proof.
  unfold GetVersion. destruct (run _); [|done..]. intros Hv. inv_ret. simpl.
  pose proof (kubeIn_two output "iptables-nft-save" "ip6tables-nft-save") as Hn. pose proof (kubeIn_two output "iptables-legacy-save" "ip6tables-legacy-save") as Hl.
  unfold prefersNft, lines, nftSaves, legacySaves. simpl. rewrite Hn, Hl, !Nat.add_0_r.
  repeat match goal with |- context [if ?b then _ else _] => let E := fresh "E" in destruct b eqn:E end; rewrite ?Nat.ltb_lt, ?Nat.ltb_ge in *; naive_solver lia.
Qed.

(** What the tunnel controller is given. *)
Definition tunnelPart (f : FileConfig) : Tunnel.FileConfig :=
  Tunnel.mkFileConfig (fl_Mark f) (fl_EnableIPv4 f) (fl_TunnelIpv4Subnet f) (fl_EnableIPv6 f) (fl_TunnelIpv6Subnet f).
Definition failoverPart (f : FileConfig) : TunnelConfig :=
  mkTunnelConfig (gf_Enable (fl_GatewayFailover f)) (gf_EipEvictionTimeout (fl_GatewayFailover f)).

(** The network of an enabled family holds every address that an allocator hands out which the controller makes
    from the same settings, after any calls. *)
Definition netFits `{Rand} (enable : bool) (subnet : string) (net : option IPNet) : Prop :=
  enable = true → subnet_ok subnet → ∃ n a, net = Some n ∧ newAllocator enable subnet = Ret (Some a) ∧
    ∀ ops k a', Forall op_ok ops → IPAllocateNext (poolRun ops a) = Ret (k, a') → NetContains n k = true.

Lemma tunnelNet_fits `{Rand} enable subnet old msg n : tunnelNet enable subnet old msg = Ret n → netFits enable subnet n.
Proof.
  unfold tunnelNet, netFits, newAllocator. intros Hn -> Hs. destruct (ParseCIDR subnet) as [[ip net]|] eqn:E; [|done]. injection Hn as <-.
  exists net, (NewCIDRRange net). split_and!; [done|done|]. intros ops k a' Hops Hk. destruct (Hs ip net E) as [Hp Hw].
  destruct (poolRun_block subnet ip net ops E Hp Hw Hops) as (Hwf & Hu & Hc). destruct (IPAllocateNext_inside _ k a' Hwf Hk) as (Hv & Hi & _).
  by apply Hc, Hu.
Qed.

(** What is decoded from the file of the config map, over the defaults. *)
Definition decoded (readFile : string → outcome string) (unmarshalYaml : string → FileConfig → outcome FileConfig) (env : EnvConfig) (lock : bool) (f : FileConfig) : Prop :=
  ∃ bytes, readFile (ConfigMapPath env) = Ret bytes ∧ unmarshalYaml bytes (defaultFile lock) = Ret f.

Section loaded.
Context `{Rand} (run : list string → outcome string) (output : list string → string) (unmarshalEnv : EnvConfig → outcome EnvConfig) (readFile : string → outcome string)
  (unmarshalYaml : string → FileConfig → outcome FileConfig) (ParseAtomicLevel : string → outcome Z) (compiles : string → bool) (kubeConfig : bool).
Abbreviation load := (LoadConfig run output unmarshalEnv readFile unmarshalYaml ParseAtomicLevel compiles kubeConfig).

Lemma loadFile_decoded env lock file' : loadFile readFile unmarshalYaml env (defaultFile lock) = Ret file' → ConfigMapPath env ≠ "" →
  netFits (fl_EnableIPv4 file') (fl_TunnelIpv4Subnet file') (fl_TunnelIPv4Net file') ∧ netFits (fl_EnableIPv6 file') (fl_TunnelIpv6Subnet file') (fl_TunnelIPv6Net file') ∧
  ∃ f, decoded readFile unmarshalYaml env lock f ∧ fl_IPTables file' = fl_IPTables f.
Proof using.
  unfold loadFile, decoded. intros Hl Hp. rewrite decide_False in Hl by done. destruct (readFile _) as [bytes|e|p|]; try done. simpl in Hl.
  destruct (unmarshalYaml bytes _) as [f|e|p|] eqn:Ey; try done. inv_ret. simplify_eq. split_and!; [by eapply tunnelNet_fits..|]. eauto.
Qed.

(** What [LoadConfig] went through. *)
Lemma load_inv isAgent cfg : load isAgent = Ret cfg → ∃ ver file, (if isAgent then GetVersion run output else Ret (mkVersion 0 0 0 "")) = Ret ver ∧
  loadFile readFile unmarshalYaml (c_Env cfg) (defaultFile (isAgent && bool_decide (0 <= Compare ver (mkVersion 1 6 2 "")))) = Ret file ∧
  validFailover (fl_GatewayFailover (c_File cfg)) = true ∧
  fl_IPTables (c_File cfg) = (if decide (it_BackendMode (fl_IPTables file) = "auto") then set_BackendMode (BackendMode ver) (fl_IPTables file) else fl_IPTables file) ∧
  (∃ r, c_File cfg = set_IPTables (fl_IPTables (c_File cfg)) r file).
Proof using.
  intros Hl. unfold LoadConfig in Hl. destruct (if isAgent then _ else _) as [ver| | |] eqn:Ever; try done. simpl in Hl.
  destruct (unmarshalEnv defaultEnv) as [env| | |]; try done. simpl in Hl. destruct (loadFile _ _ env _) as [file| | |] eqn:Ef; try done. simpl in Hl.
  destruct (logLevel _ _) as [level| | |]; try done. simpl in Hl. destruct (match fl_AnnouncedInterfacesToExclude file with [] => _ | _ => _ end) as [reg| | |]; try done. simpl in Hl.
  destruct kubeConfig; [|done]. simpl in Hl. destruct (validFailover _) eqn:Ev; [|done]. injection Hl as <-. exists ver, file. simpl. split_and!; eauto.
Qed.

(** C24. A configuration that was loaded is fit for the components.  With failover and a timeout and periods
    that are no negative numbers and within the range of a duration, a tunnel whose agent wrote a heartbeat no
    longer than an update period and a check period ago is not taken for dead by the health check.  With a
    config map, the network of every enabled family holds every address that the tunnel controller can allocate
    from the same subnet; and an agent uses the iptables backend that the file names or, when that is auto, nft
    exactly when Kubernetes uses nft, or uses neither backend and nft has more lines. *)
Theorem loaded_config_fits isAgent cfg : load isAgent = Ret cfg →
  (let g := fl_GatewayFailover (c_File cfg) in
   gf_Enable g = true → 0 <= gf_TunnelUpdatePeriod g → 0 <= gf_TunnelMonitorPeriod g → gf_TunnelUpdatePeriod g + gf_TunnelMonitorPeriod g < 2 ^ 63 →
   1000000000 * gf_EipEvictionTimeout g < 2 ^ 63 →
   ∀ now t, now - ts_LastHeartbeatTime (t_Status t) <= 1000000000 * (gf_TunnelUpdatePeriod g + gf_TunnelMonitorPeriod g) →
   checkedStatus (failoverPart (c_File cfg)) now t = t_Status t) ∧
  (ConfigMapPath (c_Env cfg) ≠ "" →
    netFits (fl_EnableIPv4 (c_File cfg)) (fl_TunnelIpv4Subnet (c_File cfg)) (fl_TunnelIPv4Net (c_File cfg)) ∧
    netFits (fl_EnableIPv6 (c_File cfg)) (fl_TunnelIpv6Subnet (c_File cfg)) (fl_TunnelIPv6Net (c_File cfg)) ∧
    (isAgent = true → ∃ lock f, decoded readFile unmarshalYaml (c_Env cfg) lock f ∧
      let mode := it_BackendMode (fl_IPTables (c_File cfg)) in
      (it_BackendMode (fl_IPTables f) ≠ "auto" → mode = it_BackendMode (fl_IPTables f)) ∧
      (it_BackendMode (fl_IPTables f) = "auto" → mode = "nft" ∧ prefersNft output ∨ mode = "legacy" ∧ ¬ prefersNft output))).
Proof using.
  intros (ver & file & Ever & Ef & Ev & Et & r & Hf)%load_inv. split.
  - intros g He Hu Hm Hsum Htop now t Ht. unfold checkedStatus. destruct (decide (late _ now t)) as [Hlate|]; [|done]. exfalso.
    unfold late, failoverPart, timeSeconds in Hlate. simpl in Hlate. fold g in Hlate, Ev. unfold validFailover in Ev. rewrite He in Ev. simpl in Ev.
    rewrite negb_true_iff, bool_decide_eq_false, (toInt64_small (_ + _)) in Ev by lia. rewrite toInt64_small in Hlate by lia. lia.
  - intros Hp. destruct (loadFile_decoded _ _ file Ef Hp) as (H4 & H6 & f & Hd & Hi). rewrite Hf at 1 2 3 4 5 6. simpl. split; [done|split; [done|]].
    intros ->. simpl in Ever, Ef. exists (bool_decide (0 <= Compare ver (mkVersion 1 6 2 ""))), f. split; [done|]. rewrite Et, Hi.
    split; intros Ha; [by rewrite decide_False|]. rewrite decide_True by done. simpl. by apply (GetVersion_mode run).
Qed.
End loaded.

(** ** A configuration *)

Definition yaml1 (f : FileConfig) : FileConfig :=
  mkFileConfig true false (set_BackendMode "auto" (fl_IPTables f)) "" "172.31.0.0/16" "" None None "" (mkVXLAN "egress.vxlan" 100 7789 false) (fl_MaxNumberEndpointPerSlice f) (fl_Mark f)
    ["cali.*"; "br-*"] None false 0 0 (fl_GatewayFailover f) [] 1800.
Definition env1 (e : EnvConfig) : EnvConfig :=
  mkEnvConfig "node1" (LeaderElection e) "" (LeaderElectionID e) false (MetricsBindAddress e) (HealthProbeBindAddress e) 0 8881 "" "" "" (-1) "/etc/tls" "/tmp/config.yaml" false "3" false "".
Definition saves1 (c : list string) : string := if decide (c = ["ip6tables-nft-save"]) then ":KUBE-KUBELET-CANARY - [0:0]" else "".
Definition config1 : outcome Config :=
  LoadConfig (λ _, Ret "iptables v1.8.4 (nf_tables)") saves1 (λ e, Ret (env1 e)) (λ _, Ret "")
    (λ _ f, Ret (yaml1 f)) (λ _, Err ErrSyntax) (λ _, true) true true.
Definition theConfig : Config := match config1 with Ret c => c | _ => mkConfig defaultEnv (defaultFile false) 0 end.
Example config_of_agent : it_BackendMode (fl_IPTables (c_File theConfig)) = "nft" ∧ it_RestoreSupportsLock (fl_IPTables (c_File theConfig)) = true ∧
  fl_AnnounceExcludeRegexp (c_File theConfig) = Some "(cali.*)|(br-*)" ∧ c_LogLevel theConfig = -3.
Proof. by vm_compute. Qed.
Lemma loaded_config_fits_witness :
  (∃ n, fl_TunnelIPv4Net (c_File theConfig) = Some n ∧ net_IP n = [172; 31; 0; 0]) ∧ prefersNft saves1 ∧
  ∀ now t, now - ts_LastHeartbeatTime (t_Status t) <= 10000000000 → checkedStatus (mkTunnelConfig true 15) now t = t_Status t.
Proof.
  destruct (@loaded_config_fits rand_zero (λ _, Ret "iptables v1.8.4 (nf_tables)") saves1 (λ e, Ret (env1 e)) (λ _, Ret "")
    (λ _ f, Ret (yaml1 f)) (λ _, Err ErrSyntax) (λ _, true) true true theConfig) as (H1 & H2).
  - vm_compute. reflexivity.
  - destruct (H2 ltac:(by vm_compute)) as (H4 & _ & H3). split_and!.
    + destruct (H4 ltac:(by vm_compute)) as (n & a & Hn & _); [by intros ip net E; vm_compute in E; injection E as <- <-|].
      exists n. split; [exact Hn|]. vm_compute in Hn. by injection Hn as <-.
    + destruct (H3 eq_refl) as (lock & f & (bytes & _ & Hf) & _ & Ha). injection Hf as <-.
      destruct (Ha eq_refl) as [[_ Hn]|[Hm _]]; [exact Hn|by vm_compute in Hm].
    + exact (H1 eq_refl ltac:(by vm_compute) ltac:(by vm_compute) ltac:(by vm_compute) ltac:(by vm_compute)).
Defined.

(** Periods whose sum is over the range of an [int] pass the check. *)
Example periods_wrap_around : validFailover (mkGatewayFailover true (2 ^ 62) (2 ^ 62) 15) = true.
Proof. by vm_compute. Qed.

(** Without a config map nothing is parsed: an agent has no networks, and an enabled family none either. *)
Example no_config_map : match LoadConfig (λ _, Ret "iptables v1.4.0") (λ _, "") (λ e, Ret e) (λ _, Ret "") (λ _ f, Ret f) (λ _, Ret 0) (λ _, true) true true with
  | Ret c => it_RestoreSupportsLock (fl_IPTables (c_File c)) = false ∧ it_LockTimeoutSecond (fl_IPTables (c_File c)) = 0 | _ => False end.
Proof. by vm_compute. Qed.
