(* ===== verification/Clean.v ===== *)
(** * The clean-up before an uninstall ([cmd/controller/cmd/clean.go])

    [controller clean] deletes the two webhook configurations, so that nothing is refused any more, and then the
    tunnels, policies and gateways, from which it takes the finalizers first. *)

From S2P Require Import Prelude GoStd GoNet IPUtil Types ApiServer Triple.
Open Scope nat_scope.

(** ** The model *)

Inductive objKind := KTunnel | KPolicy | KClusterPolicy | KGateway.
#[export] Instance objKind_eq_dec : EqDecision objKind.
Proof. solve_decision. Defined.
Inductive hookKind := HValidating | HMutating.
#[export] Instance hookKind_eq_dec : EqDecision hookKind.
Proof. solve_decision. Defined.

(** The client; of the objects their metadata matter. *)
Class CleanApi (W : Type) := {
  caGetHook : hookKind → string → M W unit;
  caDeleteHook : hookKind → string → M W unit;
  caList : objKind → M W (list ObjectMeta);
  (** [Update] returns the object as it is stored. *)
  caUpdate : objKind → ObjectMeta → M W ObjectMeta;
  caDelete : objKind → ObjectMeta → M W unit
}.

Definition noFinalizers (m : ObjectMeta) : ObjectMeta := mkMeta (om_Name m) (om_Namespace m) (om_Labels m) [] (om_Deleting m) (om_ResourceVersion m).

Section clean.
Context {W : Type} `{CA : !CleanApi W}.

Definition cleanHook (k : hookKind) (name : string) : M W unit :=
  let* r := attempt (caGetHook k name) in
  match r with inl _ => caDeleteHook k name | inr _ => mret tt end.
(** The objects of a kind; [strip] says which lose their finalizers first.  An error of [List] is passed over. *)
Definition cleanObjects (k : objKind) (strip : ObjectMeta → bool) : M W unit :=
  let* r := attempt (caList k) in
  match r with
  | inr _ => mret tt
  | inl items =>
      mforeach (λ item _,
        let* item := (if strip item then caUpdate k (noFinalizers item) else mret item) in
        caDelete k item) items tt
  end.
Definition clean (validate mutating : string) : M W unit :=
  let* _ := cleanHook HValidating validate in
  let* _ := cleanHook HMutating mutating in
  let* _ := cleanObjects KTunnel (λ _, true) in
  let* _ := cleanObjects KPolicy (λ _, false) in
  let* _ := cleanObjects KClusterPolicy (λ _, false) in
  cleanObjects KGateway (λ m, negb (bool_decide (om_Finalizers m = []))).
End clean.

(** ** What the API server does *)

Definition objKey (m : ObjectMeta) : NamespacedName := mkNN (om_Namespace m) (om_Name m).
Abbreviation objects := (gmap NamespacedName ObjectMeta).
(** An object that is being deleted goes with its last finalizer; an object without finalizers goes at once. *)
Definition putMeta (m : ObjectMeta) (o : objects) : objects :=
  if decide (om_Deleting m = true ∧ om_Finalizers m = []) then delete (objKey m) o else <[objKey m := m]> o.
Definition markDeleting (m : ObjectMeta) : ObjectMeta := mkMeta (om_Name m) (om_Namespace m) (om_Labels m) (om_Finalizers m) true (om_ResourceVersion m).

Class CleanLaws {W : Type} `{CA : CleanApi W} (objs : objKind → W → objects) := {
  cl_keys k w key m : objs k w !! key = Some m → objKey m = key;
  cl_hooks h n w k : objs k (caGetHook h n w).1 = objs k w ∧ objs k (caDeleteHook h n w).1 = objs k w;
  cl_List k w k' : objs k' (caList k w).1 = objs k' w;
  cl_listed k w l : (caList k w).2 = Ret l → l ≡ₚ (map_to_list (objs k w)).*2;
  (** The stored object has a new version. *)
  cl_Update k m w k' : match (caUpdate k m w).2 with
    | Ret m' => om_Finalizers m' = om_Finalizers m ∧ objKey m' = objKey m ∧ objs k' (caUpdate k m w).1 = if decide (k' = k) then putMeta m' (objs k w) else objs k' w
    | _ => objs k' (caUpdate k m w).1 = objs k' w
    end;
  cl_Delete k m w k' : match (caDelete k m w).2 with
    | Ret _ => ∃ old, objs k w !! objKey m = Some old ∧ objs k' (caDelete k m w).1 = if decide (k' = k) then putMeta (markDeleting old) (objs k w) else objs k' w
    | _ => objs k' (caDelete k m w).1 = objs k' w
    end
}.

(** ** What is left *)

Section left.
Context {W : Type} `{CA : !CleanApi W} (objs : objKind → W → objects) `{CL : !CleanLaws objs}.

(** Objects of other kinds stay as they are. *)
Definition others (k : objKind) (w0 w : W) : Prop := ∀ k', k' ≠ k → objs k' w = objs k' w0.
(** Of the objects listed, those that are done are gone, or, if they kept their finalizers, marked. *)
Definition partlyClean (k : objKind) (strip : ObjectMeta → bool) (items done : list ObjectMeta) (w : W) : Prop :=
  ∀ key m, objs k w !! key = Some m → (m ∈ items ∧ key ∉ objKey <$> done) ∨ (om_Deleting m = true ∧ ∃ i, i ∈ items ∧ objKey i = key ∧ strip i = false ∧ om_Finalizers i ≠ []).

Lemma same_key (items : list ObjectMeta) i j : NoDup (objKey <$> items) → i ∈ items → j ∈ items → objKey i = objKey j → i = j.
Proof using.
  intros Hnd [a Ha]%list_elem_of_lookup [b Hb]%list_elem_of_lookup Hk. assert (a = b) as ->; [|congruence].
  apply (NoDup_lookup (objKey <$> items) a b (objKey i) Hnd); rewrite list_lookup_fmap, ?Ha, ?Hb; simpl; congruence.
Qed.
(** The object of [x] is taken out, or is marked. *)
Lemma partlyClean_step k strip items done x w w' : NoDup (objKey <$> items) → x ∈ items → partlyClean k strip items done w →
  (objs k w' = delete (objKey x) (objs k w) ∨ strip x = false ∧ ∃ old, objs k w !! objKey x = Some old ∧ objs k w' = putMeta (markDeleting old) (objs k w)) →
  partlyClean k strip items (done ++ [x]) w'.
Proof using CL.
  intros Hnd Hx HI Hw' key m Hm. assert (key ≠ objKey x → objs k w !! key = Some m → (m ∈ items ∧ key ∉ objKey <$> done ++ [x]) ∨
    (om_Deleting m = true ∧ ∃ i, i ∈ items ∧ objKey i = key ∧ strip i = false ∧ om_Finalizers i ≠ [])) as Hother.
  { intros Hne Hm'. destruct (HI key m Hm') as [[Hin Hnot]|Hmk]; [left|by right]. split; [done|]. rewrite fmap_app. set_solver. }
  destruct Hw' as [Hw'|(Hs & old & Hold & Hw')]; rewrite Hw' in Hm.
  - apply lookup_delete_Some in Hm as [Hne Hm]. apply Hother; [congruence|done].
  - pose proof (cl_keys (objs := objs) k w _ _ Hold) as Hkey. unfold putMeta in Hm. change (objKey (markDeleting old)) with (objKey old) in Hm. rewrite Hkey in Hm. case_decide as Hf.
    + apply lookup_delete_Some in Hm as [Hne Hm]. apply Hother; [congruence|done].
    + apply lookup_insert_Some in Hm as [[<- <-]|[Hne Hm]]; [right|by apply Hother]. split; [done|]. exists x. split_and!; [done|done|done|].
      destruct (HI _ _ Hold) as [[Hin _]|(_ & i & Hi & Hik & _ & Hfin)].
      * rewrite <- (same_key items old x Hnd Hin Hx Hkey). intros He. apply Hf. by split.
      * by rewrite (same_key items i x Hnd Hi Hx Hik) in Hfin.
Qed.
Lemma tri_cleanItem k strip items done x rest w0 : NoDup (objKey <$> items) → items = done ++ x :: rest →
  tri (λ w, partlyClean k strip items done w ∧ others k w0 w) (let* item := (if strip x then caUpdate k (noFinalizers x) else mret x) in caDelete k item)
    (λ _ w, partlyClean k strip items (done ++ [x]) w ∧ others k w0 w) (λ _, True).
Proof using CL.
  intros Hnd Hl w [HI Ho]. assert (x ∈ items) as Hx by (rewrite Hl; set_solver). unfold mbind_, mret. destruct (strip x) eqn:Es.
  - pose proof (cl_Update (objs := objs) k (noFinalizers x) w) as Hu. destruct (caUpdate k (noFinalizers x) w) as [w1 [m|e|p|]]; simpl in *; try done.
    pose proof (cl_Delete (objs := objs) k m w1) as Hd. destruct (caDelete k m w1) as [w2 [?|e|p|]]; simpl in *; try done.
    destruct (Hu k) as (Hf & Hk & Hu1). rewrite decide_True in Hu1 by done. destruct (Hd k) as (old & Hold & Hd1). rewrite decide_True in Hd1 by done.
    change (objKey (noFinalizers x)) with (objKey x) in Hk. split.
    + eapply (partlyClean_step k strip items done x w); [done..|left]. rewrite Hd1, Hu1 in *. unfold putMeta in Hold |- *. rewrite Hk in *.
      case_decide; [by rewrite lookup_delete_eq in Hold|]. rewrite lookup_insert_eq in Hold. injection Hold as <-. change (objKey (markDeleting m)) with (objKey m). rewrite Hk.
      rewrite decide_True by done. by rewrite delete_insert_eq.
    + intros k' Hne. destruct (Hd k') as (old' & _ & ->), (Hu k') as (_ & _ & ->). rewrite !decide_False by done. by apply Ho.
  - pose proof (cl_Delete (objs := objs) k x w) as Hd. destruct (caDelete k x w) as [w2 [?|e|p|]]; simpl in *; try done. split.
    + eapply (partlyClean_step k strip items done x w); [done..|right]. split; [done|]. destruct (Hd k) as (old & Hold & Hd1). rewrite decide_True in Hd1 by done. by exists old.
    + intros k' Hne. destruct (Hd k') as (old' & _ & ->). rewrite decide_False by done. by apply Ho.
Qed.

(** What a kind of objects is after its turn. *)
Definition cleaned (k : objKind) (strip : ObjectMeta → bool) (w0 w : W) : Prop :=
  ∀ key m, objs k w !! key = Some m → om_Deleting m = true ∧ ∃ i, objs k w0 !! key = Some i ∧ strip i = false ∧ om_Finalizers i ≠ [].
Lemma tri_cleanObjects k strip w0 : (∀ w e, (caList k w).2 ≠ Err e) →
  tri (λ w, w = w0) (cleanObjects k strip) (λ _ w, cleaned k strip w0 w ∧ others k w0 w) (λ _, True).
Proof using CL.
  intros Hlist. eapply (tri_bind _ _ _ (λ r w, ∃ items, r = inl items ∧ (∀ k', objs k' w = objs k' w0) ∧ items ≡ₚ (map_to_list (objs k w0)).*2)).
  { intros w ->. unfold attempt. pose proof (cl_List (objs := objs) k w0) as Hq. pose proof (cl_listed (objs := objs) k w0) as Hl. specialize (Hlist w0).
    destruct (caList k w0) as [w1 [items|e|p|]]; simpl in *; try done; [|by destruct (Hlist e)]. exists items. split_and!; [done|done|by apply Hl]. }
  intros r. apply tri_here. intros w1 (items & -> & Hq & Hl).
  assert (∀ m, m ∈ items ↔ objs k w0 !! objKey m = Some m) as Hin.
  { intros m. rewrite Hl, list_elem_of_fmap. split.
    - intros ([key m'] & -> & Hm%elem_of_map_to_list). simpl. by rewrite (cl_keys (objs := objs) _ _ _ _ Hm).
    - intros Hm. exists (objKey m, m). split; [done|]. by apply elem_of_map_to_list. }
  assert (NoDup (objKey <$> items)) as Hnd.
  { rewrite Hl, <- list_fmap_compose. rewrite (list_fmap_ext _ fst); [apply NoDup_fst_map_to_list|]. intros i [key m] Hi. simpl.
    apply list_elem_of_lookup_2, elem_of_map_to_list in Hi. by apply (cl_keys (objs := objs) k w0). }
  set (I := λ (done : list ObjectMeta) (_ : unit) w, partlyClean k strip items done w ∧ others k w1 w).
  apply (tri_pre _ (I [] tt)); [|apply (tri_post _ _ (I items) _ (λ _, True)); [apply (tri_foreach_pos I)| |]].
  - intros w ->. split; [|by intros k' _]. intros key m Hm. left. rewrite Hq in Hm. split; [|set_solver]. apply Hin. by rewrite (cl_keys (objs := objs) _ _ _ _ Hm).
  - intros done x rest ? Heq. by eapply tri_cleanItem.
  - intros ? w2 [Hp Ho]. split; [|intros k' Hne; rewrite Ho by done; apply Hq]. intros key m Hm. destruct (Hp key m Hm) as [[Hmi Hnot]|(Hd & i & Hi & <- & Hs & Hf)].
    + destruct Hnot. apply list_elem_of_fmap. exists m. split; [|done]. symmetry. by apply (cl_keys (objs := objs) k w2).
    + split; [done|]. exists i. split_and!; [by apply Hin|done|done].
  - done.
Qed.

Lemma cleanHook_objs h n w k : objs k (cleanHook h n w).1 = objs k w.
Proof using CL.
  unfold cleanHook, attempt, mbind_. destruct (cl_hooks (objs := objs) h n w k) as [H1 _]. destruct (caGetHook h n w) as [w1 [?|?|?|]]; simpl in *; try done.
  destruct (cl_hooks (objs := objs) h n w1 k) as [_ H2]. congruence.
Qed.

(** A clean-up that ends without an error, when no listing fails, leaves no tunnel and no gateway; a policy that is left has
    finalizers of others, and is being deleted. *)
Theorem clean_leaves_nothing validate mutating w w' : (∀ k w e, (caList k w).2 ≠ Err e) → clean validate mutating w = (w', Ret tt) →
  objs KTunnel w' = ∅ ∧ objs KGateway w' = ∅ ∧
  ∀ k key m, objs k w' !! key = Some m → om_Deleting m = true ∧ ∃ i, objs k w !! key = Some i ∧ om_Finalizers i ≠ [].
Proof using CL.
  intros Hlist Hrun.
  assert (tri (λ w1, ∀ k, objs k w1 = objs k w) (let* _ := cleanObjects KTunnel (λ _, true) in let* _ := cleanObjects KPolicy (λ _, false) in
      let* _ := cleanObjects KClusterPolicy (λ _, false) in cleanObjects KGateway (λ m, negb (bool_decide (om_Finalizers m = []))))
    (λ _ w', (∀ m key, objs KTunnel w' !! key ≠ Some m) ∧ (∀ m key, objs KGateway w' !! key ≠ Some m) ∧
      ∀ k key m, objs k w' !! key = Some m → om_Deleting m = true ∧ ∃ i, objs k w !! key = Some i ∧ om_Finalizers i ≠ []) (λ _, True)) as Ht.
  { apply tri_here. intros w1 H1. eapply tri_bind; [apply tri_cleanObjects, Hlist|]. intros ?. apply tri_here. intros w2 [C2 O2].
    eapply tri_bind; [apply tri_cleanObjects, Hlist|]. intros ?. apply tri_here. intros w3 [C3 O3].
    eapply tri_bind; [apply tri_cleanObjects, Hlist|]. intros ?. apply tri_here. intros w4 [C4 O4].
    eapply tri_post; [apply tri_cleanObjects, Hlist| |done]. intros ? w5 [C5 O5].
    assert (objs KTunnel w5 = objs KTunnel w2) as E2 by (rewrite O5, O4, O3 by done; done). assert (objs KPolicy w5 = objs KPolicy w3) as E3 by (rewrite O5, O4 by done; done).
    assert (objs KClusterPolicy w5 = objs KClusterPolicy w4) as E4 by (rewrite O5 by done; done).
    assert (objs KPolicy w2 = objs KPolicy w) as F2 by (rewrite O2 by done; apply H1). assert (objs KClusterPolicy w3 = objs KClusterPolicy w) as F3 by (rewrite O3, O2 by done; apply H1).
    assert (∀ m key, objs KTunnel w5 !! key ≠ Some m) as Htun by (intros m key Hm; rewrite E2 in Hm; by destruct (C2 key m Hm) as (_ & i & _ & ? & _)).
    assert (∀ m key, objs KGateway w5 !! key ≠ Some m) as Hgw by (intros m key Hm; destruct (C5 key m Hm) as (_ & i & _ & Hs & Hf); by rewrite bool_decide_false in Hs).
    split_and!; [done|done|]. intros [] key m Hm; [by destruct (Htun m key)| | |by destruct (Hgw m key)].
    - rewrite E3 in Hm. destruct (C3 key m Hm) as (Hd & i & Hi & _ & Hf). rewrite F2 in Hi. eauto.
    - rewrite E4 in Hm. destruct (C4 key m Hm) as (Hd & i & Hi & _ & Hf). rewrite F3 in Hi. eauto. }
  unfold clean in Hrun. unfold mbind_ at 1 in Hrun. pose proof (cleanHook_objs HValidating validate w) as V. destruct (cleanHook HValidating validate w) as [w1 [?|?|?|]]; simpl in *; try done.
  unfold mbind_ at 1 in Hrun. pose proof (cleanHook_objs HMutating mutating w1) as U. destruct (cleanHook HMutating mutating w1) as [w2 [?|?|?|]]; simpl in *; try done.
  specialize (Ht w2 ltac:(intros k; by rewrite U, V)). rewrite Hrun in Ht. destruct Ht as (T & G & R). split_and!; [apply map_eq; intros key; destruct (objs KTunnel w' !! key) eqn:E|apply map_eq; intros key; destruct (objs KGateway w' !! key) eqn:E|done].
  - by destruct (T o key).
  - by rewrite lookup_empty.
  - by destruct (G o key).
  - by rewrite lookup_empty.
Qed.
End left.

(** ** A cluster *)

Record cleanWorld := mkCleanWorld { cw_objs : objKind → objects }.
Definition set_objs (k : objKind) (f : objects → objects) (w : cleanWorld) : cleanWorld := mkCleanWorld (λ k', if decide (k' = k) then f (cw_objs w k) else cw_objs w k').
Definition goodKeys (o : objects) : objects := filter (λ x : NamespacedName * ObjectMeta, objKey x.2 = x.1) o.
Definition cw_view (k : objKind) (w : cleanWorld) : objects := goodKeys (cw_objs w k).
#[export] Instance cleanApi : CleanApi cleanWorld := {
  caGetHook h n := mret tt;
  caDeleteHook h n := mret tt;
  caList k := λ w, (w, Ret (map_to_list (cw_view k w)).*2);
  caUpdate k m := λ w, match cw_view k w !! objKey m with
    | None => (w, Err (ErrApi NotFound))
    | Some old => let m' := mkMeta (om_Name m) (om_Namespace m) (om_Labels m) (om_Finalizers m) (om_Deleting old) (S (om_ResourceVersion old)) in (set_objs k (putMeta m') w, Ret m')
    end;
  caDelete k m := λ w, match cw_view k w !! objKey m with
    | None => (w, Err (ErrApi NotFound))
    | Some old => (set_objs k (putMeta (markDeleting old)) w, Ret tt)
    end
}.
Lemma goodKeys_put m o : goodKeys (putMeta m o) = putMeta m (goodKeys o).
Proof.
  unfold goodKeys, putMeta. case_decide; [apply map_filter_delete|]. by rewrite map_filter_insert_True.
Qed.
Lemma view_set k f w k' : (∀ o, goodKeys (f o) = f (goodKeys o)) → cw_view k' (set_objs k f w) = if decide (k' = k) then f (cw_view k w) else cw_view k' w.
Proof. intros Hf. unfold cw_view, set_objs. simpl. case_decide; [by rewrite Hf|done]. Qed.
#[export] Instance cleanLaws : CleanLaws cw_view.
Proof.
  split; try done.
  - intros k w key m. unfold cw_view, goodKeys. by intros [_ ?]%map_lookup_filter_Some.
  - intros k w l [= <-]. done.
  - intros k m w k'. simpl. destruct (cw_view k w !! objKey m) as [old|]; [|done]. simpl. split_and!; [done|done|]. apply view_set, goodKeys_put.
  - intros k m w k'. simpl. destruct (cw_view k w !! objKey m) as [old|] eqn:E; [|done]. simpl. exists old. split; [done|]. apply view_set. intros o. apply goodKeys_put.
Qed.

Definition meta1 (n : string) (fin : list string) (deleting : bool) : ObjectMeta := mkMeta n "" ∅ fin deleting 1.
Definition cluster1 (deleting : bool) : cleanWorld := mkCleanWorld (λ k,
  match k with
  | KTunnel => {[ mkNN "" "node1" := meta1 "node1" ["egressgateway.spidernet.io/egresstunnel"] deleting ]}
  | KPolicy => {[ mkNN "" "p" := meta1 "p" [] false; mkNN "" "q" := meta1 "q" ["other"] false ]}
  | KClusterPolicy => ∅
  | KGateway => {[ mkNN "" "egw" := meta1 "egw" ["egressgateway.spidernet.io/egressgateway"] false ]}
  end).
Lemma clean_leaves_nothing_witness : cw_view KTunnel (clean "v" "m" (cluster1 false)).1 = ∅ ∧ cw_view KGateway (clean "v" "m" (cluster1 false)).1 = ∅.
Proof.
  destruct (clean_leaves_nothing cw_view "v" "m" (cluster1 false) (clean "v" "m" (cluster1 false)).1) as (H1 & H2 & _).
  - intros k w e. discriminate.
  - vm_compute. reflexivity.
  - split; [exact H1|exact H2].
Defined.
Example finalizers_of_others_stay : dom (cw_view KPolicy (clean "v" "m" (cluster1 false)).1) = {[ mkNN "" "q" ]}.
Proof. vm_compute. reflexivity. Qed.
(** A tunnel that is being deleted goes with its finalizer; deleting it then fails, and nothing else is cleaned. *)
Example clean_stops_at_deleted_tunnel : (clean "v" "m" (cluster1 true)).2 = Err (ErrApi NotFound) ∧ dom (cw_view KGateway (clean "v" "m" (cluster1 true)).1) = {[ mkNN "" "egw" ]}.
Proof. vm_compute. done. Qed.
