(* ===== verification/EndToEnd.v ===== *)
(** * From the controllers to the kernel

    The components joined: what the gateway controller assigns is what the
    agents program.  The controllers and the agent talk through the stored
    objects only, so each theorem takes the state that the runs of a
    controller reach and gives it to the agent of a node. *)

From S2P Require Import Prelude GoStd GoNet GoFmt IPUtil Types GatewayCore GatewayProps ApiServer Utils GatewayReconcile GatewayInvariant Store Egctl ClusterTheorems EndpointSlice Triple IptablesRule IptablesTable IptablesKernel IptablesText IptablesUpdate IptablesLoad IptablesApply IptablesTheorems IptablesFrame IPSet IPSetLaws Police PoliceSets PoliceRules PoliceTables PoliceInit PoliceStore.
Open Scope nat_scope.

(** ** Assignments and the policies of a node *)

(** No policy is in the statuses of two gateways. *)
Definition onePlace (gs : list EgressGateway) : Prop := ∀ p g g', g ∈ gs → g' ∈ gs →
  p ∈ allPolicies (NodeList g) → p ∈ allPolicies (NodeList g') → g = g'.

(** What an agent remembers of an assignment, with the destinations of the policy. *)
Definition localAssigned (a : AssignedIP) (dest : list string) : PolicyCommon :=
  mkCommon (a_Node a) dest (mkEIP (a_IPv4 a) (a_IPv6 a)) (bool_decide (a_IPv4 a = "" ∧ a_IPv6 a = "")).
Definition remoteAssigned (a : AssignedIP) (dest : list string) : PolicyCommon := mkCommon (a_Node a) dest (mkEIP "" "") false.

Section assigned.
Context (gs : list EgressGateway) (Hok : Forall (λ g, gw_ok (NodeList g)) gs) (Hone : onePlace gs).

(** Whichever node and EIP of the listed gateways hold the policy, they are those of the assignment. *)
Lemma only_holder g ns name a node eip : g ∈ gs → getAssignedIP g ns name = Some a →
  node ∈ (gs ≫= NodeList) → eip ∈ n_Eips node → mkPolicy name ns ∈ e_Policies eip →
  a = GatewayCore.mkAssigned (n_Name node) (e_IPv4 eip) (e_IPv6 eip) false.
Proof using Hok Hone.
  intros Hg Ha Hn He Hp. apply list_elem_of_bind in Hn as (g' & Hn & Hg').
  assert (mkPolicy name ns ∈ allPolicies (NodeList g')) as Hin'.
  { apply list_elem_of_bind. exists eip. split; [done|]. apply list_elem_of_bind. by exists node. }
  assert (mkPolicy name ns ∈ allPolicies (NodeList g)) as Hin.
  { destruct (decide (mkPolicy name ns ∈ allPolicies (NodeList g))) as [|Hni]; [done|]. apply getAssignedIP_None in Hni. congruence. }
  rewrite <- (Hone _ _ _ Hg Hg' Hin Hin') in Hn. rewrite Forall_forall in Hok.
  pose proof (getAssignedIP_unique g ns name node eip (ok_policies _ (Hok g Hg)) Hn He Hp). congruence.
Qed.

Lemma holder_of g ns name a : g ∈ gs → getAssignedIP g ns name = Some a →
  ∃ node eip, node ∈ (gs ≫= NodeList) ∧ eip ∈ n_Eips node ∧ mkPolicy name ns ∈ e_Policies eip ∧ n_Name node = a_Node a.
Proof using.
  clear. intros Hg (n & e & Hn & He & Hp & ->)%getAssignedIP_Some. exists n, e. split_and!; [|done..].
  apply list_elem_of_bind. by exists g.
Qed.

(** The agent of the node of the assignment gives the policy its address, every other agent marks its packets. *)
Lemma assignAll_local cfg g ns name a : g ∈ gs → getAssignedIP g ns name = Some a → a_Node a = cfg_NodeName cfg →
  snatPolicies (assignAll cfg gs) !! mkPolicy name ns = Some (localAssigned a []) ∧ unSnatPolicies (assignAll cfg gs) !! mkPolicy name ns = None.
Proof using Hok Hone.
  intros Hg Ha Hnode. destruct (assignAll_assigns cfg gs) as [H1 H2 H3 _ _].
  destruct (holder_of g ns name a Hg Ha) as (n & e & Hn & He & Hp & En). split.
  - destruct (H2 (mkPolicy name ns) n e) as [val Hval]; [done|congruence|done|done|].
    destruct (H1 _ _ Hval) as (n' & e' & Hn' & _ & He' & Hp' & ->). rewrite Hval. by rewrite (only_holder g ns name a n' e').
  - destruct (unSnatPolicies _ !! _) as [val|] eqn:Hval; [|done].
    destruct (H3 _ _ Hval) as (n' & e' & Hn' & Hne & He' & Hp' & _). exfalso. apply Hne. rewrite <- Hnode. by rewrite (only_holder g ns name a n' e').
Qed.
Lemma assignAll_remote cfg g ns name a : g ∈ gs → getAssignedIP g ns name = Some a → a_Node a ≠ cfg_NodeName cfg →
  unSnatPolicies (assignAll cfg gs) !! mkPolicy name ns = Some (remoteAssigned a []) ∧ snatPolicies (assignAll cfg gs) !! mkPolicy name ns = None.
Proof using Hok Hone.
  intros Hg Ha Hnode. destruct (assignAll_assigns cfg gs) as [H1 _ H3 H4 _].
  destruct (holder_of g ns name a Hg Ha) as (n & e & Hn & He & Hp & En). split.
  - destruct (H4 (mkPolicy name ns) n e) as [val Hval]; [done|congruence|done|done|].
    destruct (H3 _ _ Hval) as (n' & e' & Hn' & _ & He' & Hp' & ->). rewrite Hval. by rewrite (only_holder g ns name a n' e').
  - destruct (snatPolicies _ !! _) as [val|] eqn:Hval; [|done].
    destruct (H1 _ _ Hval) as (n' & e' & Hn' & Heq & He' & Hp' & _). exfalso. apply Hnode. rewrite <- Heq. by rewrite (only_holder g ns name a n' e').
Qed.
End assigned.

(** ** From the values to the rules *)

Lemma omap_delete {K A B} `{Countable K} (m : gmap K A) (f : K * A → option B) k a : m !! k = Some a →
  omap f (map_to_list m) ≡ₚ match f (k, a) with Some b => [b] | None => [] end ++ omap f (map_to_list (delete k m)).
Proof. intros Hk. rewrite <- (map_to_list_delete m k a Hk). cbn. by destruct (f (k, a)). Qed.

Section rules.
Context {W : Type} `{LS : LabelSelectors} `{PA : !PoliceApi W} (so : nat → MapOrder).

(** The destinations are read from the stored policy at some time. *)
Definition destsOf (p : Policy) (dest : list string) : Prop := ∃ w, (getPolicySubnet so (p_Namespace p) (p_Name p) w).2 = Ret dest.

Lemma filled_value m m' p val : filled so m m' → m !! p = Some val → ∃ dest, destsOf p dest ∧ m' !! p = Some (set_DestSubnet val dest).
Proof using.
  intros [Hd Hf] Hm. assert (is_Some (m' !! p)) as [val' Hval'] by (apply elem_of_dom; rewrite Hd; by eapply elem_of_dom_2).
  destruct (Hf p val' Hval') as (val0 & w & Hm0 & Heq & Hw). rewrite Hm in Hm0. injection Hm0 as <-.
  exists (pc_DestSubnet val'). split; [by exists w|]. congruence.
Qed.
Lemma filled_none m m' p : filled so m m' → m !! p = None → m' !! p = None.
Proof using. intros [Hd _]. by rewrite <- !not_elem_of_dom, Hd. Qed.
End rules.

(** ** What the kernel does with a policy *)

Section kernel.
Context {W : Type} `{LS : LabelSelectors} `{PA : !PoliceApi W} (IT : nat → Iptables W) `{KT : !KernelText} (TL : ∀ v n, @IptablesLaws W n (IT v) KT).
Context (so : nat → MapOrder) (s : policeReconciler * W) (p : Policy).

(** The chains for SNAT have exactly one rule for the policy, with this value, or none where it has no address. *)
Definition snats (val : PolicyCommon) : Prop := ∀ i t, natTables s.1 !! i = Some t → ∃ rules m, chainIs IT TL KNat t s.2 snatChain rules ∧ m !! p = None ∧
  rules ≡ₚ (if decide (noAddress (tb_IPVersion t) val) then [] else [eipRule p val (tb_IPVersion t)]) ++ snatSpec (tb_IPVersion t) m.
Definition snatsNot : Prop := ∀ i t, natTables s.1 !! i = Some t → ∃ rules m, chainIs IT TL KNat t s.2 snatChain rules ∧ m !! p = None ∧
  rules ≡ₚ snatSpec (tb_IPVersion t) m.
(** The chains for marks have exactly one rule for the policy, with the mark of the tunnel of its node, or none where that cannot be read. *)
Definition marks (val : PolicyCommon) : Prop := ∀ i t, mangleTables s.1 !! i = Some t → ∃ rules o ans m, chainIs IT TL KMangle t s.2 markChain rules ∧
  answered (pc_NodeName val) o ∧ m !! p = None ∧
  rules ≡ₚ match o with Some mark => [markRule p val (tb_IPVersion t) mark] | None => [] end ++ markSpec (tb_IPVersion t) ans m.
Definition marksNot : Prop := ∀ i t, mangleTables s.1 !! i = Some t → ∃ rules ans m, chainIs IT TL KMangle t s.2 markChain rules ∧ m !! p = None ∧
  rules ≡ₚ markSpec (tb_IPVersion t) ans m.

Context (cfg : AgentConfig) (base : Z) (a : assigned) (Hk : ∀ k i t, tablesOf k s.1 !! i = Some t → inKernel IT TL cfg base a k t s.2).

Lemma kernel_snats val : snatPolicies a !! p = Some val → snats val.
Proof using Hk.
  intros Hv i t Hi. destruct (Hk KNat i t Hi) as (_ & rules & Hr & Hc). exists rules, (delete p (snatPolicies a)).
  split_and!; [done|apply lookup_delete_eq|]. rewrite Hr. unfold snatSpec. rewrite (omap_delete _ _ p val Hv). cbn. by case_decide.
Qed.
Lemma kernel_snatsNot : snatPolicies a !! p = None → snatsNot.
Proof using Hk. intros Hv i t Hi. destruct (Hk KNat i t Hi) as (_ & rules & Hr & Hc). by exists rules, (snatPolicies a). Qed.
Lemma kernel_marks val : unSnatPolicies a !! p = Some val → marks val.
Proof using Hk.
  intros Hv i t Hi. destruct (Hk KMangle i t Hi) as (_ & (rules & ans & Ha & Hr & Hc) & _). exists rules, (ans p), ans, (delete p (unSnatPolicies a)).
  split_and!; [done|by apply Ha|apply lookup_delete_eq|]. rewrite Hr. unfold markSpec. rewrite (omap_delete _ _ p val Hv). cbn. by destruct (ans p).
Qed.
Lemma kernel_marksNot : unSnatPolicies a !! p = None → marksNot.
Proof using Hk.
  intros Hv i t Hi. destruct (Hk KMangle i t Hi) as (_ & (rules & ans & _ & Hr & Hc) & _). by exists rules, ans, (unSnatPolicies a).
Qed.
End kernel.

(** ** The gateway controller and the agents *)

(** The gateways that the agent lists are stored. *)
Definition listedIn {V} `{LS : LabelSelectors} `{AS : !ApiServer V} (v : V) (gs : list EgressGateway) : Prop := ∀ g, g ∈ gs → ∃ k, gateways v !! k = Some g.

Lemma listed_ok {V} `{LS : LabelSelectors} `{AS : !ApiServer V} (v : V) gs : AllOk v → listedIn v gs → Forall (λ g, gw_ok (NodeList g)) gs.
Proof. intros Hok Hin. apply Forall_forall. intros g Hg. destruct (Hin g Hg) as [k Hk]. by eapply Hok. Qed.

Lemma assigned_programmed {V : Type} `{LS : LabelSelectors} `{AS : !ApiServer V} `{AL : !ApiServerLaws V} `{MO : MapOrder} `{RD : Rand}
    {W : Type} `{PA : !PoliceApi W} `{IF : !Interface W} (IT : nat → Iptables W) `{KT : !KernelText}
    (TL : ∀ v n, @IptablesLaws W n (IT v) KT) `{TF : !TableFrames W IT TL} so to po cfg fuel s s' (v0 v : V) gs g ns name a :
  AllOk v0 → reachable v0 v → listedIn v gs → onePlace gs → g ∈ gs → getAssignedIP g ns name = Some a →
  plainText (cfg_VXLANName cfg) → (∀ w l, (paListTunnels w).2 = Ret l → Forall (λ t, plainText (tun_MAC (ts_Tunnel (t_Status t)))) l) →
  Forall (λ g, ∀ node eip, node ∈ NodeList g → eip ∈ n_Eips node → plainText (e_IPv4 eip) ∧ plainText (e_IPv6 eip)) gs →
  applyFuel <= fuel → allOK IT TL (versions cfg) s → (paListGateways s.2).2 = Ret gs →
  initApplyPolicy IT so to po cfg fuel s = (s', Ret tt) →
  let p := mkPolicy name ns in
  ∃ dest, destsOf so p dest ∧
    if decide (a_Node a = cfg_NodeName cfg)
    then snats IT TL s' p (localAssigned a dest) ∧ marksNot IT TL s' p
    else marks IT TL s' p (remoteAssigned a dest) ∧ snatsNot IT TL s' p.
Proof.
  intros Hv0 Hreach Hlist Hone Hg Ha Hvx Htun Hpl Hf Hok Hl E p.
  pose proof (listed_ok v gs (reachable_ok v0 v Hv0 Hreach) Hlist) as Hgs.
  assert (gs ≠ []) as Hne by (intros ->; by apply elem_of_nil in Hg).
  pose proof (tri_init IT TL so to po cfg (versions cfg) (versions_nodup cfg) Hvx Htun fuel s.2 gs Hf Hl Hne Hpl s (conj Hok eq_refl)) as H.
  rewrite E in H. destruct H as (base & asg & Hb & _ & Hu & Hs & Hfin).
  assert (∀ k i t, tablesOf k s'.1 !! i = Some t → inKernel IT TL cfg base asg k t s'.2) as Hk.
  { eapply final_kernel; [by apply parseMark_range in Hb as [? _]|done]. }
  case_decide as Hnode.
  - destruct (assignAll_local gs Hgs Hone cfg g ns name a Hg Ha Hnode) as [H1 H2].
    destruct (filled_value so _ _ _ _ Hs H1) as (dest & Hd & Hm). exists dest. split_and!; [done| |].
    + by apply (kernel_snats IT TL s' p cfg base asg Hk).
    + apply (kernel_marksNot IT TL s' p cfg base asg Hk). by eapply filled_none.
  - destruct (assignAll_remote gs Hgs Hone cfg g ns name a Hg Ha Hnode) as [H1 H2].
    destruct (filled_value so _ _ _ _ Hu H1) as (dest & Hd & Hm). exists dest. split_and!; [done| |].
    + by apply (kernel_marks IT TL s' p cfg base asg Hk).
    + apply (kernel_snatsNot IT TL s' p cfg base asg Hk). by eapply filled_none.
Qed.

(** C2. What the gateway controller assigns is what the agents' kernels do.  After any run
    of the controller among other clients, let an agent list stored gateways and run
    [initApplyPolicy] until it returns, and let a listed gateway assign a policy to a node
    ([getAssignedIP]; by [onePlace] no other listed gateway has the policy).  The agent's tables
    are in legacy mode and can be trusted ([allOK]), and the texts of addresses, MACs and the device name
    need no quoting.  On that node the kernel's chains for SNAT have exactly one rule for the
    policy in every IP version it has an address of, with exactly the assigned address
    (in both, with the node's own, when no address was assigned), and the chains for
    marks have none for it; on every other node it is the other way round: no rule
    for SNAT, and one rule that gives the packets of the policy the mark of the tunnel of the
    assigned node when that tunnel could be read, none when it could not. *)
Theorem assignments_reach_the_kernel {V : Type} `{LS : LabelSelectors} `{AS : !ApiServer V} `{AL : !ApiServerLaws V} `{MO : MapOrder} `{RD : Rand}
    {W : Type} `{PA : !PoliceApi W} `{IF : !Interface W} (IT : nat → Iptables W) `{KT : !KernelText}
    (TL : ∀ v n, @IptablesLaws W n (IT v) KT) `{TF : !TableFrames W IT TL} so to po cfg fuel s s' (v0 v : V) gs g ns name a :
  AllOk v0 → reachable v0 v → listedIn v gs → onePlace gs → g ∈ gs → getAssignedIP g ns name = Some a →
  plainText (cfg_VXLANName cfg) → (∀ w l, (paListTunnels w).2 = Ret l → Forall (λ t, plainText (tun_MAC (ts_Tunnel (t_Status t)))) l) →
  Forall (λ g, ∀ node eip, node ∈ NodeList g → eip ∈ n_Eips node → plainText (e_IPv4 eip) ∧ plainText (e_IPv6 eip)) gs →
  applyFuel <= fuel → allOK IT TL (versions cfg) s → (paListGateways s.2).2 = Ret gs →
  initApplyPolicy IT so to po cfg fuel s = (s', Ret tt) →
  let p := mkPolicy name ns in
  ∃ dest, destsOf so p dest ∧
    if decide (a_Node a = cfg_NodeName cfg)
    then snats IT TL s' p (localAssigned a dest) ∧ marksNot IT TL s' p
    else marks IT TL s' p (remoteAssigned a dest) ∧ snatsNot IT TL s' p.
Proof. intros. by eapply assigned_programmed. Qed.

(** *** A run *)

(** The controller handles a new policy that asks for an address of the gateway; the agent of the node that gets it starts afterwards. *)
Definition gatewayBefore : EgressGateway :=
  mkGateway (meta "" "gw1") (mkGatewaySpec false (mkIppools ["10.6.1.21-10.6.1.30"] ["fd00::21-fd00::30"] "" "") (mkNodeSelector "" None))
    (mkGatewayStatus [mkEgressIPStatus "worker1" [] "Ready"; mkEgressIPStatus "worker2" [mkEips "10.6.1.22" "" [mkPolicy "pol2" "ns1"]] "Ready"] zeroUsage).
Definition policyBefore : EgressPolicy :=
  mkEgressPolicy (meta "ns1" "pol1") (mkPolicySpec "gw1" (mkEgressIP "10.6.1.21" "fd00::21" false "") (mkAppliedTo None []) ["1.1.1.0/24"; "2001:db8::/48"] 0) zeroPolicyStatus.
Definition storeBefore : Store := mkStore {["gw1" := gatewayBefore]} {[mkNN "ns1" "pol1" := policyBefore]} ∅ ∅ ∅ [].
Definition storeAfter : Store := (GatewayReconcile.Reconcile (MO := map_order_id) (RD := rand_zero) (mkNN "EgressPolicy/ns1" "pol1") storeBefore).1.
Definition gatewayAfter : EgressGateway := default gatewayBefore (st_gateways storeAfter !! "gw1").
Definition node1 : AgentWorld :=
  mkAgentWorld [gatewayAfter] (aw_policies cluster1) [] (aw_tunnels cluster1) (aw_infos cluster1) (aw_slices cluster1) [] (aw_sets cluster1) (aw_tables cluster1) [].
Definition run1 := initApplyPolicy world_iptables so1 to1 po1 cfg1 42 (agent1, node1).

Lemma run1_returns : run1 = (run1.1, Ret tt).
Proof. assert (run1.2 = Ret tt) as <- by (vm_compute; reflexivity). apply surjective_pairing. Qed.
Lemma node1_ok : allOK world_iptables worldLaws (versions cfg1) (agent1, node1).
Proof. eapply (newPolicyController_ok world_iptables worldLaws cfg1 0); [done| |reflexivity]. intros k v. exact (cluster1_wf v (kindName k)). Qed.
Lemma storeBefore_ok : AllOk storeBefore.
Proof.
  intros k g Hg. simpl in Hg. apply lookup_singleton_Some in Hg as [_ <-]. split; apply (bool_decide_unpack _); vm_compute; exact I.
Qed.

Lemma assignments_reach_the_kernel_witness : ∃ dest, destsOf so1 (mkPolicy "pol1" "ns1") dest ∧
  snats world_iptables worldLaws run1.1 (mkPolicy "pol1" "ns1") (mkCommon "worker1" dest (mkEIP "10.6.1.21" "fd00::21") false) ∧
  marksNot world_iptables worldLaws run1.1 (mkPolicy "pol1" "ns1").
Proof.
  apply (assignments_reach_the_kernel (MO := map_order_id) (RD := rand_zero) world_iptables worldLaws so1 to1 po1 cfg1 42 (agent1, node1) run1.1
    storeBefore storeAfter [gatewayAfter] gatewayAfter "ns1" "pol1" (GatewayCore.mkAssigned "worker1" "10.6.1.21" "fd00::21" false)).
  - exact storeBefore_ok.
  - eapply reachable_step; [apply reachable_init|apply (step_reconcile storeBefore)].
  - intros g ->%list_elem_of_singleton. exists "gw1". vm_compute. reflexivity.
  - by intros p g g' ->%list_elem_of_singleton ->%list_elem_of_singleton.
  - by left.
  - vm_compute. reflexivity.
  - apply (bool_decide_unpack _). vm_compute. exact I.
  - exact world_tunnels.
  - constructor; [|done]. intros node eip Hn He. vm_compute in Hn. repeat (apply elem_of_cons in Hn as [->|Hn]; [cbn in He; apply list_elem_of_singleton in He as ->;
      split; apply (bool_decide_unpack _); vm_compute; exact I|]). by apply elem_of_nil in Hn.
  - done.
  - exact node1_ok.
  - done.
  - exact run1_returns.
Defined.
