(* ===== verification/DataPath.v ===== *)
(** * The path of a packet between two nodes

    What the tunnel controller hands out is what the agents program: from the
    stored tunnels to the map of peers of an agent, and from there to the
    device, neighbours, rules and routes of its node. *)

From S2P Require Import Prelude GoStd Allocator MarkAllocator Pool GoNet GoFmt IPUtil IPAllocator Types ApiServer Utils Triple StateM Sha1 Police Tunnel TunnelTheorems Netlink Route VxlanDevice Vxlan VxlanTheorems.
Open Scope Z_scope.

(** ** Texts of marks *)

Lemma ParseUint16_sign c l n : ParseUint16 (c :: l) = Ret n → c ≠ "-"%char ∧ c ≠ "+"%char.
Proof. intros H. split; intros ->; by vm_compute in H. Qed.
Lemma ParseInt_Parse l n v : ParseUint16 l = Ret n → ParseInt16_32 l = Ret v → v = n.
Proof.
  intros Hn. unfold ParseInt16_32. assert ((match l with "-"%char :: l => (true, l) | "+"%char :: l => (false, l) | l => (false, l) end) = (false, l)) as ->.
  { destruct l as [|c l]; [done|]. apply ParseUint16_sign in Hn as [H1 H2]. destruct c as [[] [] [] [] [] [] [] []]; try done; by destruct H1 || destruct H2. }
  rewrite Hn. simpl. case_decide; [by intros [= <-]|done].
Qed.
Lemma ParseInt_range l v : ParseInt16_32 l = Ret v → v < 2 ^ 31.
Proof.
  unfold ParseInt16_32. set (q := match l with "-"%char :: l => (true, l) | "+"%char :: l => (false, l) | l => (false, l) end).
  destruct q as [neg l']. destruct (ParseUint16 l') as [n| | |]; simpl; try done. case_decide; [|done]. intros [= <-]. lia.
Qed.
(** The agent reads the mark that the controller handed out, or none. *)
Lemma parseMarkToInt_Parse mark n v : Parse mark = Ret n → parseMarkToInt mark = Ret v → v = n.
Proof. apply ParseInt_Parse. Qed.

(** ** Texts of addresses *)

Lemma ParseIP_ok s : ParseIP s ≠ [] → valid_ip (ParseIP s).
Proof. intros Hs. destruct (ParseIP_valid s) as [?|[? ?]]; [done|]. split; [by right|done]. Qed.
Lemma To4_nonnil ip : To4 ip ≠ [] → ip ≠ [].
Proof. by intros H ->. Qed.
Lemma To16_nonnil ip : To16 ip ≠ [] → ip ≠ [].
Proof. by intros H ->. Qed.
Lemma IPString_same ip ip' : valid_ip ip → valid_ip ip' → IPString ip = IPString ip' → To16 ip = To16 ip'.
Proof. intros H H' E. rewrite <- !ParseIP_IPString by done. by rewrite E. Qed.
Lemma ipValue_To16 ip ip' : To16 ip = To16 ip' → ipValue ip = ipValue ip'.
Proof. intros E. unfold ipValue, bigForIP. by rewrite E. Qed.
Lemma ipValue_Some ip : To16 ip ≠ [] → ∃ v, ipValue ip = Some v.
Proof. intros H. unfold ipValue. rewrite decide_False by done. by eexists. Qed.
Lemma To4_length ip : To4 ip ≠ [] → length (To4 ip) = 4%nat.
Proof. unfold To4. case_decide; [done|]. case_decide as Hp; [|done]. intros _. destruct Hp. rewrite length_drop. lia. Qed.
Lemma To4_parts ip : To4 ip ≠ [] → valid_ip ip → To16 (To4 ip) ≠ [] ∧ To4 (To16 (To4 ip)) ≠ [] ∧ valid_ip (To4 ip).
Proof.
  intros H Hv. pose proof (To4_valid ip Hv H) as H4. split_and!; [|rewrite To4_To16 by done|done].
  - destruct (valid_To16 _ H4) as [Hl _]. by destruct (To16 (To4 ip)).
  - intros Hn. pose proof (To4_length ip H) as Hl. unfold To4 at 1 in Hn. by rewrite decide_True in Hn.
Qed.

(** ** The peers of the stored tunnels *)

(** What the texts of the stored tunnels must be: no two with one hardware address (the controller derives it from the name with a hash),
    marks that are numbers, IPv6 addresses that are no IPv4 addresses, and no address of a family the controller does not hand out. *)
Record wellWritten {MA IA} (r : egReconciler MA IA) (m : gmap string EgressTunnel) : Prop := {
  ww_mac : ∀ n n' t t' mac, m !! n = Some t → m !! n' = Some t' → ParseMAC (t_MAC t) = Some mac →
    ParseMAC (t_MAC t') = Some mac → n = n';
  ww_mark : ∀ n t, m !! n = Some t → t_Mark t = "" ∨ ∃ v, Parse (t_Mark t) = Ret v;
  ww_v6 : ∀ n t, m !! n = Some t → To4 (ParseIP (t_IPv6 t)) = [];
  ww_pools : ∀ n t, m !! n = Some t → (To4 (ParseIP (t_IPv4 t)) ≠ [] → r_allocatorV4 r ≠ None) ∧ (To16 (ParseIP (t_IPv6 t)) ≠ [] → r_allocatorV6 r ≠ None)
}.

(** The text of the address of the node behind a tunnel, for the IP version that the tunnels run over. *)
Definition parentText (v : Z) (t : EgressTunnel) : string :=
  let p := tun_Parent (ts_Tunnel (t_Status t)) in if decide (v = 4) then par_IPv4 p else par_IPv6 p.
(** The peer that the agent makes of a tunnel. *)
Definition peerOfTunnel (v : Z) (p : Peer) (t : EgressTunnel) : Prop :=
  ∃ mac, ParseMAC (t_MAC t) = Some mac ∧ p = peerOf (ParseIP (parentText v t)) mac (t_Status t).
(** What the agent stores under its own name. *)
Definition ownEntry (p : Peer) : Prop :=
  pr_Mark p = 0 ∧ (∀ a, pr_IPv4 p = Some a → GetIPFamily a = FAMILY_V4) ∧ (∀ a, pr_IPv6 p = Some a → GetIPFamily a = FAMILY_V6).
(** The map of an agent is one of stored tunnels; its own entry has no mark. *)
Definition peersFrom (v : Z) (own : string) (m : gmap string EgressTunnel) (pm : gmap string Peer) : Prop :=
  (∀ key p, pm !! key = Some p → key ≠ own → ∃ t, m !! key = Some t ∧ peerOfTunnel v p t) ∧
  (∀ p, pm !! own = Some p → ownEntry p).

Section apart.
Context {T : Type} `{AL : AllocLaws T}.
Context (r : egReconciler (Range T) (IPRange T)) (m : gmap string EgressTunnel).
Context (Hok : tunnels_ok r m) (Hww : wellWritten r m).

Lemma mark_unique n n' t t' : m !! n = Some t → m !! n' = Some t' →
  ∀ v, parseMarkToInt (t_Mark t) = Ret v → parseMarkToInt (t_Mark t') = Ret v → n = n'.
Proof using Hok Hww.
  intros Hn Hn' v E E'. assert (∀ n t, m !! n = Some t → parseMarkToInt (t_Mark t) = Ret v → markOf (MA := Range T) t = Some v) as Hv.
  { intros n0 t0 H0 E0. unfold markOf. destruct (ww_mark _ _ Hww n0 t0 H0) as [He|[u Hu]]; [rewrite He in E0; by vm_compute in E0|].
    pose proof (parseMarkToInt_Parse _ _ _ Hu E0) as ->. destruct (decide (t_Mark t0 = "")) as [He|_]; [rewrite He in Hu; by vm_compute in Hu|].
    change (markValue (t_Mark t0) = Some u). unfold markValue. by rewrite Hu. }
  eapply (bk_unique _ _ _ (to_mark _ _ Hok)); [exact Hn|exact Hn'|by eapply Hv|by eapply Hv].
Qed.

(** The addresses of a peer are those of its tunnel. *)
Lemma peer_v4 v p t a : peerOfTunnel v p t → pr_IPv4 p = Some a → a = To4 (ParseIP (t_IPv4 t)) ∧ a ≠ [].
Proof using. clear. intros (mac & _ & ->). unfold peerOf, nonNil. simpl. destruct (To4 _) as [|x l]; [done|]. by intros [= <-]. Qed.
Lemma peer_v6 v p t a : peerOfTunnel v p t → pr_IPv6 p = Some a → a = To16 (ParseIP (t_IPv6 t)) ∧ a ≠ [].
Proof using. clear. intros (mac & _ & ->). unfold peerOf, nonNil. simpl. destruct (To16 _) as [|x l]; [done|]. by intros [= <-]. Qed.

(** Two texts of one address are held by one tunnel. *)
Lemma v4_unique n n' t t' : m !! n = Some t → m !! n' = Some t' → To4 (ParseIP (t_IPv4 t)) ≠ [] → To4 (ParseIP (t_IPv4 t')) ≠ [] →
  IPString (To4 (ParseIP (t_IPv4 t))) = IPString (To4 (ParseIP (t_IPv4 t'))) → n = n'.
Proof using Hok Hww.
  intros Hn Hn' H4 H4' E. pose proof (ParseIP_ok _ (To4_nonnil _ H4)) as Hv. pose proof (ParseIP_ok _ (To4_nonnil _ H4')) as Hv'.
  destruct (To4_parts _ H4 Hv) as (N16 & _ & V). destruct (To4_parts _ H4' Hv') as (_ & _ & V').
  apply IPString_same in E; [|done..]. destruct (ipValue_Some _ N16) as [v Hval]. pose proof (to_v4 _ _ Hok) as Hb.
  destruct (r_allocatorV4 r) as [a|] eqn:Ea; [|by destruct (proj1 (ww_pools _ _ Hww n t Hn) H4)]. destruct Hb as [_ Hb].
  eapply (bk_unique _ _ _ Hb n n' t t' v); [done|done|..]; unfold v4Of; rewrite decide_False by done; [exact Hval|].
  etransitivity; [|exact Hval]. by apply ipValue_To16.
Qed.
Lemma v6_unique n n' t t' : m !! n = Some t → m !! n' = Some t' → To16 (ParseIP (t_IPv6 t)) ≠ [] → To16 (ParseIP (t_IPv6 t')) ≠ [] →
  IPString (To16 (ParseIP (t_IPv6 t))) = IPString (To16 (ParseIP (t_IPv6 t'))) → n = n'.
Proof using Hok Hww.
  intros Hn Hn' H6 H6' E. pose proof (ParseIP_ok _ (To16_nonnil _ H6)) as Hv. pose proof (ParseIP_ok _ (To16_nonnil _ H6')) as Hv'.
  rewrite !IPString_To16 in E by done. apply IPString_same in E; [|done..]. pose proof (to_v6 _ _ Hok) as Hb.
  destruct (r_allocatorV6 r) as [a|] eqn:Ea; [|by destruct (proj2 (ww_pools _ _ Hww n t Hn) H6)]. destruct Hb as [_ Hb].
  destruct (ipValue_Some (To16 (ParseIP (t_IPv6 t)))) as [v Hval].
  { destruct (valid_To16 _ Hv) as [Hl _]. by rewrite To16_16. }
  eapply (bk_unique _ _ _ Hb n n' t t' v); [done|done|..]; unfold v6Of; rewrite decide_False by done; [exact Hval|]. by rewrite <- E.
Qed.
(** No address of one family is one of the other. *)
Lemma v4_v6_differ n t t' : m !! n = Some t → To4 (ParseIP (t_IPv4 t')) ≠ [] → To16 (ParseIP (t_IPv6 t)) ≠ [] →
  IPString (To4 (ParseIP (t_IPv4 t'))) ≠ IPString (To16 (ParseIP (t_IPv6 t))).
Proof using Hww.
  intros Hn H4 H6 E. pose proof (ParseIP_ok _ (To16_nonnil _ H6)) as Hv. pose proof (ParseIP_ok _ (To4_nonnil _ H4)) as Hv'.
  destruct (To4_parts _ H4 Hv') as (_ & N4 & V). rewrite IPString_To16 in E by done. apply IPString_same in E; [|done..].
  rewrite E, To4_To16, (ww_v6 _ _ Hww n t Hn) in N4 by done. done.
Qed.

Lemma tunnels_apart v own pm : peersFrom v own m pm → peersApart own pm.
Proof using Hok Hww.
  intros [Hother Hown]. split_and!.
  - intros key key' p q Hp Hq Hne Hne' Hkk. destruct (Hother key p Hp Hne) as (t & Ht & Hpt). destruct (Hother key' q Hq Hne') as (t' & Ht' & Hqt). split.
    + destruct Hpt as (mac & Hm & ->), Hqt as (mac' & Hm' & ->). cbn. intros <-. apply Hkk. by eapply (ww_mac _ _ Hww).
    + intros ip ip' [H1|H1] [H2|H2] E; first [apply (peer_v4 v p t) in H1 as [-> H1]|apply (peer_v6 v p t) in H1 as [-> H1]];
        first [apply (peer_v4 v q t') in H2 as [-> H2]|apply (peer_v6 v q t') in H2 as [-> H2]]; try done.
      * apply Hkk. by eapply v4_unique.
      * by eapply (v4_v6_differ key').
      * symmetry in E. by eapply (v4_v6_differ key).
      * apply Hkk. by eapply v6_unique.
  - intros key key' p q Hp Hq Hkk Hz E. destruct (decide (key = own)) as [->|Hne]; [by destruct (Hown p Hp)|].
    destruct (decide (key' = own)) as [->|Hne']; [destruct (Hown q Hq); congruence|].
    destruct (Hother key p Hp Hne) as (t & Ht & mac & _ & ->). destruct (Hother key' q Hq Hne') as (t' & Ht' & mac' & _ & ->). cbn in Hz, E.
    destruct (parseMarkToInt (t_Mark t)) as [u| | |] eqn:Ev; try done. destruct (parseMarkToInt (t_Mark t')) as [u'| | |] eqn:Ev'; try done. subst u'.
    apply Hkk. by eapply mark_unique.
  - intros key p Hp. destruct (decide (key = own)) as [->|Hne]; [by apply Hown|]. destruct (Hother key p Hp Hne) as (t & Ht & Hpt). split; intros a Ha.
    + apply (peer_v4 v p t) in Ha as [-> Ha]; [|done]. by apply To4_canonical.
    + apply (peer_v6 v p t) in Ha as [-> Ha]; [|done]. apply To16_canonical; [by eapply (ww_v6 _ _ Hww)|done].
Qed.
End apart.

(** ** Calls of netlink leave the stored objects alone *)

(** The tunnels that the API server stores, and what the calls of an agent do to them: only an update of a status writes, and only the tunnel
    it is for, which gets the status it was given. *)
Class StoredTunnels (W : Type) `{NL : !Netlink W} `{VA : !VxlanApi W} (stored : W → gmap string EgressTunnel) := {
  st_get n w : stored (vaGetTunnel n w).1 = stored w ∧
    (∀ t, (vaGetTunnel n w).2 = Ret t → stored w !! nn_Name n = Some t ∧ om_Name (t_Meta t) = nn_Name n) ∧
    (∀ e, (vaGetTunnel n w).2 = Err e → IsNotFound e = true → stored w !! nn_Name n = None);
  st_list w : stored (vaListTunnels w).1 = stored w ∧ ∀ l t, (vaListTunnels w).2 = Ret l → t ∈ l → ∃ n, stored w !! n = Some t;
  st_getGateway n w : stored (vaGetGateway n w).1 = stored w;
  st_now w : stored (vaNow w).1 = stored w;
  st_update t w : (∀ n, n ≠ om_Name (t_Meta t) → stored (vaUpdateTunnelStatus t w).1 !! n = stored w !! n) ∧
    (∀ t', stored (vaUpdateTunnelStatus t w).1 !! om_Name (t_Meta t) = Some t' → stored w !! om_Name (t_Meta t) = Some t' ∨ t_Status t' = t_Status t) ∧
    (∀ t', (vaUpdateTunnelStatus t w).2 = Ret t' → t_Status t' = t_Status t ∧ om_Name (t_Meta t') = om_Name (t_Meta t));
  st_nlRules f w : stored (nlRules f w).1 = stored w;
  st_RuleDel r w : stored (RuleDel r w).1 = stored w;
  st_RuleAdd r w : stored (RuleAdd r w).1 = stored w;
  st_nlRoutes f w : stored (nlRoutes f w).1 = stored w;
  st_RouteDel r w : stored (RouteDel r w).1 = stored w;
  st_RouteAdd r w : stored (RouteAdd r w).1 = stored w;
  st_LinkByName n w : stored (LinkByName n w).1 = stored w;
  st_LinkByIndex i w : stored (LinkByIndex i w).1 = stored w;
  st_LinkAdd v w : stored (LinkAdd v w).1 = stored w;
  st_LinkDel l w : stored (LinkDel l w).1 = stored w;
  st_LinkSetUp v w : stored (LinkSetUp v w).1 = stored w;
  st_AddrList n f w : stored (AddrList n f w).1 = stored w;
  st_AddrDel n a w : stored (AddrDel n a w).1 = stored w;
  st_AddrAdd n i w : stored (AddrAdd n i w).1 = stored w;
  st_NeighList i f w : stored (NeighList i f w).1 = stored w;
  st_NeighSet nb w : stored (NeighSet nb w).1 = stored w;
  st_NeighDel nb w : stored (NeighDel nb w).1 = stored w;
  st_procOpen p w : stored (procOpen p w).1 = stored w;
  st_procWrite p v w : stored (procWrite p v w).1 = stored w;
  st_EthtoolTXOff n w : stored (EthtoolTXOff n w).1 = stored w
}.

(** A triple that says that its precondition is kept. *)
Ltac as_inv := lazymatch goal with |- tri ?P ?c _ _ => change (keepsInv P c) end.
(** Walk through a program to its calls. *)
Ltac walk := repeat lazymatch goal with
  | |- keepsInv _ (mret _) => apply inv_ret
  | |- keepsInv _ (merr _) => apply inv_err
  | |- keepsInv _ (lift _) => apply inv_lift
  | |- keepsInv _ (mbind_ sget _) => apply inv_sget; intros ?
  | |- keepsInv _ (mbind_ _ _) => apply inv_bind; [|intros ?]
  | |- keepsInv _ (attempt _) => apply inv_attempt
  | |- keepsInv _ (mforeach _ _ _) => apply inv_foreach; intros ? ? _
  | |- keepsInv _ (let _ := _ in _) => cbv zeta
  | |- keepsInv _ (match ?x with _ => _ end) => destruct x
  end.

Section netlink.
Context {W : Type} `{NL : !Netlink W} `{VA : !VxlanApi W} (stored : W → gmap string EgressTunnel) `{ST : !StoredTunnels W stored}.
Context (m0 : gmap string EgressTunnel).
Abbreviation J := (λ w : W, stored w = m0).

Lemma st_call {A} (c : M W A) : (∀ w, stored (c w).1 = stored w) → keepsInv J c.
Proof using. intros H w Hw. specialize (H w). destruct (c w) as [w' [a|e|p|]]; simpl in *; congruence. Qed.
Ltac kept := walk; try (apply st_call; intros ?; first
  [apply st_nlRules|apply st_RuleDel|apply st_RuleAdd|apply st_nlRoutes|apply st_RouteDel|apply st_RouteAdd|apply st_LinkByName|apply st_LinkByIndex|apply st_LinkAdd
  |apply st_LinkDel|apply st_LinkSetUp|apply st_AddrList|apply st_AddrDel|apply st_AddrAdd|apply st_NeighList|apply st_NeighSet|apply st_NeighDel|apply st_procOpen|apply st_procWrite|apply st_EthtoolTXOff]).

Lemma inv_wrapped {A} msg (c : M W A) : keepsInv J c → keepsInv J (wrapped msg c).
Proof using. intros Hc. unfold wrapped, failed. walk; done. Qed.
Lemma kept_EnsureRule rr f t mk : keepsInv J (EnsureRule rr f t mk).
Proof using ST. unfold EnsureRule, RuleListFiltered. kept. Qed.
Lemma kept_EnsureRoute l ip f t : keepsInv J (EnsureRoute l ip f t).
Proof using ST. unfold EnsureRoute, RouteListFiltered. kept. Qed.
Lemma kept_Ensure rr n v4 v6 t mk : keepsInv J (Ensure rr n v4 v6 t mk).
Proof using ST. unfold Ensure. kept; first [apply kept_EnsureRule|apply kept_EnsureRoute]. Qed.
Lemma kept_PurgeStaleRules marks base : keepsInv J (PurgeStaleRules marks base).
Proof using ST. unfold PurgeStaleRules, cleanRules, RuleListFiltered. kept. Qed.
Lemma kept_readBack i : keepsInv J (readBack i).
Proof using ST. unfold readBack. apply inv_bind; [apply inv_wrapped; kept|]. intros []; unfold failed; walk. Qed.
Lemma kept_ensureLink v : keepsInv J (ensureLink v).
Proof using ST. unfold ensureLink. kept; first [apply kept_readBack|apply inv_wrapped; kept]. Qed.
Lemma kept_ensureAddr ipn l f : keepsInv J (ensureAddr ipn l f).
Proof using ST. unfold ensureAddr. kept; apply inv_wrapped; kept. Qed.
Lemma kept_ensureFilter n ip : keepsInv J (ensureFilter n ip).
Proof using ST. unfold ensureFilter, writeProcSys, failed. walk; apply inv_wrapped; kept. Qed.

(** Programs of the device. *)
Abbreviation JD := (λ x : option Vxlan * W, stored x.2 = m0).
Lemma dev_scall {A} (c : M W A) : keepsInv J c → keepsInv JD (scall c).
Proof using. intros Hc. apply inv_scall. intros s w Hw. specialize (Hc w Hw). simpl in *. by destruct (c w) as [w' [a|e|p|]]. Qed.
Lemma dev_smod f : keepsInv JD (smod f).
Proof using. by apply inv_smod. Qed.
Lemma kept_ListNeigh : keepsInv JD ListNeigh.
Proof using ST. unfold ListNeigh. walk; apply dev_scall; kept. Qed.
Lemma kept_Add p : keepsInv JD (Add p).
Proof using ST. unfold Add, addNeigh. walk; apply dev_scall; kept. Qed.
Lemma kept_Del nb : keepsInv JD (Del nb).
Proof using ST. unfold Del. walk; apply dev_scall; kept. Qed.
Lemma kept_EnsureLink gp n i p mac v4 v6 off : (∀ v, keepsInv J (gp v)) → keepsInv JD (EnsureLink gp n i p mac v4 v6 off).
Proof using ST.
  intros Hg. unfold EnsureLink. walk; try apply dev_smod; apply dev_scall;
    first [apply kept_ensureLink|apply kept_ensureAddr|apply kept_ensureFilter|apply inv_wrapped; first [done|kept]|kept].
Qed.
End netlink.

(** ** The map of peers over the runs of an agent *)

(** An address text that is no IPv4 address. *)
Definition noV4 (t : EgressTunnel) : Prop := To4 (ParseIP (t_IPv6 t)) = [].

Lemma parseVTEP_own cfg t v : noV4 t → parseVTEP cfg (t_Status t) = Some v → ownEntry v.
Proof.
  intros H6. unfold parseVTEP. set (x := if cf_EnableIPv4 cfg then _ else _). set (y := if cf_EnableIPv6 cfg then _ else _).
  assert (x.1 = true → ∀ a, x.2 = Some a → GetIPFamily a = FAMILY_V4) as Hx.
  { unfold x. destruct (cf_EnableIPv4 cfg); [|done]. case_decide; [done|]. cbn. intros Hb%bool_decide_eq_true a [= <-].
    unfold GetIPFamily. case_decide; [done|]. by rewrite decide_True. }
  assert (y.1 = true → ∀ a, y.2 = Some a → GetIPFamily a = FAMILY_V6) as Hy.
  { unfold y. destruct (cf_EnableIPv6 cfg); [|done]. case_decide; [done|]. cbn. intros Hb%bool_decide_eq_true a [= <-].
    destruct (To16_canonical _ H6 Hb) as [Hf _]. destruct (ParseIP_valid (t_IPv6 t)) as [Hn|[Hl _]]; [by rewrite Hn in Hb|]. by rewrite To16_16 in Hf. }
  destruct x as [r4 a4], y as [r6 a6]. destruct (ParseMAC _) as [mac|]; [|done]. destruct r4, r6; try done. cbn in *. intros [= <-]. split_and!; [done|by apply Hx|by apply Hy].
Qed.
Lemma refreshTunnel_same cfg parent v t : let r := refreshTunnel cfg parent v t in t_Meta r.1 = t_Meta t ∧ t_IPv6 r.1 = t_IPv6 t.
Proof. unfold refreshTunnel. destruct (parseVTEP cfg _); [case_decide|]; done. Qed.

Section agent.
Context {W : Type} `{NL : !Netlink W} `{VA : !VxlanApi W} (stored : W → gmap string EgressTunnel) `{ST : !StoredTunnels W stored}.
Context (cfg : vxlanConfig) (rr : RuleRoute) (order : nat → MapOrder) (getParent : Z → M W ParentLink).
Context (Hparent : ∀ v w, stored (getParent v w).1 = stored w).
Context (m : gmap string EgressTunnel) (Hm : ∀ n t, m !! n = Some t → noV4 t).
Abbreviation own := (cf_NodeName cfg).
Abbreviation VM := (M (vxlanReconciler * W)).

(** The stored tunnels of the other nodes are those of [m], and the map of peers is one of them. *)
Definition tracks (x : vxlanReconciler * W) : Prop :=
  peersFrom (version cfg) own m (peerMap x.1) ∧ (∀ n, n ≠ own → stored x.2 !! n = m !! n) ∧ (∀ t, stored x.2 !! own = Some t → noV4 t).

Lemma tracks_stored s w w' : stored w' = stored w → tracks (s, w) → tracks (s, w').
Proof using. unfold tracks. cbn. by intros ->. Qed.
Lemma t_scall {A} (c : M W A) : (∀ w, stored (c w).1 = stored w) → keepsInv tracks (scall c).
Proof using. intros Hc. apply inv_scall. intros s w. by apply tracks_stored. Qed.
Lemma inv_stored {A} (c : M W A) : (∀ m0, keepsInv (λ w, stored w = m0) c) → ∀ w, stored (c w).1 = stored w.
Proof using. intros Hc w. specialize (Hc (stored w) w eq_refl). by destruct (c w) as [w' [a|e|p|]]. Qed.
Lemma t_onDevice {A} (c : M (option Vxlan * W) A) : (∀ m0, keepsInv (λ x, stored x.2 = m0) c) → keepsInv tracks (onDevice c).
Proof using.
  intros Hc [s w] Hs. unfold onDevice. cbn [fst snd]. specialize (Hc (stored w) (vx_device s, w) eq_refl).
  destruct (c (vx_device s, w)) as [[d w'] [a|e|p|]]; cbn in *; by apply (tracks_stored (set_device d s) w).
Qed.
Lemma t_smod f : (∀ s, peerMap (f s) = peerMap s) → keepsInv tracks (smod f).
Proof using. intros Hf. apply inv_smod. intros s w. unfold tracks. cbn. by rewrite Hf. Qed.
Lemma t_logError msg : keepsInv tracks (logError msg).
Proof using. by apply t_smod. Qed.
Lemma t_loggedAs {A} msg (c : VM A) : keepsInv tracks c → keepsInv tracks (loggedAs msg c).
Proof using. intros Hc. unfold loggedAs. walk; [done|apply t_logError]. Qed.

Lemma t_ensureRoute : keepsInv tracks (ensureRoute cfg order).
Proof using ST.
  unfold ensureRoute. apply inv_bind; [apply t_onDevice; intros m0; by apply kept_ListNeigh|]. intros l. walk; apply t_loggedAs, t_onDevice; intros m0; [by apply kept_Del|by apply kept_Add].
Qed.
Lemma t_ensurePeer p : keepsInv tracks (ensurePeer cfg rr p).
Proof using ST. apply t_scall, inv_stored. intros m0. by apply kept_Ensure. Qed.

(** The own tunnel. *)
Definition ownTunnel (t : EgressTunnel) : Prop := om_Name (t_Meta t) = own ∧ noV4 t.

Lemma t_getTunnel req : tri tracks (scall (getOrAbsent (vaGetTunnel req)))
  (λ r x, tracks x ∧ ∀ t, r = Some t → om_Name (t_Meta t) = nn_Name req ∧ noV4 t ∧ (nn_Name req ≠ own → m !! nn_Name req = Some t)) tracks.
Proof using ST Hm.
  apply tri_scall. intros s w Hs. destruct (st_get req w) as (Hw & Ht & _). unfold getOrAbsent, mbind_, attempt.
  pose proof (tracks_stored s w (vaGetTunnel req w).1 Hw Hs) as Hs'. destruct Hs as (_ & Hother & Hown).
  destruct (vaGetTunnel req w) as [w' [t|e|p|]]; cbn in *; try done.
  - split; [done|]. intros t' [= <-]. destruct (Ht t eq_refl) as [Hst Hname]. split; [done|]. destruct (decide (nn_Name req = own)) as [Heq|Hne].
    + split; [|by intros ?]. apply Hown. by rewrite <- Heq.
    + rewrite Hother in Hst by done. split; [by eapply Hm|done].
  - destruct (IsNotFound e); [|done]. cbn. split; [done|]. by intros t.
Qed.
Lemma t_updateTunnelStatus t : ownTunnel t → tri tracks (updateTunnelStatus cfg t) (λ t' x, tracks x ∧ ownTunnel t') tracks.
Proof using ST.
  intros [Hn H6]. unfold updateTunnelStatus. eapply (tri_bind _ _ _ (λ _, tracks)); [apply t_scall, st_now|]. intros now.
  set (t1 := set_tunnelStatus t _). assert (noV4 t1) as H61 by done. assert (om_Name (t_Meta t1) = own) as Hn1 by done.
  eapply (tri_bind _ _ _ (λ t' x, tracks x ∧ ownTunnel t')).
  { apply tri_scall. intros s w (Hp & Hother & Hown). destruct (st_update t1 w) as (U1 & U2 & U3). rewrite Hn1 in *.
    assert (tracks (s, (vaUpdateTunnelStatus t1 w).1)) as Hs'.
    { split; [exact Hp|split; [intros n Hne; cbn; rewrite U1 by done; by apply Hother|]]. intros t' Ht'. destruct (U2 t' Ht') as [Ho|Ho]; [by apply Hown|]. unfold noV4. by rewrite Ho. }
    destruct (vaUpdateTunnelStatus t1 w) as [w' [t'|e|p|]]; cbn in *; try done. split; [done|]. destruct (U3 t' eq_refl) as [E1 E2]. split; [done|]. unfold noV4. by rewrite E1. }
  intros t'. apply tri_extract. intros Ht'. eapply tri_seq; [by apply t_smod|]. by apply tri_ret.
Qed.
Lemma t_updateEgressTunnelStatus o v : (∀ t, o = Some t → ownTunnel t) →
  tri tracks (updateEgressTunnelStatus cfg getParent o v) (λ r x, tracks x ∧ ∀ t, r = Some t → ownTunnel t) tracks.
Proof using ST Hm Hparent.
  intros Ho. unfold updateEgressTunnelStatus. eapply (tri_bind _ _ _ (λ _, tracks)); [by apply t_scall|]. intros parent.
  eapply (tri_bind _ _ _ (λ r x, tracks x ∧ ∀ t, r = Some t → ownTunnel t)).
  { destruct o as [t|]; [by apply tri_ret|]. eapply tri_post; [apply t_getTunnel| |done]. cbn. intros r x [Hx Hr]. split; [done|].
    intros t Ht. destruct (Hr t Ht) as (? & ? & _). by split. }
  intros r. apply tri_extract. intros Hr. destruct r as [t|]; [|by apply tri_ret].
  pose proof (refreshTunnel_same cfg parent v t) as Hsame. destruct (refreshTunnel cfg parent v t) as [t1 b]. cbn in Hsame. destruct Hsame as [E1 E2].
  assert (ownTunnel t1) as Ht1 by (destruct (Hr t eq_refl); unfold ownTunnel, noV4; by rewrite E1, E2).
  destruct b; [|apply tri_ret; intros x Hx; split; [done|]; by intros t2 [= <-]].
  eapply tri_bind; [by apply t_updateTunnelStatus|]. intros t2. apply tri_extract. intros Ht2. apply tri_ret. intros x Hx. split; [done|]. by intros t3 [= <-].
Qed.

(** An entry for a stored tunnel, for this node, or taken out. *)
Lemma tracks_insert s w key p : tracks (s, w) → (key = own → ownEntry p) → (key ≠ own → ∃ t, m !! key = Some t ∧ peerOfTunnel (version cfg) p t) →
  tracks (set_peerMap (<[key := p]> (peerMap s)) s, w).
Proof using.
  intros ([Ha Hb] & Ho & Hw) H1 H2. split_and!; [|done|done]. cbn. split.
  - intros k q [[<- <-]|[_ Hq]]%lookup_insert_Some Hne; [by apply H2|by apply Ha].
  - intros q [[Hk <-]|[_ Hq]]%lookup_insert_Some; [by apply H1|by apply Hb].
Qed.
Lemma tracks_delete s w key : tracks (s, w) → tracks (set_peerMap (delete key (peerMap s)) s, w).
Proof using.
  intros ([Ha Hb] & Ho & Hw). split_and!; [|done|done]. cbn. split.
  - intros k q [_ Hq]%lookup_delete_Some. by apply Ha.
  - intros q [_ Hq]%lookup_delete_Some. by apply Hb.
Qed.
Lemma t_setOwn v : ownEntry v → keepsInv tracks (smod (λ s, set_peerMap (<[own := v]> (peerMap s)) s)).
Proof using. intros Hv. apply inv_smod. intros s w Hs. by apply tracks_insert. Qed.

Lemma t_ensureEgressTunnelStatus t : ownTunnel t → keepsInv tracks (ensureEgressTunnelStatus cfg getParent t).
Proof using ST Hm Hparent.
  intros Ht. unfold ensureEgressTunnelStatus. cbv zeta. eapply (tri_bind _ _ _ (λ t' x, tracks x ∧ ownTunnel t')).
  - case_match; [|by apply tri_ret]. eapply tri_bind; [apply t_updateEgressTunnelStatus; by intros t' [= <-]|]. intros r. apply tri_extract. intros Hr.
    apply tri_ret. intros x Hx. split; [done|]. destruct r as [t'|]; [by apply Hr|done].
  - intros t'. apply tri_extract. intros [_ H6]. destruct (parseVTEP cfg (t_Status t')) as [v|] eqn:Ev; [|apply inv_ret]. apply t_setOwn. by eapply parseVTEP_own.
Qed.

Lemma t_reconcileEgressTunnel req : keepsInv tracks (reconcileEgressTunnel cfg rr order getParent req).
Proof using ST Hm Hparent.
  unfold reconcileEgressTunnel. eapply tri_bind; [apply t_getTunnel|]. intros r. apply tri_extract. intros Hr. cbv zeta. as_inv.
  set (live := match r with Some n => if om_Deleting (t_Meta n) then None else Some n | None => None end).
  assert (∀ t, live = Some t → om_Name (t_Meta t) = nn_Name req ∧ noV4 t ∧ (nn_Name req ≠ own → m !! nn_Name req = Some t)) as Hl.
  { intros t Ht. apply Hr. destruct r as [t0|]; [|done]. cbn in Ht. by destruct (om_Deleting _). }
  destruct live as [t|].
  - destruct (Hl t eq_refl) as (Hn & H6 & Hst). destruct (bool_decide (nn_Name req ≠ own)) eqn:Ep.
    + apply bool_decide_eq_true in Ep. case_decide; [apply inv_ret|]. destruct (ParseMAC (t_MAC t)) as [mac|] eqn:Emac; [|apply inv_ret].
      apply inv_bind; [apply inv_smod|intros []; walk; apply t_loggedAs; [apply t_ensureRoute|apply t_ensurePeer]].
      intros s w Hs. rewrite Hn. apply tracks_insert; [done|by intros ?|]. intros _. exists t. split; [by apply Hst|]. by exists mac.
    + apply bool_decide_eq_false in Ep. apply dec_stable in Ep. walk. apply t_ensureEgressTunnelStatus. split; [congruence|done].
  - destruct (bool_decide _); [|apply inv_ret]. apply inv_bind; [apply inv_smod; intros s w; apply tracks_delete|]. intros []. walk. apply t_loggedAs, t_ensureRoute.
Qed.
Lemma t_reconcileEgressGateway req : keepsInv tracks (reconcileEgressGateway cfg rr order req).
Proof using ST.
  unfold reconcileEgressGateway, getEgressTunnelByEgressGateway. walk; try (apply t_logError); try (apply t_loggedAs, t_ensurePeer).
  apply t_scall. intros w. unfold getOrAbsent, mbind_, attempt. pose proof (st_getGateway (nn_Name req) w).
  destruct (vaGetGateway (nn_Name req) w) as [w' [g|e|p|]]; cbn in *; try done. by destruct (IsNotFound e).
Qed.
Lemma t_initTunnelPeerMap : keepsInv tracks (initTunnelPeerMap cfg).
Proof using ST Hm.
  unfold initTunnelPeerMap. eapply (tri_bind _ _ _ (λ l x, tracks x ∧ Forall noV4 l)).
  - apply tri_scall. intros s w Hs. destruct (st_list w) as [Hw Hl]. pose proof (tracks_stored s w (vaListTunnels w).1 Hw Hs) as Hs'.
    destruct Hs as (_ & Hother & Hown). destruct (vaListTunnels w) as [w' [l|e|p|]]; cbn in *; try done. split; [done|]. apply Forall_forall. intros t Ht.
    destruct (Hl l t eq_refl Ht) as [n Hn]. destruct (decide (n = own)) as [->|Hne]; [by apply Hown|]. rewrite Hother in Hn by done. by eapply Hm.
  - intros l. apply tri_extract. intros Hl. apply inv_foreach. intros t [] Ht. rewrite Forall_forall in Hl. case_decide; [|apply inv_ret].
    destruct (parseVTEP cfg (t_Status t)) as [v|] eqn:Ev; [|apply inv_ret]. apply t_setOwn. by eapply parseVTEP_own; [apply Hl|].
Qed.
Lemma t_initRedo fuel : keepsInv tracks (initRedo cfg fuel).
Proof using ST Hm.
  induction fuel as [|fuel IH]; [apply inv_lift|]. cbn [initRedo]. walk; [apply t_initTunnelPeerMap|apply t_logError|apply IH].
Qed.
Lemma t_vxlan_Reconcile fuel req : keepsInv tracks (vxlan_Reconcile cfg rr order getParent fuel req).
Proof using ST Hm Hparent.
  unfold vxlan_Reconcile. walk; first [apply t_initRedo|by apply t_smod|apply t_reconcileEgressTunnel|apply t_reconcileEgressGateway].
Qed.
Lemma t_keepVXLAN : keepsInv tracks (keepVXLAN cfg rr order getParent).
Proof using ST Hm Hparent.
  unfold keepVXLAN. walk; try apply t_logError; try apply t_ensureRoute; try (apply t_loggedAs, t_ensurePeer).
  - eapply tri_post; [apply (t_updateEgressTunnelStatus None); by intros ?| |done]. by intros r x [? _].
  - apply t_onDevice. intros m0. apply kept_EnsureLink; [done|]. intros v. by apply st_call.
  - apply t_loggedAs, t_scall, inv_stored. intros m0. by apply kept_PurgeStaleRules.
Qed.
Lemma t_heartbeat errText : keepsInv tracks (syncLastHeartbeatTime cfg errText).
Proof using ST Hm.
  unfold syncLastHeartbeatTime. eapply tri_seq; [by apply t_smod|].
  eapply (tri_bind _ _ _ (λ r x, tracks x ∧ ∀ t, r = inl (Some t) → ownTunnel t)).
  { eapply tri_post; [apply tri_attempt, t_getTunnel| |done]. intros [r|e]; [|by intros x Hx; split; [|intros t]]. intros x [Hx Hr]. split; [done|].
    intros t [= ->]. destruct (Hr t eq_refl) as (? & ? & _). by split. }
  intros r. apply tri_extract. intros Hr. as_inv. destruct r as [[t|]|e]; [|apply inv_ret|walk; [apply t_logError|by apply t_smod]].
  apply inv_bind.
  - apply inv_attempt. eapply tri_post; [apply t_updateTunnelStatus; by apply Hr| |done]. by intros t' x [? _].
  - intros r. walk; [apply t_logError|by apply t_smod].
Qed.

(** *** The event of a tunnel enters its peer *)

Section enter.
Context (pm : gmap string Peer).
Abbreviation K := (λ x : vxlanReconciler * W, peerMap x.1 = pm).
Lemma k_loggedAs {A} msg (c : VM A) : keepsInv K c → keepsInv K (loggedAs msg c).
Proof using. intros Hc. unfold loggedAs. walk; [done|]. by apply inv_smod. Qed.
Lemma k_onDevice {A} (c : M (option Vxlan * W) A) : keepsInv K (onDevice c).
Proof using. intros [s w] Hs. unfold onDevice. cbn [fst snd]. by destruct (c (vx_device s, w)) as [[d w'] [a|e|p|]]. Qed.
Lemma k_ensureRoute : keepsInv K (ensureRoute cfg order).
Proof using. unfold ensureRoute. apply inv_bind; [apply k_onDevice|]. intros l. walk; apply k_loggedAs, k_onDevice. Qed.
Lemma k_ensurePeer p : keepsInv K (ensurePeer cfg rr p).
Proof using. by apply inv_scall. Qed.
End enter.

(** A tunnel of another node that is not being deleted and has the address of its node and a hardware address is in the map after its event, whatever
    calls of the kernel failed. *)
Lemma event_enters_peer req t mac x y : tracks x → nn_Name req ≠ own → m !! nn_Name req = Some t → om_Deleting (t_Meta t) = false →
  parentText (version cfg) t ≠ "" → ParseMAC (t_MAC t) = Some mac → reconcileEgressTunnel cfg rr order getParent req x = (y, Ret done_) →
  peerMap y.1 !! nn_Name req = Some (peerOf (ParseIP (parentText (version cfg) t)) mac (t_Status t)).
Proof using ST.
  intros Hx Hne Ht Hdel Hpar Hmac E. set (p := peerOf _ mac (t_Status t)).
  assert (tri (λ x', x' = x) (reconcileEgressTunnel cfg rr order getParent req) (λ _ x', peerMap x'.1 !! nn_Name req = Some p) (λ _, True)) as Htri.
  { unfold reconcileEgressTunnel. eapply (tri_bind _ _ _ (λ r _, r = Some t ∧ om_Name (t_Meta t) = nn_Name req)).
    - apply tri_scall. intros s w <-. destruct Hx as (_ & Hother & _). cbn in Hother. destruct (st_get req w) as (_ & Hg & Hn). unfold getOrAbsent, mbind_, attempt.
      rewrite Hother, Ht in * by done. destruct (vaGetTunnel req w) as [w' [t'|e|q|]]; cbn in *; try done.
      + destruct (Hg t' eq_refl) as [[= <-] ?]. done.
      + destruct (IsNotFound e) eqn:En; [|done]. by specialize (Hn e eq_refl En).
    - intros r. apply tri_here. intros s1 [-> Hname]. rewrite Hdel, bool_decide_eq_true_2 by done. cbv zeta. fold (parentText (version cfg) t).
      rewrite (decide_False (P := parentText (version cfg) t = "")) by done. rewrite Hmac. fold p. rewrite Hname.
      eapply (tri_seq _ _ _ (λ x', peerMap x'.1 = <[nn_Name req := p]> (peerMap s1.1))); [apply tri_smod; by intros s w <-|].
      eapply tri_post; [apply (inv_bind (λ x', peerMap x'.1 = <[nn_Name req := p]> (peerMap s1.1))); [apply k_loggedAs, k_ensureRoute|intros ?; walk; apply k_loggedAs, k_ensurePeer]| |done].
      intros a x' Hx'. cbv beta in Hx'. by rewrite Hx', lookup_insert_eq. }
  specialize (Htri x eq_refl). by rewrite E in Htri.
Qed.
End agent.

(** ** From the controller to the kernel *)

(** The agent's handlers and loops, with any orders of its maps. *)
Section runs.
Context {W : Type} `{NL : !Netlink W} `{VA : !VxlanApi W} (cfg : vxlanConfig) (rr : RuleRoute) (getParent : Z → M W ParentLink) (errText : error → string).
Inductive vxlan_step : vxlanReconciler * W → vxlanReconciler * W → Prop :=
| vs_event order fuel req x : vxlan_step x (vxlan_Reconcile cfg rr order getParent fuel req x).1
| vs_turn order x : vxlan_step x (keepVXLAN cfg rr order getParent x).1
| vs_heartbeat x : vxlan_step x (syncLastHeartbeatTime cfg errText x).1.

Context (stored : W → gmap string EgressTunnel) `{ST : !StoredTunnels W stored} (Hparent : ∀ v w, stored (getParent v w).1 = stored w).
Lemma run_tracks m x y : (∀ n t, m !! n = Some t → noV4 t) → rtc vxlan_step x y → tracks stored cfg m x → tracks stored cfg m y.
Proof using ST Hparent.
  intros Hm. assert (∀ A (c : M (vxlanReconciler * W) A) x, keepsInv (tracks stored cfg m) c → tracks stored cfg m x → tracks stored cfg m (c x).1) as Hk.
  { intros A c x0 Hc Hx. specialize (Hc x0 Hx). by destruct (c x0).2. }
  induction 1 as [|x1 x2 x3 Hs _ IH]; [done|]. intros Hx. apply IH. destruct Hs; apply Hk; try done; first [by apply t_vxlan_Reconcile|by apply t_keepVXLAN|by apply t_heartbeat].
Qed.

(** A turn that comes to its end has found the tunnel of this node. *)
Lemma turn_own order x y : keepVXLAN cfg rr order getParent x = (y, Ret 10) →
  ∃ vtep v4 v6, peerMap x.1 !! cf_NodeName cfg = Some vtep ∧ vtepNets cfg vtep = Ret (v4, v6).
Proof using.
  unfold keepVXLAN, mbind_ at 1, sget. destruct (peerMap x.1 !! cf_NodeName cfg) as [vtep|]; [|by intros [= _ ?]].
  unfold mbind_ at 1, lift at 1. destruct (vtepNets cfg vtep) as [[v4 v6]|e|q|] eqn:E; try done. intros _. by exists vtep, v4, v6.
Qed.
End runs.

(** The kernel sends packets to the node of a tunnel: the addresses of the tunnel have its hardware address, which is behind the address of
    its node; and packets with the mark of the tunnel have one rule, to the table of that number, where all routes lead to the tunnel. *)
Definition leadsTo (rr : RuleRoute) (v i : Z) (t : EgressTunnel) (k : kernel) : Prop :=
  ∃ mac, ParseMAC (t_MAC t) = Some mac ∧ k_fdb k !! (i, mac) = Some (ParseIP (parentText v t)) ∧
  ∀ ip f, (ip, f) ∈ [(To4 (ParseIP (t_IPv4 t)), FAMILY_V4); (To16 (ParseIP (t_IPv6 t)), FAMILY_V6)] → ip ≠ [] →
    k_arp k !! (i, IPString ip) = Some mac ∧
    ∀ mark, parseMark (t_Mark t) = Ret mark → mark ≠ 0 → ruleIs (rr_priority rr) mark mark k f ∧ routeIs (Some ip) mark k f.

Lemma nonNil_Some ip : ip ≠ [] → nonNil ip = Some ip.
Proof. by destruct ip. Qed.
(** The two agents on a node read one mark from a text that the controller wrote. *)
Lemma parseMark_peer mark v : (mark = "" ∨ ∃ n, Parse mark = Ret n) → parseMark mark = Ret v → parseMarkToInt mark = Ret v.
Proof.
  intros [->|[n Hn]] H; [by vm_compute in H|]. unfold parseMark in H. unfold parseMarkToInt. destruct (ParseInt16_32 _) as [u|e|q|] eqn:E; try done.
  simpl in H. injection H as <-. pose proof (ParseInt_Parse _ _ _ Hn E) as ->. apply ParseUint16_range in Hn as [Hpos _]. f_equal. symmetry. apply Z.mod_small.
  apply ParseInt_range in E. lia.
Qed.

Section claim.
Context {V T : Type} `{TL : TunnelLaws V} `{AL : AllocLaws T}.
Context {W : Type} `{NL : !Netlink W} (kern : W → kernel) `{HL : !NetlinkLaws W kern} `{VA : !VxlanApi W} (stored : W → gmap string EgressTunnel) `{ST : !StoredTunnels W stored}.
Context (cfg : vxlanConfig) (rr : RuleRoute) (order : nat → MapOrder) (getParent : Z → M W ParentLink) (errText : error → string).

(** A peer that is linked and routed leads to its tunnel. *)
Lemma peer_leads i p t k : t_Mark t = "" ∨ (∃ n, Parse (t_Mark t) = Ret n) → peerOfTunnel (version cfg) p t → peerLinked i p k → (pr_Mark p ≠ 0 → routed rr p k) →
  leadsTo rr (version cfg) i t k.
Proof using.
  intros Hww (mac & Hmac & ->) [Harp Hfdb] Hr. cbn in Harp, Hfdb, Hr. exists mac. split_and!; [done|done|]. intros ip f Hin Hip.
  assert (∀ mark, parseMark (t_Mark t) = Ret mark → parseMarkToInt (t_Mark t) = Ret mark) as Hmk by (intros; by apply parseMark_peer).
  apply elem_of_cons in Hin as [[= -> ->]|[[= -> ->]|[]%elem_of_nil]%elem_of_cons]; (split; [apply Harp; rewrite (nonNil_Some _ Hip); by auto|]);
    intros mark Hp Hz; rewrite (Hmk mark Hp) in Hr; specialize (Hr Hz); unfold routed, peerRouted in Hr; cbn in Hr; rewrite (nonNil_Some _ Hip), (Hmk mark Hp) in Hr;
    destruct Hr as (R4 & R6 & T4 & T6); split; eauto.
Qed.

Lemma tunnels_programmed (s0 s : egReconciler (Range T) (IPRange T) * V) w0 x y start end_ :
  Inv s0 → rtc tunnel_step s0 s → wellWritten s.1 (tunnels s.2) →
  stored w0 = tunnels s.2 → (∀ v w, stored (getParent v w).1 = stored w) →
  rtc (vxlan_step cfg rr getParent errText) (newVxlanReconciler cfg, w0) x →
  RangeSize (cf_Mark cfg) = Ret (start, end_) → keepVXLAN cfg rr order getParent x = (y, Ret 10) → errorLog y.1 = errorLog x.1 →
  ∃ l vtep v4 v6, peerMap x.1 !! cf_NodeName cfg = Some vtep ∧ vtepNets cfg vtep = Ret (v4, v6) ∧ linkedDevice cfg v4 v6 l (kern y.2) ∧
    (∀ n p, peerMap x.1 !! n = Some p → n ≠ cf_NodeName cfg → ∃ t, tunnels s.2 !! n = Some t ∧ leadsTo rr (version cfg) (vx_Index l) t (kern y.2)) ∧
    (∀ f rule, f = FAMILY_V4 ∨ f = FAMILY_V6 → rule ∈ rulesOf (kern y.2) f → start <= rl_Mark rule <= end_ → rl_Mark rule ≠ 0 →
       ∃ n t, n ≠ cf_NodeName cfg ∧ tunnels s.2 !! n = Some t ∧ parseMarkToInt (t_Mark t) = Ret (rl_Mark rule)).
Proof using HL ST.
  intros HI Hrun Hww Hw0 Hparent Hx Hrange Hturn Hlog. pose proof (tunnel_runs _ _ HI Hrun) as Hok. set (m := tunnels s.2) in *.
  assert (tracks stored cfg m x) as ([Hother Hown] & _).
  { eapply (run_tracks cfg rr getParent errText stored Hparent m); [exact (ww_v6 _ _ Hww)|exact Hx|]. split; [done|split; [by intros n _; cbn; rewrite Hw0|]]. cbn. intros t. rewrite Hw0. apply (ww_v6 _ _ Hww). }
  destruct (turn_own cfg rr getParent order x y Hturn) as (vtep & v4 & v6 & Hv & Hnets).
  destruct (tunnels_apart s.1 m Hok Hww (version cfg) (cf_NodeName cfg) (peerMap x.1) ltac:(by split)) as (Ha & Hm & Hf).
  pose proof (q_keepVXLAN kern cfg rr order (length (errorLog x.1)) (peerMap x.1) Ha Hm Hf getParent vtep v4 v6 start end_ Hv Hnets Hrange x) as Hq.
  rewrite Hturn in Hq. destruct Hq as [_ HP]; [by split|]. destruct HP as ((l & Hdev & Hall) & Hrt & Hrules); [simpl; by rewrite Hlog|done|].
  exists l, vtep, v4, v6. split_and!; [done|done|done|..].
  - intros n p Hp Hne. destruct (Hother n p Hp Hne) as (t & Ht & Hpt). exists t. split; [done|].
    eapply peer_leads; [by eapply (ww_mark _ _ Hww)|done|by eapply Hall|]. intros Hz. by eapply Hrt.
  - intros f rule Hfam Hin Hr Hz. destruct (Hrules f rule Hfam Hin Hr) as (key & p & Hp & Hmk).
    destruct (decide (key = cf_NodeName cfg)) as [->|Hne]; [destruct (Hown p Hp); congruence|]. destruct (Hother key p Hp Hne) as (t & Ht & mac & _ & ->).
    exists key, t. split_and!; [done|done|]. cbn in Hmk. destruct (parseMarkToInt (t_Mark t)); congruence.
Qed.

End claim.
