(* ===== verification/DataPathStore.v ===== *)
(** * Two nodes and a controller

    A world for the theorem on tunnels from the controller to the kernel: the kernel of a node next to
    the stored tunnels, which the calls of netlink do not see. *)

From S2P Require Import Prelude GoStd Allocator MarkAllocator Pool GoNet GoFmt IPUtil IPAllocator Types ApiServer Utils Triple StateM Sha1 Tunnel TunnelTheorems TunnelStore Netlink Route VxlanDevice Vxlan VxlanTheorems VxlanStore DataPath.
Open Scope Z_scope.

Definition nodeWorld : Type := netWorld * gmap string EgressTunnel.
(** A call of the kernel. *)
Definition onNet {A} (c : M netWorld A) : M nodeWorld A := λ w, let '(n, o) := c w.1 in ((n, w.2), o).
#[export] Instance nodeWorld_netlink : Netlink nodeWorld := {|
  nlRules f := onNet (nlRules f); RuleDel r := onNet (RuleDel r); RuleAdd r := onNet (RuleAdd r);
  nlRoutes f := onNet (nlRoutes f); RouteDel r := onNet (RouteDel r); RouteAdd r := onNet (RouteAdd r);
  LinkByName n := onNet (LinkByName n); LinkByIndex i := onNet (LinkByIndex i); LinkAdd v := onNet (LinkAdd v); LinkDel l := onNet (LinkDel l);
  LinkSetUp v := onNet (LinkSetUp v); AddrList n f := onNet (AddrList n f); AddrDel n a := onNet (AddrDel n a); AddrAdd n i := onNet (AddrAdd n i);
  NeighList i f := onNet (NeighList i f); NeighSet nb := onNet (NeighSet nb); NeighDel nb := onNet (NeighDel nb);
  procOpen p := onNet (procOpen p); procWrite p v := onNet (procWrite p v); EthtoolTXOff n := onNet (EthtoolTXOff n)
|}.
Definition nodeKernel (w : nodeWorld) : kernel := nw_kernel w.1.
Lemma onNet_effect {A} (c : M netWorld A) R : effect nw_kernel c R → effect nodeKernel (onNet c) R.
Proof. intros H [w m]. specialize (H w). unfold onNet, nodeKernel. cbn. by destruct (c w) as [w' o]. Qed.
Lemma onNet_reads {A} (c : M netWorld A) P : reads nw_kernel c P → reads nodeKernel (onNet c) P.
Proof. apply onNet_effect. Qed.
Lemma onNet_stored {A} (c : M netWorld A) w : (onNet c w).1.2 = w.2.
Proof. unfold onNet. by destruct (c w.1). Qed.
#[export] Instance nodeWorld_laws : NetlinkLaws nodeWorld nodeKernel.
Proof.
  split; intros; first [apply onNet_effect|apply onNet_reads];
    first [apply law_rules|apply law_RuleDel|apply law_RuleAdd|apply law_routes|apply law_RouteDel|apply law_RouteAdd|apply law_LinkByName|apply law_LinkByIndex|apply law_LinkAdd
    |apply law_LinkDel|apply law_LinkSetUp|apply law_AddrList|apply law_AddrDel|by apply law_AddrAdd|apply law_NeighList|apply law_NeighSet|apply law_NeighDel|apply law_procOpen|apply law_procWrite|apply law_EthtoolTXOff].
Qed.
#[export] Instance nodeWorld_api : VxlanApi nodeWorld := {|
  vaGetTunnel n w := (w, match w.2 !! nn_Name n with
    | Some t => if decide (om_Name (t_Meta t) = nn_Name n) then Ret t else Err (ErrApi OtherApi)
    | None => Err (ErrApi NotFound)
    end);
  vaGetGateway n w := (w, Err (ErrApi NotFound));
  vaListTunnels w := (w, Ret (map_to_list w.2).*2);
  vaListGateways w := (w, Ret []);
  vaUpdateTunnelStatus t w := ((w.1, <[om_Name (t_Meta t) := t]> w.2), Ret t);
  vaNow w := (w, Ret (nw_now w.1))
|}.
#[export] Instance nodeWorld_stored : StoredTunnels nodeWorld snd.
Proof.
  split; intros; try (apply onNet_stored); try done.
  - split; [done|]. split; cbn; intros x; destruct (w.2 !! nn_Name n) as [t|]; try done; case_decide; try done; intros [= <-]; done.
  - split; [done|]. cbn. intros l t [= <-] ([n t'] & -> & Hin%elem_of_map_to_list)%list_elem_of_fmap. by exists n.
  - cbn. split_and!.
    + intros n Hn. by rewrite lookup_insert_ne.
    + intros t' Ht'. rewrite lookup_insert_eq in Ht'. injection Ht' as <-. by right.
    + by intros t' [= <-].
Qed.

(** ** A run *)

Section run.
#[local] Existing Instance rand_zero.

(** The agent of a node tells the address of its node; nothing else of the tunnel changes. *)
Definition tellParent (ip : string) (t : EgressTunnel) : EgressTunnel :=
  set_Tunnel t (mkTunnel (t_IPv4 t) (t_IPv6 t) (t_MAC t) (mkParent "eth0" ip "")).
Abbreviation CS := (egReconciler (Range AllocationBitmap) (IPRange AllocationBitmap) * TStore)%type.
Definition told (n ip : string) (s : CS) : CS := (s.1, TunnelStore.with_tunnels s.2 (alter (tellParent ip) n (tunnels s.2))).
Lemma told_step n ip (s : CS) : meta_ok (tunnels s.2) → tunnel_step s (told n ip s).
Proof.
  intros Hm. destruct s as [r w]. apply step_others. cbn. intros n' t' Ht'. rewrite lookup_alter in Ht'. destruct (decide (n = n')) as [->|Hne].
  - destruct (tt_tunnels w !! n') as [t|] eqn:E; [|done]. injection Ht' as <-. destruct (Hm n' t E) as [? ?]. split; [done|]. right. by exists t.
  - destruct (Hm n' t' Ht') as [? ?]. split; [done|]. right. by exists t'.
Qed.

(** A controller with the marks of the default configuration. *)
Definition fleetConfig : FileConfig := mkFileConfig "0x26000000" true "172.31.0.0/16" true "fd11::/112".
Definition fleetController : egReconciler (Range AllocationBitmap) (IPRange AllocationBitmap) :=
  match NewEgressTunnelController fleetConfig with Ret r => r | _ => sampleController end.
Lemma fleetController_empty : restored fleetController [].
Proof.
  apply (new_controller_empty fleetConfig); [reflexivity|by vm_compute|..].
  - intros ip net E. vm_compute in E. injection E as <- <-. split; [intros Hx; discriminate|by vm_compute].
  - intros ip net E. vm_compute in E. injection E as <- <-. split; [intros _|]; by vm_compute.
Qed.
Abbreviation onTunnel n s := (reconcileEGN (W := TStore) (MA := Range AllocationBitmap) (IA := IPRange AllocationBitmap) noFailover n s).1.
Abbreviation onNode n s := (reconcileTunnelNode (W := TStore) (MA := Range AllocationBitmap) (IA := IPRange AllocationBitmap) noFailover n s).1.

(** Two nodes come up, the controller makes their tunnels and gives them numbers, and their agents tell their addresses. *)
Definition controllerStart : CS := (fleetController, noTunnels).
Definition bothUp : CS := onTunnel "node2" (onNode "node2" (onTunnel "node1" (onNode "node1" controllerStart))).
Definition controllerRun : CS := told "node2" "192.168.0.2" (told "node1" "192.168.0.1" bothUp).
Lemma controllerRun_steps : rtc tunnel_step controllerStart controllerRun.
Proof.
  assert (rtc tunnel_step controllerStart bothUp) as Hup.
  { unfold bothUp.
    eapply rtc_l; [apply (step_node noFailover "node1"); left; vm_compute; reflexivity|].
    eapply rtc_l; [apply (step_tunnel noFailover "node1"); intros _; vm_compute; reflexivity|].
    eapply rtc_l; [apply (step_node noFailover "node2"); left; vm_compute; reflexivity|].
    eapply rtc_l; [apply (step_tunnel noFailover "node2"); intros _; vm_compute; reflexivity|]. apply rtc_refl. }
  assert (Inv controllerStart) as HI by (apply Inv_none; [apply fleetController_empty|done]).
  assert (rtc tunnel_step controllerStart (told "node1" "192.168.0.1" bothUp)) as H1.
  { eapply rtc_r; [exact Hup|]. apply told_step. by apply (to_meta _ _ (tunnel_runs _ _ HI Hup)). }
  eapply rtc_r; [exact H1|]. apply told_step. by apply (to_meta _ _ (tunnel_runs _ _ HI H1)).
Qed.

(** The agent of node1. *)
Definition nodeCfg : vxlanConfig :=
  mkVxlanConfig "node1" true true "egress.vxlan" 100 7789 false (mkIPNet (ParseIP "172.31.0.0") (CIDRMask 16 4)) (mkIPNet (ParseIP "fd11::") (CIDRMask 112 16)) "0x26000000" 5.
Definition node0 : nodeWorld := (mkNetWorld kernel0 [] [] 7, tunnels controllerRun.2).
Definition nodeParent : Z → M nodeWorld ParentLink := λ v, onNet (GetParentByName "eth0" v).
Definition onEvent (n : string) (x : vxlanReconciler * nodeWorld) : vxlanReconciler * nodeWorld :=
  (vxlan_Reconcile nodeCfg rr1 inOrder nodeParent 1 (mkNN "EgressTunnel/" n) x).1.
Definition onTurn (x : vxlanReconciler * nodeWorld) : vxlanReconciler * nodeWorld := (keepVXLAN nodeCfg rr1 inOrder nodeParent x).1.
(** It starts, hears of both tunnels, and makes a turn. *)
Definition agentRun : vxlanReconciler * nodeWorld := onTurn (onEvent "node1" (onEvent "node2" (newVxlanReconciler nodeCfg, node0))).

(** The tunnels that are stored. *)
Definition made1 : EgressTunnel := Eval vm_compute in default zeroTunnel (tunnels controllerRun.2 !! "node1").
Definition made2 : EgressTunnel := Eval vm_compute in default zeroTunnel (tunnels controllerRun.2 !! "node2").
Lemma stored_two n t : tunnels controllerRun.2 !! n = Some t → (n = "node1" ∧ t = made1) ∨ (n = "node2" ∧ t = made2).
Proof.
  intros H. apply elem_of_map_to_list in H. vm_compute in H. apply elem_of_cons in H as [[= -> ->]|H]; [by left|].
  apply elem_of_cons in H as [[= -> ->]|H]; [by right|]. by apply elem_of_nil in H.
Qed.
Lemma controllerRun_written : wellWritten controllerRun.1 (tunnels controllerRun.2).
Proof.
  split.
  - intros n n' t t' mac [[-> ->]|[-> ->]]%stored_two [[-> ->]|[-> ->]]%stored_two E E'; first [reflexivity|exfalso; vm_compute in E, E'; congruence].
  - intros n t [[-> ->]|[-> ->]]%stored_two; right; eexists; vm_compute; reflexivity.
  - intros n t [[-> ->]|[-> ->]]%stored_two; vm_compute; reflexivity.
  - intros n t _. split; intros _; by vm_compute.
Qed.

End run.
