(* ===== verification/ClusterPath.v ===== *)
(** * From the nodes to the sets of an agent

    The cluster-info controller and the agents joined: the addresses of nodes, pools and
    user blocks end in the sets that keep traffic inside the cluster away from the egress
    rules. *)

From S2P Require Import Prelude GoStd GoNet GoFmt Types Utils ApiServer Store Sha1 IPUtil EndpointSlice Triple StateM IptablesRule IptablesTable IPSet IPSetLaws Police PoliceSets PoliceInfo PoliceStore ClusterInfo ClusterInfoTheorems ClusterInfoStore.
Open Scope nat_scope.

(** An entry that is in line has the items that are wanted. *)
Lemma entry_items e v4 v6 item : entryIs e (Some (v4, v6)) → item ∈ v4 ++ v6 → ∃ p, e = Some p ∧ item ∈ ipsOf p.
Proof. destruct e as [p|]; [|done]. intros [H4 H6] Hin. exists p. split; [done|]. unfold ipsOf. by rewrite H4, H6. Qed.

(** The items of the cluster that the requests were about, and the text that stands for an item in a set. *)
Inductive clusterItem (v : infoView) (i : EgressClusterInfo) (reqs : list NamespacedName) (b : bool) (y : string) : Prop :=
| item_node n v4 v6 item : TNode n ∈ omap targetOf reqs → ad_NodeIP (cis_AutoDetect (ci_Spec i)) = true → wantNode v n = Some (v4, v6) →
    item ∈ v4 ++ v6 → addrText b item y → clusterItem v i reqs b y
| item_pool n v4 v6 item : TPool n ∈ omap targetOf reqs → podMode i = true → wantPool v n = Some (v4, v6) →
    item ∈ v4 ++ v6 → netText b item y → clusterItem v i reqs b y
| item_extra item : TInfo defaultName ∈ omap targetOf reqs → item ∈ cis_ExtraCidr (ci_Spec i) → netText b item y → clusterItem v i reqs b y.

Lemma item_inside v i reqs b y : iv_infos v !! defaultName = Some i → om_Deleting (ci_Meta i) = false → (∀ t, t ∈ omap targetOf reqs → synced v t) →
  clusterItem v i reqs b y → inside b (ci_Status i) y.
Proof.
  intros Hi Hdel Hs [n v4 v6 item Hr Ha Hw Hin Ht|n v4 v6 item Hr Ha Hw Hin Ht|item Hr Hin Ht].
  - pose proof (Hs _ Hr i Hi Ha) as He. rewrite Hw in He. destruct (entry_items _ _ _ _ He Hin) as (p & Hp & Hit). left. by exists n, p, item.
  - pose proof (Hs _ Hr i Hi Ha) as He. rewrite Hw in He. destruct (entry_items _ _ _ _ He Hin) as (p & Hp & Hit). right; left. by exists n, p, item.
  - pose proof (Hs _ Hr i Hi Hdel) as He. right; right; right. exists item. by rewrite <- He.
Qed.

(** C16. What the cluster-info controller finds is what the agents keep inside.  After a run of the controller over any requests, each handled
    without an error, let an agent read the cluster info that is stored and handle it without an error.  Then the agent's two sets have exactly the addresses
    and blocks of the stored status, and among them every address of every requested node that is there (with node detection), every block
    of every requested pool (where pools are watched) and every block of the user (when the info object was requested);
    no other set has changed.  The entries must be texts that the kernel prints as they are ([canonicalEntry]), so no block of a single address.  The egress rules of policies without
    destinations exclude these two sets. *)
Theorem cluster_addresses_stay_inside {V} `{IA : !InfoApi V} (view : V → infoView) `{HL : !InfoLaws view}
    {W} `{LS : LabelSelectors} `{PA : !PoliceApi W} `{IF : !Interface W} `{IL : !InterfaceLaws W} `{SF : !SetFrames W} (so : nat → MapOrder)
    fuel reqs x x' i req w w' res :
  mforeach (λ r _, info_Reconcile fuel r) reqs tt x = (x', Ret tt) →
  iv_infos (view x'.2) !! defaultName = Some i → om_Deleting (ci_Meta i) = false →
  (paGetClusterInfo req w).2 = Ret i → (∀ b y, inside b (ci_Status i) y → canonicalEntry y) →
  reconcileClusterInfo so req w = (w', Ret res) →
  ∃ m4 m6, sets w' = <[EgressClusterCIDRIPv6 := m6]> (<[EgressClusterCIDRIPv4 := m4]> (sets w)) ∧
    ∀ (b : bool) y, let m := if b then m4 else m6 in
      (y ∈ m ↔ inside b (ci_Status i) y) ∧ (clusterItem (view x.2) i reqs b y → y ∈ m).
Proof.
  intros Hrun Hi Hdel Hget Hc E. pose proof (run_syncs view fuel reqs (view x.2) x eq_refl) as Hs. rewrite Hrun in Hs. cbn [fst snd] in Hs. destruct Hs as [[Hn Hp] Hs].
  pose proof (tri_reconcileClusterInfo so req w i Hget Hdel) as H.
  specialize (H ltac:(intros b y ?; by eapply member_canonical, Hc) w eq_refl). rewrite E in H. cbn in H. eexists _, _. split; [exact H|]. intros b y. cbv zeta.
  assert (y ∈ (if b then list_to_set (clusterAddrs so (ci_Status i)).1 else list_to_set (clusterAddrs so (ci_Status i)).2 : gset string) ↔ inside b (ci_Status i) y) as Hiff.
  { rewrite <- (clusterAddrs_elem so b). destruct b; by rewrite elem_of_list_to_set. }
  split; [exact Hiff|]. intros Hit. apply Hiff. eapply (item_inside (view x'.2) i reqs); [done|done|intros t Ht; apply Hs; by left|].
  destruct Hit as [n v4 v6 item ? ? Hw|n v4 v6 item ? ? Hw|item ? ?].
  - apply (item_node _ _ _ _ _ n v4 v6 item); try done. unfold wantNode in *. by rewrite Hn.
  - apply (item_pool _ _ _ _ _ n v4 v6 item); try done. unfold wantPool in *. by rewrite Hp.
  - by apply (item_extra _ _ _ _ _ item).
Qed.

(** *** A run *)

(** The controller hears of everything, and the agent of a node afterwards of the cluster info. *)
Definition infoAfter : EgressClusterInfo := default (ClusterInfoStore.info1 true) (iv_infos (iw_view (infoRun1 infoReqs1 infoStart1).2) !! "default").
Definition node2 : AgentWorld := mkAgentWorld [] [] [] [] [infoAfter] [] [] (aw_sets cluster1) (aw_tables cluster1) [].
Definition agentInfoRun := reconcileClusterInfo so1 (mkNN "" "default") node2.

Lemma cluster_addresses_stay_inside_witness : ∃ m4 m6, sets agentInfoRun.1 = <[EgressClusterCIDRIPv6 := m6]> (<[EgressClusterCIDRIPv4 := m4]> (sets node2)) ∧
  "192.168.0.1" ∈ m4 ∧ "fd00::1" ∈ m6 ∧ ("192.168.0.9" ∉ m4).
Proof.
  destruct (cluster_addresses_stay_inside iw_view (PA := world_api) so1 3 infoReqs1 infoStart1 (infoRun1 infoReqs1 infoStart1) infoAfter (mkNN "" "default") node2 agentInfoRun.1 done_)
    as (m4 & m6 & Hs & Hm).
  - vm_compute. reflexivity.
  - vm_compute. reflexivity.
  - vm_compute. reflexivity.
  - vm_compute. reflexivity.
  - intros b y Hy%(clusterAddrs_elem so1). destruct b; vm_compute in Hy; repeat (apply elem_of_cons in Hy as [->|Hy]; [|]); try by apply elem_of_nil in Hy.
    all: first [by apply (canonical_addr _ [192; 168; 0; 1]%Z)|by apply (canonical_addr _ (ParseIP "fd00::1"))
      |by apply (canonical_net _ "10.244.0.0/16")|by apply (canonical_net _ "10.233.0.0/18")|by apply (canonical_net _ "10.50.0.0/16")|by apply (canonical_net _ "fd00:10::/112")].
  - vm_compute. reflexivity.
  - exists m4, m6. split; [exact Hs|]. split_and!.
    + apply (Hm true "192.168.0.1"). apply (item_node _ _ _ _ _ "node1" ["192.168.0.1"] ["fd00::1"] "192.168.0.1"); try (vm_compute; reflexivity).
      * apply list_elem_of_In. right. by left.
      * by left.
      * split; [vm_compute; reflexivity|]. by vm_compute.
    + apply (Hm false "fd00::1"). apply (item_node _ _ _ _ _ "node1" ["192.168.0.1"] ["fd00::1"] "fd00::1"); try (vm_compute; reflexivity).
      * apply list_elem_of_In. right. by left.
      * by right; left.
      * split; [vm_compute; reflexivity|]. split; by vm_compute.
    + rewrite (proj1 (Hm true "192.168.0.9")), <- (clusterAddrs_elem so1). apply (bool_decide_unpack _). vm_compute. exact I.
Defined.
