(* ===== verification/PodPath.v ===== *)
(** * From the pods to the sets of an agent

    The endpoint-slice controller and the agents joined: the addresses of the pods that a
    policy selects end in the source sets of the policy. *)

From S2P Require Import Prelude GoStd GoNet GoFmt Types Utils ApiServer Store Sha1 IPUtil EndpointSlice Triple IptablesRule IptablesTable IPSet IPSetLaws Police PoliceSets PoliceStore.
Open Scope nat_scope.

(** The addresses of a pod by IP version. *)
Definition podIP (stack : IPStack) (pod : Pod) (ip : string) : Prop :=
  ip ∈ pod_PodIPs pod ∧ match stack with IPv4 => To4 (ParseIP ip) ≠ [] | IPv6 => To4 (ParseIP ip) = [] ∧ To16 (ParseIP ip) ≠ [] end.
Lemma splitPodIPs_elem stack pod ip : ip ∈ (match stack with IPv4 => (splitPodIPs pod).1 | IPv6 => (splitPodIPs pod).2 end) ↔ podIP stack pod ip.
Proof.
  unfold splitPodIPs, podIP. set (f := λ (acc : list string * list string) _, _).
  assert (∀ l acc, ip ∈ (match stack with IPv4 => (foldl f acc l).1 | IPv6 => (foldl f acc l).2 end) ↔
    ip ∈ (match stack with IPv4 => acc.1 | IPv6 => acc.2 end) ∨
    (ip ∈ l ∧ match stack with IPv4 => To4 (ParseIP ip) ≠ [] | IPv6 => To4 (ParseIP ip) = [] ∧ To16 (ParseIP ip) ≠ [] end)) as H.
  { induction l as [|x l IH]; intros acc; cbn [foldl]; [rewrite elem_of_nil; tauto|]. rewrite IH, elem_of_cons. unfold f.
    destruct stack; repeat case_decide; cbn; rewrite ?elem_of_app, ?list_elem_of_singleton; naive_solver. }
  rewrite H. destruct stack; cbn; rewrite elem_of_nil; tauto.
Qed.

(** What an agent makes of slices that publish exactly some pods. *)
Section sources.
Context {S : Type} `{SO : !SliceOps S} (pods : list Pod) (eps : list EgressEndpoint).
Context (Hep : ∀ ep, ep ∈ eps → ∃ pod, pod ∈ pods ∧ up_to_date pod ep)
  (Hpod : ∀ pod, pod ∈ pods → newEndpoint pod ≠ None → ∃ ep, ep ∈ eps ∧ epKey ep = podKey pod) (Hkeys : NoDup (podKey <$> pods)).

Lemma key_pod pod pod' : pod ∈ pods → pod' ∈ pods → podKey pod = podKey pod' → pod = pod'.
Proof using Hkeys.
  intros [i Hi]%list_elem_of_lookup [j Hj]%list_elem_of_lookup E. assert (i = j) as ->; [|congruence].
  eapply (NoDup_lookup (podKey <$> pods)); [done|by rewrite list_lookup_fmap, Hi|rewrite list_lookup_fmap, Hj; cbn; by rewrite E].
Qed.
(** A pod with an address has an endpoint that is up to date. *)
Lemma pod_endpoint stack pod ip : pod ∈ pods → podIP stack pod ip → ∃ ep, ep ∈ eps ∧ up_to_date pod ep.
Proof using Hep Hpod Hkeys.
  intros Hp Hip. destruct (Hpod pod Hp) as (ep & Hin & Hk).
  - apply splitPodIPs_elem in Hip. unfold newEndpoint. destruct (splitPodIPs pod) as [v4 v6]. cbn in Hip.
    destruct (bool_decide (length v4 = 0)) eqn:E4, (bool_decide (length v6 = 0)) eqn:E6; try done.
    apply bool_decide_eq_true, nil_length_inv in E4 as ->. apply bool_decide_eq_true, nil_length_inv in E6 as ->. by destruct stack; apply elem_of_nil in Hip.
  - destruct (Hep ep Hin) as (pod' & Hp' & Hu). exists ep. split; [done|]. replace pod with pod'; [done|]. apply key_pod; [done|done|]. destruct Hu as [E _]. congruence.
Qed.

Lemma sources_elem (filterf : EgressEndpoint → bool) (counts : Pod → Prop) (l : list S) stack ip :
  (∀ pod ep, up_to_date pod ep → filterf ep = true ↔ counts pod) → Forall (λ s, om_Deleting (sliceMeta s) = false) l → allEndpoints l ≡ₚ eps →
  let src := srcIPs filterf ((λ s, (sliceMeta s, Endpoints s)) <$> l) in
  ip ∈ (match stack with IPv4 => src.1 | IPv6 => src.2 end) ↔ ∃ pod, pod ∈ pods ∧ counts pod ∧ podIP stack pod ip.
Proof using Hep Hpod Hkeys.
  intros Hc Hdel Hl src. assert (((λ s, (sliceMeta s, Endpoints s)) <$> l) ≫= (λ '(m, l), if om_Deleting m then [] else l) = allEndpoints l) as Hall.
  { clear -Hdel. induction Hdel as [|s l Hs _ IH]; [done|]. cbn. rewrite Hs. f_equal. exact IH. }
  assert (∀ ep, ep ∈ filter (λ e, filterf e = true) (allEndpoints l) ↔ filterf ep = true ∧ ep ∈ eps) as Hin by (intros ep; by rewrite list_elem_of_filter, Hl).
  assert (ip ∈ (match stack with IPv4 => src.1 | IPv6 => src.2 end) ↔ ∃ ep, (filterf ep = true ∧ ep ∈ eps) ∧ ip ∈ match stack with IPv4 => ept_IPv4 ep | IPv6 => ept_IPv6 ep end) as ->.
  { unfold src, srcIPs. rewrite Hall. setoid_rewrite <- Hin. destruct stack; cbn; rewrite list_elem_of_bind; naive_solver. }
  assert (∀ pod ep, up_to_date pod ep → ip ∈ (match stack with IPv4 => ept_IPv4 ep | IPv6 => ept_IPv6 ep end) ↔ podIP stack pod ip) as Hips.
  { intros pod ep (_ & _ & H4 & H6). rewrite <- splitPodIPs_elem. destruct stack; [by rewrite H4|by rewrite H6]. }
  split.
  - intros (ep & [Hf He] & Hip). destruct (Hep ep He) as (pod & Hp & Hu). exists pod. split_and!; [done|by apply (Hc pod ep)|by apply (Hips pod ep)].
  - intros (pod & Hp & Hcp & Hip). destruct (pod_endpoint stack pod ip Hp Hip) as (ep & He & Hu). exists ep. split_and!; [by apply (Hc pod ep)|done|by apply (Hips pod ep)].
Qed.
End sources.

(** ** The source sets *)

(** The pods of a policy that count on a node: all of them on the node of the policy's egress address, its own elsewhere. *)
Definition countsOn (cfg : AgentConfig) (flag : bool) (pod : Pod) : Prop := flag = true ∨ pod_NodeName pod = cfg_NodeName cfg.
Lemma local_counts cfg flag pod ep : up_to_date pod ep → local cfg flag ep = true ↔ countsOn cfg flag pod.
Proof. intros (_ & Hn & _). unfold local, countsOn. rewrite orb_true_iff, bool_decide_eq_true, Hn. tauto. Qed.

Section sets.
Context {W : Type} `{LS : LabelSelectors} `{PA : !PoliceApi W} `{IF : !Interface W} `{IL : !InterfaceLaws W} `{SF : !SetFrames W} (so : nat → MapOrder) (cfg : AgentConfig).

(** The sources that an update reads, from the slices it lists. *)
Lemma srcIPs_local ns name f sel l w src : ns ≠ "" → LabelSelectorAsSelector (policyLabel name) = Ret sel → (paListSlices ns sel w).2 = Ret l →
  (getPolicySrcIPs ns name f w).2 = Ret src → src = srcIPs f ((λ s, (sliceMeta s, Endpoints s)) <$> l).
Proof using.
  intros Hns Hsel Hl. unfold getPolicySrcIPs, mbind_, lift. rewrite Hsel, decide_False by done. destruct (paListSlices ns sel w) as [w' o]. cbn in Hl. subst o. by intros [= <-].
Qed.
Lemma srcIPs_cluster name f sel l w src : LabelSelectorAsSelector (policyLabel name) = Ret sel → (paListClusterSlices sel w).2 = Ret l →
  (getPolicySrcIPs "" name f w).2 = Ret src → src = srcIPs f ((λ s, (sliceMeta s, Endpoints s)) <$> l).
Proof using.
  intros Hsel Hl. unfold getPolicySrcIPs, mbind_, lift. rewrite Hsel, decide_True by done. destruct (paListClusterSlices sel w) as [w' o]. cbn in Hl. subst o. by intros [= <-].
Qed.

(** The sources of the policy on this node are exactly the addresses of its pods that count. *)
Definition sourcesAre (pods : list Pod) (flag : bool) (set : SetName) (w : W) : Prop :=
  ∃ m, sets w !! sn_Name set = Some m ∧ ∀ y, y ∈ m ↔ ∃ pod ip, pod ∈ pods ∧ countsOn cfg flag pod ∧ podIP (sn_Stack set) pod ip ∧ y = normalEntry ip.

Lemma update_sources {S} `{SO : !SliceOps S} (l : list S) pods eps r w r' w' ns name flag dest set :
  (∀ ep, ep ∈ eps → ∃ pod, pod ∈ pods ∧ up_to_date pod ep) →
  (∀ pod, pod ∈ pods → newEndpoint pod ≠ None → ∃ ep, ep ∈ eps ∧ epKey ep = podKey pod) → NoDup (podKey <$> pods) →
  Forall (λ s, om_Deleting (sliceMeta s) = false) l → allEndpoints l ≡ₚ eps →
  (∀ src, (getPolicySrcIPs ns name (local cfg flag) w).2 = Ret src → src = srcIPs (local cfg flag) ((λ s, (sliceMeta s, Endpoints s)) <$> l)) →
  known (r, w) → updatePolicyIPSet so cfg ns name flag dest (r, w) = ((r', w'), Ret tt) →
  set ∈ policySets cfg ns name → sn_Kind set = IPSrc → (∀ pod ip, pod ∈ pods → podIP (sn_Stack set) pod ip → canonicalEntry (normalEntry ip)) →
  sourcesAre pods flag set w'.
Proof using IL SF.
  intros Hep Hpod Hkeys Hdel Hl Hsrcs Hk E Hset Hkind Hcan. pose proof (tri_updatePolicyIPSet so cfg r (sets w) w ns name flag dest Hk eq_refl (r, w) eq_refl) as H.
  rewrite E in H. cbn [fst snd] in H. destruct H as [_ (src & dst & Hsrc & _ & Hr)]. apply Hsrcs in Hsrc.
  pose proof (λ ip, sources_elem pods eps Hep Hpod Hkeys (local cfg flag) (countsOn cfg flag) l (sn_Stack set) ip (local_counts cfg flag) Hdel Hl) as Hs. cbv zeta in Hs. rewrite <- Hsrc in Hs.
  assert (wanted src dst set = match sn_Stack set with IPv4 => src.1 | IPv6 => src.2 end) as Hw by (unfold wanted; by rewrite Hkind).
  exists (list_to_set (normalEntry <$> wanted src dst set)). split.
  - apply Hr; [done|]. intros e (x & -> & Hx)%list_elem_of_fmap. apply member_canonical. rewrite Hw, Hs in Hx. destruct Hx as (pod & Hp & _ & Hip). by eapply Hcan.
  - intros y. rewrite elem_of_list_to_set, list_elem_of_fmap, Hw. setoid_rewrite Hs. naive_solver.
Qed.
End sets.

(** C14. The pods that a policy selects are the sources in the kernel's sets.  Let the endpoint-slice controller plan the slices of a policy for some
    pods ([planSlices] returns) and let the stored slices of the policy have exactly the planned endpoints.  When an agent updates the sets of the policy without
    an error, the source sets have exactly the addresses of their IP version of the pods that count on its node: all pods on the node of the egress address, the pods of
    the node elsewhere; in the form in which the kernel lists them. *)
Theorem pods_reach_the_sets {W} `{LS : LabelSelectors} `{PA : !PoliceApi W} `{IF : !Interface W} `{IL : !InterfaceLaws W} `{SF : !SetFrames W} (so : nat → MapOrder) (cfg : AgentConfig)
    max pods (slices : list EgressEndpointSlice) newSlice plan ns name sel l r w r' w' flag dest set :
  (0 < max)%Z → Endpoints newSlice = [] → NoDup (podKey <$> pods) → NoDup (epKey <$> allEndpoints slices) → Forall (fits max) slices →
  planSlices max pods slices newSlice = Ret plan →
  ns ≠ "" → LabelSelectorAsSelector (policyLabel name) = Ret sel → (paListSlices ns sel w).2 = Ret l → Forall (λ s, om_Deleting (sl_Meta s) = false) l →
  allEndpoints l ≡ₚ allEndpoints (plan_update plan ++ plan_keep plan ++ plan_create plan) →
  known (r, w) → updatePolicyIPSet so cfg ns name flag dest (r, w) = ((r', w'), Ret tt) →
  set ∈ policySets cfg ns name → sn_Kind set = IPSrc → (∀ pod ip, pod ∈ pods → podIP (sn_Stack set) pod ip → canonicalEntry (normalEntry ip)) →
  sourcesAre cfg pods flag set w'.
Proof.
  intros Hmax Hnew Hkeys Heps Hfit Hplan Hns Hsel Hlist Hdel Hl Hk E Hset Hkind Hcan.
  destruct (plan_publishes max pods slices newSlice Hmax Hnew Hkeys Heps Hfit) as (plan' & Hplan' & _ & H1 & H2 & _). rewrite Hplan in Hplan'. injection Hplan' as <-.
  eapply (update_sources so cfg l pods _ r w r' w' ns name flag dest set); try done. intros src. by eapply srcIPs_local.
Qed.

(** *** A run *)

(** The controller plans slices of two endpoints each for three pods; the agent of node1, which does not have the egress address, keeps the pods of its node. *)
Definition plan1 : Plan EgressEndpointSlice := match planSlices 2 samplePods sampleSlices (mkSlice zeroMeta []) with Ret p => p | _ => mkPlan [] [] [] end.
Definition published : list EgressEndpointSlice :=
  (λ s, mkSlice (mkMeta "p-s" "ns" {[LabelPolicyName := "p"]} [] false 1) (sl_Endpoints s)) <$> plan_update plan1 ++ plan_keep plan1 ++ plan_create plan1.
Definition cfg2 : AgentConfig := mkAgentConfig "node1" true true "0x26000000" true 39 "egress.vxlan" 0 0 false.
Definition node3 : AgentWorld := mkAgentWorld [] [] [] [] [] published [] ∅ ∅ [].
Definition sourceSet : SetName := mkSetName (setName "egress-src-v4-" "ns-p") IPv4 IPSrc.
Definition run3 := updatePolicyIPSet so1 cfg2 "ns" "p" false [] (agent1, node3).

Lemma pods_reach_the_sets_witness : sourcesAre cfg2 samplePods false sourceSet run3.1.2 ∧ sets run3.1.2 !! sn_Name sourceSet = Some {["10.1.0.1"]}.
Proof.
  split; [|vm_compute; reflexivity].
  apply (pods_reach_the_sets (LS := store_labels) (PA := world_api) so1 cfg2 2 samplePods sampleSlices (mkSlice zeroMeta []) plan1 "ns" "p" (policyLabel "p") published agent1 node3 run3.1.1 run3.1.2 false [] sourceSet).
  - done.
  - done.
  - apply (bool_decide_unpack _). vm_compute. exact I.
  - apply (bool_decide_unpack _). vm_compute. exact I.
  - apply Forall_cons. split; [done|apply Forall_nil_2].
  - vm_compute. reflexivity.
  - done.
  - vm_compute. reflexivity.
  - vm_compute. reflexivity.
  - vm_compute. repeat constructor.
  - assert (allEndpoints published = allEndpoints (plan_update plan1 ++ plan_keep plan1 ++ plan_create plan1)) as -> by (vm_compute; reflexivity). done.
  - apply agent1_known.
  - vm_compute. reflexivity.
  - vm_compute. by left.
  - done.
  - intros pod ip Hpod Hip. unfold samplePods in Hpod. repeat (apply elem_of_cons in Hpod as [->|Hpod]); try by apply elem_of_nil in Hpod.
    all: destruct Hip as [Hin H4]; cbn in Hin; repeat (apply elem_of_cons in Hin as [->|Hin]); try by apply elem_of_nil in Hin.
    all: first [by apply (canonical_addr _ [10; 1; 0; 1]%Z)|by apply (canonical_addr _ [10; 1; 0; 2]%Z)|by apply (canonical_addr _ [10; 1; 0; 3]%Z)|exfalso; by vm_compute in H4].
Defined.
