(* ===== verification/TrafficPath.v ===== *)
(** * The traffic of a policy

    The two controllers and the two agents of a node joined: a packet of a pod that a
    policy selects is marked on the pod's node, and the mark leads through the tunnel to
    the node that has the policy's egress address. *)

From S2P Require Import Prelude GoStd Allocator MarkAllocator Pool GoNet GoFmt IPUtil IPAllocator Types GatewayCore GatewayProps ApiServer Utils GatewayReconcile GatewayInvariant Store Egctl ClusterTheorems EndpointSlice Triple StateM Sha1 IptablesRule IptablesTable IptablesKernel IptablesText IptablesUpdate IptablesLoad IptablesApply IptablesTheorems IptablesFrame IPSet IPSetLaws Police PoliceSets PoliceRules PoliceTables PoliceInit PoliceStore Tunnel TunnelTheorems TunnelStore Netlink Route VxlanDevice Vxlan VxlanTheorems VxlanStore EndToEnd DataPath DataPathStore.
Open Scope nat_scope.

(** The tables for marks have exactly one rule for the policy, with this mark. *)
Definition marksWith {W} (IT : nat → Iptables W) `{KT : !KernelText} (TL : ∀ v n, @IptablesLaws W n (IT v) KT) (s : policeReconciler * W) (p : Policy) (val : PolicyCommon) (mark : Z) : Prop :=
  ∀ i tb, mangleTables s.1 !! i = Some tb → ∃ rules ans m, chainIs IT TL KMangle tb s.2 markChain rules ∧ m !! p = None ∧
    rules ≡ₚ markRule p val (tb_IPVersion tb) mark :: markSpec (tb_IPVersion tb) ans m.

Lemma marks_with {W} `{LS : LabelSelectors} `{PA : !PoliceApi W} (IT : nat → Iptables W) `{KT : !KernelText} (TL : ∀ v n, @IptablesLaws W n (IT v) KT) (s : policeReconciler * W) p val t mark :
  (∀ w, (paGetTunnel (pc_NodeName val) w).2 = Ret t) → parseMark (t_Mark t) = Ret mark → EndToEnd.marks IT TL s p val → marksWith IT TL s p val mark.
Proof.
  intros Ht Hmark Hm i tb Hi. destruct (Hm i tb Hi) as (rules & o & ans & m & Hc & [w Ho] & Hp & Hr). exists rules, ans, m. split_and!; [done|done|].
  destruct o as [mark'|]; [|destruct Ho as [e He]; rewrite Ht in He; done]. destruct Ho as (t' & Ht' & Hmark'). rewrite Ht in Ht'. injection Ht' as <-. assert (mark' = mark) as -> by congruence. exact Hr.
Qed.

(** C3. The traffic of a policy reaches the node of its egress address.  Let a gateway that the gateway controller keeps assign the policy to a node, and let the
    tunnel controller keep that node's tunnel, after any runs of both (no other listed gateway has the policy).  On any other node, whose policy agent has tables in
    legacy mode that can be trusted ([allOK]), can read that tunnel and meets only texts that need no quoting, let the first run of the policy agent return and let the tunnel agent, which
    has seen the tunnel, make a turn without an error.  Then the packets that match the policy get one mark, in every table for marks by exactly one rule;
    none gets an egress address there; and the mark, if it is not 0, has exactly one routing rule in each IP version of the tunnel, to a table whose routes all lead to the
    tunnel's address, whose neighbour entry and forwarding entry lead to the assigned node. *)
Theorem egress_traffic_reaches_its_node
    {V : Type} `{LS : LabelSelectors} `{AS : !ApiServer V} `{AL : !ApiServerLaws V} `{MO : MapOrder} `{RD : Rand}
    {C T : Type} `{TC : TunnelLaws C} `{AT : AllocLaws T}
    {W : Type} `{PA : !PoliceApi W} `{IF : !Interface W} (IT : nat → Iptables W) `{KT : !KernelText} (TL : ∀ v n, @IptablesLaws W n (IT v) KT) `{TF : !TableFrames W IT TL}
    {U : Type} `{NL : !Netlink U} (kern : U → kernel) `{HL : !NetlinkLaws U kern} `{VA : !VxlanApi U} (stored : U → gmap string EgressTunnel) `{ST : !StoredTunnels U stored}
    so to po cfg fuel s s' (v0 v : V) gs g ns name a
    xcfg rr order getParent errText (c0 c : egReconciler (Range T) (IPRange T) * C) u0 x y start end_ t mark :
  AllOk v0 → reachable v0 v → listedIn v gs → onePlace gs → g ∈ gs → getAssignedIP g ns name = Some a →
  plainText (cfg_VXLANName cfg) → (∀ w l, (paListTunnels w).2 = Ret l → Forall (λ t, plainText (t_MAC t)) l) →
  Forall (λ g, ∀ node eip, node ∈ NodeList g → eip ∈ n_Eips node → plainText (e_IPv4 eip) ∧ plainText (e_IPv6 eip)) gs →
  applyFuel <= fuel → allOK IT TL (versions cfg) s → (paListGateways s.2).2 = Ret gs →
  initApplyPolicy IT so to po cfg fuel s = (s', Ret tt) →
  Inv c0 → rtc tunnel_step c0 c → wellWritten c.1 (tunnels c.2) →
  stored u0 = tunnels c.2 → (∀ v w, stored (getParent v w).1 = stored w) →
  rtc (vxlan_step xcfg rr getParent errText) (newVxlanReconciler xcfg, u0) x →
  RangeSize (cf_Mark xcfg) = Ret (start, end_) → keepVXLAN xcfg rr order getParent x = (y, Ret 10%Z) → errorLog y.1 = errorLog x.1 →
  cfg_NodeName cfg = cf_NodeName xcfg → a_Node a ≠ cfg_NodeName cfg →
  tunnels c.2 !! a_Node a = Some t → is_Some (peerMap x.1 !! a_Node a) → (∀ w, (paGetTunnel (a_Node a) w).2 = Ret t) → parseMark (t_Mark t) = Ret mark →
  let p := mkPolicy name ns in
  ∃ dest l, destsOf so p dest ∧ marksWith IT TL s' p (remoteAssigned a dest) mark ∧ snatsNot IT TL s' p ∧ leadsTo rr (version xcfg) (vx_Index l) t (kern y.2).
Proof.
  intros Hv0 Hreach Hlist Hone Hg Ha Hvx Htun Hpl Hf Hok Hl E HI Hrun Hww Hu0 Hpar Hx Hrange Hturn Hlog Hname Hne Ht [q Hq] Hget Hmark p.
  destruct (assigned_programmed IT TL so to po cfg fuel s s' v0 v gs g ns name a Hv0 Hreach Hlist Hone Hg Ha Hvx Htun Hpl Hf Hok Hl E) as (dest & Hd & Hms). rewrite decide_False in Hms by done.
  destruct (tunnels_programmed kern stored xcfg rr order getParent errText c0 c u0 x y start end_ HI Hrun Hww Hu0 Hpar Hx Hrange Hturn Hlog) as (l & _ & _ & _ & _ & _ & _ & Hall & _).
  exists dest, l. destruct Hms as [Hm Hs]. split_and!; [done|by eapply marks_with|done|].
  destruct (Hall (a_Node a) q Hq) as (t' & Ht' & Hlead); [congruence|]. rewrite Ht in Ht'. by injection Ht' as <-.
Qed.

(** ** A run *)

(** The policy agent reads the tunnels that the tunnel controller stored; the rest is in its world. *)
Definition made (n : string) : outcome EgressTunnel := if decide (n = "node1") then Ret made1 else if decide (n = "node2") then Ret made2 else Err (ErrApi NotFound).
Definition joint_api : PoliceApi AgentWorld := {|
  paListGateways := @paListGateways _ _ world_api; paGetGateway := @paGetGateway _ _ world_api; paGetPolicy := @paGetPolicy _ _ world_api;
  paGetClusterPolicy := @paGetClusterPolicy _ _ world_api; paGetTunnel := λ n w, (w, made n); paListTunnels := λ w, (w, Ret [made1; made2]);
  paGetClusterInfo := @paGetClusterInfo _ _ world_api; paListSlices := @paListSlices _ _ world_api; paListClusterSlices := @paListClusterSlices _ _ world_api
|}.
Lemma joint_frames : @TableFrames AgentWorld store_labels joint_api _ world_iptables _ worldLaws.
Proof.
  split; try done;
    [apply (tf_save (TableFrames := world_tableFrames))|apply (tf_restore (TableFrames := world_tableFrames))|apply (tf_CreateSet (TableFrames := world_tableFrames))
    |apply (tf_AddEntry (TableFrames := world_tableFrames))|apply (tf_DelEntry (TableFrames := world_tableFrames))|apply (tf_DestroySet (TableFrames := world_tableFrames))
    |apply (tf_ListEntries (TableFrames := world_tableFrames))|apply (tf_ListSets (TableFrames := world_tableFrames))].
Qed.

(** The gateway controller handles a policy and picks node2; the agents are those of node1. *)
Definition gatewayOf (eips : list Eips) : EgressGateway :=
  mkGateway (meta "" "gw1") (mkGatewaySpec false (mkIppools ["10.6.1.21-10.6.1.30"] [] "" "") (mkNodeSelector "" None))
    (mkGatewayStatus [mkEgressIPStatus "node1" [mkEips "10.6.1.22" "" [mkPolicy "pol2" "ns1"]] "Ready"; mkEgressIPStatus "node2" eips "Ready"] zeroUsage).
Definition gatewayStore : Store :=
  mkStore {["gw1" := gatewayOf []]}
    {[mkNN "ns1" "pol1" := mkEgressPolicy (meta "ns1" "pol1") (mkPolicySpec "gw1" (mkEgressIP "10.6.1.21" "" false "") (mkAppliedTo None []) [] 0) zeroPolicyStatus]} ∅ ∅ ∅ [].
Definition gatewayStoreAfter : Store := (GatewayReconcile.Reconcile (MO := map_order_id) (RD := rand_zero) (mkNN "EgressPolicy/ns1" "pol1") gatewayStore).1.
Definition gatewayMade : EgressGateway := default (gatewayOf []) (st_gateways gatewayStoreAfter !! "gw1").
Definition jointCfg : AgentConfig := mkAgentConfig "node1" true false "0x26000000" true 39 "egress.vxlan" 0 0 false.
Definition jointAgent : policeReconciler := match newPolicyController jointCfg 0 with Ret r => r | _ => mkPolice ∅ false [] [] [] end.
Definition jointNode : AgentWorld := mkAgentWorld [gatewayMade] (aw_policies cluster1) [] [] [] (aw_slices cluster1) [] (aw_sets cluster1) (aw_tables cluster1) [].
Definition jointRun := initApplyPolicy (PA := joint_api) world_iptables so1 to1 po1 jointCfg 42 (jointAgent, jointNode).

Lemma jointRun_returns : jointRun = (jointRun.1, Ret tt).
Proof. assert (jointRun.2 = Ret tt) as <- by (vm_compute; reflexivity). apply surjective_pairing. Qed.
Lemma jointNode_ok : allOK world_iptables worldLaws (versions jointCfg) (jointAgent, jointNode).
Proof. eapply (newPolicyController_ok world_iptables worldLaws jointCfg 0); [done| |reflexivity]. intros k v. exact (cluster1_wf v (kindName k)). Qed.
Lemma gatewayStore_ok : AllOk gatewayStore.
Proof. intros k g Hg. simpl in Hg. apply lookup_singleton_Some in Hg as [_ <-]. split; apply (bool_decide_unpack _); vm_compute; exact I. Qed.

Section run.
#[local] Existing Instance rand_zero.
Lemma egress_traffic_reaches_its_node_witness : ∃ dest l, destsOf (PA := joint_api) so1 (mkPolicy "pol1" "ns1") dest ∧
  marksWith world_iptables worldLaws jointRun.1 (mkPolicy "pol1" "ns1") (mkCommon "node2" dest (mkEIP "" "") false) 0x26000002 ∧
  snatsNot world_iptables worldLaws jointRun.1 (mkPolicy "pol1" "ns1") ∧ leadsTo rr1 4 (vx_Index l) made2 (nodeKernel (onTurn agentRun).2).
Proof.
  apply (egress_traffic_reaches_its_node (MO := map_order_id) (RD := rand_zero) (PA := joint_api) world_iptables worldLaws (TF := joint_frames) nodeKernel snd
    so1 to1 po1 jointCfg 42 (jointAgent, jointNode) jointRun.1 gatewayStore gatewayStoreAfter [gatewayMade] gatewayMade "ns1" "pol1"
    (GatewayCore.mkAssigned "node2" "10.6.1.21" "" false)
    nodeCfg rr1 inOrder nodeParent (λ _, "") controllerStart controllerRun node0 agentRun (onTurn agentRun) 0x26000000%Z 0x26ffffff%Z made2 0x26000002).
  - exact gatewayStore_ok.
  - eapply reachable_step; [apply reachable_init|apply (step_reconcile gatewayStore)].
  - intros g ->%list_elem_of_singleton. exists "gw1". vm_compute. reflexivity.
  - by intros p g g' ->%list_elem_of_singleton ->%list_elem_of_singleton.
  - by left.
  - vm_compute. reflexivity.
  - apply (bool_decide_unpack _). vm_compute. exact I.
  - intros w l [= <-]. repeat constructor; apply (bool_decide_unpack _); vm_compute; exact I.
  - constructor; [|done]. intros node eip Hn He. vm_compute in Hn. repeat (apply elem_of_cons in Hn as [->|Hn]; [cbn in He; apply list_elem_of_singleton in He as ->;
      split; apply (bool_decide_unpack _); vm_compute; exact I|]). by apply elem_of_nil in Hn.
  - done.
  - exact jointNode_ok.
  - done.
  - exact jointRun_returns.
  - apply Inv_none; [apply fleetController_empty|done].
  - exact controllerRun_steps.
  - exact controllerRun_written.
  - done.
  - intros v w. apply onNet_stored.
  - unfold agentRun. eapply rtc_l; [apply (vs_event nodeCfg rr1 nodeParent (λ _, "") inOrder 1 (mkNN "EgressTunnel/" "node2"))|].
    eapply rtc_l; [apply (vs_event nodeCfg rr1 nodeParent (λ _, "") inOrder 1 (mkNN "EgressTunnel/" "node1"))|].
    eapply rtc_l; [apply (vs_turn nodeCfg rr1 nodeParent (λ _, "") inOrder)|]. apply rtc_refl.
  - vm_compute. reflexivity.
  - vm_compute. reflexivity.
  - vm_compute. reflexivity.
  - done.
  - done.
  - vm_compute. reflexivity.
  - vm_compute. by eexists.
  - done.
  - vm_compute. reflexivity.
Defined.
End run.
